(* ===== verification/_CoqProject ===== *)
-Q . S2P
Prelude.v
JsNumber.v
JsString.v
JsValue.v
JsArray.v
JsMap.v
JsGroup.v
JsInteger.v
FrameTrack.v
Fidelity.v
RansHold.v
NoShedding.v
Numeric.v
UransCyclePolicy.v
UransCycle.v
PolarEvidence.v
RetryPlan.v
Scheduling.v
UransQuality.v
RecoveryPolicy.v
Lifecycle.v
Background.v
Canonical.v
AperiodicMean.v
EngineIdentity.v
EvidenceGate.v
Classifier.v
QueuedDisk.v
DiskAdmission.v
NotificationDrain.v
CanonicalJson.v
StableJson.v
SetupIdentity.v
BatchGroup.v
SolverBudget.v
JobSlots.v
Reconcile.v
ProgressiveExecution.v
RemoteExecution.v
RemoteReport.v
ReportPoints.v
RefreshCache.v
EvidenceManifest.v
FitRequest.v
FitStore.v
CampaignPlan.v
ResultInterpretation.v
PolarCompatibility.v
PrecalcSettlement.v
BlobLocks.v
RemoteUpload.v
AdminAuth.v
