(* ===== verification/Prelude.v ===== *)
(** * XFoilFOAM: a verification development

    XFoilFOAM is a TypeScript monorepo around a Python service that runs OpenFOAM.
    A control plane ([apps/api]) keeps airfoils, campaigns, solver results and
    evidence in PostgreSQL; a background process ([apps/sweeper]) admits solver
    jobs, follows them, ingests what they return, schedules the unsteady (URANS)
    follow-up of steady (RANS) points and fits polars; remote machines run solver
    work under sealed assignments and report back; shared decisions live in
    [packages/core], the engine's wire contracts in [packages/engine-client], the
    stored contracts in [packages/db]; [apps/web] is the user interface.

    The development models the decisions of that system: what is accepted as
    evidence, what is scheduled and admitted, what identifies stored content, and
    the state machines of the background loops.  SQL, HTTP and the file system are
    not modelled: where a modelled function calls them, their outcome is an argument.
    All paths below are relative to [src/].

    ** How the parts interact

    - The engine returns points with certificates.  The strict parsers ([FrameTrack],
      [Fidelity], [RansHold], [NoShedding], [UransCycle], [AperiodicMean]) read them;
      [EvidenceGate] decides from one point whether it may enter a polar, and
      [Classifier] from the whole polar; [RetryPlan] hands rejected steady points to
      URANS, [RecoveryPolicy] and [UransQuality] decide what becomes of rejected
      unsteady attempts; [PrecalcSettlement] is the life of one preliminary obligation
      between them.  [ResultInterpretation] turns the proofs of a point into
      stored rows and selects the canonical value of a result from them, and
      [PolarCompatibility] selects one result for each angle of a polar.
    - [CampaignPlan] expands a plan into conditions and angles through [Canonical];
      [BatchGroup] groups the conditions that share their physics into jobs, by the text
      of [StableJson]; [SetupIdentity] hashes the same text into the identities of
      setups; [Scheduling] picks the solver family and the next angle of a fast polar.
    - The sweeper admits a batch of jobs when [DiskAdmission] allows it, on the
      forecast of [QueuedDisk], with the CPU slots that [JobSlots] pins for them;
      [Lifecycle] judges jobs that are in the queue and [Reconcile] those that run;
      [Background], [NotificationDrain] and [RefreshCache] are its loops and caches.
    - A remote assignment is a [ProgressiveExecution] scope with the allocations of
      [SolverBudget] and an engine of [EngineIdentity], sealed by [RemoteExecution]
      with the content hash of [CanonicalJson]; [RemoteReport] and [ReportPoints]
      check what comes back against it; [EvidenceManifest] names the members of the
      evidence archive behind a result.  [RemoteUpload] transfers bundles and pushes,
      and [BlobLocks] orders the imports and cleanups that meet on one content.
    - [AdminAuth] guards the administrator routes of the control plane: it issues and
      checks the signed sessions under which all of the above is operated.
    - [FitRequest] reduces the evidence of a target to one fit request; [FitStore]
      checks the request and the response of the fitting service before storing.

    ** Files

    Base of the library:
    - [Prelude]: exceptions as values ([result], [let*], [throw_if]), tactics and the
      list and option lemmas the components share (no code of the program).
    - [JsNumber], [JsString], [JsValue], [JsArray], [JsMap], [JsGroup], [JsInteger]: the
      JavaScript values and the built-in operations that the program uses, grouping by a
      numeric key and the exactness of integers included; [JsValue] also has [CheckSpec],
      the interface against which the error-accumulating validators are proved.
    - [Numeric]: the field conditions that the contract parsers share.

    Evidence contracts:
    - [FrameTrack]: [packages/engine-client/src/frame-track.ts].
    - [Fidelity]: [packages/engine-client/src/fidelity.ts].
    - [RansHold]: [packages/engine-client/src/rans-hold-certificate.ts].
    - [NoShedding]: [packages/core/src/no-shedding-certificate.ts].
    - [AperiodicMean]: [packages/core/src/aperiodic-mean-certificate.ts].
    - [UransCyclePolicy]: [packages/core/src/urans-cycle-policy.ts].
    - [UransCycle]: [packages/engine-client/src/urans-cycle-certificate.ts].
    - [EvidenceManifest]: [packages/db/src/evidence-archive-manifest.ts].

    Decisions on evidence:
    - [PolarEvidence], [EvidenceGate], [Classifier]: [packages/core/src/polar-fit.ts]
      (the predicates other files import, [baseRejectionReasons], and
      [classifyPolarEvidence]).
    - [UransQuality]: [packages/core/src/urans-quality.ts].
    - [RecoveryPolicy]: [packages/core/src/precalc-recovery-policy.ts].
    - [RetryPlan]: [apps/sweeper/src/retry-plan.ts].
    - [ResultInterpretation]: [apps/sweeper/src/result-interpretations.ts].
    - [PolarCompatibility]: [packages/db/src/polar-compatibility-cache.ts], with the
      mirror images of [packages/core/src/symmetry.ts].
    - [PrecalcSettlement]: [packages/db/src/precalc-obligations.ts], with the lease of
      [apps/sweeper/src/precalc-composition.ts].

    Planning and admission:
    - [Canonical]: [packages/core/src/canonical.ts].
    - [CampaignPlan]: the plan document of [packages/db/src/campaigns.ts] and its
      mirror [apps/web/components/admin/campaigns/plan-model.ts].
    - [Scheduling]: [packages/core/src/progressive-scheduling.ts].
    - [SolverBudget], [ProgressiveExecution]: [solver-budget.ts] and
      [progressive-execution.ts] of [packages/engine-client/src].
    - [JobSlots]: the CPU reservations of [build-request.ts] and [reconcile.ts] of
      [apps/sweeper/src].
    - [StableJson], [SetupIdentity]: [simulation-setup.ts], [mesh-physics-hash.ts] and the
      targets of [analysis-target.ts], of [packages/db/src].
    - [BatchGroup]: [packages/db/src/campaign-execution.ts].
    - [QueuedDisk], [DiskAdmission]: [queued-disk-exposure.ts] and
      [disk-admission.ts] of [apps/sweeper/src].

    Background loops:
    - [Lifecycle]: [packages/engine-client/src/lifecycle.ts].
    - [Background]: [engine-backoff.ts] and [single-flight.ts] of [apps/sweeper/src].
    - [NotificationDrain]: [apps/sweeper/src/notification-drain.ts].
    - [Reconcile]: the worker pool and the verdicts on lost jobs of
      [apps/sweeper/src/reconcile.ts].
    - [RefreshCache]: the cache class of [packages/db/src/campaign-summary-metrics.ts].

    Remote execution and fitted polars:
    - [EngineIdentity]: [packages/engine-client/src/engine-identity.ts].
    - [CanonicalJson]: the canonical form of [packages/db/src/analysis-target.ts].
    - [RemoteExecution]: [packages/db/src/progressive-remote-execution.ts].
    - [RemoteReport], [ReportPoints]: [packages/db/src/progressive-remote-report.ts],
      with [progressive-cfd-settlement.ts] (the stop proof),
      [progressive-remote-inventory.ts] and [progressive-remote-retention.ts].
    - [RemoteUpload]: the transfers of [apps/sweeper/src/remote-solver.ts], with
      [packages/core/src/gcs-resumable-url.ts].
    - [BlobLocks]: the lock lanes of [apps/api/src/sync-routes.ts],
      [packages/db/src/result-evidence-lock.ts] and [apps/sweeper/src/retention.ts].
    - [FitRequest]: [apps/sweeper/src/progressive-fitting.ts] with
      [packages/db/src/progressive-evidence-geometry.ts].
    - [FitStore]: [packages/db/src/progressive-polar-cache.ts] (its validators) with
      [progressive-polar-conflicts.ts].

    Control plane:
    - [AdminAuth]: [apps/api/src/admin-auth.ts] and the login routes of
      [apps/api/src/admin-routes.ts].

    Every definition keeps the name of the function or type it translates; where the
    code has an anonymous piece (a loop body, a guard), the definition is named after
    what it does and its comment says where it is.

    ** What the theorems show

    - Contracts: a strict parser accepts exactly the encodings of the valid records,
      and a valid certificate means what it claims (a hold spans its window, a
      certified cycle suffix is the terminal run of clean cycles, ...).
    - Gates: nothing with an incomplete proof passes ([EvidenceGate], [Classifier],
      [ResultInterpretation]); the gate accepts no hold that the parser rejects; the
      staged rows of an archive are selectable exactly when their proof is; selection
      never retargets a generation; a polar has one published result for each angle,
      whatever the order of the rows; an obligation is satisfied by evidence only.
    - Decisions: retry angles, plan conditions and points, anchors and ladder actions
      are characterised on every branch, the errors included.
    - Admission: an admitted batch, whichever the scheduler picks, fits the storage;
      every failure of a measurement closes admission.
    - Machines: no lost wake-up in the drain loop, one task or load at a time, values
      served by the cache are truthful, accepted report streams never go back; every
      retry of a preliminary solve is paid for (by the budget, by an attempt given back, or
      by progress of a continuation) and its counters stay in bounds; an upload is never
      idle for more than five turns in a row and ends; the lock lanes never deadlock and keep equal contents apart.
    - Jobs: a worker pool runs each item once, reservations are whole process groups, a
      batch holds exactly the entries of its head's physics, a running job is declared lost
      only on evidence.
    - Identity: two revisions (or analysis targets) have one hash exactly when they have
      the same conditions, listed one by one, while the digest tells the texts at hand
      apart; canonical JSON does not depend on key order and reads back; a seal
      verifies exactly against the stored assignment; paths of a manifest are safe.
    - Access: a session that opens a guarded route was signed with the secret and is not
      over; an issued one is accepted until then; a login redirects to the target of its
      signed state; the state of a Google login, which
      anybody can ask for, is accepted as a session too, which is a flaw of the code.
    - Fitting: evidence of one lineage counts once, requests are bounded, requests
      that are built are accepted and those with left-out evidence refused.
    - Numbers: half-even rounding on digit strings equals integer arithmetic; the
      angle range loop terminates with the expected steps.

    ** Conventions

    - A number is the kernel's binary64 [float], with the primitive operations;
      [JsNumber.ord] embeds the non-NaN numbers into [Z] in order, so comparisons are
      decided by [lia].  Counters that the code keeps far below 2^53 are [Z] or [nat].
      [Math.sqrt] is the correctly rounded primitive.
    - An [unknown] value is a [jsval]: objects list their own properties in
      [Object.keys] order.  Prototype chains, getters and symbols do not occur in
      parsed JSON and are not modelled.
    - Strings are 8-bit code units: the program's keys, markers and identifiers are
      ASCII.
    - [sort] is the stable sort of the specification for a consistent comparator.
    - An exception is [Throw] with its message; messages made from values of other
      types are kept as the code builds them.
    - Shared mutable objects are references into a heap where a claim depends on it
      (verdicts in [Classifier], entries in [RefreshCache]).
    - Asynchronous code is a step relation between [await]s; what the environment
      does is an event.
    - [localeCompare], SHA-256, [Date.parse], [Math.hypot], [Math.log] and [**] are
      parameters of the sections that use them; each hypothesis on them is documented
      behaviour (a total preorder, a deterministic digest without collisions among the
      texts at hand) and every theorem with one has a concrete instance.  The host's part
      of a session token (HMAC, base64url of JSON) is the class [AdminAuth.TokenHost],
      with its laws in a class of their own.

    ** Bounds and fuel

    - [Canonical.rangeLoop] takes fuel and returns [None] without it;
      [expandAngleGrid_range] gives the amount that is enough for a representable grid
      (one more than its points).  [CampaignPlan] passes it on.
    - [JsString.shortest] tries at most 17 digits, which always suffice for binary64;
      [digits] has fuel for the binary length of the number; [replaceAll] consumes a
      character for each unit of fuel, of which it has the length of the text.
    - [RefreshCache.prune] has one unit for each entry: each round removes one.
    - Runs of machines ([PrecalcSettlement], [RemoteUpload], [BlobLocks], ...) are lists of
      events of any length; that they end is a theorem about every such list.
    - [QueuedDisk] forecasts at most 4096 queued jobs, as the code does; beyond that
      the fallback applies, and the theorem carries that bound.

    ** Not modelled

    - The HTTP handlers (except the login) and read services of [apps/api], the ingestion, campaign,
      stage and URANS-ladder transactions of [apps/sweeper] and [packages/db]: their
      decisions are SQL statements under locks, and the effect of a statement is that
      of PostgreSQL on a schema of several hundred tables and triggers.  The pure
      functions they call are modelled where listed above; the ones still left are
      small projections and parsers, mostly in [apps/sweeper/src/ingest.ts],
      [apps/sweeper/src/remote-solver.ts] and [apps/api/src/sync-routes.ts].  Of the
      modelled transactions ([PrecalcSettlement], [PolarCompatibility],
      [ResultInterpretation]) the rows that a query returns are arguments.
    - The database schema, client, migrations and seed: declarations.
    - The engine HTTP client and the evidence broker: [fetch], streams and files.
    - Curve fitting and chart projection, gas and viscosity models, airfoil geometry:
      closed numerical formulas with host functions (exp, log, pow, sin) whose results
      ECMAScript leaves to the implementation, without a contract in the code.
    - The web application: React components; only the campaign plan mirror is
      modelled.
    - Operator command lines, deployment scripts and the Python solver engine. *)

From Stdlib Require Import ZArith Lia Bool String.
From stdpp Require Import base list strings option numbers.

(** ** Automation

    [js] holds the facts about numbers that guards of the code give; the
    components resolve their side conditions with [auto with js]. *)
Create HintDb js.

(** Weaken a [Forall] along a pointwise implication. *)
Ltac forall_impl H := eapply List.Forall_impl; [|exact H].

(** ** Booleans *)

(** Turn boolean connectives of the code into propositions, everywhere. *)
Ltac breflect :=
  repeat first
    [ rewrite Bool.andb_true_iff in * | rewrite Bool.orb_false_iff in *
    | rewrite Bool.andb_false_iff in * | rewrite Bool.orb_true_iff in *
    | rewrite Bool.negb_true_iff in * | rewrite Bool.negb_false_iff in * ].

Lemma bool_iff_eq (a b : bool) : (a = true <-> b = true) -> a = b.
Proof. destruct a, b; naive_solver. Qed.

Lemma not_true_iff_false' (b : bool) : ~ (b = true) <-> b = false.
Proof. destruct b; naive_solver. Qed.

(** ** Exceptions

    The result of a function that may [throw new Error(message)]. *)
Inductive result (A : Type) :=
  | Ok (a : A)
  | Throw (message : string).
Arguments Ok {A} a.
Arguments Throw {A} message.

Definition bind_result {A B} (r : result A) (f : A -> result B) : result B :=
  match r with Ok a => f a | Throw m => Throw m end.

Declare Scope result_scope.
Delimit Scope result_scope with result.
Notation "'let*' x ':=' r 'in' k" := (bind_result r (fun x => k))
  (at level 10, x name, r at level 100, k at level 200) : result_scope.

Definition throws {A} (r : result A) : bool := match r with Throw _ => true | Ok _ => false end.

Lemma bind_ok {A B} (r : result A) (f : A -> result B) (b : B) :
  bind_result r f = Ok b <-> exists a, r = Ok a /\ f a = Ok b.
Proof. destruct r; cbn; naive_solver. Qed.

Lemma throws_bind {A B} (r : result A) (f : A -> result B) :
  throws (bind_result r f) = true <->
  throws r = true \/ exists a, r = Ok a /\ throws (f a) = true.
Proof. destruct r; cbn; naive_solver. Qed.

(** [if (b) throw new Error(message)] *)
Definition throw_if (b : bool) (message : string) : result unit :=
  if b then Throw message else Ok tt.

Lemma throw_if_ok (b : bool) (message : string) (u : unit) :
  throw_if b message = Ok u <-> b = false.
Proof. destruct b, u; naive_solver. Qed.

Lemma bind_throw_if {B} (b : bool) (message : string) (k : unit -> result B) (y : B) :
  bind_result (throw_if b message) k = Ok y <-> b = false /\ k tt = Ok y.
Proof. destruct b; naive_solver. Qed.

(** [xs.map(f)] for a callback that may throw: the first exception is thrown. *)
Section ResultMap.
Context {A B : Type} (f : A -> result B).

Fixpoint result_map (l : list A) : result (list B) :=
  match l with
  | [] => Ok []
  | x :: l' => bind_result (f x) (fun y => bind_result (result_map l') (fun ys => Ok (y :: ys)))
  end.

Lemma result_map_ok (l : list A) : forall ys,
  result_map l = Ok ys <-> Forall2 (fun x y => f x = Ok y) l ys.
Proof.
  induction l as [|x l IH]; intros ys; cbn [result_map].
  - split; [intros [= <-]; constructor|]. by inversion 1.
  - rewrite bind_ok. split.
    + intros (y & Hy & (ys' & Hys%IH & [= <-])%bind_ok). by constructor.
    + inversion 1 as [|? y ? ys' Hy Hys]; subst. apply IH in Hys. exists y. split; [done|].
      apply bind_ok. by exists ys'.
Qed.

Lemma result_map_perm (l l' : list A) :
  Permutation l l' -> forall ys, result_map l = Ok ys ->
  exists ys', result_map l' = Ok ys' /\ Permutation ys ys'.
Proof.
  induction 1 as [|x l l' _ IH|x y l|l l1 l2 _ IH1 _ IH2]; intros ys; cbn [result_map].
  - intros [= <-]. by exists [].
  - rewrite !bind_ok. intros (b & Hb & (bs & Hbs & [= <-])%bind_ok).
    destruct (IH bs Hbs) as (bs' & Hbs' & Hp). exists (b :: bs'). split; [|by constructor].
    rewrite Hb. cbn. by rewrite Hbs'.
  - rewrite bind_ok. intros (b & Hb & (bs & (c & Hc & (cs & Hcs & [= <-])%bind_ok)%bind_ok & [= <-])%bind_ok).
    exists (c :: b :: cs). split; [|apply perm_swap]. rewrite Hc. cbn. rewrite Hb. cbn. by rewrite Hcs.
  - intros H. destruct (IH1 ys H) as (ys1 & H1 & P1). destruct (IH2 ys1 H1) as (ys2 & H2 & P2).
    exists ys2. split; [done|]. by transitivity ys1.
Qed.
End ResultMap.

(** ** Lists *)

Lemma filter_all {A} (p : A -> bool) (l : list A) :
  Forall (fun x => p x = true) l -> List.filter p l = l.
Proof. induction 1 as [|x l Hx _ IH]; cbn; [done|]. by rewrite Hx, IH. Qed.

(** Elements of a list without repeated keys are told apart by their keys. *)
Lemma nodup_map_inj {A B} (f : A -> B) (l : list A) (x y : A) :
  List.NoDup (List.map f l) -> In x l -> In y l -> f x = f y -> x = y.
Proof.
  intros Hn Hx Hy E. induction l as [|e l IH]; [done|]. cbn in Hn.
  apply NoDup_cons_iff in Hn as [Hn Hd].
  destruct Hx as [->|Hx], Hy as [->|Hy]; [done| | |auto]; exfalso; apply Hn.
  - rewrite E. by apply in_map.
  - rewrite <- E. by apply in_map.
Qed.

Lemma nodup_map_filter {A B} (g : A -> B) (f : A -> bool) (l : list A) :
  List.NoDup (List.map g l) -> List.NoDup (List.map g (List.filter f l)).
Proof.
  induction l as [|x l IH]; cbn [List.map List.filter]; [done|]. intros [Hx Hl]%NoDup_cons_iff.
  destruct (f x); [|auto]. cbn. constructor; [|auto].
  intros (y & E & [Hy _]%filter_In)%in_map_iff. apply Hx. rewrite <- E. by apply in_map.
Qed.

Lemma Forall2_in_l {A B} (R : A -> B -> Prop) (l : list A) (l' : list B) (x : A) :
  Forall2 R l l' -> In x l -> exists y, In y l' /\ R x y.
Proof.
  induction 1 as [|a b l l' Hab _ IH]; cbn; [done|]. intros [<-|Hx]; [eauto|].
  destruct (IH Hx) as (y & ? & ?). eauto.
Qed.

Lemma Forall2_in_r {A B} (R : A -> B -> Prop) (l : list A) (l' : list B) (y : B) :
  Forall2 R l l' -> In y l' -> exists x, In x l /\ R x y.
Proof.
  induction 1 as [|a b l l' Hab _ IH]; cbn; [done|]. intros [<-|Hy]; [eauto|].
  destruct (IH Hy) as (x & ? & ?). eauto.
Qed.

Lemma Forall2_image {A B} (R : A -> B -> Prop) (P : A -> Prop) (Q : B -> Prop) (l : list A) (l' : list B) :
  Forall2 R l l' -> Forall P l -> (forall x y, R x y -> P x -> Q y) -> Forall Q l'.
Proof. intros H HP HQ. induction H; [constructor|]. apply Forall_cons_iff in HP as [? ?]. constructor; eauto. Qed.

Lemma in_map_filter {A B} (g : A -> B) (f : A -> bool) (l : list A) (z : B) :
  In z (List.map g (List.filter f l)) <-> exists x, g x = z /\ In x l /\ f x = true.
Proof.
  rewrite in_map_iff. split; intros (x & E & H); exists x; (split; [done|]); by apply filter_In in H || apply filter_In.
Qed.

Lemma nodup_flat_map {A B} (f : A -> list B) (l : list A) :
  List.NoDup l -> (forall x, In x l -> List.NoDup (f x)) ->
  (forall x y z, In x l -> In y l -> In z (f x) -> In z (f y) -> x = y) ->
  List.NoDup (List.flat_map f l).
Proof.
  induction 1 as [|x l Hx Hl IH]; intros Hf Hd; cbn [List.flat_map]; [constructor|].
  apply List.NoDup_app.
  - apply Hf. by left.
  - apply IH; [intros; apply Hf; by right|]. intros y y' z Hy Hy'. apply Hd; by right.
  - intros z Hz (y & Hy & Hz')%in_flat_map. apply Hx.
    rewrite (Hd x y z); [done|by left|by right|done|done].
Qed.

Lemma filter_length_split {A} (f : A -> bool) (l : list A) :
  length l = (length (List.filter f l) + length (List.filter (fun x => negb (f x)) l))%nat.
Proof. induction l as [|x l IH]; cbn; [done|]. destruct (f x); cbn; lia. Qed.

Lemma existsb_false {A} (p : A -> bool) (l : list A) :
  existsb p l = false <-> Forall (fun x => p x = false) l.
Proof.
  induction l as [|x l IH]; cbn; [by split|]. by rewrite orb_false_iff, Forall_cons_iff, IH.
Qed.

(** A list is the elements that fail a test and those that pass it. *)
Lemma filter_partition {A} (p : A -> bool) (l : list A) :
  Permutation (List.filter (fun x => negb (p x)) l ++ List.filter p l) l.
Proof.
  induction l as [|x l IH]; cbn; [done|]. destruct (p x); cbn.
  - rewrite <- Permutation_middle. by constructor.
  - by constructor.
Qed.
