(* ===== verification/JsNumber.v ===== *)
(** * JavaScript numbers

    A JavaScript number is an IEEE-754 binary64 value, so it is modelled by the
    kernel's primitive [float]; the operators of the code ([<], [<=], [===],
    [+], [-], [*], [/], [Math.abs], ...) are the primitive operators.  This file
    gives the order embedding [ord] of the non-NaN numbers into [Z] (the value
    scaled by 2^1074), which turns every comparison of the code into a
    comparison that [lia] decides, and the numeric predicates and conversions of
    [Number] and [Math] that the program uses. *)

From Stdlib Require Import ZArith Lia Bool.
From Stdlib Require Import Floats.
From stdpp Require Import base list strings option numbers.
From S2P Require Import Prelude.

#[export] Set Warnings "-inexact-float".

Abbreviation jsnum := PrimFloat.float.

Declare Scope js_scope.
Delimit Scope js_scope with js.
Notation "x < y" := (PrimFloat.ltb x%float y%float) : js_scope.
Notation "x <= y" := (PrimFloat.leb x%float y%float) : js_scope.
Notation "x > y" := (PrimFloat.ltb y%float x%float) : js_scope.
Notation "x >= y" := (PrimFloat.leb y%float x%float) : js_scope.
Notation "x === y" := (PrimFloat.eqb x%float y%float) (at level 70) : js_scope.

Local Open Scope Z_scope.

(** ** The order embedding *)

(** Larger than the scaled value of every finite double. *)
Definition inf_ord : Z := 2 ^ 2200.

Definition sf_ord (x : spec_float) : Z :=
  match x with
  | S754_zero _ => 0
  | S754_infinity s => cond_Zopp s inf_ord
  | S754_nan => 0
  | S754_finite s m e => cond_Zopp s (Zpos m * 2 ^ (e + 1074))
  end.

Definition ord (x : jsnum) : Z := sf_ord (Prim2SF x).

Lemma digits2_pos_bounds (m : positive) :
  2 ^ (Zpos (digits2_pos m) - 1) <= Zpos m < 2 ^ Zpos (digits2_pos m).
Proof.
  induction m as [p IH|p IH|]; cbn [digits2_pos].
  - rewrite Pos2Z.inj_succ. unfold Z.succ.
    replace (Zpos (digits2_pos p) + 1 - 1) with (Zpos (digits2_pos p) - 1 + 1) by lia.
    rewrite !Z.pow_add_r by lia. change (2 ^ 1) with 2. lia.
  - rewrite Pos2Z.inj_succ. unfold Z.succ.
    replace (Zpos (digits2_pos p) + 1 - 1) with (Zpos (digits2_pos p) - 1 + 1) by lia.
    rewrite !Z.pow_add_r by lia. change (2 ^ 1) with 2. lia.
  - split; reflexivity || (vm_compute; discriminate).
Qed.

(** What a canonical binary64 mantissa and exponent satisfy. *)
Lemma bounded_spec (m : positive) (e : Z) :
  SpecFloat.bounded prec emax m e = true ->
  Zpos m < 2 ^ 53 /\ -1074 <= e <= 971 /\ (2 ^ 52 <= Zpos m \/ e = -1074).
Proof.
  unfold SpecFloat.bounded, canonical_mantissa, fexp, SpecFloat.emin, prec, emax.
  rewrite andb_true_iff, Z.eqb_eq, Z.leb_le. intros [Hc He].
  pose proof (digits2_pos_bounds m) as [Hl Hu].
  set (d := Zpos (digits2_pos m)) in *.
  assert (d <= 53) by lia.
  assert (2 ^ d <= 2 ^ 53) by (apply Z.pow_le_mono_r; lia).
  split; [lia|]. split; [lia|].
  destruct (decide (e = -1074)); [by right|left].
  assert (Hd : d = 53) by lia. rewrite Hd in Hl. exact Hl.
Qed.

Lemma scaled_pos (m : positive) (e : Z) : 0 <= e -> 0 < Zpos m * 2 ^ e.
Proof. intros. apply Z.mul_pos_pos; [lia|]. apply Z.pow_pos_nonneg; lia. Qed.

Lemma scaled_lt (m1 m2 : positive) (e1 e2 : Z) :
  SpecFloat.bounded prec emax m1 e1 = true ->
  SpecFloat.bounded prec emax m2 e2 = true ->
  e1 < e2 -> Zpos m1 * 2 ^ (e1 + 1074) < Zpos m2 * 2 ^ (e2 + 1074).
Proof.
  intros H1%bounded_spec H2%bounded_spec Hlt.
  assert (Hm2 : 2 ^ 52 <= Zpos m2) by lia.
  pose proof (Z.pow_pos_nonneg 2 (e2 - e1 - 1)) as Hp.
  pose proof (Z.pow_pos_nonneg 2 (e1 + 1074)) as Hq.
  assert (Hk : 2 ^ (e2 + 1074) = 2 ^ (e2 - e1 - 1) * 2 * 2 ^ (e1 + 1074)).
  { rewrite <- (Z.pow_1_r 2) at 3. rewrite <- !Z.pow_add_r by lia. f_equal. lia. }
  rewrite Hk.
  set (p := 2 ^ (e2 - e1 - 1)) in *. set (q := 2 ^ (e1 + 1074)) in *.
  change (2 ^ 53) with (2 * 2 ^ 52) in H1. set (h := 2 ^ 52) in *.
  assert (0 < p) by lia. assert (0 < q) by lia.
  assert (Zpos m1 < Zpos m2 * (p * 2)) by nia. nia.
Qed.

Lemma scaled_lt_inf (m : positive) (e : Z) :
  SpecFloat.bounded prec emax m e = true -> Zpos m * 2 ^ (e + 1074) < inf_ord.
Proof.
  intros (Hm & He & _)%bounded_spec. unfold inf_ord.
  apply Z.lt_le_trans with (2 ^ 53 * 2 ^ (e + 1074)).
  - apply Z.mul_lt_mono_pos_r; [apply Z.pow_pos_nonneg; lia|lia].
  - rewrite <- Z.pow_add_r by lia. apply Z.pow_le_mono_r; lia.
Qed.

Lemma inf_ord_pos : 0 < inf_ord.
Proof. apply Z.pow_pos_nonneg; lia. Qed.

#[global] Opaque inf_ord.

Lemma pos_compare_scaled (m1 m2 : positive) (k : Z) :
  0 < k -> Pos.compare_cont Eq m1 m2 = Z.compare (Zpos m1 * k) (Zpos m2 * k).
Proof.
  intros Hk. change (Pos.compare_cont Eq m1 m2) with (Z.compare (Zpos m1) (Zpos m2)).
  destruct (Z.compare_spec (Zpos m1) (Zpos m2)) as [->|H|H]; symmetry.
  - apply Z.compare_refl.
  - apply Z.compare_lt_iff. nia.
  - apply Z.compare_gt_iff. nia.
Qed.

Lemma sf_compare_finite_pos (m1 m2 : positive) (e1 e2 : Z) :
  SpecFloat.bounded prec emax m1 e1 = true ->
  SpecFloat.bounded prec emax m2 e2 = true ->
  match Z.compare e1 e2 with
  | Lt => Lt | Gt => Gt | Eq => Pos.compare_cont Eq m1 m2
  end = Z.compare (Zpos m1 * 2 ^ (e1 + 1074)) (Zpos m2 * 2 ^ (e2 + 1074)).
Proof.
  intros H1 H2. destruct (Z.compare_spec e1 e2) as [->|H|H].
  - apply pos_compare_scaled. apply bounded_spec in H1, H2.
    apply Z.pow_pos_nonneg; lia.
  - symmetry. apply Z.compare_lt_iff. by apply scaled_lt.
  - symmetry. apply Z.compare_gt_iff. by apply scaled_lt.
Qed.

Lemma sf_compare_ord (x y : spec_float) :
  valid_binary x = true -> valid_binary y = true ->
  x <> S754_nan -> y <> S754_nan ->
  SFcompare x y = Some (Z.compare (sf_ord x) (sf_ord y)).
Proof.
  intros Hx Hy Nx Ny. pose proof inf_ord_pos as Hi.
  destruct x as [sx|sx| |sx mx ex], y as [sy|sy| |sy my ey];
    try congruence; cbn [SFcompare sf_ord SpecFloat.valid_binary] in *;
    repeat match goal with
    | H : SpecFloat.bounded _ _ ?m ?e = true |- _ =>
        lazymatch goal with
        | _ : Zpos m * 2 ^ (e + 1074) < inf_ord |- _ => fail
        | _ => pose proof (scaled_lt_inf m e H);
               assert (0 < Zpos m * 2 ^ (e + 1074))
                 by (apply scaled_pos; apply bounded_spec in H; lia)
        end
    end;
    try (destruct sx, sy); try destruct sx; try destruct sy; cbn [cond_Zopp]; f_equal;
    try (symmetry; (apply Z.compare_lt_iff; lia) || (apply Z.compare_gt_iff; lia)
                   || (apply Z.compare_eq_iff; lia));
    rewrite <- ?(sf_compare_finite_pos mx my ex ey) by done; try done.
  rewrite Z.compare_opp.
  rewrite <- (sf_compare_finite_pos my mx ey ex) by done.
  rewrite (Z.compare_antisym ex ey).
  destruct (Z.compare ex ey); cbn; try done.
  symmetry. apply Pos.compare_antisym.
Qed.

(** ** NaN, infinities and finiteness *)

Definition isNaN (x : jsnum) : bool := PrimFloat.is_nan x.

(** [Number.isFinite] on a number. *)
Definition isFinite (x : jsnum) : bool :=
  PrimFloat.ltb (PrimFloat.abs x) PrimFloat.infinity.

#[export] Instance spec_float_eq_dec : EqDecision spec_float.
Proof. solve_decision. Defined.

Lemma SFeqb_refl (x : spec_float) :
  valid_binary x = true -> x <> S754_nan -> SFeqb x x = true.
Proof. intros. unfold SFeqb. rewrite sf_compare_ord by done. by rewrite Z.compare_refl. Qed.

Lemma isNaN_spec (x : jsnum) : isNaN x = true <-> Prim2SF x = S754_nan.
Proof.
  unfold isNaN, PrimFloat.is_nan. rewrite Bool.negb_true_iff. rewrite FloatAxioms.eqb_spec. split.
  - intros H. destruct (decide (Prim2SF x = S754_nan)) as [?|Hn]; [done|].
    rewrite SFeqb_refl in H; [done|apply Prim2SF_valid|done].
  - intros ->. done.
Qed.

Lemma isNaN_false (x : jsnum) : isNaN x = false <-> Prim2SF x <> S754_nan.
Proof. rewrite <- isNaN_spec. destruct (isNaN x); naive_solver. Qed.

Lemma compare_ord (x y : jsnum) :
  isNaN x = false -> isNaN y = false ->
  SFcompare (Prim2SF x) (Prim2SF y) = Some (Z.compare (ord x) (ord y)).
Proof.
  rewrite !isNaN_false. intros. apply sf_compare_ord; auto using Prim2SF_valid.
Qed.

Lemma compare_nan (x y : jsnum) :
  isNaN x = true \/ isNaN y = true -> SFcompare (Prim2SF x) (Prim2SF y) = None.
Proof.
  rewrite !isNaN_spec. intros [-> | ->]; [done|]. by destruct (Prim2SF x).
Qed.

(** The three comparison operators of the code, as comparisons of [ord]. *)
Lemma ltb_ord (x y : jsnum) :
  PrimFloat.ltb x y = true <-> isNaN x = false /\ isNaN y = false /\ ord x < ord y.
Proof.
  rewrite ltb_spec. unfold SFltb.
  destruct (isNaN x) eqn:Ex; [rewrite compare_nan by auto; naive_solver|].
  destruct (isNaN y) eqn:Ey; [rewrite compare_nan by auto; naive_solver|].
  rewrite compare_ord by done.
  destruct (Z.compare_spec (ord x) (ord y)); split; try done; naive_solver lia.
Qed.

Lemma leb_ord (x y : jsnum) :
  PrimFloat.leb x y = true <-> isNaN x = false /\ isNaN y = false /\ ord x <= ord y.
Proof.
  rewrite leb_spec. unfold SFleb.
  destruct (isNaN x) eqn:Ex; [rewrite compare_nan by auto; naive_solver|].
  destruct (isNaN y) eqn:Ey; [rewrite compare_nan by auto; naive_solver|].
  rewrite compare_ord by done.
  destruct (Z.compare_spec (ord x) (ord y)); split; try done; naive_solver lia.
Qed.

Lemma eqb_ord (x y : jsnum) :
  PrimFloat.eqb x y = true <-> isNaN x = false /\ isNaN y = false /\ ord x = ord y.
Proof.
  rewrite FloatAxioms.eqb_spec. unfold SFeqb.
  destruct (isNaN x) eqn:Ex; [rewrite compare_nan by auto; naive_solver|].
  destruct (isNaN y) eqn:Ey; [rewrite compare_nan by auto; naive_solver|].
  rewrite compare_ord by done.
  destruct (Z.compare_spec (ord x) (ord y)); split; try done; naive_solver lia.
Qed.

Lemma ord_abs (x : jsnum) : ord (PrimFloat.abs x) = Z.abs (ord x).
Proof.
  unfold ord. rewrite abs_spec. pose proof inf_ord_pos.
  pose proof (Prim2SF_valid x) as Hv.
  destruct (Prim2SF x) as [s|s| |s m e]; cbn [SFabs sf_ord cond_Zopp]; try done.
  - destruct s; cbn [cond_Zopp]; lia.
  - pose proof (bounded_spec m e Hv). pose proof (scaled_pos m (e + 1074)).
    destruct s; cbn [cond_Zopp]; lia.
Qed.

Lemma ord_opp (x : jsnum) : ord (PrimFloat.opp x) = - ord x.
Proof.
  unfold ord. rewrite opp_spec.
  destruct (Prim2SF x) as [[]|[]| |[] m e]; cbn [SFopp sf_ord cond_Zopp negb]; lia.
Qed.

Lemma isNaN_abs (x : jsnum) : isNaN (PrimFloat.abs x) = isNaN x.
Proof.
  apply bool_iff_eq. rewrite !isNaN_spec, abs_spec. by destruct (Prim2SF x).
Qed.

Lemma isNaN_opp (x : jsnum) : isNaN (PrimFloat.opp x) = isNaN x.
Proof.
  apply bool_iff_eq. rewrite !isNaN_spec, opp_spec. by destruct (Prim2SF x).
Qed.

Lemma ord_infinity : ord PrimFloat.infinity = inf_ord.
Proof. reflexivity. Qed.

Lemma isFinite_ord (x : jsnum) :
  isFinite x = true <-> isNaN x = false /\ - inf_ord < ord x < inf_ord.
Proof.
  unfold isFinite. rewrite ltb_ord, isNaN_abs, ord_abs, ord_infinity.
  change (isNaN PrimFloat.infinity) with false. intuition lia.
Qed.

Lemma ord_bounds (x : jsnum) : - inf_ord <= ord x <= inf_ord.
Proof.
  unfold ord. pose proof inf_ord_pos. pose proof (Prim2SF_valid x) as Hv.
  destruct (Prim2SF x) as [s|s| |s m e]; cbn [sf_ord]; try destruct s; cbn [cond_Zopp];
    try lia; cbn in Hv; pose proof (scaled_lt_inf m e Hv);
    pose proof (scaled_pos m (e + 1074)); apply bounded_spec in Hv; lia.
Qed.

(** The numeric comparison of the code, decided through [ord]. *)
Lemma ltb_false_ord (x y : jsnum) :
  isNaN x = false -> isNaN y = false ->
  (PrimFloat.ltb x y = false <-> ord y <= ord x).
Proof.
  intros Hx Hy. rewrite <- not_true_iff_false, ltb_ord. rewrite Hx, Hy. intuition lia.
Qed.

Lemma leb_false_ord (x y : jsnum) :
  isNaN x = false -> isNaN y = false ->
  (PrimFloat.leb x y = false <-> ord y < ord x).
Proof.
  intros Hx Hy. rewrite <- not_true_iff_false, leb_ord. rewrite Hx, Hy. intuition lia.
Qed.

#[export] Instance jsnum_eq_dec : EqDecision jsnum.
Proof.
  intros x y. destruct (Leibniz.eqb x y) eqn:E.
  - left. by apply Leibniz.eqb_spec.
  - right. intros ->. by rewrite (proj2 (Leibniz.eqb_spec y y) eq_refl) in E.
Defined.

(** ** Rounding: exact results and signs *)

Lemma digits2_pos_unique (m : positive) (d : Z) :
  2 ^ (d - 1) <= Zpos m < 2 ^ d -> Zpos (digits2_pos m) = d.
Proof.
  intros [Hl Hu]. pose proof (digits2_pos_bounds m) as [Hl' Hu'].
  set (k := Zpos (digits2_pos m)) in *.
  assert (0 < d).
  { destruct (Z.le_gt_cases d 0) as [Hd|]; [|done].
    assert (2 ^ d <= 2 ^ 0); [|lia].
    destruct (decide (d = 0)) as [->|]; [done|]. rewrite Z.pow_neg_r by lia. done. }
  destruct (Z.lt_trichotomy k d) as [Hlt|[Heq|Hlt]]; [|done|].
  - assert (2 ^ k <= 2 ^ (d - 1)) by (apply Z.pow_le_mono_r; lia). lia.
  - assert (2 ^ d <= 2 ^ (k - 1)) by (apply Z.pow_le_mono_r; lia). lia.
Qed.

Lemma digits2_pos_le (m : positive) (d : Z) :
  0 <= d -> Zpos m < 2 ^ d -> Zpos (digits2_pos m) <= d.
Proof.
  intros Hd Hm. pose proof (digits2_pos_bounds m) as [Hl _].
  destruct (Z.le_gt_cases (Zpos (digits2_pos m)) d) as [|H]; [done|].
  assert (2 ^ d <= 2 ^ (Zpos (digits2_pos m) - 1)) by (apply Z.pow_le_mono_r; lia). lia.
Qed.

Lemma shr_1_half (r : shr_record) :
  0 <= shr_m r -> shr_m (shr_1 r) = shr_m r / 2 /\ 0 <= shr_m (shr_1 r).
Proof.
  destruct r as [m rb sb]; cbn. intros.
  destruct m as [|[p|p|]|]; cbn; try (split; [reflexivity|lia]); try lia;
    (split; [|lia]).
  - rewrite Pos2Z.inj_xI. apply Z.div_unique with 1; lia.
  - rewrite Pos2Z.inj_xO. apply Z.div_unique with 0; lia.
Qed.

Lemma shr_iter_div (n : positive) : forall r,
  0 <= shr_m r ->
  shr_m (SpecFloat.iter_pos shr_1 n r) = shr_m r / 2 ^ Zpos n /\ 0 <= shr_m (SpecFloat.iter_pos shr_1 n r).
Proof.
  induction n as [n IH|n IH|]; intros r Hr; cbn [SpecFloat.iter_pos].
  - destruct (shr_1_half r Hr) as [E0 P0].
    destruct (IH _ P0) as [E1 P1]. destruct (IH _ P1) as [E2 P2].
    split; [|done]. rewrite E2, E1, E0. rewrite !Z.div_div by (try apply Z.pow_pos_nonneg; lia).
    f_equal. rewrite (Pos2Z.inj_xI n).
    replace (2 * Zpos n + 1) with (1 + (Zpos n + Zpos n)) by lia.
    rewrite !Z.pow_add_r by lia. rewrite Z.pow_1_r. ring.
  - destruct (IH _ Hr) as [E1 P1]. destruct (IH _ P1) as [E2 P2].
    split; [|done]. rewrite E2, E1. rewrite Z.div_div by (try apply Z.pow_pos_nonneg; lia).
    f_equal. rewrite (Pos2Z.inj_xO n).
    replace (2 * Zpos n) with (Zpos n + Zpos n) by lia. rewrite Z.pow_add_r by lia. done.
  - apply shr_1_half, Hr.
Qed.

Lemma shr_1_exact (q : Z) :
  0 <= q -> shr_1 (Build_shr_record (2 * q) false false) = Build_shr_record q false false.
Proof. intros. by destruct q. Qed.

Lemma shr_iter_exact (n : positive) : forall q, 0 <= q ->
  SpecFloat.iter_pos shr_1 n (Build_shr_record (q * 2 ^ Zpos n) false false)
  = Build_shr_record q false false.
Proof.
  induction n as [n IH|n IH|]; intros q Hq; cbn [SpecFloat.iter_pos].
  - rewrite (Pos2Z.inj_xI n). replace (q * 2 ^ (2 * Zpos n + 1)) with
      (2 * (q * 2 ^ Zpos n * 2 ^ Zpos n)).
    + pose proof (Z.pow_pos_nonneg 2 (Zpos n)).
      rewrite shr_1_exact by nia. rewrite IH by nia. by apply IH.
    + replace (2 * Zpos n + 1) with (1 + (Zpos n + Zpos n)) by lia.
      rewrite !Z.pow_add_r by lia. rewrite Z.pow_1_r. ring.
  - rewrite (Pos2Z.inj_xO n). replace (q * 2 ^ (2 * Zpos n)) with
      (q * 2 ^ Zpos n * 2 ^ Zpos n).
    + pose proof (Z.pow_pos_nonneg 2 (Zpos n)).
      rewrite IH by nia. by apply IH.
    + replace (2 * Zpos n) with (Zpos n + Zpos n) by lia. rewrite Z.pow_add_r by lia. ring.
  - change (2 ^ Zpos 1) with 2. rewrite Z.mul_comm. by apply shr_1_exact.
Qed.

Lemma pos_iter_xO (m d : positive) : Zpos (Pos.iter xO m d) = Zpos m * 2 ^ Zpos d.
Proof.
  induction d as [|d IH] using Pos.peano_ind.
  - cbn. lia.
  - rewrite Pos.iter_succ, Pos2Z.inj_xO, IH, Pos2Z.inj_succ, Z.pow_succ_r by lia. ring.
Qed.

Lemma fexp_64 (e : Z) : fexp prec emax e = Z.max (e - 53) (-1074).
Proof. reflexivity. Qed.

(** The last step of rounding, on a mantissa that is already representable. *)
Lemma round_aux_fit (s : bool) (m : positive) (e : Z) :
  fexp prec emax (Zpos (digits2_pos m) + e) = e ->
  binary_round_aux prec emax s (Zpos m) e loc_Exact
  = if e <=? 971 then S754_finite s m e else S754_infinity s.
Proof.
  intros Hf. unfold binary_round_aux, shr_fexp. cbn [Zdigits2].
  rewrite Hf, Z.sub_diag. cbn -[Z.leb fexp]. rewrite Hf, Z.sub_diag. done.
Qed.

(** [shl_align] to the canonical exponent: the value is kept. *)
Lemma shl_align_spec (m : positive) (e e' : Z) :
  exists m', shl_align m e e' = (m', Z.min e e') /\
             Zpos m' = Zpos m * 2 ^ (e - Z.min e e').
Proof.
  unfold shl_align. destruct (e' - e) as [|d|d] eqn:E.
  - exists m. replace (Z.min e e') with e by lia. rewrite Z.sub_diag, Z.mul_1_r. done.
  - exists m. replace (Z.min e e') with e by lia. rewrite Z.sub_diag, Z.mul_1_r. done.
  - exists (Pos.iter xO m d). replace (Z.min e e') with e' by lia.
    rewrite pos_iter_xO. split; [done|]. do 2 f_equal. lia.
Qed.

Lemma digits2_shift (m m' : positive) (k : Z) :
  0 <= k -> Zpos m' = Zpos m * 2 ^ k ->
  Zpos (digits2_pos m') = Zpos (digits2_pos m) + k.
Proof.
  intros Hk Hm. apply digits2_pos_unique.
  pose proof (digits2_pos_bounds m) as [Hl Hu]. rewrite Hm.
  replace (Zpos (digits2_pos m) + k - 1) with (Zpos (digits2_pos m) - 1 + k) by lia.
  pose proof (Z.pow_pos_nonneg 2 k).
  rewrite !Z.pow_add_r by lia. nia.
Qed.

Lemma round_right_shift (m : positive) (e : Z) :
  -1074 <= e -> e < fexp prec emax (Zpos (digits2_pos m) + e) ->
  fexp prec emax (Zpos (digits2_pos m) + e) - e = Zpos (digits2_pos m) - 53 /\
  2 ^ 52 <= Zpos m / 2 ^ (Zpos (digits2_pos m) - 53) < 2 ^ 53.
Proof.
  rewrite fexp_64. intros He Hf. split; [lia|].
  pose proof (digits2_pos_bounds m) as [Hl Hu]. set (d := Zpos (digits2_pos m)) in *.
  pose proof (Z.pow_pos_nonneg 2 (d - 53)).
  assert (H53 : 2 ^ d = 2 ^ (d - 53) * 2 ^ 53) by (rewrite <- Z.pow_add_r by lia; f_equal; lia).
  assert (H52 : 2 ^ (d - 1) = 2 ^ (d - 53) * 2 ^ 52)
    by (rewrite <- Z.pow_add_r by lia; f_equal; lia).
  split; [apply Z.div_le_lower_bound; lia | apply Z.div_lt_upper_bound; lia].
Qed.

Definition sf_signed (s : bool) (x : spec_float) : Prop :=
  match x with
  | S754_finite s' _ _ | S754_infinity s' => s' = s
  | _ => False
  end.

Lemma round_aux_signed (s : bool) (p : positive) (f : Z) :
  -1074 <= f -> 2 ^ 52 <= Zpos p <= 2 ^ 53 ->
  let '(r, e') := shr_fexp prec emax (Zpos p) f loc_Exact in 0 < shr_m r.
Proof.
  intros Hf Hp. unfold shr_fexp. cbn [Zdigits2].
  set (n := fexp _ _ _ - f). assert (Hn : n <= 1).
  { unfold n. rewrite fexp_64.
    assert (Zpos (digits2_pos p) <= 54); [|lia].
    apply digits2_pos_le; [lia|]. change (2 ^ 54) with (2 * 2 ^ 53).
    pose proof (Z.pow_pos_nonneg 2 53). lia. }
  destruct n as [|k|k] eqn:En; cbn [shr shr_record_of_loc shr_m]; try lia.
  destruct (shr_iter_div k (Build_shr_record (Zpos p) false false)) as [E _];
    [cbn; lia|]. rewrite E. cbn [shr_m]. replace k with 1%positive by lia.
  apply Z.div_str_pos. split; [done|]. change (2 ^ 1) with 2.
  change (2 ^ 52) with (2 * 2 ^ 51) in Hp. pose proof (Z.pow_pos_nonneg 2 51). lia.
Qed.

(** Rounding a nonzero integer multiple of 2^-1074 never loses its sign. *)
Lemma binary_round_signed (s : bool) (m : positive) (e : Z) :
  -1074 <= e -> sf_signed s (binary_round prec emax s m e).
Proof.
  intros He. unfold binary_round.
  destruct (shl_align_spec m e (fexp prec emax (Zpos (digits2_pos m) + e))) as (m' & -> & Hm').
  set (f := fexp _ _ (Zpos (digits2_pos m) + e)) in *.
  destruct (Z.le_gt_cases f e) as [Hle|Hgt].
  - replace (Z.min e f) with f in * by lia.
    rewrite round_aux_fit.
    + destruct (f <=? 971); done.
    + rewrite (digits2_shift m m' (e - f)) by (done || lia). unfold f at 2. f_equal. lia.
  - replace (Z.min e f) with e in * by lia.
    rewrite Z.sub_diag, Z.mul_1_r in Hm'. injection Hm' as ->.
    destruct (round_right_shift m e He Hgt) as [Hn HQ]. fold f in Hn.
    unfold binary_round_aux. unfold shr_fexp at 1. cbn [Zdigits2 shr_record_of_loc].
    fold f. rewrite Hn. destruct (Zpos (digits2_pos m) - 53) as [|n|n] eqn:En; try lia.
    unfold shr at 1.
    destruct (shr_iter_div n (Build_shr_record (Zpos m) false false)) as [E _]; [cbn; lia|].
    cbn [shr_m] in E. set (r := SpecFloat.iter_pos shr_1 n _) in *.
    rewrite E. set (Q := Zpos m / _) in *.
    assert (HR : Q <= round_nearest_even Q (loc_of_shr_record r) <= Q + 1)
      by (unfold round_nearest_even; destruct (loc_of_shr_record r) as [|[]];
          try destruct (Z.even Q); lia).
    destruct (round_nearest_even Q (loc_of_shr_record r)) as [|p|p] eqn:Ep; [lia| |lia].
    pose proof (round_aux_signed s p (e + Zpos n)) as Hpos.
    destruct (shr_fexp prec emax (Zpos p) (e + Zpos n) loc_Exact) as [r' e'].
    assert (0 < shr_m r') by (apply Hpos; lia).
    destruct (shr_m r'); [lia| |lia]. destruct (e' <=? _); done.
Qed.

(** Rounding is exact when the significant bits fit. *)
Lemma binary_round_exact (s : bool) (m : positive) (e q k : Z) :
  -1074 <= e -> 0 <= k -> 0 < q < 2 ^ 53 -> Zpos m = q * 2 ^ k ->
  Zpos (digits2_pos m) + e <= 1024 ->
  exists m' e', binary_round prec emax s m e = S754_finite s m' e' /\
    SpecFloat.bounded prec emax m' e' = true /\
    Zpos m' * 2 ^ (e' + 1074) = Zpos m * 2 ^ (e + 1074).
Proof.
  intros He Hk Hq Hm Hd. unfold binary_round.
  destruct (shl_align_spec m e (fexp prec emax (Zpos (digits2_pos m) + e))) as (m' & -> & Hm').
  set (f := fexp _ _ (Zpos (digits2_pos m) + e)) in *.
  pose proof (fexp_64 (Zpos (digits2_pos m) + e)) as Hf. fold f in Hf.
  destruct (Z.le_gt_cases f e) as [Hle|Hgt].
  - replace (Z.min e f) with f in * by lia.
    assert (Hfit : fexp prec emax (Zpos (digits2_pos m') + f) = f)
      by (rewrite (digits2_shift m m' (e - f)) by (done || lia); unfold f at 2; f_equal; lia).
    rewrite round_aux_fit by done. replace (f <=? 971) with true by lia.
    exists m', f. split; [done|]. split.
    + unfold SpecFloat.bounded, canonical_mantissa. rewrite Hfit, Z.eqb_refl.
      apply Z.leb_le. unfold emax, prec. lia.
    + rewrite Hm', <- Z.mul_assoc, <- Z.pow_add_r by lia. do 2 f_equal. lia.
  - replace (Z.min e f) with e in * by lia.
    rewrite Z.sub_diag, Z.mul_1_r in Hm'. injection Hm' as ->.
    destruct (round_right_shift m e He Hgt) as [Hn HQ]. fold f in Hn.
    assert (Hdk : Zpos (digits2_pos m) <= 53 + k).
    { apply digits2_pos_le; [lia|]. rewrite Hm, Z.pow_add_r by lia.
      apply Z.mul_lt_mono_pos_r; [apply Z.pow_pos_nonneg; lia|lia]. }
    set (n := Zpos (digits2_pos m) - 53) in *.
    set (Q := q * 2 ^ (k - n)).
    assert (HmQ : Zpos m = Q * 2 ^ n)
      by (unfold Q; rewrite Hm, <- Z.mul_assoc, <- Z.pow_add_r by lia; do 2 f_equal; lia).
    rewrite HmQ, Z.div_mul in HQ by (apply Z.pow_nonzero; lia).
    unfold binary_round_aux. unfold shr_fexp at 1. cbn [Zdigits2 shr_record_of_loc].
    fold f. rewrite Hn. destruct n as [|j|j] eqn:En; try lia.
    unfold shr at 1. rewrite HmQ, shr_iter_exact by lia. cbn [shr_m loc_of_shr_record].
    cbn [round_nearest_even]. destruct Q as [|p|p] eqn:EQ; try lia.
    assert (Hdp : Zpos (digits2_pos p) = 53) by (apply digits2_pos_unique; lia).
    unfold shr_fexp. cbn [Zdigits2]. rewrite Hdp.
    replace (e + Zpos j) with f by lia.
    assert (Hff : fexp prec emax (53 + f) = f) by (rewrite fexp_64; lia).
    rewrite Hff, Z.sub_diag. cbn [shr shr_record_of_loc shr_m].
    replace (f <=? emax - prec) with true by (unfold emax, prec; lia).
    exists p, f. split; [done|]. split.
    + unfold SpecFloat.bounded, canonical_mantissa. rewrite Hdp, Hff, Z.eqb_refl.
      apply Z.leb_le. unfold emax, prec. lia.
    + rewrite <- Z.mul_assoc, <- Z.pow_add_r by lia. do 2 f_equal. lia.
Qed.

(** ** Integers as numbers *)

Definition one_ord : Z := 2 ^ 1074.

Lemma one_ord_pos : 0 < one_ord.
Proof. apply Z.pow_pos_nonneg; lia. Qed.

Lemma one_ord_lt_inf (a : Z) : Z.abs a <= 2 ^ 53 -> Z.abs a * one_ord < inf_ord.
Proof.
  intros Ha. apply Z.le_lt_trans with (2 ^ 53 * one_ord).
  - apply Z.mul_le_mono_nonneg_r; [pose proof one_ord_pos; lia|done].
  - vm_compute. done.
Qed.

#[global] Opaque one_ord.

(** The number of an exact integer: array lengths, counters, [Set.size]. *)
Definition of_Z (z : Z) : jsnum := SF2Prim (binary_normalize prec emax z 0 false).
Definition of_nat (n : nat) : jsnum := of_Z (Z.of_nat n).

(** The integer a finite number is, when it is one. *)
Definition to_integer (x : jsnum) : option Z :=
  if isFinite x && (Z.modulo (ord x) one_ord =? 0)
  then Some (Z.div (ord x) one_ord) else None.

(** [Number.isInteger] and [Number.isSafeInteger]. *)
Definition isInteger (x : jsnum) : bool :=
  match to_integer x with Some _ => true | None => false end.
Definition isSafeInteger (x : jsnum) : bool :=
  match to_integer x with Some z => Z.abs z <=? 2 ^ 53 - 1 | None => false end.

Lemma to_integer_spec (x : jsnum) (a : Z) :
  to_integer x = Some a <-> isFinite x = true /\ ord x = a * one_ord.
Proof.
  unfold to_integer. pose proof one_ord_pos.
  destruct (isFinite x); cbn [andb]; [|naive_solver].
  destruct (Z.eqb_spec (Z.modulo (ord x) one_ord) 0) as [E|E].
  - pose proof (Z.div_mod (ord x) one_ord). split.
    + intros [= <-]. split; [done|]. lia.
    + intros [_ ->]. f_equal. apply Z.div_mul. lia.
  - split; [done|]. intros [_ Hx]. rewrite Hx, Z.mod_mul in E by lia. done.
Qed.

Lemma isInteger_spec (x : jsnum) :
  isInteger x = true <-> exists a, to_integer x = Some a.
Proof. unfold isInteger. destruct (to_integer x); naive_solver. Qed.

Lemma isInteger_finite (x : jsnum) : isInteger x = true -> isFinite x = true.
Proof. rewrite isInteger_spec. intros [a [H _]%to_integer_spec]. done. Qed.

Lemma isFinite_not_nan (x : jsnum) : isFinite x = true -> isNaN x = false.
Proof. rewrite isFinite_ord. tauto. Qed.

Lemma sf_ord_finite (s : bool) (m : positive) (e : Z) :
  sf_ord (S754_finite s m e) = cond_Zopp s (Zpos m) * 2 ^ (e + 1074).
Proof. destruct s; cbn -[Z.pow Z.mul]; lia. Qed.

(** An integer of at most 53 bits, times a power of two, has a short significand. *)
Lemma short_significand (z e a : Z) :
  -1074 <= e -> Z.abs a <= 2 ^ 53 -> z * 2 ^ (e + 1074) = a * one_ord ->
  exists q k, 0 <= k /\ 0 <= q < 2 ^ 53 /\ Z.abs z = q * 2 ^ k.
Proof.
  intros He Ha Hz. pose proof one_ord_pos.
  assert (Hpe : 0 < 2 ^ (e + 1074)) by (apply Z.pow_pos_nonneg; lia).
  assert (Hsmall : forall b, Z.abs b <= 2 ^ 53 ->
    exists q k, 0 <= k /\ 0 <= q < 2 ^ 53 /\ Z.abs b = q * 2 ^ k).
  { intros b Hb. destruct (decide (Z.abs b = 2 ^ 53)) as [E|E].
    - exists 1, 53. rewrite E. done.
    - exists (Z.abs b), 0. rewrite Z.pow_0_r. lia. }
  destruct (Z.le_gt_cases e 0) as [Hn|Hp].
  - destruct (Hsmall a Ha) as (q & k & Hk & Hq & E). exists q, (k + - e).
    split; [lia|]. split; [done|].
    assert (Ez : z = a * 2 ^ (- e)).
    { apply Z.mul_reg_r with (2 ^ (e + 1074)); [lia|]. rewrite Hz, <- Z.mul_assoc.
      f_equal. rewrite <- Z.pow_add_r by lia. change one_ord with (2 ^ 1074). f_equal. lia. }
    rewrite Ez, Z.abs_mul, E, Z.pow_add_r, Z.mul_assoc by lia. f_equal.
    apply Z.abs_eq. apply Z.pow_nonneg. lia.
  - apply Hsmall. rewrite Z.pow_add_r in Hz by lia.
    change (2 ^ 1074) with one_ord in Hz. rewrite Z.mul_assoc in Hz.
    apply Z.mul_reg_r in Hz; [|lia]. pose proof (Z.pow_pos_nonneg 2 e).
    assert (Z.abs z * 2 ^ e <= 2 ^ 53) by (rewrite <- (Z.abs_eq (2 ^ e)), <- Z.abs_mul; lia).
    nia.
Qed.

Lemma digits_exponent_bound (m : positive) (e a : Z) :
  -1074 <= e -> Z.abs a <= 2 ^ 53 -> Zpos m * 2 ^ (e + 1074) = Z.abs a * one_ord ->
  Zpos (digits2_pos m) + e <= 1024.
Proof.
  intros He Ha Hm. pose proof one_ord_pos.
  pose proof (digits2_pos_bounds m) as [Hl _].
  pose proof (Z.pow_pos_nonneg 2 (e + 1074)).
  destruct (Z.le_gt_cases (Zpos (digits2_pos m) + e) 1024) as [|Hgt]; [done|].
  assert (Hp : 2 ^ (Zpos (digits2_pos m) - 1) * 2 ^ (e + 1074) <= Z.abs a * one_ord) by nia.
  rewrite <- Z.pow_add_r in Hp by lia.
  assert (2 ^ (53 + 1074 + 1) <= 2 ^ (Zpos (digits2_pos m) - 1 + (e + 1074)))
    by (apply Z.pow_le_mono_r; lia).
  assert (Z.abs a * one_ord <= 2 ^ 53 * one_ord) by nia.
  assert (2 ^ 53 * one_ord < 2 ^ (53 + 1074 + 1)) by (vm_compute; done). lia.
Qed.

(** Normalising an exactly representable integer loses nothing. *)
Lemma normalize_exact (z e a : Z) :
  -1074 <= e -> Z.abs a <= 2 ^ 53 -> z * 2 ^ (e + 1074) = a * one_ord ->
  valid_binary (binary_normalize prec emax z e false) = true /\
  sf_ord (binary_normalize prec emax z e false) = a * one_ord /\
  binary_normalize prec emax z e false <> S754_nan.
Proof.
  intros He Ha Hz. pose proof one_ord_pos.
  pose proof (Z.pow_pos_nonneg 2 (e + 1074)).
  destruct (short_significand z e a He Ha Hz) as (q & k & Hk & Hq & Eq).
  destruct z as [|m|m]; cbn [binary_normalize Z.abs] in *.
  - split; [done|]. split; [|done]. cbn. lia.
  - destruct (binary_round_exact false m e q k) as (m' & e' & -> & Hb & Ev);
      [done..|nia|done|apply (digits_exponent_bound m e a); [done|done|nia]|].
    split; [done|]. split; [|done]. rewrite sf_ord_finite. cbn [cond_Zopp]. lia.
  - destruct (binary_round_exact true m e q k) as (m' & e' & -> & Hb & Ev);
      [done..|nia|done|apply (digits_exponent_bound m e a); [done|done|nia]|].
    split; [done|]. split; [|done]. rewrite sf_ord_finite. cbn [cond_Zopp]. lia.
Qed.

Lemma of_Z_integer (z : Z) : Z.abs z <= 2 ^ 53 -> to_integer (of_Z z) = Some z.
Proof.
  intros Hz. destruct (normalize_exact z 0 z) as (Hv & Ho & Hn); [done|done|done|].
  apply to_integer_spec. unfold of_Z. rewrite isFinite_ord, isNaN_false. unfold ord.
  rewrite Prim2SF_SF2Prim by done. pose proof (one_ord_lt_inf z Hz).
  pose proof one_ord_pos. rewrite Ho. split; [|done]. split; [done|].
  pose proof (Z.abs_mul z one_ord). rewrite (Z.abs_eq one_ord) in * by lia. lia.
Qed.

Lemma ord_of_Z (z : Z) : Z.abs z <= 2 ^ 53 -> ord (of_Z z) = z * one_ord.
Proof. intros H. apply of_Z_integer, to_integer_spec in H. tauto. Qed.

Lemma finite_cases (x : jsnum) :
  isFinite x = true ->
  (exists s, Prim2SF x = S754_zero s) \/
  (exists s m e, Prim2SF x = S754_finite s m e /\ SpecFloat.bounded prec emax m e = true).
Proof.
  rewrite isFinite_ord, isNaN_false. unfold ord. pose proof (Prim2SF_valid x) as Hv.
  destruct (Prim2SF x) as [s|s| |s m e]; cbn [sf_ord]; intros [Hn Ho]; eauto 6.
  - destruct s; cbn in Ho; lia.
  - done.
Qed.

(** The aligned significands of an addition or a subtraction. *)
Lemma align_spec (s : bool) (m : positive) (e ez : Z) :
  -1074 <= ez -> ez <= e ->
  cond_Zopp s (Zpos (fst (shl_align m e ez))) * 2 ^ (ez + 1074)
  = sf_ord (S754_finite s m e).
Proof.
  intros Hz He. destruct (shl_align_spec m e ez) as (m' & -> & Hm). cbn [fst].
  rewrite sf_ord_finite. replace (Z.min e ez) with ez in Hm by lia.
  assert (E : Zpos m' * 2 ^ (ez + 1074) = Zpos m * 2 ^ (e + 1074)).
  { rewrite Hm, <- Z.mul_assoc, <- Z.pow_add_r by lia. do 2 f_equal. lia. }
  destruct s; cbn [cond_Zopp]; lia.
Qed.

(** Addition of integers is exact while the sum is. *)
Lemma add_integer (x y : jsnum) (a b : Z) :
  to_integer x = Some a -> to_integer y = Some b -> Z.abs (a + b) <= 2 ^ 53 ->
  to_integer (x + y)%float = Some (a + b).
Proof.
  intros [Fx Ox]%to_integer_spec [Fy Oy]%to_integer_spec Hab.
  apply to_integer_spec. pose proof one_ord_pos.
  pose proof (one_ord_lt_inf _ Hab) as Hlt.
  assert (Hsuff : valid_binary (SF64add (Prim2SF x) (Prim2SF y)) = true /\
    sf_ord (SF64add (Prim2SF x) (Prim2SF y)) = (a + b) * one_ord /\
    SF64add (Prim2SF x) (Prim2SF y) <> S754_nan).
  { unfold ord in *.
    destruct (finite_cases x Fx) as [[sx Ex]|(sx & mx & ex & Ex & Bx)],
      (finite_cases y Fy) as [[sy Ey]|(sy & my & ey & Ey & By)];
      rewrite Ex, Ey in *; unfold SF64add.
    - cbn [sf_ord] in *. destruct sx, sy; cbn [SFadd]; (split; [done|split; [cbn [sf_ord]|done]]); nia.
    - cbn [SFadd]. split; [done|split; [|done]]. cbn [sf_ord] in Ox |- *. cbn [sf_ord] in Oy. nia.
    - cbn [SFadd]. split; [done|split; [|done]]. cbn [sf_ord] in Oy |- *. cbn [sf_ord] in Ox. nia.
    - cbn [SFadd]. apply bounded_spec in Bx, By. apply normalize_exact; [lia|done|].
      rewrite Z.mul_add_distr_r, !align_spec by lia. lia. }
  destruct Hsuff as (Hv & Ho & Hn). rewrite isFinite_ord, isNaN_false. unfold ord.
  rewrite FloatAxioms.add_spec, Ho.
  pose proof (Z.abs_mul (a + b) one_ord). rewrite (Z.abs_eq one_ord) in * by lia.
  split; [|done]. split; [done|]. lia.
Qed.

(** The sign of a difference is the order of its operands, so the comparator
    [(a, b) => a - b] sorts finite numbers. *)
Lemma sf_signed_ord (s : bool) (x : spec_float) :
  valid_binary x = true -> sf_signed s x ->
  x <> S754_nan /\ Z.sgn (sf_ord x) = if s then -1 else 1.
Proof.
  pose proof inf_ord_pos. intros Hv Hs.
  destruct x as [s'|s'| |s' m e]; cbn [sf_signed] in Hs; subst; try done; (split; [done|]).
  - destruct s; cbn [sf_ord cond_Zopp]; lia.
  - rewrite sf_ord_finite. cbn in Hv. apply bounded_spec in Hv.
    pose proof (Z.pow_pos_nonneg 2 (e + 1074)). destruct s; cbn [cond_Zopp]; nia.
Qed.

Lemma normalize_sgn (z e : Z) (x : spec_float) :
  -1074 <= e -> x = binary_normalize prec emax z e false -> valid_binary x = true ->
  x <> S754_nan /\ Z.sgn (sf_ord x) = Z.sgn z.
Proof.
  intros He -> Hv. destruct z as [|m|m]; cbn [binary_normalize] in *.
  - done.
  - apply (sf_signed_ord false); [done|]. by apply binary_round_signed.
  - apply (sf_signed_ord true); [done|]. by apply binary_round_signed.
Qed.

Lemma sub_sgn (x y : jsnum) :
  isFinite x = true -> isFinite y = true ->
  isNaN (x - y)%float = false /\ Z.sgn (ord (x - y)%float) = Z.sgn (ord x - ord y).
Proof.
  intros Fx Fy. rewrite isNaN_false.
  pose proof (Prim2SF_valid (x - y)%float) as Hv. unfold ord.
  rewrite FloatAxioms.sub_spec in *. unfold SF64sub in *.
  destruct (finite_cases x Fx) as [[sx Ex]|(sx & mx & ex & Ex & Bx)],
    (finite_cases y Fy) as [[sy Ey]|(sy & my & ey & Ey & By)]; rewrite Ex, Ey in *.
  - destruct sx, sy; done.
  - cbn [SFsub] in *. split; [done|]. cbn [sf_ord]. destruct sy; cbn [negb cond_Zopp]; lia.
  - cbn [SFsub] in *. split; [done|]. cbn [sf_ord]. lia.
  - cbn [SFsub] in *. apply bounded_spec in Bx, By.
    eapply normalize_sgn in Hv as [Hn Hs]; [|..|reflexivity]; [|lia].
    split; [done|]. rewrite Hs.
    rewrite <- (align_spec sx mx ex (Z.min ex ey)), <- (align_spec sy my ey (Z.min ex ey)) by lia.
    rewrite <- Z.mul_sub_distr_r, Z.sgn_mul.
    rewrite (Z.sgn_pos (2 ^ _)) by (apply Z.pow_pos_nonneg; lia). lia.
Qed.

(** ** [Math.max], [Math.min] *)

Definition Math_max (x y : jsnum) : jsnum :=
  if isNaN x || isNaN y then PrimFloat.nan
  else if (x < y)%js then y else if (y < x)%js then x
  else if PrimFloat.get_sign x then y else x.

Definition Math_min (x y : jsnum) : jsnum :=
  if isNaN x || isNaN y then PrimFloat.nan
  else if (x < y)%js then x else if (y < x)%js then y
  else if PrimFloat.get_sign x then x else y.

(** [Math.max(...xs)] *)
Definition Math_max_all (xs : list jsnum) : jsnum := fold_left Math_max xs PrimFloat.neg_infinity.

Definition Math_sign (x : jsnum) : jsnum :=
  if (x > 0)%js then 1%float else if (x < 0)%js then (-1)%float else x.

Section MinMax.
Context (x y : jsnum) (Hx : isNaN x = false) (Hy : isNaN y = false).

Lemma Math_max_ord :
  isNaN (Math_max x y) = false /\ ord (Math_max x y) = Z.max (ord x) (ord y).
Proof.
  unfold Math_max. rewrite Hx, Hy. cbn [orb].
  destruct (PrimFloat.ltb x y) eqn:E1; [apply ltb_ord in E1; split; [done|lia]|].
  destruct (PrimFloat.ltb y x) eqn:E2; [apply ltb_ord in E2; split; [done|lia]|].
  apply ltb_false_ord in E1, E2; [|done..].
  destruct (PrimFloat.get_sign x); (split; [done|lia]).
Qed.

Lemma Math_min_ord :
  isNaN (Math_min x y) = false /\ ord (Math_min x y) = Z.min (ord x) (ord y).
Proof.
  unfold Math_min. rewrite Hx, Hy. cbn [orb].
  destruct (PrimFloat.ltb x y) eqn:E1; [apply ltb_ord in E1; split; [done|lia]|].
  destruct (PrimFloat.ltb y x) eqn:E2; [apply ltb_ord in E2; split; [done|lia]|].
  apply ltb_false_ord in E1, E2; [|done..].
  destruct (PrimFloat.get_sign x); (split; [done|lia]).
Qed.
End MinMax.

(** ** Numbers from decimal notation

    The number of the decimal [(-1)^neg * s * 10^e], correctly rounded. *)
Definition sf_of_decimal (neg : bool) (s : Z) (e : Z) : spec_float :=
  match s with
  | Zpos m =>
      if 0 <=? e then
        match Zpos m * 10 ^ e with
        | Zpos p => binary_round prec emax neg p 0
        | _ => S754_zero neg
        end
      else
        let '(mz, ez, lz) := SFdiv_core_binary prec emax (Zpos m) 0 (10 ^ (- e)) 0 in
        binary_round_aux prec emax neg mz ez lz
  | _ => S754_zero neg
  end.

Definition of_decimal (neg : bool) (s e : Z) : jsnum := SF2Prim (sf_of_decimal neg s e).

Example of_decimal_ex :
  of_decimal false 1 (-1) = 0.1%float /\ of_decimal true 123456789 (-3) = (-123456.789)%float
  /\ of_decimal false 17976931348623157 292 = 1.7976931348623157e308%float
  /\ of_decimal false 5 (-324) = 5e-324%float.
Proof. repeat split; reflexivity. Qed.

#[global] Arguments isFinite : simpl never.
#[global] Arguments isNaN : simpl never.
#[global] Arguments isInteger : simpl never.
#[global] Arguments isSafeInteger : simpl never.
#[global] Arguments to_integer : simpl never.
#[global] Arguments of_Z : simpl never.
#[global] Arguments ord : simpl never.
#[global] Arguments Math_max : simpl never.
#[global] Arguments Math_min : simpl never.

(** ** Exact integer arithmetic and comparison *)

Lemma sub_as_add (x y : jsnum) : (x - y)%float = (x + - y)%float.
Proof.
  apply Prim2SF_inj. rewrite FloatAxioms.sub_spec, FloatAxioms.add_spec, opp_spec.
  unfold SF64sub, SF64add.
  destruct (Prim2SF x) as [[]|[]| |sx mx ex], (Prim2SF y) as [[]|[]| |sy my ey]; try done.
  cbn [SFsub SFadd SFopp]. f_equal. destruct sx, sy; cbn [cond_Zopp negb]; lia.
Qed.

Lemma opp_integer (x : jsnum) (a : Z) :
  to_integer x = Some a -> to_integer (- x)%float = Some (- a).
Proof.
  rewrite !to_integer_spec, !isFinite_ord, isNaN_opp, ord_opp. intros [[Hn Hx] Ho].
  repeat split; try done; lia.
Qed.

Lemma sub_integer (x y : jsnum) (a b : Z) :
  to_integer x = Some a -> to_integer y = Some b -> Z.abs (a - b) <= 2 ^ 53 ->
  to_integer (x - y)%float = Some (a - b).
Proof.
  intros Hx Hy Hab. rewrite sub_as_add. rewrite <- Z.add_opp_r in *.
  apply add_integer; [done| |done]. by apply opp_integer.
Qed.

(** Products of integers are exact while they fit. *)
Lemma round_aux_round (s : bool) (m : positive) (e : Z) :
  e <= fexp prec emax (Zpos (digits2_pos m) + e) ->
  binary_round_aux prec emax s (Zpos m) e loc_Exact = binary_round prec emax s m e.
Proof.
  intros He. unfold binary_round. set (f := fexp _ _ _) in *.
  destruct (shl_align_spec m e f) as (m' & -> & Hm).
  replace (Z.min e f) with e in * by lia. rewrite Z.sub_diag, Z.mul_1_r in Hm.
  by injection Hm as ->.
Qed.

(** A nonzero integer below 2^53 has a full significand. *)
Lemma integer_exponent (m : positive) (e a : Z) :
  SpecFloat.bounded prec emax m e = true -> a <> 0 ->
  Zpos m * 2 ^ (e + 1074) = Z.abs a * one_ord -> 2 ^ 52 <= Zpos m /\ -52 <= e.
Proof.
  intros (Hm & He & Hc)%bounded_spec Ha Hv. change one_ord with (2 ^ 1074) in Hv.
  assert (Hlow : 2 ^ 1074 < 2 ^ (53 + (e + 1074))).
  { rewrite Z.pow_add_r by lia. pose proof (Z.pow_pos_nonneg 2 (e + 1074)).
    pose proof (Z.pow_pos_nonneg 2 1074). nia. }
  apply Z.pow_lt_mono_r_iff in Hlow; [|lia..]. split; [|lia].
  destruct Hc as [|Hc]; [done|lia].
Qed.

Lemma mul_integer (x y : jsnum) (a b : Z) :
  to_integer x = Some a -> to_integer y = Some b -> Z.abs (a * b) <= 2 ^ 53 ->
  to_integer (x * y)%float = Some (a * b).
Proof.
  intros [Fx Ox]%to_integer_spec [Fy Oy]%to_integer_spec Hab.
  apply to_integer_spec. pose proof one_ord_pos.
  pose proof (one_ord_lt_inf _ Hab) as Hlt.
  assert (Hsuff : valid_binary (SF64mul (Prim2SF x) (Prim2SF y)) = true /\
    sf_ord (SF64mul (Prim2SF x) (Prim2SF y)) = (a * b) * one_ord /\
    SF64mul (Prim2SF x) (Prim2SF y) <> S754_nan).
  { unfold ord in *.
    destruct (finite_cases x Fx) as [[sx Ex]|(sx & mx & ex & Ex & Bx)],
      (finite_cases y Fy) as [[sy Ey]|(sy & my & ey & Ey & By)];
      rewrite Ex, Ey in *; unfold SF64mul; cbn [SFmul].
    1-2: assert (a = 0) as -> by (cbn [sf_ord] in Ox; nia); done.
    1: assert (b = 0) as -> by (cbn [sf_ord] in Oy; nia); by rewrite Z.mul_0_r.
    rewrite sf_ord_finite in Ox, Oy.
    pose proof (Z.pow_pos_nonneg 2 (ex + 1074)) as Px.
    pose proof (Z.pow_pos_nonneg 2 (ey + 1074)) as Py.
    pose proof (bounded_spec _ _ Bx). pose proof (bounded_spec _ _ By).
    assert (a <> 0) by (destruct sx; cbn [cond_Zopp] in Ox; nia).
    assert (b <> 0) by (destruct sy; cbn [cond_Zopp] in Oy; nia).
    destruct (integer_exponent mx ex a) as [Mx Lx]; [done|done|destruct sx; cbn [cond_Zopp] in Ox; nia|].
    destruct (integer_exponent my ey b) as [My Ly]; [done|done|destruct sy; cbn [cond_Zopp] in Oy; nia|].
    rewrite round_aux_round.
    2: { rewrite fexp_64. pose proof (digits2_pos_bounds (mx * my)) as [_ Hu].
      assert (Hd : 2 ^ 104 < 2 ^ Zpos (digits2_pos (mx * my))).
      { eapply Z.le_lt_trans; [|exact Hu]. change (2 ^ 104) with (2 ^ 52 * 2 ^ 52).
        rewrite Pos2Z.inj_mul. apply Z.mul_le_mono_nonneg; lia. }
      apply Z.pow_lt_mono_r_iff in Hd; lia. }
    pose proof (normalize_exact (cond_Zopp (xorb sx sy) (Zpos (mx * my))) (ex + ey) (a * b)) as Hn.
    assert (Hz : cond_Zopp (xorb sx sy) (Zpos (mx * my)) * 2 ^ (ex + ey + 1074) = a * b * one_ord).
    { apply Z.mul_reg_r with one_ord; [lia|].
      transitivity ((a * one_ord) * (b * one_ord)); [|lia]. rewrite <- Ox, <- Oy.
      change one_ord with (2 ^ 1074) at 1. rewrite <- Z.mul_assoc, <- Z.pow_add_r by lia.
      replace (ex + ey + 1074 + 1074) with ((ex + 1074) + (ey + 1074)) by lia.
      rewrite Z.pow_add_r, Pos2Z.inj_mul by lia. destruct sx, sy; cbn [cond_Zopp xorb]; lia. }
    destruct Hn as (Hv & Ho & Hne); [lia|done|done|].
    destruct (xorb sx sy); cbn [cond_Zopp Z.opp binary_normalize] in Hv, Ho, Hne; done. }
  destruct Hsuff as (Hv & Ho & Hn). rewrite isFinite_ord, isNaN_false. unfold ord.
  rewrite FloatAxioms.mul_spec, Ho.
  pose proof (Z.abs_mul (a * b) one_ord). rewrite (Z.abs_eq one_ord) in * by lia.
  split; [|done]. split; [done|]. lia.
Qed.

Lemma to_integer_0 : to_integer 0%float = Some 0.
Proof. vm_compute. reflexivity. Qed.

Lemma to_integer_1 : to_integer 1%float = Some 1.
Proof. vm_compute. reflexivity. Qed.

Section IntegerOrder.
Context (x y : jsnum) (a b : Z).
Hypotheses (Hx : to_integer x = Some a) (Hy : to_integer y = Some b).

Lemma leb_integer : PrimFloat.leb x y = (a <=? b).
Proof.
  apply to_integer_spec in Hx as [Fx Ox], Hy as [Fy Oy]. pose proof one_ord_pos.
  apply bool_iff_eq. rewrite leb_ord, Z.leb_le, Ox, Oy.
  rewrite !isFinite_not_nan by done. split; [intros (_ & _ & ?); nia|intros ?; split; [done|split; [done|nia]]].
Qed.

Lemma ltb_integer : PrimFloat.ltb x y = (a <? b).
Proof.
  apply to_integer_spec in Hx as [Fx Ox], Hy as [Fy Oy]. pose proof one_ord_pos.
  apply bool_iff_eq. rewrite ltb_ord, Z.ltb_lt, Ox, Oy.
  rewrite !isFinite_not_nan by done. split; [intros (_ & _ & ?); nia|intros ?; split; [done|split; [done|nia]]].
Qed.

Lemma eqb_integer : PrimFloat.eqb x y = (a =? b).
Proof.
  apply to_integer_spec in Hx as [Fx Ox], Hy as [Fy Oy]. pose proof one_ord_pos.
  apply bool_iff_eq. rewrite eqb_ord, Z.eqb_eq, Ox, Oy.
  rewrite !isFinite_not_nan by done. split; [intros (_ & _ & ?); nia|intros ?; split; [done|split; [done|nia]]].
Qed.
End IntegerOrder.

(** The smaller of two integers is one. *)
Lemma Math_min_integer (x y : jsnum) (a b : Z) :
  to_integer x = Some a -> to_integer y = Some b -> to_integer (Math_min x y) = Some (Z.min a b).
Proof.
  intros Hx Hy. pose proof (ltb_integer x y a b Hx Hy) as H1.
  pose proof (ltb_integer y x b a Hy Hx) as H2. unfold Math_min.
  apply to_integer_spec in Hx as Hx', Hy as Hy'.
  assert (Nx : isNaN x = false) by (apply isFinite_ord; tauto).
  assert (Ny : isNaN y = false) by (apply isFinite_ord; tauto).
  rewrite Nx, Ny, H1, H2. cbn [orb].
  destruct (Z.ltb_spec a b); [rewrite Hx; f_equal; lia|].
  destruct (Z.ltb_spec b a); [rewrite Hy; f_equal; lia|].
  destruct (PrimFloat.get_sign x); [rewrite Hx|rewrite Hy]; f_equal; lia.
Qed.

Lemma isSafeInteger_spec (x : jsnum) :
  isSafeInteger x = true <-> exists a, to_integer x = Some a /\ Z.abs a <= 2 ^ 53 - 1.
Proof.
  unfold isSafeInteger. destruct (to_integer x) as [a|]; [|naive_solver].
  rewrite Z.leb_le. naive_solver.
Qed.

(** A comparison that failed on numbers that are not NaN. *)
Lemma ltb_false_le (x y : jsnum) :
  isFinite x = true -> isFinite y = true -> PrimFloat.ltb x y = false -> ord y <= ord x.
Proof. intros Hx%isFinite_not_nan Hy%isFinite_not_nan. by apply ltb_false_ord. Qed.

Lemma ltb_true_lt (x y : jsnum) : PrimFloat.ltb x y = true -> ord x < ord y.
Proof. intros H%ltb_ord. tauto. Qed.

Lemma leb_true_le (x y : jsnum) : PrimFloat.leb x y = true -> ord x <= ord y.
Proof. intros H%leb_ord. tauto. Qed.

(** Comparisons of numbers known to be finite, as comparisons of [ord]. *)
Lemma ord_0 : ord 0%float = 0.
Proof. reflexivity. Qed.

Lemma isFinite_0 : isFinite 0%float = true.
Proof. reflexivity. Qed.

#[export] Hint Resolve isFinite_not_nan isInteger_finite isFinite_0 : js.
#[export] Hint Resolve to_integer_0 to_integer_1 inf_ord_pos one_ord_pos : js.

Section FiniteOrder.
Context (x y : jsnum) (Hx : isFinite x = true) (Hy : isFinite y = true).

Lemma leb_finite : PrimFloat.leb x y = true <-> ord x <= ord y.
Proof. rewrite leb_ord, !isFinite_not_nan by done. tauto. Qed.

Lemma ltb_finite : PrimFloat.ltb x y = true <-> ord x < ord y.
Proof. rewrite ltb_ord, !isFinite_not_nan by done. tauto. Qed.

Lemma eqb_finite : PrimFloat.eqb x y = true <-> ord x = ord y.
Proof. rewrite eqb_ord, !isFinite_not_nan by done. tauto. Qed.

Lemma leb_finite_false : PrimFloat.leb x y = false <-> ord y < ord x.
Proof. apply leb_false_ord; auto with js. Qed.

Lemma ltb_finite_false : PrimFloat.ltb x y = false <-> ord y <= ord x.
Proof. apply ltb_false_ord; auto with js. Qed.
End FiniteOrder.

(** ** Products and quotients of finite numbers *)

(** A number of the given sign, a zero included. *)
Definition weakly_signed (s : bool) (x : spec_float) : Prop :=
  match x with
  | S754_zero s' | S754_finite s' _ _ | S754_infinity s' => s' = s
  | S754_nan => False
  end.

Lemma shr_nonneg (r : shr_record) (e n : Z) :
  0 <= shr_m r -> 0 <= shr_m (fst (shr r e n)).
Proof.
  intros Hr. destruct n as [|p|p]; cbn [shr fst]; [done| |done]. by apply shr_iter_div.
Qed.

Lemma shr_record_of_loc_m (m : Z) (l : location) : shr_m (shr_record_of_loc m l) = m.
Proof. by destruct l as [|[]]. Qed.

Lemma round_nearest_even_nonneg (m : Z) (l : location) : 0 <= m -> 0 <= round_nearest_even m l.
Proof. intros. destruct l as [|[]]; cbn; try lia. destruct (Z.even m); lia. Qed.

Lemma round_aux_weak (s : bool) (m e : Z) (l : location) :
  0 <= m -> weakly_signed s (binary_round_aux prec emax s m e l).
Proof.
  intros Hm. unfold binary_round_aux, shr_fexp.
  pose proof (shr_nonneg (shr_record_of_loc m l) e
    (fexp prec emax (Zdigits2 m + e) - e)) as H1.
  rewrite shr_record_of_loc_m in H1. specialize (H1 Hm).
  destruct (shr _ e _) as [r1 e1]. cbn [fst] in H1.
  pose proof (round_nearest_even_nonneg (shr_m r1) (loc_of_shr_record r1) H1) as H2.
  set (m2 := round_nearest_even (shr_m r1) (loc_of_shr_record r1)) in *.
  pose proof (shr_nonneg (shr_record_of_loc m2 loc_Exact) e1
    (fexp prec emax (Zdigits2 m2 + e1) - e1)) as H3.
  rewrite shr_record_of_loc_m in H3. specialize (H3 H2).
  destruct (shr _ e1 _) as [r2 e2]. cbn [fst] in H3.
  destruct (shr_m r2); [done| |lia]. by destruct (e2 <=? _).
Qed.

Definition sign_of (x : spec_float) : bool :=
  match x with
  | S754_zero s | S754_finite s _ _ | S754_infinity s => s
  | S754_nan => false
  end.

Lemma div_core_nonneg (m1 m2 : positive) (e1 e2 : Z) :
  0 <= fst (fst (SFdiv_core_binary prec emax (Zpos m1) e1 (Zpos m2) e2)).
Proof.
  unfold SFdiv_core_binary.
  set (sh := e1 - e2 - _). destruct sh as [|p|p];
    match goal with |- context [Z.div_eucl ?a (Zpos m2)] =>
      pose proof (Z.div_pos a (Zpos m2)) as H; unfold Z.div in H;
      destruct (Z.div_eucl a (Zpos m2)) as [q r]; cbn [fst] in *; apply H
    end; try lia.
  apply Z.shiftl_nonneg. lia.
Qed.

Section Products.
Context (x y : jsnum) (Hx : isFinite x = true) (Hy : isFinite y = true).

Lemma mul_weak :
  weakly_signed (xorb (sign_of (Prim2SF x)) (sign_of (Prim2SF y))) (Prim2SF (x * y)%float).
Proof.
  rewrite FloatAxioms.mul_spec. unfold SF64mul.
  destruct (finite_cases x Hx) as [[sx ->]|(sx & mx & ex & -> & _)],
    (finite_cases y Hy) as [[sy ->]|(sy & my & ey & -> & _)]; cbn [SFmul sign_of]; try done.
  apply round_aux_weak. lia.
Qed.

Lemma div_weak :
  ord y <> 0 ->
  weakly_signed (xorb (sign_of (Prim2SF x)) (sign_of (Prim2SF y))) (Prim2SF (x / y)%float).
Proof.
  intros Hnz. rewrite FloatAxioms.div_spec. unfold SF64div. unfold ord in Hnz.
  destruct (finite_cases x Hx) as [[sx ->]|(sx & mx & ex & -> & _)],
    (finite_cases y Hy) as [[sy Ey]|(sy & my & ey & Ey & _)]; rewrite Ey in *;
    cbn [SFdiv sign_of]; try done.
  pose proof (div_core_nonneg mx my ex ey) as H.
  destruct (SFdiv_core_binary _ _ _ _ _ _) as [[mz ez] lz]. by apply round_aux_weak.
Qed.

Lemma mul_not_nan : isNaN (x * y)%float = false.
Proof. apply isNaN_false. pose proof mul_weak as H. intros E. by rewrite E in H. Qed.

Lemma div_not_nan : ord y <> 0 -> isNaN (x / y)%float = false.
Proof. intros Hnz. apply isNaN_false. pose proof (div_weak Hnz) as H. intros E. by rewrite E in H. Qed.
End Products.

(** A finite number that is not negative has a positive sign, unless it is [-0]. *)
Lemma sign_of_pos (x : jsnum) : 0 < ord x -> sign_of (Prim2SF x) = false.
Proof.
  unfold ord. pose proof inf_ord_pos. pose proof (Prim2SF_valid x) as Hv.
  destruct (Prim2SF x) as [[]|[]| |[] m e]; cbn [sf_ord sign_of cond_Zopp]; try done; try lia.
Qed.

Lemma weakly_signed_ord (x : jsnum) (s : bool) :
  weakly_signed s (Prim2SF x) -> if s then ord x <= 0 else 0 <= ord x.
Proof.
  unfold ord. pose proof inf_ord_pos. pose proof (Prim2SF_valid x) as Hv.
  destruct (Prim2SF x) as [s'|s'| |s' m e]; cbn [weakly_signed sf_ord]; try done; intros <-.
  - by destruct s'.
  - destruct s'; cbn [cond_Zopp]; lia.
  - cbn in Hv. apply bounded_spec in Hv. pose proof (scaled_pos m (e + 1074)).
    destruct s'; cbn [cond_Zopp]; lia.
Qed.

(** The quotient of two numbers that are not negative is not negative. *)
Lemma div_nonneg (x y : jsnum) :
  isFinite x = true -> isFinite y = true -> 0 <= ord x -> 0 < ord y -> 0 <= ord (x / y)%float.
Proof.
  intros Hx Hy Ox Oy.
  destruct (finite_cases x Hx) as [[sx Ex]|(sx & mx & ex & Ex & Bx)].
  - assert (ord (x / y)%float = 0); [|lia]. unfold ord in *.
    rewrite FloatAxioms.div_spec, Ex. unfold SF64div.
    destruct (finite_cases y Hy) as [[sy Ey]|(sy & my & ey & Ey & By)]; rewrite Ey in *; [cbn in Oy; lia|].
    done.
  - assert (0 < ord x).
    { unfold ord in *. rewrite Ex in *. rewrite sf_ord_finite in *. apply bounded_spec in Bx.
      pose proof (Z.pow_pos_nonneg 2 (ex + 1074)). destruct sx; cbn [cond_Zopp] in *; nia. }
    pose proof (div_weak x y Hx Hy) as Hw. rewrite !sign_of_pos in Hw by done.
    apply (weakly_signed_ord _ false). apply Hw. lia.
Qed.

(** The comparator [x - y] on numbers that may be infinite: negative exactly
    when [x] is below, and zero or NaN exactly when they are equal. *)
Lemma non_nan_cases (x : jsnum) :
  isNaN x = false ->
  isFinite x = true \/ Prim2SF x = S754_infinity false \/ Prim2SF x = S754_infinity true.
Proof.
  intros Hn. assert (Hn' := Hn). rewrite isNaN_false in Hn'.
  destruct (Prim2SF x) as [s|[]| |s m e] eqn:E; auto; left; apply isFinite_ord; (split; [done|]);
    unfold ord; rewrite E; pose proof inf_ord_pos.
  - cbn [sf_ord]. lia.
  - pose proof (Prim2SF_valid x) as Hv. rewrite E in Hv. cbn in Hv.
    pose proof (scaled_lt_inf m e Hv). apply bounded_spec in Hv.
    pose proof (scaled_pos m (e + 1074)). destruct s; cbn [sf_ord cond_Zopp]; lia.
Qed.

Lemma compare_sub (x y : jsnum) :
  isNaN x = false -> isNaN y = false ->
  PrimFloat.ltb (x - y)%float 0 = PrimFloat.ltb x y /\
  isNaN (x - y)%float || PrimFloat.eqb (x - y)%float 0 = PrimFloat.eqb x y.
Proof.
  intros Hx Hy.
  assert (Hfin : isFinite x = true -> isFinite y = true ->
    PrimFloat.ltb (x - y)%float 0 = PrimFloat.ltb x y /\
    isNaN (x - y)%float || PrimFloat.eqb (x - y)%float 0 = PrimFloat.eqb x y).
  { intros Fx Fy. destruct (sub_sgn x y Fx Fy) as [Hn Hs]. rewrite Hn. cbn [orb].
    split; apply bool_iff_eq; [rewrite !ltb_ord|rewrite !eqb_ord]; rewrite Hn, Hx, Hy, ord_0;
      change (isNaN 0%float) with false; intuition lia. }
  destruct (non_nan_cases x Hx) as [Fx|Ex], (non_nan_cases y Hy) as [Fy|Ey]; [by apply Hfin|..];
    clear Hfin;
    rewrite !ltb_spec, FloatAxioms.eqb_spec, FloatAxioms.eqb_spec; unfold isNaN, PrimFloat.is_nan;
    rewrite FloatAxioms.eqb_spec, FloatAxioms.sub_spec; unfold SF64sub.
  - destruct (finite_cases x Fx) as [[sx Ex]|(sx & mx & ex & Ex & Bx)];
      rewrite Ex; destruct Ey as [-> | ->]; try destruct sx; done.
  - destruct (finite_cases y Fy) as [[sy Ey]|(sy & my & ey & Ey & By)];
      rewrite Ey; destruct Ex as [-> | ->]; try destruct sy; done.
  - destruct Ex as [-> | ->], Ey as [-> | ->]; done.
Qed.

(** Sums and quotients that cannot be NaN. *)
Lemma add_not_nan (x y : jsnum) :
  isFinite x = true -> isNaN y = false -> isNaN (x + y)%float = false.
Proof.
  intros Fx Hy. rewrite isNaN_false. pose proof (Prim2SF_valid (x + y)%float) as Hv.
  rewrite FloatAxioms.add_spec in *. unfold SF64add in *.
  destruct (finite_cases x Fx) as [[sx Ex]|(sx & mx & ex & Ex & Bx)],
    (non_nan_cases y Hy) as [Fy|[Ey|Ey]]; try (by rewrite Ex, Ey);
    destruct (finite_cases y Fy) as [[sy Ey]|(sy & my & ey & Ey & By)]; rewrite Ex, Ey in *;
    cbn [SFadd] in *; try done; [by destruct sx, sy|].
  apply bounded_spec in Bx, By. eapply normalize_sgn in Hv as [Hn _]; [exact Hn| |reflexivity]. lia.
Qed.

Lemma div_not_nan_finite (x y : jsnum) :
  isNaN x = false -> isFinite y = true -> ord y <> 0 -> isNaN (x / y)%float = false.
Proof.
  intros Hx Fy Hy. destruct (non_nan_cases x Hx) as [Fx|Ex]; [by apply div_not_nan|].
  apply isNaN_false. rewrite FloatAxioms.div_spec. unfold SF64div. unfold ord in Hy.
  destruct (finite_cases y Fy) as [[sy Ey]|(sy & my & ey & Ey & By)]; rewrite Ey in *; [done|].
  by destruct Ex as [-> | ->].
Qed.

Lemma div_nonpos (x y : jsnum) :
  isFinite x = true -> isFinite y = true -> ord x <= 0 -> 0 < ord y -> ord (x / y)%float <= 0.
Proof.
  intros Hx Hy Ox Oy. pose proof (div_weak x y Hx Hy ltac:(lia)) as Hw.
  rewrite (sign_of_pos y Oy), xorb_false_r in Hw. apply weakly_signed_ord in Hw.
  destruct (sign_of (Prim2SF x)) eqn:E; [done|].
  destruct (finite_cases x Hx) as [[sx Ex]|(sx & mx & ex & Ex & Bx)].
  - assert (ord (x / y)%float = 0); [|lia]. unfold ord in *.
    rewrite FloatAxioms.div_spec, Ex. unfold SF64div.
    destruct (finite_cases y Hy) as [[sy Ey]|(sy & my & ey & Ey & By)]; rewrite Ey in *; [cbn in Oy; lia|].
    done.
  - rewrite Ex in E. cbn in E. subst. unfold ord in Ox. rewrite Ex, sf_ord_finite in Ox.
    apply bounded_spec in Bx. pose proof (scaled_pos mx (ex + 1074)). cbn [cond_Zopp] in Ox. lia.
Qed.

(** Evaluated by [vm_compute] only: the scaled values are far too large to unfold. *)
#[global] Opaque to_integer.
