(* ===== verification/JsString.v ===== *)
(** * JavaScript strings

    Strings are sequences of 8-bit code units (the program's markers, keys and
    identifiers are ASCII; a code unit above 255 never equals one of theirs).
    This file has the [String] operations the program uses, [Number]-to-string
    conversion (shortest round-trip decimal) and string-to-[Number] conversion. *)

From Stdlib Require Import ZArith Lia Bool Ascii String.
From Stdlib Require Import Floats.
From stdpp Require Import base list strings option numbers.
From S2P Require Import Prelude JsNumber.

Local Open Scope string_scope.

(** The double quote, which the messages embed. *)
Definition dq : string := String "034"%char EmptyString.
Definition quoted (s : string) : string := dq ++ s ++ dq.

(** [s.includes(p)] *)
Fixpoint includes (s p : string) : bool :=
  String.prefix p s ||
  match s with
  | EmptyString => false
  | String _ s' => includes s' p
  end.

Definition code (c : ascii) : nat := nat_of_ascii c.

(** White space of [trim] among 8-bit code units. *)
Definition is_space (c : ascii) : bool :=
  let n := code c in (Nat.leb 9 n && Nat.leb n 13) || Nat.eqb n 32 || Nat.eqb n 160.

Fixpoint trim_start (s : string) : string :=
  match s with
  | EmptyString => EmptyString
  | String c s' => if is_space c then trim_start s' else s
  end.

Fixpoint trim_end (s : string) : string :=
  match s with
  | EmptyString => EmptyString
  | String c s' =>
      match trim_end s' with
      | EmptyString => if is_space c then EmptyString else String c EmptyString
      | t => String c t
      end
  end.

Definition trim (s : string) : string := trim_end (trim_start s).

(** A string is truthy when it is not empty. *)
Definition nonempty (s : string) : bool :=
  match s with EmptyString => false | _ => true end.

(** [toLowerCase] on 8-bit code units (ASCII and Latin-1 capitals). *)
Definition lower_char (c : ascii) : ascii :=
  let n := code c in
  if (Nat.leb 65 n && Nat.leb n 90) ||
     (Nat.leb 192 n && Nat.leb n 222 && negb (Nat.eqb n 215))
  then ascii_of_nat (n + 32) else c.

Fixpoint toLowerCase (s : string) : string :=
  match s with
  | EmptyString => EmptyString
  | String c s' => String (lower_char c) (toLowerCase s')
  end.

(** [parts.join(sep)] *)
Fixpoint join (sep : string) (parts : list string) : string :=
  match parts with
  | [] => ""
  | [p] => p
  | p :: ps => p ++ sep ++ join sep ps
  end.

Fixpoint repeat_char (n : nat) (c : ascii) : string :=
  match n with O => EmptyString | S n' => String c (repeat_char n' c) end.

(** [s.padStart(n, c)] and [s.padEnd(n, c)] for a one-character filler. *)
Definition padStart (s : string) (n : nat) (c : ascii) : string :=
  repeat_char (n - String.length s) c ++ s.
Definition padEnd (s : string) (n : nat) (c : ascii) : string :=
  s ++ repeat_char (n - String.length s) c.

(** [s.replaceAll(p, r)] for a non-empty pattern, with fuel: every replacement
    consumes at least one character, so [length s] steps are enough. *)
Fixpoint replaceAll_fuel (fuel : nat) (s p r : string) : string :=
  match fuel with
  | O => s
  | S fuel' =>
      match s with
      | EmptyString => EmptyString
      | String c s' =>
          if String.prefix p s
          then r ++ replaceAll_fuel fuel'
                      (String.substring (String.length p) (String.length s) s) p r
          else String c (replaceAll_fuel fuel' s' p r)
      end
  end.
Definition replaceAll (s p r : string) : string :=
  replaceAll_fuel (String.length s) s p r.

(** Lexicographic order on code units: the [<] of two strings. *)
Fixpoint str_ltb (s t : string) : bool :=
  match s, t with
  | _, EmptyString => false
  | EmptyString, String _ _ => true
  | String a s', String b t' =>
      Nat.ltb (code a) (code b) || (Nat.eqb (code a) (code b) && str_ltb s' t')
  end.

(** [/^[0-9a-f]{n}$/] *)
Definition hex_char (c : ascii) : bool :=
  let n := code c in (Nat.leb 48 n && Nat.leb n 57) || (Nat.leb 97 n && Nat.leb n 102).
Fixpoint all_chars (p : ascii -> bool) (s : string) : bool :=
  match s with EmptyString => true | String c s' => p c && all_chars p s' end.
Definition hex_string (n : nat) (s : string) : bool :=
  Nat.eqb (String.length s) n && all_chars hex_char s.

(** [JSON.stringify(s)] on a string of bytes. *)
Definition json_char (c : ascii) : string :=
  let n := code c in
  let hex d := String (ascii_of_nat (if Nat.ltb d 10 then 48 + d else 87 + d)) EmptyString in
  if Nat.eqb n 34 then "\" ++ dq
  else if Nat.eqb n 92 then "\\"
  else if Nat.eqb n 8 then "\b" else if Nat.eqb n 9 then "\t" else if Nat.eqb n 10 then "\n"
  else if Nat.eqb n 12 then "\f" else if Nat.eqb n 13 then "\r"
  else if Nat.ltb n 32 then "\u00" ++ hex (n / 16) ++ hex (Nat.modulo n 16)
  else String c EmptyString.
Fixpoint json_chars (s : string) : string :=
  match s with EmptyString => EmptyString | String c s' => json_char c ++ json_chars s' end.
Definition json_string (s : string) : string := quoted (json_chars s).

(** ** Decimal digits *)

Definition digit_char (d : Z) : ascii := ascii_of_nat (48 + Z.to_nat d).

(** The decimal digits of a natural number, most significant first; [fuel]
    bounds the number of digits, and [Z.log2 n + 2] of them are enough. *)
Fixpoint digits_fuel (fuel : nat) (n : Z) (acc : list Z) : list Z :=
  match fuel with
  | O => acc
  | S fuel' =>
      if (n <? 10)%Z then n :: acc
      else digits_fuel fuel' (n / 10)%Z ((n mod 10)%Z :: acc)
  end.
Definition digits (n : Z) : list Z := digits_fuel (Z.to_nat (Z.log2 n + 2)) n [].

Fixpoint string_of_digits (ds : list Z) : string :=
  match ds with
  | [] => EmptyString
  | d :: ds' => String (digit_char d) (string_of_digits ds')
  end.

Definition string_of_N (n : Z) : string := string_of_digits (digits n).
Definition string_of_nat (n : nat) : string := string_of_N (Z.of_nat n).

(** The value of a digit list. *)
Definition digits_value (ds : list Z) : Z := fold_left (fun acc d => acc * 10 + d)%Z ds 0%Z.

(** ** [Number.prototype.toString]: the shortest decimal that reads back

    A positive finite number is [num / den]; [decimal_exponent] is the [n] with
    [10^(n-1) <= value < 10^n]; [shortest] tries 1, 2, ... significant digits and
    keeps the first decimal that [of_decimal] reads back as the same number (17
    digits always do for binary64). *)
Definition sf_ratio (m : positive) (e : Z) : Z * Z :=
  if (0 <=? e)%Z then (Zpos m * 2 ^ e, 1)%Z else (Zpos m, 2 ^ (- e))%Z.

Definition below_pow10 (num den n : Z) : bool :=
  if (0 <=? n)%Z then (num <? den * 10 ^ n)%Z else (num * 10 ^ (- n) <? den)%Z.

Definition decimal_exponent (num den : Z) : Z :=
  let n0 := ((Z.log2 num - Z.log2 den) * 30103 / 100000 - 1)%Z in
  match List.find (below_pow10 num den)
          [n0; n0 + 1; n0 + 2; n0 + 3; n0 + 4]%Z with
  | Some n => n
  | None => n0
  end.

Definition reads_back (x : spec_float) (s e : Z) : bool :=
  bool_decide (sf_of_decimal false s e = x).

(** The [k]-digit decimal [s * 10^(n-k)] that reads back as [x] and is closest
    to it, when there is one. *)
Definition candidate (x : spec_float) (num den n k : Z) : option Z :=
  let j := (k - n)%Z in
  let N := if (0 <=? j)%Z then (num * 10 ^ j)%Z else num in
  let D := if (0 <=? j)%Z then den else (den * 10 ^ (- j))%Z in
  let lo := (N / D)%Z in
  match reads_back x lo (- j), reads_back x (lo + 1) (- j) with
  | true, true =>
      match (2 * (N mod D) ?= D)%Z with
      | Lt => Some lo
      | Gt => Some (lo + 1)%Z
      | Eq => Some (if Z.even lo then lo else lo + 1)%Z
      end
  | true, false => Some lo
  | false, true => Some (lo + 1)%Z
  | false, false => None
  end.

Fixpoint shortest (fuel : nat) (x : spec_float) (num den n k : Z) : Z * Z :=
  match fuel with
  | O => (0, k)%Z
  | S fuel' =>
      match candidate x num den n k with
      | Some s => (s, k)
      | None => shortest fuel' x num den n (k + 1)
      end
  end.

Fixpoint drop_zeros (ds : list Z) : list Z :=
  match ds with 0%Z :: ds' => drop_zeros ds' | _ => ds end.

(** Digits [ds] and exponent [n]: the value is [0.ds * 10^n]. *)
Definition shortest_digits (m : positive) (e : Z) : list Z * Z :=
  let '(num, den) := sf_ratio m e in
  let n := decimal_exponent num den in
  let '(s, k) := shortest 17 (S754_finite false m e) num den n 1 in
  let ds := digits s in
  (List.rev (drop_zeros (List.rev ds)), n + (Z.of_nat (List.length ds) - k))%Z.

Definition string_of_Z (z : Z) : string :=
  if (z <? 0)%Z then "-" ++ string_of_N (- z) else string_of_N z.

(** The layout of ECMA-262 Number::toString for the digits and the exponent. *)
Definition layout (ds : list Z) (n : Z) : string :=
  let k := Z.of_nat (List.length ds) in
  let s := string_of_digits ds in
  if (k <=? n)%Z && (n <=? 21)%Z then s ++ repeat_char (Z.to_nat (n - k)) "0"
  else if (0 <? n)%Z && (n <=? 21)%Z then
    string_of_digits (take (Z.to_nat n) ds) ++ "." ++ string_of_digits (drop (Z.to_nat n) ds)
  else if (-6 <? n)%Z && (n <=? 0)%Z then
    "0." ++ repeat_char (Z.to_nat (- n)) "0" ++ s
  else
    let exp := (if (0 <=? n - 1)%Z then "+" else "") ++ string_of_Z (n - 1) in
    match ds with
    | [d] => string_of_digits ds ++ "e" ++ exp
    | d :: ds' => String (digit_char d) ("." ++ string_of_digits ds' ++ "e" ++ exp)
    | [] => ""
    end.

Definition Number_toString (x : jsnum) : string :=
  match Prim2SF x with
  | S754_nan => "NaN"
  | S754_zero _ => "0"
  | S754_infinity s => (if s then "-" else "") ++ "Infinity"
  | S754_finite s m e =>
      let '(ds, n) := shortest_digits m e in (if s then "-" else "") ++ layout ds n
  end.

Example Number_toString_ex :
  List.map Number_toString
    [0; 120; 0.1; -1.35; 0.30000000000000004; 1e21; 1e23; 5e-324; 1.7976931348623157e308;
     0.000001; 1.5e-7; 123456789.125; 100; PrimFloat.nan; PrimFloat.neg_infinity;
     9007199254740993; 4.35; 0.04]%float
  = ["0"; "120"; "0.1"; "-1.35"; "0.30000000000000004"; "1e+21"; "1e+23"; "5e-324";
     "1.7976931348623157e+308"; "0.000001"; "1.5e-7"; "123456789.125"; "100"; "NaN";
     "-Infinity"; "9007199254740992"; "4.35"; "0.04"].
Proof. vm_compute. reflexivity. Qed.

(** ** String to number ([Number(s)] on a string) *)

Definition digit_of (c : ascii) : option Z :=
  let n := code c in
  if Nat.leb 48 n && Nat.leb n 57 then Some (Z.of_nat n - 48)%Z else None.

Definition hex_of (c : ascii) : option Z :=
  let n := code c in
  if Nat.leb 48 n && Nat.leb n 57 then Some (Z.of_nat n - 48)%Z
  else if Nat.leb 97 n && Nat.leb n 102 then Some (Z.of_nat n - 87)%Z
  else if Nat.leb 65 n && Nat.leb n 70 then Some (Z.of_nat n - 55)%Z else None.

(** The longest run of digits: value, number of digits, rest. *)
Fixpoint take_digits (s : string) (v : Z) (k : nat) : Z * nat * string :=
  match s with
  | String c s' =>
      match digit_of c with
      | Some d => take_digits s' (v * 10 + d)%Z (S k)
      | None => (v, k, s)
      end
  | EmptyString => (v, k, s)
  end.

(** All characters in the given base, at least one of them. *)
Fixpoint radix_value (base : Z) (s : string) (v : Z) : option Z :=
  match s with
  | EmptyString => Some v
  | String c s' =>
      match hex_of c with
      | Some d => if (d <? base)%Z then radix_value base s' (v * base + d)%Z else None
      | None => None
      end
  end.

(** The exponent part, or nothing: [None] on a malformed one. *)
Definition exponent_part (s : string) : option Z :=
  match s with
  | EmptyString => Some 0%Z
  | String c s' =>
      if Ascii.eqb c "e" || Ascii.eqb c "E" then
        let '(neg, t) := match s' with
          | String "-" t => (true, t) | String "+" t => (false, t) | _ => (false, s') end in
        match take_digits t 0 0 with
        | (v, S _, EmptyString) => Some (if neg then - v else v)%Z
        | _ => None
        end
      else None
  end.

Definition unsigned_decimal (neg : bool) (s : string) : option jsnum :=
  if String.eqb s "Infinity"
  then Some (if neg then PrimFloat.neg_infinity else PrimFloat.infinity)
  else
    let '(i, ki, rest) := take_digits s 0 0 in
    let '(v, kf, rest') := match rest with
      | String "." t => take_digits t i 0 | _ => (i, O, rest) end in
    match (ki + kf)%nat, exponent_part rest' with
    | S _, Some e => Some (of_decimal neg v (e - Z.of_nat kf))
    | _, _ => None
    end.

Definition string_to_number (s : string) : jsnum :=
  let t := trim s in
  let r := match t with
    | EmptyString => Some 0%float
    | String "0" (String c ((String _ _) as u)) =>
        if Ascii.eqb c "x" || Ascii.eqb c "X" then option_map of_Z (radix_value 16 u 0)
        else if Ascii.eqb c "o" || Ascii.eqb c "O" then option_map of_Z (radix_value 8 u 0)
        else if Ascii.eqb c "b" || Ascii.eqb c "B" then option_map of_Z (radix_value 2 u 0)
        else unsigned_decimal false t
    | String "-" u => unsigned_decimal true u
    | String "+" u => unsigned_decimal false u
    | _ => unsigned_decimal false t
    end in
  match r with Some x => x | None => PrimFloat.nan end.

Example string_to_number_ex :
  List.map string_to_number
    [" 12.50 "; "-0.3000"; "1e3"; "0x1F"; ".5"; "5."; ""; "1e400"; "00012.3400"]
  = [12.5; -0.3; 1000; 31; 0.5; 5; 0; PrimFloat.infinity; 12.34]%float
  /\ List.map (fun s => isNaN (string_to_number s)) ["."; "1e"; "1x"; "abc"; "--1"; "0x"]
     = [true; true; true; true; true; true].
Proof. vm_compute. split; reflexivity. Qed.

(** ** Rounding to decimals

    [x] as an exact fraction; [Math.round] rounds half up, [toFixed k] takes the
    nearest multiple of [10^-k] (the larger one on a tie). *)
Definition round_ratio (num den : Z) : Z := ((2 * num + den) / (2 * den))%Z.

Definition Math_round (x : jsnum) : jsnum :=
  match Prim2SF x with
  | S754_finite s m e =>
      let '(num, den) := sf_ratio m e in
      let r := round_ratio (if s then - num else num) den in
      if (r =? 0)%Z then (if s then (-0)%float else 0%float) else of_Z r
  | _ => x
  end.

(** [Math.ceil]: the least integer not below [x], [-0] between -1 and 0. *)
Definition Math_ceil (x : jsnum) : jsnum :=
  match Prim2SF x with
  | S754_finite s m e =>
      if (0 <=? e)%Z then x
      else
        let '(num, den) := sf_ratio m e in
        let r := (- ((if s then num else - num) / den))%Z in
        if (r =? 0)%Z then (-0)%float else of_Z r
  | _ => x
  end.

Example Math_ceil_ex :
  List.map Math_ceil [0.5; -0.5; 2; -2.6; 4503599627370497; 1e300; 0.1]%float
  = [1; -0; 2; -2; 4503599627370497; 1e300; 1]%float.
Proof. vm_compute. reflexivity. Qed.

(** [Math.floor]: the greatest integer not above [x]. *)
Definition Math_floor (x : jsnum) : jsnum := (- Math_ceil (- x))%float.

Example Math_floor_ex :
  List.map Math_floor [0.5; -0.5; 2; -2.6; 4503599627370497; 1e300; 0.1; -0]%float
  = [0; -1; 2; -3; 4503599627370497; 1e300; 0; -0]%float.
Proof. vm_compute. reflexivity. Qed.

Lemma Math_ceil_nonneg (x : jsnum) :
  isNaN x = false -> (0 <= ord x)%Z -> isNaN (Math_ceil x) = false /\ (0 <= ord (Math_ceil x))%Z.
Proof.
  intros Hn Ho. unfold Math_ceil. destruct (Prim2SF x) as [s|s| |s m e] eqn:E; try done.
  destruct (Z.leb_spec 0 e) as [He|He]; [done|].
  pose proof (Prim2SF_valid x) as Hv. rewrite E in Hv. cbn in Hv. apply bounded_spec in Hv as (Hm & He' & _).
  assert (s = false) as ->.
  { unfold ord in Ho. rewrite E, sf_ord_finite in Ho. pose proof (scaled_pos m (e + 1074)).
    destruct s; [cbn [cond_Zopp] in Ho; lia|done]. }
  unfold sf_ratio. replace (0 <=? e)%Z with false by lia. cbn [fst snd].
  assert (Hd : (1 <= 2 ^ (- e))%Z) by (change 1%Z with (2 ^ 0)%Z; apply Z.pow_le_mono_r; lia).
  set (r := (- (- Zpos m / 2 ^ (- e)))%Z).
  assert (Hr : (0 <= r <= Zpos m)%Z).
  { unfold r. pose proof (Z.div_le_mono (- Zpos m) (-1) (2 ^ (- e))).
    assert (- Zpos m <= - Zpos m / 2 ^ (- e))%Z; [|assert (- Zpos m / 2 ^ (- e) <= 0)%Z; [|lia]].
    - apply Z.div_le_lower_bound; nia.
    - apply Z.div_le_upper_bound; lia. }
  destruct (Z.eqb_spec r 0) as [_|Hnz]; [by split|].
  assert (Hi : to_integer (of_Z r) = Some r) by (apply of_Z_integer; lia).
  apply to_integer_spec in Hi as [Hf Ho']. split; [by apply isFinite_not_nan|].
  rewrite Ho'. pose proof one_ord_pos. nia.
Qed.

Lemma Math_floor_nonpos (x : jsnum) :
  isNaN x = false -> (ord x <= 0)%Z ->
  isNaN (Math_floor x) = false /\ (ord (Math_floor x) <= 0)%Z.
Proof.
  intros Hn Ho. unfold Math_floor. rewrite isNaN_opp, ord_opp.
  destruct (Math_ceil_nonneg (- x)%float); [by rewrite isNaN_opp|rewrite ord_opp; lia|].
  split; [done|lia].
Qed.

Definition toFixed (x : jsnum) (k : nat) : string :=
  match Prim2SF x with
  | S754_finite s m e =>
      if (PrimFloat.leb 1e21%float (PrimFloat.abs x)) then Number_toString x
      else
        let '(num, den) := sf_ratio m e in
        let n := round_ratio (num * 10 ^ Z.of_nat k) den in
        let ds := string_of_N n in
        let padded := padStart ds (S k) "0" in
        let i := (String.length padded - k)%nat in
        (if s then "-" else "") ++ String.substring 0 i padded ++
        (if Nat.eqb k 0 then "" else "." ++ String.substring i k padded)
  | S754_zero _ => if Nat.eqb k 0 then "0" else "0." ++ repeat_char k "0"
  | _ => Number_toString x
  end.

Example toFixed_ex :
  List.map (fun x => toFixed x 2) [1.005; 7; -0.125; 0.004; 123.456; 1e21; 0]%float
  = ["1.00"; "7.00"; "-0.13"; "0.00"; "123.46"; "1e+21"; "0.00"]
  /\ List.map Math_round [0.5; -0.5; 2.5; -2.6; 4503599627370497]%float
     = [1; -0; 3; -3; 4503599627370497]%float.
Proof. vm_compute. split; reflexivity. Qed.

(** ** Separators *)

(** [c] does not occur in [s]. *)
Definition lacks (c : ascii) (s : string) : bool := all_chars (fun x => negb (Ascii.eqb x c)) s.

Lemma append_cons (c : ascii) (a b : string) : String c a ++ b = String c (a ++ b).
Proof. reflexivity. Qed.

Lemma all_chars_app (p : ascii -> bool) (a b : string) :
  all_chars p (a ++ b) = all_chars p a && all_chars p b.
Proof.
  induction a as [|x a IH]; [done|]. rewrite append_cons. cbn [all_chars].
  by rewrite IH, andb_assoc.
Qed.

Lemma all_chars_impl (p q : ascii -> bool) (s : string) :
  (forall c, p c = true -> q c = true) -> all_chars p s = true -> all_chars q s = true.
Proof.
  intros H. induction s as [|c s IH]; cbn; [done|]. rewrite !andb_true_iff. intros [? ?]. auto.
Qed.

(** A text up to its first separator is determined. *)
Lemma separator_inj (c : ascii) (a b r r' : string) :
  lacks c a = true -> lacks c b = true -> a ++ String c r = b ++ String c r' -> a = b /\ r = r'.
Proof.
  unfold lacks. revert b. induction a as [|x a IH]; intros [|y b]; cbn [all_chars];
    rewrite ?andb_true_iff, ?negb_true_iff, ?Ascii.eqb_neq; intros Ha Hb H.
  - by injection H.
  - injection H as H _. by destruct Hb.
  - injection H as H _. by destruct Ha.
  - injection H as -> H. destruct (IH b) as [-> ->]; [by apply Ha|by apply Hb|done|done].
Qed.

Lemma append_assoc (a b c : string) : (a ++ b) ++ c = a ++ b ++ c.
Proof. induction a as [|x a IH]; [done|]. by rewrite !append_cons, IH. Qed.

Lemma append_inj_l (p s t : string) : p ++ s = p ++ t -> s = t.
Proof. induction p as [|c p IH]; [done|]. intros H. injection H as H. auto. Qed.

(** [s.split(c)] for a one-character separator. *)
Fixpoint split_on (c : ascii) (s : string) : list string :=
  match s with
  | EmptyString => [""]
  | String x s' =>
      if Ascii.eqb x c then "" :: split_on c s'
      else match split_on c s' with
           | p :: ps => String x p :: ps
           | [] => [String x ""]
           end
  end.

(** ** The characters of a printed number *)

Definition number_char (c : ascii) : bool := Nat.leb 43 (code c) && Nat.leb (code c) 122.

Lemma digits_fuel_range (fuel : nat) : forall n acc,
  (0 <= n)%Z -> Forall (fun d => 0 <= d <= 9)%Z acc ->
  Forall (fun d => 0 <= d <= 9)%Z (digits_fuel fuel n acc).
Proof.
  induction fuel as [|f IH]; intros n acc Hn Ha; cbn; [done|].
  destruct (Z.ltb_spec n 10).
  - constructor; [lia|done].
  - apply IH; [by apply Z.div_pos|]. constructor; [|done].
    pose proof (Z.mod_pos_bound n 10). lia.
Qed.

Lemma digits_range (n : Z) : (0 <= n)%Z -> Forall (fun d => 0 <= d <= 9)%Z (digits n).
Proof. intros Hn. by apply digits_fuel_range. Qed.

Lemma digit_number_char (d : Z) : (0 <= d <= 9)%Z -> number_char (digit_char d) = true.
Proof.
  intros H. assert (Hd : In d [0; 1; 2; 3; 4; 5; 6; 7; 8; 9]%Z) by (cbn; lia).
  cbn in Hd. by destruct_or! Hd; subst.
Qed.

Lemma digits_number_chars (ds : list Z) :
  Forall (fun d => 0 <= d <= 9)%Z ds -> all_chars number_char (string_of_digits ds) = true.
Proof.
  induction 1 as [|d ds Hd _ IH]; cbn; [done|]. by rewrite digit_number_char, IH.
Qed.

Lemma repeat_number_chars (n : nat) : all_chars number_char (repeat_char n "0") = true.
Proof. by induction n. Qed.

Lemma Forall_drop_zeros (P : Z -> Prop) (ds : list Z) : Forall P ds -> Forall P (drop_zeros ds).
Proof.
  induction 1 as [|d ds Hd H IH]; cbn; [done|]. destruct d; [done|by constructor..].
Qed.

Lemma string_of_Z_chars (z : Z) : all_chars number_char (string_of_Z z) = true.
Proof.
  unfold string_of_Z. destruct (Z.ltb_spec z 0); [cbn|];
    apply digits_number_chars, digits_range; lia.
Qed.

Lemma layout_chars (ds : list Z) (n : Z) :
  Forall (fun d => 0 <= d <= 9)%Z ds -> all_chars number_char (layout ds n) = true.
Proof.
  intros Hd. unfold layout. destruct (_ && _).
  { by rewrite all_chars_app, digits_number_chars, repeat_number_chars. }
  destruct (_ && _).
  { rewrite !all_chars_app, !digits_number_chars; [done|by apply Forall_drop|by apply Forall_take]. }
  destruct (_ && _).
  { by rewrite !all_chars_app, digits_number_chars, repeat_number_chars. }
  destruct ds as [|d [|d' ds]]; [done| |].
  - rewrite !all_chars_app, string_of_Z_chars, digits_number_chars by done.
    by destruct (0 <=? n - 1)%Z.
  - apply Forall_cons_iff in Hd as [H1 Hd]. cbn [all_chars].
    rewrite digit_number_char, !all_chars_app, string_of_Z_chars, digits_number_chars by done.
    by destruct (0 <=? n - 1)%Z.
Qed.

Lemma candidate_nonneg (x : spec_float) (num den n k s : Z) :
  (0 <= num)%Z -> (0 < den)%Z -> candidate x num den n k = Some s -> (0 <= s)%Z.
Proof.
  intros Hn Hd. unfold candidate.
  set (N := if (0 <=? k - n)%Z then (num * 10 ^ (k - n))%Z else num).
  set (D := if (0 <=? k - n)%Z then den else (den * 10 ^ (- (k - n)))%Z).
  assert (0 <= N)%Z by (unfold N; destruct (Z.leb_spec 0 (k - n)); [nia|done]).
  assert (0 < D)%Z.
  { unfold D. destruct (Z.leb_spec 0 (k - n)); [done|]. apply Z.mul_pos_pos; [done|].
    apply Z.pow_pos_nonneg; lia. }
  assert (0 <= N / D)%Z by (by apply Z.div_pos).
  destruct (reads_back _ _ _), (reads_back _ _ _); try done.
  - destruct (_ ?= _)%Z; [|intros [= <-]; lia..]. destruct (Z.even _); intros [= <-]; lia.
  - intros [= <-]. lia.
  - intros [= <-]. lia.
Qed.

Lemma shortest_nonneg (fuel : nat) (x : spec_float) (num den n : Z) : forall k,
  (0 <= num)%Z -> (0 < den)%Z -> (0 <= fst (shortest fuel x num den n k))%Z.
Proof.
  induction fuel as [|f IH]; intros k Hn Hd; cbn; [done|].
  destruct (candidate x num den n k) eqn:E; [|by apply IH]. by eapply candidate_nonneg.
Qed.

(** A printed number holds no control character and no separator. *)
Lemma Number_toString_chars (x : jsnum) : all_chars number_char (Number_toString x) = true.
Proof.
  unfold Number_toString. destruct (Prim2SF x) as [s|s| |s m e]; [done|by destruct s|done|].
  unfold shortest_digits. destruct (sf_ratio m e) as [num den] eqn:Er.
  assert (Hr : (0 <= num)%Z /\ (0 < den)%Z).
  { unfold sf_ratio in Er. destruct (Z.leb_spec 0 e); injection Er as <- <-; split; lia. }
  pose proof (shortest_nonneg 17 (S754_finite false m e) num den (decimal_exponent num den) 1
    (proj1 Hr) (proj2 Hr)) as Hs.
  destruct (shortest _ _ _ _ _ _) as [sg k]. rewrite all_chars_app, layout_chars; [by destruct s|].
  apply Forall_rev, Forall_drop_zeros, Forall_rev. by apply digits_range.
Qed.

Lemma number_lacks (c : ascii) (x : jsnum) :
  number_char c = false -> lacks c (Number_toString x) = true.
Proof.
  intros Hc. eapply all_chars_impl; [|apply Number_toString_chars].
  intros y Hy. apply negb_true_iff, Ascii.eqb_neq. congruence.
Qed.

(** ** UTF-8

    The encoding of a string of code units below 256. *)
Definition utf8_char (c : ascii) : string :=
  let n := code c in
  if Nat.ltb n 128 then String c ""
  else String (ascii_of_nat (192 + n / 64)) (String (ascii_of_nat (128 + Nat.modulo n 64)) "").

Fixpoint utf8 (s : string) : string :=
  match s with EmptyString => "" | String c s' => utf8_char c ++ utf8 s' end.

Lemma utf8_app (a b : string) : utf8 (a ++ b) = utf8 a ++ utf8 b.
Proof.
  induction a as [|c a IH]; [done|]. rewrite append_cons. cbn [utf8].
  by rewrite IH, append_assoc.
Qed.

Lemma ascii_of_nat_inj (n m : nat) :
  (n < 256)%nat -> (m < 256)%nat -> ascii_of_nat n = ascii_of_nat m -> n = m.
Proof. intros Hn Hm E. rewrite <- (nat_ascii_embedding n Hn), E. by apply nat_ascii_embedding. Qed.

Lemma sixty_four (n : nat) :
  (n < 256)%nat -> (n / 64 < 4)%nat /\ (n mod 64 < 64)%nat /\ n = (64 * (n / 64) + n mod 64)%nat.
Proof.
  intros Hn. split; [by apply Nat.Div0.div_lt_upper_bound|].
  split; [by apply Nat.mod_upper_bound|apply Nat.div_mod_eq].
Qed.

Lemma string_cons_inj (x y : ascii) (s t : string) : String x s = String y t -> x = y /\ s = t.
Proof. by intros [= -> ->]. Qed.

Lemma utf8_char_inj (c d : ascii) (r r' : string) :
  utf8_char c ++ r = utf8_char d ++ r' -> c = d /\ r = r'.
Proof.
  unfold utf8_char, code. pose proof (nat_ascii_bounded c) as Hc. pose proof (nat_ascii_bounded d) as Hd.
  destruct (sixty_four _ Hc) as (? & ? & Ec), (sixty_four _ Hd) as (? & ? & Ed).
  destruct (Nat.ltb_spec (nat_of_ascii c) 128), (Nat.ltb_spec (nat_of_ascii d) 128);
    rewrite !append_cons; intros [E H']%string_cons_inj.
  - done.
  - exfalso. apply (f_equal nat_of_ascii) in E. rewrite nat_ascii_embedding in E by lia. lia.
  - exfalso. apply (f_equal nat_of_ascii) in E. rewrite nat_ascii_embedding in E by lia. lia.
  - apply string_cons_inj in H' as [E2 E3]. apply ascii_of_nat_inj in E; [|lia..].
    apply ascii_of_nat_inj in E2; [|lia..]. split; [|exact E3].
    rewrite <- (ascii_nat_embedding c), <- (ascii_nat_embedding d). f_equal. lia.
Qed.

(** Texts with the same bytes are the same. *)
Lemma utf8_inj (a : string) : forall b, utf8 a = utf8 b -> a = b.
Proof.
  assert (Hne : forall c r, utf8_char c ++ r <> "").
  { intros c r. unfold utf8_char. by destruct (Nat.ltb _ _). }
  induction a as [|c a IH]; intros [|d b]; cbn [utf8]; intros H; [done| | |].
  - by destruct (Hne d (utf8 b)).
  - by destruct (Hne c (utf8 a)).
  - apply utf8_char_inj in H as [-> H%IH]. by f_equal.
Qed.
