(* ===== verification/JsValue.v ===== *)
(** * Dynamic JavaScript values and error-accumulating validators

    The contract parsers of the program take [unknown] values (parsed JSON).
    [jsval] is that type: an object is the list of its own properties in
    [Object.keys] order.  A validator pushes messages on an [errors] array; here
    it is the list of the messages it pushes, in order.  The class [CheckSpec]
    is the interface every validator is proved against: it pushes nothing
    exactly when a proposition holds, and its instances compose that
    proposition along the structure of the validator. *)

From Stdlib Require Import ZArith Lia Bool Ascii String.
From Stdlib Require Import Floats.
From stdpp Require Import base list strings option numbers.
From S2P Require Import Prelude JsNumber JsString.

Local Open Scope string_scope.

(** ** Values *)

Inductive jsval :=
  | JUndef
  | JNull
  | JBool (b : bool)
  | JNum (n : jsnum)
  | JStr (s : string)
  | JArr (l : list jsval)
  | JObj (fields : list (string * jsval)).

(** Induction over nested values. *)
Section JsvalInd.
Context (P : jsval -> Prop).
Hypotheses (Hundef : P JUndef) (Hnull : P JNull) (Hbool : forall b, P (JBool b))
  (Hnum : forall n, P (JNum n)) (Hstr : forall s, P (JStr s))
  (Harr : forall l, Forall P l -> P (JArr l))
  (Hobj : forall o, Forall (fun e => P (snd e)) o -> P (JObj o)).

Fixpoint jsval_nested_ind (v : jsval) : P v :=
  match v with
  | JUndef => Hundef
  | JNull => Hnull
  | JBool b => Hbool b
  | JNum n => Hnum n
  | JStr s => Hstr s
  | JArr l => Harr l
      ((fix go l : Forall P l :=
          match l with
          | [] => @List.Forall_nil _ _
          | x :: l' => @List.Forall_cons _ _ x l' (jsval_nested_ind x) (go l')
          end) l)
  | JObj o => Hobj o
      ((fix go o : Forall (fun e => P (snd e)) o :=
          match o with
          | [] => @List.Forall_nil _ _
          | e :: o' => @List.Forall_cons _ _ e o' (jsval_nested_ind (snd e)) (go o')
          end) o)
  end.
End JsvalInd.

Definition typeof (v : jsval) : string :=
  match v with
  | JUndef => "undefined"
  | JNull => "object"
  | JBool _ => "boolean"
  | JNum _ => "number"
  | JStr _ => "string"
  | JArr _ | JObj _ => "object"
  end.

(** [v === null ? "null" : typeof v], as the messages print it. *)
Definition type_label (v : jsval) : string :=
  match v with JNull => "null" | _ => typeof v end.

(** ** Property access on an object's property list *)

Abbreviation record := (list (string * jsval)).

Fixpoint get (k : string) (o : record) : jsval :=
  match o with
  | [] => JUndef
  | (k', v) :: o' => if String.eqb k k' then v else get k o'
  end.

Definition keys (o : record) : list string := List.map fst o.

Definition mem (k : string) (ks : list string) : bool := List.existsb (String.eqb k) ks.

Lemma mem_in (k : string) (ks : list string) : mem k ks = true <-> In k ks.
Proof.
  unfold mem. rewrite existsb_exists. split.
  - by intros (x & Hx & ->%String.eqb_eq).
  - intros H. exists k. split; [done|]. apply String.eqb_refl.
Qed.

(** [k in o] *)
Definition has (k : string) (o : record) : bool := mem k (keys o).

(** [isRecord]: a non-null object that is not an array. *)
Definition isRecord (v : jsval) : bool :=
  match v with JObj _ => true | _ => false end.

Definition typeof_boolean (v : jsval) : bool := match v with JBool _ => true | _ => false end.
Definition typeof_string (v : jsval) : bool := match v with JStr _ => true | _ => false end.

(** [v == null] *)
Definition nullish (v : jsval) : bool := match v with JUndef | JNull => true | _ => false end.

(** A property of a value that may be anything (plain data has no others). *)
Definition prop (k : string) (v : jsval) : jsval :=
  match v with JObj o => get k o | _ => JUndef end.

(** [Object.keys(o).length === ks.length && ks.every((k) => Object.hasOwn(o, k))] *)
Definition hasExactKeys (o : record) (ks : list string) : bool :=
  Nat.eqb (length (keys o)) (length ks) && forallb (fun k => has k o) ks.

(** [typeof v === "number" && Number.isFinite(v)] *)
Definition finite (v : jsval) : bool :=
  match v with JNum x => isFinite x | _ => false end.

(** [Number.isInteger(v)] on an unknown value. *)
Definition is_integer (v : jsval) : bool :=
  match v with JNum x => isInteger x | _ => false end.

(** A test on a value that the code has narrowed to a number. *)
Definition on_num (p : jsnum -> bool) (v : jsval) : bool :=
  match v with JNum x => p x | _ => false end.

(** A test on two values narrowed to numbers. *)
Definition on_num2 (p : jsnum -> jsnum -> bool) (v w : jsval) : bool :=
  match v, w with JNum x, JNum y => p x y | _, _ => false end.

(** Truthiness. *)
Definition truthy (v : jsval) : bool :=
  match v with
  | JUndef | JNull => false
  | JBool b => b
  | JNum x => negb (isNaN x) && negb (x === 0)%js
  | JStr s => nonempty s
  | JArr _ | JObj _ => true
  end.

(** [v === "..."], [v === true] *)
Definition is_str (v : jsval) (s : string) : bool :=
  match v with JStr t => String.eqb t s | _ => false end.
Definition is_true (v : jsval) : bool := match v with JBool b => b | _ => false end.
Definition is_null (v : jsval) : bool := match v with JNull => true | _ => false end.

(** ** Conversions of an unguarded comparison

    [ToString] and [ToNumber] on plain data (objects that do not shadow
    [toString] and [valueOf]), and the abstract relational comparison [v < w]. *)
Fixpoint to_string (v : jsval) : string :=
  match v with
  | JUndef => "undefined"
  | JNull => "null"
  | JBool b => if b then "true" else "false"
  | JNum x => Number_toString x
  | JStr s => s
  | JArr l =>
      (fix go (l : list jsval) : string :=
         let elem v := match v with JUndef | JNull => "" | _ => to_string v end in
         match l with
         | [] => ""
         | [v] => elem v
         | v :: l' => elem v ++ "," ++ go l'
         end) l
  | JObj _ => "[object Object]"
  end.

Definition to_number (v : jsval) : jsnum :=
  match v with
  | JUndef => PrimFloat.nan
  | JNull => 0%float
  | JBool b => if b then 1%float else 0%float
  | JNum x => x
  | JStr s => string_to_number s
  | JArr _ | JObj _ => string_to_number (to_string v)
  end.

(** The string a value is after [ToPrimitive], when it is one. *)
Definition prim_string (v : jsval) : option string :=
  match v with
  | JStr s => Some s
  | JArr _ | JObj _ => Some (to_string v)
  | _ => None
  end.

Definition js_lt (v w : jsval) : bool :=
  match prim_string v, prim_string w with
  | Some s, Some t => str_ltb s t
  | _, _ => PrimFloat.ltb (to_number v) (to_number w)
  end.

(** [v === w] for a number [w]. *)
Definition strict_eq_num (v : jsval) (x : jsnum) : bool :=
  match v with JNum y => PrimFloat.eqb y x | _ => false end.

(** ** Validators *)

Definition fail_if (b : bool) (msg : string) : list string := if b then [msg] else [].

Class CheckSpec (errs : list string) (P : Prop) := check_spec : errs = [] <-> P.

#[global] Hint Mode CheckSpec ! - : typeclass_instances.

#[export] Instance check_nil : CheckSpec [] True.
Proof. done. Qed.

#[export] Instance check_app (a b : list string) (P Q : Prop) :
  CheckSpec a P -> CheckSpec b Q -> CheckSpec (a ++ b)%list (P /\ Q).
Proof.
  unfold CheckSpec. pose proof (app_nil a b). tauto.
Qed.

#[export] Instance check_fail_if (b : bool) (msg : string) :
  CheckSpec (fail_if b msg) (b = false).
Proof. unfold CheckSpec. destruct b; done. Qed.

#[export] Instance check_singleton (msg : string) : CheckSpec [msg] False.
Proof. done. Qed.

#[export] Instance check_if (b : bool) (x y : list string) (P Q : Prop) :
  CheckSpec x P -> CheckSpec y Q ->
  CheckSpec (if b then x else y) ((b = true -> P) /\ (b = false -> Q)).
Proof. unfold CheckSpec. intros. destruct b; naive_solver. Qed.

#[export] Instance check_flat_map {A} (f : A -> list string) (l : list A) (P : A -> Prop) :
  (forall x, CheckSpec (f x) (P x)) -> CheckSpec (List.flat_map f l) (Forall P l).
Proof.
  unfold CheckSpec. intros Hf. induction l as [|x l IH]; cbn.
  - split; [by constructor|done].
  - rewrite Forall_cons_iff. specialize (Hf x). pose proof (app_nil (f x) (flat_map f l)). tauto.
Qed.

(** [xs.forEach((x, index) => ...)]: the callback's messages, in order. *)
Fixpoint forEach_from {A} (f : A -> nat -> list string) (i : nat) (l : list A) : list string :=
  match l with
  | [] => []
  | x :: l' => f x i ++ forEach_from f (S i) l'
  end%list.
Definition forEach {A} (l : list A) (f : A -> nat -> list string) : list string :=
  forEach_from f 0 l.

#[export] Instance check_forEach {A} (f : A -> nat -> list string) (l : list A) (P : A -> Prop) :
  (forall x i, CheckSpec (f x i) (P x)) -> CheckSpec (forEach l f) (Forall P l).
Proof.
  unfold CheckSpec, forEach. intros Hf. generalize 0%nat.
  induction l as [|x l IH]; intros i; cbn.
  - split; [by constructor|done].
  - rewrite Forall_cons_iff. specialize (Hf x i). specialize (IH (S i)).
    pose proof (app_nil (f x i) (forEach_from f (S i) l)). tauto.
Qed.

(** A check that runs only on an object. *)
Definition on_record (v : jsval) (f : record -> list string) (otherwise : list string) :=
  match v with JObj o => f o | _ => otherwise end.

#[export] Instance check_on_record (v : jsval) (f : record -> list string) (msg : string)
    (P : record -> Prop) :
  (forall o, CheckSpec (f o) (P o)) ->
  CheckSpec (on_record v f [msg]) (exists o, v = JObj o /\ P o).
Proof. unfold CheckSpec. intros Hf. destruct v; cbn; naive_solver. Qed.

Definition on_array (v : jsval) (f : list jsval -> list string) (otherwise : list string) :=
  match v with JArr l => f l | _ => otherwise end.

#[export] Instance check_on_array (v : jsval) (f : list jsval -> list string) (msg : string)
    (P : list jsval -> Prop) :
  (forall l, CheckSpec (f l) (P l)) ->
  CheckSpec (on_array v f [msg]) (exists l, v = JArr l /\ P l).
Proof. unfold CheckSpec. intros Hf. destruct v; cbn; naive_solver. Qed.

(** ** The key set of an object *)

Lemma mem_spec (k : string) (ks : list string) : mem k ks = true <-> In k ks.
Proof.
  unfold mem. rewrite existsb_exists. split.
  - intros (k' & Hin & ->%String.eqb_eq). done.
  - intros Hin. exists k. split; [done|]. apply String.eqb_refl.
Qed.

Lemma has_spec (k : string) (o : record) : has k o = true <-> In k (keys o).
Proof. apply mem_spec. Qed.

Lemma get_not_has (k : string) (o : record) : has k o = false -> get k o = JUndef.
Proof.
  unfold has, mem, keys. induction o as [|[k' v] o IH]; cbn; [done|].
  destruct (String.eqb k k'); [done|]. exact IH.
Qed.

(** The object has exactly the given keys. *)
Definition exact_keys (ks : list string) (o : record) : Prop :=
  forall k, In k (keys o) <-> In k ks.

(** The key check shared by the contract parsers: a message for every missing
    key in contract order, then one for every unexpected key in object order. *)
Definition exactKeys (suffix : string) (o : record) (allowed : list string) (at_ : string) :
    list string :=
  List.flat_map (fun key =>
    fail_if (negb (has key o)) (at_ ++ ": missing key " ++ quoted key)) allowed ++
  List.flat_map (fun key =>
    fail_if (negb (mem key allowed))
            (at_ ++ ": unexpected key " ++ quoted key ++ suffix)) (keys o).

#[export] Instance check_exactKeys (suffix : string) (o : record) (ks : list string)
    (at_ : string) :
  CheckSpec (exactKeys suffix o ks at_) (exact_keys ks o).
Proof.
  unfold CheckSpec, exactKeys. rewrite (check_spec (errs := _ ++ _)%list).
  rewrite !List.Forall_forall. unfold exact_keys.
  assert (Hneg : forall b, negb b = false <-> b = true) by (intros []; done).
  split.
  - intros [H1 H2] k. rewrite <- (mem_spec k ks), <- has_spec. split; intros Hk.
    + apply Hneg, H2, has_spec, Hk.
    + apply Hneg, H1, mem_spec, Hk.
  - intros H. split; intros k Hk; apply Hneg; [apply has_spec|apply mem_spec]; apply H, Hk.
Qed.

Lemma exact_keys_has (ks : list string) (o : record) (k : string) :
  exact_keys ks o -> mem k ks = true -> has k o = true.
Proof. rewrite mem_spec, has_spec. intros H. apply H. Qed.

(** ** Parser verdicts *)

Inductive parse_result :=
  | Parsed (value : jsval)
  | Rejected (errors : list string).

(** [errors.length ? { ok: false, errors } : { ok: true, value }] *)
Definition verdict (value : jsval) (errors : list string) : parse_result :=
  match errors with [] => Parsed value | _ => Rejected errors end.

Lemma verdict_parsed (v : jsval) (errs : list string) (P : Prop) `{!CheckSpec errs P} :
  (exists w, verdict v errs = Parsed w) <-> P.
Proof.
  rewrite <- (check_spec (errs := errs)). unfold verdict. destruct errs; naive_solver.
Qed.

Definition accepted (r : parse_result) : bool :=
  match r with Parsed _ => true | Rejected _ => false end.

Lemma accepted_nil (v : jsval) (errs : list string) :
  accepted (verdict v errs) = true <-> errs = [].
Proof. by destruct errs. Qed.

Lemma accepted_verdict (v : jsval) (errs : list string) (P : Prop) `{!CheckSpec errs P} :
  accepted (verdict v errs) = true <-> P.
Proof. rewrite <- (check_spec (errs := errs)). unfold verdict. by destruct errs. Qed.

(** ** Typed views

    [represents a v]: the dynamic value [v] is the JSON form of [a]. *)
Class JsonRepr (A : Type) := represents : A -> jsval -> Prop.

#[export] Instance repr_num : JsonRepr jsnum := fun x v => v = JNum x.
#[export] Instance repr_bool : JsonRepr bool := fun b v => v = JBool b.
#[export] Instance repr_string : JsonRepr string := fun s v => v = JStr s.
#[export] Instance repr_option `{!JsonRepr A} : JsonRepr (option A) := fun o v =>
  match o with None => v = JNull | Some a => represents a v end.
#[export] Instance repr_list `{!JsonRepr A} : JsonRepr (list A) := fun l v =>
  exists vs, v = JArr vs /\ Forall2 represents l vs.

Lemma finite_repr (v : jsval) :
  finite v = true <-> exists x, represents x v /\ isFinite x = true.
Proof. unfold represents, repr_num. destruct v; cbn; naive_solver. Qed.

Lemma typeof_boolean_repr (v : jsval) :
  typeof_boolean v = true <-> exists b, represents (A := bool) b v.
Proof. unfold represents, repr_bool. destruct v; cbn; naive_solver. Qed.

(** Reading a list off an array whose elements all read. *)
Lemma list_repr `{!JsonRepr A} (P : A -> Prop) (vs : list jsval) :
  Forall (fun v => exists a, represents a v /\ P a) vs <->
  exists l, Forall2 represents l vs /\ Forall P l.
Proof.
  split.
  - induction 1 as [|v vs (a & Ha & HP) _ (l & Hl & HPl)].
    + exists []. by split.
    + exists (a :: l). by split; constructor.
  - intros (l & Hl & HP). induction Hl; inversion HP; subst; constructor; eauto.
Qed.

(** Errors pushed only under a condition. *)
Definition when (b : bool) (errs : list string) : list string := if b then errs else [].

#[export] Instance check_when (b : bool) (errs : list string) (P : Prop) :
  CheckSpec errs P -> CheckSpec (when b errs) (b = true -> P).
Proof. unfold CheckSpec. intros. destruct b; naive_solver. Qed.

(** ** Contracts

    A contract type has a JSON form ([represents]) and a validity condition
    ([valid]); a value conforms to the contract when it is the JSON form of a
    valid record.  The parsers are proved to accept exactly the conforming
    values. *)
Class Valid (A : Type) := valid : A -> Prop.

Definition conforms (A : Type) `{!JsonRepr A, !Valid A} (v : jsval) : Prop :=
  exists a : A, represents a v /\ valid a.

#[export] Instance valid_num : Valid jsnum := fun x => isFinite x = true.
#[export] Instance valid_bool : Valid bool := fun _ => True.
#[export] Instance valid_option `{!Valid A} : Valid (option A) := fun o =>
  match o with None => True | Some a => valid a end.
#[export] Instance valid_list `{!Valid A} : Valid (list A) := Forall valid.

Lemma conforms_num (v : jsval) : negb (finite v) = false <-> conforms jsnum v.
Proof. rewrite negb_false_iff. apply finite_repr. Qed.

Lemma conforms_bool (v : jsval) : negb (typeof_boolean v) = false <-> conforms bool v.
Proof.
  rewrite negb_false_iff, typeof_boolean_repr. unfold conforms, valid, valid_bool. naive_solver.
Qed.

Lemma conforms_option_num (v : jsval) :
  negb (is_null v) && negb (finite v) = false <-> conforms (option jsnum) v.
Proof.
  unfold conforms, represents, repr_option, valid, valid_option, represents, repr_num,
    valid, valid_num.
  split.
  - destruct v as [| |b|n|s|l|o]; cbn; try discriminate.
    + intros _. by exists None.
    + intros H%negb_false_iff. by exists (Some n).
  - intros ([x|] & -> & H2); [|done]. change (negb (isFinite x) = false).
    rewrite H2. done.
Qed.

Lemma conforms_list `{!JsonRepr A, !Valid A} (v : jsval) :
  conforms (list A) v <-> exists vs, v = JArr vs /\ Forall (conforms A) vs.
Proof.
  split.
  - intros (l & (vs & -> & Hl) & Hv). exists vs. split; [done|].
    apply (proj2 (list_repr valid vs)). eauto.
  - intros (vs & -> & H%list_repr). destruct H as (l & Hl & Hv).
    exists l. split; [exists vs; done|done].
Qed.

(** [has k o] is redundant once the key check has passed. *)
Lemma exact_keys_has_guard (ks : list string) (o : record) (k : string) (b : bool) :
  exact_keys ks o -> mem k ks = true -> has k o && b = b.
Proof. intros H1 H2. by rewrite (exact_keys_has ks o k). Qed.

Lemma conforms_keys (ks : list string) (o : record) (sub : list string) :
  exact_keys ks o -> forallb (fun k => mem k ks) sub = true ->
  Forall (fun k => has k o && negb (finite (get k o)) = false) sub <->
  Forall (fun k => conforms jsnum (get k o)) sub.
Proof.
  rewrite forallb_forall, !List.Forall_forall. intros He Hs.
  assert (Hk : forall k, In k sub ->
    has k o && negb (finite (get k o)) = negb (finite (get k o))).
  { intros k Hk. apply (exact_keys_has_guard ks); auto. }
  split; intros H k Hin; specialize (H k Hin); rewrite (Hk k Hin) in *;
    by apply conforms_num.
Qed.

(** Take apart a list of per-key facts, and the conforming fields. *)
Ltac destruct_forall :=
  repeat match goal with
  | H : Forall _ (_ :: _) |- _ => apply Forall_cons_iff in H as [? H]; cbn beta in *
  | H : Forall _ [] |- _ => clear H
  | H : Forall _ ?l |- _ =>
      let l' := eval hnf in l in progress change l with l' in H
  | H : _ /\ _ |- _ => destruct H
  end.

Ltac destruct_conforms :=
  repeat match goal with
  | H : conforms _ _ |- _ => destruct H as (? & ? & ?)
  | H : exists _, _ |- _ => destruct H as [? H]
  | H : _ /\ _ |- _ => destruct H
  end.

(** Discharge the guards [has k o] of a parser under its key check. *)
Ltac use_keys H :=
  repeat match goal with
  | |- context [has ?k ?o] => rewrite (exact_keys_has _ o k H eq_refl)
  | H' : context [has ?k ?o] |- _ => rewrite (exact_keys_has _ o k H eq_refl) in H'
  end; cbn [andb negb when] in *.

Ltac discharge_has Hk :=
  repeat match goal with
  | H : has ?k ?o = true -> _ |- _ => specialize (H (exact_keys_has _ o k Hk eq_refl))
  end.

Ltac discharge_true :=
  repeat match goal with H : true = true -> _ |- _ => specialize (H eq_refl) end.

(** Split conjunctions only (an [exact_keys] goal stays folded), then close the
    field facts from the context. *)
Ltac split_conj := repeat match goal with |- _ /\ _ => split end.
Ltac close_fields := split_conj; try eassumption; try done.
Ltac build_record o := split; [exists o; close_fields | hnf; close_fields].

(** [Number.isFinite(v) && Number.isInteger(v) && v >= minimum] on an unknown. *)
Definition integerAtLeast (v : jsval) (minimum : jsnum) : bool :=
  finite v && is_integer v && on_num (fun x => minimum <= x)%js v.

Lemma integerAtLeast_spec (v : jsval) (minimum : jsnum) :
  integerAtLeast v minimum = true <->
  exists x, represents x v /\ isInteger x = true /\ PrimFloat.leb minimum x = true.
Proof.
  unfold integerAtLeast, represents, repr_num. split.
  - destruct v as [| |b|n|s|l|o]; cbn; try discriminate.
    rewrite !andb_true_iff. intros [[_ Hi] Hm]. by exists n.
  - intros (x & -> & Hi & Hm). cbn. by rewrite (isInteger_finite x Hi), Hi, Hm.
Qed.

(** Rewrite with the known property reads and the known boolean facts. *)
Ltac rewrite_gets :=
  repeat match goal with
  | H : get ?k ?o = _ |- context [get ?k ?o] => rewrite H
  | H : get ?k ?o = _, H' : context [get ?k ?o] |- _ =>
      lazymatch H' with H => fail | _ => rewrite H in H' end
  end; cbn [finite is_integer on_num on_num2 is_null is_str is_true typeof_boolean
            typeof_string] in *.

Ltac use_bools :=
  repeat match goal with
  | H : true = true |- _ => clear H
  | H : false = false |- _ => clear H
  | H : ?b = true |- context [?b] => rewrite H
  | H : ?b = false |- context [?b] => rewrite H
  | H : ?b = true, H' : context [?b] |- _ =>
      lazymatch H' with H => fail | _ => rewrite H in H' end
  | H : ?b = false, H' : context [?b] |- _ =>
      lazymatch H' with H => fail | _ => rewrite H in H' end
  end; cbn [andb orb negb] in *.

(** The same in the goal only. *)
Ltac goal_bools :=
  repeat match goal with
  | H : ?b = true |- context [?b] => rewrite H
  | H : ?b = false |- context [?b] => rewrite H
  end; cbn [andb orb negb].

(** Turn every remaining "no message" hypothesis into its condition. *)
Ltac open_checks :=
  repeat match goal with
  | H : (_ ++ _)%list = [] |- _ => rewrite check_spec in H; destruct H
  end.

(** Integers are finite: add the fact wherever the context has an integer. *)
Ltac int_finite :=
  repeat match goal with
  | H : isInteger ?x = true |- _ =>
      lazymatch goal with
      | _ : isFinite x = true |- _ => fail
      | _ => pose proof (isInteger_finite x H)
      end
  end.

Lemma flat_map_nil {A} (f : A -> list string) (l : list A) :
  List.flat_map f l = [] <-> Forall (fun x => f x = []) l.
Proof. apply check_flat_map. intros x. done. Qed.

Lemma fail_if_nil (b : bool) (msg : string) : fail_if b msg = [] <-> b = false.
Proof. by destruct b. Qed.

Lemma when_nil (b : bool) (errs : list string) : when b errs = [] <-> (b = true -> errs = []).
Proof. destruct b; naive_solver. Qed.

Lemma exactKeys_nil (suffix : string) (o : record) (ks : list string) (at_ : string) :
  exactKeys suffix o ks at_ = [] <-> exact_keys ks o.
Proof. apply check_exactKeys. Qed.

Lemma is_str_spec (v : jsval) (s : string) : is_str v s = true <-> v = JStr s.
Proof. destruct v; cbn [is_str]; try (by split); rewrite String.eqb_eq; naive_solver. Qed.

Lemma is_true_spec (v : jsval) : is_true v = true <-> v = JBool true.
Proof. destruct v as [| |[]| | | |]; cbn [is_true]; naive_solver. Qed.

Lemma hasExactKeys_exact (o : record) (ks : list string) :
  List.NoDup ks -> hasExactKeys o ks = true -> exact_keys ks o.
Proof.
  unfold hasExactKeys, exact_keys. intros Hd [Hl Hk]%andb_true_iff.
  apply Nat.eqb_eq in Hl. rewrite forallb_forall in Hk.
  assert (Hi : incl ks (keys o)) by (intros k Hin; apply has_spec, Hk, Hin).
  intros k. split; [|apply Hi]. apply NoDup_length_incl; [done| |done]. by rewrite Hl.
Qed.

Lemma decide_undef (v : jsval) : {v = JUndef} + {v <> JUndef}.
Proof. destruct v; [by left|by right..]. Qed.
