(* ===== verification/JsArray.v ===== *)
(** * JavaScript arrays and sets of numbers

    [[...new Set(xs)]], [xs.sort(cmp)] and [xs.filter(Number.isFinite)] as the
    program uses them.  A [Set] compares with SameValueZero and keeps [-0] as
    [+0]; [sort] is stable and takes a comparator that returns a number.  The
    lemmas say what these give on finite numbers, through the order embedding
    [ord]. *)

From Stdlib Require Import ZArith Lia Bool Ascii String Sorting.Permutation Sorting.Sorted.
From Stdlib Require Import Floats.
From stdpp Require Import base list strings option numbers sorting.
From S2P Require Import Prelude JsNumber.
From S2P Require JsString.
Import JsString(str_ltb, code).

Local Open Scope list_scope.

(** ** Sets *)

Definition same_value_zero (x y : jsnum) : bool := PrimFloat.eqb x y || (isNaN x && isNaN y).

(** [-0] becomes [+0]. *)
Definition norm0 (x : jsnum) : jsnum := if PrimFloat.eqb x 0 then 0%float else x.

Definition includes (xs : list jsnum) (x : jsnum) : bool := List.existsb (same_value_zero x) xs.

Fixpoint dedup_from (seen xs : list jsnum) : list jsnum :=
  match xs with
  | [] => []
  | x :: xs' =>
      if includes seen x then dedup_from seen xs'
      else norm0 x :: dedup_from (x :: seen) xs'
  end.

(** [[...new Set(xs)]] *)
Definition dedup (xs : list jsnum) : list jsnum := dedup_from [] xs.

(** The same on strings. *)
Fixpoint dedup_strings_from (seen xs : list string) : list string :=
  match xs with
  | [] => []
  | x :: xs' =>
      if List.existsb (String.eqb x) seen then dedup_strings_from seen xs'
      else x :: dedup_strings_from (x :: seen) xs'
  end.
Definition dedup_strings (xs : list string) : list string := dedup_strings_from [] xs.

(** ** Sorting *)

Section Sort.
Context {A : Type}.

Fixpoint insert_by (before : A -> A -> bool) (x : A) (l : list A) : list A :=
  match l with
  | [] => [x]
  | y :: l' => if before y x then y :: insert_by before x l' else x :: l
  end.

(** Stable insertion sort; [before y x] moves [y] in front of an earlier [x]. *)
Definition sort_before (before : A -> A -> bool) (l : list A) : list A :=
  fold_right (insert_by before) [] l.

(** [l.sort(cmp)]: a negative result, and only that, moves an element ahead. *)
Definition sort (cmp : A -> A -> jsnum) (l : list A) : list A :=
  sort_before (fun y x => PrimFloat.ltb (cmp y x) 0) l.

Lemma insert_by_perm (before : A -> A -> bool) (x : A) (l : list A) :
  Permutation (x :: l) (insert_by before x l).
Proof.
  induction l as [|y l IH]; cbn; [done|]. destruct (before y x); [|done].
  rewrite <- IH. apply perm_swap.
Qed.

Lemma sort_before_perm (before : A -> A -> bool) (l : list A) :
  Permutation l (sort_before before l).
Proof.
  induction l as [|x l IH]; cbn; [done|]. rewrite <- insert_by_perm. by constructor.
Qed.

(** The comparator agrees with a total preorder on the elements sorted. *)
Context (before : A -> A -> bool) (P : A -> Prop) (R : A -> A -> Prop).
Hypothesis HR : forall x y, P x -> P y -> before y x = false <-> R x y.
Hypothesis Htotal : forall x y, P x -> P y -> R x y \/ R y x.
Hypothesis Htrans : forall x y z, P x -> P y -> P z -> R x y -> R y z -> R x z.

Lemma Forall_insert_by (Q : A -> Prop) (x : A) (l : list A) :
  Q x -> Forall Q l -> Forall Q (insert_by before x l).
Proof.
  intros Hx Hl. rewrite List.Forall_forall. intros y Hy.
  rewrite <- insert_by_perm in Hy. destruct Hy as [<-|Hy]; [done|].
  rewrite List.Forall_forall in Hl. auto.
Qed.

Lemma insert_by_sorted (x : A) (l : list A) :
  P x -> Forall P l -> StronglySorted R l -> StronglySorted R (insert_by before x l).
Proof.
  intros Hx Hl Hs. induction Hs as [|y l Hs IH Hy]; cbn; [by repeat constructor|].
  apply Forall_cons_iff in Hl as [Py Hl]. destruct (before y x) eqn:E.
  - constructor; [auto|]. apply Forall_insert_by; [|done].
    destruct (Htotal x y Hx Py) as [H|H]; [|done]. apply HR in H; [congruence|done..].
  - apply HR in E; [|done..]. constructor; [by constructor|]. constructor; [done|].
    rewrite List.Forall_forall in *. intros z Hz. eapply (Htrans x y z); auto.
Qed.

Lemma sort_before_sorted (l : list A) : Forall P l -> StronglySorted R (sort_before before l).
Proof.
  induction 1 as [|x l Hx Hl IH]; cbn; [constructor|]. apply insert_by_sorted; [done| |done].
  rewrite List.Forall_forall in *. intros y Hy.
  apply Hl. eapply Permutation_in; [symmetry; apply sort_before_perm|exact Hy].
Qed.

(** The first element of the sorted list is a least one. *)
Lemma sort_before_head (l : list A) (m : A) :
  Forall P l -> head (sort_before before l) = Some m -> In m l /\ Forall (R m) l.
Proof.
  intros Hl Hm. pose proof (sort_before_sorted l Hl) as Hs.
  pose proof (sort_before_perm before l) as Hp.
  destruct (sort_before before l) as [|m' l'] eqn:E; [done|]. injection Hm as ->.
  split; [rewrite Hp; by left|].
  inversion Hs as [|? ? _ Hall]; subst.
  assert (Pm : P m).
  { rewrite List.Forall_forall in Hl. apply Hl. rewrite Hp. by left. }
  rewrite List.Forall_forall in *. intros x Hx. rewrite Hp in Hx.
  destruct Hx as [<-|Hx]; [|auto]. by destruct (Htotal m m).
Qed.
End Sort.

Lemma sort_nonempty {A} (before : A -> A -> bool) (l : list A) :
  l <> [] -> exists m, head (sort_before before l) = Some m.
Proof.
  intros Hl. destruct (sort_before before l) as [|m l'] eqn:E; [|by exists m].
  pose proof (sort_before_perm before l) as Hp. rewrite E in Hp.
  apply Permutation_sym, Permutation_nil in Hp. congruence.
Qed.

(** [e1 || e2] for numbers: the first unless it is zero or NaN. *)
Definition js_or (x y : jsnum) : jsnum := if isNaN x || PrimFloat.eqb x 0 then y else x.

(** ** Sorting finite numbers with [(a, b) => a - b] *)

Definition ascending (a b : jsnum) : jsnum := (a - b)%float.

Lemma sub_ltb_0 (x y : jsnum) :
  isFinite x = true -> isFinite y = true -> PrimFloat.ltb (x - y)%float 0 = PrimFloat.ltb x y.
Proof.
  intros Hx Hy. destruct (sub_sgn x y Hx Hy) as [Hn Hs]. apply bool_iff_eq.
  rewrite !ltb_ord, Hn, ord_0, !isFinite_not_nan by done. change (isNaN 0%float) with false.
  split; intros (_ & _ & ?); split_and!; try done; lia.
Qed.

Lemma sub_eqb_0 (x y : jsnum) :
  isFinite x = true -> isFinite y = true -> PrimFloat.eqb (x - y)%float 0 = PrimFloat.eqb x y.
Proof.
  intros Hx Hy. destruct (sub_sgn x y Hx Hy) as [Hn Hs]. apply bool_iff_eq.
  rewrite !eqb_ord, Hn, ord_0, !isFinite_not_nan by done. change (isNaN 0%float) with false.
  split; intros (_ & _ & ?); split_and!; try done; lia.
Qed.

Abbreviation Finite := (fun x => isFinite x = true).

Lemma sort_ascending_sorted (l : list jsnum) :
  Forall Finite l -> StronglySorted (fun x y => ord x <= ord y)%Z (sort ascending l).
Proof.
  intros Hl. apply (sort_before_sorted _ Finite); [| | |done].
  - intros x y Hx Hy. unfold ascending. rewrite sub_ltb_0 by done. by apply ltb_finite_false.
  - intros. lia.
  - intros. lia.
Qed.

Lemma in_sort {A} (cmp : A -> A -> jsnum) (l : list A) (x : A) : In x (sort cmp l) <-> In x l.
Proof.
  unfold sort. pose proof (sort_before_perm (fun y x => PrimFloat.ltb (cmp y x) 0) l) as H.
  split; apply Permutation_in; [by symmetry|done].
Qed.

Lemma sort_perm {A} (cmp : A -> A -> jsnum) (l : list A) : Permutation l (sort cmp l).
Proof. apply sort_before_perm. Qed.

Lemma length_sort {A} (cmp : A -> A -> jsnum) (l : list A) : length (sort cmp l) = length l.
Proof. unfold sort. by rewrite <- sort_before_perm. Qed.

(** ** What [dedup] keeps, through [ord] *)

Lemma ord_norm0 (x : jsnum) : ord (norm0 x) = ord x.
Proof.
  unfold norm0. destruct (PrimFloat.eqb x 0) eqn:E; [|done]. apply eqb_ord in E. intuition.
Qed.

Lemma isFinite_norm0 (x : jsnum) : isFinite (norm0 x) = isFinite x.
Proof.
  unfold norm0. destruct (PrimFloat.eqb x 0) eqn:E; [|done].
  apply eqb_ord in E as (Hn & _ & Ho). symmetry. change (isFinite 0%float) with true.
  rewrite isFinite_ord, Ho, ord_0. pose proof inf_ord_pos. split; [done|lia].
Qed.

Lemma same_value_zero_finite (x y : jsnum) :
  isFinite x = true -> isFinite y = true -> same_value_zero x y = true <-> ord x = ord y.
Proof.
  intros Hx Hy. unfold same_value_zero.
  rewrite (isFinite_not_nan x), (isFinite_not_nan y), orb_false_r by done. by apply eqb_finite.
Qed.

Lemma includes_finite (xs : list jsnum) (x : jsnum) :
  Forall Finite xs -> isFinite x = true ->
  includes xs x = true <-> In (ord x) (List.map ord xs).
Proof.
  intros Hxs Hx. unfold includes. rewrite existsb_exists, in_map_iff.
  rewrite List.Forall_forall in Hxs. split.
  - intros (y & Hy & E). exists y. apply same_value_zero_finite in E; auto.
  - intros (y & E & Hy). exists y. split; [done|]. apply same_value_zero_finite; auto.
Qed.

Lemma dedup_from_spec (xs : list jsnum) : forall seen,
  Forall Finite seen -> Forall Finite xs ->
  Forall Finite (dedup_from seen xs) /\
  List.NoDup (List.map ord (dedup_from seen xs)) /\
  (forall z, In z (List.map ord (dedup_from seen xs)) <->
             In z (List.map ord xs) /\ ~ In z (List.map ord seen)).
Proof.
  induction xs as [|x xs IH]; intros seen Hseen Hxs; cbn [dedup_from List.map In].
  - split; [constructor|]. split; [constructor|]. tauto.
  - apply Forall_cons_iff in Hxs as [Hx Hxs].
    pose proof (includes_finite seen x Hseen Hx) as Hinc.
    destruct (includes seen x).
    + destruct (IH seen Hseen Hxs) as (H1 & H2 & H3). split; [done|]. split; [done|].
      intros z. rewrite H3. split; [tauto|]. intros [[<-|Hz] Hn]; [tauto|done].
    + destruct (IH (x :: seen)) as (H1 & H2 & H3); [by constructor|done|].
      cbn [List.map In] in *. rewrite ord_norm0. split.
      { constructor; [by rewrite isFinite_norm0|done]. }
      split.
      { constructor; [|done]. rewrite H3. tauto. }
      intros z. rewrite H3. destruct (decide (ord x = z)) as [<-|]; [|tauto].
      split; [|tauto]. intros _. split; [tauto|]. intros Hs. by apply Hinc in Hs.
Qed.

(** ** [[...new Set(xs.filter(Number.isFinite))].sort((a, b) => a - b)] *)

Definition uniqueSorted (values : list jsnum) : list jsnum :=
  sort ascending (dedup (List.filter isFinite values)).

(** Strictly increasing. *)
Abbreviation increasing := (StronglySorted (fun x y => ord x < ord y)%Z).

Lemma sorted_nodup_increasing (l : list jsnum) :
  StronglySorted (fun x y => ord x <= ord y)%Z l -> List.NoDup (List.map ord l) -> increasing l.
Proof.
  induction 1 as [|x l Hs IH Hx]; cbn; [constructor|]. intros [Hn Hd]%NoDup_cons_iff.
  constructor; [auto|]. rewrite List.Forall_forall in *. intros y Hy.
  specialize (Hx y Hy). rewrite in_map_iff in Hn.
  assert (ord y <> ord x); [|lia]. intros E. apply Hn. by exists y.
Qed.

Lemma dedup_spec (xs : list jsnum) :
  Forall Finite xs ->
  Forall Finite (dedup xs) /\ List.NoDup (List.map ord (dedup xs)) /\
  (forall z, In z (List.map ord (dedup xs)) <-> In z (List.map ord xs)).
Proof.
  intros Hxs. destruct (dedup_from_spec xs []) as (H1 & H2 & H3); [constructor|done|].
  split; [done|]. split; [done|]. intros z. rewrite H3. cbn. tauto.
Qed.

Lemma sort_dedup_spec (xs : list jsnum) :
  Forall Finite xs ->
  Forall Finite (sort ascending (dedup xs)) /\ increasing (sort ascending (dedup xs)) /\
  (forall z, In z (List.map ord (sort ascending (dedup xs))) <-> In z (List.map ord xs)).
Proof.
  intros Hxs. destruct (dedup_spec xs Hxs) as (H1 & H2 & H3).
  pose proof (sort_before_perm (fun y x => PrimFloat.ltb (ascending y x) 0) (dedup xs)) as Hp.
  fold (sort ascending (dedup xs)) in Hp. split; [|split].
  - rewrite List.Forall_forall in *. intros x Hx. apply H1. by apply in_sort in Hx.
  - apply sorted_nodup_increasing; [by apply sort_ascending_sorted|].
    by rewrite <- Hp.
  - intros z. rewrite <- H3. by rewrite <- Hp.
Qed.

Lemma filter_finite (xs : list jsnum) : Forall Finite (List.filter isFinite xs).
Proof. rewrite List.Forall_forall. intros x Hx. apply filter_In in Hx. tauto. Qed.

(** Finite, strictly increasing, and with exactly the values of the finite
    elements of the input. *)
Lemma uniqueSorted_spec (values : list jsnum) :
  Forall Finite (uniqueSorted values) /\ increasing (uniqueSorted values) /\
  (forall z, In z (List.map ord (uniqueSorted values)) <->
             In z (List.map ord (List.filter isFinite values))).
Proof. apply sort_dedup_spec, filter_finite. Qed.

Lemma uniqueSorted_nil (values : list jsnum) :
  uniqueSorted values = [] <-> Forall (fun x => isFinite x = false) values.
Proof.
  destruct (uniqueSorted_spec values) as (_ & _ & H). rewrite List.Forall_forall. split.
  - intros E x Hx. destruct (isFinite x) eqn:Fx; [|done]. exfalso. rewrite E in H.
    apply (H (ord x)). apply in_map. by apply filter_In.
  - intros Hall. assert (E : List.filter isFinite values = []).
    { destruct (List.filter isFinite values) as [|w ws] eqn:E; [done|].
      assert (Hw : In w (List.filter isFinite values)) by (rewrite E; by left).
      apply filter_In in Hw as [Hw Fw]. by rewrite Hall in Fw. }
    rewrite E in H. destruct (uniqueSorted values) as [|y l]; [done|].
    by destruct (proj1 (H (ord y)) (or_introl eq_refl)).
Qed.

(** ** Comparators with a tie break

    [(l, r) => f(l) - f(r) || g(l) - g(r)] orders by [f], then by [g]. *)
Lemma lexicographic (a b c d : jsnum) :
  isNaN a = false -> isNaN b = false -> isNaN c = false -> isNaN d = false ->
  PrimFloat.ltb (js_or (a - b) (c - d))%float 0 =
  if PrimFloat.eqb a b then PrimFloat.ltb c d else PrimFloat.ltb a b.
Proof.
  intros Ha Hb Hc Hd. unfold js_or.
  destruct (compare_sub a b Ha Hb) as [H1 ->]. destruct (compare_sub c d Hc Hd) as [H2 _].
  by destruct (PrimFloat.eqb a b).
Qed.

(** [x] is not after [y] by the keys [f], then [g]. *)
Definition lex_le {A} (f g : A -> jsnum) (x y : A) : Prop :=
  (ord (f x) < ord (f y))%Z \/ (ord (f x) = ord (f y) /\ (ord (g x) <= ord (g y))%Z).

Section LexSort.
Context {A : Type} (f g : A -> jsnum) (cmp : A -> A -> jsnum) (l : list A).
Hypothesis Hcmp : forall x y, PrimFloat.ltb (cmp x y) 0 =
  if PrimFloat.eqb (f x) (f y) then PrimFloat.ltb (g x) (g y) else PrimFloat.ltb (f x) (f y).
Hypothesis Hkeys : Forall (fun x => isNaN (f x) = false /\ isNaN (g x) = false) l.

Lemma lex_sort_head (m : A) :
  head (sort cmp l) = Some m -> In m l /\ Forall (lex_le f g m) l.
Proof.
  unfold sort. apply (sort_before_head _ (fun x => isNaN (f x) = false /\ isNaN (g x) = false)).
  - intros x y [Fx Gx] [Fy Gy]. rewrite Hcmp. unfold lex_le.
    destruct (PrimFloat.eqb (f y) (f x)) eqn:E.
    + rewrite ltb_false_ord by done. apply eqb_ord in E. lia.
    + rewrite ltb_false_ord by done.
      assert (ord (f y) <> ord (f x)).
      { intros Eo. assert (PrimFloat.eqb (f y) (f x) = true) by (by apply eqb_ord). congruence. }
      lia.
  - intros x y _ _. unfold lex_le. lia.
  - intros x y z _ _ _. unfold lex_le. lia.
  - exact Hkeys.
Qed.
End LexSort.

(** ** Sets of strings *)

Lemma dedup_strings_from_spec (xs : list string) : forall seen,
  List.NoDup (dedup_strings_from seen xs) /\
  (forall x, In x (dedup_strings_from seen xs) <-> In x xs /\ ~ In x seen) /\
  (length (dedup_strings_from seen xs) <= length xs)%nat /\
  (length (dedup_strings_from seen xs) = length xs -> dedup_strings_from seen xs = xs).
Proof.
  induction xs as [|x xs IH]; intros seen; cbn [dedup_strings_from length In].
  - split; [constructor|]. split; [tauto|]. split; [lia|done].
  - destruct (List.existsb (String.eqb x) seen) eqn:E.
    + apply existsb_exists in E as (y & Hy & ->%String.eqb_eq).
      destruct (IH seen) as (H1 & H2 & H3 & H4). split; [done|]. split; [|split; [lia|lia]].
      intros z. rewrite H2. split; [tauto|]. intros [[<-|Hz] Hn]; tauto.
    + assert (Hx : ~ In x seen).
      { intros Hx. assert (List.existsb (String.eqb x) seen = true); [|congruence].
        apply existsb_exists. exists x. split; [done|]. apply String.eqb_refl. }
      destruct (IH (x :: seen)) as (H1 & H2 & H3 & H4). cbn [In length] in *. split.
      { constructor; [|done]. rewrite H2. tauto. }
      split; [|split; [lia|intros [= Hl]; by rewrite (H4 Hl)]].
      intros z. rewrite H2. destruct (decide (x = z)) as [<-|]; tauto.
Qed.

(** The set has every element when its size is the length of the list. *)
Lemma dedup_strings_full (xs : list string) :
  length (dedup_strings xs) = length xs <-> List.NoDup xs.
Proof.
  destruct (dedup_strings_from_spec xs []) as (H1 & H2 & H3 & H4). unfold dedup_strings. split.
  - intros Hl. by rewrite <- (H4 Hl).
  - intros Hn. apply Nat.le_antisymm; [done|]. apply NoDup_incl_length; [done|].
    intros x Hx. apply H2. auto.
Qed.

Lemma in_dedup_strings (xs : list string) (x : string) : In x (dedup_strings xs) <-> In x xs.
Proof. destruct (dedup_strings_from_spec xs []) as (_ & H & _). unfold dedup_strings. rewrite H. cbn. tauto. Qed.

Lemma dedup_strings_nodup (xs : list string) : List.NoDup (dedup_strings xs).
Proof. apply dedup_strings_from_spec. Qed.

(** As many distinct elements of a set as it has are all of it. *)
Lemma nodup_incl_all {A} (xs ys : list A) :
  List.NoDup xs -> incl xs ys -> length ys = length xs -> forall x, In x xs <-> In x ys.
Proof. intros Hn Hi Hl x. split; [apply Hi|]. apply NoDup_length_incl; [done|lia|done]. Qed.

(** ** A comparator that tells the elements apart

    Sorting forgets the order of the input. *)
Lemma sort_perm_eq {A} (cmp : A -> A -> jsnum) (l l' : list A) :
  (forall x y, PrimFloat.ltb (cmp x y) 0 = false \/ PrimFloat.ltb (cmp y x) 0 = false) ->
  (forall x y z, PrimFloat.ltb (cmp y x) 0 = false -> PrimFloat.ltb (cmp z y) 0 = false ->
     PrimFloat.ltb (cmp z x) 0 = false) ->
  Permutation l l' ->
  (forall x y, In x l -> In y l -> PrimFloat.ltb (cmp y x) 0 = false ->
     PrimFloat.ltb (cmp x y) 0 = false -> x = y) ->
  sort cmp l = sort cmp l'.
Proof.
  intros Htotal Htrans Hp Hanti.
  assert (Hs : forall m, StronglySorted (fun x y => PrimFloat.ltb (cmp y x) 0 = false) (sort cmp m)).
  { intros m. apply (sort_before_sorted _ (fun _ => True)); [done| | |by apply List.Forall_forall].
    - intros x y _ _. destruct (Htotal y x); auto.
    - intros x y z _ _ _. apply Htrans. }
  eapply StronglySorted_unique_strong; [|apply Hs..|].
  - intros x y Hx%list_elem_of_In%in_sort Hy%list_elem_of_In%in_sort. rewrite <- Hp in Hy. auto.
  - unfold sort. by rewrite <- !sort_before_perm.
Qed.

(** The order of strings by code units, as a comparator. *)
Definition code_units (a b : string) : jsnum :=
  if str_ltb a b then (-1)%float else if str_ltb b a then 1%float else 0%float.

Lemma str_ltb_total (a : string) : forall b, str_ltb a b = false \/ str_ltb b a = false.
Proof.
  induction a as [|x a IH]; intros [|y b]; cbn [str_ltb]; [by left|by right|by left|].
  destruct (Nat.ltb_spec (code x) (code y)), (Nat.ltb_spec (code y) (code x)),
    (Nat.eqb_spec (code x) (code y)), (Nat.eqb_spec (code y) (code x)); cbn; try lia; auto.
Qed.

Lemma str_ltb_trans (a : string) : forall b c,
  str_ltb b a = false -> str_ltb c b = false -> str_ltb c a = false.
Proof.
  induction a as [|x a IH]; intros [|y b] [|z c]; cbn [str_ltb]; auto; try done.
  destruct (Nat.ltb_spec (code y) (code x)), (Nat.ltb_spec (code z) (code y)),
    (Nat.ltb_spec (code z) (code x)), (Nat.eqb_spec (code y) (code x)),
    (Nat.eqb_spec (code z) (code y)), (Nat.eqb_spec (code z) (code x)); cbn; try done; try lia.
  apply IH.
Qed.

Lemma code_units_ltb (a b : string) : PrimFloat.ltb (code_units a b) 0 = str_ltb a b.
Proof. unfold code_units. destruct (str_ltb a b); [done|]. by destruct (str_ltb b a). Qed.

Lemma str_ltb_anti (a : string) : forall b, str_ltb a b = false -> str_ltb b a = false -> a = b.
Proof.
  induction a as [|x a IH]; intros [|y b]; cbn [str_ltb]; try done.
  destruct (Nat.ltb_spec (code x) (code y)), (Nat.ltb_spec (code y) (code x)),
    (Nat.eqb_spec (code x) (code y)), (Nat.eqb_spec (code y) (code x)); cbn; try done; try lia.
  intros H1 H2. f_equal; [|by apply IH].
  rewrite <- (ascii_nat_embedding x), <- (ascii_nat_embedding y). by f_equal.
Qed.
