(* ===== verification/JsMap.v ===== *)
(** * JavaScript maps with string keys

    A [Map] with string keys is the list of its entries in insertion order:
    [set] on a present key replaces the value in place and otherwise appends,
    [delete] drops the entry, and iteration follows the list. *)

From Stdlib Require Import Bool String Lia.
From stdpp Require Import base list strings option.
From S2P Require Import Prelude.

Local Open Scope list_scope.

Section Map.
Context {A : Type}.
Implicit Types (m : list (string * A)) (k : string).

Definition map_keys m : list string := List.map fst m.

(** [m.get(k)] *)
Fixpoint map_get k m : option A :=
  match m with
  | [] => None
  | (k', x) :: m' => if String.eqb k k' then Some x else map_get k m'
  end.

(** [m.has(k)] *)
Definition map_has k m : bool := match map_get k m with Some _ => true | None => false end.

(** [m.set(k, x)] *)
Fixpoint map_set k (x : A) m : list (string * A) :=
  match m with
  | [] => [(k, x)]
  | (k', y) :: m' => if String.eqb k k' then (k', x) :: m' else (k', y) :: map_set k x m'
  end.

(** [m.delete(k)] *)
Definition map_delete k m : list (string * A) :=
  List.filter (fun e => negb (String.eqb k (fst e))) m.

(** [new Map(entries)] *)
Definition map_of (es : list (string * A)) : list (string * A) :=
  fold_left (fun m e => map_set (fst e) (snd e) m) es [].

Lemma map_get_some m k x : map_get k m = Some x -> In (k, x) m.
Proof.
  induction m as [|[k' y] m IH]; cbn; [done|]. destruct (String.eqb_spec k k'); [|auto].
  intros [= <-]. left. by subst.
Qed.

Lemma map_get_in m k : In k (map_keys m) <-> exists x, map_get k m = Some x.
Proof.
  induction m as [|[k' y] m IH]; cbn; [naive_solver|].
  destruct (String.eqb_spec k k'); [naive_solver|]. unfold map_keys in IH. rewrite <- IH.
  naive_solver.
Qed.

Lemma map_get_none m k : map_get k m = None <-> ~ In k (map_keys m).
Proof. rewrite map_get_in. destruct (map_get k m); naive_solver. Qed.

Lemma in_map_get m k x : List.NoDup (map_keys m) -> In (k, x) m -> map_get k m = Some x.
Proof.
  induction m as [|[k' y] m IH]; cbn; [done|]. intros [Hk Hn]%NoDup_cons_iff [[= -> ->]|H].
  - by rewrite String.eqb_refl.
  - destruct (String.eqb_spec k k') as [->|_]; [|auto].
    destruct Hk. exact (in_map fst _ _ H).
Qed.

Lemma map_get_set k x m k' :
  map_get k' (map_set k x m) = if String.eqb k' k then Some x else map_get k' m.
Proof.
  induction m as [|[j y] m IH]; cbn; [done|].
  destruct (String.eqb_spec k j) as [<-|Hj]; cbn.
  - by destruct (String.eqb_spec k' k).
  - rewrite IH. destruct (String.eqb_spec k' j), (String.eqb_spec k' k); congruence.
Qed.

Lemma map_get_delete k m k' :
  map_get k' (map_delete k m) = if String.eqb k' k then None else map_get k' m.
Proof.
  unfold map_delete. induction m as [|[j y] m IH]; cbn; [by destruct (String.eqb k' k)|].
  destruct (String.eqb_spec k j) as [<-|Hj]; cbn; rewrite IH.
  - by destruct (String.eqb k' k).
  - destruct (String.eqb_spec k' j), (String.eqb_spec k' k); congruence.
Qed.

Lemma map_keys_set k x m :
  map_keys (map_set k x m) = if map_has k m then map_keys m else map_keys m ++ [k].
Proof.
  unfold map_has. induction m as [|[j y] m IH]; cbn; [done|].
  destruct (String.eqb_spec k j) as [<-|Hj]; cbn; [done|].
  unfold map_keys in *. rewrite IH. by destruct (map_get _ m).
Qed.

Lemma map_set_fresh k x m : map_has k m = false -> map_set k x m = m ++ [(k, x)].
Proof.
  unfold map_has. induction m as [|[j y] m IH]; cbn; [done|].
  destruct (String.eqb_spec k j) as [<-|Hj]; [done|]. intros H. by rewrite IH.
Qed.

Lemma map_has_in k m : map_has k m = true <-> In k (map_keys m).
Proof. rewrite map_get_in. unfold map_has. destruct (map_get k m); naive_solver. Qed.

Lemma map_has_not_in k m : map_has k m = false <-> ~ In k (map_keys m).
Proof. rewrite <- map_has_in. by destruct (map_has k m). Qed.

Lemma map_set_nodup k x m : List.NoDup (map_keys m) -> List.NoDup (map_keys (map_set k x m)).
Proof.
  intros Hn. rewrite map_keys_set. unfold map_has. destruct (map_get k m) eqn:E; [done|].
  apply map_get_none in E. apply List.NoDup_app; [done|repeat constructor; auto|].
  by intros y Hy [<-|[]].
Qed.

Lemma map_delete_nodup k m : List.NoDup (map_keys m) -> List.NoDup (map_keys (map_delete k m)).
Proof.
  unfold map_keys, map_delete. induction m as [|[j y] m IH]; cbn; [done|].
  intros [Hj Hn]%NoDup_cons_iff. destruct (negb (String.eqb k j)); cbn; [|auto].
  constructor; [|auto]. rewrite in_map_iff. intros ([j' y'] & <- & [H _]%filter_In).
  apply Hj. exact (in_map fst _ _ H).
Qed.

Lemma map_set_length k x m :
  length (map_set k x m) = if map_has k m then length m else S (length m).
Proof.
  rewrite <- (length_map fst), <- (length_map fst m). fold (map_keys (map_set k x m)).
  rewrite map_keys_set. unfold map_keys. destruct (map_has k m); [done|].
  rewrite length_app. cbn. lia.
Qed.

Lemma map_delete_length k m :
  List.NoDup (map_keys m) -> map_has k m = true -> length m = S (length (map_delete k m)).
Proof.
  unfold map_has, map_delete. induction m as [|[j y] m IH]; cbn; [done|].
  intros [Hj Hn]%NoDup_cons_iff. destruct (String.eqb_spec k j) as [<-|Hk]; cbn.
  - intros _. f_equal. f_equal. symmetry. apply filter_all, List.Forall_forall.
    intros [j' y'] H. cbn. apply negb_true_iff, String.eqb_neq.
    intros <-. apply Hj. exact (in_map fst _ _ H).
  - intros H. f_equal. by apply IH.
Qed.

Lemma in_map_delete k m e : In e (map_delete k m) <-> In e m /\ fst e <> k.
Proof.
  unfold map_delete. rewrite filter_In, negb_true_iff, String.eqb_neq. naive_solver.
Qed.
End Map.
