(* ===== verification/JsGroup.v ===== *)
(** * Groups of a map with number keys

    [Map<number, T[]>] filled by
    [const b = m.get(k); if (b) b.push(x); else m.set(k, [x])]: an association list in
    insertion order whose keys are compared as SameValueZero does, with [-0] stored as
    [0]. Its entries sorted by key list every key once, in order, with the elements of
    that key as they came; a permutation of the elements permutes the groups only. *)

From Stdlib Require Import ZArith Lia Bool Permutation Sorted.
From Stdlib Require Import Floats.
From stdpp Require Import base list sorting numbers.
From S2P Require Import Prelude JsNumber JsArray.

Local Open Scope list_scope.

(** ** Keys *)

Lemma sf_compare_eq (x y : spec_float) :
  SFcompare x y = Some Eq -> sf_ord x <> 0%Z -> x = y.
Proof.
  intros H Hz. destruct x as [[]|[]| |[] m e], y as [[]|[]| |[] m' e']; cbn in H, Hz |- *; try done;
    destruct (Z.compare_spec e e') as [->| |]; try done; injection H as H.
  - destruct (Pos.compare_cont Eq m m') eqn:E; try done. by apply Pos.compare_eq in E as ->.
  - by apply Pos.compare_eq in H as ->.
Qed.

(** Equal keys are the same number once [-0] is stored as [0]. *)
Lemma norm0_inj (x y : jsnum) : PrimFloat.eqb x y = true -> norm0 x = norm0 y.
Proof.
  intros H. unfold norm0. apply eqb_ord in H as H'. destruct H' as (Nx & Ny & E).
  destruct (PrimFloat.eqb x 0) eqn:Ex, (PrimFloat.eqb y 0) eqn:Ey; [done|..].
  - apply eqb_ord in Ex as (_ & _ & Ex). assert (PrimFloat.eqb y 0 = true); [|congruence].
    apply eqb_ord. rewrite <- E, Ex, Ny. done.
  - apply eqb_ord in Ey as (_ & _ & Ey). assert (PrimFloat.eqb x 0 = true); [|congruence].
    apply eqb_ord. rewrite E, Ey, Nx. done.
  - apply Prim2SF_inj. rewrite FloatAxioms.eqb_spec in H. unfold SFeqb in H.
    destruct (SFcompare (Prim2SF x) (Prim2SF y)) as [[]|] eqn:Ec; try done.
    apply sf_compare_eq; [done|]. intros Hz.
    assert (PrimFloat.eqb x 0 = true); [|congruence]. apply eqb_ord. rewrite Nx, ord_0. done.
Qed.

Lemma filter_none {A} (p : A -> bool) (l : list A) :
  (forall x, In x l -> p x = false) -> List.filter p l = [].
Proof.
  induction l as [|x l IH]; intros H; [done|]. cbn [List.filter].
  rewrite (H x (or_introl eq_refl)). apply IH. intros y Hy. apply H. by right.
Qed.

Lemma filter_perm {A} (p : A -> bool) (l l' : list A) :
  Permutation l l' -> Permutation (List.filter p l) (List.filter p l').
Proof.
  induction 1 as [|x l l' _ IH|x y l|l l' l'' _ IH1 _ IH2]; cbn [List.filter].
  - done.
  - destruct (p x); [by constructor|done].
  - destruct (p x), (p y); try done. apply perm_swap.
  - by transitivity (List.filter p l').
Qed.

Lemma sorted_map {A B} (f : A -> B) (R : B -> B -> Prop) (l : list A) :
  StronglySorted (fun x y => R (f x) (f y)) l -> StronglySorted R (List.map f l).
Proof. induction 1 as [|x l _ IH H]; cbn; constructor; [done|]. by apply List.Forall_map. Qed.

Lemma sorted_nodup {A} (R : A -> A -> Prop) (l : list A) :
  (forall x, ~ R x x) -> StronglySorted R l -> List.NoDup l.
Proof.
  intros Hi. induction 1 as [|x l _ IH H]; constructor; [|done]. intros Hin.
  rewrite List.Forall_forall in H. by apply (Hi x), H.
Qed.

(** ** Groups *)

Section Groups.
Context {A : Type}.

(** [x] joins the group of [k], or starts it. *)
Fixpoint push (k : jsnum) (x : A) (m : list (jsnum * list A)) : list (jsnum * list A) :=
  match m with
  | [] => [(norm0 k, [x])]
  | (k', xs) :: m' =>
      if same_value_zero k' k then (k', xs ++ [x]) :: m' else (k', xs) :: push k x m'
  end.

Definition groupBy (pairs : list (jsnum * A)) : list (jsnum * list A) :=
  fold_left (fun m p => push (fst p) (snd p) m) pairs [].

(** The elements with the key [k], in order. *)
Definition group_of (k : jsnum) (pairs : list (jsnum * A)) : list A :=
  List.map snd (List.filter (fun p => same_value_zero k (fst p)) pairs).

Definition finite_keys (pairs : list (jsnum * A)) : Prop :=
  Forall (fun p => isFinite (fst p) = true) pairs.

Definition well_grouped (pairs : list (jsnum * A)) (m : list (jsnum * list A)) : Prop :=
  finite_keys pairs /\ List.NoDup (List.map fst m) /\
  (forall k, In k (List.map fst m) -> isFinite k = true /\ norm0 k = k) /\
  (forall k xs, In (k, xs) m -> xs = group_of k pairs /\ xs <> []) /\
  (forall p, In p pairs -> In (norm0 (fst p)) (List.map fst m)).

Lemma same_map_key (k k' : jsnum) :
  isFinite k = true -> isFinite k' = true -> norm0 k = k ->
  same_value_zero k k' = true <-> norm0 k' = k.
Proof.
  intros Fk Fk' Nk. rewrite same_value_zero_finite by done. split.
  - intros H%eqb_finite%norm0_inj; [by rewrite <- H|done..].
  - intros <-. by rewrite ord_norm0.
Qed.

Lemma norm0_twice (k : jsnum) : norm0 (norm0 k) = norm0 k.
Proof. unfold norm0. destruct (PrimFloat.eqb k 0) eqn:E; [done|by rewrite E]. Qed.

Lemma group_of_snoc (k : jsnum) (pairs : list (jsnum * A)) (p : jsnum * A) :
  group_of k (pairs ++ [p])
  = if same_value_zero k (fst p) then group_of k pairs ++ [snd p] else group_of k pairs.
Proof.
  unfold group_of. rewrite List.filter_app, List.map_app. cbn [List.filter].
  destruct (same_value_zero k (fst p)); [done|by rewrite List.app_nil_r].
Qed.

(** The keys that [push] leaves, and the group it changes. *)
Lemma push_keys (k : jsnum) (x : A) (m : list (jsnum * list A)) :
  isFinite k = true -> Forall (fun k' => isFinite k' = true /\ norm0 k' = k') (List.map fst m) ->
  (In (norm0 k) (List.map fst m) -> List.map fst (push k x m) = List.map fst m) /\
  (~ In (norm0 k) (List.map fst m) -> push k x m = m ++ [(norm0 k, [x])]).
Proof.
  intros Fk Hm. induction m as [|[k' xs] m IH]; cbn [push List.map fst] in *; [by split|].
  apply Forall_cons_iff in Hm as [[Fk' Nk'] Hm]. destruct (IH Hm) as [H1 H2].
  pose proof (same_map_key k' k Fk' Fk Nk') as E. destruct (same_value_zero k' k).
  - split; [done|]. intros Hn. exfalso. apply Hn. left. symmetry. by apply E.
  - assert (norm0 k <> k') by (intros HE%E; done). split; cbn [List.map fst].
    + intros [->|Hin]; [done|]. by rewrite H1.
    + intros Hn. rewrite H2; [done|]. intros Hin. apply Hn. by right.
Qed.

Lemma push_in (k : jsnum) (x : A) (m : list (jsnum * list A)) (e : jsnum * list A) :
  isFinite k = true -> List.NoDup (List.map fst m) ->
  Forall (fun k' => isFinite k' = true /\ norm0 k' = k') (List.map fst m) ->
  In e (push k x m) ->
  (fst e <> norm0 k /\ In e m) \/ (exists xs, In (norm0 k, xs) m /\ e = (norm0 k, xs ++ [x])) \/
  (~ In (norm0 k) (List.map fst m) /\ e = (norm0 k, [x])).
Proof.
  intros Fk. induction m as [|[k' xs] m IH]; cbn [push List.map fst].
  - intros _ _ [<-|[]]. right. right. split; [intros []|done].
  - intros [Hn Hnd]%List.NoDup_cons_iff [[Fk' Nk'] Hm]%Forall_cons_iff.
    pose proof (same_map_key k' k Fk' Fk Nk') as E. destruct (same_value_zero k' k).
    + pose proof (proj1 E eq_refl) as <-. intros [<-|He]; [right; left; exists xs; split; [by left|done]|].
      left. split; [|by right]. intros Ee. apply Hn. rewrite <- Ee. by apply in_map.
    + assert (norm0 k <> k') by (intros HE%E; done). intros [<-|He].
      * left. split; [by apply not_eq_sym|by left].
      * destruct (IH Hnd Hm He) as [[H1 H2]|[(ys & Hy & ->)|[H1 ->]]].
        -- left. split; [done|by right].
        -- right. left. exists ys. split; [by right|done].
        -- right. right. split; [|done]. by intros [|].
Qed.

Lemma push_spec (k : jsnum) (x : A) (pairs : list (jsnum * A)) (m : list (jsnum * list A)) :
  isFinite k = true -> well_grouped pairs m -> well_grouped (pairs ++ [(k, x)]) (push k x m).
Proof.
  intros Fk (Hfin & Hnd & Hk & Hg & Hp).
  assert (Hf : Forall (fun k' => isFinite k' = true /\ norm0 k' = k') (List.map fst m))
    by (by apply List.Forall_forall).
  destruct (push_keys k x m Fk Hf) as [Hold Hnew].
  assert (Hkeys : forall k', In k' (List.map fst (push k x m)) <-> k' = norm0 k \/ In k' (List.map fst m)).
  { intros k'. destruct (in_dec jsnum_eq_dec (norm0 k) (List.map fst m)) as [Hin|Hin].
    - rewrite Hold by done. split; [by right|intros [->|]; done].
    - rewrite Hnew, List.map_app, in_app_iff by done. cbn. intuition. }
  split_and!.
  - apply Forall_app. split; [done|]. by repeat constructor.
  - destruct (in_dec jsnum_eq_dec (norm0 k) (List.map fst m)) as [Hin|Hin].
    + by rewrite Hold.
    + rewrite Hnew, List.map_app by done. cbn. apply List.NoDup_app; [done|by repeat constructor; intros []|]. by intros y Hy [<-|[]].
  - intros k' [->|Hin]%Hkeys; [|auto]. split; [by rewrite isFinite_norm0|apply norm0_twice].
  - intros k' xs He. rewrite group_of_snoc. cbn [fst snd].
    assert (Hsame : isFinite k' = true -> norm0 k' = k' -> same_value_zero k' k = true <-> norm0 k = k')
      by (intros; by apply same_map_key).
    destruct (push_in k x m _ Fk Hnd Hf He) as [[Hne Hin]|[(ys & Hin & [= -> ->])|[Hni [= -> ->]]]].
    + cbn in Hne. destruct (Hk k') as [F N]; [by apply (in_map fst) in Hin|].
      destruct (same_value_zero k' k); [|by apply Hg]. exfalso. apply Hne. symmetry. by apply Hsame.
    + destruct (Hk (norm0 k)) as [F N]; [by apply (in_map fst) in Hin|].
      rewrite (proj2 (Hsame F N) eq_refl). destruct (Hg _ _ Hin) as [-> _].
      split; [done|]. by destruct (group_of _ _).
    + rewrite (proj2 (Hsame ltac:(by rewrite isFinite_norm0) (norm0_twice k)) eq_refl).
      split; [|done]. enough (group_of (norm0 k) pairs = []) as -> by done.
      unfold group_of. rewrite filter_none; [done|]. intros p Hin.
      destruct (same_value_zero (norm0 k) (fst p)) eqn:E; [|done]. exfalso. apply Hni.
      unfold finite_keys in Hfin. rewrite List.Forall_forall in Hfin.
      apply same_map_key in E; [|by rewrite isFinite_norm0|by apply Hfin|apply norm0_twice].
      rewrite <- E. by apply Hp.
  - intros p [Hin|[<-|[]]]%in_app_iff; apply Hkeys; [right; auto|by left].
Qed.

Lemma groupBy_spec (pairs : list (jsnum * A)) :
  finite_keys pairs -> well_grouped pairs (groupBy pairs).
Proof.
  unfold groupBy. intros Hf. rewrite <- fold_left_rev_right. rewrite <- (List.rev_involutive pairs) at 1.
  apply Forall_rev in Hf. induction (rev pairs) as [|[k x] l IH].
  - cbn. split_and!; try done; constructor.
  - cbn [fold_right rev]. apply Forall_cons_iff in Hf as [Fk Hf]. apply push_spec; [done|]. by apply IH.
Qed.

(** ** Entries in the order of their keys *)

(** [[...m.entries()].sort(([a], [b]) => a - b)] *)
Definition sortedEntries (pairs : list (jsnum * A)) : list (jsnum * list A) :=
  sort (fun e e' => ascending (fst e) (fst e')) (groupBy pairs).

Lemma push_elements (k : jsnum) (x : A) (m : list (jsnum * list A)) :
  Permutation (List.flat_map snd (push k x m)) (List.flat_map snd m ++ [x]).
Proof.
  induction m as [|[k' xs] m IH]; cbn [push List.flat_map snd]; [done|].
  destruct (same_value_zero k' k); cbn [List.flat_map snd].
  - rewrite <- !(assoc_L (++)). apply Permutation_app_head. apply Permutation_app_comm.
  - rewrite <- (assoc_L (++)). by apply Permutation_app_head.
Qed.

(** No element is lost or repeated. *)
Lemma entries_elements (pairs : list (jsnum * A)) :
  Permutation (List.flat_map snd (sortedEntries pairs)) (List.map snd pairs).
Proof.
  unfold sortedEntries. transitivity (List.flat_map snd (groupBy pairs)).
  { symmetry. apply Permutation_flat_map, sort_perm. }
  unfold groupBy. rewrite <- fold_left_rev_right. rewrite <- (List.rev_involutive pairs) at 2.
  induction (rev pairs) as [|[k x] l IH]; [done|]. cbn [fold_right rev fst snd].
  rewrite push_elements, List.map_app, IH. done.
Qed.

Lemma entries_in (pairs : list (jsnum * A)) (k : jsnum) (xs : list A) :
  finite_keys pairs -> In (k, xs) (sortedEntries pairs) ->
  isFinite k = true /\ norm0 k = k /\ xs = group_of k pairs /\ xs <> [].
Proof.
  intros Hf He%in_sort. destruct (groupBy_spec pairs Hf) as (_ & _ & Hk & Hg & _).
  destruct (Hk k) as [F N]; [by apply (in_map fst) in He|]. destruct (Hg _ _ He). done.
Qed.

Lemma entries_key (pairs : list (jsnum * A)) (p : jsnum * A) :
  finite_keys pairs -> In p pairs ->
  In (norm0 (fst p), group_of (norm0 (fst p)) pairs) (sortedEntries pairs).
Proof.
  intros Hf Hp. destruct (groupBy_spec pairs Hf) as (_ & _ & _ & Hg & Hall).
  pose proof (Hall p Hp) as H. apply in_map_iff in H as ([k xs] & <- & He). cbn [fst].
  destruct (Hg _ _ He) as [<- _]. by apply in_sort.
Qed.

(** The keys ascend strictly. *)
Lemma entries_increasing (pairs : list (jsnum * A)) :
  finite_keys pairs ->
  StronglySorted (fun e e' => (ord (fst e) < ord (fst e'))%Z) (sortedEntries pairs).
Proof.
  intros Hf. destruct (groupBy_spec pairs Hf) as (_ & Hnd & Hk & _ & _).
  assert (Hs : StronglySorted (fun e e' : jsnum * list A => (ord (fst e) <= ord (fst e'))%Z) (sortedEntries pairs)).
  { unfold sortedEntries, sort, ascending.
    apply (sort_before_sorted _ (fun e => isFinite (fst e) = true)).
    - intros e e' He He'. rewrite sub_ltb_0 by done. by apply ltb_finite_false.
    - intros; lia.
    - intros; lia.
    - apply List.Forall_forall. intros e He. apply Hk. by apply in_map. }
  assert (Hd : List.NoDup (List.map fst (sortedEntries pairs))).
  { eapply Permutation_NoDup; [|exact Hnd]. apply Permutation_map, sort_perm. }
  assert (Hin : forall e, In e (sortedEntries pairs) -> isFinite (fst e) = true /\ norm0 (fst e) = fst e).
  { intros e He%in_sort. apply Hk. by apply in_map. }
  induction Hs as [|e l Hs IH He]; [constructor|]. cbn [List.map] in Hd.
  apply List.NoDup_cons_iff in Hd as [Hni Hd]. constructor.
  - apply IH; [done|]. intros e' He'. apply Hin. by right.
  - rewrite List.Forall_forall in *. intros e' He'. specialize (He e' He').
    destruct (Z.eq_dec (ord (fst e)) (ord (fst e'))) as [E|]; [|lia]. exfalso. apply Hni.
    destruct (Hin e (or_introl eq_refl)) as [F N], (Hin e' (or_intror He')) as [F' N'].
    rewrite <- N, (norm0_inj (fst e) (fst e')) by (by apply eqb_finite). rewrite N'. by apply in_map.
Qed.

Lemma group_of_perm (k : jsnum) (pairs pairs' : list (jsnum * A)) :
  Permutation pairs pairs' -> Permutation (group_of k pairs) (group_of k pairs').
Proof. intros H. unfold group_of. apply Permutation_map. by apply filter_perm. Qed.

(** The keys do not depend on the order of the pairs. *)
Lemma entries_keys_perm (pairs pairs' : list (jsnum * A)) :
  finite_keys pairs -> Permutation pairs pairs' ->
  List.map fst (sortedEntries pairs) = List.map fst (sortedEntries pairs').
Proof.
  intros Hf Hp. assert (Hf' : finite_keys pairs') by (unfold finite_keys in *; by rewrite <- Hp).
  assert (Hk : forall ps ps', finite_keys ps -> finite_keys ps' -> Permutation ps ps' ->
    incl (List.map fst (sortedEntries ps)) (List.map fst (sortedEntries ps'))).
  { intros ps ps' F F' H k ([k' xs] & <- & He)%in_map_iff. cbn [fst].
    destruct (entries_in ps k' xs F He) as (Fk & Nk & -> & Hne). unfold group_of in Hne.
    destruct (List.filter (fun p => same_value_zero k' (fst p)) ps) as [|p l] eqn:E; [done|].
    assert (Hin : In p (List.filter (fun p => same_value_zero k' (fst p)) ps)) by (rewrite E; by left).
    apply filter_In in Hin as [Hin Hs]. unfold finite_keys in F. rewrite List.Forall_forall in F.
    apply same_map_key in Hs; [|done|by apply F|done]. rewrite H in Hin.
    rewrite <- Hs. pose proof (entries_key ps' p F' Hin) as Hk.
    by apply (in_map fst) in Hk. }
  assert (Hs : forall ps, finite_keys ps ->
    StronglySorted (fun x y => (ord x < ord y)%Z) (List.map fst (sortedEntries ps)))
    by (intros ps F; by apply sorted_map, entries_increasing).
  assert (Hn : forall ps, finite_keys ps -> List.NoDup (List.map fst (sortedEntries ps))).
  { intros ps F. eapply sorted_nodup; [|by apply Hs]. intros x Hx. cbn in Hx. lia. }
  eapply StronglySorted_unique_strong; [|by apply Hs..|].
  - intros x y _ _ H1 H2. cbn in H1, H2. lia.
  - apply Permutation.NoDup_Permutation; [by apply Hn..|]. intros k. split; by apply Hk.
Qed.
End Groups.
