(* ===== verification/JsInteger.v ===== *)
(** * Quotients of integers

    [Math.floor(a / b)] on integers: the quotient is rounded to binary64 before the
    floor is taken, and for operands below 2^53 the rounding never reaches the next
    integer, so the result is the integer division. *)

From Stdlib Require Import ZArith Lia Bool.
From Stdlib Require Import Floats.
From stdpp Require Import base list option numbers.
From S2P Require Import Prelude JsNumber JsString.

Local Open Scope Z_scope.

(** ** The last rounding step on a full significand *)

Lemma shr_fexp_full (r e : Z) :
  2 ^ 52 <= r <= 2 ^ 53 -> -1074 <= e ->
  exists p e', shr_fexp prec emax r e loc_Exact = (Build_shr_record (Zpos p) false false, e')
    /\ e <= e' <= e + 1 /\ Zpos p * 2 ^ (e' + 1074) = r * 2 ^ (e + 1074).
Proof.
  intros Hr He. destruct r as [|q|q]; [lia| |lia].
  unfold shr_fexp. cbn [Zdigits2 shr_record_of_loc].
  destruct (Z.eq_dec (Zpos q) (2 ^ 53)) as [E|E].
  - rewrite (digits2_pos_unique q 54) by lia. rewrite fexp_64.
    replace (Z.max (54 + e - 53) (-1074) - e) with 1 by lia.
    exists (Z.to_pos (2 ^ 52)), (e + 1). rewrite E. split; [reflexivity|]. split; [lia|].
    rewrite Z2Pos.id by lia. replace (e + 1 + 1074) with (1 + (e + 1074)) by lia.
    rewrite (Z.pow_add_r 2 1) by lia. change (2 ^ 53) with (2 ^ 52 * 2). lia.
  - rewrite (digits2_pos_unique q 53) by lia. rewrite fexp_64.
    replace (Z.max (53 + e - 53) (-1074) - e) with 0 by lia.
    exists q, e. split; [reflexivity|]. lia.
Qed.

(** The location asks to round up. *)
Definition upper_half (l : location) : Prop := l = loc_Inexact Eq \/ l = loc_Inexact Gt.

Lemma round_nearest_cases (q : Z) (l : location) :
  round_nearest_even q l = q \/ (round_nearest_even q l = q + 1 /\ upper_half l).
Proof.
  unfold upper_half. destruct l as [|[]]; cbn; auto. destruct (Z.even q); auto.
Qed.

Lemma loc_of_record (m : Z) (l : location) : loc_of_shr_record (shr_record_of_loc m l) = l.
Proof. by destruct l as [|[]]. Qed.

Lemma shr_1_odd (m : Z) (l : location) :
  0 < m -> upper_half (loc_of_shr_record (shr_1 (shr_record_of_loc m l))) -> m = 2 * (m / 2) + 1.
Proof.
  unfold upper_half. intros Hm Hu.
  destruct m as [|p|p]; [lia| |lia].
  destruct p as [p|p|]; [| |reflexivity].
  - rewrite Pos2Z.inj_xI, (Z.mul_comm 2 (Zpos p)), Z.div_add_l by lia.
    change (1 / 2) with 0. lia.
  - exfalso. destruct l as [|[]]; cbn in Hu; by destruct Hu.
Qed.

(** A result that is a number of the given scaled value. *)
Definition has_ord (v : Z) (x : spec_float) : Prop := x <> S754_nan /\ sf_ord x = v.

(** A significand of 53 or 54 digits: it is cut to 53 and rounded. *)
Lemma round_aux_cut (m e : Z) (l : location) :
  2 ^ 52 <= m < 2 ^ 54 -> -1074 <= e <= 0 ->
  exists n R, 0 <= n <= 1 /\ 2 ^ 52 <= m / 2 ^ n < 2 ^ 53 /\
    (R = m / 2 ^ n \/
     R = m / 2 ^ n + 1 /\ (n = 0 /\ upper_half l \/ n = 1 /\ m = 2 * (m / 2) + 1)) /\
    has_ord (R * 2 ^ (e + n + 1074)) (binary_round_aux prec emax false m e l).
Proof.
  intros Hm He.
  assert (Hlast : forall q lo e0, 2 ^ 52 <= q < 2 ^ 53 -> -1074 <= e0 <= 1 ->
    let '(r, e2) := shr_fexp prec emax (round_nearest_even q lo) e0 loc_Exact in
    has_ord (round_nearest_even q lo * 2 ^ (e0 + 1074))
      match shr_m r with
      | Z0 => S754_zero false
      | Zpos p => if e2 <=? emax - prec then S754_finite false p e2 else S754_infinity false
      | _ => S754_nan end).
  { intros q lo e0 Hq He0. pose proof (round_nearest_cases q lo).
    destruct (shr_fexp_full (round_nearest_even q lo) e0) as (p & e' & -> & He' & Hv); [lia..|].
    cbn [shr_m]. replace (e' <=? emax - prec) with true by (unfold emax, prec; lia).
    split; [done|]. rewrite sf_ord_finite. exact Hv. }
  destruct m as [|q|q]; [lia| |lia].
  destruct (Z.lt_ge_cases (Zpos q) (2 ^ 53)) as [Hs|Hb].
  - exists 0, (round_nearest_even (Zpos q) l). rewrite Z.pow_0_r, Z.div_1_r.
    split; [lia|]. split; [lia|].
    split; [destruct (round_nearest_cases (Zpos q) l) as [|[]]; auto|].
    pose proof (Hlast (Zpos q) l e ltac:(lia) ltac:(lia)) as HL.
    unfold binary_round_aux. unfold shr_fexp at 1. cbn [Zdigits2].
    rewrite (digits2_pos_unique q 53) by lia. rewrite fexp_64.
    replace (Z.max (53 + e - 53) (-1074) - e) with 0 by lia.
    cbn [shr]. rewrite shr_record_of_loc_m, loc_of_record, Z.add_0_r.
    destruct (shr_fexp _ _ _ _ _) as [r e2]. exact HL.
  - set (r1 := shr_1 (shr_record_of_loc (Zpos q) l)).
    destruct (shr_1_half (shr_record_of_loc (Zpos q) l)) as [Er _];
      [rewrite shr_record_of_loc_m; lia|]. rewrite shr_record_of_loc_m in Er. fold r1 in Er.
    assert (Hh : 2 ^ 52 <= Zpos q / 2 < 2 ^ 53).
    { split; [apply Z.div_le_lower_bound; lia | apply Z.div_lt_upper_bound; lia]. }
    exists 1, (round_nearest_even (Zpos q / 2) (loc_of_shr_record r1)). change (2 ^ 1) with 2.
    split; [lia|]. split; [done|]. split.
    { destruct (round_nearest_cases (Zpos q / 2) (loc_of_shr_record r1)) as [|[E Hu]]; [by left|].
      right. split; [done|]. right. split; [done|]. by apply (shr_1_odd _ l). }
    pose proof (Hlast (Zpos q / 2) (loc_of_shr_record r1) (e + 1) Hh ltac:(lia)) as HL.
    unfold binary_round_aux. unfold shr_fexp at 1. cbn [Zdigits2].
    rewrite (digits2_pos_unique q 54) by lia. rewrite fexp_64.
    replace (Z.max (54 + e - 53) (-1074) - e) with 1 by lia.
    cbn [shr SpecFloat.iter_pos]. fold r1. rewrite Er.
    destruct (shr_fexp _ _ _ _ _) as [r e2]. exact HL.
Qed.

(** ** The rounded quotient *)

Lemma upper_half_location (d r : Z) :
  0 < d -> upper_half (new_location d r) -> d <= 2 * r.
Proof.
  unfold upper_half, new_location, new_location_even, new_location_odd. intros Hd Hu.
  destruct (Z.even d), (Z.eqb_spec r 0); try (destruct Hu; discriminate).
  - destruct (Z.compare_spec (2 * r) d); [lia| |lia]. by destruct Hu.
  - destruct (Z.compare_spec (2 * r + 1) d); [by destruct Hu..|lia].
Qed.

(** The quotient of two full significands, before and after rounding. *)
Lemma div_rounded (m1 m2 : positive) (e1 e2 : Z) :
  2 ^ 52 <= Zpos m1 < 2 ^ 53 -> 2 ^ 52 <= Zpos m2 < 2 ^ 53 ->
  -52 <= e1 <= 0 -> -52 <= e2 <= 0 ->
  exists n R, 0 <= n <= 1 /\
    let Q := Zpos m1 * 2 ^ 53 / (Zpos m2 * 2 ^ n) in
    2 ^ 52 <= Q /\
    (R = Q \/ R = Q + 1 /\ (2 * Q + 1) * (Zpos m2 * 2 ^ n) <= 2 * (Zpos m1 * 2 ^ 53)) /\
    has_ord (R * 2 ^ (e1 - e2 - 53 + n + 1074))
      (SF64div (S754_finite false m1 e1) (S754_finite false m2 e2)).
Proof.
  intros H1 H2 He1 He2. unfold SF64div. cbn [SFdiv xorb]. unfold SFdiv_core_binary.
  cbn [Zdigits2]. rewrite (digits2_pos_unique m1 53), (digits2_pos_unique m2 53) by lia.
  rewrite fexp_64. replace (Z.min _ (e1 - e2)) with (e1 - e2 - 53) by lia.
  replace (e1 - e2 - (e1 - e2 - 53)) with 53 by lia. cbv zeta.
  rewrite Z.shiftl_mul_pow2 by lia. set (T := Zpos m1 * 2 ^ 53).
  pose proof (Z.div_eucl_eq T (Zpos m2) ltac:(lia)) as HT.
  pose proof (Z.mod_pos_bound T (Zpos m2) ltac:(lia)) as Hr. unfold Z.modulo in Hr.
  pose proof (eq_refl (T / Zpos m2)) as HQ. unfold Z.div at 1 in HQ.
  destruct (Z.div_eucl T (Zpos m2)) as [m r]. subst m.
  destruct (round_aux_cut (T / Zpos m2) (e1 - e2 - 53) (new_location (Zpos m2) r))
    as (n & R & Hn & Hm & HR & HO); [|lia|].
  { change (2 ^ 54) with (2 * 2 ^ 53). unfold T in *.
    split; [apply Z.div_le_lower_bound|apply Z.div_lt_upper_bound]; nia. }
  exists n, R. split; [done|]. rewrite Z.div_div in Hm, HR by (try apply Z.pow_pos_nonneg; lia).
  split; [lia|]. split; [|exact HO].
  destruct HR as [|[E HR]]; [by left|right]. split; [done|].
  destruct HR as [[-> Hu]|[-> Hodd]].
  - rewrite Z.pow_0_r, Z.mul_1_r. apply upper_half_location in Hu; lia.
  - change (2 ^ 1) with 2. rewrite <- Z.div_div by lia. nia.
Qed.

(** The arithmetic of the argument: [k] is the number of binary places that the
    rounded quotient has. *)
Lemma quotient_bounds (T D a b k Q R : Z) :
  0 < D -> 0 < b -> 0 <= k -> 0 <= a < 2 ^ 53 -> T * b = a * 2 ^ k * D -> Q = T / D ->
  2 ^ 52 <= Q -> (R = Q \/ R = Q + 1 /\ (2 * Q + 1) * D <= 2 * T) ->
  a / b * 2 ^ k <= R < (a / b + 1) * 2 ^ k.
Proof.
  intros HD Hb Hk Ha HT HQ HQ52 HR. set (q := a / b).
  pose proof (Z.pow_pos_nonneg 2 k ltac:(lia) Hk) as Hp. set (p := 2 ^ k) in *.
  assert (Hq : q * b <= a <= (q + 1) * b - 1).
  { unfold q. pose proof (Z.div_mod a b ltac:(lia)). pose proof (Z.mod_pos_bound a b Hb). lia. }
  assert (Hlow : q * p <= Q).
  { rewrite HQ. apply Z.div_le_lower_bound; [lia|]. apply Z.mul_le_mono_pos_r with b; [lia|].
    rewrite HT. replace (D * (q * p) * b) with (q * b * (p * D)) by ring.
    replace (a * p * D) with (a * (p * D)) by ring. apply Z.mul_le_mono_nonneg_r; nia. }
  assert (HQD : Q * D <= T).
  { rewrite HQ. pose proof (Z.mul_div_le T D HD). lia. }
  assert (HQb : Q * b <= a * p).
  { apply Z.mul_le_mono_pos_r with D; [lia|]. rewrite <- HT. nia. }
  assert (Hup : Q < (q + 1) * p).
  { apply Z.mul_lt_mono_pos_r with b; [lia|]. nia. }
  split; [lia|]. destruct HR as [->|[-> H2]]; [done|].
  destruct (Z.eq_dec (Q + 1) ((q + 1) * p)) as [E|]; [exfalso|lia].
  assert (Hr : (2 * Q + 1) * b <= 2 * (a * p)).
  { apply Z.mul_le_mono_pos_r with D; [lia|]. replace (2 * (a * p) * D) with (2 * (T * b)) by lia. nia. }
  assert (Hpb : 2 * p <= b).
  { assert ((2 * ((q + 1) * p) - 1) * b <= 2 * (((q + 1) * b - 1) * p)); [|nia].
    rewrite <- E. nia. }
  assert (2 ^ 52 * b <= a * p) by nia.
  assert (2 ^ 52 * 2 * p <= a * p) by nia.
  assert (2 ^ 53 <= a); [|lia]. change (2 ^ 53) with (2 ^ 52 * 2).
  apply Z.mul_le_mono_pos_r with p; lia.
Qed.

(** A positive integer below 2^53 as a significand and an exponent. *)
Lemma positive_integer (x : jsnum) (a : Z) :
  to_integer x = Some a -> 0 < a < 2 ^ 53 ->
  exists m e, Prim2SF x = S754_finite false m e /\ 2 ^ 52 <= Zpos m < 2 ^ 53 /\
    -52 <= e <= 0 /\ Zpos m = a * 2 ^ (- e).
Proof.
  intros [Fx Ox]%to_integer_spec Ha. pose proof one_ord_pos. unfold ord in Ox.
  destruct (finite_cases x Fx) as [[s E]|(s & m & e & E & B)]; rewrite E in *; [cbn [sf_ord] in Ox; nia|].
  rewrite sf_ord_finite in Ox. pose proof (bounded_spec _ _ B) as (Hm & He & _).
  pose proof (Z.pow_pos_nonneg 2 (e + 1074) ltac:(lia) ltac:(lia)).
  destruct s; cbn [cond_Zopp] in Ox; [nia|].
  destruct (integer_exponent m e a B) as [H52 Hlow]; [lia|rewrite Z.abs_eq by lia; done|].
  assert (e <= 0).
  { destruct (Z.le_gt_cases e 0) as [|Hgt]; [done|exfalso].
    rewrite Z.pow_add_r in Ox by lia. change (2 ^ 1074) with one_ord in Ox.
    rewrite Z.mul_assoc in Ox. apply Z.mul_reg_r in Ox; [|lia].
    assert (2 ^ 1 <= 2 ^ e) by (apply Z.pow_le_mono_r; lia). nia. }
  exists m, e. split; [done|]. split; [lia|]. split; [lia|].
  apply Z.mul_reg_r with (2 ^ (e + 1074)); [lia|]. rewrite Ox, <- Z.mul_assoc, <- Z.pow_add_r by lia.
  f_equal. change one_ord with (2 ^ 1074). f_equal. lia.
Qed.

Lemma div_between (x y : jsnum) (a b : Z) :
  to_integer x = Some a -> to_integer y = Some b -> 0 < a < 2 ^ 53 -> 0 < b < 2 ^ 53 ->
  isNaN (x / y)%float = false /\
  a / b * one_ord <= ord (x / y)%float < (a / b + 1) * one_ord.
Proof.
  intros Hx Hy Ha Hb.
  destruct (positive_integer x a Hx Ha) as (m1 & e1 & E1 & M1 & P1 & V1).
  destruct (positive_integer y b Hy Hb) as (m2 & e2 & E2 & M2 & P2 & V2).
  destruct (div_rounded m1 m2 e1 e2 M1 M2 P1 P2) as (n & R & Hn & HQ52 & HR & [Hnn Ho]).
  rewrite <- E1, <- E2, <- FloatAxioms.div_spec in Hnn, Ho. rewrite isNaN_false. split; [done|].
  unfold ord at 1 2. rewrite Ho. set (T := Zpos m1 * 2 ^ 53) in *. set (D := Zpos m2 * 2 ^ n) in *.
  assert (HD : 0 < D) by (pose proof (Z.pow_pos_nonneg 2 n); unfold D; nia).
  set (E := e1 - e2 - 53 + n).
  (* [T / D] is [a / b] scaled by [2 ^ - E] *)
  assert (Hscale : T * b * 2 ^ (- e2) = a * 2 ^ (53 - e1) * Zpos m2).
  { unfold T. rewrite V1, V2. replace (53 - e1) with (- e1 + 53) by lia.
    rewrite Z.pow_add_r by lia. ring. }
  assert (HE : E <= 0).
  { destruct (Z.le_gt_cases E 0) as [|Hgt]; [done|exfalso].
    assert (HTD : 2 ^ 52 * D <= T) by (pose proof (Z.mul_div_le T D HD); nia).
    assert (HTb : T * b * 2 ^ E = a * D).
    { apply Z.mul_reg_r with (2 ^ (- e2)); [apply Z.pow_nonzero; lia|].
      transitivity (T * b * 2 ^ (- e2) * 2 ^ E); [ring|]. rewrite Hscale. unfold D.
      transitivity (a * Zpos m2 * (2 ^ (53 - e1) * 2 ^ E)); [ring|].
      transitivity (a * Zpos m2 * (2 ^ n * 2 ^ (- e2))); [|ring].
      rewrite <- !Z.pow_add_r by lia. do 2 f_equal. unfold E. lia. }
    assert (2 ^ 1 <= 2 ^ E) by (apply Z.pow_le_mono_r; lia).
    assert (2 ^ 52 * (b * 2 ^ E) <= a).
    { apply Z.mul_le_mono_pos_r with D; [lia|]. rewrite <- HTb.
      replace (2 ^ 52 * (b * 2 ^ E) * D) with (2 ^ 52 * D * (b * 2 ^ E)) by ring.
      replace (T * b * 2 ^ E) with (T * (b * 2 ^ E)) by ring. apply Z.mul_le_mono_nonneg_r; nia. }
    nia. }
  assert (HTb : T * b = a * 2 ^ (- E) * D).
  { apply Z.mul_reg_r with (2 ^ (- e2)); [apply Z.pow_nonzero; lia|]. rewrite Hscale. unfold D.
    transitivity (a * Zpos m2 * (2 ^ (- E) * 2 ^ n * 2 ^ (- e2))); [|ring].
    rewrite <- !Z.pow_add_r by lia. transitivity (a * Zpos m2 * 2 ^ (53 - e1)); [ring|].
    do 2 f_equal. unfold E. lia. }
  pose proof (quotient_bounds T D a b (- E) (T / D) R HD ltac:(lia) ltac:(lia) ltac:(lia) HTb
    eq_refl HQ52 HR) as HB.
  assert (Hone : one_ord = 2 ^ (- E) * 2 ^ (E + 1074)).
  { rewrite <- Z.pow_add_r by (unfold E; lia). change one_ord with (2 ^ 1074). f_equal. lia. }
  pose proof (Z.pow_pos_nonneg 2 (E + 1074) ltac:(lia) ltac:(unfold E; lia)).
  rewrite Hone, !Z.mul_assoc. split; [apply Z.mul_le_mono_nonneg_r; lia|].
  apply Z.mul_lt_mono_pos_r; lia.
Qed.

(** [Math.floor] of a finite number is the integer below it. *)
Lemma floor_spec (x : jsnum) :
  isFinite x = true ->
  exists q, to_integer (Math_floor x) = Some q /\ q * one_ord <= ord x < (q + 1) * one_ord.
Proof.
  intros Hf. pose proof one_ord_pos. unfold Math_floor.
  assert (Hopp : forall y q, to_integer y = Some (- q) -> to_integer (- y)%float = Some q)
    by (intros y q Hy; apply opp_integer in Hy; by rewrite Z.opp_involutive in Hy).
  unfold Math_ceil, ord in *. rewrite FloatAxioms.opp_spec. unfold SFopp.
  destruct (finite_cases x Hf) as [[s E]|(s & m & e & E & B)]; rewrite E in *; cbn [SFopp].
  - exists 0. split; [|cbn [sf_ord]; lia]. apply Hopp, to_integer_spec.
    rewrite isFinite_ord, isNaN_opp, ord_opp. unfold ord. rewrite E. cbn [sf_ord].
    pose proof inf_ord_pos. split_and!; [by apply isFinite_not_nan|lia..].
  - rewrite sf_ord_finite. pose proof (bounded_spec _ _ B) as (Hm & He & _).
    pose proof (Z.pow_pos_nonneg 2 (e + 1074) ltac:(lia) ltac:(lia)) as Hp.
    set (z := cond_Zopp s (Zpos m)).
    destruct (Z.leb_spec 0 e) as [H0|H0].
    + exists (z * 2 ^ e). rewrite Z.pow_add_r by lia. change (2 ^ 1074) with one_ord.
      split; [|rewrite Z.mul_assoc; nia]. apply Hopp, opp_integer, to_integer_spec.
      split; [done|]. unfold ord. rewrite E, sf_ord_finite. fold z.
      rewrite Z.pow_add_r, Z.mul_assoc by lia. done.
    + unfold sf_ratio. replace (0 <=? e) with false by lia. cbn [fst snd].
      replace (if negb s then Zpos m else - Zpos m) with z by (unfold z; by destruct s).
      assert (Hone : one_ord = 2 ^ (- e) * 2 ^ (e + 1074)).
      { rewrite <- Z.pow_add_r by lia. change one_ord with (2 ^ 1074). f_equal. lia. }
      assert (Hd : 1 <= 2 ^ (- e)) by (change 1 with (2 ^ 0); apply Z.pow_le_mono_r; lia).
      set (den := 2 ^ (- e)) in *.
      exists (z / den). rewrite Hone, !Z.mul_assoc.
      pose proof (Z.div_mod z den ltac:(lia)). pose proof (Z.mod_pos_bound z den ltac:(lia)).
      split; [|split; [apply Z.mul_le_mono_nonneg_r|apply Z.mul_lt_mono_pos_r]; lia].
      apply Hopp. destruct (Z.eqb_spec (- (z / den)) 0) as [Ez|]; [rewrite Ez; by vm_compute|].
      apply of_Z_integer. assert (Z.abs z = Zpos m) by (unfold z; destruct s; cbn [cond_Zopp]; lia).
      assert (Z.abs z <= den * Z.abs z) by nia.
      assert (Z.abs (z / den) <= Z.abs z); [|lia].
      pose proof (Z.div_le_lower_bound z den (- Z.abs z) ltac:(lia) ltac:(lia)).
      pose proof (Z.div_le_upper_bound z den (Z.abs z) ltac:(lia) ltac:(lia)). lia.
Qed.

(** [Math.floor] of a number between two consecutive integers. *)
Lemma floor_between (x : jsnum) (q : Z) :
  isFinite x = true -> q * one_ord <= ord x < (q + 1) * one_ord ->
  to_integer (Math_floor x) = Some q.
Proof.
  intros Hf Ho. destruct (floor_spec x Hf) as (r & -> & Hr). f_equal.
  pose proof one_ord_pos. nia.
Qed.

Lemma finite_between (x : jsnum) (q : Z) :
  isNaN x = false -> 0 <= q < 2 ^ 53 -> q * one_ord <= ord x < (q + 1) * one_ord ->
  isFinite x = true.
Proof.
  intros Hn Hq Ho. pose proof one_ord_pos. pose proof (one_ord_lt_inf (q + 1) ltac:(lia)).
  apply isFinite_ord. split; [done|]. split; [|lia]. pose proof inf_ord_pos. nia.
Qed.

(** [Math.floor(a / b)] is the integer quotient. *)
Lemma floor_div_integer (x y : jsnum) (a b : Z) :
  to_integer x = Some a -> to_integer y = Some b -> 0 <= a < 2 ^ 53 -> 0 < b < 2 ^ 53 ->
  to_integer (Math_floor (x / y)%float) = Some (a / b).
Proof.
  intros Hx Hy Ha Hb. assert (Hdiv : isNaN (x / y)%float = false /\
    a / b * one_ord <= ord (x / y)%float < (a / b + 1) * one_ord).
  { destruct (Z.eq_dec a 0) as [->|Hnz]; [|apply div_between; (done || lia)].
    rewrite Z.div_0_l by lia. apply to_integer_spec in Hx as [Fx Ox], Hy as [Fy Oy].
    pose proof one_ord_pos. split; [apply div_not_nan; [done..|nia]|].
    pose proof (div_nonneg x y Fx Fy ltac:(lia) ltac:(nia)).
    pose proof (div_nonpos x y Fx Fy ltac:(lia) ltac:(nia)). lia. }
  destruct Hdiv as [Hn Ho]. apply floor_between; [|done].
  apply (finite_between _ (a / b)); [done| |done].
  pose proof (Z.div_le_upper_bound a b a ltac:(lia) ltac:(nia)).
  pose proof (Z.div_pos a b ltac:(lia) ltac:(lia)). lia.
Qed.

(** A floor of an integer is the integer. *)
Lemma Math_floor_integer (x : jsnum) (a : Z) :
  to_integer x = Some a -> to_integer (Math_floor x) = Some a.
Proof.
  intros [Hf Ho]%to_integer_spec. pose proof one_ord_pos. apply floor_between; [done|lia].
Qed.

(** The larger of two integers is one. *)
Lemma Math_max_integer (x y : jsnum) (a b : Z) :
  to_integer x = Some a -> to_integer y = Some b -> to_integer (Math_max x y) = Some (Z.max a b).
Proof.
  intros Hx Hy. pose proof (ltb_integer x y a b Hx Hy) as H1.
  pose proof (ltb_integer y x b a Hy Hx) as H2. unfold Math_max.
  apply to_integer_spec in Hx as Hx', Hy as Hy'.
  assert (Nx : isNaN x = false) by (apply isFinite_ord; tauto).
  assert (Ny : isNaN y = false) by (apply isFinite_ord; tauto).
  rewrite Nx, Ny, H1, H2. cbn [orb].
  destruct (Z.ltb_spec a b); [rewrite Hy; f_equal; lia|].
  destruct (Z.ltb_spec b a); [rewrite Hx; f_equal; lia|].
  destruct (PrimFloat.get_sign x); [rewrite Hy|rewrite Hx]; f_equal; lia.
Qed.
