(* ===== verification/FrameTrack.v ===== *)
(** * The frame-track contract ([packages/engine-client/src/frame-track.ts])

    The engine ships [point.frame_track] with exactly one shape; the strict
    parser refuses any missing, extra or wrongly typed key.  The parser is
    proved to accept exactly the JSON forms of the well-formed [FrameTrack]
    records. *)

From Stdlib Require Import ZArith Lia Bool Ascii String.
From Stdlib Require Import Floats.
From stdpp Require Import base list strings option numbers.
From S2P Require Import Prelude JsNumber JsString JsValue.

Local Open Scope string_scope.
Local Open Scope list_scope.

(** ** Data *)

Record FrameTrackStats := { mean : jsnum; std : jsnum; min : jsnum; max : jsnum }.

Record FrameTrackFrame := { i : jsnum; t : jsnum; cl : jsnum; cd : jsnum; cm : jsnum }.

Record FrameTrackWindow := { t_start : jsnum; t_end : jsnum }.

Record CoefficientStats :=
  { stats_cl : FrameTrackStats; stats_cd : FrameTrackStats; stats_cm : FrameTrackStats }.

Record FrameTrack := {
  period_s : option jsnum;
  periods_retained : jsnum;
  stationary : bool;
  drift_frac : jsnum;
  window : FrameTrackWindow;
  stats : CoefficientStats;
  fields : list string;
  frames : list FrameTrackFrame;
  image_pattern : string;
}.

Definition FRAME_TRACK_MAX_FRAMES : nat := 120.

Definition TOP_KEYS : list string :=
  ["period_s"; "periods_retained"; "stationary"; "drift_frac"; "window"; "stats";
   "fields"; "frames"; "image_pattern"].
Definition WINDOW_KEYS : list string := ["t_start"; "t_end"].
Definition STATS_KEYS : list string := ["cl"; "cd"; "cm"].
Definition STAT_KEYS : list string := ["mean"; "std"; "min"; "max"].
Definition FRAME_KEYS : list string := ["i"; "t"; "cl"; "cd"; "cm"].

(** ** The parser *)

Definition checkExactKeys := exactKeys " (contract drift)".

(** [for (key of ks) if (key in o && !finiteNumber(o[key])) errors.push(...)] *)
Definition finiteKeys (o : record) (ks : list string) (at_ : string) : list string :=
  List.flat_map (fun key =>
    fail_if (has key o && negb (finite (get key o)))
            (at_ +:+ "." +:+ key +:+ ": expected finite number")) ks.

Definition windowErrors (v : jsval) : list string :=
  on_record v (fun w =>
    checkExactKeys w WINDOW_KEYS "frame_track.window" ++
    finiteKeys w WINDOW_KEYS "frame_track.window")
  ["frame_track.window: expected object"].

Definition statErrors (o : record) (coeff : string) : list string :=
  if negb (has coeff o) then []
  else on_record (get coeff o) (fun stat =>
    checkExactKeys stat STAT_KEYS ("frame_track.stats." +:+ coeff) ++
    finiteKeys stat STAT_KEYS ("frame_track.stats." +:+ coeff))
  ["frame_track.stats." +:+ coeff +:+ ": expected object"].

Definition statsErrors (v : jsval) : list string :=
  on_record v (fun s =>
    checkExactKeys s STATS_KEYS "frame_track.stats" ++
    List.flat_map (statErrors s) STATS_KEYS)
  ["frame_track.stats: expected object"].

(** [typeof f !== "string" || !f] *)
Definition emptyOrNotString (v : jsval) : bool :=
  match v with JStr s => negb (nonempty s) | _ => true end.

Definition fieldsErrors (v : jsval) : list string :=
  on_array v (fun l =>
    fail_if (List.existsb emptyOrNotString l)
            "frame_track.fields: expected array of non-empty strings")
  ["frame_track.fields: expected array of non-empty strings"].

Definition frameErrors (frame : jsval) (index : nat) : list string :=
  let at_ := "frame_track.frames[" +:+ string_of_nat index +:+ "]" in
  on_record frame (fun f =>
    checkExactKeys f FRAME_KEYS at_ ++
    finiteKeys f FRAME_KEYS at_ ++
    fail_if (finite (get "i" f) && negb (is_integer (get "i" f)))
            (at_ +:+ ".i: expected integer"))
  [at_ +:+ ": expected object"].

Definition framesErrors (v : jsval) : list string :=
  on_array v (fun l =>
    fail_if (Nat.ltb FRAME_TRACK_MAX_FRAMES (List.length l))
      ("frame_track.frames: " +:+ string_of_nat (List.length l) +:+
       " frames exceeds contract cap of " +:+ string_of_nat FRAME_TRACK_MAX_FRAMES) ++
    forEach l frameErrors)
  ["frame_track.frames: expected array"].

Definition frameTrackErrors (value : record) : list string :=
  checkExactKeys value TOP_KEYS "frame_track" ++
  fail_if (has "period_s" value && negb (is_null (get "period_s" value))
           && negb (finite (get "period_s" value)))
    "frame_track.period_s: expected finite number or null" ++
  fail_if (has "periods_retained" value && negb (finite (get "periods_retained" value)))
    "frame_track.periods_retained: expected finite number" ++
  fail_if (has "stationary" value && negb (typeof_boolean (get "stationary" value)))
    "frame_track.stationary: expected boolean" ++
  fail_if (has "drift_frac" value && negb (finite (get "drift_frac" value)))
    "frame_track.drift_frac: expected finite number" ++
  when (has "window" value) (windowErrors (get "window" value)) ++
  when (has "stats" value) (statsErrors (get "stats" value)) ++
  when (has "fields" value) (fieldsErrors (get "fields" value)) ++
  when (has "frames" value) (framesErrors (get "frames" value)) ++
  fail_if (has "image_pattern" value && emptyOrNotString (get "image_pattern" value))
    "frame_track.image_pattern: expected non-empty string".

Definition parseFrameTrack (value : jsval) : parse_result :=
  match value with
  | JObj o => verdict value (frameTrackErrors o)
  | _ => Rejected ["frame_track: expected object, got " +:+ type_label value]
  end.

Definition padded_index (frameIndex : Z) : string :=
  padStart (string_of_Z frameIndex) 4 "0".

Definition frameImageRelativePath (imagePattern field : string) (frameIndex : Z) : string :=
  replaceAll (replaceAll imagePattern "{field}" field) "{i04}" (padded_index frameIndex).

(** ** The contract *)

#[export] Instance repr_window : JsonRepr FrameTrackWindow := fun w v =>
  exists o, v = JObj o /\ exact_keys WINDOW_KEYS o /\
    represents (t_start w) (get "t_start" o) /\ represents (t_end w) (get "t_end" o).
#[export] Instance valid_window : Valid FrameTrackWindow := fun w =>
  valid (t_start w) /\ valid (t_end w).

#[export] Instance repr_stat : JsonRepr FrameTrackStats := fun s v =>
  exists o, v = JObj o /\ exact_keys STAT_KEYS o /\
    represents (mean s) (get "mean" o) /\ represents (std s) (get "std" o) /\
    represents (min s) (get "min" o) /\ represents (max s) (get "max" o).
#[export] Instance valid_stat : Valid FrameTrackStats := fun s =>
  valid (mean s) /\ valid (std s) /\ valid (min s) /\ valid (max s).

#[export] Instance repr_stats : JsonRepr CoefficientStats := fun s v =>
  exists o, v = JObj o /\ exact_keys STATS_KEYS o /\
    represents (stats_cl s) (get "cl" o) /\ represents (stats_cd s) (get "cd" o) /\
    represents (stats_cm s) (get "cm" o).
#[export] Instance valid_stats : Valid CoefficientStats := fun s =>
  valid (stats_cl s) /\ valid (stats_cd s) /\ valid (stats_cm s).

#[export] Instance repr_frame : JsonRepr FrameTrackFrame := fun f v =>
  exists o, v = JObj o /\ exact_keys FRAME_KEYS o /\
    represents (i f) (get "i" o) /\ represents (t f) (get "t" o) /\
    represents (cl f) (get "cl" o) /\ represents (cd f) (get "cd" o) /\
    represents (cm f) (get "cm" o).
#[export] Instance valid_frame : Valid FrameTrackFrame := fun f =>
  valid (i f) /\ valid (t f) /\ valid (cl f) /\ valid (cd f) /\ valid (cm f) /\
  isInteger (i f) = true.

(** A non-empty string. *)
#[local] Instance valid_nonempty : Valid string := fun s => nonempty s = true.

#[export] Instance repr_track : JsonRepr FrameTrack := fun ft v =>
  exists o, v = JObj o /\ exact_keys TOP_KEYS o /\
    represents (period_s ft) (get "period_s" o) /\
    represents (periods_retained ft) (get "periods_retained" o) /\
    represents (stationary ft) (get "stationary" o) /\
    represents (drift_frac ft) (get "drift_frac" o) /\
    represents (window ft) (get "window" o) /\
    represents (stats ft) (get "stats" o) /\
    represents (fields ft) (get "fields" o) /\
    represents (frames ft) (get "frames" o) /\
    represents (image_pattern ft) (get "image_pattern" o).

#[export] Instance valid_track : Valid FrameTrack := fun ft =>
  valid (period_s ft) /\ valid (periods_retained ft) /\ valid (stationary ft) /\
  valid (drift_frac ft) /\ valid (window ft) /\ valid (stats ft) /\ valid (fields ft) /\
  valid (frames ft) /\ (List.length (frames ft) <= FRAME_TRACK_MAX_FRAMES)%nat /\
  valid (image_pattern ft).

(** ** Each sub-validator accepts exactly its contract *)

#[export] Instance window_spec (v : jsval) :
  CheckSpec (windowErrors v) (conforms FrameTrackWindow v).
Proof.
  unfold CheckSpec, windowErrors, checkExactKeys, finiteKeys.
  rewrite check_spec. split.
  - intros (o & -> & Hk & H). rewrite conforms_keys in H by done.
    destruct_forall. destruct_conforms.
    eexists (Build_FrameTrackWindow _ _). build_record o.
  - intros ([x y] & (o & -> & Hk & ? & ?) & ? & ?). exists o. split; [done|]. split; [done|].
    rewrite conforms_keys by done. repeat constructor; eexists; eauto.
Qed.

#[export] Instance statErrors_spec (o : record) (coeff : string) :
  CheckSpec (statErrors o coeff) (has coeff o = true -> conforms FrameTrackStats (get coeff o)).
Proof.
  unfold CheckSpec, statErrors, checkExactKeys, finiteKeys.
  destruct (has coeff o); cbn [negb]; [|done]. rewrite check_spec. split.
  - intros (s & E & Hk & H) _. rewrite conforms_keys in H by done.
    destruct_forall. destruct_conforms.
    eexists (Build_FrameTrackStats _ _ _ _).
    build_record s.
  - intros H. destruct (H eq_refl) as ([] & (s & E & Hk & ? & ? & ? & ?) & ? & ? & ? & ?).
    exists s. split; [done|]. split; [done|].
    rewrite conforms_keys by done. repeat constructor; eexists; eauto.
Qed.

#[export] Instance stats_spec (v : jsval) :
  CheckSpec (statsErrors v) (conforms CoefficientStats v).
Proof.
  unfold CheckSpec, statsErrors, checkExactKeys. rewrite check_spec. split.
  - intros (o & -> & Hk & H). unfold STATS_KEYS in H. destruct_forall.
    discharge_has Hk.
    destruct_conforms. eexists (Build_CoefficientStats _ _ _).
    build_record o.
  - intros ([] & (o & -> & Hk & ? & ? & ?) & ? & ? & ?). exists o. split; [done|].
    split; [done|]. repeat constructor; intros _; eexists; eauto.
Qed.

#[export] Instance frame_spec (v : jsval) (index : nat) :
  CheckSpec (frameErrors v index) (conforms FrameTrackFrame v).
Proof.
  unfold CheckSpec, frameErrors, checkExactKeys, finiteKeys. cbv zeta.
  rewrite check_spec. split.
  - intros (o & -> & Hk & H & Hi). rewrite conforms_keys in H by done.
    destruct_forall. destruct_conforms.
    eexists (Build_FrameTrackFrame _ _ _ _ _).
    build_record o.
    match goal with E : represents ?x (get "i" o), F : valid ?x |- _ =>
      rewrite E in Hi; cbn in Hi; rewrite F in Hi; cbn in Hi end.
    by apply negb_false_iff.
  - intros ([] & (o & -> & Hk & ? & ? & ? & ? & ?) & ? & ? & ? & ? & ? & ?).
    exists o. split; [done|]. split; [done|]. cbn [i t cl cd cm] in *. split.
    + rewrite conforms_keys by done. repeat constructor; eexists; eauto.
    + match goal with E : represents ?x (get "i" o), F : isInteger ?x = true |- _ =>
        rewrite E; cbn; rewrite F end. by rewrite andb_false_r.
Qed.

Lemma conforms_nonempty (v : jsval) : emptyOrNotString v = false <-> conforms string v.
Proof.
  unfold conforms, represents, repr_string, valid, valid_nonempty.
  destruct v; cbn; rewrite ?negb_false_iff; naive_solver.
Qed.

#[export] Instance fields_spec (v : jsval) :
  CheckSpec (fieldsErrors v) (conforms (list string) v).
Proof.
  unfold CheckSpec, fieldsErrors. rewrite check_spec, conforms_list.
  assert (Hl : forall l, List.existsb emptyOrNotString l = false <-> Forall (conforms string) l).
  { induction l as [|x l IH]; cbn; [done|].
    rewrite orb_false_iff, Forall_cons_iff, IH. by rewrite conforms_nonempty. }
  naive_solver.
Qed.

#[export] Instance frames_spec (v : jsval) :
  CheckSpec (framesErrors v)
    (exists l : list FrameTrackFrame, represents l v /\ valid l /\
                (List.length l <= FRAME_TRACK_MAX_FRAMES)%nat).
Proof.
  unfold CheckSpec, framesErrors. rewrite check_spec. split.
  - intros (vs & -> & Hlen%Nat.ltb_ge & (l & Hl & Hv)%list_repr).
    exists l. split; [by exists vs|]. split; [done|]. by rewrite (Forall2_length Hl).
  - intros (l & (vs & -> & Hl) & Hv & Hlen). exists vs. split; [done|]. split.
    + apply Nat.ltb_ge. by rewrite <- (Forall2_length Hl).
    + apply list_repr. eauto.
Qed.

(** The whole parser accepts exactly the JSON forms of valid frame tracks. *)
Lemma frameTrackErrors_spec (o : record) :
  frameTrackErrors o = [] <-> conforms FrameTrack (JObj o).
Proof.
  unfold frameTrackErrors, checkExactKeys. rewrite check_spec. split.
  - intros (Hk & H). use_keys Hk.
    rewrite conforms_option_num, !conforms_num, conforms_bool, conforms_nonempty in H.
    destruct_and! H. discharge_true. destruct_conforms.
    eexists (Build_FrameTrack _ _ _ _ _ _ _ _ _). build_record o.
  - intros ([] & (o' & [= <-] & Hk & Hr) & Hv). split; [done|]. use_keys Hk.
    rewrite conforms_option_num, !conforms_num, conforms_bool, conforms_nonempty.
    hnf in Hv. cbn [period_s periods_retained stationary drift_frac window stats fields
      frames image_pattern] in *. destruct_and! Hr. destruct_and! Hv.
    split_conj; intros; eexists; eauto.
Qed.

(** The parser accepts a value exactly when it is the JSON form of a valid
    frame track: every key of the contract and no other, finite numbers, at most
    120 frames with integer indexes, non-empty field names and image pattern. *)
Theorem parseFrameTrack_contract (v : jsval) :
  accepted (parseFrameTrack v) = true <-> conforms FrameTrack v.
Proof.
  destruct v as [| |b|n|s|l|o]; try (split; [done|intros ([] & (o & ? & _) & _); done]).
  cbn [parseFrameTrack]. rewrite <- frameTrackErrors_spec. apply accepted_nil.
Qed.
