(* ===== verification/Fidelity.v ===== *)
(** * The fidelity ladder contract ([packages/engine-client/src/fidelity.ts])

    The fidelity literals of the engine and the strict parser of the
    [steady_history] payload: four parallel series of at most 2000 samples, an
    integer iteration window, and the two closing fields. *)

From Stdlib Require Import ZArith Lia Bool Ascii String.
From Stdlib Require Import Floats.
From stdpp Require Import base list strings option numbers.
From S2P Require Import Prelude JsNumber JsString JsValue.

Local Open Scope string_scope.
Local Open Scope list_scope.

(** ** The fidelity literals *)

Inductive PointFidelity := Rans | UransPrecalc | UransFull.

#[export] Instance PointFidelity_eq_dec : EqDecision PointFidelity.
Proof. solve_decision. Defined.

Definition fidelity_literal (f : PointFidelity) : string :=
  match f with
  | Rans => "rans" | UransPrecalc => "urans_precalc" | UransFull => "urans_full"
  end.

Definition POINT_FIDELITY_VALUES : list PointFidelity := [Rans; UransPrecalc; UransFull].

(** Engine-derived per-fidelity parameters. *)
Definition URANS_PRECALC_MIN_PERIODS : Z := 3.
Definition URANS_FULL_MIN_PERIODS : Z := 7.
Definition URANS_PRECALC_SOLVER_BUDGET_S : Z := 14400.
Definition URANS_FULL_SOLVER_BUDGET_S : Z := 43200.

(** [null] on any unknown or absent value. *)
Definition parsePointFidelity (value : jsval) : option PointFidelity :=
  List.find (fun f => is_str value (fidelity_literal f)) POINT_FIDELITY_VALUES.

(** ** Steady history *)

Definition STEADY_HISTORY_MAX_SAMPLES : nat := 2000.

Record SteadyHistoryWindow := { start_iter : jsnum; end_iter : jsnum }.

Record SteadyHistory := {
  iterations : list jsnum;
  cl : list jsnum;
  cd : list jsnum;
  cm : list jsnum;
  window : SteadyHistoryWindow;
  mean_stable : bool;
  note : string;
}.

Definition TOP_KEYS : list string :=
  ["iterations"; "cl"; "cd"; "cm"; "window"; "mean_stable"; "note"].
Definition WINDOW_KEYS : list string := ["start_iter"; "end_iter"].
Definition SERIES_KEYS : list string := ["iterations"; "cl"; "cd"; "cm"].

Definition checkExactKeys := exactKeys " (contract drift)".

(** The series of one key, when it is an array of finite numbers. *)
Definition finiteSeries (v : jsval) : option (list jsval) :=
  match v with
  | JArr series => if List.existsb (fun x => negb (finite x)) series then None else Some series
  | _ => None
  end.

(** The checks of one series that do not depend on the others. *)
Definition ownErrors (key : string) (series : list jsval) : list string :=
  fail_if (String.eqb key "iterations" && List.existsb (fun x => negb (is_integer x)) series)
    "steady_history.iterations: expected integers" ++
  fail_if (Nat.ltb STEADY_HISTORY_MAX_SAMPLES (List.length series))
    ("steady_history." +:+ key +:+ ": " +:+ string_of_nat (List.length series) +:+
     " samples exceeds contract cap of " +:+ string_of_nat STEADY_HISTORY_MAX_SAMPLES).

(** One pass of [for (const key of SERIES_KEYS)]: the messages and the new
    [seriesLength]. *)
Definition seriesStep (o : record) (key : string) (seriesLength : option nat) :
    list string * option nat :=
  if negb (has key o) then ([], seriesLength)
  else match finiteSeries (get key o) with
  | None => (["steady_history." +:+ key +:+ ": expected array of finite numbers"], seriesLength)
  | Some series =>
      let n := List.length series in
      let errs := ownErrors key series in
      match seriesLength with
      | None => (errs, Some n)
      | Some m =>
          (errs ++ fail_if (negb (Nat.eqb n m))
             ("steady_history." +:+ key +:+ ": length " +:+ string_of_nat n +:+
              " != iterations length " +:+ string_of_nat m), Some m)
      end
  end.

Fixpoint seriesLoop (o : record) (ks : list string) (seriesLength : option nat) : list string :=
  match ks with
  | [] => []
  | key :: ks' =>
      let '(errs, seriesLength') := seriesStep o key seriesLength in
      errs ++ seriesLoop o ks' seriesLength'
  end.

Definition windowErrors (v : jsval) : list string :=
  on_record v (fun w =>
    checkExactKeys w WINDOW_KEYS "steady_history.window" ++
    List.flat_map (fun key =>
      fail_if (has key w && negb (finite (get key w) && is_integer (get key w)))
        ("steady_history.window." +:+ key +:+ ": expected integer")) WINDOW_KEYS)
  ["steady_history.window: expected object"].

Definition steadyHistoryErrors (value : record) : list string :=
  checkExactKeys value TOP_KEYS "steady_history" ++
  seriesLoop value SERIES_KEYS None ++
  when (has "window" value) (windowErrors (get "window" value)) ++
  fail_if (has "mean_stable" value && negb (typeof_boolean (get "mean_stable" value)))
    "steady_history.mean_stable: expected boolean" ++
  fail_if (has "note" value && negb (typeof_string (get "note" value)))
    "steady_history.note: expected string".

Definition parseSteadyHistory (value : jsval) : parse_result :=
  match value with
  | JObj o => verdict value (steadyHistoryErrors o)
  | _ => Rejected ["steady_history: expected object, got " +:+ type_label value]
  end.

(** ** The contract *)

#[export] Instance repr_window : JsonRepr SteadyHistoryWindow := fun w v =>
  exists o, v = JObj o /\ exact_keys WINDOW_KEYS o /\
    represents (start_iter w) (get "start_iter" o) /\
    represents (end_iter w) (get "end_iter" o).
#[export] Instance valid_window : Valid SteadyHistoryWindow := fun w =>
  isInteger (start_iter w) = true /\ isInteger (end_iter w) = true.

#[export] Instance repr_history : JsonRepr SteadyHistory := fun h v =>
  exists o, v = JObj o /\ exact_keys TOP_KEYS o /\
    represents (iterations h) (get "iterations" o) /\ represents (cl h) (get "cl" o) /\
    represents (cd h) (get "cd" o) /\ represents (cm h) (get "cm" o) /\
    represents (window h) (get "window" o) /\
    represents (mean_stable h) (get "mean_stable" o) /\
    represents (note h) (get "note" o).

(** Finite samples, integer iterations, at most 2000 of them, and the four
    series in step. *)
#[export] Instance valid_history : Valid SteadyHistory := fun h =>
  (valid (iterations h) /\ valid (cl h) /\ valid (cd h) /\ valid (cm h)) /\
  Forall (fun x => isInteger x = true) (iterations h) /\
  (List.length (iterations h) <= STEADY_HISTORY_MAX_SAMPLES)%nat /\
  List.length (cl h) = List.length (iterations h) /\
  List.length (cd h) = List.length (iterations h) /\
  List.length (cm h) = List.length (iterations h) /\
  valid (window h).

Lemma existsb_finite (vs : list jsval) :
  List.existsb (fun x => negb (finite x)) vs = false <-> Forall (conforms jsnum) vs.
Proof.
  induction vs as [|v vs IH]; cbn; [done|].
  by rewrite orb_false_iff, Forall_cons_iff, IH, conforms_num.
Qed.

Lemma finiteSeries_spec (v : jsval) (vs : list jsval) :
  finiteSeries v = Some vs <->
  v = JArr vs /\ exists l : list jsnum, Forall2 represents l vs /\ Forall valid l.
Proof.
  unfold finiteSeries. destruct v as [| |b|n|s|l|o]; try naive_solver.
  rewrite <- (list_repr (A := jsnum) valid vs).
  destruct (List.existsb _ l) eqn:E.
  - split; [done|]. intros [[= ->] H]. apply existsb_finite in H. congruence.
  - apply existsb_finite in E. naive_solver.
Qed.

Lemma represents_num_list_inj (l l' : list jsnum) (vs : list jsval) :
  Forall2 represents l vs -> Forall2 represents l' vs -> l = l'.
Proof.
  intros H. revert l'. induction H as [|x v l vs Hx _ IH]; intros l' H'; inversion H'; [done|].
  subst. f_equal; [|by apply IH]. unfold represents, repr_num in *. congruence.
Qed.

Lemma existsb_integer (l : list jsnum) (vs : list jsval) :
  Forall2 represents l vs ->
  (List.existsb (fun x => negb (is_integer x)) vs = false <->
   Forall (fun x => isInteger x = true) l).
Proof.
  induction 1 as [|x v l vs Hx _ IH]; cbn; [done|].
  rewrite Forall_cons_iff, orb_false_iff, IH. unfold represents, repr_num in Hx.
  subst v. cbn. by rewrite negb_false_iff.
Qed.

(** ** The series loop *)

(** The series of [key] reads as [l], and passes the checks of its own pass. *)
Definition goodSeries (o : record) (key : string) (l : list jsnum) : Prop :=
  represents l (get key o) /\ valid l /\
  (key = "iterations" -> Forall (fun x => isInteger x = true) l) /\
  (List.length l <= STEADY_HISTORY_MAX_SAMPLES)%nat.

Lemma own_checks (o : record) (key : string) (vs : list jsval) :
  finiteSeries (get key o) = Some vs ->
  ownErrors key vs = [] <->
  exists l, goodSeries o key l /\ List.length l = List.length vs.
Proof.
  intros [E (l & Hl & Hv)]%finiteSeries_spec.
  unfold ownErrors. rewrite check_spec, Nat.ltb_ge, andb_false_iff, (existsb_integer l vs Hl).
  split.
  - intros [Hi Hn]. exists l. pose proof (Forall2_length Hl).
    split; [|done]. split; [by exists vs|]. split; [done|]. split; [|lia].
    intros ->. by destruct Hi.
  - intros (l' & ((vs' & E' & Hl') & _ & Hi & Hn) & Hlen).
    assert (vs' = vs) as -> by congruence.
    assert (l' = l) as -> by (by eapply represents_num_list_inj).
    split; [|lia]. destruct (String.eqb_spec key "iterations"); auto.
Qed.

Lemma seriesStep_none (o : record) (key : string) (m : option nat) :
  finiteSeries (get key o) = None -> forall l, goodSeries o key l -> False.
Proof.
  intros E l ((vs & Ev & Hl) & Hv & _).
  assert (H : finiteSeries (get key o) = Some vs) by (apply finiteSeries_spec; eauto).
  congruence.
Qed.

Lemma seriesLoop_some (o : record) (n : nat) (ks : list string) :
  Forall (fun k => has k o = true) ks ->
  seriesLoop o ks (Some n) = [] <->
  Forall (fun k => exists l, goodSeries o k l /\ List.length l = n) ks.
Proof.
  induction 1 as [|k ks Hk _ IH]; [split; constructor|].
  cbn [seriesLoop]. unfold seriesStep. rewrite Hk. cbn [negb].
  rewrite Forall_cons_iff, <- IH.
  destruct (finiteSeries (get k o)) as [vs|] eqn:E.
  - rewrite !app_nil, (own_checks o k vs E). destruct (Nat.eqb_spec (List.length vs) n) as [<-|Hn];
      cbn [negb fail_if]; [naive_solver|].
    split; [naive_solver|]. intros [(l & Hg & Hl) _]. destruct Hn.
    destruct Hg as ((vs' & Ev & Hf) & _). apply finiteSeries_spec in E as [E _].
    rewrite <- Hl, (Forall2_length Hf). congruence.
  - split; [done|]. intros [(l & Hg & _) _]. by destruct (seriesStep_none o k None E l).
Qed.

Lemma seriesLoop_none (o : record) (k : string) (ks : list string) :
  Forall (fun k => has k o = true) (k :: ks) ->
  seriesLoop o (k :: ks) None = [] <->
  exists l, goodSeries o k l /\
    Forall (fun k' => exists l', goodSeries o k' l' /\ List.length l' = List.length l) ks.
Proof.
  intros [Hk Hks]%Forall_cons_iff. cbn [seriesLoop]. unfold seriesStep. rewrite Hk. cbn [negb].
  destruct (finiteSeries (get k o)) as [vs|] eqn:E.
  - rewrite app_nil, (own_checks o k vs E), seriesLoop_some by done. split.
    + intros [(l & Hg & Hl) H]. exists l. by rewrite Hl.
    + intros (l & Hg & H). assert (Hl : List.length l = List.length vs).
      { destruct Hg as ((vs' & Ev & Hf) & _). apply finiteSeries_spec in E as [E _].
        rewrite (Forall2_length Hf). congruence. }
      rewrite <- Hl. eauto.
  - split; [done|]. intros (l & Hg & _). by destruct (seriesStep_none o k None E l).
Qed.

#[export] Instance window_spec (v : jsval) :
  CheckSpec (windowErrors v) (conforms SteadyHistoryWindow v).
Proof.
  unfold CheckSpec, windowErrors, checkExactKeys. rewrite check_spec.
  assert (Hi : forall v, negb (finite v && is_integer v) = false <->
    exists x, represents x v /\ isInteger x = true).
  { intros w. unfold represents, repr_num. rewrite negb_false_iff. split.
    - destruct w; cbn; try discriminate. intros [_ H]%andb_true_iff. eauto.
    - intros (x & -> & H). cbn. by rewrite (isInteger_finite x H). }
  split.
  - intros (o & -> & Hk & H). destruct_forall. use_keys Hk. rewrite Hi in *.
    destruct_conforms. eexists (Build_SteadyHistoryWindow _ _). build_record o.
  - intros ([x y] & (o & -> & Hk & ? & ?) & ? & ?). exists o. split; [done|]. split; [done|].
    repeat constructor; use_keys Hk; apply Hi; eauto.
Qed.

Lemma goodSeries_conforms (o : record) (k : string) (l : list jsnum) :
  goodSeries o k l -> represents l (get k o) /\ valid l.
Proof. intros (? & ? & _). done. Qed.

Lemma steadyHistoryErrors_spec (o : record) :
  steadyHistoryErrors o = [] <-> conforms SteadyHistory (JObj o).
Proof.
  unfold steadyHistoryErrors, checkExactKeys. rewrite !app_nil, !check_spec.
  assert (Hks : exact_keys TOP_KEYS o -> Forall (fun k => has k o = true) SERIES_KEYS).
  { intros Hk. repeat constructor; by apply (exact_keys_has _ o _ Hk). }
  assert (Hn : forall v, negb (typeof_string v) = false <-> exists s : string, represents s v).
  { intros v. unfold represents, repr_string. destruct v; cbn; naive_solver. }
  split.
  - intros (Hk & Hs & Hw & Hm & Hno). use_keys Hk. discharge_true.
    apply (seriesLoop_none o) in Hs; [|by apply Hks].
    rewrite conforms_bool in Hm. rewrite Hn in Hno.
    destruct Hs as (l & Hl & Hf). destruct_forall. destruct_conforms.
    destruct Hl as (? & ? & Hint & ?).
    repeat match goal with H : goodSeries _ _ _ |- _ => apply goodSeries_conforms in H as [? ?] end.
    eexists (Build_SteadyHistory _ _ _ _ _ _ _). build_record o. by apply Hint.
  - intros ([] & (o' & [= <-] & Hk & Hr) & Hv). hnf in Hv.
    cbn [iterations cl cd cm window mean_stable note] in *. destruct_and! Hr. destruct_and! Hv.
    split; [done|]. use_keys Hk. rewrite conforms_bool, Hn. split_conj.
    + apply seriesLoop_none; [by apply Hks|]. eexists. unfold goodSeries.
      split; [by eauto 6|]. rewrite !Forall_cons_iff. split_conj; [..|by constructor];
        (eexists; split; [split_conj; [eassumption|done|done|lia]|done]).
    + intros _. eexists; eauto.
    + eexists. split; [eassumption|done].
    + eauto.
Qed.

(** A steady-history payload is accepted exactly when it is the JSON form of
    a valid history: the exact keys, finite samples, integer iterations, at most
    2000 of them, four series of one length, and an integer window. *)
Theorem parseSteadyHistory_contract (v : jsval) :
  accepted (parseSteadyHistory v) = true <-> conforms SteadyHistory v.
Proof.
  destruct v as [| |b|n|s|l|o]; try (split; [done|intros ([] & (o & ? & _) & _); done]).
  cbn [parseSteadyHistory]. rewrite <- steadyHistoryErrors_spec. apply accepted_nil.
Qed.
