(* ===== verification/RansHold.v ===== *)
(** * The RANS hold certificate
      ([packages/engine-client/src/rans-hold-certificate.ts])

    A proof-only contract: the engine reduced the exact final coefficient
    window, and every channel held within the stamped tolerance.  The strict
    parser is proved to accept exactly the valid certificates, and a valid
    certificate is proved to mean what it stamps: an iteration window of exactly
    [sample_count] iterations, enough samples, ordered extrema and a spread
    within tolerance. *)

From Stdlib Require Import ZArith Lia Bool Ascii String.
From Stdlib Require Import Floats.
From stdpp Require Import base list strings option numbers.
From S2P Require Import Prelude JsNumber JsString JsValue.

Local Open Scope string_scope.
Local Open Scope list_scope.

Definition RANS_HOLD_CERTIFICATE_VERSION : string := "rans-hold-v1".

Record RansHoldChannel := {
  mean : jsnum;
  min_value : jsnum;
  max_value : jsnum;
  peak_to_peak : jsnum;
  relative_spread : jsnum;
}.

Record RansHoldCertificate := {
  sample_count : jsnum;
  required_sample_count : jsnum;
  start_iteration : jsnum;
  end_iteration : jsnum;
  relative_tolerance : jsnum;
  absolute_floor : jsnum;
  cl : RansHoldChannel;
  cd : RansHoldChannel;
  cm : RansHoldChannel;
}.

Definition CERTIFICATE_KEYS : list string :=
  ["reducer_version"; "sample_count"; "required_sample_count"; "start_iteration";
   "end_iteration"; "relative_tolerance"; "absolute_floor"; "certified"; "cl"; "cd"; "cm"].
Definition CHANNEL_KEYS : list string :=
  ["mean"; "min_value"; "max_value"; "peak_to_peak"; "relative_spread"].

Definition exactKeys := JsValue.exactKeys " (contract drift)".

Definition approximatelyEqual (left right : jsnum) : bool :=
  (PrimFloat.abs (left - right)
   <= 1e-12 * Math_max (Math_max 1 (PrimFloat.abs left)) (PrimFloat.abs right))%js.

(** The spread checks, which run when all five operands are finite numbers. *)
Definition spreadErrors (at_ : string) (mean p2p spread floor tolerance : jsval) : list string :=
  match mean, p2p, spread, floor, tolerance with
  | JNum m, JNum p, JNum s, JNum f, JNum t =>
      if isFinite m && isFinite p && isFinite s && isFinite f && isFinite t then
        let expectedSpread := (p / (PrimFloat.abs m + f))%float in
        fail_if (negb (approximatelyEqual s expectedSpread))
          (at_ +:+ ".relative_spread: does not match the stamped final-window spread") ++
        fail_if (s > t)%js (at_ +:+ ".relative_spread: exceeds the stamped tolerance")
      else []
  | _, _, _, _, _ => []
  end.

Definition validateChannel (value : jsval) (channel : string)
    (absoluteFloor relativeTolerance : jsval) : list string :=
  let at_ := "rans_hold_certificate." +:+ channel in
  on_record value (fun value =>
    exactKeys value CHANNEL_KEYS at_ ++
    List.flat_map (fun key =>
      fail_if (negb (finite (get key value))) (at_ +:+ "." +:+ key +:+ ": expected finite number"))
      CHANNEL_KEYS ++
    fail_if (finite (get "min_value" value) && finite (get "max_value" value) &&
             on_num2 (fun x y => x < y)%js (get "max_value" value) (get "min_value" value))
      (at_ +:+ ": max_value must be >= min_value") ++
    fail_if (finite (get "peak_to_peak" value) &&
             on_num (fun x => x < 0)%js (get "peak_to_peak" value))
      (at_ +:+ ".peak_to_peak: expected non-negative number") ++
    fail_if (finite (get "relative_spread" value) &&
             on_num (fun x => x < 0)%js (get "relative_spread" value))
      (at_ +:+ ".relative_spread: expected non-negative number") ++
    fail_if (finite (get "min_value" value) && finite (get "max_value" value) &&
             finite (get "peak_to_peak" value) &&
             match get "peak_to_peak" value, get "max_value" value, get "min_value" value with
             | JNum p, JNum hi, JNum lo => negb (approximatelyEqual p (hi - lo))
             | _, _, _ => false
             end)
      (at_ +:+ ".peak_to_peak: must equal max_value - min_value") ++
    spreadErrors at_ (get "mean" value) (get "peak_to_peak" value) (get "relative_spread" value)
      absoluteFloor relativeTolerance)
  [at_ +:+ ": expected object"].

(** [end - start + 1 !== count] *)
Definition windowLengthDiffers (start stop count : jsval) : bool :=
  match start, stop, count with
  | JNum s, JNum e, JNum n => negb ((e - s + 1)%float === n)%js
  | _, _, _ => false
  end.

Definition ransHoldErrors (value : record) : list string :=
  exactKeys value CERTIFICATE_KEYS "rans_hold_certificate" ++
  fail_if (negb (is_str (get "reducer_version" value) RANS_HOLD_CERTIFICATE_VERSION))
    ("rans_hold_certificate.reducer_version: expected " +:+ RANS_HOLD_CERTIFICATE_VERSION) ++
  fail_if (negb (integerAtLeast (get "sample_count" value) 1))
    "rans_hold_certificate.sample_count: expected positive integer" ++
  fail_if (negb (integerAtLeast (get "required_sample_count" value) 1))
    "rans_hold_certificate.required_sample_count: expected positive integer" ++
  fail_if (integerAtLeast (get "sample_count" value) 1 &&
           integerAtLeast (get "required_sample_count" value) 1 &&
           on_num2 (fun x y => x < y)%js
             (get "sample_count" value) (get "required_sample_count" value))
    "rans_hold_certificate.sample_count: below required_sample_count" ++
  List.flat_map (fun key =>
    fail_if (negb (integerAtLeast (get key value) 0))
      ("rans_hold_certificate." +:+ key +:+ ": expected non-negative integer"))
    ["start_iteration"; "end_iteration"] ++
  fail_if (integerAtLeast (get "start_iteration" value) 0 &&
           integerAtLeast (get "end_iteration" value) 0 &&
           on_num2 (fun x y => x < y)%js
             (get "end_iteration" value) (get "start_iteration" value))
    "rans_hold_certificate: iteration window is reversed" ++
  fail_if (integerAtLeast (get "sample_count" value) 1 &&
           integerAtLeast (get "start_iteration" value) 0 &&
           integerAtLeast (get "end_iteration" value) 0 &&
           windowLengthDiffers (get "start_iteration" value) (get "end_iteration" value)
             (get "sample_count" value))
    "rans_hold_certificate: iteration window length must equal sample_count" ++
  List.flat_map (fun key =>
    fail_if (negb (finite (get key value) && on_num (fun x => x > 0)%js (get key value)))
      ("rans_hold_certificate." +:+ key +:+ ": expected positive finite number"))
    ["relative_tolerance"; "absolute_floor"] ++
  fail_if (negb (is_true (get "certified" value)))
    "rans_hold_certificate.certified: expected true for a proof-bearing certificate" ++
  List.flat_map (fun channel =>
    validateChannel (get channel value) channel
      (get "absolute_floor" value) (get "relative_tolerance" value)) ["cl"; "cd"; "cm"].

Definition parseRansHoldCertificate (value : jsval) : parse_result :=
  match value with
  | JObj o => verdict value (ransHoldErrors o)
  | _ => Rejected ["rans_hold_certificate: expected object, got " +:+ type_label value]
  end.

(** ** The contract *)

#[export] Instance repr_channel : JsonRepr RansHoldChannel := fun c v =>
  exists o, v = JObj o /\ exact_keys CHANNEL_KEYS o /\
    represents (mean c) (get "mean" o) /\ represents (min_value c) (get "min_value" o) /\
    represents (max_value c) (get "max_value" o) /\
    represents (peak_to_peak c) (get "peak_to_peak" o) /\
    represents (relative_spread c) (get "relative_spread" o).

(** Finite statistics, ordered extrema, a peak-to-peak that is their difference
    and a relative spread that is the stamped one and is within tolerance. *)
Definition channel_ok (floor tolerance : jsnum) (c : RansHoldChannel) : Prop :=
  (valid (mean c) /\ valid (min_value c) /\ valid (max_value c) /\ valid (peak_to_peak c) /\
   valid (relative_spread c)) /\
  (max_value c < min_value c)%js = false /\
  (peak_to_peak c < 0)%js = false /\
  (relative_spread c < 0)%js = false /\
  approximatelyEqual (peak_to_peak c) (max_value c - min_value c) = true /\
  approximatelyEqual (relative_spread c)
    (peak_to_peak c / (PrimFloat.abs (mean c) + floor)) = true /\
  (relative_spread c > tolerance)%js = false.

#[export] Instance repr_certificate : JsonRepr RansHoldCertificate := fun c v =>
  exists o, v = JObj o /\ exact_keys CERTIFICATE_KEYS o /\
    get "reducer_version" o = JStr RANS_HOLD_CERTIFICATE_VERSION /\
    get "certified" o = JBool true /\
    represents (sample_count c) (get "sample_count" o) /\
    represents (required_sample_count c) (get "required_sample_count" o) /\
    represents (start_iteration c) (get "start_iteration" o) /\
    represents (end_iteration c) (get "end_iteration" o) /\
    represents (relative_tolerance c) (get "relative_tolerance" o) /\
    represents (absolute_floor c) (get "absolute_floor" o) /\
    represents (cl c) (get "cl" o) /\ represents (cd c) (get "cd" o) /\
    represents (cm c) (get "cm" o).

Definition count_at_least (minimum x : jsnum) : Prop :=
  isInteger x = true /\ PrimFloat.leb minimum x = true.

#[export] Instance valid_certificate : Valid RansHoldCertificate := fun c =>
  count_at_least 1 (sample_count c) /\ count_at_least 1 (required_sample_count c) /\
  (sample_count c < required_sample_count c)%js = false /\
  count_at_least 0 (start_iteration c) /\ count_at_least 0 (end_iteration c) /\
  (end_iteration c < start_iteration c)%js = false /\
  ((end_iteration c - start_iteration c + 1)%float === sample_count c)%js = true /\
  (valid (relative_tolerance c) /\ (relative_tolerance c > 0)%js = true) /\
  (valid (absolute_floor c) /\ (absolute_floor c > 0)%js = true) /\
  channel_ok (absolute_floor c) (relative_tolerance c) (cl c) /\
  channel_ok (absolute_floor c) (relative_tolerance c) (cd c) /\
  channel_ok (absolute_floor c) (relative_tolerance c) (cm c).

Lemma validateChannel_spec (v : jsval) (channel : string) (f t : jsnum) :
  valid f -> valid t ->
  validateChannel v channel (JNum f) (JNum t) = [] <->
  exists c, represents c v /\ channel_ok f t c.
Proof.
  unfold valid, valid_num. intros Hf Ht.
  unfold validateChannel, exactKeys, spreadErrors. cbv zeta. split.
  - destruct v as [| |b|n|s|l|o]; cbn [on_record]; try discriminate.
    rewrite !app_nil, !check_spec. intros (Hk & H & Hrest).
    setoid_rewrite conforms_num in H. destruct_forall. destruct_conforms.
    unfold represents, repr_num, valid, valid_num in *.
    rewrite_gets. rewrite ?Hf, ?Ht in *. use_bools.
    open_checks. breflect.
    eexists (Build_RansHoldChannel _ _ _ _ _). build_record o.
  - intros ([] & (o & -> & Hk & Hr) & Hc). hnf in Hc.
    cbn [mean min_value max_value peak_to_peak relative_spread] in *.
    destruct_and! Hr. destruct_and! Hc. unfold represents, repr_num, valid, valid_num in *.
    cbn [on_record]. rewrite !app_nil, !check_spec. rewrite_gets. use_bools.
    split; [done|]. split_conj; try done. repeat constructor; by rewrite_gets; use_bools.
Qed.

Lemma ransHoldErrors_spec (o : record) :
  ransHoldErrors o = [] <-> conforms RansHoldCertificate (JObj o).
Proof.
  unfold ransHoldErrors, exactKeys.
  rewrite !app_nil, (flat_map_nil (fun ch => validateChannel _ ch _ _)), !check_spec. split.
  - intros (Hk & Hrv & Hsc & Hrsc & Hlt & Hit & Hrev & Hlen & Hpos & Hcert & Hch).
    rewrite negb_false_iff in Hrv, Hsc, Hrsc, Hcert.
    setoid_rewrite negb_false_iff in Hit. setoid_rewrite negb_false_iff in Hpos.
    setoid_rewrite andb_true_iff in Hpos. setoid_rewrite finite_repr in Hpos.
    setoid_rewrite integerAtLeast_spec in Hit.
    destruct_forall. use_bools. rewrite integerAtLeast_spec in Hsc, Hrsc. destruct_conforms.
    int_finite. unfold integerAtLeast, windowLengthDiffers, represents, repr_num in *.
    rewrite_gets. use_bools.
    repeat match goal with
    | H : validateChannel _ _ _ _ = [] |- _ => apply validateChannel_spec in H; [|done..]
    end.
    destruct_conforms.
    destruct (get "reducer_version" o) eqn:Erv; try done. apply String.eqb_eq in Hrv as ->.
    destruct (get "certified" o) as [| |[]|n|s|l|o'] eqn:Ecert; try done.
    eexists (Build_RansHoldCertificate _ _ _ _ _ _ _ _ _).
    breflect. build_record o.
  - intros ([] & (o' & [= <-] & Hk & Hr) & Hv). hnf in Hv.
    cbn [sample_count required_sample_count start_iteration end_iteration relative_tolerance
      absolute_floor cl cd cm] in *. unfold count_at_least in Hv.
    destruct_and! Hr. destruct_and! Hv. int_finite.
    unfold integerAtLeast, windowLengthDiffers. unfold represents, repr_num in *.
    rewrite_gets. use_bools. split; [done|]. split_conj; try done.
    + repeat constructor; rewrite_gets; by use_bools.
    + repeat constructor; rewrite_gets; unfold valid, valid_num in *; by use_bools.
    + repeat constructor; apply validateChannel_spec; eauto.
Qed.

Lemma ransHold_accepted (v : jsval) :
  accepted (parseRansHoldCertificate v) = true <-> conforms RansHoldCertificate v.
Proof.
  destruct v as [| |b|n|s|l|o]; try (split; [done|intros ([] & (o & ? & _) & _); done]).
  cbn [parseRansHoldCertificate]. rewrite <- ransHoldErrors_spec. apply accepted_nil.
Qed.

(** The parser accepts a value exactly when it is the JSON form of a valid
    RANS hold certificate. *)
Theorem parseRansHoldCertificate_contract (v : jsval) :
  accepted (parseRansHoldCertificate v) = true <-> conforms RansHoldCertificate v.
Proof. apply ransHold_accepted. Qed.

(** What the stamped window and spreads mean, in exact arithmetic. *)
Definition window_exact (c : RansHoldCertificate) : Prop :=
  exists s e n r : Z,
    to_integer (start_iteration c) = Some s /\ to_integer (end_iteration c) = Some e /\
    to_integer (sample_count c) = Some n /\ to_integer (required_sample_count c) = Some r /\
    (0 <= s <= e /\ n = e - s + 1 /\ 1 <= r <= n)%Z.

Definition channel_held (tolerance : jsnum) (c : RansHoldChannel) : Prop :=
  (ord (min_value c) <= ord (max_value c) /\ 0 <= ord (peak_to_peak c) /\
   0 <= ord (relative_spread c) <= ord tolerance)%Z.

Lemma channel_ok_held (f t : jsnum) (c : RansHoldChannel) :
  valid t -> channel_ok f t c -> channel_held t c.
Proof.
  intros Ht ((? & ? & ? & ? & ?) & ? & ? & ? & _ & _ & ?).
  unfold channel_held. change 0%Z with (ord 0%float). split_conj; by apply ltb_false_le.
Qed.

Lemma valid_window_exact (c : RansHoldCertificate) :
  valid c -> isSafeInteger (end_iteration c) = true -> window_exact c.
Proof.
  intros ((Hn & Hn1) & (Hr & Hr1) & Hnr & (Hs & Hs0) & (He & He0) & Hse & Hlen & _) Hsafe.
  apply isInteger_spec in Hn as [n Hn], Hr as [r Hr], Hs as [s Hs].
  apply isSafeInteger_spec in Hsafe as (e & Hee & Hmax).
  pose proof to_integer_0 as H0. pose proof to_integer_1 as H1.
  rewrite (leb_integer _ _ _ _ H1 Hn) in Hn1. rewrite (leb_integer _ _ _ _ H1 Hr) in Hr1.
  rewrite (leb_integer _ _ _ _ H0 Hs) in Hs0. rewrite (leb_integer _ _ _ _ H0 Hee) in He0.
  rewrite (ltb_integer _ _ _ _ Hn Hr) in Hnr. rewrite (ltb_integer _ _ _ _ Hee Hs) in Hse.
  assert (Hd : to_integer (end_iteration c - start_iteration c)%float = Some (e - s)%Z)
    by (apply sub_integer; [assumption..|lia]).
  assert (Hd1 : to_integer (end_iteration c - start_iteration c + 1)%float = Some (e - s + 1)%Z)
    by (apply add_integer; [assumption..|lia]).
  rewrite (eqb_integer _ _ _ _ Hd1 Hn) in Hlen.
  exists s, e, n, r. split_conj; assumption || lia.
Qed.

(** An accepted certificate means what it stamps: for a safe end iteration,
    the window holds exactly [sample_count] iterations and at least the required
    number; and in every channel the extrema are ordered and the spread is
    non-negative and within the stamped tolerance. *)
Theorem ransHold_certifies (v : jsval) :
  accepted (parseRansHoldCertificate v) = true ->
  exists c : RansHoldCertificate, represents c v /\
    (isSafeInteger (end_iteration c) = true -> window_exact c) /\
    channel_held (relative_tolerance c) (cl c) /\
    channel_held (relative_tolerance c) (cd c) /\
    channel_held (relative_tolerance c) (cm c).
Proof.
  intros H. assert (Hc : conforms RansHoldCertificate v).
  { destruct v; try done. by apply ransHoldErrors_spec, (accepted_nil (JObj fields)). }
  destruct Hc as (c & Hr & Hv). exists c. split; [done|]. split; [by apply valid_window_exact|].
  destruct Hv as (_ & _ & _ & _ & _ & _ & _ & [Ht _] & _ & Hcl & Hcd & Hcm).
  split_and!; by eapply channel_ok_held.
Qed.

Definition sample_channel (m : jsnum) : jsval :=
  JObj [("mean", JNum m); ("min_value", JNum 0.25); ("max_value", JNum 0.5);
        ("peak_to_peak", JNum 0.25); ("relative_spread", JNum 0.25)]%float.

Definition sample_certificate : jsval :=
  JObj [("reducer_version", JStr "rans-hold-v1"); ("sample_count", JNum 50);
        ("required_sample_count", JNum 50); ("start_iteration", JNum 101);
        ("end_iteration", JNum 150); ("relative_tolerance", JNum 0.5);
        ("absolute_floor", JNum 0.5); ("certified", JBool true);
        ("cl", sample_channel 0.5); ("cd", sample_channel 0.5);
        ("cm", sample_channel (-0.5))]%float.

Lemma ransHold_certifies_witness :
  accepted (parseRansHoldCertificate sample_certificate) = true /\
  exists c : RansHoldCertificate, represents c sample_certificate /\
    (isSafeInteger (end_iteration c) = true -> window_exact c) /\
    channel_held (relative_tolerance c) (cl c) /\
    channel_held (relative_tolerance c) (cd c) /\
    channel_held (relative_tolerance c) (cm c).
Proof.
  split; [vm_compute; reflexivity|]. apply (ransHold_certifies sample_certificate).
  vm_compute. reflexivity.
Defined.
