(* ===== verification/NoShedding.v ===== *)
(** * The no-shedding certificate ([packages/core/src/no-shedding-certificate.ts])

    The proof contract of a physically non-shedding URANS observation.  The
    parser is proved to accept exactly the valid certificates; a valid one is
    proved to have observed at least the required horizon up to the stated
    slack, with at least as many source samples as transported ones. *)

From Stdlib Require Import ZArith Lia Bool Ascii String.
From Stdlib Require Import Floats.
From stdpp Require Import base list strings option numbers.
From S2P Require Import Prelude JsNumber JsString JsValue.

Local Open Scope string_scope.
Local Open Scope list_scope.

Definition NO_SHEDDING_CERTIFICATE_VERSION : string := "no-shedding-v1".
Definition NO_SHEDDING_MIN_SAMPLE_COUNT : jsnum := 20%float.

Record NoSheddingCertificate := {
  required_observation_s : jsnum;
  observation_start_time : jsnum;
  observation_end_time : jsnum;
  observed_observation_s : jsnum;
  source_sample_count : jsnum;
  transport_sample_count : jsnum;
  relative_tolerance : jsnum;
  absolute_floor : jsnum;
  cl_mean : jsnum; cd_mean : jsnum; cm_mean : jsnum;
  cl_rms : jsnum; cd_rms : jsnum; cm_rms : jsnum;
  transport_cl_mean : jsnum; transport_cd_mean : jsnum; transport_cm_mean : jsnum;
  transport_cl_rms : jsnum; transport_cd_rms : jsnum; transport_cm_rms : jsnum;
}.

Definition CERTIFICATE_KEYS : list string :=
  ["reducer_version"; "certified"; "required_observation_s"; "observation_start_time";
   "observation_end_time"; "observed_observation_s"; "source_sample_count";
   "transport_sample_count"; "relative_tolerance"; "absolute_floor"; "cl_mean"; "cd_mean";
   "cm_mean"; "cl_rms"; "cd_rms"; "cm_rms"; "transport_cl_mean"; "transport_cd_mean";
   "transport_cm_mean"; "transport_cl_rms"; "transport_cd_rms"; "transport_cm_rms"].

Definition positiveFinite (value : jsval) : bool :=
  finite value && on_num (fun x => x > 0)%js value.

Definition nonnegativeInteger (value : jsval) (minimum : jsnum) : bool :=
  integerAtLeast value minimum.

Definition approximatelyEqual (left right : jsnum) : bool :=
  (PrimFloat.abs (left - right)
   <= 1e-10 * Math_max (Math_max 1 (PrimFloat.abs left)) (PrimFloat.abs right))%js.

Definition exactKeys := JsValue.exactKeys " (contract drift)".

(** [observed + 1e-10 * Math.max(1, observed) < required] *)
Definition below_horizon (observed required : jsnum) : bool :=
  (observed + 1e-10 * Math_max 1 observed < required)%js.

(** [Math.abs(rms) > threshold + 1e-12 * Math.max(1, threshold)] *)
Definition exceeds_amplitude (tolerance floor mean rms : jsnum) : bool :=
  let threshold := Math_max (tolerance * PrimFloat.abs mean) floor in
  (PrimFloat.abs rms > threshold + 1e-12 * Math_max 1 threshold)%js.

Definition prefix : string := "no_shedding_certificate".

(** One channel of the amplitude loop, on [[channel, mean, rms]]. *)
Definition amplitudeErrors (tolerance floor : jsval) (entry : string * jsval * jsval) :
    list string :=
  let '(channel, mean, rms) := entry in
  match tolerance, floor, mean, rms with
  | JNum tolerance, JNum floor, JNum mean, JNum rms =>
      fail_if (isFinite mean && isFinite rms && exceeds_amplitude tolerance floor mean rms)
        (prefix +:+ "." +:+ channel +:+ "_rms: exceeds its stamped amplitude tolerance")
  | _, _, _, _ => []
  end.

Definition keyErrors (bad : jsval -> bool) (value : record) (ks : list string) (msg : string) :
    list string :=
  List.flat_map (fun key =>
    fail_if (bad (get key value)) (prefix +:+ "." +:+ key +:+ ": " +:+ msg)) ks.

Definition RMS_KEYS : list string :=
  ["cl_rms"; "cd_rms"; "cm_rms"; "transport_cl_rms"; "transport_cd_rms"; "transport_cm_rms"].

Definition windowErrors (value : record) : list string :=
  let start := get "observation_start_time" value in
  let stop := get "observation_end_time" value in
  let observed := get "observed_observation_s" value in
  let required := get "required_observation_s" value in
  fail_if (finite start && finite stop && on_num2 (fun e s => e <= s)%js stop start)
    (prefix +:+ ": observation time window is reversed") ++
  fail_if (finite start && finite stop && positiveFinite observed &&
           match observed, stop, start with
           | JNum d, JNum e, JNum s => negb (approximatelyEqual d (e - s))
           | _, _, _ => false
           end)
    (prefix +:+ ".observed_observation_s: does not match the observation time window") ++
  fail_if (positiveFinite observed && positiveFinite required &&
           on_num2 below_horizon observed required)
    (prefix +:+ ": observation is below the physical slow-shedding horizon") ++
  fail_if (nonnegativeInteger (get "source_sample_count" value) NO_SHEDDING_MIN_SAMPLE_COUNT &&
           nonnegativeInteger (get "transport_sample_count" value) NO_SHEDDING_MIN_SAMPLE_COUNT &&
           on_num2 (fun a b => a < b)%js
             (get "source_sample_count" value) (get "transport_sample_count" value))
    (prefix +:+ ": source sample count is below transported history count").

Definition fieldErrors (value : record) : list string :=
  keyErrors (fun v => negb (positiveFinite v)) value
    ["required_observation_s"; "observed_observation_s"; "relative_tolerance"; "absolute_floor"]
    "expected positive finite number" ++
  keyErrors (fun v => negb (finite v) || on_num (fun x => x < 0)%js v) value
    ["observation_start_time"; "observation_end_time"]
    "expected non-negative finite number" ++
  keyErrors (fun v => negb (nonnegativeInteger v NO_SHEDDING_MIN_SAMPLE_COUNT)) value
    ["source_sample_count"; "transport_sample_count"]
    ("expected integer >= " +:+ Number_toString NO_SHEDDING_MIN_SAMPLE_COUNT) ++
  keyErrors (fun v => negb (finite v)) value
    ["cl_mean"; "cd_mean"; "cm_mean"; "cl_rms"; "cd_rms"; "cm_rms"; "transport_cl_mean";
     "transport_cd_mean"; "transport_cm_mean"; "transport_cl_rms"; "transport_cd_rms";
     "transport_cm_rms"] "expected finite number" ++
  keyErrors (fun v => finite v && on_num (fun x => x < 0)%js v) value RMS_KEYS
    "expected non-negative number".

Definition noSheddingErrors (value : record) : list string :=
  exactKeys value CERTIFICATE_KEYS prefix ++
  fail_if (negb (is_str (get "reducer_version" value) NO_SHEDDING_CERTIFICATE_VERSION))
    (prefix +:+ ".reducer_version: expected " +:+ NO_SHEDDING_CERTIFICATE_VERSION) ++
  fail_if (negb (is_true (get "certified" value))) (prefix +:+ ".certified: expected true") ++
  fieldErrors value ++
  windowErrors value ++
  when (positiveFinite (get "relative_tolerance" value) &&
        positiveFinite (get "absolute_floor" value))
    (List.flat_map
       (amplitudeErrors (get "relative_tolerance" value) (get "absolute_floor" value))
       [("cl", get "cl_mean" value, get "cl_rms" value);
        ("cd", get "cd_mean" value, get "cd_rms" value);
        ("cm", get "cm_mean" value, get "cm_rms" value)]).

Definition parseNoSheddingCertificate (value : jsval) : parse_result :=
  match value with
  | JObj o => verdict value (noSheddingErrors o)
  | _ => Rejected [prefix +:+ ": expected object, got " +:+ type_label value]
  end.

(** ** The contract *)

#[export] Instance repr_certificate : JsonRepr NoSheddingCertificate := fun c v =>
  exists o, v = JObj o /\ exact_keys CERTIFICATE_KEYS o /\
    get "reducer_version" o = JStr NO_SHEDDING_CERTIFICATE_VERSION /\
    get "certified" o = JBool true /\
    represents (required_observation_s c) (get "required_observation_s" o) /\
    represents (observation_start_time c) (get "observation_start_time" o) /\
    represents (observation_end_time c) (get "observation_end_time" o) /\
    represents (observed_observation_s c) (get "observed_observation_s" o) /\
    represents (source_sample_count c) (get "source_sample_count" o) /\
    represents (transport_sample_count c) (get "transport_sample_count" o) /\
    represents (relative_tolerance c) (get "relative_tolerance" o) /\
    represents (absolute_floor c) (get "absolute_floor" o) /\
    represents (cl_mean c) (get "cl_mean" o) /\ represents (cd_mean c) (get "cd_mean" o) /\
    represents (cm_mean c) (get "cm_mean" o) /\ represents (cl_rms c) (get "cl_rms" o) /\
    represents (cd_rms c) (get "cd_rms" o) /\ represents (cm_rms c) (get "cm_rms" o) /\
    represents (transport_cl_mean c) (get "transport_cl_mean" o) /\
    represents (transport_cd_mean c) (get "transport_cd_mean" o) /\
    represents (transport_cm_mean c) (get "transport_cm_mean" o) /\
    represents (transport_cl_rms c) (get "transport_cl_rms" o) /\
    represents (transport_cd_rms c) (get "transport_cd_rms" o) /\
    represents (transport_cm_rms c) (get "transport_cm_rms" o).

Definition positive (x : jsnum) : Prop := isFinite x = true /\ (x > 0)%js = true.
Definition nonnegative (x : jsnum) : Prop := isFinite x = true /\ (x < 0)%js = false.
Definition sample_count (x : jsnum) : Prop :=
  isInteger x = true /\ PrimFloat.leb NO_SHEDDING_MIN_SAMPLE_COUNT x = true.

(** The amplitude of one channel is within the stamped tolerance. *)
Definition steady_channel (c : NoSheddingCertificate) (mean rms : jsnum) : Prop :=
  isFinite mean = true /\ nonnegative rms /\
  exceeds_amplitude (relative_tolerance c) (absolute_floor c) mean rms = false.

#[export] Instance valid_certificate : Valid NoSheddingCertificate := fun c =>
  positive (required_observation_s c) /\ positive (observed_observation_s c) /\
  positive (relative_tolerance c) /\ positive (absolute_floor c) /\
  nonnegative (observation_start_time c) /\ nonnegative (observation_end_time c) /\
  sample_count (source_sample_count c) /\ sample_count (transport_sample_count c) /\
  (observation_end_time c <= observation_start_time c)%js = false /\
  approximatelyEqual (observed_observation_s c)
    (observation_end_time c - observation_start_time c) = true /\
  below_horizon (observed_observation_s c) (required_observation_s c) = false /\
  (source_sample_count c < transport_sample_count c)%js = false /\
  steady_channel c (cl_mean c) (cl_rms c) /\ steady_channel c (cd_mean c) (cd_rms c) /\
  steady_channel c (cm_mean c) (cm_rms c) /\
  isFinite (transport_cl_mean c) = true /\ isFinite (transport_cd_mean c) = true /\
  isFinite (transport_cm_mean c) = true /\ nonnegative (transport_cl_rms c) /\
  nonnegative (transport_cd_rms c) /\ nonnegative (transport_cm_rms c).

Lemma positiveFinite_spec (v : jsval) :
  positiveFinite v = true <-> exists x, v = JNum x /\ positive x.
Proof.
  unfold positiveFinite, positive. split.
  - destruct v; cbn; try discriminate. intros H%andb_true_iff. eauto.
  - intros (x & -> & Hf & Hp). cbn. by rewrite Hf, Hp.
Qed.

Lemma nonneg_spec (v : jsval) :
  negb (finite v) || on_num (fun x => x < 0)%js v = false <->
  exists x, v = JNum x /\ nonnegative x.
Proof.
  unfold nonnegative. split.
  - destruct v; cbn; try discriminate. intros [H1%negb_false_iff H2]%orb_false_iff. eauto.
  - intros (x & -> & Hf & Hp). cbn. by rewrite Hf, Hp.
Qed.

Lemma noSheddingErrors_spec (o : record) :
  noSheddingErrors o = [] <-> conforms NoSheddingCertificate (JObj o).
Proof.
  unfold noSheddingErrors, exactKeys, fieldErrors, windowErrors, keyErrors, nonnegativeInteger.
  cbv zeta.
  rewrite !app_nil, !check_spec. split.
  - intros (Hk & Hrv & Hcert & (Hpos & Htime & Hcount & Hfin & Hrms) & (Hw1 & Hw2 & Hw3 & Hw4) & Hamp).
    setoid_rewrite negb_false_iff in Hpos. setoid_rewrite positiveFinite_spec in Hpos.
    setoid_rewrite nonneg_spec in Htime.
    setoid_rewrite negb_false_iff in Hcount. setoid_rewrite integerAtLeast_spec in Hcount.
    setoid_rewrite negb_false_iff in Hfin. setoid_rewrite finite_repr in Hfin.
    destruct_forall. destruct_conforms. int_finite.
    unfold integerAtLeast, positiveFinite, represents, repr_num, RMS_KEYS in *.
    unfold positive, nonnegative, sample_count in *. destruct_conforms.
    rewrite_gets. use_bools. discharge_true. cbn [when] in Hamp.
    rewrite flat_map_nil in Hamp. destruct_forall. unfold amplitudeErrors in *.
    rewrite_gets. use_bools.
    repeat match goal with H : fail_if _ _ = [] |- _ => rewrite check_spec in H end.
    destruct (get "reducer_version" o) eqn:Erv; try done.
    apply negb_false_iff, String.eqb_eq in Hrv as ->.
    destruct (get "certified" o) as [| |[]|n|s|l|o'] eqn:Ecert; try done.
    apply negb_false_iff in Hw2.
    eexists (Build_NoSheddingCertificate _ _ _ _ _ _ _ _ _ _ _ _ _ _ _ _ _ _ _ _).
    split; [exists o; close_fields|]. hnf. unfold positive, nonnegative, sample_count,
      steady_channel, nonnegative. close_fields.
  - intros (c & (o' & [= <-] & Hk & Hr) & Hv). hnf in Hv.
    unfold positive, nonnegative, sample_count, steady_channel, nonnegative in Hv.
    destruct_and! Hr. destruct_and! Hv. int_finite. split; [done|].
    unfold represents, repr_num in *. rewrite_gets.
    unfold integerAtLeast, positiveFinite, RMS_KEYS. rewrite_gets.
    split_conj; try done; try (by goal_bools);
      try (goal_bools; cbn [when]; rewrite flat_map_nil);
      repeat (apply Forall_cons; [|try apply Forall_nil_2]);
      unfold amplitudeErrors; rewrite_gets; by goal_bools.
Qed.

Lemma noShedding_accepted (v : jsval) :
  accepted (parseNoSheddingCertificate v) = true <-> conforms NoSheddingCertificate v.
Proof.
  destruct v as [| |b|n|s|l|o]; try (split; [done|intros ([] & (o & ? & _) & _); done]).
  cbn [parseNoSheddingCertificate]. rewrite <- noSheddingErrors_spec. apply accepted_nil.
Qed.

(** The parser accepts a value exactly when it is the JSON form of a valid
    no-shedding certificate. *)
Theorem parseNoSheddingCertificate_contract (v : jsval) :
  accepted (parseNoSheddingCertificate v) = true <-> conforms NoSheddingCertificate v.
Proof. apply noShedding_accepted. Qed.
