(* ===== verification/Numeric.v ===== *)
(** * Numeric fields of dynamic records

    The conditions that the contract parsers put on a field read from an unknown
    record (finite, non-negative, an integer from a bound on), each with the
    proposition on the typed number that it amounts to, and the message loop
    over a list of keys. *)

From Stdlib Require Import ZArith Lia Bool Ascii String.
From Stdlib Require Import Floats.
From stdpp Require Import base list strings option numbers.
From S2P Require Import Prelude JsNumber JsString JsValue.

Local Open Scope string_scope.
Local Open Scope list_scope.

Definition keyErrors (bad : jsval -> bool) (entry : record) (at_ : string) (ks : list string)
    (msg : string) : list string :=
  List.flat_map (fun key => fail_if (bad (get key entry)) (at_ +:+ "." +:+ key +:+ ": " +:+ msg))
    ks.

(** [typeof v === "string" && v.trim()] *)
Definition nonBlank (v : jsval) : bool :=
  match v with JStr s => nonempty (trim s) | _ => false end.

Definition integer_at_least (lo : Z) (v : jsval) : Prop :=
  exists x z, v = JNum x /\ to_integer x = Some z /\ (lo <= z)%Z.

Definition at_least (lo : Z) (x : jsnum) : Prop := exists z, to_integer x = Some z /\ (lo <= z)%Z.
Definition is_finite (x : jsnum) : Prop := isFinite x = true.
Definition nonnegative (x : jsnum) : Prop := isFinite x = true /\ (0 <= ord x)%Z.
Definition unit_interval (x : jsnum) : Prop :=
  isFinite x = true /\ (0 <= ord x <= ord 1%float)%Z.

Lemma integerAtLeast_integer (v : jsval) (minimum : jsnum) (lo : Z) :
  to_integer minimum = Some lo ->
  integerAtLeast v minimum = true <-> integer_at_least lo v.
Proof.
  intros Hlo. rewrite integerAtLeast_spec. unfold represents, repr_num, integer_at_least. split.
  - intros (x & -> & [z Hz]%isInteger_spec & Hx). exists x, z.
    rewrite (leb_integer _ _ _ _ Hlo Hz) in Hx. split_conj; [done..|lia].
  - intros (x & z & -> & Hz & Hx). exists x. split; [done|]. split; [apply isInteger_spec; eauto|].
    rewrite (leb_integer _ _ _ _ Hlo Hz). lia.
Qed.

Definition num_with (P : jsnum -> Prop) (v : jsval) : Prop := exists x, v = JNum x /\ P x.

Lemma num_with_bool (b : jsval -> bool) (P : jsnum -> Prop) :
  (forall v, b v = false -> exists x, v = JNum x) ->
  (forall x, b (JNum x) = false <-> P x) ->
  forall v, b v = false <-> num_with P v.
Proof.
  intros Hb HP v. unfold num_with. split.
  - intros H. destruct (Hb v H) as [x ->]. apply HP in H. eauto.
  - intros (x & -> & H). by apply HP.
Qed.

Lemma not_finite_num (v : jsval) : negb (finite v) = false <-> num_with is_finite v.
Proof.
  apply (num_with_bool (fun v => negb (finite v)));
    [intros []|intros x]; cbn; try discriminate; [eauto|].
  by rewrite negb_false_iff.
Qed.

Lemma nonnegative_num (v : jsval) :
  negb (finite v) || on_num (fun x => x < 0)%js v = false <-> num_with nonnegative v.
Proof.
  apply (num_with_bool (fun v => negb (finite v) || on_num (fun x => x < 0)%js v));
    [intros []|intros x]; cbn; try discriminate; [eauto|].
  rewrite orb_false_iff, negb_false_iff. unfold nonnegative.
  destruct (isFinite x) eqn:E; [|naive_solver].
  rewrite ltb_finite_false by done. rewrite ord_0. done.
Qed.

Lemma at_least_num (v : jsval) (minimum : jsnum) (lo : Z) :
  to_integer minimum = Some lo ->
  negb (integerAtLeast v minimum) = false <-> num_with (at_least lo) v.
Proof.
  intros H. rewrite negb_false_iff, (integerAtLeast_integer _ _ _ H).
  unfold integer_at_least, num_with, at_least. split; intros H'; destruct_conforms; eauto 6.
Qed.

Lemma at_least_0 (x : jsnum) : at_least 0 x -> integerAtLeast (JNum x) 0 = true.
Proof.
  intros (z & Hz & Hpos). apply (integerAtLeast_integer _ _ 0); [apply to_integer_0|].
  by exists x, z.
Qed.

Lemma forall_iff {A} (P Q : A -> Prop) (l : list A) :
  (forall x, P x <-> Q x) -> Forall P l <-> Forall Q l.
Proof. intros H. rewrite !List.Forall_forall. naive_solver. Qed.

Lemma keyErrors_spec (bad : jsval -> bool) (Q : jsval -> Prop) (o : record) (at_ msg : string)
    (ks : list string) :
  (forall v, bad v = false <-> Q v) ->
  keyErrors bad o at_ ks msg = [] <-> Forall (fun k => Q (get k o)) ks.
Proof.
  intros H. unfold keyErrors. rewrite check_spec. apply forall_iff. intros k. apply H.
Qed.

Lemma nonBlank_spec (v : jsval) :
  negb (nonBlank v) = false <-> exists s, v = JStr s /\ nonempty (trim s) = true.
Proof. rewrite negb_false_iff. destruct v; cbn; naive_solver. Qed.

Lemma positive_num (v : jsval) :
  negb (finite v) || on_num (fun x => x <= 0)%js v = false <->
  num_with (fun x => isFinite x = true /\ (0 < ord x)%Z) v.
Proof.
  apply (num_with_bool (fun v => negb (finite v) || on_num (fun x => x <= 0)%js v));
    [intros []|intros x]; cbn; try discriminate; [eauto|].
  rewrite orb_false_iff, negb_false_iff.
  destruct (isFinite x) eqn:E; [|naive_solver].
  rewrite leb_finite_false by done. rewrite ord_0. done.
Qed.

Lemma boolean_num (v : jsval) : negb (typeof_boolean v) = false <-> exists b, v = JBool b.
Proof. rewrite negb_false_iff. destruct v; cbn; naive_solver. Qed.


(** Take apart the numeric facts of the context, and read them back. *)
Ltac open_nums_with unfold_keys :=
  repeat match goal with
  | H : num_with _ _ |- _ => destruct H as (? & ? & ?)
  | H : Forall _ (_ :: _) |- _ => apply Forall_cons_iff in H as [? H]; cbn beta in *
  | H : Forall _ [] |- _ => clear H
  | H : Forall _ _ |- _ => progress unfold_keys H
  | H : _ /\ _ |- _ => destruct H
  | H : exists _, _ |- _ => destruct H
  end.

Ltac close_nums :=
  repeat match goal with
  | |- Forall _ (_ :: _) => apply Forall_cons_iff; split
  | |- Forall _ [] => apply Forall_nil_2
  | |- num_with _ (get ?k ?o) => eexists; split; [eassumption|]
  end; try eassumption.
