(* ===== verification/UransCyclePolicy.v ===== *)
(** * The clean-cycle policy ([packages/core/src/urans-cycle-policy.ts])

    [selectedCleanCycleQualityReasons] lists every way in which a purportedly
    selected cycle contradicts the clean-cycle policy.  It takes unknown fields;
    the specification [clean_cycle] is on the typed metrics. *)

From Stdlib Require Import ZArith Lia Bool Ascii String.
From Stdlib Require Import Floats.
From stdpp Require Import base list strings option numbers.
From S2P Require Import Prelude JsNumber JsString JsValue Numeric.

Local Open Scope string_scope.
Local Open Scope list_scope.

Definition URANS_CLEAN_CYCLE_MIN_COEFFICIENT_SAMPLES : jsnum := 20%float.
Definition URANS_CLEAN_CYCLE_MIN_FIELD_FRAMES : jsnum := 20%float.
Definition URANS_CLEAN_CYCLE_MAX_PHASE_GAP : jsnum := 0.1%float.
Definition URANS_CLEAN_CYCLE_MAX_PHASE_SHIFT_BINS : jsnum := 4%float.
Definition URANS_CLEAN_CYCLE_MAX_SHAPE_NRMSE : jsnum := 0.12%float.
Definition URANS_CLEAN_CYCLE_MAX_AMPLITUDE_DEVIATION : jsnum := 0.3%float.

Record ChannelQualityInput := {
  shapeError : jsval;
  amplitudeDeviation : jsval;
  highFrequency : jsval;
}.

Record SelectedCleanCycleQualityInput := {
  coefficientSamples : jsval;
  fieldFrames : jsval;
  phaseMaxGap : jsval;
  phaseShiftBins : jsval;
  cl : ChannelQualityInput;
  cd : ChannelQualityInput;
  cm : ChannelQualityInput;
  reasons : jsval;
}.

Definition nonNegativeFinite (value : jsval) : bool :=
  finite value && on_num (fun x => x >= 0)%js value.

(** [nonNegativeFinite(value) && value <= limit] *)
Definition withinLimit (value : jsval) (limit : jsnum) : bool :=
  nonNegativeFinite value && on_num (fun x => x <= limit)%js value.

Definition channelReasons (entry : string * ChannelQualityInput) : list string :=
  let '(name, metrics) := entry in
  fail_if (negb (withinLimit (shapeError metrics) URANS_CLEAN_CYCLE_MAX_SHAPE_NRMSE))
    (name +:+ "-shape-error") ++
  fail_if (negb (withinLimit (amplitudeDeviation metrics)
                   URANS_CLEAN_CYCLE_MAX_AMPLITUDE_DEVIATION))
    (name +:+ "-amplitude-deviation") ++
  fail_if (negb (nonNegativeFinite (highFrequency metrics))) (name +:+ "-high-frequency").

Definition selectedCleanCycleQualityReasons (cycle : SelectedCleanCycleQualityInput) :
    list string :=
  fail_if (negb (integerAtLeast (coefficientSamples cycle)
                   URANS_CLEAN_CYCLE_MIN_COEFFICIENT_SAMPLES)) "coefficient-samples" ++
  fail_if (negb (integerAtLeast (fieldFrames cycle) URANS_CLEAN_CYCLE_MIN_FIELD_FRAMES))
    "field-frames" ++
  fail_if (negb (withinLimit (phaseMaxGap cycle) URANS_CLEAN_CYCLE_MAX_PHASE_GAP)) "phase-gap" ++
  fail_if (negb (finite (phaseShiftBins cycle) && is_integer (phaseShiftBins cycle) &&
                 on_num (fun x => PrimFloat.abs x <= URANS_CLEAN_CYCLE_MAX_PHASE_SHIFT_BINS)%js
                   (phaseShiftBins cycle))) "phase-shift" ++
  fail_if (match reasons cycle with JArr l => Nat.ltb 0 (length l) | _ => true end) "reasons" ++
  List.flat_map channelReasons [("cl", cl cycle); ("cd", cd cycle); ("cm", cm cycle)].

(** ** The policy on typed metrics *)

(** A finite number between zero and the limit, in exact order. *)
Definition bounded_metric (limit : jsnum) (v : jsval) : Prop :=
  exists x, v = JNum x /\ isFinite x = true /\ (0 <= ord x <= ord limit)%Z.

Definition nonnegative_metric (v : jsval) : Prop :=
  exists x, v = JNum x /\ isFinite x = true /\ (0 <= ord x)%Z.

(** An integer in the given range. *)
Definition integer_metric (lo hi : Z) (v : jsval) : Prop :=
  exists x z, v = JNum x /\ to_integer x = Some z /\ (lo <= z <= hi)%Z.

Definition clean_channel (c : ChannelQualityInput) : Prop :=
  bounded_metric URANS_CLEAN_CYCLE_MAX_SHAPE_NRMSE (shapeError c) /\
  bounded_metric URANS_CLEAN_CYCLE_MAX_AMPLITUDE_DEVIATION (amplitudeDeviation c) /\
  nonnegative_metric (highFrequency c).

Definition clean_cycle (c : SelectedCleanCycleQualityInput) : Prop :=
  integer_at_least 20 (coefficientSamples c) /\ integer_at_least 20 (fieldFrames c) /\
  bounded_metric URANS_CLEAN_CYCLE_MAX_PHASE_GAP (phaseMaxGap c) /\
  integer_metric (-4) 4 (phaseShiftBins c) /\
  reasons c = JArr [] /\
  clean_channel (cl c) /\ clean_channel (cd c) /\ clean_channel (cm c).

Lemma nonNegativeFinite_spec (v : jsval) :
  nonNegativeFinite v = true <-> nonnegative_metric v.
Proof.
  unfold nonNegativeFinite, nonnegative_metric. destruct v; cbn; try naive_solver.
  rewrite andb_true_iff. split.
  - intros [Hf Ho]. exists n. rewrite leb_finite, ord_0 in Ho by done. tauto.
  - intros (x & [= <-] & Hf & Ho). split; [done|]. by rewrite leb_finite, ord_0.
Qed.

Lemma withinLimit_spec (v : jsval) (limit : jsnum) :
  isNaN limit = false -> withinLimit v limit = true <-> bounded_metric limit v.
Proof.
  intros Hl. unfold withinLimit. rewrite andb_true_iff, nonNegativeFinite_spec.
  unfold nonnegative_metric, bounded_metric. split.
  - intros [(x & -> & Hf & Ho) Hx%leb_ord]. exists x. tauto.
  - intros (x & -> & Hf & Ho). split; [exists x; tauto|].
    apply leb_ord. rewrite isFinite_not_nan by done. tauto.
Qed.

Lemma abs_integer (x : jsnum) (z : Z) :
  to_integer x = Some z -> to_integer (PrimFloat.abs x) = Some (Z.abs z).
Proof.
  rewrite !to_integer_spec, !isFinite_ord, isNaN_abs, ord_abs. pose proof one_ord_pos.
  intros [[Hn Hx] Ho]. split; [split; [done|lia]|]. rewrite Ho, Z.abs_mul. lia.
Qed.

Lemma phaseShift_spec (v : jsval) :
  finite v && is_integer v &&
    on_num (fun x => PrimFloat.abs x <= URANS_CLEAN_CYCLE_MAX_PHASE_SHIFT_BINS)%js v = true <->
  integer_metric (-4) 4 v.
Proof.
  assert (H4 : to_integer URANS_CLEAN_CYCLE_MAX_PHASE_SHIFT_BINS = Some 4%Z)
    by (vm_compute; reflexivity).
  unfold integer_metric. rewrite !andb_true_iff. split.
  - destruct v as [| |b|n|s|l|o]; cbn [finite is_integer on_num].
    1-3,5-7: intros [[[=] _] _].
    intros [[_ [z Hz]%isInteger_spec] Hx]. exists n, z.
    rewrite (leb_integer _ _ _ _ (abs_integer _ _ Hz) H4) in Hx. split_conj; [done..|lia|lia].
  - intros (x & z & -> & Hz & Hx). cbn [finite is_integer on_num].
    assert (Hi : isInteger x = true) by (apply isInteger_spec; eauto).
    rewrite (leb_integer _ _ _ _ (abs_integer _ _ Hz) H4).
    split; [|lia]. split; [|exact Hi]. apply isInteger_finite, Hi.
Qed.

Lemma reasons_spec (v : jsval) :
  match v with JArr l => Nat.ltb 0 (length l) | _ => true end = false <-> v = JArr [].
Proof. destruct v as [| |b|n|s|[|]|o]; cbn; naive_solver. Qed.

Lemma channelReasons_spec (name : string) (c : ChannelQualityInput) :
  channelReasons (name, c) = [] <-> clean_channel c.
Proof.
  unfold channelReasons, clean_channel. rewrite check_spec.
  rewrite !negb_false_iff, !withinLimit_spec, nonNegativeFinite_spec by (vm_compute; reflexivity).
  done.
Qed.

Lemma selectedCleanCycleQualityReasons_spec (cycle : SelectedCleanCycleQualityInput) :
  selectedCleanCycleQualityReasons cycle = [] <-> clean_cycle cycle.
Proof.
  unfold selectedCleanCycleQualityReasons, clean_cycle.
  rewrite !app_nil, flat_map_nil, !Forall_cons_iff, !channelReasons_spec, !check_spec.
  rewrite !negb_false_iff, withinLimit_spec, phaseShift_spec, reasons_spec
    by (vm_compute; reflexivity).
  rewrite !(integerAtLeast_integer _ _ 20) by (vm_compute; reflexivity).
  pose proof (Forall_nil_2 (fun x => channelReasons x = [])). tauto.
Qed.

(** The policy reports no reason exactly for a clean cycle: integer sample
    and frame counts of at least twenty, a phase gap in [0, 0.1], an integer
    phase shift of at most four bins either way, an empty list of the engine's
    own reasons, and shape errors, amplitude deviations and high-frequency
    metrics within their limits. *)
Theorem selectedCleanCycleQualityReasons_clean (cycle : SelectedCleanCycleQualityInput) :
  selectedCleanCycleQualityReasons cycle = [] <-> clean_cycle cycle.
Proof. apply selectedCleanCycleQualityReasons_spec. Qed.
