(* ===== verification/UransCycle.v ===== *)
(** * The clean-cycle certificate ([packages/engine-client/src/urans-cycle-certificate.ts])

    The strict parser of the per-cycle verdicts.  Its loop over the cycles
    threads the end time of the previous cycle, the previous index, the set of
    selected indexes and the list of all indexes; that state is the record
    [loop_state].  The parser is proved to accept exactly the valid
    certificates, and a certified one is proved to select precisely its terminal
    run of [required_clean_cycles] consecutive clean cycles. *)

From Stdlib Require Import ZArith Lia Bool Ascii String.
From Stdlib Require Import Floats.
From stdpp Require Import base list strings option numbers.
From S2P Require Import Prelude JsNumber JsString JsValue Numeric UransCyclePolicy.

Local Open Scope string_scope.
Local Open Scope list_scope.

(** ** Data *)

Inductive UransCycleDisposition :=
  | selected | startup | hard_corrupt | settling_outlier | cadence_unresolved
  | numerically_noisy | insufficient_frames.

#[export] Instance disposition_eq_dec : EqDecision UransCycleDisposition.
Proof. solve_decision. Defined.

Definition disposition_label (d : UransCycleDisposition) : string :=
  match d with
  | selected => "selected"
  | startup => "startup"
  | hard_corrupt => "hard_corrupt"
  | settling_outlier => "settling_outlier"
  | cadence_unresolved => "cadence_unresolved"
  | numerically_noisy => "numerically_noisy"
  | insufficient_frames => "insufficient_frames"
  end.

Definition URANS_CYCLE_DISPOSITIONS : list string :=
  ["selected"; "startup"; "hard_corrupt"; "settling_outlier"; "cadence_unresolved";
   "numerically_noisy"; "insufficient_frames"].

Record UransCycleCertificateCycle := {
  index : jsnum;
  t_start : jsnum;
  t_end : jsnum;
  coefficient_samples : jsnum;
  field_frames : jsnum;
  phase_max_gap : jsnum;
  phase_shift_bins : jsnum;
  cl_mean : jsnum; cd_mean : jsnum; cm_mean : jsnum;
  cl_shape_error : jsnum; cd_shape_error : jsnum; cm_shape_error : jsnum;
  cl_amplitude_deviation : jsnum; cd_amplitude_deviation : jsnum;
  cm_amplitude_deviation : jsnum;
  cl_high_frequency : jsnum; cd_high_frequency : jsnum; cm_high_frequency : jsnum;
  disposition : UransCycleDisposition;
  reasons : list string;
}.

Record UransCycleCertificate := {
  reducer_version : string;
  period_s : jsnum;
  phase_samples : jsnum;
  required_clean_cycles : jsnum;
  terminal_clean_cycles : jsnum;
  selected_cycle_start_index : option jsnum;
  certified : bool;
  cadence_adjusted : bool;
  cycles : list UransCycleCertificateCycle;
}.

Definition CERTIFICATE_KEYS : list string :=
  ["reducer_version"; "period_s"; "phase_samples"; "required_clean_cycles";
   "terminal_clean_cycles"; "selected_cycle_start_index"; "certified"; "cadence_adjusted";
   "cycles"].

Definition CYCLE_KEYS : list string :=
  ["index"; "t_start"; "t_end"; "coefficient_samples"; "field_frames"; "phase_max_gap";
   "phase_shift_bins"; "cl_mean"; "cd_mean"; "cm_mean"; "cl_shape_error"; "cd_shape_error";
   "cm_shape_error"; "cl_amplitude_deviation"; "cd_amplitude_deviation";
   "cm_amplitude_deviation"; "cl_high_frequency"; "cd_high_frequency"; "cm_high_frequency";
   "disposition"; "reasons"].

Definition exactKeys := JsValue.exactKeys " (contract drift)".

(** ** One cycle *)

Record loop_state := {
  previousEnd : jsnum;
  previousCycleIndex : option jsnum;
  selectedIndexes : list jsnum;
  cycleIndexes : list jsnum;
}.

Definition initial : loop_state :=
  {| previousEnd := PrimFloat.neg_infinity; previousCycleIndex := None;
     selectedIndexes := []; cycleIndexes := [] |}.

(** [Set.has] and [Set.add] on numbers that are not NaN. *)
Definition set_has (s : list jsnum) (x : jsnum) : bool := List.existsb (PrimFloat.eqb x) s.
Definition set_add (s : list jsnum) (x : jsnum) : list jsnum :=
  if set_has s x then s else s ++ [x].

Definition nonnegativeIntegerKeys : list string :=
  ["index"; "coefficient_samples"; "field_frames"; "phase_shift_bins"].

Definition METRIC_KEYS : list string :=
  ["cl_shape_error"; "cd_shape_error"; "cm_shape_error"; "cl_amplitude_deviation";
   "cd_amplitude_deviation"; "cm_amplitude_deviation"; "cl_high_frequency";
   "cd_high_frequency"; "cm_high_frequency"].

Definition qualityInput (entry : record) : SelectedCleanCycleQualityInput :=
  {| coefficientSamples := get "coefficient_samples" entry;
     fieldFrames := get "field_frames" entry;
     phaseMaxGap := get "phase_max_gap" entry;
     phaseShiftBins := get "phase_shift_bins" entry;
     cl := {| shapeError := get "cl_shape_error" entry;
              amplitudeDeviation := get "cl_amplitude_deviation" entry;
              highFrequency := get "cl_high_frequency" entry |};
     cd := {| shapeError := get "cd_shape_error" entry;
              amplitudeDeviation := get "cd_amplitude_deviation" entry;
              highFrequency := get "cd_high_frequency" entry |};
     cm := {| shapeError := get "cm_shape_error" entry;
              amplitudeDeviation := get "cm_amplitude_deviation" entry;
              highFrequency := get "cm_high_frequency" entry |};
     UransCyclePolicy.reasons := get "reasons" entry |}.

(** [entry.index !== previousCycleIndex + 1] once an index has been seen. *)
Definition breaksContiguity (st : loop_state) (index : jsval) : bool :=
  match previousCycleIndex st with
  | Some p => negb (strict_eq_num index (p + 1)%float)
  | None => false
  end.

Definition timeErrors (st : loop_state) (at_ : string) (entry : record) : list string :=
  keyErrors (fun v => negb (finite v) || on_num (fun x => x < 0)%js v) entry at_
    ["t_start"; "t_end"] "expected non-negative finite number" ++
  fail_if (finite (get "t_start" entry) && finite (get "t_end" entry) &&
           on_num2 (fun e s => e <= s)%js (get "t_end" entry) (get "t_start" entry))
    (at_ +:+ ": t_end must be greater than t_start") ++
  fail_if (finite (get "t_start" entry) &&
           on_num (fun s => (s + 1e-12)%float < previousEnd st)%js (get "t_start" entry))
    (at_ +:+ ": cycles must be chronological and non-overlapping").

Definition metricErrors (at_ : string) (entry : record) : list string :=
  keyErrors (fun v => negb (finite v)) entry at_
    (["phase_max_gap"; "cl_mean"; "cd_mean"; "cm_mean"] ++ METRIC_KEYS)
    "expected finite number" ++
  fail_if (finite (get "phase_max_gap" entry) &&
           on_num (fun x => (x < 0) || (x > 1))%js (get "phase_max_gap" entry))
    (at_ +:+ ".phase_max_gap: expected number in [0, 1]") ++
  keyErrors (fun v => finite v && on_num (fun x => x < 0)%js v) entry at_ METRIC_KEYS
    "expected non-negative number".

(** [typeof d !== "string" || !URANS_CYCLE_DISPOSITIONS.includes(d)] *)
Definition knownDisposition (v : jsval) : bool :=
  match v with JStr s => mem s URANS_CYCLE_DISPOSITIONS | _ => false end.

(** [!Array.isArray(r) || r.some((reason) => typeof reason !== "string")] *)
Definition stringArray (v : jsval) : bool :=
  match v with JArr l => List.forallb typeof_string l | _ => false end.

Definition isSelected (entry : record) : bool :=
  is_str (get "disposition" entry) "selected" && integerAtLeast (get "index" entry) 0.

Definition entryErrors (st : loop_state) (at_ : string) (entry : record) : list string :=
  exactKeys entry CYCLE_KEYS at_ ++
  keyErrors (fun v => negb (integerAtLeast v 0)) entry at_ nonnegativeIntegerKeys
    "expected non-negative integer" ++
  fail_if (integerAtLeast (get "index" entry) 0 && breaksContiguity st (get "index" entry))
    (at_ +:+ ".index: cycles must have contiguous chronological indexes") ++
  timeErrors st at_ entry ++
  metricErrors at_ entry ++
  fail_if (negb (knownDisposition (get "disposition" entry)))
    (at_ +:+ ".disposition: unexpected value") ++
  fail_if (negb (stringArray (get "reasons" entry)))
    (at_ +:+ ".reasons: expected string array") ++
  when (isSelected entry)
    (List.map (fun reason =>
       at_ +:+ ": selected cycle violates clean-cycle policy (" +:+ reason +:+ ")")
       (selectedCleanCycleQualityReasons (qualityInput entry))).

(** The state the entry leaves for the next one. *)
Definition entryNext (st : loop_state) (entry : record) : loop_state :=
  let ok := integerAtLeast (get "index" entry) 0 in
  {| previousEnd :=
       match get "t_end" entry with
       | JNum e => if isFinite e then e else previousEnd st
       | _ => previousEnd st
       end;
     previousCycleIndex :=
       match get "index" entry with
       | JNum i => if ok then Some i else previousCycleIndex st
       | _ => previousCycleIndex st
       end;
     selectedIndexes :=
       match get "index" entry with
       | JNum i => if isSelected entry then set_add (selectedIndexes st) i
                   else selectedIndexes st
       | _ => selectedIndexes st
       end;
     cycleIndexes :=
       match get "index" entry with
       | JNum i => if ok then cycleIndexes st ++ [i] else cycleIndexes st
       | _ => cycleIndexes st
       end |}.

Fixpoint cycleLoop (st : loop_state) (i : nat) (entries : list jsval) :
    list string * loop_state :=
  match entries with
  | [] => ([], st)
  | entry :: rest =>
      let at_ := "urans_cycle_certificate.cycles[" +:+ string_of_nat i +:+ "]" in
      let '(errs, st') := match entry with
        | JObj o => (entryErrors st at_ o, entryNext st o)
        | _ => ([at_ +:+ ": expected object"], st)
        end in
      let '(errs', st'') := cycleLoop st' (S i) rest in
      (errs ++ errs', st'')
  end.

(** ** The certificate *)

(** [xs.indexOf(x)], [None] for -1. *)
Fixpoint indexOf (x : jsnum) (l : list jsnum) : option nat :=
  match l with
  | [] => None
  | y :: l' => if PrimFloat.eqb y x then Some O else option_map S (indexOf x l')
  end.

Definition suffixErrors (required terminal : jsval) (st : loop_state) (selectedStart : jsnum) :
    list string :=
  match indexOf selectedStart (cycleIndexes st) with
  | None => ["urans_cycle_certificate: certified result selected suffix is not present in cycles"]
  | Some startPosition =>
      let terminalIndexes := drop startPosition (cycleIndexes st) in
      let selectedAreTerminalSuffix :=
        Nat.ltb 0 (length terminalIndexes) &&
        strict_eq_num required (of_nat (length terminalIndexes)) &&
        List.forallb (set_has (selectedIndexes st)) terminalIndexes &&
        List.forallb (fun i => i >= selectedStart)%js (selectedIndexes st) in
      fail_if (negb selectedAreTerminalSuffix)
        "urans_cycle_certificate: selected cycles must be the exact contiguous terminal publication suffix" ++
      fail_if (negb (strict_eq_num required (of_nat (length (selectedIndexes st)))))
        "urans_cycle_certificate: selected terminal suffix length must equal required_clean_cycles" ++
      fail_if (js_lt (JNum (of_nat (length (cycleIndexes st)))) terminal)
        "urans_cycle_certificate: terminal_clean_cycles exceeds the audited cycle count"
  end.

Definition certifiedErrors (value : record) (st : loop_state) : list string :=
  let required := get "required_clean_cycles" value in
  let terminal := get "terminal_clean_cycles" value in
  let start := get "selected_cycle_start_index" value in
  fail_if (js_lt (JNum (of_nat (length (selectedIndexes st)))) required)
    "urans_cycle_certificate: certified result has too few selected cycles" ++
  fail_if (negb (integerAtLeast start 0) || negb (on_num (set_has (selectedIndexes st)) start))
    "urans_cycle_certificate: certified result has invalid selected_cycle_start_index" ++
  fail_if (js_lt terminal required)
    "urans_cycle_certificate: certified result has insufficient terminal_clean_cycles" ++
  when (integerAtLeast start 0)
    (match start with JNum s => suffixErrors required terminal st s | _ => [] end).

Definition cyclesErrors (value : record) : list string :=
  match get "cycles" value with
  | JArr entries =>
      let '(errs, st) := cycleLoop initial 0 entries in
      errs ++ when (is_true (get "certified" value)) (certifiedErrors value st)
  | _ => ["urans_cycle_certificate.cycles: expected array"]
  end.

Definition uransCycleErrors (value : record) : list string :=
  exactKeys value CERTIFICATE_KEYS "urans_cycle_certificate" ++
  fail_if (negb (nonBlank (get "reducer_version" value)))
    "urans_cycle_certificate.reducer_version: expected non-empty string" ++
  fail_if (negb (finite (get "period_s" value)) ||
           on_num (fun x => x <= 0)%js (get "period_s" value))
    "urans_cycle_certificate.period_s: expected positive finite number" ++
  fail_if (negb (integerAtLeast (get "phase_samples" value) 20) ||
           on_num (fun x => x > 512)%js (get "phase_samples" value))
    "urans_cycle_certificate.phase_samples: expected integer in [20, 512]" ++
  fail_if (negb (integerAtLeast (get "required_clean_cycles" value) 1))
    "urans_cycle_certificate.required_clean_cycles: expected positive integer" ++
  fail_if (negb (integerAtLeast (get "terminal_clean_cycles" value) 0))
    "urans_cycle_certificate.terminal_clean_cycles: expected non-negative integer" ++
  fail_if (negb (is_null (get "selected_cycle_start_index" value)) &&
           negb (integerAtLeast (get "selected_cycle_start_index" value) 0))
    "urans_cycle_certificate.selected_cycle_start_index: expected non-negative integer or null" ++
  fail_if (negb (typeof_boolean (get "certified" value)))
    "urans_cycle_certificate.certified: expected boolean" ++
  fail_if (negb (typeof_boolean (get "cadence_adjusted" value)))
    "urans_cycle_certificate.cadence_adjusted: expected boolean" ++
  cyclesErrors value.

Definition parseUransCycleCertificate (value : jsval) : parse_result :=
  match value with
  | JObj o => verdict value (uransCycleErrors o)
  | _ => Rejected ["urans_cycle_certificate: expected object, got " +:+ type_label value]
  end.

(** ** The typed contract *)

#[export] Instance repr_cycle : JsonRepr UransCycleCertificateCycle := fun c v =>
  exists o, v = JObj o /\ exact_keys CYCLE_KEYS o /\
    get "index" o = JNum (index c) /\ get "t_start" o = JNum (t_start c) /\
    get "t_end" o = JNum (t_end c) /\
    get "coefficient_samples" o = JNum (coefficient_samples c) /\
    get "field_frames" o = JNum (field_frames c) /\
    get "phase_max_gap" o = JNum (phase_max_gap c) /\
    get "phase_shift_bins" o = JNum (phase_shift_bins c) /\
    get "cl_mean" o = JNum (cl_mean c) /\ get "cd_mean" o = JNum (cd_mean c) /\
    get "cm_mean" o = JNum (cm_mean c) /\
    get "cl_shape_error" o = JNum (cl_shape_error c) /\
    get "cd_shape_error" o = JNum (cd_shape_error c) /\
    get "cm_shape_error" o = JNum (cm_shape_error c) /\
    get "cl_amplitude_deviation" o = JNum (cl_amplitude_deviation c) /\
    get "cd_amplitude_deviation" o = JNum (cd_amplitude_deviation c) /\
    get "cm_amplitude_deviation" o = JNum (cm_amplitude_deviation c) /\
    get "cl_high_frequency" o = JNum (cl_high_frequency c) /\
    get "cd_high_frequency" o = JNum (cd_high_frequency c) /\
    get "cm_high_frequency" o = JNum (cm_high_frequency c) /\
    get "disposition" o = JStr (disposition_label (disposition c)) /\
    get "reasons" o = JArr (List.map JStr (reasons c)).

(** The policy's view of a typed cycle. *)
Definition cycleQuality (c : UransCycleCertificateCycle) : SelectedCleanCycleQualityInput :=
  {| coefficientSamples := JNum (coefficient_samples c); fieldFrames := JNum (field_frames c);
     phaseMaxGap := JNum (phase_max_gap c); phaseShiftBins := JNum (phase_shift_bins c);
     cl := {| shapeError := JNum (cl_shape_error c);
              amplitudeDeviation := JNum (cl_amplitude_deviation c);
              highFrequency := JNum (cl_high_frequency c) |};
     cd := {| shapeError := JNum (cd_shape_error c);
              amplitudeDeviation := JNum (cd_amplitude_deviation c);
              highFrequency := JNum (cd_high_frequency c) |};
     cm := {| shapeError := JNum (cm_shape_error c);
              amplitudeDeviation := JNum (cm_amplitude_deviation c);
              highFrequency := JNum (cm_high_frequency c) |};
     UransCyclePolicy.reasons := JArr (List.map JStr (reasons c)) |}.

Definition cycle_ok (c : UransCycleCertificateCycle) : Prop :=
  (at_least 0 (index c) /\ at_least 0 (coefficient_samples c) /\
   at_least 0 (field_frames c) /\ at_least 0 (phase_shift_bins c)) /\
  (nonnegative (t_start c) /\ nonnegative (t_end c) /\ (ord (t_start c) < ord (t_end c))%Z) /\
  unit_interval (phase_max_gap c) /\
  (is_finite (cl_mean c) /\ is_finite (cd_mean c) /\ is_finite (cm_mean c)) /\
  (nonnegative (cl_shape_error c) /\ nonnegative (cd_shape_error c) /\
   nonnegative (cm_shape_error c) /\ nonnegative (cl_amplitude_deviation c) /\
   nonnegative (cd_amplitude_deviation c) /\ nonnegative (cm_amplitude_deviation c) /\
   nonnegative (cl_high_frequency c) /\ nonnegative (cd_high_frequency c) /\
   nonnegative (cm_high_frequency c)) /\
  (disposition c = selected -> clean_cycle (cycleQuality c)).

(** The cycle continues the chronology of the ones before it. *)
Definition follows (st : loop_state) (c : UransCycleCertificateCycle) : Prop :=
  match previousCycleIndex st with
  | Some p => PrimFloat.eqb (index c) (p + 1)%float = true
  | None => True
  end /\ ((t_start c + 1e-12)%float < previousEnd st)%js = false.

Definition next (st : loop_state) (c : UransCycleCertificateCycle) : loop_state :=
  {| previousEnd := t_end c;
     previousCycleIndex := Some (index c);
     selectedIndexes :=
       if decide (disposition c = selected) then set_add (selectedIndexes st) (index c)
       else selectedIndexes st;
     cycleIndexes := cycleIndexes st ++ [index c] |}.

Fixpoint chronology (st : loop_state) (cs : list UransCycleCertificateCycle) : Prop :=
  match cs with
  | [] => True
  | c :: cs' => cycle_ok c /\ follows st c /\ chronology (next st c) cs'
  end.

Definition final (cs : list UransCycleCertificateCycle) : loop_state := fold_left next cs initial.

(** ** The parser of one cycle meets it *)

Lemma unit_interval_num (v : jsval) :
  negb (finite v) = false ->
  finite v && on_num (fun x => (x < 0) || (x > 1))%js v = false <-> num_with unit_interval v.
Proof.
  rewrite not_finite_num. unfold num_with, unit_interval, is_finite. intros (x & -> & Hf). cbn.
  rewrite Hf. cbn [andb]. rewrite orb_false_iff, !ltb_finite_false by done. rewrite ord_0.
  naive_solver.
Qed.

Lemma metricErrors_spec (at_ : string) (o : record) :
  metricErrors at_ o = [] <->
  num_with unit_interval (get "phase_max_gap" o) /\
  Forall (fun k => num_with is_finite (get k o)) ["cl_mean"; "cd_mean"; "cm_mean"] /\
  Forall (fun k => num_with nonnegative (get k o)) METRIC_KEYS.
Proof.
  unfold metricErrors. rewrite !app_nil, fail_if_nil.
  rewrite (keyErrors_spec _ _ _ _ _ _ not_finite_num), List.Forall_app, Forall_cons_iff.
  rewrite <- not_finite_num at 1.
  assert (Hm : Forall (fun k => num_with is_finite (get k o)) METRIC_KEYS ->
    keyErrors (fun v => finite v && on_num (fun x => x < 0)%js v) o at_ METRIC_KEYS
      "expected non-negative number" = [] <->
    Forall (fun k => num_with nonnegative (get k o)) METRIC_KEYS).
  { intros Hf. unfold keyErrors. rewrite check_spec, !List.Forall_forall in *.
    split; intros H k Hin; specialize (H k Hin); specialize (Hf k Hin).
    - apply nonnegative_num, orb_false_iff. apply not_finite_num in Hf. split; [done|].
      apply negb_false_iff in Hf. rewrite Hf in H. exact H.
    - apply nonnegative_num, orb_false_iff in H as [_ H]. rewrite H. apply andb_false_r. }
  assert (Hn : Forall (fun k => num_with nonnegative (get k o)) METRIC_KEYS ->
    Forall (fun k => num_with is_finite (get k o)) METRIC_KEYS).
  { apply List.Forall_impl. intros k (x & ? & ? & ?). exists x. done. }
  pose proof (unit_interval_num (get "phase_max_gap" o)).
  assert (num_with unit_interval (get "phase_max_gap" o) ->
    negb (finite (get "phase_max_gap" o)) = false).
  { intros (x & -> & Hf & _). cbn. by rewrite Hf. }
  tauto.
Qed.

Lemma timeErrors_spec (st : loop_state) (at_ : string) (o : record) :
  timeErrors st at_ o = [] <->
  exists s e, get "t_start" o = JNum s /\ get "t_end" o = JNum e /\
    nonnegative s /\ nonnegative e /\ (ord s < ord e)%Z /\
    ((s + 1e-12)%float < previousEnd st)%js = false.
Proof.
  unfold timeErrors. rewrite !app_nil, !fail_if_nil.
  rewrite (keyErrors_spec _ _ _ _ _ _ nonnegative_num), !Forall_cons_iff. split.
  - intros (((s & Es & [Hs Hs0]) & (e & Ee & [He He0]) & _) & H1 & H2). rewrite Es, Ee in *.
    cbn in *. rewrite Hs, He in *. cbn [andb] in *. rewrite leb_finite_false in H1 by done.
    by exists s, e.
  - intros (s & e & -> & -> & [Hs Hs0] & [He He0] & Hlt & Hprev). cbn.
    rewrite Hs, He. cbn [andb]. rewrite leb_finite_false by done.
    split; [|done]. split; [exists s; done|]. split; [exists e; done|]. apply Forall_nil_2.
Qed.

Lemma knownDisposition_spec (v : jsval) :
  negb (knownDisposition v) = false <-> exists d, v = JStr (disposition_label d).
Proof.
  rewrite negb_false_iff. split.
  - destruct v; cbn [knownDisposition]; try discriminate.
    rewrite mem_spec. cbn [In URANS_CYCLE_DISPOSITIONS]. intros Hin.
    destruct_or! Hin; subst;
      [exists selected|exists startup|exists hard_corrupt|exists settling_outlier
      |exists cadence_unresolved|exists numerically_noisy|exists insufficient_frames]; done.
  - intros [[] ->]; done.
Qed.

Lemma stringArray_spec (v : jsval) :
  negb (stringArray v) = false <-> exists rs, v = JArr (List.map JStr rs).
Proof.
  rewrite negb_false_iff. split.
  - destruct v as [| |b|n|s|l|o]; cbn [stringArray]; try discriminate. intros H.
    induction l as [|x l IH]; [by exists []|]. cbn in H. apply andb_true_iff in H as [Hx Hl].
    destruct (IH Hl) as [rs [= ->]]. destruct x as [| |b|n|s|l'|o]; try discriminate.
    by exists (s :: rs).
  - intros [rs ->]. cbn. by induction rs.
Qed.

Lemma disposition_label_selected (d : UransCycleDisposition) :
  String.eqb (disposition_label d) "selected" = bool_decide (d = selected).
Proof. by destruct d. Qed.

Lemma contiguity_spec (st : loop_state) (x : jsnum) :
  breaksContiguity st (JNum x) = false <->
  match previousCycleIndex st with
  | Some p => PrimFloat.eqb x (p + 1)%float = true
  | None => True
  end.
Proof.
  unfold breaksContiguity. destruct (previousCycleIndex st); [|done].
  cbn. by rewrite negb_false_iff.
Qed.

Lemma isSelected_spec (o : record) (c : UransCycleCertificateCycle) :
  at_least 0 (index c) -> get "index" o = JNum (index c) ->
  get "disposition" o = JStr (disposition_label (disposition c)) ->
  isSelected o = bool_decide (disposition c = selected).
Proof.
  intros Hi Ei Ed. unfold isSelected. rewrite Ei, Ed, (at_least_0 _ Hi). cbn [is_str].
  rewrite disposition_label_selected. apply andb_true_r.
Qed.

Lemma qualityInput_repr (o : record) (c : UransCycleCertificateCycle) :
  represents c (JObj o) -> qualityInput o = cycleQuality c.
Proof.
  intros (o' & [= <-] & _ & Hr). destruct_and! Hr. unfold qualityInput, cycleQuality.
  by rewrite_gets.
Qed.

Lemma selected_policy_spec (at_ : string) (o : record) (c : UransCycleCertificateCycle) :
  at_least 0 (index c) -> represents c (JObj o) ->
  when (isSelected o)
    (List.map (fun reason =>
       at_ +:+ ": selected cycle violates clean-cycle policy (" +:+ reason +:+ ")")
       (selectedCleanCycleQualityReasons (qualityInput o))) = [] <->
  (disposition c = selected -> clean_cycle (cycleQuality c)).
Proof.
  intros Hi Hr. rewrite when_nil, (qualityInput_repr o c Hr).
  destruct Hr as (o' & [= <-] & _ & Hr). destruct_and! Hr.
  rewrite (isSelected_spec o c) by done. rewrite bool_decide_eq_true.
  rewrite <- selectedCleanCycleQualityReasons_spec.
  destruct (selectedCleanCycleQualityReasons _); cbn; naive_solver.
Qed.

Ltac open_nums :=
  open_nums_with ltac:(fun H => unfold METRIC_KEYS, nonnegativeIntegerKeys in H).

Lemma entryErrors_sound (st : loop_state) (at_ : string) (o : record) :
  entryErrors st at_ o = [] ->
  exists c : UransCycleCertificateCycle, represents c (JObj o) /\ cycle_ok c /\ follows st c.
Proof.
  unfold entryErrors, exactKeys. rewrite !app_nil, !fail_if_nil, exactKeys_nil.
  rewrite (keyErrors_spec _ _ _ _ _ _ (fun v => at_least_num v _ _ to_integer_0)).
  rewrite timeErrors_spec, metricErrors_spec, knownDisposition_spec, stringArray_spec.
  intros (Hk & Hint & Hcont & Htime & Hmet & [d Hd] & [rs Hrs] & Hsel). open_nums.
  eassert (Hr : represents (Build_UransCycleCertificateCycle _ _ _ _ _ _ _ _ _ _ _ _ _ _ _ _ _ _
    _ d rs) (JObj o)) by (exists o; cbn; split_conj; eassumption || done).
  pose proof (fun Hi => proj1 (selected_policy_spec at_ o _ Hi Hr) Hsel) as Hclean.
  cbn [index] in Hclean. specialize (Hclean ltac:(assumption)).
  eexists. split; [exact Hr|]. split.
  - unfold cycle_ok. cbn [index t_start t_end coefficient_samples field_frames phase_max_gap
      phase_shift_bins cl_mean cd_mean cm_mean cl_shape_error cd_shape_error cm_shape_error
      cl_amplitude_deviation cd_amplitude_deviation cm_amplitude_deviation cl_high_frequency
      cd_high_frequency cm_high_frequency] in *.
    split_conj; assumption.
  - split; cbn; [|assumption]. rewrite_gets. apply contiguity_spec.
    match goal with H : at_least 0 ?x, H' : integerAtLeast (JNum ?x) 0 && _ = false |- _ =>
      rewrite (at_least_0 x H) in H'; exact H' end.
Qed.

Lemma entryErrors_complete (st : loop_state) (at_ : string) (o : record)
    (c : UransCycleCertificateCycle) :
  represents c (JObj o) -> cycle_ok c -> follows st c -> entryErrors st at_ o = [].
Proof.
  intros Hr Hok Hf. pose proof Hok as (Hi & Ht & Hg & Hm & Hn & Hsel).
  assert (Hr' := Hr). destruct Hr' as (o' & [= <-] & Hk & Hg').
  destruct Hi as (Hi & ?). destruct Hf as [Hf1 Hf2]. destruct_and! Hg'. destruct_and! Ht.
  unfold entryErrors, exactKeys. rewrite !app_nil, !fail_if_nil, exactKeys_nil.
  rewrite (keyErrors_spec _ _ _ _ _ _ (fun v => at_least_num v _ _ to_integer_0)).
  rewrite timeErrors_spec, metricErrors_spec, knownDisposition_spec, stringArray_spec.
  rewrite (selected_policy_spec at_ o c) by done. destruct_and! Hm. destruct_and! Hn.
  split_conj; try done.
  - unfold nonnegativeIntegerKeys. close_nums; tauto.
  - rewrite_gets. rewrite (at_least_0 _ Hi). cbn [andb]. by apply contiguity_spec.
  - by exists (t_start c), (t_end c).
  - close_nums.
  - close_nums.
  - unfold METRIC_KEYS. close_nums.
  - eauto.
  - eauto.
Qed.

Lemma entryNext_repr (st : loop_state) (o : record) (c : UransCycleCertificateCycle) :
  represents c (JObj o) -> cycle_ok c -> entryNext st o = next st c.
Proof.
  intros (o' & [= <-] & Hk & Hg) ((Hi & _) & (_ & [He _] & _) & _). destruct_and! Hg.
  unfold entryNext, next. rewrite (isSelected_spec o c) by done. rewrite_gets.
  rewrite (at_least_0 _ Hi), He. by case_bool_decide; case_decide.
Qed.

(** ** The loop meets the chronology *)

Lemma cycleLoop_sound (entries : list jsval) : forall (st : loop_state) (i : nat),
  fst (cycleLoop st i entries) = [] ->
  exists cs : list UransCycleCertificateCycle, Forall2 represents cs entries /\ chronology st cs /\
    snd (cycleLoop st i entries) = fold_left next cs st.
Proof.
  induction entries as [|v entries IH]; intros st i; cbn [cycleLoop].
  - intros _. exists []. by repeat constructor.
  - destruct v as [| |b|n|s|l|o]; cbn zeta;
      match goal with |- context [cycleLoop ?st' (S i) entries] =>
        specialize (IH st' (S i)); destruct (cycleLoop st' (S i) entries) as [errs st'']
      end; cbn [fst snd] in *; try discriminate.
    intros [Ho Hrest]%app_nil. apply entryErrors_sound in Ho as (c & Hr & Hok & Hf).
    destruct (IH Hrest) as (cs & Hcs & Hch & Hst).
    rewrite (entryNext_repr st o c Hr Hok) in Hch, Hst.
    exists (c :: cs). split; [by constructor|]. split; [done|exact Hst].
Qed.

Lemma cycleLoop_complete (entries : list jsval) (cs : list UransCycleCertificateCycle) :
  Forall2 represents cs entries -> forall (st : loop_state) (i : nat), chronology st cs ->
  cycleLoop st i entries = ([], fold_left next cs st).
Proof.
  induction 1 as [|c v cs entries Hr _ IH]; intros st i; [done|].
  intros (Hok & Hf & Hch). cbn [cycleLoop]. assert (Hv := Hr). destruct Hv as (o & -> & _).
  rewrite (entryErrors_complete _ _ o c Hr Hok Hf), (entryNext_repr st o c Hr Hok).
  by rewrite (IH _ (S i) Hch).
Qed.

(** ** The contract of the certificate *)

#[export] Instance repr_certificate : JsonRepr UransCycleCertificate := fun c v =>
  exists o, v = JObj o /\ exact_keys CERTIFICATE_KEYS o /\
    get "reducer_version" o = JStr (reducer_version c) /\
    get "period_s" o = JNum (period_s c) /\ get "phase_samples" o = JNum (phase_samples c) /\
    get "required_clean_cycles" o = JNum (required_clean_cycles c) /\
    get "terminal_clean_cycles" o = JNum (terminal_clean_cycles c) /\
    represents (selected_cycle_start_index c) (get "selected_cycle_start_index" o) /\
    get "certified" o = JBool (certified c) /\
    get "cadence_adjusted" o = JBool (cadence_adjusted c) /\
    represents (cycles c) (get "cycles" o).

(** The publication conditions of a certified result, in the code's terms. *)
Definition certified_ok (c : UransCycleCertificate) : Prop :=
  certifiedErrors
    [("required_clean_cycles", JNum (required_clean_cycles c));
     ("terminal_clean_cycles", JNum (terminal_clean_cycles c));
     ("selected_cycle_start_index",
        match selected_cycle_start_index c with Some s => JNum s | None => JNull end)]
    (final (cycles c)) = [].

#[export] Instance valid_certificate : Valid UransCycleCertificate := fun c =>
  nonempty (trim (reducer_version c)) = true /\
  (isFinite (period_s c) = true /\ (0 < ord (period_s c))%Z) /\
  (exists z, to_integer (phase_samples c) = Some z /\ (20 <= z <= 512)%Z) /\
  at_least 1 (required_clean_cycles c) /\ at_least 0 (terminal_clean_cycles c) /\
  match selected_cycle_start_index c with Some s => at_least 0 s | None => True end /\
  chronology initial (cycles c) /\
  (certified c = true -> certified_ok c).

Lemma phaseSamples_num (v : jsval) :
  negb (integerAtLeast v 20) || on_num (fun x => x > 512)%js v = false <->
  num_with (fun x => exists z, to_integer x = Some z /\ (20 <= z <= 512)%Z) v.
Proof.
  assert (H20 : to_integer 20%float = Some 20%Z) by (vm_compute; reflexivity).
  assert (H512 : to_integer 512%float = Some 512%Z) by (vm_compute; reflexivity).
  rewrite orb_false_iff, (at_least_num v _ _ H20). unfold num_with, at_least. split.
  - intros [(x & -> & z & Hz & Hlo) Hhi]. cbn [on_num] in Hhi.
    rewrite (ltb_integer _ _ _ _ H512 Hz) in Hhi. exists x. split; [done|]. exists z.
    split; [exact Hz|lia].
  - intros (x & -> & z & Hz & Hlo). cbn [on_num].
    rewrite (ltb_integer _ _ _ _ H512 Hz). split; [|lia].
    exists x. split; [done|]. exists z. split; [exact Hz|lia].
Qed.

Lemma optional_index_num (v : jsval) :
  negb (is_null v) && negb (integerAtLeast v 0) = false <->
  exists o : option jsnum, represents o v /\ match o with Some s => at_least 0 s | None => True end.
Proof.
  assert (Hnum : negb (integerAtLeast v 0) = false <-> num_with (at_least 0) v)
    by (apply at_least_num, to_integer_0).
  rewrite andb_false_iff, Hnum, negb_false_iff. unfold num_with, represents, repr_option. split.
  - intros [H|(x & -> & H)].
    + destruct v; try discriminate. by exists None.
    + by exists (Some x).
  - intros ([x|] & Hr & H); [right|left; by rewrite Hr]. exists x. done.
Qed.

Lemma certifiedErrors_ext (o o' : record) (st : loop_state) :
  get "required_clean_cycles" o = get "required_clean_cycles" o' ->
  get "terminal_clean_cycles" o = get "terminal_clean_cycles" o' ->
  get "selected_cycle_start_index" o = get "selected_cycle_start_index" o' ->
  certifiedErrors o st = certifiedErrors o' st.
Proof. intros H1 H2 H3. unfold certifiedErrors. by rewrite H1, H2, H3. Qed.

Lemma certified_ok_record (o : record) (c : UransCycleCertificate) :
  represents c (JObj o) -> certifiedErrors o (final (cycles c)) = [] <-> certified_ok c.
Proof.
  intros (o' & [= <-] & _ & Hg). destruct_and! Hg. unfold certified_ok.
  match goal with |- _ <-> certifiedErrors ?o' _ = [] =>
    rewrite (certifiedErrors_ext o o' (final (cycles c))) end; [done|by rewrite_gets..|].
  unfold represents, repr_option in *. by destruct (selected_cycle_start_index c).
Qed.

Lemma uransCycleErrors_spec (o : record) :
  uransCycleErrors o = [] <-> conforms UransCycleCertificate (JObj o).
Proof.
  assert (H1 := to_integer_1). assert (H0 := to_integer_0).
  unfold uransCycleErrors, exactKeys. rewrite !app_nil, !fail_if_nil, exactKeys_nil.
  rewrite nonBlank_spec, positive_num, phaseSamples_num, (at_least_num _ _ _ H1),
    (at_least_num _ _ _ H0), optional_index_num, !boolean_num. unfold cyclesErrors. split.
  - intros (Hk & (rv & Erv & Hrv) & (ps & Eps & Hps) & (phs & Ephs & Hphs) &
      (req & Ereq & Hreq) & (term & Eterm & Hterm) & (si & Esi & Hsi) & [ce Ece] & [ca Eca] & Hcy).
    destruct (get "cycles" o) as [| |b|n|s|entries|o'] eqn:Ecy.
    1-5,7: discriminate Hcy.
    pose proof (cycleLoop_sound entries initial 0) as Hloop.
    destruct (cycleLoop initial 0 entries) as [errs st].
    apply app_nil in Hcy as [-> Hcert]. rewrite Ece, when_nil in Hcert.
    destruct (Hloop eq_refl) as (cs & Hcs & Hch & Hst). cbn in Hst.
    set (c := Build_UransCycleCertificate rv ps phs req term si ce ca cs).
    assert (Hr : represents c (JObj o)).
    { exists o. repeat (split; [eassumption || reflexivity|]). exists entries. by split. }
    assert (Hpub : ce = true -> certified_ok c).
    { intros ->. apply (certified_ok_record o c Hr). unfold final. cbn [c cycles].
      rewrite <- Hst. by apply Hcert. }
    exists c. split; [exact Hr|]. exact (conj Hrv (conj Hps (conj Hphs (conj Hreq (conj Hterm (conj Hsi
      (conj Hch Hpub))))))).
  - intros (c & Hr & Hv). hnf in Hv.
    destruct Hv as (Hrv & Hp & Hps & Hreq & Hterm & Hsi & Hch & Hcert).
    pose proof (certified_ok_record o c Hr) as Hok.
    destruct Hr as (o' & [= <-] & Hk & Hg). destruct_and! Hg.
    match goal with H : represents (cycles c) _ |- _ => destruct H as (entries & -> & Hcs) end.
    rewrite (cycleLoop_complete _ _ Hcs _ _ Hch). cbn [app]. rewrite when_nil.
    repeat (split; [solve [eassumption | eexists; split; eassumption | eexists; eassumption]|]).
    rewrite_gets. intros Hc%Hcert. by apply Hok.
Qed.

(** The parser accepts a value exactly when it is the JSON form of a valid
    clean-cycle certificate: well-formed cycles with contiguous indexes in
    chronological order, every selected cycle clean, and, when it is marked
    certified, the publication conditions on the selected suffix. *)
Theorem parseUransCycleCertificate_contract (v : jsval) :
  accepted (parseUransCycleCertificate v) = true <-> conforms UransCycleCertificate v.
Proof.
  destruct v as [| |b|n|s|l|o]; try (split; [done|intros ([] & (o & ? & _) & _); done]).
  cbn [parseUransCycleCertificate]. rewrite <- uransCycleErrors_spec. apply accepted_nil.
Qed.

(** ** What a certified result publishes *)

Definition has_index (c : UransCycleCertificateCycle) (z : Z) : Prop :=
  to_integer (index c) = Some z.

Lemma chronology_ok (cs : list UransCycleCertificateCycle) : forall st,
  chronology st cs -> Forall cycle_ok cs.
Proof. induction cs as [|c cs IH]; intros st; cbn; [constructor|]. intros (? & ? & ?). eauto. Qed.

Lemma chronology_indexes_from (cs : list UransCycleCertificateCycle) :
  forall (st : loop_state) (p : jsnum) (a : Z),
  chronology st cs -> Forall (fun c => isSafeInteger (index c) = true) cs ->
  previousCycleIndex st = Some p -> to_integer p = Some a -> (Z.abs (a + 1) <= 2 ^ 53)%Z ->
  Forall2 has_index cs (seqZ (a + 1) (Z.of_nat (length cs))).
Proof.
  induction cs as [|c cs IH]; intros st p a Hch Hsafe Hp Ha Hlim; [constructor|].
  destruct Hch as ((((z & Hz & _) & _) & _) & [Hf _] & Hch). rewrite Hp in Hf.
  apply Forall_cons_iff in Hsafe as [(z' & Hz' & Hmax)%isSafeInteger_spec Hsafe].
  assert (z' = z) as -> by congruence.
  rewrite (eqb_integer _ _ _ _ Hz (add_integer _ _ _ _ Ha to_integer_1 Hlim)) in Hf.
  apply Z.eqb_eq in Hf as ->. cbn [length]. rewrite Nat2Z.inj_succ, seqZ_cons by lia.
  constructor; [exact Hz|]. replace (Z.pred (Z.succ (Z.of_nat (length cs)))) with (Z.of_nat (length cs)) by lia.
  apply (IH (next st c) (index c)); [exact Hch|exact Hsafe|reflexivity|exact Hz|lia].
Qed.

Lemma chronology_indexes (cs : list UransCycleCertificateCycle) :
  chronology initial cs -> Forall (fun c => isSafeInteger (index c) = true) cs ->
  exists z0, (0 <= z0)%Z /\ Forall2 has_index cs (seqZ z0 (Z.of_nat (length cs))).
Proof.
  destruct cs as [|c cs]; intros Hch Hsafe; [exists 0%Z; by repeat constructor|].
  destruct Hch as ((((z & Hz & Hz0) & _) & _) & _ & Hch).
  apply Forall_cons_iff in Hsafe as [(z' & Hz' & Hmax)%isSafeInteger_spec Hsafe].
  assert (z' = z) as -> by congruence. exists z. split; [exact Hz0|].
  cbn [length]. rewrite Nat2Z.inj_succ, seqZ_cons by lia. constructor; [exact Hz|].
  replace (Z.succ z) with (z + 1)%Z by lia.
  replace (Z.pred (Z.succ (Z.of_nat (length cs)))) with (Z.of_nat (length cs)) by lia.
  apply (chronology_indexes_from cs (next initial c) (index c));
    [exact Hch|exact Hsafe|reflexivity|exact Hz|lia].
Qed.

Lemma eqb_trans (x y z : jsnum) :
  PrimFloat.eqb x y = true -> PrimFloat.eqb z y = true -> PrimFloat.eqb x z = true.
Proof. rewrite !eqb_ord. intros (? & ? & ?) (? & ? & ?). split_conj; congruence. Qed.

Lemma set_has_spec (s : list jsnum) (x : jsnum) :
  set_has s x = true <-> exists y, In y s /\ PrimFloat.eqb x y = true.
Proof. apply existsb_exists. Qed.

Lemma set_has_add (s : list jsnum) (x y : jsnum) :
  set_has (set_add s y) x = true <-> set_has s x = true \/ PrimFloat.eqb x y = true.
Proof.
  unfold set_add. destruct (set_has s y) eqn:E.
  - split; [auto|]. intros [H|H]; [done|]. apply set_has_spec in E as (w & Hw & Ew).
    apply set_has_spec. exists w. split; [done|].
    apply (eqb_trans _ y); [exact H|]. rewrite eqb_ord in *. intuition congruence.
  - unfold set_has. rewrite existsb_app. cbn. rewrite orb_false_r. apply orb_true_iff.
Qed.

Lemma final_cycleIndexes (cs : list UransCycleCertificateCycle) : forall st,
  cycleIndexes (fold_left next cs st) = cycleIndexes st ++ List.map index cs.
Proof.
  induction cs as [|c cs IH]; intros st; cbn [fold_left List.map]; [by rewrite app_nil_r|].
  rewrite IH. cbn [next cycleIndexes]. by rewrite <- app_assoc.
Qed.

Lemma final_selected (cs : list UransCycleCertificateCycle) (x : jsnum) : forall st,
  set_has (selectedIndexes (fold_left next cs st)) x = true <->
  set_has (selectedIndexes st) x = true \/
  exists c, In c cs /\ disposition c = selected /\ PrimFloat.eqb x (index c) = true.
Proof.
  induction cs as [|c cs IH]; intros st; cbn [fold_left In]; [naive_solver|].
  rewrite IH. cbn [next selectedIndexes]. case_decide as Hd; [rewrite set_has_add|]; clear IH.
  - firstorder (subst; auto).
  - split; [firstorder auto|]. intros [H|(d & [<-|Hd'] & H)]; [by left| |right; eauto].
    tauto.
Qed.

Lemma indexOf_lookup (x : jsnum) (l : list jsnum) : forall p,
  indexOf x l = Some p -> exists y, l !! p = Some y /\ PrimFloat.eqb y x = true.
Proof.
  induction l as [|y l IH]; intros p; cbn; [done|]. destruct (PrimFloat.eqb y x) eqn:E.
  - intros [= <-]. by exists y.
  - destruct (indexOf x l) as [q|]; [|done]. intros [= <-]. cbn. auto.
Qed.

(** The certified result: the last [required_clean_cycles] cycles, and only
    they, are selected; each is clean; the stamped start is the first of them;
    and the terminal run is at least as long, and within the audited cycles. *)
Definition publishes_suffix (c : UransCycleCertificate) : Prop :=
  exists pre suf s first t,
    cycles c = pre ++ suf /\
    to_integer (required_clean_cycles c) = Some (Z.of_nat (length suf)) /\
    Forall (fun x => disposition x = selected /\ clean_cycle (cycleQuality x)) suf /\
    Forall (fun x => disposition x <> selected) pre /\
    head suf = Some first /\ selected_cycle_start_index c = Some s /\
    PrimFloat.eqb (index first) s = true /\
    to_integer (terminal_clean_cycles c) = Some t /\
    (Z.of_nat (length suf) <= t <= Z.of_nat (length (cycles c)))%Z.

Section Certified.
Context (cs : list UransCycleCertificateCycle) (z0 : Z).
Hypothesis Hidx : Forall2 has_index cs (seqZ z0 (Z.of_nat (length cs))).
Let st := final cs.

Lemma lookup_index (i : nat) (c : UransCycleCertificateCycle) :
  cs !! i = Some c -> has_index c (z0 + Z.of_nat i).
Proof.
  intros Hi. destruct (Forall2_lookup_l _ _ _ _ _ Hidx Hi) as (z & Hz & Hc).
  apply lookup_seqZ in Hz as [-> _]. exact Hc.
Qed.

Lemma same_index (i j : nat) (c d : UransCycleCertificateCycle) :
  cs !! i = Some c -> cs !! j = Some d -> PrimFloat.eqb (index c) (index d) = true -> i = j.
Proof.
  intros Hi%lookup_index Hj%lookup_index. rewrite (eqb_integer _ _ _ _ Hi Hj). lia.
Qed.

Lemma selected_member (i : nat) (c : UransCycleCertificateCycle) :
  cs !! i = Some c -> set_has (selectedIndexes st) (index c) = true -> disposition c = selected.
Proof.
  intros Hi Hs. apply final_selected in Hs as [Hs|(d & Hd & Hsel & Heq)]; [done|].
  apply list_elem_of_In, list_elem_of_lookup in Hd as [j Hj].
  assert (i = j) as -> by (eapply same_index; eassumption). congruence.
Qed.

Lemma selected_after (s : jsnum) (i p : nat) (c first : UransCycleCertificateCycle) :
  cs !! i = Some c -> cs !! p = Some first -> PrimFloat.eqb (index first) s = true ->
  List.forallb (fun x => x >= s)%js (selectedIndexes st) = true ->
  disposition c = selected -> (p <= i)%nat.
Proof.
  intros Hi Hp Hs Hall Hsel.
  assert (Hhas : set_has (selectedIndexes st) (index c) = true).
  { apply final_selected. right. exists c. split; [|split; [done|]].
    - by apply list_elem_of_lookup_2, list_elem_of_In in Hi.
    - rewrite (eqb_integer _ _ _ _ (lookup_index _ _ Hi) (lookup_index _ _ Hi)). lia. }
  apply set_has_spec in Hhas as (y & Hy & Heq). rewrite forallb_forall in Hall.
  specialize (Hall y Hy). rewrite leb_ord in Hall. rewrite eqb_ord in Hs, Heq.
  pose proof (leb_integer _ _ _ _ (lookup_index _ _ Hp) (lookup_index _ _ Hi)) as Hle.
  destruct (z0 + Z.of_nat p <=? z0 + Z.of_nat i)%Z eqn:E; [lia|exfalso].
  assert (PrimFloat.leb (index first) (index c) = true); [|congruence].
  apply leb_ord. split_conj; try tauto. lia.
Qed.

Lemma terminal_run (p : nat) (s : jsnum) (first : UransCycleCertificateCycle) :
  cs !! p = Some first -> PrimFloat.eqb (index first) s = true ->
  List.forallb (set_has (selectedIndexes st)) (drop p (List.map index cs)) = true ->
  List.forallb (fun x => x >= s)%js (selectedIndexes st) = true ->
  Forall (fun x => disposition x = selected) (drop p cs) /\
  Forall (fun x => disposition x <> selected) (take p cs).
Proof.
  intros Hp Hs Hin Hall. split; apply Forall_lookup; intros i c Hi.
  - rewrite lookup_drop in Hi. apply (selected_member (p + i) c Hi).
    rewrite forallb_forall in Hin. apply Hin. rewrite skipn_map. apply in_map.
    apply list_elem_of_In, list_elem_of_lookup. exists i. by rewrite lookup_drop.
  - apply lookup_take_Some in Hi as [Hi Hlt]. intros Hsel.
    pose proof (selected_after s i p c first Hi Hp Hs Hall Hsel). lia.
Qed.

(** Safe indexes bound the number of cycles. *)
Lemma index_count :
  (0 <= z0)%Z -> Forall (fun c => isSafeInteger (index c) = true) cs ->
  (Z.of_nat (length cs) <= 2 ^ 53)%Z.
Proof.
  intros Hz0 Hsafe. destruct (cs !! pred (length cs)) as [c|] eqn:Hl.
  - pose proof (lookup_index _ _ Hl) as Hc.
    pose proof (Forall_lookup_1 _ _ _ _ Hsafe Hl) as Hs. cbn beta in Hs.
    apply isSafeInteger_spec in Hs as (a & Ha & Hmax). unfold has_index in Hc.
    rewrite Hc in Ha. injection Ha as <-. lia.
  - apply lookup_ge_None in Hl. lia.
Qed.
End Certified.

(** The conditions the code checks on a certified result, one by one. *)
Lemma certified_ok_spec (c : UransCycleCertificate) :
  certified_ok c ->
  exists s p, selected_cycle_start_index c = Some s /\
    indexOf s (List.map index (cycles c)) = Some p /\
    strict_eq_num (JNum (required_clean_cycles c)) (of_nat (length (drop p (cycles c)))) = true /\
    List.forallb (set_has (selectedIndexes (final (cycles c))))
      (drop p (List.map index (cycles c))) = true /\
    List.forallb (fun x => x >= s)%js (selectedIndexes (final (cycles c))) = true /\
    (terminal_clean_cycles c < required_clean_cycles c)%js = false /\
    (of_nat (length (cycles c)) < terminal_clean_cycles c)%js = false.
Proof.
  unfold certified_ok, certifiedErrors. cbn [get String.eqb Ascii.eqb Bool.eqb andb].
  rewrite !app_nil, !fail_if_nil, when_nil. intros (_ & Hs & Htr & Hsuf).
  destruct (selected_cycle_start_index c) as [s|]; [|discriminate Hs].
  apply orb_false_iff in Hs as [Hs _]. apply negb_false_iff in Hs. specialize (Hsuf Hs).
  unfold suffixErrors in Hsuf. unfold final in *. rewrite final_cycleIndexes in Hsuf.
  cbn [initial cycleIndexes app] in Hsuf. destruct (indexOf s _) as [p|] eqn:Ep; [|discriminate Hsuf].
  rewrite !app_nil, !fail_if_nil, negb_false_iff, !andb_true_iff, length_map in Hsuf.
  destruct Hsuf as ((((_ & Hlen) & Hin) & Hall) & _ & Hterm).
  rewrite length_drop, length_map, <- length_drop in Hlen.
  exists s, p. by split_conj.
Qed.

Lemma certified_publishes (c : UransCycleCertificate) :
  valid c -> certified c = true ->
  Forall (fun x => isSafeInteger (index x) = true) (cycles c) ->
  publishes_suffix c.
Proof.
  intros (_ & _ & _ & (r & Hr & _) & (t & Ht & _) & _ & Hch & Hcert) Hc Hsafe.
  destruct (certified_ok_spec c (Hcert Hc)) as (s & p & Es & Ep & Hreq & Hin & Hall & Htr & Htc).
  destruct (chronology_indexes _ Hch Hsafe) as (z0 & Hz0 & Hidx).
  pose proof (index_count _ _ Hidx Hz0 Hsafe) as Hlen.
  destruct (indexOf_lookup _ _ _ Ep) as (y & Hy & Hys).
  change (List.map index (cycles c)) with (index <$> cycles c) in Hy.
  apply list_lookup_fmap_Some in Hy as (first & -> & Hp).
  destruct (terminal_run _ z0 Hidx p s first Hp Hys Hin Hall) as [Hsel Hpre].
  assert (Hn : (length (drop p (cycles c)) <= length (cycles c))%nat)
    by (rewrite length_drop; lia).
  assert (Hl : forall n, (n <= length (cycles c))%nat -> to_integer (of_nat n) = Some (Z.of_nat n))
    by (intros n ?; apply of_Z_integer; lia).
  cbn [strict_eq_num] in Hreq. rewrite (eqb_integer _ _ _ _ Hr (Hl _ Hn)) in Hreq.
  apply Z.eqb_eq in Hreq as ->.
  rewrite (ltb_integer _ _ _ _ Ht Hr) in Htr. rewrite (ltb_integer _ _ _ _ (Hl _ (le_n _)) Ht) in Htc.
  exists (take p (cycles c)), (drop p (cycles c)), s, first, t.
  split; [by rewrite take_drop|]. split; [exact Hr|]. split.
  { apply Forall_drop with (n := p) in Hsafe. pose proof (chronology_ok _ _ Hch) as Hok.
    apply Forall_drop with (n := p) in Hok. rewrite List.Forall_forall in *. intros x Hx.
    split; [by apply Hsel|]. by apply (Hok x Hx), Hsel. }
  split; [exact Hpre|]. split; [by rewrite head_lookup, lookup_drop, Nat.add_0_r|].
  split; [exact Es|]. split; [exact Hys|]. split; [exact Ht|]. lia.
Qed.

(** C35. An accepted certificate that is marked certified, with safe integer
    indexes, publishes exactly its terminal run: the last
    [required_clean_cycles] cycles are selected and clean, no earlier cycle is
    selected, the stamped start index is that of the first of them, and
    [terminal_clean_cycles] lies between the required count and the number of
    audited cycles. *)
Theorem uransCycle_certifies_terminal_run (v : jsval) :
  accepted (parseUransCycleCertificate v) = true ->
  exists c : UransCycleCertificate, represents c v /\
    (certified c = true -> Forall (fun x => isSafeInteger (index x) = true) (cycles c) ->
     publishes_suffix c).
Proof.
  intros H. assert (Hc : conforms UransCycleCertificate v).
  { destruct v as [| |b|n|s|l|o]; try discriminate.
    by apply uransCycleErrors_spec, (accepted_nil (JObj o)). }
  destruct Hc as (c & Hr & Hv). exists c. split; [exact Hr|]. by apply certified_publishes.
Qed.

Definition sample_cycle (i t0 t1 : jsnum) (d : string) : jsval :=
  JObj [("index", JNum i); ("t_start", JNum t0); ("t_end", JNum t1);
        ("coefficient_samples", JNum 40); ("field_frames", JNum 24);
        ("phase_max_gap", JNum 0.0625); ("phase_shift_bins", JNum 1);
        ("cl_mean", JNum 0.5); ("cd_mean", JNum 0.25); ("cm_mean", JNum (-0.125));
        ("cl_shape_error", JNum 0); ("cd_shape_error", JNum 0.0625);
        ("cm_shape_error", JNum 0.0625); ("cl_amplitude_deviation", JNum 0.125);
        ("cd_amplitude_deviation", JNum 0.125); ("cm_amplitude_deviation", JNum 0.125);
        ("cl_high_frequency", JNum 1); ("cd_high_frequency", JNum 1);
        ("cm_high_frequency", JNum 1); ("disposition", JStr d); ("reasons", JArr [])]%float.

Definition sample_certificate : jsval :=
  JObj [("reducer_version", JStr "clean-cycle-v3"); ("period_s", JNum 0.5);
        ("phase_samples", JNum 64); ("required_clean_cycles", JNum 2);
        ("terminal_clean_cycles", JNum 2); ("selected_cycle_start_index", JNum 4);
        ("certified", JBool true); ("cadence_adjusted", JBool false);
        ("cycles", JArr [sample_cycle 3 0 0.5 "startup"; sample_cycle 4 0.5 1 "selected";
                         sample_cycle 5 1 1.5 "selected"])]%float.

Lemma uransCycle_certifies_terminal_run_witness :
  accepted (parseUransCycleCertificate sample_certificate) = true /\
  exists c : UransCycleCertificate, represents c sample_certificate /\
    (certified c = true -> Forall (fun x => isSafeInteger (index x) = true) (cycles c) ->
     publishes_suffix c).
Proof.
  split; [vm_compute; reflexivity|].
  apply (uransCycle_certifies_terminal_run sample_certificate). vm_compute. reflexivity.
Defined.
