(* ===== verification/PolarEvidence.v ===== *)
(** * Evidence predicates of the polar classifier ([packages/core/src/polar-fit.ts])

    The predicates that other components take from the classifier: which steady
    RANS evidence is handed over automatically to preliminary URANS. *)

From Stdlib Require Import ZArith Lia Bool Ascii String.
From Stdlib Require Import Floats.
From stdpp Require Import base list strings option numbers.
From S2P Require Import Prelude JsNumber JsString JsValue.

Local Open Scope string_scope.
Local Open Scope list_scope.

(** The structured engine cause of a rejected solve. *)
Inductive RansFailureDisposition :=
  | disposition_none | hard_solver | deterministic_mesh | material_domain | infrastructure.

#[export] Instance failure_disposition_eq_dec : EqDecision RansFailureDisposition.
Proof. solve_decision. Defined.

Definition failure_label (d : RansFailureDisposition) : string :=
  match d with
  | disposition_none => "none"
  | hard_solver => "hard_solver"
  | deterministic_mesh => "deterministic_mesh"
  | material_domain => "material_domain"
  | infrastructure => "infrastructure"
  end.

Record AutomaticRansPrecalcHandoffEvidence := {
  classificationState : string;
  failureDisposition : option string;
  status : string;
  source : string;
  error : option string;
}.

Definition is_label (o : option string) (s : string) : bool :=
  match o with Some t => String.eqb t s | None => false end.

(** [error == null || error.trim() === ""] *)
Definition blank (o : option string) : bool :=
  match o with Some t => negb (nonempty (trim t)) | None => true end.

Definition isAutomaticRansPrecalcHandoffEvidence
    (evidence : AutomaticRansPrecalcHandoffEvidence) : bool :=
  if is_label (failureDisposition evidence) "deterministic_mesh" ||
     is_label (failureDisposition evidence) "material_domain" ||
     is_label (failureDisposition evidence) "infrastructure" then false
  else if String.eqb (classificationState evidence) "needs_urans" then true
  else if negb (String.eqb (classificationState evidence) "rejected") then false
  else if is_label (failureDisposition evidence) "hard_solver" then true
  else match failureDisposition evidence with
       | Some _ => false
       | None => String.eqb (status evidence) "done" && String.eqb (source evidence) "solved" &&
                 blank (error evidence)
       end.
