(* ===== verification/RetryPlan.v ===== *)
(** * RANS to URANS retry scoping ([apps/sweeper/src/retry-plan.ts])

    The pure decision core of the sweeper's retry: which angles a rejected RANS
    job hands to preliminary URANS, and when a whole continuous polar is
    rerouted.  Proved: a decision exists exactly when some row is retryable; the
    angles are the strictly increasing set of retryable ones, or the whole
    request, and the whole request only under the narrow structured trigger. *)

From Stdlib Require Import ZArith Lia Bool Ascii String Sorting.Sorted.
From Stdlib Require Import Floats.
From stdpp Require Import base list strings option numbers.
From S2P Require Import Prelude JsNumber JsString JsValue JsArray PolarEvidence.

Local Open Scope string_scope.
Local Open Scope list_scope.

(** ** Data *)

Inductive Origin := continuous_polar | explicit_targeted.

#[export] Instance origin_eq_dec : EqDecision Origin.
Proof. solve_decision. Defined.

Record RansRetryScope := { origin : Origin; requestedAoas : list jsnum }.

Inductive RetryState := accepted | needs_urans | rejected | superseded_by_urans.

#[export] Instance retry_state_eq_dec : EqDecision RetryState.
Proof. solve_decision. Defined.

Definition state_label (s : RetryState) : string :=
  match s with
  | accepted => "accepted"
  | needs_urans => "needs_urans"
  | rejected => "rejected"
  | superseded_by_urans => "superseded_by_urans"
  end.

Record RetryEvidenceRow := {
  resultAttemptId : option string;
  aoaDeg : jsnum;
  state : RetryState;
  rowDisposition : option RansFailureDisposition;
  rowError : option string;
  rowStatus : option string;
  rowSource : option string;
}.

Inductive RetryMode :=
  | whole_polar_urans | needs_urans_confirmation | invalid_rans_points | targeted_urans.

#[export] Instance retry_mode_eq_dec : EqDecision RetryMode.
Proof. solve_decision. Defined.

Record RansRetryDecision := {
  aoas : list jsnum;
  queueCanonicalAoas : list jsnum;
  retryMode : RetryMode;
  validRansPointCount : nat;
  needsUransCount : nat;
  hardRejectedCount : nat;
  (** The attempt id and the angle of the whole-polar trigger. *)
  wholePolarTrigger : option (string * jsnum);
}.

(** ** Scopes *)

Definition retryScopeForRequestedPolar (requested : list jsnum) (explicitTargeted : bool) :
    RansRetryScope :=
  let normalized := uniqueSorted requested in
  {| origin := if explicitTargeted || Nat.leb (length normalized) 1
               then explicit_targeted else continuous_polar;
     requestedAoas := normalized |}.

Definition parse_origin (v : jsval) : option Origin :=
  match v with
  | JStr s => if String.eqb s "continuous-polar" then Some continuous_polar
              else if String.eqb s "explicit-targeted" then Some explicit_targeted else None
  | _ => None
  end.

(** [values.filter((value): value is number => finite)] *)
Definition finite_numbers (values : list jsval) : list jsnum :=
  List.flat_map (fun v => match v with JNum x => if isFinite x then [x] else [] | _ => [] end)
    values.

Definition parseRansRetryScope (raw : jsval) (fallbackAoas : list jsnum) : RansRetryScope :=
  let fallback := retryScopeForRequestedPolar fallbackAoas true in
  match raw with
  | JObj candidate =>
      match parse_origin (get "origin" candidate), get "requestedAoas" candidate with
      | Some o, JArr values =>
          let requested := uniqueSorted (finite_numbers values) in
          if Nat.ltb 0 (length requested) then {| origin := o; requestedAoas := requested |}
          else fallback
      | _, _ => fallback
      end
  | _ => fallback
  end.

(** ** The decision *)

Definition isHardSolverRejection (row : RetryEvidenceRow) : bool :=
  bool_decide (state row = rejected) && bool_decide (rowDisposition row = Some hard_solver).

Definition isTargetableRansRejection (row : RetryEvidenceRow) : bool :=
  if negb (bool_decide (state row = rejected)) then false
  else isAutomaticRansPrecalcHandoffEvidence
    {| classificationState := state_label (state row);
       failureDisposition := option_map failure_label (rowDisposition row);
       status := default "" (rowStatus row);
       source := default "" (rowSource row);
       error := rowError row |}.

Definition isNeedsUrans (row : RetryEvidenceRow) : bool := bool_decide (state row = needs_urans).

(** [uniqueSorted(rows.filter(p).map((r) => r.aoaDeg))] *)
Definition aoasOf (p : RetryEvidenceRow -> bool) (rows : list RetryEvidenceRow) : list jsnum :=
  uniqueSorted (List.map aoaDeg (List.filter p rows)).

Definition inAttachedRange (aoa : jsnum) : bool := (aoa >= 0)%js && (aoa <= 5)%js.

Definition isWholePolar (scope : RansRetryScope) (rows : list RetryEvidenceRow) : bool :=
  bool_decide (origin scope = continuous_polar) &&
  Nat.ltb 1 (length (uniqueSorted (requestedAoas scope))) &&
  List.existsb inAttachedRange (aoasOf isHardSolverRejection rows).

Definition triggerRow (rows : list RetryEvidenceRow) : option RetryEvidenceRow :=
  head (sort (fun a b => (aoaDeg a - aoaDeg b)%float)
    (List.filter (fun row => isHardSolverRejection row && inAttachedRange (aoaDeg row)) rows)).

Definition decideRansRetry (scope : RansRetryScope) (jobRows : list RetryEvidenceRow) :
    option RansRetryDecision :=
  match jobRows with
  | [] => None
  | _ =>
      let needsUransAoas := aoasOf isNeedsUrans jobRows in
      let targetableRejectedAoas := aoasOf isTargetableRansRejection jobRows in
      let hardRejectedAoas := aoasOf isHardSolverRejection jobRows in
      if Nat.eqb (length needsUransAoas) 0 && Nat.eqb (length targetableRejectedAoas) 0
      then None
      else
        let wholePolar := isWholePolar scope jobRows in
        let trigger := if wholePolar then triggerRow jobRows else None in
        let aoas := if wholePolar then uniqueSorted (requestedAoas scope)
                    else uniqueSorted (needsUransAoas ++ targetableRejectedAoas) in
        if Nat.eqb (length aoas) 0 then None
        else Some
          {| aoas := aoas;
             queueCanonicalAoas := targetableRejectedAoas;
             retryMode :=
               if wholePolar then whole_polar_urans
               else if bool_decide (origin scope = explicit_targeted) then targeted_urans
               else if Nat.ltb 0 (length needsUransAoas) then needs_urans_confirmation
               else invalid_rans_points;
             validRansPointCount :=
               length (List.filter (fun r => bool_decide (state r = accepted)) jobRows);
             needsUransCount := length needsUransAoas;
             hardRejectedCount := length hardRejectedAoas;
             wholePolarTrigger :=
               match trigger with
               | Some row =>
                   match resultAttemptId row with
                   | Some id => if nonempty id then Some (id, aoaDeg row) else None
                   | None => None
                   end
               | None => None
               end |}
  end.

(** ** The angles of a selection of rows *)

Lemma aoasOf_ord (p : RetryEvidenceRow -> bool) (rows : list RetryEvidenceRow) (z : Z) :
  In z (List.map ord (aoasOf p rows)) <->
  exists r, In r rows /\ p r = true /\ isFinite (aoaDeg r) = true /\ ord (aoaDeg r) = z.
Proof.
  unfold aoasOf. destruct (uniqueSorted_spec (List.map aoaDeg (List.filter p rows))) as (_ & _ & H).
  rewrite H, in_map_iff. split.
  - intros (x & <- & Hx). apply filter_In in Hx as [Hx Fx].
    apply in_map_iff in Hx as (r & <- & Hr). apply filter_In in Hr as [Hr Hp]. by exists r.
  - intros (r & Hr & Hp & Fr & <-). exists (aoaDeg r). split; [done|].
    apply filter_In. split; [|done]. apply in_map. by apply filter_In.
Qed.

Lemma aoasOf_empty (p : RetryEvidenceRow -> bool) (rows : list RetryEvidenceRow) :
  Nat.eqb (length (aoasOf p rows)) 0 = true <->
  (forall r, In r rows -> p r = true -> isFinite (aoaDeg r) = false).
Proof.
  rewrite Nat.eqb_eq, length_zero_iff_nil. unfold aoasOf.
  rewrite uniqueSorted_nil, Forall_map, List.Forall_forall. split.
  - intros H r Hr Hp. apply (H r). by apply filter_In.
  - intros H r Hr. apply filter_In in Hr as [Hr Hp]. by apply H.
Qed.

(** A row the retry may act on. *)
Definition retryable (r : RetryEvidenceRow) : Prop :=
  isFinite (aoaDeg r) = true /\ (isNeedsUrans r = true \/ isTargetableRansRejection r = true).

Lemma union_ord (rows : list RetryEvidenceRow) (z : Z) :
  In z (List.map ord (uniqueSorted
    (aoasOf isNeedsUrans rows ++ aoasOf isTargetableRansRejection rows))) <->
  exists r, In r rows /\ retryable r /\ ord (aoaDeg r) = z.
Proof.
  destruct (uniqueSorted_spec (aoasOf isNeedsUrans rows ++ aoasOf isTargetableRansRejection rows))
    as (_ & _ & H).
  rewrite H, filter_all.
  - rewrite map_app, in_app_iff, !aoasOf_ord. unfold retryable. split.
    + intros [(r & ? & ? & ? & ?)|(r & ? & ? & ? & ?)]; exists r; tauto.
    + intros (r & ? & (? & [?|?]) & ?); [left|right]; exists r; tauto.
  - apply List.Forall_app. split; unfold aoasOf; apply uniqueSorted_spec.
Qed.

Lemma whole_polar_length (scope : RansRetryScope) (rows : list RetryEvidenceRow) :
  isWholePolar scope rows = true -> (1 < length (uniqueSorted (requestedAoas scope)))%nat.
Proof. unfold isWholePolar. rewrite !andb_true_iff, Nat.ltb_lt. tauto. Qed.

(** The angles of a decision, before the code packs it. *)
Definition decisionAoas (scope : RansRetryScope) (rows : list RetryEvidenceRow) : list jsnum :=
  if isWholePolar scope rows then uniqueSorted (requestedAoas scope)
  else uniqueSorted (aoasOf isNeedsUrans rows ++ aoasOf isTargetableRansRejection rows).

Lemma aoasOf_some (p : RetryEvidenceRow -> bool) (rows : list RetryEvidenceRow) :
  Nat.eqb (length (aoasOf p rows)) 0 = false <->
  exists r, In r rows /\ p r = true /\ isFinite (aoaDeg r) = true.
Proof.
  split.
  - destruct (aoasOf p rows) as [|x l] eqn:E; [done|]. intros _.
    destruct (proj1 (aoasOf_ord p rows (ord x))) as (r & ? & ? & ? & _); [rewrite E; by left|].
    by exists r.
  - intros (r & Hr & Hp & Fr). apply not_true_iff_false. intros H.
    by rewrite (proj1 (aoasOf_empty p rows) H r Hr Hp) in Fr.
Qed.

Lemma some_retryable (rows : list RetryEvidenceRow) :
  Nat.eqb (length (aoasOf isNeedsUrans rows)) 0 &&
  Nat.eqb (length (aoasOf isTargetableRansRejection rows)) 0 = false <->
  exists r, In r rows /\ retryable r.
Proof.
  rewrite andb_false_iff, !aoasOf_some. unfold retryable. split.
  - intros [(r & ?)|(r & ?)]; exists r; tauto.
  - intros (r & ? & ? & [?|?]); [left|right]; exists r; tauto.
Qed.

Lemma decisionAoas_nonempty (scope : RansRetryScope) (rows : list RetryEvidenceRow) :
  (exists r, In r rows /\ retryable r) -> Nat.eqb (length (decisionAoas scope rows)) 0 = false.
Proof.
  intros (r & Hr & Hret). unfold decisionAoas. destruct (isWholePolar scope rows) eqn:E.
  - apply whole_polar_length in E. apply Nat.eqb_neq. lia.
  - pose proof (proj2 (union_ord rows (ord (aoaDeg r))) (ex_intro _ r (conj Hr (conj Hret eq_refl))))
      as Hin.
    by destruct (uniqueSorted _).
Qed.

(** Whether a decision exists, and its parts. *)
Lemma decide_cases (scope : RansRetryScope) (rows : list RetryEvidenceRow) :
  match decideRansRetry scope rows with
  | None => ~ exists r, In r rows /\ retryable r
  | Some d =>
      (exists r, In r rows /\ retryable r) /\ aoas d = decisionAoas scope rows /\
      queueCanonicalAoas d = aoasOf isTargetableRansRejection rows /\
      (retryMode d = whole_polar_urans <-> isWholePolar scope rows = true) /\
      wholePolarTrigger d =
        match (if isWholePolar scope rows then triggerRow rows else None) with
        | Some row => match resultAttemptId row with
                      | Some id => if nonempty id then Some (id, aoaDeg row) else None
                      | None => None
                      end
        | None => None
        end
  end.
Proof.
  unfold decideRansRetry. destruct rows as [|r0 rows0]; [by intros (? & [] & _)|].
  set (rows := r0 :: rows0). cbv zeta. fold (decisionAoas scope rows).
  destruct (_ && _) eqn:E.
  - intros Hex%some_retryable. congruence.
  - apply some_retryable in E. rewrite (decisionAoas_nonempty scope rows E).
    cbn [aoas queueCanonicalAoas retryMode wholePolarTrigger]. split_and!; try done.
    destruct (isWholePolar scope rows); [done|]. split; [|done].
    by repeat case_match.
Qed.

(** ** Properties *)

Definition attached_hard_failure (r : RetryEvidenceRow) : Prop :=
  state r = rejected /\ rowDisposition r = Some hard_solver /\
  isFinite (aoaDeg r) = true /\ (0 <= ord (aoaDeg r) <= ord 5%float)%Z.

Lemma inAttachedRange_spec (x : jsnum) :
  isFinite x = true -> inAttachedRange x = true <-> (0 <= ord x <= ord 5%float)%Z.
Proof.
  intros Hx. unfold inAttachedRange. rewrite andb_true_iff, !leb_finite, ord_0 by done. done.
Qed.

Lemma inAttachedRange_finite (x : jsnum) : inAttachedRange x = true -> isFinite x = true.
Proof.
  unfold inAttachedRange. rewrite andb_true_iff, !leb_ord. intros [(_ & Hn & H1) (_ & _ & H2)].
  apply isFinite_ord. split; [done|]. rewrite ord_0 in H1.
  assert (ord 5%float < inf_ord)%Z by (assert (H : isFinite 5%float = true) by done;
    apply isFinite_ord in H; tauto).
  pose proof inf_ord_pos. lia.
Qed.

Lemma isHardSolverRejection_spec (r : RetryEvidenceRow) :
  isHardSolverRejection r = true <-> state r = rejected /\ rowDisposition r = Some hard_solver.
Proof. unfold isHardSolverRejection. by rewrite andb_true_iff, !bool_decide_eq_true. Qed.

Lemma attached_spec (r : RetryEvidenceRow) :
  isHardSolverRejection r && inAttachedRange (aoaDeg r) = true <-> attached_hard_failure r.
Proof.
  unfold attached_hard_failure. rewrite andb_true_iff, isHardSolverRejection_spec. split.
  - intros [[Hs Hd] H]. pose proof (inAttachedRange_finite _ H) as Hf.
    by apply inAttachedRange_spec in H.
  - intros (Hs & Hd & Hf & H). split; [done|]. by apply inAttachedRange_spec.
Qed.

Lemma hard_in_range (rows : list RetryEvidenceRow) :
  List.existsb inAttachedRange (aoasOf isHardSolverRejection rows) = true <->
  exists r, In r rows /\ attached_hard_failure r.
Proof.
  destruct (uniqueSorted_spec (List.map aoaDeg (List.filter isHardSolverRejection rows)))
    as (Hf & _ & _). fold (aoasOf isHardSolverRejection rows) in Hf.
  rewrite existsb_exists. setoid_rewrite <- attached_spec. split.
  - intros (x & Hx & Hr). rewrite List.Forall_forall in Hf.
    destruct (proj1 (aoasOf_ord isHardSolverRejection rows (ord x))) as (r & Hin & Hp & Fr & Eo);
      [by apply in_map|].
    exists r. split; [done|]. apply andb_true_iff. split; [done|].
    apply inAttachedRange_spec in Hr; [|by apply Hf]. apply inAttachedRange_spec; [done|]. lia.
  - intros (r & Hin & [Hp Hr]%andb_true_iff). pose proof (inAttachedRange_finite _ Hr) as Fr.
    assert (Hz : In (ord (aoaDeg r)) (List.map ord (aoasOf isHardSolverRejection rows)))
      by (apply aoasOf_ord; by exists r).
    apply in_map_iff in Hz as (x & Eo & Hx). exists x. split; [done|].
    apply inAttachedRange_spec in Hr; [|done].
    rewrite List.Forall_forall in Hf. apply inAttachedRange_spec; [by apply Hf|]. lia.
Qed.

Lemma isWholePolar_spec (scope : RansRetryScope) (rows : list RetryEvidenceRow) :
  isWholePolar scope rows = true <->
  origin scope = continuous_polar /\ (1 < length (uniqueSorted (requestedAoas scope)))%nat /\
  exists r, In r rows /\ attached_hard_failure r.
Proof.
  unfold isWholePolar. rewrite !andb_true_iff, bool_decide_eq_true, Nat.ltb_lt, hard_in_range.
  tauto.
Qed.

(** The sweeper schedules nothing exactly when no attempt of the job is
    retryable: no row with a finite angle needs URANS or is a rejection that the
    classifier hands over automatically. *)
Theorem decideRansRetry_none (scope : RansRetryScope) (rows : list RetryEvidenceRow) :
  decideRansRetry scope rows = None <-> ~ exists r, In r rows /\ retryable r.
Proof.
  pose proof (decide_cases scope rows) as H. destruct (decideRansRetry scope rows); [|done].
  split; [done|]. intros Hn. destruct H as [Hex _]. by elim Hn.
Qed.

(** The angles of a decision are finite, strictly increasing and never
    empty.  Unless the whole polar is rerouted they are exactly the angles of
    the retryable rows, so evidence never widens a targeted retry; when it is,
    they are exactly the finite angles of the immutable request. *)
Theorem decideRansRetry_angles (scope : RansRetryScope) (rows : list RetryEvidenceRow)
    (d : RansRetryDecision) :
  decideRansRetry scope rows = Some d ->
  aoas d <> [] /\ Forall Finite (aoas d) /\ increasing (aoas d) /\
  (retryMode d <> whole_polar_urans -> forall z,
     In z (List.map ord (aoas d)) <-> exists r, In r rows /\ retryable r /\ ord (aoaDeg r) = z) /\
  (retryMode d = whole_polar_urans -> forall z,
     In z (List.map ord (aoas d)) <->
     exists x, In x (requestedAoas scope) /\ isFinite x = true /\ ord x = z).
Proof.
  intros E. pose proof (decide_cases scope rows) as H. rewrite E in H.
  destruct H as (Hex & Ha & _ & Hm & _). rewrite Ha, Hm.
  pose proof (decisionAoas_nonempty scope rows Hex) as Hne. unfold decisionAoas in *.
  split; [intros Hnil; by rewrite Hnil in Hne|].
  split; [destruct (isWholePolar scope rows); apply uniqueSorted_spec|]. split; [destruct (isWholePolar scope rows); apply uniqueSorted_spec|].
  split; intros Hw z; destruct (isWholePolar scope rows); try done; [apply union_ord|].
  destruct (uniqueSorted_spec (requestedAoas scope)) as (_ & _ & Hin). rewrite Hin, in_map_iff.
  setoid_rewrite filter_In. naive_solver.
Qed.

(** A whole polar is rerouted only, and always, on structured evidence: the
    scope is a continuous polar with at least two distinct requested angles and
    some row is a rejected hard solver failure at an angle from 0 to 5 degrees.
    The trigger that the decision reports is such a row, of least angle. *)
Theorem decideRansRetry_whole_polar (scope : RansRetryScope) (rows : list RetryEvidenceRow)
    (d : RansRetryDecision) :
  decideRansRetry scope rows = Some d ->
  (retryMode d = whole_polar_urans <->
   origin scope = continuous_polar /\ (1 < length (uniqueSorted (requestedAoas scope)))%nat /\
   exists r, In r rows /\ attached_hard_failure r) /\
  forall id aoa, wholePolarTrigger d = Some (id, aoa) ->
    exists r, In r rows /\ attached_hard_failure r /\ resultAttemptId r = Some id /\
      aoaDeg r = aoa /\
      forall r', In r' rows -> attached_hard_failure r' -> (ord aoa <= ord (aoaDeg r'))%Z.
Proof.
  intros E. pose proof (decide_cases scope rows) as H. rewrite E in H.
  destruct H as (_ & _ & _ & Hm & Ht). rewrite Hm, isWholePolar_spec. split; [done|].
  intros id aoa. rewrite Ht. destruct (isWholePolar scope rows); [|done].
  destruct (triggerRow rows) as [row|] eqn:Er; [|done].
  destruct (resultAttemptId row) as [id'|] eqn:Eid; [|done]. destruct (nonempty id'); [|done].
  intros [= <- <-]. unfold triggerRow, sort in Er.
  eapply (sort_before_head _ (fun r => isFinite (aoaDeg r) = true)
            (fun r r' => (ord (aoaDeg r) <= ord (aoaDeg r'))%Z)) in Er as [Hin Hall].
  - rewrite List.Forall_forall in Hall. apply filter_In in Hin as [Hin Hp].
    apply attached_spec in Hp. exists row. split_and!; try done.
    intros r' Hr' Hat. apply Hall, filter_In. by rewrite attached_spec.
  - intros x y Hx Hy. rewrite sub_ltb_0 by done. by apply ltb_finite_false.
  - intros. lia.
  - intros. lia.
  - apply List.Forall_forall. intros r Hr. apply filter_In in Hr as [_ Hr].
    apply attached_spec in Hr. unfold attached_hard_failure in Hr. tauto.
Qed.

Lemma finite_numbers_in (values : list jsval) (x : jsnum) :
  In x (finite_numbers values) <-> In (JNum x) values /\ isFinite x = true.
Proof.
  unfold finite_numbers. rewrite in_flat_map. split.
  - intros (v & Hv & Hx). destruct v as [| |b|n|s|l|o]; cbn in Hx; try done.
    destruct (isFinite n) eqn:Fn; [|done]. destruct Hx as [<-|[]]. done.
  - intros [Hx Fx]. exists (JNum x). rewrite Fx. split; [done|by left].
Qed.

(** A parsed scope is continuous exactly when the raw value pins the
    origin and lists at least one finite requested angle; a legacy scope, a
    malformed one and an empty request can only be targeted. *)
Theorem parseRansRetryScope_continuous (raw : jsval) (fallback : list jsnum) :
  origin (parseRansRetryScope raw fallback) = continuous_polar <->
  exists o values x, raw = JObj o /\ get "origin" o = JStr "continuous-polar" /\
    get "requestedAoas" o = JArr values /\ In (JNum x) values /\ isFinite x = true.
Proof.
  assert (Hfb : origin (retryScopeForRequestedPolar fallback true) <> continuous_polar) by done.
  unfold parseRansRetryScope. split.
  - destruct raw as [| |b|n|s|l|o]; try done.
    destruct (parse_origin (get "origin" o)) as [og|] eqn:Eo; [|done].
    destruct (get "requestedAoas" o) as [| |b|n|s|values|o'] eqn:Ev; try done.
    destruct (uniqueSorted (finite_numbers values)) as [|y ys] eqn:Eu; [done|].
    cbn. intros ->. exists o, values.
    assert (Hx : exists x, In x (finite_numbers values)).
    { destruct (finite_numbers values) as [|x l]; [done|]. exists x. by left. }
    destruct Hx as [x Hx]. exists x. apply finite_numbers_in in Hx.
    split_and!; try tauto. unfold parse_origin in Eo.
    destruct (get "origin" o) as [| |b|n|s|l|o'] eqn:Eg; try done.
    destruct (String.eqb_spec s "continuous-polar") as [->|]; [done|].
    by destruct (String.eqb s "explicit-targeted").
  - intros (o & values & x & -> & Eo & Ev & Hx & Fx). rewrite Eo, Ev. cbn [parse_origin].
    rewrite String.eqb_refl.
    destruct (uniqueSorted (finite_numbers values)) as [|y ys] eqn:Eu; [|done].
    apply uniqueSorted_nil in Eu. rewrite List.Forall_forall in Eu.
    rewrite (Eu x) in Fx; [done|]. by apply finite_numbers_in.
Qed.

(** ** Witnesses *)

Definition sample_scope : RansRetryScope :=
  {| origin := continuous_polar; requestedAoas := [4; -2; 0; 4; 8]%float |}.

Definition sample_row (id : string) (aoa : jsnum) (s : RetryState)
    (d : option RansFailureDisposition) : RetryEvidenceRow :=
  {| resultAttemptId := Some id; aoaDeg := aoa; state := s; rowDisposition := d;
     rowError := None; rowStatus := Some "done"; rowSource := Some "solved" |}.

Definition whole_rows : list RetryEvidenceRow :=
  [sample_row "a" 8 needs_urans None; sample_row "b" 4 rejected (Some hard_solver);
   sample_row "c" 0 rejected (Some hard_solver); sample_row "d" (-2) accepted None].

Definition targeted_rows : list RetryEvidenceRow :=
  [sample_row "a" 8 rejected (Some hard_solver); sample_row "b" (-2) needs_urans None;
   sample_row "c" 4 rejected (Some infrastructure)].

Definition decided (scope : RansRetryScope) (rows : list RetryEvidenceRow) : RansRetryDecision :=
  match decideRansRetry scope rows with
  | Some d => d
  | None => Build_RansRetryDecision [] [] targeted_urans 0 0 0 None
  end.

Lemma decideRansRetry_angles_witness :
  aoas (decided sample_scope targeted_rows) <> [] /\
  Forall Finite (aoas (decided sample_scope targeted_rows)).
Proof.
  destruct (decideRansRetry_angles sample_scope targeted_rows (decided sample_scope targeted_rows))
    as (H1 & H2 & _); [vm_compute; reflexivity|]. split; [exact H1|exact H2].
Defined.

Lemma decideRansRetry_whole_polar_witness :
  exists r, In r whole_rows /\ attached_hard_failure r.
Proof.
  destruct (decideRansRetry_whole_polar sample_scope whole_rows (decided sample_scope whole_rows))
    as [H1 _]; [vm_compute; reflexivity|].
  apply H1. vm_compute. reflexivity.
Defined.
