(* ===== verification/Scheduling.v ===== *)
(** * Progressive scheduling ([packages/core/src/progressive-scheduling.ts])

    The choice of the solver family from the Mach number and diagnoses, the
    initial anchors of a fast polar and the next anchor by information gain.
    A function that throws returns a [result]. *)

From Stdlib Require Import ZArith Lia Bool Ascii String Sorting.Sorted.
From Stdlib Require Import Floats.
From stdpp Require Import base list strings option numbers.
From S2P Require Import Prelude JsNumber JsString JsArray.

Local Open Scope string_scope.
Local Open Scope list_scope.

(** ** The policy *)

Definition maximumMach : jsnum := 3%float.
Definition incompressibleMachLimit : jsnum := 0.3%float.
Definition sonicMargin : jsnum := 0.05%float.
Definition densityBasedMachThreshold : jsnum := 1.2%float.
Definition maximumFastAnchors : nat := 8.
Definition minimumMarginalGain : jsnum := 0.05%float.

Inductive ProgressiveSolverFamily :=
  | simpleFoam | pimpleFoam | rhoSimpleFoam | rhoPimpleFoam | rhoCentralFoam.

#[export] Instance family_eq_dec : EqDecision ProgressiveSolverFamily.
Proof. solve_decision. Defined.

(** A coordinate outside the type reaches the code as an unknown string. *)
Inductive ProgressiveTimeCoordinate :=
  | local_pseudo_time_iterations | physical_time_seconds | unknown_coordinate (s : string).

Inductive PressureKind := kinematic | absolute.

#[export] Instance pressure_eq_dec : EqDecision PressureKind.
Proof. solve_decision. Defined.

Definition progressiveSolverIsTransient (family : ProgressiveSolverFamily)
    (coordinate : option ProgressiveTimeCoordinate) : result bool :=
  let transient := match family with
    | pimpleFoam | rhoPimpleFoam | rhoCentralFoam => true
    | simpleFoam | rhoSimpleFoam => false
    end in
  match coordinate with
  | Some local_pseudo_time_iterations =>
      if decide (family = rhoCentralFoam) then Ok false
      else Throw "Local pseudo-time requires the density-based solver"
  | Some physical_time_seconds =>
      if transient then Ok transient
      else Throw "Steady pressure-based solvers cannot claim physical-time histories"
  | Some (unknown_coordinate _) => Throw "Unknown progressive time coordinate"
  | None => Ok transient
  end.

Record SolverInput := {
  mach : jsnum;
  minimumCriticalMach : option jsnum;
  diagnosedUnsteadiness : bool;
  diagnosedShockInstability : bool;
}.

Record SolverChoice := {
  solver : ProgressiveSolverFamily;
  solverReason : string;
  pressureKind : PressureKind;
}.

Definition machInvalid (input : SolverInput) : bool :=
  negb (isFinite (mach input)) || (mach input < 0)%js || (mach input > maximumMach)%js.

Definition criticalInvalid (input : SolverInput) : bool :=
  match minimumCriticalMach input with
  | Some c => negb (isFinite c) || (c <= 0)%js
  | None => false
  end.

Definition localSonicMargin (input : SolverInput) : bool :=
  match minimumCriticalMach input with
  | Some c => (c - mach input >= sonicMargin)%js
  | None => false
  end.

Definition selectProgressiveSolver (input : SolverInput) : result SolverChoice :=
  if machInvalid input then
    Throw "Progressive air solver supports finite Mach numbers from 0 through 3"
  else if criticalInvalid input then
    Throw "Critical Mach must be a positive measured or predicted value, or unavailable"
  else if (mach input >= densityBasedMachThreshold)%js then
    Ok {| solver := rhoPimpleFoam; solverReason := "supersonic_pressure_density_farfield";
          pressureKind := absolute |}
  else if (mach input < incompressibleMachLimit)%js && localSonicMargin input &&
          negb (diagnosedShockInstability input) then
    Ok {| solver := if diagnosedUnsteadiness input then pimpleFoam else simpleFoam;
          solverReason := if diagnosedUnsteadiness input then "low_mach_unsteady"
                          else "low_mach_with_sonic_margin";
          pressureKind := kinematic |}
  else
    Ok {| solver := if diagnosedUnsteadiness input || diagnosedShockInstability input
                    then rhoPimpleFoam else rhoSimpleFoam;
          solverReason := if diagnosedShockInstability input then "diagnosed_shock_instability"
                          else if diagnosedUnsteadiness input then "compressible_unsteady"
                          else "compressible_or_unknown_sonic_margin";
          pressureKind := absolute |}.

(** ** Anchors *)

Record PredictionAnchorSample := { alpha : jsnum; cl : jsnum; cd : jsnum }.

Definition requestedGrid (angles : list jsnum) : result (list jsnum) :=
  if Nat.eqb (length angles) 0 || List.existsb (fun angle => negb (isFinite angle)) angles
  then Throw "Anchor selection requires finite requested angles"
  else Ok (sort ascending (dedup angles)).

(** [xs[0]] and [xs.at(-1)!] on a list that is not empty. *)
Definition first_of (xs : list jsnum) : jsnum := List.hd 0%float xs.
Definition last_of (xs : list jsnum) : jsnum := List.last xs 0%float.

Inductive AnchorReason := prior_zero_lift_and_efficiency | missing_prior_bracketing.

Definition invalidSample (sample : PredictionAnchorSample) : bool :=
  negb (isFinite (alpha sample) && isFinite (cl sample) && isFinite (cd sample)) ||
  (cd sample <= 0)%js.

(** The zero-lift roots along the samples in order. *)
Fixpoint rootsOf (samples : list PredictionAnchorSample) : list jsnum :=
  match samples with
  | [] => []
  | current :: rest =>
      (if (cl current === 0)%js then [alpha current] else []) ++
      match rest with
      | next :: _ =>
          if (cl current * cl next < 0)%js
          then [(alpha current -
                 (cl current * (alpha next - alpha current)) / (cl next - cl current))%float]
          else []
      | [] => []
      end ++ rootsOf rest
  end.

Definition alpha_of (o : option PredictionAnchorSample) : jsnum :=
  match o with Some s => alpha s | None => 0%float end.

Definition inRange (grid : list jsnum) (angle : jsnum) : bool :=
  (angle >= first_of grid)%js && (angle <= last_of grid)%js.

Definition zeroLift (grid : list jsnum) (samples inScope : list PredictionAnchorSample) : jsnum :=
  match sort (fun l r => js_or (PrimFloat.abs l - PrimFloat.abs r) (l - r))%float
          (List.filter (inRange grid) (rootsOf samples)) with
  | root :: _ => root
  | [] =>
      alpha_of (head (sort (fun l r =>
        js_or (PrimFloat.abs (cl l) - PrimFloat.abs (cl r)) (alpha l - alpha r))%float inScope))
  end.

Definition efficiency (inScope : list PredictionAnchorSample) : jsnum :=
  alpha_of (head (sort (fun l r =>
    js_or (cl r / cd r - cl l / cd l) (alpha l - alpha r))%float inScope)).

Definition nearest (grid : list jsnum) (angle : jsnum) : jsnum :=
  first_of (sort (fun l r =>
    js_or (PrimFloat.abs (l - angle) - PrimFloat.abs (r - angle)) (l - r))%float grid).

Definition farthest (grid : list jsnum) (first : jsnum) : jsnum :=
  first_of (sort (fun l r =>
    js_or (PrimFloat.abs (r - first) - PrimFloat.abs (l - first)) (l - r))%float grid).

Definition anchorPair (grid : list jsnum) (zeroLift efficiency : jsnum) : list jsnum :=
  let first := nearest grid zeroLift in
  let second0 := nearest grid efficiency in
  let second := if (second0 === first)%js && Nat.ltb 1 (length grid)
                then farthest grid first else second0 in
  dedup [first; second].

(** The guards on a prediction, in order. *)
Definition predictionProblem (grid : list jsnum) (prediction : list PredictionAnchorSample) :
    option string :=
  if List.existsb invalidSample prediction
  then Some "Anchor prediction contains invalid coefficients"
  else
    let samples := sort (fun l r => alpha l - alpha r)%float prediction in
    if negb (Nat.eqb (length (dedup (List.map alpha samples))) (length samples)) ||
       (first_of (List.map alpha samples) > first_of grid)%js ||
       (last_of (List.map alpha samples) < last_of grid)%js
    then Some "Anchor prediction must span the requested grid without duplicate angles"
    else if Nat.eqb (length (List.filter (fun s => inRange grid (alpha s)) samples)) 0
    then Some "Anchor prediction has no in-scope samples"
    else None.

Definition initialFastAnchors (angles : list jsnum)
    (prediction : option (list PredictionAnchorSample)) : result (list jsnum * AnchorReason) :=
  (let* grid := requestedGrid angles in
   let missing := Ok (dedup [first_of grid; last_of grid], missing_prior_bracketing) in
   match prediction with
   | None => missing
   | Some prediction =>
       if Nat.ltb (length prediction) 2 then missing
       else match predictionProblem grid prediction with
       | Some message => Throw message
       | None =>
           let samples := sort (fun l r => alpha l - alpha r)%float prediction in
           let inScope := List.filter (fun s => inRange grid (alpha s)) samples in
           Ok (anchorPair grid (zeroLift grid samples inScope) (efficiency inScope),
               prior_zero_lift_and_efficiency)
       end
   end)%result.

(** ** The next anchor *)

Record InformationGainCandidate := {
  candidateAlpha : jsnum;
  integratedVarianceReductionFraction : jsnum;
  expectedActiveSeconds : jsnum;
  modelId : string;
  costEvidenceId : string;
}.

Record NextAnchorInput := {
  requestedAngles : list jsnum;
  attemptedAngles : list jsnum;
  initialCoverageComplete : bool;
  candidates : list InformationGainCandidate;
}.

Inductive NextAnchorReason :=
  | initial_coverage_pending | angle_budget | marginal_gain | no_measured_candidate
  | information_gain.

Definition inadmissible (requested : list jsnum) (c : InformationGainCandidate) : bool :=
  negb (includes requested (candidateAlpha c)) ||
  negb (isFinite (integratedVarianceReductionFraction c)) ||
  (integratedVarianceReductionFraction c < 0)%js ||
  (integratedVarianceReductionFraction c > 1)%js ||
  negb (isFinite (expectedActiveSeconds c)) || (expectedActiveSeconds c <= 0)%js ||
  negb (nonempty (modelId c)) || negb (nonempty (costEvidenceId c)).

Definition available (input : NextAnchorInput) : list InformationGainCandidate :=
  List.filter (fun c => negb (includes (attemptedAngles input) (candidateAlpha c)))
    (candidates input).

Definition useful (input : NextAnchorInput) : list InformationGainCandidate :=
  List.filter (fun c => integratedVarianceReductionFraction c >= minimumMarginalGain)%js
    (available input).

Definition gainRate (c : InformationGainCandidate) : jsnum :=
  (integratedVarianceReductionFraction c / expectedActiveSeconds c)%float.

Definition byGainRate (l r : InformationGainCandidate) : jsnum :=
  js_or (gainRate r - gainRate l)%float (candidateAlpha l - candidateAlpha r)%float.

Definition budgetSpent (input : NextAnchorInput) (requested : list jsnum) : bool :=
  Nat.leb (Nat.min maximumFastAnchors (length requested)) (length (dedup (attemptedAngles input))).

Definition nextFastAnchor (input : NextAnchorInput) :
    result (option jsnum * NextAnchorReason) :=
  (let* requested := requestedGrid (requestedAngles input) in
   if List.existsb (fun angle => negb (includes requested angle)) (dedup (attemptedAngles input))
   then Throw "Attempted anchor is outside the sealed requested scope"
   else if negb (initialCoverageComplete input) then Ok (None, initial_coverage_pending)
   else if budgetSpent input requested then Ok (None, angle_budget)
   else if List.existsb (inadmissible requested) (candidates input)
   then Throw "Information-gain admission requires an in-scope model and measured cost provenance"
   else if Nat.eqb (length (available input)) 0 then Ok (None, no_measured_candidate)
   else if Nat.eqb (length (useful input)) 0 then Ok (None, marginal_gain)
   else match sort byGainRate (useful input) with
        | best :: _ => Ok (Some (candidateAlpha best), information_gain)
        | [] => Ok (None, marginal_gain)
        end)%result.

(** ** The solver choice *)

(** The solver choice is refused exactly on an invalid Mach number or
    critical Mach number; otherwise the pressure kind is that of the family, the
    incompressible family is chosen only below Mach 0.3 with a known sonic
    margin and no shock instability, and the family is transient exactly on a
    diagnosed unsteadiness or shock instability or from Mach 1.2. *)
Theorem selectProgressiveSolver_spec (input : SolverInput) :
  (throws (selectProgressiveSolver input) = machInvalid input || criticalInvalid input) /\
  forall s, selectProgressiveSolver input = Ok s ->
    (pressureKind s = kinematic <-> solver s = simpleFoam \/ solver s = pimpleFoam) /\
    (pressureKind s = kinematic ->
       (ord (mach input) < ord incompressibleMachLimit)%Z /\ localSonicMargin input = true /\
       diagnosedShockInstability input = false) /\
    (progressiveSolverIsTransient (solver s) None = Ok true <->
       diagnosedUnsteadiness input = true \/ diagnosedShockInstability input = true \/
       (ord densityBasedMachThreshold <= ord (mach input))%Z).
Proof.
  unfold selectProgressiveSolver. split.
  { destruct (machInvalid input), (criticalInvalid input); try done; cbn [orb].
    by repeat case_match. }
  destruct (machInvalid input) eqn:Em; [done|]. destruct (criticalInvalid input); [done|].
  assert (Hm : isFinite (mach input) = true).
  { unfold machInvalid in Em. rewrite !orb_false_iff, negb_false_iff in Em. tauto. }
  destruct (PrimFloat.leb densityBasedMachThreshold (mach input)) eqn:Ed.
  - intros s [= <-]. cbn. apply leb_finite in Ed; [|done..]. naive_solver.
  - apply leb_finite_false in Ed; [|done..].
    destruct (PrimFloat.ltb (mach input) incompressibleMachLimit) eqn:Ei; cbn [andb];
      [apply ltb_finite in Ei; [|done..]|];
      destruct (localSonicMargin input) eqn:El, (diagnosedShockInstability input) eqn:Es,
        (diagnosedUnsteadiness input) eqn:Eu; cbn [andb negb orb];
      intros s [= <-]; cbn; (split; [naive_solver|]); (split; [naive_solver|]);
      (split; [intros [=] || tauto|]); try tauto; intros [[=]|[[=]|?]]; lia.
Qed.

(** ** The anchors *)

Lemma requestedGrid_ok (angles grid : list jsnum) :
  requestedGrid angles = Ok grid ->
  Forall Finite angles /\ angles <> [] /\ grid = sort ascending (dedup angles).
Proof.
  unfold requestedGrid. destruct (_ || _) eqn:E; [done|]. intros [= <-].
  apply orb_false_iff in E as [E1 E2]. split; [|split; [by intros ->|done]].
  rewrite List.Forall_forall. intros x Hx. destruct (isFinite x) eqn:Fx; [done|].
  assert (List.existsb (fun angle => negb (isFinite angle)) angles = true); [|congruence].
  apply existsb_exists. exists x. by rewrite Fx.
Qed.

(** The grid of a request: finite, increasing, nonempty, with its values. *)
Lemma grid_spec (angles grid : list jsnum) :
  requestedGrid angles = Ok grid ->
  Forall Finite grid /\ increasing grid /\ grid <> [] /\
  (forall z, In z (List.map ord grid) <-> In z (List.map ord angles)).
Proof.
  intros (Hf & Hne & ->)%requestedGrid_ok.
  destruct (sort_dedup_spec angles Hf) as (H1 & H2 & H3). split_and!; try done.
  intros E. destruct angles as [|x angles]; [done|].
  specialize (H3 (ord x)). rewrite E in H3. cbn in H3. naive_solver.
Qed.

Lemma first_of_in (l : list jsnum) : l <> [] -> In (first_of l) l.
Proof. destruct l; [done|]. by left. Qed.

Lemma last_of_in (l : list jsnum) : l <> [] -> In (last_of l) l.
Proof.
  intros H. destruct (exists_last H) as (l' & x & ->). unfold last_of. rewrite last_last.
  apply in_app_iff. right. by left.
Qed.

(** On an increasing list, equal values are at the same place. *)
Lemma increasing_inj (l : list jsnum) (x y : jsnum) :
  increasing l -> In x l -> In y l -> ord x = ord y -> x = y.
Proof.
  induction 1 as [|a l Hs IH Ha]; [done|]. rewrite List.Forall_forall in Ha.
  intros [<-|Hx] [<-|Hy] E; auto; [specialize (Ha y Hy)|specialize (Ha x Hx)]; lia.
Qed.

Lemma increasing_first_last (l : list jsnum) :
  increasing l -> (1 < length l)%nat -> (ord (first_of l) < ord (last_of l))%Z.
Proof.
  destruct 1 as [|a l Hs Ha]; cbn [length]; [lia|]. intros Hl.
  rewrite List.Forall_forall in Ha. apply Ha. destruct l as [|b l]; [cbn in Hl; lia|].
  change (last_of (a :: b :: l)) with (last_of (b :: l)). by apply last_of_in.
Qed.

Lemma first_of_sort_in (cmp : jsnum -> jsnum -> jsnum) (l : list jsnum) :
  l <> [] -> In (first_of (sort cmp l)) l.
Proof.
  intros H. apply (in_sort cmp). apply first_of_in. intros E.
  apply (f_equal (@length _)) in E. rewrite length_sort in E. by destruct l.
Qed.

Lemma dedup_pair (x y : jsnum) :
  isFinite x = true -> isFinite y = true ->
  length (dedup [x; y]) = (if decide (ord x = ord y) then 1 else 2)%nat /\
  (forall z, In z (List.map ord (dedup [x; y])) <-> z = ord x \/ z = ord y).
Proof.
  intros Hx Hy. assert (Hf : Forall Finite [x; y]) by (by repeat constructor).
  destruct (dedup_spec _ Hf) as (_ & _ & H3). split.
  - unfold dedup. cbn [dedup_from includes List.existsb].
    pose proof (same_value_zero_finite y x Hy Hx) as E. rewrite orb_false_r.
    destruct (same_value_zero y x), (decide (ord x = ord y)); cbn; try done; naive_solver.
  - intros z. rewrite H3. cbn. naive_solver.
Qed.

Lemma abs_diff_not_nan (x y : jsnum) :
  isFinite x = true -> isFinite y = true -> isNaN (PrimFloat.abs (x - y))%float = false.
Proof. intros Hx Hy. rewrite isNaN_abs. by apply sub_sgn. Qed.

(** The farthest angle is another one when there is one. *)
Lemma farthest_distinct (grid : list jsnum) (first : jsnum) :
  Forall Finite grid -> increasing grid -> In first grid -> (1 < length grid)%nat ->
  ord (farthest grid first) <> ord first.
Proof.
  intros Hf Hinc Hfirst Hlen. unfold farthest.
  set (d := fun g => PrimFloat.opp (PrimFloat.abs (g - first))).
  assert (Hk : forall g, In g grid -> isNaN (PrimFloat.abs (g - first)%float) = false).
  { intros g Hg. rewrite List.Forall_forall in Hf. apply abs_diff_not_nan; auto. }
  destruct (sort _ grid) as [|m l] eqn:E.
  { apply (f_equal (@length _)) in E. rewrite length_sort in E. cbn in E. lia. }
  cbn [first_of List.hd].
  assert (Hm : head (sort (fun l r => js_or (PrimFloat.abs (r - first) - PrimFloat.abs (l - first))
    (l - r))%float grid) = Some m) by (by rewrite E).
  unfold sort in Hm.
  eapply (sort_before_head _ (fun g => In g grid)
    (fun x y => (ord (PrimFloat.abs (y - first)%float) < ord (PrimFloat.abs (x - first)%float))%Z \/
       ord (PrimFloat.abs (x - first)%float) = ord (PrimFloat.abs (y - first)%float) /\ (ord x <= ord y)%Z))
    in Hm as [Hin Hall].
  - assert (Hother : exists g, In g grid /\ ord g <> ord first).
    { pose proof (increasing_first_last grid Hinc Hlen) as Hfl.
      assert (Hne : grid <> []) by (by intros ->).
      destruct (decide (ord (first_of grid) = ord first)).
      - exists (last_of grid). split; [by apply last_of_in|lia].
      - exists (first_of grid). split; [by apply first_of_in|done]. }
    destruct Hother as (g & Hg & Hgne). rewrite List.Forall_forall in Hall, Hf.
    specialize (Hall g Hg). rewrite !ord_abs in Hall.
    destruct (sub_sgn g first (Hf _ Hg) (Hf _ Hfirst)) as [_ Sg].
    destruct (sub_sgn m first (Hf _ Hin) (Hf _ Hfirst)) as [_ Sm].
    intros Em. rewrite Em, Z.sub_diag in Sm.
    assert (ord (m - first)%float = 0)%Z by lia.
    assert (ord (g - first)%float <> 0)%Z by lia. lia.
  - intros x y Hx Hy. rewrite List.Forall_forall in Hf.
    rewrite lexicographic by (auto; apply isFinite_not_nan; auto).
    destruct (PrimFloat.eqb (PrimFloat.abs (x - first)%float) _) eqn:Eq.
    + apply eqb_ord in Eq. rewrite ltb_finite_false by auto. lia.
    + rewrite ltb_false_ord by auto.
      assert (ord (PrimFloat.abs (x - first)%float) <> ord (PrimFloat.abs (y - first)%float)).
      { intros Eo. rewrite (proj2 (eqb_ord _ _)) in Eq; [done|]. auto. }
      lia.
  - intros. lia.
  - intros. lia.
  - by apply List.Forall_forall.
Qed.

Lemma anchorPair_spec (grid : list jsnum) (z e : jsnum) :
  Forall Finite grid -> increasing grid -> grid <> [] ->
  length (anchorPair grid z e) = Nat.min 2 (length grid) /\
  (forall o, In o (List.map ord (anchorPair grid z e)) -> In o (List.map ord grid)).
Proof.
  intros Hf Hinc Hne. unfold anchorPair. cbv zeta.
  set (first := nearest grid z). set (second0 := nearest grid e).
  assert (H1 : In first grid) by (by apply first_of_sort_in).
  assert (H2 : In second0 grid) by (by apply first_of_sort_in).
  assert (H3 : In (farthest grid first) grid) by (by apply first_of_sort_in).
  assert (Hin : forall x, In x grid -> isFinite x = true) by (by apply List.Forall_forall).
  set (second := if _ && _ then _ else _).
  assert (H4 : In second grid) by (unfold second; by destruct (_ && _)).
  destruct (dedup_pair first second (Hin _ H1) (Hin _ H4)) as [Hlen Hmem]. split.
  - rewrite Hlen. destruct (decide (1 < length grid)%nat) as [Hl|Hl].
    + rewrite decide_False; [lia|]. unfold second.
      destruct (PrimFloat.eqb second0 first) eqn:E; cbn [andb].
      * rewrite (proj2 (Nat.ltb_lt 1 (length grid)) Hl).
        intros Eo. by apply (farthest_distinct grid first Hf Hinc H1 Hl).
      * intros Eo. rewrite (proj2 (eqb_finite second0 first (Hin _ H2) (Hin _ H1))) in E; done.
    + assert (Hl1 : length grid = 1%nat) by (destruct grid; cbn in *; [done|lia]).
      rewrite Hl1. destruct grid as [|a [|]]; try done.
      destruct H1 as [<-|[]], H4 as [<-|[]]. by rewrite decide_True.
  - intros o Ho%Hmem. apply in_map_iff. destruct Ho as [-> | ->]; eauto.
Qed.

(** Every angle of an increasing grid lies between its first and its last. *)
Lemma increasing_bounds (grid : list jsnum) (y : jsnum) :
  increasing grid -> In y grid -> (ord (first_of grid) <= ord y <= ord (last_of grid))%Z.
Proof.
  intros Hinc Hy. split.
  - destruct Hinc as [|b l Hs Hb]; [done|]. cbn.
    rewrite List.Forall_forall in Hb. destruct Hy as [<-|Hy]; [lia|]. specialize (Hb y Hy). lia.
  - destruct (exists_last (l := grid)) as (l' & b & ->); [by intros ->|].
    unfold last_of. rewrite last_last. apply in_app_iff in Hy as [Hy|[<-|[]]]; [|lia].
    induction l' as [|c l' IH]; [done|]. inversion Hinc as [|? ? Hs Hc]; subst.
    destruct Hy as [<-|Hy]; [|by apply IH].
    rewrite List.Forall_forall in Hc. specialize (Hc b ltac:(apply in_app_iff; cbn; tauto)). lia.
Qed.

(** The initial anchors of a polar are angles of the request: two distinct
    ones, or the only one there is.  Without a usable prediction they bracket
    the request: its least and its greatest angle. *)
Theorem initialFastAnchors_spec (angles : list jsnum)
    (prediction : option (list PredictionAnchorSample)) (anchors : list jsnum)
    (reason : AnchorReason) :
  initialFastAnchors angles prediction = Ok (anchors, reason) ->
  (forall o, In o (List.map ord anchors) -> In o (List.map ord angles)) /\
  length anchors = Nat.min 2 (length (dedup angles)) /\
  (reason = missing_prior_bracketing ->
     forall x, In x angles -> exists lo hi, In lo anchors /\ In hi anchors /\
       (ord lo <= ord x <= ord hi)%Z).
Proof.
  unfold initialFastAnchors. rewrite bind_ok. intros (grid & Hg & H).
  pose proof (grid_spec angles grid Hg) as (Hf & Hinc & Hne & Hval).
  pose proof (requestedGrid_ok angles grid Hg) as (_ & _ & Egrid).
  assert (Hlen : length (dedup angles) = length grid) by (by rewrite Egrid, length_sort).
  assert (Hin : forall x, In x grid -> isFinite x = true) by (by apply List.Forall_forall).
  pose proof (first_of_in grid Hne) as H1. pose proof (last_of_in grid Hne) as H2.
  rewrite Hlen. cbv zeta in H.
  assert (Hmissing : forall a, a = dedup [first_of grid; last_of grid] ->
    (forall o, In o (List.map ord a) -> In o (List.map ord angles)) /\
    length a = Nat.min 2 (length grid) /\
    (reason = missing_prior_bracketing ->
     forall x, In x angles -> exists lo hi, In lo a /\ In hi a /\ (ord lo <= ord x <= ord hi)%Z)).
  { intros a ->.
    destruct (dedup_pair (first_of grid) (last_of grid) (Hin _ H1) (Hin _ H2)) as [Hl Hm].
    split; [|split].
    - intros o Ho%Hm. apply Hval, in_map_iff. destruct Ho as [-> | ->]; eauto.
    - rewrite Hl. destruct (decide (1 < length grid)%nat) as [Hgt|Hgt].
      + pose proof (increasing_first_last grid Hinc Hgt). rewrite decide_False; lia.
      + assert (Hl1 : length grid = 1%nat) by (destruct grid; cbn in *; [done|lia]).
        rewrite Hl1. destruct grid as [|b [|]]; try done. by rewrite decide_True.
    - intros _ x Hx.
      assert (Hxg : In (ord x) (List.map ord grid)) by (apply Hval, in_map, Hx).
      apply in_map_iff in Hxg as (y & Ey & Hy).
      pose proof (proj2 (Hm (ord (first_of grid))) (or_introl eq_refl)) as Hlo.
      pose proof (proj2 (Hm (ord (last_of grid))) (or_intror eq_refl)) as Hhi.
      apply in_map_iff in Hlo as (lo & Elo & Hlo), Hhi as (hi & Ehi & Hhi).
      exists lo, hi. split_and!; try done; [rewrite Elo|rewrite Ehi]; rewrite <- Ey; by apply increasing_bounds. }
  destruct prediction as [p|]; [|injection H as <- <-; by apply Hmissing].
  destruct (Nat.ltb (length p) 2); [injection H as <- <-; by apply Hmissing|].
  destruct (predictionProblem grid p); [done|]. injection H as <- <-.
  set (samples := sort _ p). set (inScope := List.filter _ samples).
  destruct (anchorPair_spec grid (zeroLift grid samples inScope) (efficiency inScope) Hf Hinc Hne)
    as [Hl Hm].
  split; [|by split]. intros o Ho%Hm. by apply Hval.
Qed.

(** An admissible candidate has a rate that is a number. *)
Lemma admissible_rate (requested : list jsnum) (c : InformationGainCandidate) :
  inadmissible requested c = false ->
  isNaN (gainRate c) = false /\ includes requested (candidateAlpha c) = true.
Proof.
  unfold inadmissible. rewrite !orb_false_iff, !negb_false_iff.
  intros (((((((Hi & Hg) & _) & _) & Hc) & Hpos) & _) & _). split; [|done].
  apply leb_finite_false in Hpos; [|done..]. rewrite ord_0 in Hpos.
  apply div_not_nan; [done..|lia].
Qed.

Lemma includes_not_nan (xs : list jsnum) (x : jsnum) :
  Forall Finite xs -> includes xs x = true -> isNaN x = false.
Proof.
  intros Hxs H. unfold includes in H. apply existsb_exists in H as (y & Hy & E).
  rewrite List.Forall_forall in Hxs. unfold same_value_zero in E.
  rewrite (isFinite_not_nan y), andb_false_r, orb_false_r in E by auto.
  apply eqb_ord in E. tauto.
Qed.

Lemma existsb_false_in {A} (p : A -> bool) (l : list A) (x : A) :
  List.existsb p l = false -> In x l -> p x = false.
Proof.
  intros H Hx. apply not_true_iff_false. intros Hp. apply not_true_iff_false in H.
  apply H, existsb_exists. eauto.
Qed.

(** The guards that come before a candidate is chosen. *)
Definition open_round (input : NextAnchorInput) (requested : list jsnum) : Prop :=
  requestedGrid (requestedAngles input) = Ok requested /\
  List.existsb (fun angle => negb (includes requested angle))
    (dedup (attemptedAngles input)) = false /\
  initialCoverageComplete input = true /\ budgetSpent input requested = false /\
  List.existsb (inadmissible requested) (candidates input) = false.

(** A candidate that may be chosen: not attempted, and of enough gain. *)
Definition eligible (input : NextAnchorInput) (c : InformationGainCandidate) : Prop :=
  In c (candidates input) /\ includes (attemptedAngles input) (candidateAlpha c) = false /\
  PrimFloat.leb minimumMarginalGain (integratedVarianceReductionFraction c) = true.

Lemma useful_spec (input : NextAnchorInput) (c : InformationGainCandidate) :
  In c (useful input) <-> eligible input c.
Proof.
  unfold useful, available, eligible. rewrite !filter_In, negb_true_iff. tauto.
Qed.

Lemma byGainRate_ltb (x y : InformationGainCandidate) :
  isNaN (gainRate x) = false -> isNaN (gainRate y) = false ->
  isNaN (candidateAlpha x) = false -> isNaN (candidateAlpha y) = false ->
  PrimFloat.ltb (byGainRate x y) 0 =
  if PrimFloat.eqb (gainRate y) (gainRate x) then PrimFloat.ltb (candidateAlpha x) (candidateAlpha y)
  else PrimFloat.ltb (gainRate y) (gainRate x).
Proof. intros. by apply lexicographic. Qed.

Lemma best_candidate (input : NextAnchorInput) (requested : list jsnum)
    (best : InformationGainCandidate) :
  open_round input requested -> head (sort byGainRate (useful input)) = Some best ->
  eligible input best /\ includes requested (candidateAlpha best) = true /\
  forall c, eligible input c -> (ord (gainRate c) <= ord (gainRate best))%Z.
Proof.
  intros (Hg & _ & _ & _ & Hadm) Hb. apply grid_spec in Hg as (Hf & _).
  assert (Hc : forall c, In c (useful input) ->
    isNaN (gainRate c) = false /\ includes requested (candidateAlpha c) = true /\
    isNaN (candidateAlpha c) = false).
  { intros c (Hin & _)%useful_spec. pose proof (existsb_false_in _ _ _ Hadm Hin) as Ha.
    apply admissible_rate in Ha as [Hr Hi]. split_and!; try done. by apply (includes_not_nan requested). }
  unfold sort in Hb.
  eapply (sort_before_head _ (fun c => In c (useful input))
    (fun x y => (ord (gainRate y) < ord (gainRate x))%Z \/
       ord (gainRate x) = ord (gainRate y) /\
       (ord (candidateAlpha x) <= ord (candidateAlpha y))%Z)) in Hb as [Hin Hall].
  - split; [by apply useful_spec|]. split; [by apply Hc|]. intros c Hel%useful_spec.
    rewrite List.Forall_forall in Hall. specialize (Hall c Hel). lia.
  - intros x y (Rx & _ & Nx)%Hc (Ry & _ & Ny)%Hc. rewrite byGainRate_ltb by done.
    destruct (PrimFloat.eqb (gainRate x) (gainRate y)) eqn:E.
    + apply eqb_ord in E. rewrite ltb_false_ord by done. lia.
    + rewrite ltb_false_ord by done.
      assert (ord (gainRate x) <> ord (gainRate y)).
      { intros Eo. rewrite (proj2 (eqb_ord _ _)) in E; done. }
      lia.
  - intros. lia.
  - intros. lia.
  - by apply List.Forall_forall.
Qed.

(** The outcome once the guards have passed. *)
Lemma nextFastAnchor_open (input : NextAnchorInput) (requested : list jsnum) :
  open_round input requested ->
  nextFastAnchor input =
    match head (sort byGainRate (useful input)) with
    | Some best => Ok (Some (candidateAlpha best), information_gain)
    | None => Ok (None, if Nat.eqb (length (available input)) 0 then no_measured_candidate
                        else marginal_gain)
    end.
Proof.
  intros (Hg & Ha & Hi & Hb & Hadm). unfold nextFastAnchor. rewrite Hg. cbn [bind_result].
  rewrite Ha, Hi, Hb, Hadm. cbn [negb].
  destruct (Nat.eqb (length (available input)) 0) eqn:Eav.
  - apply Nat.eqb_eq, length_zero_iff_nil in Eav. unfold useful. by rewrite Eav.
  - destruct (Nat.eqb (length (useful input)) 0) eqn:Eus.
    + apply Nat.eqb_eq, length_zero_iff_nil in Eus. by rewrite Eus.
    + destruct (sort byGainRate (useful input)) as [|b l] eqn:Es; [|done].
      apply (f_equal (@length _)) in Es. rewrite length_sort in Es. apply Nat.eqb_neq in Eus.
      by cbn in Es.
Qed.

Lemma nextFastAnchor_some (input : NextAnchorInput) (a : jsnum) (reason : NextAnchorReason) :
  nextFastAnchor input = Ok (Some a, reason) -> exists requested, open_round input requested.
Proof.
  unfold nextFastAnchor. rewrite bind_ok. intros (requested & Hg & H). exists requested.
  destruct (List.existsb _ (dedup _)) eqn:Ea; [done|].
  destruct (initialCoverageComplete input) eqn:Ei; [|done]. cbn [negb] in H.
  destruct (budgetSpent input requested) eqn:Eb; [done|].
  destruct (List.existsb (inadmissible requested) _) eqn:Ec; [done|]. by split_and!.
Qed.

(** The next anchor is a requested angle that was not attempted, of a
    candidate whose gain is at least the minimum and whose gain per second is
    the greatest among the eligible candidates; and it is scheduled only while
    fewer distinct angles than the budget (eight, or all of them) were
    attempted. *)
Theorem nextFastAnchor_best (input : NextAnchorInput) (a : jsnum) (reason : NextAnchorReason) :
  nextFastAnchor input = Ok (Some a, reason) ->
  reason = information_gain /\
  (length (dedup (attemptedAngles input)) <
   Nat.min 8 (length (dedup (requestedAngles input))))%nat /\
  exists c requested, candidateAlpha c = a /\
    requestedGrid (requestedAngles input) = Ok requested /\
    includes requested a = true /\ eligible input c /\
    forall c', eligible input c' -> (ord (gainRate c') <= ord (gainRate c))%Z.
Proof.
  intros H. destruct (nextFastAnchor_some _ _ _ H) as [requested Ho].
  rewrite (nextFastAnchor_open input requested Ho) in H.
  destruct (head _) as [best|] eqn:Eb; [|done]. injection H as <- <-. split; [done|].
  destruct (best_candidate input requested best Ho Eb) as (He & Hi & Hmax).
  destruct Ho as (Hg & _ & _ & Hb & _). split.
  - unfold budgetSpent in Hb. apply Nat.leb_gt in Hb.
    apply requestedGrid_ok in Hg as (_ & _ & ->). by rewrite length_sort in Hb.
  - exists best, requested. by split_and!.
Qed.

(** Progress: once the initial coverage is complete, the budget is not
    spent and the evidence is admissible, some anchor is scheduled as long as
    an eligible candidate exists. *)
Theorem nextFastAnchor_progress (input : NextAnchorInput) (requested : list jsnum)
    (c : InformationGainCandidate) :
  open_round input requested -> eligible input c ->
  exists a, nextFastAnchor input = Ok (Some a, information_gain).
Proof.
  intros Ho Hc%useful_spec. rewrite (nextFastAnchor_open input requested Ho).
  destruct (sort byGainRate (useful input)) as [|b l] eqn:Es.
  - apply (f_equal (@length _)) in Es. rewrite length_sort in Es. by destruct (useful input).
  - by eexists.
Qed.

(** ** Witnesses *)

Lemma initialFastAnchors_spec_witness :
  length [-2; 4]%float = Nat.min 2 (length (dedup [4; -2; 0]%float)).
Proof.
  apply (initialFastAnchors_spec [4; -2; 0]%float
    (Some [{| alpha := -4; cl := -0.5; cd := 0.125 |}; {| alpha := -2; cl := 0; cd := 0.125 |};
           {| alpha := 6; cl := 1; cd := 0.125 |}]%float)
    [-2; 4]%float prior_zero_lift_and_efficiency).
  vm_compute. reflexivity.
Defined.

Definition sample_candidate (a g s : jsnum) : InformationGainCandidate :=
  {| candidateAlpha := a; integratedVarianceReductionFraction := g; expectedActiveSeconds := s;
     modelId := "m"; costEvidenceId := "c" |}.

Definition sample_input : NextAnchorInput :=
  {| requestedAngles := [0; 2; 4; 6]%float; attemptedAngles := [0; 6]%float;
     initialCoverageComplete := true;
     candidates := [sample_candidate 2 0.25 100; sample_candidate 4 0.5 100] |}.

Lemma nextFastAnchor_best_witness :
  exists c requested, candidateAlpha c = 4%float /\
    requestedGrid (requestedAngles sample_input) = Ok requested /\
    includes requested 4%float = true /\ eligible sample_input c /\
    forall c', eligible sample_input c' -> (ord (gainRate c') <= ord (gainRate c))%Z.
Proof.
  apply (nextFastAnchor_best sample_input 4%float information_gain). vm_compute. reflexivity.
Defined.

Lemma nextFastAnchor_progress_witness :
  exists a, nextFastAnchor sample_input = Ok (Some a, information_gain).
Proof.
  apply (nextFastAnchor_progress sample_input [0; 2; 4; 6]%float (sample_candidate 2 0.25 100)).
  - split_and!; vm_compute; reflexivity.
  - split_and!; [by left|vm_compute; reflexivity..].
Defined.
