(* ===== verification/UransQuality.v ===== *)
(** * URANS media quality ([packages/core/src/urans-quality.ts])

    The cross-runtime markers, the deterministic mesh blocker and the evaluation
    of a stored animation against the retained force history. *)

From Stdlib Require Import ZArith Lia Bool Ascii String.
From Stdlib Require Import Floats.
From stdpp Require Import base list strings option numbers.
From S2P Require Import Prelude JsNumber JsString.

Local Open Scope string_scope.
Local Open Scope list_scope.

Definition URANS_BUDGET_STOP_MARKER : string := "stopped by the wall-clock budget guard".
Definition URANS_CONTINUATION_REQUIRED_MARKER : string :=
  "requires further same-case integration".
Definition DETERMINISTIC_MESH_BLOCKER_ERROR_MARKER : string :=
  "mesh degenerate at this fidelity tier".
Definition DETERMINISTIC_MESH_BLOCKER_NONORTHO_MARKER : string := "max non-orthogonality".

Definition isDeterministicMeshBlockerError (error : option string) : bool :=
  let normalized := toLowerCase (default "" error) in
  includes normalized DETERMINISTIC_MESH_BLOCKER_ERROR_MARKER &&
  includes normalized DETERMINISTIC_MESH_BLOCKER_NONORTHO_MARKER.

Definition URANS_MIN_RETAINED_CYCLES : jsnum := 7%float.
Definition URANS_MIN_ANIMATION_FRAMES_PER_CYCLE : jsnum := 20%float.
Definition URANS_ANIMATION_FPS : jsnum := 20%float.

(** [undefined] and [null] fields are [None]. *)
Record UransMediaQualityInput := {
  unsteady : bool;
  strouhal : option jsnum;
  speed : option jsnum;
  chord : option jsnum;
  historyTimes : option (list jsnum);
  inputFrameCount : option jsnum;
  durationS : option jsnum;
  fps : option jsnum;
  minCycles : option jsnum;
  minFramesPerCycle : option jsnum;
}.

Record UransMediaQuality := {
  ok : bool;
  evaluated : bool;
  reason : string;
  retainedCycles : jsnum;
  frameCount : jsnum;
  framesPerCycle : jsnum;
  measuredPeriodS : jsnum;
}.

Definition finitePositive (x : option jsnum) : option jsnum :=
  match x with
  | Some v => if isFinite v && (v > 0)%js then Some v else None
  | None => None
  end.

Definition finiteNumber (x : option jsnum) : option jsnum :=
  match x with
  | Some v => if isFinite v then Some v else None
  | None => None
  end.

Definition unevaluated (reason : string) : UransMediaQuality :=
  {| ok := true; evaluated := false; reason := reason; retainedCycles := 0%float;
     frameCount := 0%float; framesPerCycle := 0%float; measuredPeriodS := 0%float |}.

(** A number that is neither [0] nor NaN. *)
Definition truthy_num (x : jsnum) : bool := negb (isNaN x) && negb (x === 0)%js.

(** [storedFrames ?? durationFrames], [None] for a falsy count. *)
Definition frames (input : UransMediaQualityInput) : option jsnum :=
  let fps := default URANS_ANIMATION_FPS (finitePositive (fps input)) in
  let count := match finitePositive (inputFrameCount input) with
    | Some stored => Some stored
    | None => option_map (fun d => Math_round (d * fps)%float) (finitePositive (durationS input))
    end in
  match count with
  | Some n => if truthy_num n then Some n else None
  | None => None
  end.

(** [finiteNumber(times[0])], [finiteNumber(times[times.length - 1])] in order. *)
Definition window (times : list jsnum) : option (jsnum * jsnum) :=
  match finiteNumber (head times), finiteNumber (times !! (length times - 1)%nat) with
  | Some t0, Some t1 => if (t1 <= t0)%js then None else Some (t0, t1)
  | _, _ => None
  end.

Definition eps : jsnum := 1e-9%float.

Definition grade (minCycles minFramesPerCycle st speed chord t0 t1 frameCount : jsnum) :
    UransMediaQuality :=
  let measuredPeriodS := (chord / (st * speed))%float in
  let retainedCycles := ((t1 - t0) / measuredPeriodS)%float in
  let framesPerCycle := (frameCount / retainedCycles)%float in
  let short := (retainedCycles + eps < minCycles)%js in
  let sparse := (framesPerCycle + eps < minFramesPerCycle)%js in
  let ok := negb short && negb sparse in
  let parts :=
    (if short then ["retained cycles " +:+ toFixed retainedCycles 2 +:+ " < " +:+
                    toFixed minCycles 2] else []) ++
    (if sparse then ["frames/cycle " +:+ toFixed framesPerCycle 2 +:+ " < " +:+
                     toFixed minFramesPerCycle 2] else []) in
  {| ok := ok; evaluated := true;
     reason := if ok then "URANS media quality target met." else join "; " parts;
     retainedCycles := retainedCycles; frameCount := frameCount;
     framesPerCycle := framesPerCycle; measuredPeriodS := measuredPeriodS |}.

Definition evaluateUransMediaQuality (input : UransMediaQualityInput) : UransMediaQuality :=
  if negb (unsteady input) then
    unevaluated "steady RANS result; URANS media quality does not apply."
  else
    match finitePositive (strouhal input), finitePositive (speed input),
          finitePositive (chord input), historyTimes input with
    | Some st, Some speed, Some chord, Some times =>
        if Nat.ltb (length times) 2 then
          unevaluated "URANS media quality could not be evaluated: missing Strouhal, speed, chord, or force history."
        else
          match frames input with
          | None =>
              unevaluated "URANS media quality could not be evaluated: missing animation frame count."
          | Some frameCount =>
              match window times with
              | None =>
                  unevaluated "URANS media quality could not be evaluated: invalid retained force-history window."
              | Some (t0, t1) =>
                  grade (default URANS_MIN_RETAINED_CYCLES (minCycles input))
                    (default URANS_MIN_ANIMATION_FRAMES_PER_CYCLE (minFramesPerCycle input))
                    st speed chord t0 t1 frameCount
              end
          end
    | _, _, _, _ =>
        unevaluated "URANS media quality could not be evaluated: missing Strouhal, speed, chord, or force history."
    end.

(** ** What an evaluation rests on *)

Definition positive_input (o : option jsnum) : Prop :=
  exists x, o = Some x /\ isFinite x = true /\ (0 < ord x)%Z.

(** Every measurement the evaluation needs is there. *)
Definition measurable (input : UransMediaQualityInput) : Prop :=
  unsteady input = true /\ positive_input (strouhal input) /\ positive_input (speed input) /\
  positive_input (chord input) /\
  (exists times t0 t1, historyTimes input = Some times /\ (2 <= length times)%nat /\
     head times = Some t0 /\ times !! (length times - 1)%nat = Some t1 /\
     isFinite t0 = true /\ isFinite t1 = true /\ (ord t0 < ord t1)%Z) /\
  exists n, frames input = Some n.

Lemma finitePositive_some (o : option jsnum) (x : jsnum) :
  finitePositive o = Some x <-> o = Some x /\ isFinite x = true /\ (0 < ord x)%Z.
Proof.
  unfold finitePositive. destruct o as [v|]; [|naive_solver].
  destruct (isFinite v) eqn:Fv; cbn [andb].
  - destruct (PrimFloat.ltb 0 v) eqn:E.
    + apply ltb_finite in E; [|done..]. rewrite ord_0 in E. naive_solver.
    + apply ltb_finite_false in E; [|done..]. rewrite ord_0 in E.
      split; [done|]. intros ([= ->] & _ & ?). lia.
  - split; [done|]. intros ([= ->] & Fx & _). congruence.
Qed.

Lemma finitePositive_is_some (o : option jsnum) :
  (exists x, finitePositive o = Some x) <-> positive_input o.
Proof. unfold positive_input. by setoid_rewrite finitePositive_some. Qed.

Lemma finitePositive_none (o : option jsnum) :
  finitePositive o = None -> ~ positive_input o.
Proof. intros E H. apply finitePositive_is_some in H as [x H]. congruence. Qed.

Lemma window_some (times : list jsnum) (t0 t1 : jsnum) :
  window times = Some (t0, t1) <->
  head times = Some t0 /\ times !! (length times - 1)%nat = Some t1 /\
  isFinite t0 = true /\ isFinite t1 = true /\ (ord t0 < ord t1)%Z.
Proof.
  unfold window, finiteNumber. destruct (head times) as [a|]; [|naive_solver].
  destruct (isFinite a) eqn:Fa;
    [|split; [done|]; intros ([= ->] & _ & Fx & _); congruence].
  destruct (times !! _) as [b|]; [|split; [done|]; intros (_ & [=] & _)].
  destruct (isFinite b) eqn:Fb;
    [|split; [done|]; intros (_ & [= ->] & _ & Fx & _); congruence].
  destruct (PrimFloat.leb b a) eqn:E.
  - apply leb_finite in E; [|done..]. split; [done|]. intros ([= ->] & [= ->] & _ & _ & ?). lia.
  - apply leb_finite_false in E; [|done..]. naive_solver.
Qed.

(** An animation is evaluated exactly when the result is unsteady and every
    measurement is there: positive Strouhal number, speed and chord, an
    increasing force-history window of at least two samples and a frame count.
    It fails only when it is evaluated, and then because the retained cycles or
    the frames per cycle fall short of the required ones. *)
Theorem evaluateUransMediaQuality_spec (input : UransMediaQualityInput) :
  let q := evaluateUransMediaQuality input in
  (evaluated q = true <-> measurable input) /\
  (ok q = false <-> evaluated q = true /\
     ((retainedCycles q + eps < default URANS_MIN_RETAINED_CYCLES (minCycles input))%js = true \/
      (framesPerCycle q + eps <
         default URANS_MIN_ANIMATION_FRAMES_PER_CYCLE (minFramesPerCycle input))%js = true)).
Proof.
  cbv zeta. unfold evaluateUransMediaQuality, measurable.
  destruct (unsteady input); cbn [negb]; [|cbn; naive_solver].
  destruct (finitePositive (strouhal input)) as [st|] eqn:Est;
    [|apply finitePositive_none in Est; cbn; naive_solver].
  destruct (finitePositive (speed input)) as [sp|] eqn:Esp;
    [|apply finitePositive_none in Esp; cbn; naive_solver].
  destruct (finitePositive (chord input)) as [ch|] eqn:Ech;
    [|apply finitePositive_none in Ech; cbn; naive_solver].
  destruct (historyTimes input) as [times|]; [|cbn; naive_solver].
  destruct (Nat.ltb (length times) 2) eqn:El.
  { apply Nat.ltb_lt in El. cbn. split; [|naive_solver]. split; [done|].
    intros (_ & _ & _ & _ & (times' & t0 & t1 & [= <-] & ? & _) & _). lia. }
  apply Nat.ltb_ge in El.
  destruct (frames input) as [n|]; [|cbn; naive_solver].
  destruct (window times) as [[t0 t1]|] eqn:Ew.
  - apply window_some in Ew as (H0 & H1 & F0 & F1 & Hlt).
    unfold grade. cbn [evaluated ok retainedCycles framesPerCycle]. split.
    + split; [|done]. intros _.
      split_and!; try done; try (apply finitePositive_is_some; eauto); eauto 12.
    + rewrite andb_false_iff, !negb_false_iff. naive_solver.
  - cbn. split; [|naive_solver]. split; [done|].
    intros (_ & _ & _ & _ & (times' & t0 & t1 & [= <-] & _ & H) & _).
    apply (window_some times t0 t1) in H. congruence.
Qed.
