(* ===== verification/RecoveryPolicy.v ===== *)
(** * Recovery of rejected preliminary attempts ([packages/core/src/precalc-recovery-policy.ts])

    One ladder action is chosen from the diagnostics of an immutable attempt.
    Proved: the scores are in [0, 1], an attempt is consumed exactly by the three
    reruns, a trajectory is continued only when it may be, and the outcome label
    identifies the action. *)

From Stdlib Require Import ZArith Lia Bool Ascii String.
From Stdlib Require Import Floats.
From stdpp Require Import base list strings option numbers.
From S2P Require Import Prelude JsNumber JsString JsArray UransQuality.

Local Open Scope string_scope.
Local Open Scope list_scope.

Inductive PrecalcFailureType :=
  | infrastructure_interruption | deterministic_setup_failure | missing_derived_media
  | incomplete_observation | stationary_aperiodic_candidate | numerical_instability
  | nonpublishable_evidence.

Inductive PrecalcRecoveryAction :=
  | retry_infrastructure | recover_deterministic_setup | repair_media | continue_exact_case
  | rerun_statistical_mean_contract | rerun_conservative_numerics | rerun_fresh.

#[export] Instance action_eq_dec : EqDecision PrecalcRecoveryAction.
Proof. solve_decision. Defined.

Record PrecalcRecoveryPolicyInput := {
  status : string;
  failureDisposition : option string;
  classificationReasons : option (list string);
  qualityWarnings : option (list string);
  error : option string;
  hasRestartableEvidence : bool;
  forceSampleCount : option jsnum;
  fieldFrameCount : option jsnum;
  inputMeanScore : option jsnum;
  inputNoiseScore : option jsnum;
  observationProgress : option jsnum;
  continuationProgressed : option bool;
}.

Record PrecalcRecoveryPlan := {
  failureType : PrecalcFailureType;
  action : PrecalcRecoveryAction;
  consumesSolverAttempt : bool;
  evidenceCompleteness : jsnum;
  statisticalMeanScore : jsnum;
  numericalNoiseScore : jsnum;
  reason : string;
}.

Definition MIN_FORCE_SAMPLES : jsnum := 400%float.
Definition MIN_FIELD_FRAMES : jsnum := 40%float.

Definition clamp01 (value : option jsnum) : jsnum :=
  match value with
  | Some v => if isFinite v then Math_max 0 (Math_min 1 v) else 0%float
  | None => 0%float
  end.

Definition normalizedCount (value : option jsnum) (required : jsnum) : jsnum :=
  match value with
  | Some v => if isFinite v && (v >= 0)%js then clamp01 (Some (v / required)%float) else 0%float
  | None => 0%float
  end.

Definition normalizedText (input : PrecalcRecoveryPolicyInput) : string :=
  toLowerCase (join " "
    (default [] (classificationReasons input) ++ default [] (qualityWarnings input) ++
     [default "" (error input)])).

Definition has_string (l : list string) (s : string) : bool := List.existsb (String.eqb s) l.

Definition onlyMissingVideo (reasons : list string) : bool :=
  let material := List.filter
    (fun reason => negb (String.eqb reason "missing-urans-video") &&
                   negb (String.eqb reason "not-converged")) reasons in
  has_string reasons "missing-urans-video" && Nat.eqb (length material) 0.

Definition noiseMarkers : list string :=
  ["non-physical"; "diverg"; "high-frequency"; "impulse"; "amplitude-growth";
   "amplitude growing"; "shape-error"; "phase-shift"; "period-instability"; "period unstable";
   "mean-trend"; "monotonic"].

Definition inferredNumericalNoise (text : string) : jsnum :=
  clamp01 (Some (fold_left (fun score marker =>
    (score + (if JsString.includes text marker then 0.25 else 0))%float) noiseMarkers 0%float)).

Definition incompleteReasons : list string :=
  ["incomplete-urans-integration"; "insufficient-periods"; "insufficient-clean-cycle-evidence"].

Definition incompleteMarkers : list string :=
  ["insufficient-observation-horizon"; "insufficient-source-samples"; "insufficient-field-frames";
   "missing-periodicity-assessment"; "insufficient-periodicity-cycles";
   "period acquisition exhausted the physical slow-shedding horizon"; "source-cadence-gap";
   "budget-stop"; "continuation-required"; toLowerCase URANS_BUDGET_STOP_MARKER;
   toLowerCase URANS_CONTINUATION_REQUIRED_MARKER].

Definition incomplete (reasons : list string) (text : string) : bool :=
  List.existsb (has_string incompleteReasons) reasons ||
  List.existsb (JsString.includes text) incompleteMarkers.

Definition is_label (o : option string) (s : string) : bool :=
  match o with Some t => String.eqb t s | None => false end.

Definition infrastructureEnded (input : PrecalcRecoveryPolicyInput) (text : string) : bool :=
  is_label (failureDisposition input) "infrastructure" ||
  String.eqb (status input) "cancelled" || JsString.includes text "infrastructure" ||
  JsString.includes text "lost engine job" || JsString.includes text "worker restart".

(** The three scores, in the order the code computes them. *)
Definition scores (input : PrecalcRecoveryPolicyInput) (text : string) : jsnum * jsnum * jsnum :=
  let sampleCompleteness := normalizedCount (forceSampleCount input) MIN_FORCE_SAMPLES in
  let frameCompleteness := normalizedCount (fieldFrameCount input) MIN_FIELD_FRAMES in
  let measuredCompleteness := Math_min sampleCompleteness frameCompleteness in
  (Math_max measuredCompleteness (clamp01 (observationProgress input)),
   clamp01 (inputMeanScore input),
   Math_max (clamp01 (inputNoiseScore input)) (inferredNumericalNoise text)).

Definition planPrecalcRecovery (input : PrecalcRecoveryPolicyInput) : PrecalcRecoveryPlan :=
  let reasons := dedup_strings (default [] (classificationReasons input)) in
  let text := normalizedText input in
  let '(evidence, mean, noise) := scores input text in
  let plan failureType action consumes reason :=
    {| failureType := failureType; action := action; consumesSolverAttempt := consumes;
       evidenceCompleteness := evidence; statisticalMeanScore := mean;
       numericalNoiseScore := noise; reason := reason |} in
  if is_label (failureDisposition input) "material_domain" then
    plan deterministic_setup_failure recover_deterministic_setup false
      "material coverage or numerical behavior must be corrected before another solve"
  else if infrastructureEnded input text then
    plan infrastructure_interruption retry_infrastructure false
      "execution ended before usable physical evidence"
  else if is_label (failureDisposition input) "deterministic_mesh" ||
          JsString.includes text "deterministic-mesh" then
    plan deterministic_setup_failure recover_deterministic_setup false
      "deterministic setup or mesh recovery is required before CFD"
  else if onlyMissingVideo reasons then
    plan missing_derived_media repair_media false
      "coefficients are usable but required stored media is missing"
  else if (mean > 0)%js then
    plan stationary_aperiodic_candidate rerun_statistical_mean_contract true
      "retrospective evidence supports the separate aperiodic statistical-mean contract"
  else if hasRestartableEvidence input && incomplete reasons text &&
          negb (bool_decide (continuationProgressed input = Some false)) then
    plan incomplete_observation continue_exact_case false
      "the exact saved trajectory still has measurable recovery progress"
  else if (noise > 0)%js || is_label (failureDisposition input) "hard_solver" ||
          String.eqb (status input) "failed" then
    plan numerical_instability rerun_conservative_numerics true
      "the next physical attempt must change numerical execution"
  else
    plan nonpublishable_evidence rerun_fresh true
      "the stored attempt is nonpublishable and has no safe continuation".

Definition outcomeBase (action : PrecalcRecoveryAction) : string :=
  match action with
  | retry_infrastructure => "infrastructure_retry"
  | recover_deterministic_setup => "deterministic_setup_recovery"
  | repair_media => "media_repair"
  | continue_exact_case => "observation_continuation"
  | rerun_statistical_mean_contract => "aperiodic_contract_retry"
  | rerun_conservative_numerics => "numerical_recovery"
  | rerun_fresh => "fresh_physical_retry"
  end.

Definition precalcRecoveryOutcome (plan : PrecalcRecoveryPlan) (exhausted : bool) : string :=
  outcomeBase (action plan) +:+ "_" +:+ (if exhausted then "exhausted" else "pending").

(** ** Scores *)

Definition unit_score (x : jsnum) : Prop := isNaN x = false /\ (0 <= ord x <= ord 1%float)%Z.

Lemma unit_score_0 : unit_score 0%float.
Proof. split; [done|]. rewrite ord_0. pose proof one_ord_pos. split; [lia|]. by vm_compute. Qed.

Lemma ord_1_pos : (0 < ord 1%float)%Z.
Proof. by vm_compute. Qed.

Lemma clamp01_unit (value : option jsnum) : unit_score (clamp01 value).
Proof.
  unfold clamp01. destruct value as [v|]; [|apply unit_score_0].
  destruct (isFinite v) eqn:Fv; [|apply unit_score_0].
  destruct (Math_min_ord 1%float v) as [Hn Ho]; [done|auto with js|].
  destruct (Math_max_ord 0%float (Math_min 1 v)) as [Hn' Ho']; [done..|].
  split; [done|]. rewrite Ho', Ho, ord_0. pose proof ord_1_pos. lia.
Qed.

Lemma normalizedCount_unit (value : option jsnum) (required : jsnum) :
  unit_score (normalizedCount value required).
Proof.
  unfold normalizedCount. destruct value as [v|]; [|apply unit_score_0].
  destruct (_ && _); [apply clamp01_unit|apply unit_score_0].
Qed.

Lemma unit_max (x y : jsnum) : unit_score x -> unit_score y -> unit_score (Math_max x y).
Proof.
  intros [Nx Ox] [Ny Oy]. destruct (Math_max_ord x y Nx Ny) as [Hn Ho]. split; [done|]. lia.
Qed.

Lemma unit_min (x y : jsnum) : unit_score x -> unit_score y -> unit_score (Math_min x y).
Proof.
  intros [Nx Ox] [Ny Oy]. destruct (Math_min_ord x y Nx Ny) as [Hn Ho]. split; [done|]. lia.
Qed.

#[local] Hint Resolve clamp01_unit normalizedCount_unit unit_max unit_min : core.

Lemma scores_unit (input : PrecalcRecoveryPolicyInput) (text : string) :
  let '(evidence, mean, noise) := scores input text in
  unit_score evidence /\ unit_score mean /\ unit_score noise.
Proof. unfold scores, inferredNumericalNoise. auto 7. Qed.

(** A plan consumes a solver attempt exactly when it is a rerun, and the typed
    cause determines the action. *)
Definition is_rerun (a : PrecalcRecoveryAction) : bool :=
  match a with
  | rerun_statistical_mean_contract | rerun_conservative_numerics | rerun_fresh => true
  | _ => false
  end.

Definition action_of (f : PrecalcFailureType) : PrecalcRecoveryAction :=
  match f with
  | infrastructure_interruption => retry_infrastructure
  | deterministic_setup_failure => recover_deterministic_setup
  | missing_derived_media => repair_media
  | incomplete_observation => continue_exact_case
  | stationary_aperiodic_candidate => rerun_statistical_mean_contract
  | numerical_instability => rerun_conservative_numerics
  | nonpublishable_evidence => rerun_fresh
  end.

Ltac split_plan :=
  unfold planPrecalcRecovery; cbv zeta;
  match goal with |- context [scores ?i ?t] => destruct (scores i t) as [[evidence mean] noise] eqn:?
  end;
  repeat match goal with |- context [if ?b then _ else _] => destruct b eqn:? end;
  cbn [failureType action consumesSolverAttempt evidenceCompleteness statisticalMeanScore
       numericalNoiseScore].

(** Every score of a plan is a number between 0 and 1, the action is the one
    of the typed cause, and a solver attempt is consumed exactly by a rerun:
    infrastructure, setup, media and same-case recoveries are free. *)
Theorem planPrecalcRecovery_scores (input : PrecalcRecoveryPolicyInput) :
  let plan := planPrecalcRecovery input in
  unit_score (evidenceCompleteness plan) /\ unit_score (statisticalMeanScore plan) /\
  unit_score (numericalNoiseScore plan) /\
  action plan = action_of (failureType plan) /\
  consumesSolverAttempt plan = is_rerun (action plan).
Proof.
  cbv zeta. pose proof (scores_unit input (normalizedText input)) as H.
  split_plan; tauto.
Qed.

(** The statistical-mean score of every plan. *)
Definition meanScore (input : PrecalcRecoveryPolicyInput) : jsnum := clamp01 (inputMeanScore input).

(** The action as the ladder of guards, apart from the plan's other fields. *)
Lemma plan_action (input : PrecalcRecoveryPolicyInput) :
  let reasons := dedup_strings (default [] (classificationReasons input)) in
  let text := normalizedText input in
  let noise := snd (scores input text) in
  action (planPrecalcRecovery input) =
    if is_label (failureDisposition input) "material_domain" then recover_deterministic_setup
    else if infrastructureEnded input text then retry_infrastructure
    else if is_label (failureDisposition input) "deterministic_mesh" ||
            JsString.includes text "deterministic-mesh" then recover_deterministic_setup
    else if onlyMissingVideo reasons then repair_media
    else if (meanScore input > 0)%js then rerun_statistical_mean_contract
    else if hasRestartableEvidence input && incomplete reasons text &&
            negb (bool_decide (continuationProgressed input = Some false))
    then continue_exact_case
    else if (noise > 0)%js || is_label (failureDisposition input) "hard_solver" ||
            String.eqb (status input) "failed" then rerun_conservative_numerics
    else rerun_fresh.
Proof.
  cbv zeta. unfold planPrecalcRecovery, meanScore, scores. cbv zeta. cbn [snd].
  repeat match goal with |- context [if ?b then _ else _] => destruct b end; done.
Qed.

Lemma meanScore_zero (input : PrecalcRecoveryPolicyInput) :
  PrimFloat.ltb 0 (meanScore input) = false <-> ord (meanScore input) = 0%Z.
Proof.
  destruct (clamp01_unit (inputMeanScore input)) as [Hn Ho]. fold (meanScore input) in *.
  rewrite ltb_false_ord, ord_0 by done. lia.
Qed.

Ltac refuted := solve [split; [intros [=]|intros ((? & ? & ?) & ? & ? & ? & ? & ? & ?); congruence]].

(** The saved trajectory is continued exactly when it is restartable and
    incomplete, its last continuation did not fail to progress, and nothing that
    takes precedence applies: no material, mesh or infrastructure cause, not a
    mere missing video, and no statistical-mean support. *)
Theorem planPrecalcRecovery_continues (input : PrecalcRecoveryPolicyInput) :
  let reasons := dedup_strings (default [] (classificationReasons input)) in
  let text := normalizedText input in
  action (planPrecalcRecovery input) = continue_exact_case <->
  (hasRestartableEvidence input = true /\ incomplete reasons text = true /\
   continuationProgressed input <> Some false) /\
  is_label (failureDisposition input) "material_domain" = false /\
  infrastructureEnded input text = false /\
  is_label (failureDisposition input) "deterministic_mesh" = false /\
  JsString.includes text "deterministic-mesh" = false /\
  onlyMissingVideo reasons = false /\
  ord (meanScore input) = 0%Z.
Proof.
  cbv zeta. rewrite plan_action, <- meanScore_zero. cbv zeta.
  destruct (is_label (failureDisposition input) "material_domain"); [refuted|].
  destruct (infrastructureEnded _ _); [refuted|].
  destruct (is_label (failureDisposition input) "deterministic_mesh"); [refuted|].
  destruct (JsString.includes _ "deterministic-mesh"); [refuted|].
  destruct (onlyMissingVideo _); [refuted|].
  destruct (PrimFloat.ltb 0 (meanScore input)); [refuted|].
  case_bool_decide as Ed; destruct (hasRestartableEvidence input), (incomplete _ _);
    cbn [andb orb negb]; try destruct (_ || _ || _); try refuted.
  split; [intros _; by split_and!|done].
Qed.

(** The outcome label is injective: it identifies the action and whether its
    ladder is exhausted. *)
Theorem precalcRecoveryOutcome_injective (p q : PrecalcRecoveryPlan) (e f : bool) :
  precalcRecoveryOutcome p e = precalcRecoveryOutcome q f <-> action p = action q /\ e = f.
Proof.
  unfold precalcRecoveryOutcome. split; [|by intros [-> ->]].
  destruct (action p), (action q), e, f; intros E; vm_compute in E; first [by split | discriminate E].
Qed.
