(* ===== verification/Lifecycle.v ===== *)
(** * Queue lifecycle classification ([packages/engine-client/src/lifecycle.ts])

    One verdict on a queued job from its database row, the engine's runtime
    summary and the Celery inventory.  Dates are epoch milliseconds (NaN for an
    invalid one); the date parser of the host is a parameter.  Proved: which
    verdicts each state carries, and exactly when a job is recovered (requeued),
    so that a job with any sign of life never is. *)

From Stdlib Require Import ZArith Lia Bool Ascii String.
From Stdlib Require Import Floats.
From stdpp Require Import base list strings option numbers.
From S2P Require Import Prelude JsNumber JsString.

Local Open Scope string_scope.
Local Open Scope list_scope.

Inductive QueueRuntimeState :=
  | not_submitted | worker_visible | detached_running | result_ready | missing_grace | orphaned
  | corrupt_status | corrupt_result | unknown.

#[export] Instance runtime_state_eq_dec : EqDecision QueueRuntimeState.
Proof. solve_decision. Defined.

(** A date field: an ISO string or a [Date] object with its time value. *)
Inductive date_value := DateString (s : string) | DateObject (ms : jsnum).

Record QueueLifecycleJob := {
  status : string;
  engineJobId : option string;
  engineState : option string;
  createdAt : option date_value;
  submittedAt : option date_value;
  polledAt : option date_value;
  pendingAgeSec : option jsnum;
}.

Record QueueLifecycleOptions := {
  staleMs : option jsnum;
  missingRequeueMs : option jsnum;
  recoverImmediately : bool;
}.

(** The fields of the engine's runtime summary that the classifier reads. *)
Record JobRuntimeSummary := {
  process_count : option jsnum;
  runtime_heartbeat_age_sec : option jsnum;
  has_result : bool;
  result_readable : bool;
  result_state : option string;
  result_error : option string;
  status_error : option string;
}.

Record EngineQueueState := {
  job_ids : list string;
  active : list (option string);
  reserved : list (option string);
  scheduled : list (option string);
}.

Record QueueLifecycleClassification := {
  runtimeState : QueueRuntimeState;
  stale : bool;
  recoverable : bool;
  needsIngest : bool;
  engineQueueMatch : bool;
  processCount : jsnum;
  resultReady : bool;
  staleReason : option string;
}.

Definition DEFAULT_STALE_MS : jsnum := (30 * 60 * 1000)%float.
Definition DEFAULT_MISSING_REQUEUE_MS : jsnum := (10 * 60 * 1000)%float.

(** A string field is falsy when absent or empty. *)
Definition truthy_string (o : option string) : option string :=
  match o with Some s => if nonempty s then Some s else None | None => None end.

Definition engineQueueListsJob (queue : option EngineQueueState) (id : option string) : bool :=
  match queue, truthy_string id with
  | Some q, Some id =>
      List.existsb (String.eqb id) (job_ids q) ||
      List.existsb (fun task => match task with Some j => String.eqb j id | None => false end)
        (active q ++ reserved q ++ scheduled q)
  | _, _ => false
  end.

Section Lifecycle.
(** [new Date(string).getTime()] of the host. *)
Context (Date_parse : string -> jsnum).

Definition dateOrNull (value : option date_value) : option jsnum :=
  match value with
  | None => None
  | Some (DateObject ms) => if isNaN ms then None else Some ms
  | Some (DateString s) =>
      if nonempty s then if isNaN (Date_parse s) then None else Some (Date_parse s) else None
  end.

(** [a ?? b] *)
Definition or_else {A} (a b : option A) : option A :=
  match a with Some _ => a | None => b end.

Definition ageStart (job : QueueLifecycleJob) (fallback : jsnum) : jsnum :=
  default fallback (or_else (dateOrNull (submittedAt job)) (dateOrNull (createdAt job))).

Definition isActive (status : string) : bool :=
  List.existsb (String.eqb status) ["pending"; "submitted"; "running"; "ingesting"].

Definition runtime_field {A} (runtime : option JobRuntimeSummary)
    (f : JobRuntimeSummary -> option A) : option A :=
  match runtime with Some r => f r | None => None end.

Definition pendingAgeMs (job : QueueLifecycleJob) (now : jsnum) : jsnum :=
  match pendingAgeSec job with
  | None => Math_max 0 (now - ageStart job now)
  | Some age => Math_max 0 (age * 1000)
  end%float.

Definition processCountOf (runtime : option JobRuntimeSummary) : jsnum :=
  Math_max 0 (default 0%float (runtime_field runtime process_count)).

Definition heartbeatAlive (runtime : option JobRuntimeSummary) : bool :=
  match runtime_field runtime runtime_heartbeat_age_sec with
  | Some age => isFinite age && (age <= 120)%js
  | None => false
  end.

Definition resultReadyOf (runtime : option JobRuntimeSummary) : bool :=
  match runtime with
  | Some r => has_result r && result_readable r &&
              match truthy_string (result_state r) with Some _ => true | None => false end
  | None => false
  end.

(** [active && pendingAgeMs > staleMs] *)
Definition overdue (job : QueueLifecycleJob) (now : jsnum) (options : QueueLifecycleOptions) :
    bool :=
  isActive (status job) &&
  (pendingAgeMs job now > default DEFAULT_STALE_MS (staleMs options))%js.

Definition missingSince (job : QueueLifecycleJob) : option jsnum :=
  if match engineState job with Some s => String.eqb s "missing" | None => false end
  then or_else (dateOrNull (polledAt job))
         (or_else (dateOrNull (submittedAt job)) (dateOrNull (createdAt job)))
  else None.

Definition missingAgeMs (job : QueueLifecycleJob) (now : jsnum) : jsnum :=
  match missingSince job with
  | Some since => Math_max 0 (now - since)
  | None => 0
  end%float.

Definition graceOver (job : QueueLifecycleJob) (now : jsnum) (options : QueueLifecycleOptions) :
    bool :=
  recoverImmediately options ||
  (missingAgeMs job now >= default DEFAULT_MISSING_REQUEUE_MS (missingRequeueMs options))%js.

Definition plural (count : jsnum) : string := if (count === 1)%js then "" else "es".

Definition detachedReason (runtime : option JobRuntimeSummary) : string :=
  let count := processCountOf runtime in
  match truthy_string (runtime_field runtime status_error) with
  | Some _ =>
      if (count > 0)%js
      then "status file is unreadable, but " +:+ Number_toString count +:+ " OpenFOAM process" +:+
           plural count +:+ " still run"
      else "status file is unreadable, but the worker heartbeat is still fresh"
  | None =>
      if (count > 0)%js
      then Number_toString count +:+ " OpenFOAM process" +:+ plural count +:+
           " still run although Celery no longer lists the task"
      else "worker heartbeat is still fresh although Celery no longer lists the task"
  end.

Definition classifyQueueLifecycle (job : QueueLifecycleJob) (runtime : option JobRuntimeSummary)
    (queue : option EngineQueueState) (now : jsnum) (options : QueueLifecycleOptions) :
    QueueLifecycleClassification :=
  let active := isActive (status job) in
  let late := overdue job now options in
  let count := processCountOf runtime in
  let ready := resultReadyOf runtime in
  let listed := engineQueueListsJob queue (engineJobId job) in
  let verdict state stale recoverable needsIngest reason :=
    {| runtimeState := state; stale := stale; recoverable := recoverable;
       needsIngest := needsIngest; engineQueueMatch := listed; processCount := count;
       resultReady := ready; staleReason := reason |} in
  match truthy_string (engineJobId job) with
  | None =>
      verdict not_submitted late false false
        (if late then Some "job has not been submitted to the engine" else None)
  | Some _ =>
      if ready then
        verdict result_ready false false active
          (if active then Some "engine result file is ready for ingestion" else None)
      else match truthy_string (runtime_field runtime result_error) with
      | Some e =>
          let lost := late && (count === 0)%js in
          verdict corrupt_result lost lost false
            (Some ("engine result file is unreadable: " +:+ e))
      | None =>
          if listed then verdict worker_visible false false false None
          else if (count > 0)%js || heartbeatAlive runtime then
            verdict (match truthy_string (runtime_field runtime status_error) with
                     | Some _ => corrupt_status | None => detached_running end)
              false false false (Some (detachedReason runtime))
          else match truthy_string (runtime_field runtime status_error) with
          | Some e =>
              verdict corrupt_status late late false
                (Some ("status file is unreadable and no OpenFOAM process is running: " +:+ e))
          | None =>
              if late then
                let recoverable := graceOver job now options in
                verdict (if recoverable then orphaned else missing_grace) true recoverable false
                  (Some (if recoverable
                         then "engine job is absent from Celery, has no OpenFOAM process, and no readable result file"
                         else "engine job is absent from Celery; waiting through missing-job grace before recovery"))
              else verdict unknown false false false None
          end
      end
  end.

(** ** Properties *)

Definition present (o : option string) : bool :=
  match truthy_string o with Some _ => true | None => false end.

Definition no_process (runtime : option JobRuntimeSummary) : Prop :=
  (processCountOf runtime > 0)%js = false.

(** When a job is taken from the engine and requeued. *)
Definition recovery_conditions (job : QueueLifecycleJob) (runtime : option JobRuntimeSummary)
    (queue : option EngineQueueState) (now : jsnum) (options : QueueLifecycleOptions) : Prop :=
  present (engineJobId job) = true /\ resultReadyOf runtime = false /\
  overdue job now options = true /\
  ((present (runtime_field runtime result_error) = true /\
    (processCountOf runtime === 0)%js = true) \/
   (present (runtime_field runtime result_error) = false /\
    engineQueueListsJob queue (engineJobId job) = false /\
    no_process runtime /\ heartbeatAlive runtime = false /\
    (present (runtime_field runtime status_error) = true \/ graceOver job now options = true))).

Section Verdict.
Context (job : QueueLifecycleJob) (runtime : option JobRuntimeSummary)
        (queue : option EngineQueueState) (now : jsnum) (options : QueueLifecycleOptions).
Let c := classifyQueueLifecycle job runtime queue now options.

Ltac verdict_done := solve [cbn; intuition discriminate].

Ltac split_verdict :=
  unfold c, classifyQueueLifecycle, recovery_conditions, present, no_process;
  destruct (truthy_string (engineJobId job)); [|verdict_done];
  destruct (resultReadyOf runtime); [verdict_done|];
  destruct (truthy_string (runtime_field runtime result_error));
  [destruct (overdue job now options), (PrimFloat.eqb (processCountOf runtime) 0); verdict_done|];
  destruct (engineQueueListsJob queue (engineJobId job)); [verdict_done|];
  destruct (PrimFloat.ltb 0 (processCountOf runtime)), (heartbeatAlive runtime);
  destruct (truthy_string (runtime_field runtime status_error)); cbn [orb]; try verdict_done;
  destruct (overdue job now options); try verdict_done;
  destruct (graceOver job now options); verdict_done.

(** A job is recovered exactly under [recovery_conditions]: it was
    submitted, has no readable result, is active and overdue, and either its
    result is corrupt with no process left, or it is absent from Celery, has no
    process and no fresh heartbeat, and its status is unreadable or the
    missing-job grace is over.  A job with a sign of life is never requeued. *)
Theorem lifecycle_recoverable :
  recoverable c = true <-> recovery_conditions job runtime queue now options.
Proof. split_verdict. Qed.

(** The flags of a verdict are consistent: what is recoverable is stale and
    not ingested; a result is ingested exactly when it is ready and the job is
    active, and then the job is neither stale nor recoverable; only an active
    job that is overdue is stale. *)
Theorem lifecycle_flags :
  (recoverable c = true -> stale c = true /\ needsIngest c = false) /\
  (stale c = true -> overdue job now options = true) /\
  (needsIngest c = true <->
     runtimeState c = result_ready /\ isActive (status job) = true) /\
  (runtimeState c = result_ready <-> present (engineJobId job) = true /\ resultReadyOf runtime = true) /\
  (runtimeState c = result_ready -> stale c = false) /\
  (runtimeState c = orphaned -> recoverable c = true) /\
  (runtimeState c = missing_grace -> stale c = true /\ recoverable c = false).
Proof. split_verdict. Qed.
End Verdict.
End Lifecycle.
