(* ===== verification/Background.v ===== *)
(** * Background control of the sweeper

    [apps/sweeper/src/engine-backoff.ts]: the in-memory exponential backoff and
    the banner row it keeps in [sweeper_state].  [apps/sweeper/src/single-flight.ts]:
    the runner that admits one background task at a time, as a step relation
    over calls and settlements of the tasks' promises. *)

From Stdlib Require Import ZArith Lia Bool Ascii String.
From Stdlib Require Import Floats.
From stdpp Require Import base list strings option numbers.
From S2P Require Import Prelude JsNumber JsString.

Local Open Scope list_scope.

Module Backoff.

Definition BASE_BACKOFF_MS : jsnum := 5000%float.
Definition MAX_BACKOFF_MS : jsnum := 300000%float.

(** The module's variables and the row of [sweeper_state] it updates. *)
Record state := {
  consecutiveFailures : nat;
  nextAttemptAt : jsnum;
  engineUnreachableSince : option jsnum;
}.

(** [2 ** k] *)
Definition pow2 (k : nat) : jsnum :=
  if Nat.leb 1024 k then PrimFloat.infinity else of_Z (2 ^ Z.of_nat k).

Definition engineBackoffActive (st : state) (now : jsnum) : bool := (now < nextAttemptAt st)%js.

Definition backoffOf (failures : nat) : jsnum :=
  match failures with
  | O => 0%float
  | S k => Math_min MAX_BACKOFF_MS (BASE_BACKOFF_MS * pow2 k)
  end.

Definition currentBackoffMs (st : state) : jsnum := backoffOf (consecutiveFailures st).

(** [Date.now()] and the database's [now()] at the call. *)
Definition recordEngineUnreachable (st : state) (now dbNow : jsnum) : state :=
  let failures := S (consecutiveFailures st) in
  {| consecutiveFailures := failures;
     nextAttemptAt := (now + backoffOf failures)%float;
     engineUnreachableSince :=
       match engineUnreachableSince st with Some t => Some t | None => Some dbNow end |}.

Definition clearEngineUnreachable (st : state) : state :=
  {| consecutiveFailures := 0; nextAttemptAt := 0%float; engineUnreachableSince := None |}.

Definition initial : state :=
  {| consecutiveFailures := 0; nextAttemptAt := 0%float; engineUnreachableSince := None |}.

Inductive event := Failure (now dbNow : jsnum) | Success.

Definition step (st : state) (e : event) : state :=
  match e with
  | Failure now dbNow => recordEngineUnreachable st now dbNow
  | Success => clearEngineUnreachable st
  end.

Definition run (es : list event) : state := fold_left step es initial.

(** The exact backoff after [n] consecutive failures: 5 s doubling up to 5 min. *)
Definition backoff_ms (n : nat) : Z :=
  match n with O => 0 | S k => Z.min 300000 (5000 * 2 ^ Z.of_nat k) end.

Lemma backoffOf_spec (n : nat) : backoffOf n = of_Z (backoff_ms n).
Proof.
  destruct n as [|k]; [reflexivity|]. destruct (decide (k < 1024)%nat) as [Hk|Hk].
  - assert (H : forallb (fun k => bool_decide (backoffOf (S k) = of_Z (backoff_ms (S k))))
                  (seq 0 1024) = true) by (vm_compute; reflexivity).
    rewrite forallb_forall in H. specialize (H k). rewrite bool_decide_eq_true in H.
    apply H, in_seq. lia.
  - unfold backoffOf, backoff_ms, pow2. rewrite (proj2 (Nat.leb_le 1024 k)) by lia.
    assert (2 ^ 1024 <= 2 ^ Z.of_nat k)%Z by (apply Z.pow_le_mono_r; lia).
    assert (300000 <= 5000 * 2 ^ 1024)%Z by (vm_compute; discriminate).
    rewrite Z.min_l by lia. vm_compute. reflexivity.
Qed.

Lemma backoff_ms_bounds (n : nat) : (0 <= backoff_ms n <= 300000)%Z.
Proof.
  destruct n as [|k]; cbn [backoff_ms]; [lia|]. pose proof (Z.pow_pos_nonneg 2 (Z.of_nat k)). lia.
Qed.

(** The failures since the last success, latest last. *)
Definition add_failure (acc : list (jsnum * jsnum)) (e : event) : list (jsnum * jsnum) :=
  match e with Failure now dbNow => acc ++ [(now, dbNow)] | Success => [] end.
Definition pending_failures (es : list event) : list (jsnum * jsnum) :=
  fold_left add_failure es [].

Lemma run_snoc (es : list event) (e : event) : run (es ++ [e]) = step (run es) e.
Proof. unfold run. by rewrite fold_left_app. Qed.

Lemma pending_snoc (es : list event) (e : event) :
  pending_failures (es ++ [e]) = add_failure (pending_failures es) e.
Proof. unfold pending_failures. by rewrite fold_left_app. Qed.

Lemma run_spec (es : list event) :
  consecutiveFailures (run es) = length (pending_failures es) /\
  engineUnreachableSince (run es) = option_map snd (head (pending_failures es)).
Proof.
  induction es as [|e es [IHn IHd]] using rev_ind; [done|].
  rewrite run_snoc, pending_snoc. destruct e as [now dbNow|]; [|done].
  cbn [step add_failure recordEngineUnreachable consecutiveFailures engineUnreachableSince].
  rewrite IHn, IHd, length_app. cbn [length]. split; [lia|].
  by destruct (pending_failures es) as [|[]].
Qed.

(** After any history that ends with a failure at time [t], submission
    stays quiet exactly until [t] plus 5 s doubled for every earlier failure
    since the last success, capped at 5 minutes; and the banner row keeps the
    time of the first of those failures. *)
Theorem backoff_window (es : list event) (now dbNow now' : jsnum) (t t' : Z) :
  let st := run (es ++ [Failure now dbNow]) in
  let n := S (length (pending_failures es)) in
  to_integer now = Some t -> to_integer now' = Some t' ->
  (0 <= t)%Z -> (t + 300000 <= 2 ^ 53)%Z ->
  (engineBackoffActive st now' = true <-> (t' < t + backoff_ms n)%Z) /\
  engineUnreachableSince st =
    Some (match pending_failures es with (_, first) :: _ => first | [] => dbNow end).
Proof.
  cbv zeta. intros Ht Ht' Hpos Hmax. destruct (run_spec es) as [Hn Hd].
  rewrite run_snoc. cbn [step]. split.
  - unfold engineBackoffActive, recordEngineUnreachable. cbn [nextAttemptAt].
    rewrite Hn, backoffOf_spec.
    pose proof (backoff_ms_bounds (S (length (pending_failures es)))) as Hb.
    rewrite (ltb_integer _ _ t' (t + backoff_ms (S (length (pending_failures es))))).
    + apply Z.ltb_lt.
    + exact Ht'.
    + apply add_integer; [exact Ht|apply of_Z_integer|]; lia.
  - cbn [recordEngineUnreachable engineUnreachableSince]. rewrite Hd.
    by destruct (pending_failures es) as [|[]].
Qed.

(** The backoff is idle exactly when there is no failure since the last
    success: then nothing is delayed and the banner is cleared. *)
Theorem backoff_idle (es : list event) :
  (consecutiveFailures (run es) = 0%nat <-> pending_failures es = []) /\
  (engineUnreachableSince (run es) = None <-> pending_failures es = []) /\
  run (es ++ [Success]) = initial.
Proof.
  destruct (run_spec es) as [-> ->]. split; [by rewrite length_zero_iff_nil|].
  split; [by destruct (pending_failures es)|]. by rewrite run_snoc.
Qed.

Lemma backoff_window_witness :
  engineBackoffActive (run [Failure 1000 7; Failure 7000 8; Success; Failure 10000 9;
                            Failure 16000 10]%float) 25999%float = true <->
  (25999 < 16000 + backoff_ms 2)%Z.
Proof.
  apply (backoff_window [Failure 1000 7; Failure 7000 8; Success; Failure 10000 9]%float
           16000%float 10%float 25999%float 16000 25999); vm_compute; discriminate || reflexivity.
Defined.
End Backoff.

Module SingleFlight.

(** Tasks are identified by their call; [running] is the runner's promise and
    [inflight] the tasks that were started and have not settled. *)
Record state := {
  running : option nat;
  inflight : list nat;
  errors : list nat;
}.

Definition initial : state := {| running := None; inflight := []; errors := [] |}.

(** One call of the runner: the returned flag and the next state. *)
Definition call (st : state) (task : nat) : bool * state :=
  match running st with
  | Some _ => (false, st)
  | None => (true, {| running := Some task; inflight := task :: inflight st;
                      errors := errors st |})
  end.

(** The chain of a started task after it settles: a rejection is reported, and
    the slot is released in both cases. *)
Definition settle (st : state) (task : nat) (rejected : bool) : state :=
  {| running := None;
     inflight := List.filter (fun t => negb (Nat.eqb t task)) (inflight st);
     errors := if rejected then errors st ++ [task] else errors st |}.

Inductive step : state -> state -> Prop :=
  | step_call st task : step st (snd (call st task))
  | step_settle st task rejected : In task (inflight st) -> step st (settle st task rejected).

Inductive reachable : state -> Prop :=
  | reach_initial : reachable initial
  | reach_step st st' : reachable st -> step st st' -> reachable st'.

(** The slot holds exactly the task in flight. *)
Definition slot_invariant (st : state) : Prop :=
  inflight st = match running st with Some t => [t] | None => [] end.

Lemma slot_invariant_step (st st' : state) :
  slot_invariant st -> step st st' -> slot_invariant st'.
Proof.
  unfold slot_invariant. intros Hinv Hs. destruct Hs as [st task|st task rejected Hin].
  - unfold call. destruct (running st) eqn:E; cbn; [by rewrite E|]. by rewrite Hinv.
  - cbn. rewrite Hinv in *. destruct (running st) as [t|]; [|done].
    destruct Hin as [->|[]]. cbn. by rewrite Nat.eqb_refl.
Qed.

Lemma reachable_slot (st : state) : reachable st -> slot_invariant st.
Proof. induction 1; [done|]. by eapply slot_invariant_step. Qed.

(** In every reachable state at most one task is in flight; a call is
    admitted exactly when none is, a refused call changes nothing, and the
    settlement of the task in flight frees the slot whether it resolves or
    rejects, with a rejection reported. *)
Theorem single_flight (st : state) :
  reachable st ->
  (length (inflight st) <= 1)%nat /\
  (forall task, fst (call st task) = true <-> inflight st = []) /\
  (forall task, fst (call st task) = false -> snd (call st task) = st) /\
  (forall task rejected, In task (inflight st) ->
     inflight (settle st task rejected) = [] /\
     fst (call (settle st task rejected) task) = true /\
     (rejected = true -> In task (errors (settle st task rejected)))).
Proof.
  intros Hr%reachable_slot. unfold slot_invariant in Hr. rewrite Hr. unfold call.
  destruct (running st) as [t|] eqn:E; cbn.
  - split; [lia|]. split; [naive_solver|]. split; [naive_solver|].
    intros task rejected [->|[]]. rewrite Hr. cbn. rewrite Nat.eqb_refl.
    split; [done|]. split; [done|]. intros ->. apply in_app_iff. right. by left.
  - split; [lia|]. split; [naive_solver|]. split; [naive_solver|]. done.
Qed.

Lemma single_flight_witness :
  (length (inflight (settle (snd (call initial 3)) 3 true)) <= 1)%nat.
Proof.
  apply (single_flight (settle (snd (call initial 3)) 3 true)).
  eapply reach_step; [eapply reach_step; [constructor|apply step_call]|].
  apply step_settle. by left.
Defined.
End SingleFlight.
