(* ===== verification/Canonical.v ===== *)
(** * Canonical values ([packages/core/src/canonical.ts])

    Half-even rounding on the shortest round-trip decimal of a number, done on
    digit strings, and the expansion of an angle grid.  The digit routines are
    proved equivalent to integer arithmetic: [incrementDigits] adds one, and
    [roundHalfEvenFixed] prints the half-even rounding of the decimal it is
    given.  The range loop is proved to terminate with the expected steps. *)

From Stdlib Require Import ZArith Lia Bool Ascii String.
From Stdlib Require Import Floats.
From stdpp Require Import base list strings option numbers.
From S2P Require Import Prelude JsNumber JsString JsArray.

Local Open Scope string_scope.

(** ** Slices of a string *)

(** [s.slice(0, n)] and [s.slice(n)]. *)
Fixpoint slice_to (n : nat) (s : string) : string :=
  match n, s with
  | S n', String c s' => String c (slice_to n' s')
  | _, _ => EmptyString
  end.

Fixpoint slice_from (n : nat) (s : string) : string :=
  match n, s with
  | S n', String _ s' => slice_from n' s'
  | _, _ => s
  end.

(** [s.indexOf(c)] *)
Fixpoint indexOf (c : ascii) (s : string) : option nat :=
  match s with
  | EmptyString => None
  | String d s' => if Ascii.eqb d c then Some O else option_map S (indexOf c s')
  end.

Definition is_digit (c : ascii) : bool :=
  match digit_of c with Some _ => true | None => false end.

(** [s.replace(/^0+(?=\d)/, "")] *)
Fixpoint strip_zeros (s : string) : string :=
  match s with
  | String c (String d _ as s') =>
      if Ascii.eqb c "0" && is_digit d then strip_zeros s' else s
  | _ => s
  end.

(** [s.replace(/0+$/, "")] *)
Fixpoint strip_trailing (s : string) : string :=
  match s with
  | EmptyString => EmptyString
  | String c s' =>
      match strip_trailing s' with
      | EmptyString => if Ascii.eqb c "0" then EmptyString else String c EmptyString
      | t => String c t
      end
  end.

(** ** The digits of a number *)

Inductive CanonicalSiKind := temperatureK | pressurePa | speedMps | chordM | spanM | areaM2.

Definition SI_DECIMALS (kind : CanonicalSiKind) : nat :=
  match kind with
  | temperatureK => 2 | pressurePa => 0 | speedMps => 3 | chordM => 4 | spanM => 4 | areaM2 => 6
  end.

Definition AOA_DECIMALS : nat := 4.
Definition AOA_SCALE : jsnum := 10000%float.

Record DecimalDigits := { neg : bool; int : string; frac : string }.

(** The exponent after the [e] of [Number.prototype.toString], an integer. *)
Definition exponent_of (s : string) : Z := default 0%Z (to_integer (string_to_number s)).

Definition decimalDigits (x : jsnum) : DecimalDigits :=
  let neg := (x < 0)%js in
  let s0 := Number_toString (PrimFloat.abs x) in
  let '(s, exp) := match indexOf "e" s0 with
    | Some eIdx => (slice_to eIdx s0, exponent_of (slice_from (S eIdx) s0))
    | None => (s0, 0%Z)
    end in
  let '(int, frac) := match indexOf "." s with
    | Some dot => (slice_to dot s, slice_from (S dot) s)
    | None => (s, "")
    end in
  let '(int, frac) :=
    if (0 <? exp)%Z then
      let e := Z.to_nat exp in
      if Nat.leb (String.length frac) e then (int ++ padEnd frac e "0", "")
      else (int ++ slice_to e frac, slice_from e frac)
    else if (exp <? 0)%Z then
      let shift := Z.to_nat (- exp) in
      let n := String.length int in
      if Nat.leb n shift then ("0", padStart int shift "0" ++ frac)
      else (slice_to (n - shift) int, slice_from (n - shift) int ++ frac)
    else (int, frac) in
  {| neg := neg; int := strip_zeros int; frac := frac |}.

(** The loop of [incrementDigits] from the last digit to the first: the digits
    after the increment, and whether the carry left the string. *)
Fixpoint increment_carry (digits : string) : bool * string :=
  match digits with
  | EmptyString => (true, EmptyString)
  | String c rest =>
      let '(carry, out) := increment_carry rest in
      if carry then
        if Ascii.eqb c "9" then (true, String "0" out)
        else (false, String (ascii_of_nat (code c - 48 + 1 + 48)) out)
      else (false, String c out)
  end.

Definition incrementDigits (digits : string) : string :=
  let '(carry, out) := increment_carry digits in if carry then "1" ++ out else out.

(** [s.charCodeAt(0) - 48] *)
Definition first_digit (s : string) : Z :=
  match s with String c _ => Z.of_nat (code c) - 48 | EmptyString => 0 end%Z.

Fixpoint last_char (s : string) : option ascii :=
  match s with
  | EmptyString => None
  | String c EmptyString => Some c
  | String _ s' => last_char s'
  end.

Definition last_digit (s : string) : Z :=
  match last_char s with Some c => Z.of_nat (code c) - 48 | None => 0 end%Z.

(** The digits of [int.frac] in units of [10^-decimals], rounded half-even. *)
Definition roundDigits (int frac : string) (decimals : nat) : string :=
  let kept := padEnd (slice_to decimals frac) decimals "0" in
  let rest := slice_from decimals frac in
  let digits := int ++ kept in
  let restTrimmed := strip_trailing rest in
  if nonempty restTrimmed then
    let first := first_digit rest in
    if (5 <? first)%Z || ((first =? 5)%Z && Nat.ltb 1 (String.length restTrimmed))
    then incrementDigits digits
    else if (first =? 5)%Z then
      if (last_digit digits mod 2 =? 1)%Z then incrementDigits digits else digits
    else digits
  else digits.

Fixpoint all_zeros (s : string) : bool :=
  match s with EmptyString => true | String c s' => Ascii.eqb c "0" && all_zeros s' end.

Definition layoutFixed (neg : bool) (digits : string) (decimals : nat) : string :=
  let split := (String.length digits - decimals)%nat in
  let intOut0 := strip_zeros (slice_to split digits) in
  let intOut := if nonempty intOut0 then intOut0 else "0" in
  let fracOut := if Nat.eqb decimals 0 then "" else slice_from split digits in
  let isZero := all_zeros (intOut ++ fracOut) in
  (if neg && negb isZero then "-" else "") ++ intOut ++
  (if Nat.eqb decimals 0 then "" else "." ++ fracOut).

Definition roundHalfEvenFixed (x : jsnum) (decimals : nat) : result string :=
  if negb (isFinite x) then
    Throw ("cannot canonicalize non-finite value: " ++ Number_toString x)
  else
    let d := decimalDigits x in
    Ok (layoutFixed (neg d) (roundDigits (int d) (frac d) decimals) decimals).

Definition canonicalAoa (x : jsnum) : result jsnum :=
  (let* s := roundHalfEvenFixed x AOA_DECIMALS in Ok (string_to_number s))%result.

Definition canonicalSi (kind : CanonicalSiKind) (x : jsnum) : result jsnum :=
  (let* s := roundHalfEvenFixed x (SI_DECIMALS kind) in Ok (string_to_number s))%result.

Definition canonicalSiString (kind : CanonicalSiKind) (x : jsnum) : result string :=
  roundHalfEvenFixed x (SI_DECIMALS kind).

Example canonical_ex :
  List.map canonicalAoa [0.00025; -0.00005; 1.23456; 1e-7; 12; -3.14155; 1e21]%float
  = List.map Ok [0.0002; 0; 1.2346; 0; 12; -3.1416; 1e21]%float
  /\ canonicalSiString temperatureK 288.155%float = Ok "288.16"
  /\ canonicalSiString pressurePa 101324.5%float = Ok "101324".
Proof. vm_compute. repeat split; reflexivity. Qed.

(** ** Angle grids *)

Record AngleGridSpec := {
  fromDeg : option jsnum;
  toDeg : option jsnum;
  stepDeg : option jsnum;
  listDeg : option (list jsnum);
}.

Fixpoint mapResult {A B} (f : A -> result B) (l : list A) : result (list B) :=
  match l with
  | [] => Ok []
  | x :: l' => (let* y := f x in let* ys := mapResult f l' in Ok (y :: ys))%result
  end%list.

(** [for (let v = from; v <= to; v += step) out.push(canonicalAoa(v / AOA_SCALE))],
    [None] when the fuel runs out. *)
Fixpoint rangeLoop (fuel : nat) (v to step : jsnum) : option (result (list jsnum)) :=
  match fuel with
  | O => None
  | S fuel' =>
      if (v <= to)%js then
        match canonicalAoa (v / AOA_SCALE)%float with
        | Throw m => Some (Throw m)
        | Ok y =>
            option_map (fun r => (let* ys := r in Ok (y :: ys))%result)
              (rangeLoop fuel' (v + step)%float to step)
        end
      else Some (Ok [])
  end%list.

(** [Math.round(canonicalAoa(x) * AOA_SCALE)] *)
Definition scaledAoa (x : jsnum) : result jsnum :=
  (let* y := canonicalAoa x in Ok (Math_round (y * AOA_SCALE)%float))%result.

Definition finiteField (o : option jsnum) : option jsnum :=
  match o with Some x => if isFinite x then Some x else None | None => None end.

Definition expandAngleGrid (fuel : nat) (spec : AngleGridSpec) : option (result (list jsnum)) :=
  match listDeg spec with
  | Some l =>
      Some (let* angles := mapResult canonicalAoa l in Ok (sort ascending (dedup angles)))%result
  | None =>
      match finiteField (fromDeg spec), finiteField (toDeg spec), finiteField (stepDeg spec) with
      | Some fromDeg, Some toDeg, Some stepDeg =>
          if (stepDeg <= 0)%js then Some (Throw "angle grid stepDeg must be > 0")
          else
            match scaledAoa fromDeg, scaledAoa toDeg, scaledAoa stepDeg with
            | Ok from, Ok to, Ok step =>
                if (step === 0)%js
                then Some (Throw "angle grid stepDeg rounds to zero at 1e-4 deg precision")
                else rangeLoop fuel from to step
            | Throw m, _, _ | Ok _, Throw m, _ | Ok _, Ok _, Throw m => Some (Throw m)
            end
      | _, _, _ =>
          Some (Throw "angle grid requires fromDeg/toDeg/stepDeg when listDeg is absent")
      end
  end.

(** ** The value of a digit string *)

Fixpoint val_from (acc : Z) (s : string) : Z :=
  match s with
  | EmptyString => acc
  | String c s' => val_from (acc * 10 + (Z.of_nat (code c) - 48)) s'
  end%Z.
Definition val (s : string) : Z := val_from 0 s.

Fixpoint all_digits (s : string) : Prop :=
  match s with EmptyString => True | String c s' => is_digit c = true /\ all_digits s' end.

Abbreviation len := String.length.
Abbreviation pow10 n := (10 ^ Z.of_nat n)%Z.

Lemma is_digit_code (c : ascii) : is_digit c = true <-> (48 <= code c <= 57)%nat.
Proof.
  unfold is_digit, digit_of. cbv zeta.
  destruct (Nat.leb_spec 48 (code c)), (Nat.leb_spec (code c) 57); cbn [andb];
    (split; [intros ?; discriminate || lia|intros Hd; try done]). all: lia.
Qed.

Lemma code_ascii (n : nat) : (n < 256)%nat -> code (ascii_of_nat n) = n.
Proof. apply nat_ascii_embedding. Qed.

Lemma code_inj (c d : ascii) : code c = code d -> c = d.
Proof. intros H. rewrite <- (ascii_nat_embedding c), <- (ascii_nat_embedding d). by f_equal. Qed.

Lemma pow10_pos (n : nat) : (0 < pow10 n)%Z.
Proof. apply Z.pow_pos_nonneg; lia. Qed.

Lemma pow10_S (n : nat) : pow10 (S n) = (10 * pow10 n)%Z.
Proof. rewrite Nat2Z.inj_succ, Z.pow_succ_r by lia. done. Qed.

Lemma append_nil (t : string) : "" ++ t = t.
Proof. done. Qed.

Lemma len_app (s t : string) : len (s ++ t) = (len s + len t)%nat.
Proof. induction s as [|c s IH]; [done|]. rewrite append_cons. cbn. by rewrite IH. Qed.

Lemma val_from_acc (s : string) : forall acc, val_from acc s = (acc * pow10 (len s) + val s)%Z.
Proof.
  unfold val. induction s as [|c s IH]; intros acc; cbn [val_from len]; [lia|].
  rewrite IH, (IH (0 * 10 + _)%Z), pow10_S. lia.
Qed.

Lemma val_cons (c : ascii) (s : string) :
  val (String c s) = ((Z.of_nat (code c) - 48) * pow10 (len s) + val s)%Z.
Proof. unfold val at 1. cbn [val_from]. rewrite val_from_acc. lia. Qed.

Lemma val_app (s t : string) : val (s ++ t) = (val s * pow10 (len t) + val t)%Z.
Proof.
  induction s as [|c s IH]; [change (val EmptyString) with 0%Z; rewrite append_nil; lia|].
  rewrite append_cons, !val_cons, IH, len_app, Nat2Z.inj_add, Z.pow_add_r by lia. lia.
Qed.

Lemma val_bounds (s : string) : all_digits s -> (0 <= val s < pow10 (len s))%Z.
Proof.
  induction s as [|c s IH]; [cbn; lia|]. intros [Hc%is_digit_code Hs]. specialize (IH Hs).
  rewrite val_cons. cbn [len]. rewrite pow10_S. nia.
Qed.

Lemma all_digits_app (s t : string) : all_digits (s ++ t) <-> all_digits s /\ all_digits t.
Proof. induction s as [|c s IH]; [cbn; tauto|]. rewrite append_cons. cbn. rewrite IH. tauto. Qed.

Lemma slices (n : nat) (s : string) : slice_to n s ++ slice_from n s = s.
Proof. revert s. induction n as [|n IH]; intros [|c s]; try done.
  cbn [slice_to slice_from]. by rewrite append_cons, IH. Qed.

Lemma len_slice_to (n : nat) (s : string) : len (slice_to n s) = Nat.min n (len s).
Proof. revert s. induction n as [|n IH]; intros [|c s]; cbn; try done. by rewrite IH. Qed.

Lemma len_slice_from (n : nat) (s : string) : len (slice_from n s) = (len s - n)%nat.
Proof. revert s. induction n as [|n IH]; intros [|c s]; cbn; try done. Qed.

Lemma len_repeat (n : nat) (c : ascii) : len (repeat_char n c) = n.
Proof. induction n; cbn; congruence. Qed.

Lemma zeros_spec (n : nat) : all_digits (repeat_char n "0") /\ val (repeat_char n "0") = 0%Z.
Proof.
  induction n as [|n [IH1 IH2]]; [done|]. cbn [repeat_char all_digits]. split; [done|].
  rewrite val_cons, IH2. change (code "0") with 48%nat. lia.
Qed.

Lemma all_digits_slices (n : nat) (s : string) :
  all_digits s -> all_digits (slice_to n s) /\ all_digits (slice_from n s).
Proof. rewrite <- all_digits_app, slices. done. Qed.

Lemma strip_zeros_spec (s : string) :
  all_digits s -> all_digits (strip_zeros s) /\ val (strip_zeros s) = val s /\
  (s <> "" -> strip_zeros s <> "").
Proof.
  induction s as [|c s IH]; [done|]. intros [Hc Hs]. destruct s as [|d s]; [done|].
  change (strip_zeros (String c (String d s))) with
    (if Ascii.eqb c "0" && is_digit d then strip_zeros (String d s) else String c (String d s)).
  destruct (Ascii.eqb_spec c "0") as [->|]; cbn [andb].
  - destruct Hs as [Hd Hs]. rewrite Hd. destruct (IH (conj Hd Hs)) as (H1 & H2 & H3).
    split; [done|]. split; [|by intros _; apply H3].
    rewrite H2, (val_cons "0" (String d s)). change (code "0") with 48%nat. lia.
  - done.
Qed.

Lemma strip_trailing_spec (s : string) :
  exists k, s = strip_trailing s ++ repeat_char k "0".
Proof.
  induction s as [|c s [k IH]]; [by exists O|]. cbn [strip_trailing].
  destruct (strip_trailing s) as [|d t] eqn:E.
  - rewrite append_nil in IH. destruct (Ascii.eqb_spec c "0") as [->|]; [exists (S k)|exists k].
    + cbn [repeat_char]. by rewrite append_nil, IH at 1.
    + by rewrite append_cons, append_nil, IH at 1.
  - exists k. by rewrite append_cons, <- IH.
Qed.

(** The trimmed rest is empty exactly for zero, and ends in another digit. *)
Lemma strip_trailing_zero (s : string) :
  all_digits s -> (nonempty (strip_trailing s) = false <-> val s = 0%Z) .
Proof.
  induction s as [|c s IH]; [done|]. intros [Hc%is_digit_code Hs]. cbn [strip_trailing].
  specialize (IH Hs). pose proof (val_bounds s Hs). pose proof (pow10_pos (len s)).
  rewrite val_cons. destruct (strip_trailing s) as [|d t] eqn:E.
  - destruct IH as [IH _]. rewrite (IH eq_refl).
    destruct (Ascii.eqb_spec c "0") as [->|Hne]; [done|]. split; [done|]. intros Hz.
    exfalso. apply Hne, code_inj. change (code "0") with 48%nat. nia.
  - split; [done|]. intros Hz. exfalso.
    assert (val s <> 0)%Z by (intros E0; apply IH in E0; done). nia.
Qed.

Lemma strip_trailing_single (c : ascii) (s : string) :
  all_digits s -> code c <> 48%nat ->
  (len (strip_trailing (String c s)) = 1%nat <-> val s = 0%Z).
Proof.
  intros Hs Hc. cbn [strip_trailing]. pose proof (strip_trailing_zero s Hs) as Hz.
  destruct (strip_trailing s) as [|d t] eqn:E.
  - destruct (Ascii.eqb_spec c "0") as [->|]; [done|]. cbn. tauto.
  - cbn. cbn in Hz. split; [lia|]. intros E0. by apply Hz in E0.
Qed.

(** ** [incrementDigits] adds one *)

Lemma increment_carry_spec (s : string) :
  all_digits s ->
  let '(carry, out) := increment_carry s in
  all_digits out /\ len out = len s /\
  ((if carry then pow10 (len s) else 0) + val out = val s + 1)%Z.
Proof.
  induction s as [|c s IH]; [by cbn|]. intros [Hc%is_digit_code Hs]. specialize (IH Hs).
  cbn [increment_carry]. destruct (increment_carry s) as [[] out]; destruct IH as (Ho & Hl & Hv).
  - destruct (Ascii.eqb_spec c "9") as [->|Hne].
    + cbn [all_digits len]. split; [done|]. split; [lia|].
      rewrite !val_cons, pow10_S, Hl. change (code "0") with 48%nat. change (code "9") with 57%nat. lia.
    + assert (code c <> 57%nat) by (intros E; apply Hne, code_inj; done).
      assert (Hcode : code (ascii_of_nat (code c - 48 + 1 + 48)) = (code c + 1)%nat)
        by (rewrite code_ascii; lia).
      cbn [all_digits len]. split; [split; [apply is_digit_code; lia|done]|]. split; [lia|].
      rewrite !val_cons, Hl, Hcode. lia.
  - cbn [all_digits len]. split; [split; [by apply is_digit_code|done]|]. split; [lia|].
    rewrite !val_cons, Hl. lia.
Qed.

Lemma incrementDigits_spec (s : string) :
  all_digits s ->
  all_digits (incrementDigits s) /\ val (incrementDigits s) = (val s + 1)%Z /\
  (len s <= len (incrementDigits s))%nat.
Proof.
  intros Hs. pose proof (increment_carry_spec s Hs) as H. unfold incrementDigits.
  destruct (increment_carry s) as [[] out]; destruct H as (Ho & Hl & Hv).
  - change ("1" ++ out) with (String "1" out). split; [by split|]. rewrite val_cons, Hl.
    change (code "1") with 49%nat. split; [lia|]. cbn [len]. lia.
  - split; [done|]. split; lia.
Qed.

(** ** Half-even rounding *)

(** [n / d] rounded to the nearest integer, the even one on a tie. *)
Definition half_even (n d : Z) : Z :=
  let q := (n / d)%Z in
  match (2 * (n mod d) ?= d)%Z with
  | Lt => q
  | Gt => q + 1
  | Eq => if Z.even q then q else q + 1
  end%Z.

Lemma compare_scale (a b p : Z) : (0 < p)%Z -> (a * p ?= b * p)%Z = (a ?= b)%Z.
Proof.
  intros Hp. destruct (Z.compare_spec a b) as [->|H|H].
  - apply Z.compare_refl.
  - apply Z.compare_lt_iff. nia.
  - apply Z.compare_gt_iff. nia.
Qed.

Lemma half_even_cases (q r d : Z) :
  (0 <= r < d)%Z ->
  half_even (q * d + r) d =
  match (2 * r ?= d)%Z with Lt => q | Gt => q + 1 | Eq => if Z.even q then q else q + 1 end%Z.
Proof.
  intros Hr. unfold half_even.
  replace ((q * d + r) / d)%Z with q by (apply Z.div_unique with r; lia).
  replace ((q * d + r) mod d)%Z with r by (apply Z.mod_unique with q; lia). done.
Qed.

Lemma last_digit_parity (s : string) :
  all_digits s -> s <> "" -> (last_digit s mod 2 = val s mod 2)%Z.
Proof.
  induction s as [|c s IH]; [done|]. intros [Hc Hs] _. destruct s as [|d s].
  - rewrite val_cons. change (val EmptyString) with 0%Z. cbn [len]. unfold last_digit. cbn [last_char].
    f_equal. lia.
  - change (last_digit (String c (String d s))) with (last_digit (String d s)).
    rewrite IH by done. rewrite (val_cons c). cbn [len]. rewrite pow10_S.
    rewrite Z.add_mod, (Z.mul_mod _ (10 * _)), (Z.mul_mod 10) by lia. change (10 mod 2)%Z with 0%Z.
    rewrite Z.mul_0_l, Z.mod_0_l, Z.mul_0_r, Z.mod_0_l, Z.add_0_l, Z.mod_mod by lia. done.
Qed.

Lemma odd_mod (z : Z) : (z mod 2 =? 1)%Z = negb (Z.even z).
Proof. rewrite Zmod_even. by destruct (Z.even z). Qed.

(** How the code compares the dropped digits with one half. *)
Lemma rest_vs_half (c : ascii) (s : string) :
  is_digit c = true -> all_digits s -> val (String c s) <> 0%Z ->
  (2 * val (String c s) ?= pow10 (S (len s)))%Z =
  if (5 <? first_digit (String c s))%Z ||
     ((first_digit (String c s) =? 5)%Z && Nat.ltb 1 (len (strip_trailing (String c s)))) then Gt
  else if (first_digit (String c s) =? 5)%Z then Eq else Lt.
Proof.
  intros Hc%is_digit_code Hs Hne. cbn [first_digit]. rewrite val_cons, pow10_S in *.
  pose proof (val_bounds s Hs) as Hb. pose proof (pow10_pos (len s)) as Hp.
  set (p := pow10 (len s)) in *. set (v := val s) in *.
  destruct (decide (code c = 53)%nat) as [E|E].
  - rewrite E. change (Z.of_nat 53 - 48)%Z with 5%Z. cbn [Z.ltb Z.compare Z.eqb orb andb].
    change (5 <? 5)%Z with false. change (5 =? 5)%Z with true. cbn [orb andb].
    pose proof (strip_trailing_single c s Hs) as H1.
    assert (Hlen : (0 < len (strip_trailing (String c s)))%nat).
    { cbn [strip_trailing]. destruct (strip_trailing s); [|cbn; lia].
      destruct (Ascii.eqb_spec c "0") as [->|]; [done|cbn; lia]. }
    fold v in H1. destruct (Nat.ltb_spec 1 (len (strip_trailing (String c s)))) as [Hl|Hl].
    + apply Z.compare_gt_iff. assert (v <> 0)%Z; [|lia]. intros E0. apply H1 in E0; lia.
    + apply Z.compare_eq_iff. assert (v = 0)%Z; [|lia]. apply H1; lia.
  - destruct (Z.ltb_spec 5 (Z.of_nat (code c) - 48)) as [Hg|Hg]; cbn [orb].
    + apply Z.compare_gt_iff. nia.
    + rewrite (proj2 (Z.eqb_neq (Z.of_nat (code c) - 48) 5)) by lia. cbn [andb].
      apply Z.compare_lt_iff. nia.
Qed.

(** The digits in exact arithmetic: the decimal [int.frac] in units of
    [10^-decimals], rounded half-even. *)
Definition rounded (int frac : string) (decimals : nat) : Z :=
  half_even (val (int ++ frac) * pow10 decimals) (pow10 (len frac)).

Lemma rounded_split (int frac : string) (decimals : nat) :
  all_digits int -> all_digits frac ->
  let kept := padEnd (slice_to decimals frac) decimals "0" in
  let rest := slice_from decimals frac in
  all_digits (int ++ kept) /\ len kept = decimals /\ all_digits rest /\
  rounded int frac decimals =
    match (2 * val rest ?= pow10 (len rest))%Z with
    | Lt => val (int ++ kept)
    | Gt => val (int ++ kept) + 1
    | Eq => if Z.even (val (int ++ kept)) then val (int ++ kept) else val (int ++ kept) + 1
    end%Z.
Proof.
  intros Hi Hf. cbv zeta. destruct (all_digits_slices decimals frac Hf) as [Ht Hr].
  pose proof (slices decimals frac) as Hcat. pose proof (len_slice_to decimals frac) as Lt.
  pose proof (len_slice_from decimals frac) as Lr.
  set (t := slice_to decimals frac) in *. set (r := slice_from decimals frac) in *.
  unfold padEnd. rewrite Lt.
  destruct (zeros_spec (decimals - Nat.min decimals (len frac))) as [Hz Vz].
  set (z := repeat_char _ "0") in *.
  assert (Lz : len z = (decimals - Nat.min decimals (len frac))%nat) by apply len_repeat.
  assert (Hbr := val_bounds r Hr). assert (Hbi := val_bounds int Hi).
  split; [by rewrite !all_digits_app|]. split; [rewrite len_app; lia|]. split; [done|].
  assert (Hval : (val (int ++ frac) * pow10 decimals =
                  val (int ++ t ++ z) * pow10 (len frac) + val r * pow10 (len z + len t))%Z).
  { rewrite <- Hcat at 1. rewrite !val_app, !len_app, Vz, Lt, Lz, Lr.
    destruct (decide (decimals <= len frac)%nat).
    - replace (len frac) with (decimals + (len frac - decimals))%nat by lia.
      replace (Nat.min decimals (decimals + (len frac - decimals)))%nat with decimals by lia.
      replace (decimals + (len frac - decimals) - decimals)%nat with (len frac - decimals)%nat by lia.
      rewrite Nat.sub_diag. cbn [Nat.add]. rewrite Nat.add_0_r, !Nat2Z.inj_add, !Z.pow_add_r by lia.
      change (pow10 0) with 1%Z. ring.
    - replace (len frac - decimals)%nat with 0%nat by lia.
      replace (Nat.min decimals (len frac)) with (len frac) by lia.
      assert (Er : val r = 0%Z).
      { destruct r; [done|]. cbn in Lr. lia. }
      rewrite Er. set (m := (decimals - len frac)%nat) in *.
      assert (Em : decimals = (m + len frac)%nat) by lia. clearbody m. subst decimals.
      rewrite !Nat2Z.inj_add, !Z.pow_add_r by lia. change (pow10 0) with 1%Z. ring. }
  unfold rounded. rewrite Hval. clear Hval.
  destruct (decide (decimals <= len frac)%nat) as [Hd|Hd].
  - replace (len z + len t)%nat with decimals by lia.
    replace (pow10 (len frac)) with (pow10 (len r) * pow10 decimals)%Z
      by (rewrite <- Z.pow_add_r, <- Nat2Z.inj_add by lia; do 2 f_equal; lia).
    pose proof (pow10_pos decimals). pose proof (pow10_pos (len r)).
    rewrite half_even_cases by nia.
    rewrite Z.mul_assoc, compare_scale by lia. done.
  - assert (Er : val r = 0%Z) by (destruct r; [done|cbn in Lr; lia]).
    rewrite Er, Z.mul_0_l. pose proof (pow10_pos (len frac)). pose proof (pow10_pos (len r)).
    rewrite half_even_cases by lia. rewrite Z.mul_0_r.
    by rewrite !(proj2 (Z.compare_lt_iff 0 _)) by lia.
Qed.

Lemma roundDigits_spec (int frac : string) (decimals : nat) :
  all_digits int -> int <> "" -> all_digits frac ->
  all_digits (roundDigits int frac decimals) /\
  val (roundDigits int frac decimals) = rounded int frac decimals /\
  (len int + decimals <= len (roundDigits int frac decimals))%nat.
Proof.
  intros Hi Hne Hf. destruct (rounded_split int frac decimals Hi Hf) as (Hd & Hk & Hr & ->).
  unfold roundDigits. cbv zeta.
  set (digits := int ++ padEnd (slice_to decimals frac) decimals "0") in *.
  set (rest := slice_from decimals frac) in *.
  assert (Hlen : (len int + decimals)%nat = len digits)
    by (unfold digits; rewrite len_app; lia).
  assert (Hdne : digits <> "").
  { intros E. apply (f_equal len) in E. rewrite <- Hlen in E. destruct int; [done|].
    cbn in E. lia. }
  destruct (incrementDigits_spec digits Hd) as (Hi1 & Hi2 & Hi3).
  assert (Hsame : all_digits digits /\ val digits = val digits /\
    (len int + decimals <= len digits)%nat) by (split; [done|split; [done|lia]]).
  assert (Hinc : all_digits (incrementDigits digits) /\
    val (incrementDigits digits) = (val digits + 1)%Z /\
    (len int + decimals <= len (incrementDigits digits))%nat)
    by (split; [done|split; [done|lia]]).
  pose proof (strip_trailing_zero rest Hr) as Hz. pose proof (pow10_pos (len rest)) as Hp.
  destruct (nonempty (strip_trailing rest)) eqn:En.
  - destruct rest as [|c s]; [done|]. destruct Hr as [Hc Hs].
    assert (Hv : val (String c s) <> 0%Z) by (intros E; apply Hz in E; done).
    cbn [len]. rewrite (rest_vs_half c s Hc Hs Hv).
    destruct (_ || _); [exact Hinc|]. destruct (_ =? 5)%Z; [|exact Hsame].
    rewrite last_digit_parity, odd_mod by done. destruct (Z.even (val digits)); [exact Hsame|exact Hinc].
  - destruct Hz as [Hz _]. rewrite (Hz eq_refl), Z.mul_0_r.
    rewrite (proj2 (Z.compare_lt_iff 0 _)) by lia. exact Hsame.
Qed.

(** ** The printed form *)

(** A fixed-precision decimal: its sign, its integer digits without a leading
    zero and exactly [decimals] fraction digits. *)
Definition prints (s : string) (negative : bool) (n : Z) (decimals : nat) : Prop :=
  exists i f : string,
    s = (if negative then "-" else "") ++ i ++ (if Nat.eqb decimals 0 then "" else "." ++ f) /\
    all_digits i /\ all_digits f /\ i <> "" /\ len f = decimals /\ val (i ++ f) = n.

Lemma all_zeros_spec (s : string) : all_digits s -> all_zeros s = bool_decide (val s = 0%Z).
Proof.
  induction s as [|c s IH]; [done|]. intros [Hc%is_digit_code Hs]. cbn [all_zeros].
  rewrite IH by done. rewrite val_cons. pose proof (val_bounds s Hs). pose proof (pow10_pos (len s)).
  destruct (Ascii.eqb_spec c "0") as [->|Hne]; cbn [andb].
  - change (code "0") with 48%nat. apply bool_decide_ext. lia.
  - symmetry. apply bool_decide_eq_false. intros E. apply Hne, code_inj.
    change (code "0") with 48%nat. nia.
Qed.

Lemma layoutFixed_prints (neg : bool) (digits : string) (decimals : nat) :
  all_digits digits -> (decimals < len digits)%nat ->
  prints (layoutFixed neg digits decimals)
    (neg && negb (bool_decide (val digits = 0%Z))) (val digits) decimals.
Proof.
  intros Hd Hlen. unfold layoutFixed. cbv zeta.
  set (k := (len digits - decimals)%nat). pose proof (slices k digits) as Hcat.
  destruct (all_digits_slices k digits Hd) as [Hi Hf].
  pose proof (len_slice_to k digits) as Li. pose proof (len_slice_from k digits) as Lf.
  assert (Hf' : (if Nat.eqb decimals 0 then "" else slice_from k digits) = slice_from k digits).
  { destruct (Nat.eqb_spec decimals 0); [|done]. destruct (slice_from k digits); [done|].
    cbn in Lf. lia. }
  rewrite Hf'. destruct (strip_zeros_spec _ Hi) as (Hs1 & Hs2 & Hs3).
  assert (Hne : slice_to k digits <> "").
  { intros E. rewrite E in Li. cbn in Li. lia. }
  specialize (Hs3 Hne). set (i := strip_zeros (slice_to k digits)) in *.
  replace (if nonempty i then i else "0") with i by (by destruct i).
  assert (Hv : val (i ++ slice_from k digits) = val digits)
    by (rewrite <- Hcat at 2; by rewrite !val_app, Hs2).
  exists i, (slice_from k digits). rewrite all_zeros_spec, Hv by (by apply all_digits_app).
  split_and!; try done. rewrite Lf. lia.
Qed.

(** The digits that the number prints: digits only, with an integer part. *)
Definition digits_ok (s : string) : bool :=
  (fix go s := match s with EmptyString => true | String c s' => is_digit c && go s' end) s.

Lemma digits_ok_spec (s : string) : digits_ok s = true <-> all_digits s.
Proof.
  induction s as [|c s IH]; [done|]. cbn. rewrite andb_true_iff. unfold digits_ok in IH. tauto.
Qed.

Definition well_formed (d : DecimalDigits) : bool :=
  digits_ok (int d) && digits_ok (frac d) && nonempty (int d).

(** Fixed-precision rounding is half-even on the printed decimal: a finite
    number whose digits are [int.frac] is printed with exactly [decimals]
    fraction digits as the nearest multiple of [10^-decimals], the even one on a
    tie, with a minus sign exactly for a negative number that does not round to
    zero; a number that is not finite is refused. *)
Theorem roundHalfEvenFixed_half_even (x : jsnum) (decimals : nat) :
  (throws (roundHalfEvenFixed x decimals) = negb (isFinite x)) /\
  (well_formed (decimalDigits x) = true -> forall s, roundHalfEvenFixed x decimals = Ok s ->
   let n := rounded (int (decimalDigits x)) (frac (decimalDigits x)) decimals in
   prints s ((x < 0)%js && negb (bool_decide (n = 0%Z))) n decimals).
Proof.
  unfold roundHalfEvenFixed. split; [by destruct (isFinite x)|].
  intros Hwf s. destruct (isFinite x); cbn [negb]; [|done]. intros [= <-]. cbv zeta.
  unfold well_formed in Hwf. rewrite !andb_true_iff, !digits_ok_spec in Hwf.
  destruct Hwf as ((Hi & Hf) & Hne).
  assert (Hne' : int (decimalDigits x) <> "") by (intros E; by rewrite E in Hne).
  destruct (roundDigits_spec _ _ decimals Hi Hne' Hf) as (Hd & Hv & Hl).
  assert (neg (decimalDigits x) = (x < 0)%js) as ->.
  { unfold decimalDigits. cbv zeta. repeat case_match; reflexivity. }
  rewrite <- Hv. apply layoutFixed_prints; [done|].
  destruct (int (decimalDigits x)); [done|]. cbn [len] in Hl. lia.
Qed.

Lemma roundHalfEvenFixed_half_even_witness :
  prints "-3.1416" true 31416 4 /\ prints "0.0002" false 2 4.
Proof.
  split.
  - destruct (roundHalfEvenFixed_half_even (-3.14155)%float 4) as [_ H].
    specialize (H eq_refl "-3.1416" ltac:(vm_compute; reflexivity)).
    vm_compute in H. exact H.
  - destruct (roundHalfEvenFixed_half_even 0.00025%float 4) as [_ H].
    specialize (H eq_refl "0.0002" ltac:(vm_compute; reflexivity)).
    vm_compute in H. exact H.
Defined.

(** ** The range loop *)

Fixpoint steps_from (v step : jsnum) (n : nat) : list jsnum :=
  match n with
  | O => []
  | S n' => v :: steps_from (v + step)%float step n'
  end%list.

Definition gridAngle (v : jsnum) : result jsnum := canonicalAoa (v / AOA_SCALE)%float.

Lemma steps_from_integer (n : nat) (step : jsnum) (c : Z) :
  to_integer step = Some c -> forall v a, to_integer v = Some a -> (0 < c)%Z ->
  (- 2 ^ 53 <= a)%Z -> (a + Z.of_nat n * c <= 2 ^ 53)%Z ->
  forall i, (i < n)%nat ->
  exists w, steps_from v step n !! i = Some w /\ to_integer w = Some (a + Z.of_nat i * c)%Z.
Proof.
  intros Hs. induction n as [|n IH]; intros v a Hv Hc Hlo Hhi i Hi; [lia|].
  destruct i as [|i].
  - exists v. split; [done|]. rewrite Hv. f_equal. lia.
  - destruct (IH (v + step)%float (a + c)%Z) with (i := i) as (w & Hw & Ew); [|lia..|].
    + apply add_integer; [exact Hv|exact Hs|]. nia.
    + exists w. split; [exact Hw|]. rewrite Ew. f_equal. lia.
Qed.

Lemma rangeLoop_spec (n : nat) (step to : jsnum) (b c : Z) :
  to_integer step = Some c -> to_integer to = Some b -> (0 < c)%Z ->
  forall fuel v a, to_integer v = Some a ->
  (- 2 ^ 53 <= a)%Z -> (a + Z.of_nat n * c <= 2 ^ 53)%Z ->
  (b < a + Z.of_nat n * c)%Z -> (n = 0%nat \/ a + (Z.of_nat n - 1) * c <= b)%Z ->
  (n < fuel)%nat ->
  rangeLoop fuel v to step = Some (mapResult gridAngle (steps_from v step n)).
Proof.
  intros Hs Hb Hc. induction n as [|n IH]; intros fuel v a Hv Hlo Hhi Hlt Hle Hfuel;
    (destruct fuel as [|fuel]; [lia|]); cbn [rangeLoop];
    rewrite (leb_integer _ _ _ _ Hv Hb).
  - rewrite (proj2 (Z.leb_gt a b)) by lia. done.
  - rewrite (proj2 (Z.leb_le a b)) by nia. cbn [steps_from mapResult]. unfold gridAngle at 1.
    destruct Hle as [Hle|Hle]; [lia|].
    rewrite Nat2Z.inj_succ in *. rewrite (IH fuel (v + step)%float (a + c)%Z).
    + by destruct (canonicalAoa _).
    + apply add_integer; [exact Hv|exact Hs|nia].
    + lia.
    + lia.
    + lia.
    + destruct n as [|n]; [by left|right]. lia.
    + lia.
Qed.

(** The expansion of a range terminates: when the scaled bounds and the
    scaled step are safe integers [a], [b] and [c > 0], the result is the list of
    the canonical angles of exactly the values [a], [a + c], ... up to [b], each
    computed as an integer before it is scaled back. *)
Theorem expandAngleGrid_range (spec : AngleGridSpec) (f t s from to step : jsnum) (a b c : Z) :
  listDeg spec = None ->
  finiteField (fromDeg spec) = Some f -> finiteField (toDeg spec) = Some t ->
  finiteField (stepDeg spec) = Some s -> (s <= 0)%js = false ->
  scaledAoa f = Ok from -> scaledAoa t = Ok to -> scaledAoa s = Ok step ->
  to_integer from = Some a -> to_integer to = Some b -> to_integer step = Some c ->
  (0 < c)%Z -> (- 2 ^ 53 <= a)%Z -> (Z.max a b + c <= 2 ^ 53)%Z ->
  let n := Z.to_nat ((b - a) / c + 1) in
  exists vs, (forall fuel, (n < fuel)%nat ->
                expandAngleGrid fuel spec = Some (mapResult gridAngle vs)) /\
    length vs = n /\
    forall i, (i < n)%nat ->
      exists w, vs !! i = Some w /\ to_integer w = Some (a + Z.of_nat i * c)%Z.
Proof.
  intros Hl Hf Ht Hs Hpos Ef Et Es Ha Hb Hc Hc0 Hlo Hhi. cbv zeta.
  set (n := Z.to_nat ((b - a) / c + 1)).
  assert (Hn : (b < a + Z.of_nat n * c /\ (n = 0%nat \/ a + (Z.of_nat n - 1) * c <= b) /\
                a + Z.of_nat n * c <= Z.max a b + c)%Z).
  { pose proof (Z.div_mod (b - a) c) as Hd. pose proof (Z.mod_pos_bound (b - a) c Hc0).
    destruct (Z.le_gt_cases 0 ((b - a) / c + 1)) as [H0|H0].
    - assert (Hq : Z.of_nat n = ((b - a) / c + 1)%Z) by (unfold n; lia). rewrite Hq.
      split; [nia|]. split; [right; nia|nia].
    - assert (Hq : n = 0%nat) by (unfold n; lia). rewrite Hq. split; [nia|]. split; [by left|lia]. }
  exists (steps_from from step n). split; [|split].
  - intros fuel Hfuel. unfold expandAngleGrid. rewrite Hl, Hf, Ht, Hs, Hpos, Ef, Et, Es.
    rewrite (eqb_integer _ _ _ _ Hc to_integer_0), (proj2 (Z.eqb_neq c 0)) by lia.
    apply (rangeLoop_spec n step to b c Hc Hb Hc0 fuel from a Ha); lia.
  - clear. generalize from. induction n as [|n IH]; intros v; cbn; [done|]. by rewrite IH.
  - intros i Hi. apply (steps_from_integer n step c Hc from a Ha); lia.
Qed.

Definition sample_spec : AngleGridSpec :=
  {| fromDeg := Some (-1)%float; toDeg := Some 1%float; stepDeg := Some 0.5%float; listDeg := None |}.

Lemma expandAngleGrid_range_witness :
  exists vs, (forall fuel, (5 < fuel)%nat ->
                expandAngleGrid fuel sample_spec = Some (mapResult gridAngle vs)) /\
    length vs = 5%nat.
Proof.
  destruct (expandAngleGrid_range sample_spec (-1)%float 1%float 0.5%float
    (-10000)%float 10000%float 5000%float (-10000) 10000 5000) as (vs & H1 & H2 & _);
    [vm_compute; (reflexivity || discriminate)..|].
  exists vs. split; [exact H1|exact H2].
Defined.
