(* ===== verification/AperiodicMean.v ===== *)
(** * The aperiodic-mean certificate ([packages/core/src/aperiodic-mean-certificate.ts])

    The strict parser of the proof that a non-periodic URANS history has a
    statistically stationary mean.  Proved: it accepts exactly the valid
    certificates, and what a valid one guarantees about its sample counts, its
    observation window, its periodicity assessment and its channels. *)

From Stdlib Require Import ZArith Lia Bool Ascii String.
From Stdlib Require Import Floats.
From stdpp Require Import base list strings option numbers.
From S2P Require Import Prelude JsNumber JsString JsValue Numeric.

Local Open Scope string_scope.
Local Open Scope list_scope.

Definition APERIODIC_MEAN_CERTIFICATE_VERSION : string := "aperiodic-mean-v1".
Definition APERIODIC_MIN_SOURCE_SAMPLES : jsnum := 400%float.
Definition APERIODIC_MIN_FIELD_FRAMES : jsnum := 40%float.
Definition APERIODIC_MIN_CONVECTIVE_TIMES : jsnum := 4%float.
Definition APERIODIC_MIN_PERIODICITY_CYCLES : jsnum := 6%float.
Definition APERIODIC_MIN_NONREPEATABLE_FRACTION : jsnum := 0.5%float.
Definition APERIODIC_MAX_SOURCE_GAP_FRACTION : jsnum := 0.1%float.
Definition APERIODIC_BLOCK_COUNT : jsnum := 10%float.
Definition APERIODIC_MIN_EFFECTIVE_BLOCKS : jsnum := 3%float.
Definition APERIODIC_MAX_CI95_FRACTION : jsnum := 0.04%float.
Definition APERIODIC_MAX_TREND_FRACTION : jsnum := 0.06%float.
Definition APERIODIC_MAX_HALF_DRIFT_FRACTION : jsnum := 0.06%float.
Definition APERIODIC_MAX_AMPLITUDE_GROWTH : jsnum := 1.35%float.
Definition APERIODIC_CM_TOLERANCE_MULTIPLIER : jsnum := 2%float.

(** ** Data *)

Record AperiodicMeanChannelCertificate := {
  mean : jsnum;
  standard_deviation : jsnum;
  scale : jsnum;
  ci95_half_width : jsnum;
  ci95_fraction : jsnum;
  trend_fraction : jsnum;
  half_drift_fraction : jsnum;
  block_range_fraction : jsnum;
  effective_blocks : jsnum;
  amplitude_growth : jsnum;
}.

Record AperiodicMeanPeriodicityAssessment := {
  candidate_period_s : jsnum;
  structurally_valid_cycles : jsnum;
  nonrepeatable_cycles : jsnum;
  nonrepeatable_fraction : jsnum;
}.

(** The thresholds are constants of the contract, so they have no typed field. *)
Record AperiodicMeanCertificate := {
  input_sha256 : string;
  source_sample_count : jsnum;
  resampled_sample_count : jsnum;
  field_frame_count : jsnum;
  observation_start_time : jsnum;
  observation_end_time : jsnum;
  observed_duration_s : jsnum;
  convective_times : jsnum;
  periodicity : AperiodicMeanPeriodicityAssessment;
  cl : AperiodicMeanChannelCertificate;
  cd : AperiodicMeanChannelCertificate;
  cm : AperiodicMeanChannelCertificate;
}.

(** [/^[0-9a-f]{64}$/] *)
Definition SHA256_HEX (s : string) : bool := hex_string 64 s.

Definition ROOT_KEYS : list string :=
  ["reducer_version"; "certified"; "input_sha256"; "source_sample_count";
   "resampled_sample_count"; "field_frame_count"; "observation_start_time";
   "observation_end_time"; "observed_duration_s"; "convective_times"; "thresholds";
   "periodicity"; "cl"; "cd"; "cm"].

Definition THRESHOLD_KEYS : list string :=
  ["minimum_source_samples"; "minimum_field_frames"; "minimum_convective_times";
   "minimum_periodicity_cycles"; "minimum_nonrepeatable_fraction";
   "maximum_source_gap_fraction"; "block_count"; "minimum_effective_blocks";
   "maximum_ci95_fraction"; "maximum_trend_fraction"; "maximum_half_drift_fraction";
   "maximum_amplitude_growth"; "cm_tolerance_multiplier"].

Definition PERIODICITY_KEYS : list string :=
  ["candidate_period_s"; "structurally_valid_cycles"; "nonrepeatable_cycles";
   "nonrepeatable_fraction"].

Definition CHANNEL_KEYS : list string :=
  ["mean"; "standard_deviation"; "scale"; "ci95_half_width"; "ci95_fraction"; "trend_fraction";
   "half_drift_fraction"; "block_range_fraction"; "effective_blocks"; "amplitude_growth"].

(** The thresholds in the order they are checked. *)
Definition THRESHOLDS : list (string * jsnum) :=
  [("minimum_source_samples", APERIODIC_MIN_SOURCE_SAMPLES);
   ("minimum_field_frames", APERIODIC_MIN_FIELD_FRAMES);
   ("minimum_convective_times", APERIODIC_MIN_CONVECTIVE_TIMES);
   ("minimum_periodicity_cycles", APERIODIC_MIN_PERIODICITY_CYCLES);
   ("minimum_nonrepeatable_fraction", APERIODIC_MIN_NONREPEATABLE_FRACTION);
   ("maximum_source_gap_fraction", APERIODIC_MAX_SOURCE_GAP_FRACTION);
   ("block_count", APERIODIC_BLOCK_COUNT);
   ("minimum_effective_blocks", APERIODIC_MIN_EFFECTIVE_BLOCKS);
   ("maximum_ci95_fraction", APERIODIC_MAX_CI95_FRACTION);
   ("maximum_trend_fraction", APERIODIC_MAX_TREND_FRACTION);
   ("maximum_half_drift_fraction", APERIODIC_MAX_HALF_DRIFT_FRACTION);
   ("maximum_amplitude_growth", APERIODIC_MAX_AMPLITUDE_GROWTH);
   ("cm_tolerance_multiplier", APERIODIC_CM_TOLERANCE_MULTIPLIER)].

(** ** The parser *)

Definition root : string := "aperiodic_mean_certificate".

Definition exactKeys := JsValue.exactKeys "".

Definition exactNumber (value : record) (key : string) (expected : jsnum) (at_ : string) :
    list string :=
  fail_if (negb (strict_eq_num (get key value) expected))
    (at_ +:+ "." +:+ key +:+ ": expected " +:+ Number_toString expected).

Definition NONNEGATIVE_KEYS : list string :=
  ["standard_deviation"; "ci95_half_width"; "ci95_fraction"; "trend_fraction";
   "half_drift_fraction"; "block_range_fraction"; "amplitude_growth"].

Definition channel (value : jsval) (at_ : string) : list string :=
  on_record value (fun value =>
    exactKeys value CHANNEL_KEYS at_ ++
    keyErrors (fun v => negb (finite v)) value at_ CHANNEL_KEYS "expected finite number" ++
    keyErrors (fun v => finite v && on_num (fun x => x < 0)%js v) value at_ NONNEGATIVE_KEYS
      "expected non-negative number" ++
    fail_if (finite (get "scale" value) && on_num (fun x => x <= 0)%js (get "scale" value))
      (at_ +:+ ".scale: expected positive number") ++
    fail_if (finite (get "effective_blocks" value) &&
             on_num (fun x => x < APERIODIC_MIN_EFFECTIVE_BLOCKS)%js
               (get "effective_blocks" value))
      (at_ +:+ ".effective_blocks: below certified minimum"))
  [at_ +:+ ": expected object"].

(** [!Number.isInteger(v) || Number(v) < minimum] *)
Definition belowCount (minimum : jsnum) (v : jsval) : bool :=
  negb (is_integer v) || on_num (fun x => x < minimum)%js v.

Definition durationErrors (value : record) : list string :=
  match get "observation_start_time" value, get "observation_end_time" value,
        get "observed_duration_s" value with
  | JNum s, JNum e, JNum d =>
      when (isFinite s && isFinite e && isFinite d)
        (let span := (e - s)%float in
         fail_if (span <= 0)%js (root +:+ ": reversed observation window") ++
         fail_if (PrimFloat.abs (span - d) > 1e-10 * Math_max 1 (PrimFloat.abs span))%js
           (root +:+ ": duration mismatch"))
  | _, _, _ => []
  end.

Definition countErrors (value : record) : list string :=
  keyErrors (fun v => negb (finite v)) value root
    ["source_sample_count"; "resampled_sample_count"; "field_frame_count";
     "observation_start_time"; "observation_end_time"; "observed_duration_s";
     "convective_times"] "expected finite number" ++
  fail_if (belowCount APERIODIC_MIN_SOURCE_SAMPLES (get "source_sample_count" value))
    (root +:+ ".source_sample_count: below minimum") ++
  fail_if (belowCount 1 (get "resampled_sample_count" value))
    (root +:+ ".resampled_sample_count: expected positive integer") ++
  fail_if (belowCount APERIODIC_MIN_FIELD_FRAMES (get "field_frame_count" value))
    (root +:+ ".field_frame_count: below minimum") ++
  fail_if (finite (get "convective_times" value) &&
           on_num (fun x => x < APERIODIC_MIN_CONVECTIVE_TIMES)%js (get "convective_times" value))
    (root +:+ ".convective_times: below minimum") ++
  durationErrors value.

Definition thresholdErrors (value : jsval) : list string :=
  on_record value (fun o =>
    exactKeys o THRESHOLD_KEYS (root +:+ ".thresholds") ++
    List.flat_map (fun '(key, expected) => exactNumber o key expected (root +:+ ".thresholds"))
      THRESHOLDS)
  [root +:+ ".thresholds: expected object"].

Definition fractionMismatch (observed nonrepeatable fraction : jsval) : bool :=
  match observed, nonrepeatable, fraction with
  | JNum o, JNum n, JNum f => (PrimFloat.abs (n / o - f) > 1e-12)%js
  | _, _, _ => false
  end.

Definition periodicityErrors (value : jsval) : list string :=
  on_record value (fun o =>
    let at_ := root +:+ ".periodicity" in
    let observed := get "structurally_valid_cycles" o in
    let nonrepeatable := get "nonrepeatable_cycles" o in
    let fraction := get "nonrepeatable_fraction" o in
    exactKeys o PERIODICITY_KEYS at_ ++
    keyErrors (fun v => negb (finite v)) o at_ PERIODICITY_KEYS "expected finite number" ++
    fail_if (belowCount APERIODIC_MIN_PERIODICITY_CYCLES observed)
      (at_ +:+ ".structurally_valid_cycles: below minimum") ++
    fail_if (belowCount 1 nonrepeatable ||
             (finite observed && on_num2 (fun n o => n > o)%js nonrepeatable observed))
      (at_ +:+ ".nonrepeatable_cycles: invalid count") ++
    fail_if (finite fraction &&
             on_num (fun x => (x < APERIODIC_MIN_NONREPEATABLE_FRACTION) || (x > 1))%js fraction)
      (at_ +:+ ".nonrepeatable_fraction: outside certified range") ++
    fail_if (finite observed && finite nonrepeatable && finite fraction &&
             fractionMismatch observed nonrepeatable fraction)
      (at_ +:+ ": inconsistent nonrepeatable fraction") ++
    fail_if (finite (get "candidate_period_s" o) &&
             on_num (fun x => x <= 0)%js (get "candidate_period_s" o))
      (at_ +:+ ".candidate_period_s: expected positive number"))
  [root +:+ ".periodicity: expected object"].

(** The certified maxima of one channel, on its unnarrowed fields. *)
Definition boundErrors (entry : string * jsval * jsnum) : list string :=
  let '(name, item, multiplier) := entry in
  match item with
  | JObj o =>
      fail_if (js_lt (JNum (APERIODIC_MAX_CI95_FRACTION * multiplier)) (get "ci95_fraction" o))
        (root +:+ "." +:+ name +:+ ".ci95_fraction: exceeds certified maximum") ++
      fail_if (js_lt (JNum (APERIODIC_MAX_TREND_FRACTION * multiplier)) (get "trend_fraction" o))
        (root +:+ "." +:+ name +:+ ".trend_fraction: exceeds certified maximum") ++
      fail_if (js_lt (JNum (APERIODIC_MAX_HALF_DRIFT_FRACTION * multiplier))
                 (get "half_drift_fraction" o))
        (root +:+ "." +:+ name +:+ ".half_drift_fraction: exceeds certified maximum") ++
      fail_if (js_lt (JNum APERIODIC_MAX_AMPLITUDE_GROWTH) (get "amplitude_growth" o))
        (root +:+ "." +:+ name +:+ ".amplitude_growth: exceeds certified maximum")
  | _ => []
  end.

Definition isSha256 (v : jsval) : bool :=
  match v with JStr s => SHA256_HEX s | _ => false end.

Definition aperiodicErrors (value : record) : list string :=
  exactKeys value ROOT_KEYS root ++
  fail_if (negb (is_str (get "reducer_version" value) APERIODIC_MEAN_CERTIFICATE_VERSION))
    (root +:+ ".reducer_version: expected " +:+ APERIODIC_MEAN_CERTIFICATE_VERSION) ++
  fail_if (negb (is_true (get "certified" value))) (root +:+ ".certified: expected true") ++
  fail_if (negb (isSha256 (get "input_sha256" value)))
    (root +:+ ".input_sha256: expected SHA-256 hex") ++
  countErrors value ++
  thresholdErrors (get "thresholds" value) ++
  periodicityErrors (get "periodicity" value) ++
  channel (get "cl" value) (root +:+ ".cl") ++
  channel (get "cd" value) (root +:+ ".cd") ++
  channel (get "cm" value) (root +:+ ".cm") ++
  List.flat_map boundErrors
    [("cl", get "cl" value, 1%float); ("cd", get "cd" value, 1%float);
     ("cm", get "cm" value, APERIODIC_CM_TOLERANCE_MULTIPLIER)].

Definition parseAperiodicMeanCertificate (value : jsval) : parse_result :=
  match value with
  | JObj o => verdict value (aperiodicErrors o)
  | _ => Rejected [root +:+ ": expected object"]
  end.

(** ** The contract *)

#[export] Instance repr_channel : JsonRepr AperiodicMeanChannelCertificate := fun c v =>
  exists o, v = JObj o /\ exact_keys CHANNEL_KEYS o /\
    get "mean" o = JNum (mean c) /\ get "standard_deviation" o = JNum (standard_deviation c) /\
    get "scale" o = JNum (scale c) /\ get "ci95_half_width" o = JNum (ci95_half_width c) /\
    get "ci95_fraction" o = JNum (ci95_fraction c) /\
    get "trend_fraction" o = JNum (trend_fraction c) /\
    get "half_drift_fraction" o = JNum (half_drift_fraction c) /\
    get "block_range_fraction" o = JNum (block_range_fraction c) /\
    get "effective_blocks" o = JNum (effective_blocks c) /\
    get "amplitude_growth" o = JNum (amplitude_growth c).

#[export] Instance repr_periodicity : JsonRepr AperiodicMeanPeriodicityAssessment := fun p v =>
  exists o, v = JObj o /\ exact_keys PERIODICITY_KEYS o /\
    get "candidate_period_s" o = JNum (candidate_period_s p) /\
    get "structurally_valid_cycles" o = JNum (structurally_valid_cycles p) /\
    get "nonrepeatable_cycles" o = JNum (nonrepeatable_cycles p) /\
    get "nonrepeatable_fraction" o = JNum (nonrepeatable_fraction p).

(** The thresholds object carries exactly the constants of the contract. *)
Definition policy_thresholds (v : jsval) : Prop :=
  exists o, v = JObj o /\ exact_keys THRESHOLD_KEYS o /\
    Forall (fun '(key, expected) => strict_eq_num (get key o) expected = true) THRESHOLDS.

#[export] Instance repr_certificate : JsonRepr AperiodicMeanCertificate := fun c v =>
  exists o, v = JObj o /\ exact_keys ROOT_KEYS o /\
    get "reducer_version" o = JStr APERIODIC_MEAN_CERTIFICATE_VERSION /\
    get "certified" o = JBool true /\
    get "input_sha256" o = JStr (input_sha256 c) /\
    get "source_sample_count" o = JNum (source_sample_count c) /\
    get "resampled_sample_count" o = JNum (resampled_sample_count c) /\
    get "field_frame_count" o = JNum (field_frame_count c) /\
    get "observation_start_time" o = JNum (observation_start_time c) /\
    get "observation_end_time" o = JNum (observation_end_time c) /\
    get "observed_duration_s" o = JNum (observed_duration_s c) /\
    get "convective_times" o = JNum (convective_times c) /\
    policy_thresholds (get "thresholds" o) /\
    represents (periodicity c) (get "periodicity" o) /\
    represents (cl c) (get "cl" o) /\ represents (cd c) (get "cd" o) /\
    represents (cm c) (get "cm" o).

Definition at_most (limit x : jsnum) : Prop := (limit < x)%js = false.

(** The statistics of one channel, with its tolerance multiplier. *)
Definition channel_ok (multiplier : jsnum) (c : AperiodicMeanChannelCertificate) : Prop :=
  (is_finite (mean c) /\ is_finite (scale c) /\ (0 < ord (scale c))%Z /\
   is_finite (effective_blocks c) /\
   (ord APERIODIC_MIN_EFFECTIVE_BLOCKS <= ord (effective_blocks c))%Z) /\
  (nonnegative (standard_deviation c) /\ nonnegative (ci95_half_width c) /\
   nonnegative (ci95_fraction c) /\ nonnegative (trend_fraction c) /\
   nonnegative (half_drift_fraction c) /\ nonnegative (block_range_fraction c) /\
   nonnegative (amplitude_growth c)) /\
  at_most (APERIODIC_MAX_CI95_FRACTION * multiplier) (ci95_fraction c) /\
  at_most (APERIODIC_MAX_TREND_FRACTION * multiplier) (trend_fraction c) /\
  at_most (APERIODIC_MAX_HALF_DRIFT_FRACTION * multiplier) (half_drift_fraction c) /\
  at_most APERIODIC_MAX_AMPLITUDE_GROWTH (amplitude_growth c).

Definition periodicity_ok (p : AperiodicMeanPeriodicityAssessment) : Prop :=
  is_finite (candidate_period_s p) /\ (0 < ord (candidate_period_s p))%Z /\
  (exists o n, to_integer (structurally_valid_cycles p) = Some o /\
     to_integer (nonrepeatable_cycles p) = Some n /\ (6 <= o /\ 1 <= n <= o)%Z) /\
  is_finite (nonrepeatable_fraction p) /\
  (ord APERIODIC_MIN_NONREPEATABLE_FRACTION <= ord (nonrepeatable_fraction p) <= ord 1%float)%Z /\
  (PrimFloat.abs (nonrepeatable_cycles p / structurally_valid_cycles p -
     nonrepeatable_fraction p) > 1e-12)%js = false.

#[export] Instance valid_certificate : Valid AperiodicMeanCertificate := fun c =>
  SHA256_HEX (input_sha256 c) = true /\
  (at_least 400 (source_sample_count c) /\ at_least 1 (resampled_sample_count c) /\
   at_least 40 (field_frame_count c)) /\
  (is_finite (observation_start_time c) /\ is_finite (observation_end_time c) /\
   is_finite (observed_duration_s c) /\
   (observation_end_time c - observation_start_time c <= 0)%js = false /\
   (PrimFloat.abs (observation_end_time c - observation_start_time c - observed_duration_s c) >
    1e-10 * Math_max 1
      (PrimFloat.abs (observation_end_time c - observation_start_time c)))%js = false) /\
  (is_finite (convective_times c) /\
   (ord APERIODIC_MIN_CONVECTIVE_TIMES <= ord (convective_times c))%Z) /\
  periodicity_ok (periodicity c) /\
  channel_ok 1 (cl c) /\ channel_ok 1 (cd c) /\
  channel_ok APERIODIC_CM_TOLERANCE_MULTIPLIER (cm c).

(** ** The parser meets it *)

Lemma belowCount_num (minimum : jsnum) (lo : Z) (v : jsval) :
  to_integer minimum = Some lo -> belowCount minimum v = false <-> num_with (at_least lo) v.
Proof.
  intros Hlo. rewrite <- (at_least_num v _ _ Hlo), negb_false_iff, integerAtLeast_spec.
  unfold belowCount, represents, repr_num. split.
  - destruct v as [| |b|n|s|l|o]; try done. cbn [is_integer on_num].
    intros [Hi%negb_false_iff Hlt]%orb_false_iff. exists n. split; [done|]. split; [exact Hi|].
    apply isInteger_spec in Hi as [z Hz]. rewrite (ltb_integer _ _ _ _ Hz Hlo) in Hlt.
    rewrite (leb_integer _ _ _ _ Hlo Hz). lia.
  - intros (x & -> & Hi & Hle). cbn [is_integer on_num]. rewrite Hi. cbn [negb orb].
    apply isInteger_spec in Hi as [z Hz]. rewrite (leb_integer _ _ _ _ Hlo Hz) in Hle.
    rewrite (ltb_integer _ _ _ _ Hz Hlo). lia.
Qed.

(** A further test on a field that is already known to be finite. *)
Lemma finite_and (p : jsnum -> bool) (P : jsnum -> Prop) (v : jsval) :
  (forall x, isFinite x = true -> p x = false <-> P x) ->
  num_with is_finite v ->
  (finite v && on_num p v = false <-> num_with (fun x => is_finite x /\ P x) v).
Proof.
  intros HP (x & -> & Hx). cbn. rewrite Hx. cbn [andb]. rewrite HP by done.
  unfold num_with. naive_solver.
Qed.

Lemma nonneg_keys (o : record) (at_ msg : string) (ks : list string) :
  Forall (fun k => num_with is_finite (get k o)) ks ->
  keyErrors (fun v => finite v && on_num (fun x => x < 0)%js v) o at_ ks msg = [] <->
  Forall (fun k => num_with nonnegative (get k o)) ks.
Proof.
  intros Hf. unfold keyErrors. rewrite check_spec, !List.Forall_forall in *.
  split; intros H k Hin; specialize (H k Hin); specialize (Hf k Hin);
    apply (finite_and (fun x => x < 0)%js (fun x => (0 <= ord x)%Z)); try done;
    intros x Hx; by rewrite ltb_finite_false, ord_0.
Qed.

Lemma Forall_sub {A} (P : A -> Prop) (l l' : list A) :
  Forall P l -> (forall x, In x l' -> In x l) -> Forall P l'.
Proof. rewrite !List.Forall_forall. auto. Qed.

Lemma channel_spec (v : jsval) (at_ name : string) (multiplier : jsnum) :
  channel v at_ = [] /\ boundErrors (name, v, multiplier) = [] <->
  exists c, represents c v /\ channel_ok multiplier c.
Proof.
  unfold channel, exactKeys. split.
  - destruct v as [| |b|n|s|l|o]; cbn [on_record boundErrors]; try (by intros [? _]).
    rewrite !app_nil, !fail_if_nil, exactKeys_nil, (keyErrors_spec _ _ _ _ _ _ not_finite_num).
    intros ((Hk & Hf & Hn & Hs & Hb) & H1 & H2 & H3 & H4).
    rewrite nonneg_keys in Hn by (apply (Forall_sub _ _ _ Hf); cbn; tauto).
    pose proof (Forall_sub _ _ ["mean"; "scale"; "effective_blocks"] Hf ltac:(cbn; tauto)) as Hf'.
    clear Hf. open_nums_with ltac:(fun H => unfold NONNEGATIVE_KEYS in H). rewrite_gets. use_bools.
    unfold is_finite in *. use_bools.
    rewrite leb_finite_false in Hs by done. rewrite ltb_finite_false in Hb by done.
    rewrite ord_0 in Hs.
    eexists (Build_AperiodicMeanChannelCertificate _ _ _ _ _ _ _ _ _ _).
    split; [exists o; split; [reflexivity|]; cbn; split_conj; eassumption|].
    unfold channel_ok, at_most, is_finite. cbn. split_conj; assumption.
  - intros (c & (o & -> & Hk & Hg) & (Hm & Hn & Hb)).
    destruct_and! Hg. destruct_and! Hm. destruct_and! Hb. unfold nonnegative, is_finite in *.
    destruct_and! Hn. cbn [on_record boundErrors].
    rewrite !app_nil, !fail_if_nil, exactKeys_nil, (keyErrors_spec _ _ _ _ _ _ not_finite_num).
    assert (Hf : Forall (fun k => num_with is_finite (get k o)) CHANNEL_KEYS)
      by (unfold CHANNEL_KEYS; close_nums).
    rewrite nonneg_keys by (apply (Forall_sub _ _ _ Hf); cbn; tauto).
    unfold at_most in *. rewrite_gets. goal_bools.
    rewrite leb_finite_false, ltb_finite_false, ord_0 by done.
    split_conj; try done. unfold NONNEGATIVE_KEYS. close_nums; by split.
Qed.

Lemma thresholdErrors_spec (v : jsval) : thresholdErrors v = [] <-> policy_thresholds v.
Proof.
  unfold thresholdErrors, exactKeys, policy_thresholds. split.
  - destruct v as [| |b|n|s|l|o]; cbn [on_record]; try done.
    rewrite !app_nil, exactKeys_nil, flat_map_nil. intros [Hk H]. exists o. split; [done|].
    split; [done|]. revert H. apply List.Forall_impl. intros [k e].
    unfold exactNumber. by rewrite fail_if_nil, negb_false_iff.
  - intros (o & -> & Hk & H). cbn [on_record]. rewrite !app_nil, exactKeys_nil, flat_map_nil.
    split; [done|]. revert H. apply List.Forall_impl. intros [k e].
    unfold exactNumber. by rewrite fail_if_nil, negb_false_iff.
Qed.

Lemma below_6 (v : jsval) :
  belowCount APERIODIC_MIN_PERIODICITY_CYCLES v = false <-> num_with (at_least 6) v.
Proof. apply belowCount_num. vm_compute. reflexivity. Qed.

Lemma below_1 (v : jsval) : belowCount 1 v = false <-> num_with (at_least 1) v.
Proof. apply belowCount_num. vm_compute. reflexivity. Qed.

(** The two cycle counts: integers, the second between 1 and the first. *)
Lemma cycle_counts (o n : jsnum) :
  (num_with (at_least 6) (JNum o) /\ num_with (at_least 1) (JNum n)) ->
  (n > o)%js = false <->
  exists zo zn, to_integer o = Some zo /\ to_integer n = Some zn /\ (6 <= zo /\ 1 <= zn <= zo)%Z.
Proof.
  intros [(x & [= <-] & zo & Ho & Hlo) (y & [= <-] & zn & Hn & Hln)].
  rewrite (ltb_integer _ _ _ _ Ho Hn). split.
  - intros H%Z.ltb_ge. exists zo, zn. split_conj; (done || lia).
  - intros (zo' & zn' & Ho' & Hn' & H). rewrite Ho in Ho'. rewrite Hn in Hn'.
    injection Ho' as <-. injection Hn' as <-. apply Z.ltb_ge. lia.
Qed.

Lemma periodicityErrors_spec (v : jsval) :
  periodicityErrors v = [] <-> exists p, represents p v /\ periodicity_ok p.
Proof.
  unfold periodicityErrors, exactKeys. split.
  - destruct v as [| |b|n|s|l|o]; cbn [on_record]; try discriminate.
    rewrite !app_nil, !fail_if_nil, exactKeys_nil, (keyErrors_spec _ _ _ _ _ _ not_finite_num).
    intros (Hk & Hf & Ho & Hn & Hr & Hm & Hp). apply orb_false_iff in Hn as [Hn Hle].
    apply below_6 in Ho. apply below_1 in Hn.
    revert Ho Hn. open_nums_with ltac:(fun H => unfold PERIODICITY_KEYS in H). intros Ho Hn.
    rewrite_gets.
    unfold is_finite in *. use_bools. cbn [fractionMismatch] in Hm.
    apply orb_false_iff in Hr as [Hr1 Hr2].
    rewrite leb_finite_false, ord_0 in Hp by done.
    rewrite ltb_finite_false in Hr1 by done. rewrite ltb_finite_false in Hr2 by done.
    apply cycle_counts in Hle; [|by split].
    eexists (Build_AperiodicMeanPeriodicityAssessment _ _ _ _).
    split; [exists o; split; [reflexivity|]; cbn; split_conj; eassumption|].
    unfold periodicity_ok, is_finite. cbn. split_conj; assumption.
  - intros (p & (o & -> & Hk & Hg) & Hp1 & Hp2 & Hc & Hf & Hr & Hm).
    destruct_and! Hg. destruct Hr as [Hr1 Hr2]. unfold is_finite in *. cbn [on_record].
    rewrite !app_nil, !fail_if_nil, exactKeys_nil, (keyErrors_spec _ _ _ _ _ _ not_finite_num).
    rewrite orb_false_iff, below_6, below_1.
    destruct Hc as (zo & zn & Ho & Hn & Hle).
    assert (Hfo := isInteger_finite _ (proj2 (isInteger_spec _) (ex_intro _ _ Ho))).
    assert (Hfn := isInteger_finite _ (proj2 (isInteger_spec _) (ex_intro _ _ Hn))).
    rewrite_gets. goal_bools. cbn [fractionMismatch]. rewrite orb_false_iff.
    rewrite leb_finite_false, ord_0, (ltb_finite_false (nonrepeatable_fraction p)),
      (ltb_finite_false 1%float) by done.
    assert (num_with (at_least 6) (JNum (structurally_valid_cycles p)) /\
            num_with (at_least 1) (JNum (nonrepeatable_cycles p))) as [Hb6 Hb1].
    { split; eexists; (split; [done|]); eexists; (split; [eassumption|]); lia. }
    split_conj; try done; try (by apply cycle_counts; eauto 8).
    unfold PERIODICITY_KEYS. close_nums.
Qed.

Lemma isSha256_spec (v : jsval) :
  negb (isSha256 v) = false <-> exists s, v = JStr s /\ SHA256_HEX s = true.
Proof. rewrite negb_false_iff. destruct v; cbn [isSha256]; naive_solver. Qed.

Lemma below_400 (v : jsval) :
  belowCount APERIODIC_MIN_SOURCE_SAMPLES v = false <-> num_with (at_least 400) v.
Proof. apply belowCount_num. vm_compute. reflexivity. Qed.

Lemma below_40 (v : jsval) :
  belowCount APERIODIC_MIN_FIELD_FRAMES v = false <-> num_with (at_least 40) v.
Proof. apply belowCount_num. vm_compute. reflexivity. Qed.

(** The observation window and its declared duration. *)
Definition window_ok (s e d : jsnum) : Prop :=
  is_finite s /\ is_finite e /\ is_finite d /\ (e - s <= 0)%js = false /\
  (PrimFloat.abs (e - s - d) > 1e-10 * Math_max 1 (PrimFloat.abs (e - s)))%js = false.

Lemma at_least_finite (lo : Z) (x : jsnum) : at_least lo x -> is_finite x.
Proof. intros (z & Hz & _). apply isInteger_finite, isInteger_spec. eauto. Qed.

Lemma num_with_and (P Q : jsnum -> Prop) (v : jsval) :
  num_with P v -> num_with Q v -> num_with (fun x => P x /\ Q x) v.
Proof. intros (x & -> & HP) (y & [= <-] & HQ). by exists x. Qed.

Lemma num_with_mono (P Q : jsnum -> Prop) (v : jsval) :
  (forall x, P x -> Q x) -> num_with P v -> num_with Q v.
Proof. intros H (x & -> & HP). exists x. auto. Qed.

(** The counts and the window of a record, as one proposition on its fields. *)
Definition counts_ok (o : record) : Prop :=
  num_with (at_least 400) (get "source_sample_count" o) /\
  num_with (at_least 1) (get "resampled_sample_count" o) /\
  num_with (at_least 40) (get "field_frame_count" o) /\
  num_with (fun x => is_finite x /\ (ord APERIODIC_MIN_CONVECTIVE_TIMES <= ord x)%Z)
    (get "convective_times" o) /\
  exists s e d, get "observation_start_time" o = JNum s /\
    get "observation_end_time" o = JNum e /\ get "observed_duration_s" o = JNum d /\
    window_ok s e d.

Lemma countErrors_spec (o : record) : countErrors o = [] <-> counts_ok o.
Proof.
  unfold countErrors, counts_ok, durationErrors.
  rewrite !app_nil, (keyErrors_spec _ _ _ _ _ _ not_finite_num), !fail_if_nil,
    below_400, below_1, below_40. split.
  - intros (Hf & H1 & H2 & H3 & Hc & Hd). split_conj; try assumption.
    + apply (finite_and (fun x => x < APERIODIC_MIN_CONVECTIVE_TIMES)%js); [|by open_nums_with fail; eexists|exact Hc].
      intros x Hx. by apply ltb_finite_false.
    + clear H1 H2 H3 Hc. open_nums_with ltac:(fun H => fail). rewrite_gets.
      unfold is_finite in *. goal_bools. use_bools. cbn [when] in Hd.
      rewrite app_nil, !fail_if_nil in Hd. unfold window_ok, is_finite. eauto 12.
  - intros (H1 & H2 & H3 & Hc & s & e & d & Es & Ee & Ed & Hs & He & Hd & Hw1 & Hw2).
    unfold is_finite in *. rewrite Es, Ee, Ed, Hs, He, Hd. cbn [andb when].
    rewrite app_nil, !fail_if_nil. split_conj; try assumption.
    + pose proof (num_with_mono _ _ _ (at_least_finite _) H1).
      pose proof (num_with_mono _ _ _ (at_least_finite _) H2).
      pose proof (num_with_mono _ _ _ (at_least_finite _) H3).
      pose proof (num_with_mono _ _ _ (fun x => @proj1 _ _) Hc).
      repeat constructor; try assumption; eexists; eauto.
    + apply (finite_and (fun x => x < APERIODIC_MIN_CONVECTIVE_TIMES)%js
        (fun x => (ord APERIODIC_MIN_CONVECTIVE_TIMES <= ord x)%Z)); [|..|exact Hc].
      * intros x Hx. by apply ltb_finite_false.
      * revert Hc. apply num_with_mono. tauto.
Qed.

Lemma ok_errors (o : record) :
  aperiodicErrors o = [] <->
  exact_keys ROOT_KEYS o /\
  get "reducer_version" o = JStr APERIODIC_MEAN_CERTIFICATE_VERSION /\
  get "certified" o = JBool true /\
  (exists s, get "input_sha256" o = JStr s /\ SHA256_HEX s = true) /\
  counts_ok o /\ policy_thresholds (get "thresholds" o) /\
  (exists p, represents p (get "periodicity" o) /\ periodicity_ok p) /\
  (exists c, represents c (get "cl" o) /\ channel_ok 1 c) /\
  (exists c, represents c (get "cd" o) /\ channel_ok 1 c) /\
  (exists c, represents c (get "cm" o) /\ channel_ok APERIODIC_CM_TOLERANCE_MULTIPLIER c).
Proof.
  rewrite <- (channel_spec (get "cl" o) (root +:+ ".cl") "cl"),
    <- (channel_spec (get "cd" o) (root +:+ ".cd") "cd"),
    <- (channel_spec (get "cm" o) (root +:+ ".cm") "cm"),
    <- periodicityErrors_spec, <- thresholdErrors_spec, <- countErrors_spec, <- isSha256_spec.
  unfold aperiodicErrors, exactKeys.
  rewrite !app_nil, !fail_if_nil, exactKeys_nil, flat_map_nil, !negb_false_iff,
    is_str_spec, is_true_spec, !Forall_cons_iff.
  pose proof (Forall_nil_2 (fun x => boundErrors x = [])). tauto.
Qed.

Lemma aperiodic_accepted (v : jsval) :
  accepted (parseAperiodicMeanCertificate v) = true <-> conforms AperiodicMeanCertificate v.
Proof.
  unfold parseAperiodicMeanCertificate. split.
  - destruct v as [| |b|n|s|l|o]; try discriminate. rewrite accepted_nil, ok_errors.
    intros (Hk & Hv & Hc & (sha & Hs & Hsha) & (H1 & H2 & H3 & H4 & Hw) & Ht & (p & Hp & Hpo)
      & (l & Hl & Hlo) & (d & Hd & Hdo) & (m & Hm & Hmo)).
    destruct Hw as (a & e & t & Ha & He & Htt & Hw). destruct H1 as (n1 & E1 & H1).
    destruct H2 as (n2 & E2 & H2). destruct H3 as (n3 & E3 & H3). destruct H4 as (n4 & E4 & H4).
    exists (Build_AperiodicMeanCertificate sha n1 n2 n3 a e t n4 p l d m). split.
    + exists o. split; [reflexivity|]. cbn. split_conj; assumption.
    + unfold valid, valid_certificate. cbn. split_conj; try assumption; apply H4 || apply Hw.
  - intros (c & (o & -> & Hk & Hv & Hc & Hs & H1 & H2 & H3 & Ha & He & Hd & H4 & Ht & Hp & Hl &
      Hcd & Hm) & Vs & (V1 & V2 & V3) & Vw & V4 & Vp & Vl & Vd & Vm).
    rewrite accepted_nil, ok_errors. unfold counts_ok. split_conj; try assumption; eauto.
    all: try (eexists; split; eassumption). do 3 eexists. eauto.
Qed.

(** The parser accepts a value exactly when it is the JSON form of a valid
    aperiodic-mean certificate: exactly the contract keys at every level, the
    contract's own thresholds, enough samples, frames and convective times, an
    observation window that agrees with its duration, non-repeatable cycles
    that are a majority of at least six, and channel statistics within the
    tolerance of each channel. *)
Theorem parseAperiodicMeanCertificate_contract (v : jsval) :
  accepted (parseAperiodicMeanCertificate v) = true <-> conforms AperiodicMeanCertificate v.
Proof. apply aperiodic_accepted. Qed.
