(* ===== verification/EngineIdentity.v ===== *)
(** * Engine identities ([packages/engine-client/src/engine-identity.ts])

    The guards that turn unknown wire values into engine, runtime and capability
    identities, the keys that decide whether two engines are the same, the
    selection of a runtime acknowledgement or a capability for an expected
    engine, the attestation that a live worker is isolated to an execution pool,
    and the identity built from deployment configuration. *)

From Stdlib Require Import ZArith Lia Bool Ascii String.
From Stdlib Require Import Floats.
From stdpp Require Import base list strings option numbers.
From S2P Require Import Prelude JsNumber JsString JsValue Numeric.

Local Open Scope string_scope.
Local Open Scope list_scope.

(** ** Data *)

Record EngineIdentity := {
  family : string;
  distribution : string;
  version : string;
  numerics_revision : string;
  adapter_contract_version : jsnum;
}.

(** The provenance fields that no guard reads ([source_revision],
    [architecture]) are not part of the typed view. *)
Record EngineRuntimeIdentity := {
  identity : EngineIdentity;
  build_id : string;
  image_digest : option string;
  application_source_sha256 : option string;
  binary_sha256 : option string;
  package_sha256 : option string;
}.

Record EngineCapabilityDescriptor := {
  engine : EngineIdentity;
  routing_key : string;
  analysis_methods : list string;
  steady : bool;
  transient : bool;
  volume_fields : bool;
  mesh_evidence : bool;
  stored_media : bool;
  custom_field_rendering : bool;
  multi_element_geometry : bool;
  supported_turbulence_models : list string;
  supported_image_fields : list string;
}.

Definition ENGINE_ADAPTER_CONTRACT_VERSION : jsnum := 1%float.

Definition LEGACY_OPENCFD_2406_ENGINE : EngineIdentity :=
  Build_EngineIdentity "openfoam" "opencfd" "2406" "1" ENGINE_ADAPTER_CONTRACT_VERSION.
Definition OPENCFD_2606_ENGINE : EngineIdentity :=
  Build_EngineIdentity "openfoam" "opencfd" "2606" "1" ENGINE_ADAPTER_CONTRACT_VERSION.
Definition OPENCFD_2606_NUMERICS2_ENGINE : EngineIdentity :=
  Build_EngineIdentity (family OPENCFD_2606_ENGINE) (distribution OPENCFD_2606_ENGINE)
    (version OPENCFD_2606_ENGINE) "2" (adapter_contract_version OPENCFD_2606_ENGINE).
Definition FOUNDATION_OPENFOAM_14_ENGINE : EngineIdentity :=
  Build_EngineIdentity "openfoam" "foundation" "14" "1" ENGINE_ADAPTER_CONTRACT_VERSION.

(** ** Guards *)

(** [typeof v === "string" && v.length > 0] *)
Definition text (v : jsval) : bool := match v with JStr s => nonempty s | _ => false end.

Definition isEngineIdentity (value : jsval) : bool :=
  match value with
  | JObj candidate =>
      text (get "family" candidate) && text (get "distribution" candidate) &&
      text (get "version" candidate) && text (get "numerics_revision" candidate) &&
      on_num (fun a => isSafeInteger a && (a > 0)%js) (get "adapter_contract_version" candidate)
  | _ => false
  end.

Definition SHA256_HEX (s : string) : bool := hex_string 64 s.
(** [/^sha256:[0-9a-f]{64}$/] *)
Definition OCI_SHA256_DIGEST (s : string) : bool :=
  String.prefix "sha256:" s && hex_string 64 (substring 7 (String.length s - 7) s).

(** [v != null && (typeof v !== "string" || !re.test(v))] *)
Definition malformed (re : string -> bool) (v : jsval) : bool :=
  negb (nullish v) && match v with JStr s => negb (re s) | _ => true end.
(** [typeof v === "string" && re.test(v)] *)
Definition matches (re : string -> bool) (v : jsval) : bool :=
  match v with JStr s => re s | _ => false end.

Definition hasEngineRuntimeContentFingerprint (value : record) : bool :=
  if malformed SHA256_HEX (get "application_source_sha256" value) ||
     malformed OCI_SHA256_DIGEST (get "image_digest" value) ||
     malformed SHA256_HEX (get "package_sha256" value) ||
     malformed SHA256_HEX (get "binary_sha256" value)
  then false
  else
    matches SHA256_HEX (get "application_source_sha256" value) ||
    matches OCI_SHA256_DIGEST (get "image_digest" value) ||
    matches SHA256_HEX (get "package_sha256" value) ||
    matches SHA256_HEX (get "binary_sha256" value).

Definition isEngineRuntimeIdentity (value : jsval) : bool :=
  isEngineIdentity value &&
  match value with
  | JObj o => text (get "build_id" o) && hasEngineRuntimeContentFingerprint o
  | _ => false
  end.

(** [Array.isArray(v) && v.every((item) => typeof item === "string")] *)
Definition all_strings (v : jsval) : bool :=
  match v with JArr l => forallb typeof_string l | _ => false end.

Definition isEngineCapabilityDescriptor (value : jsval) : bool :=
  match value with
  | JObj candidate =>
      isEngineIdentity (get "engine" candidate) && text (get "routing_key" candidate) &&
      all_strings (get "analysis_methods" candidate) &&
      typeof_boolean (get "steady" candidate) && typeof_boolean (get "transient" candidate) &&
      typeof_boolean (get "volume_fields" candidate) &&
      typeof_boolean (get "mesh_evidence" candidate) &&
      typeof_boolean (get "stored_media" candidate) &&
      typeof_boolean (get "custom_field_rendering" candidate) &&
      typeof_boolean (get "multi_element_geometry" candidate) &&
      all_strings (get "supported_turbulence_models" candidate) &&
      all_strings (get "supported_image_fields" candidate)
  | _ => false
  end.

(** ** Keys *)

Definition engineIdentityKey (engine : EngineIdentity) : string :=
  join ":" [family engine; distribution engine; version engine;
            "numerics-" +:+ numerics_revision engine;
            "adapter-" +:+ Number_toString (adapter_contract_version engine)].

Definition engineNumericalCompatibilityKey (engine : EngineIdentity) : string :=
  join ":" [family engine; distribution engine; version engine;
            "numerics-" +:+ numerics_revision engine].

Definition sameEngineIdentity (left right : EngineIdentity) : bool :=
  String.eqb (engineIdentityKey left) (engineIdentityKey right).

(** The identity a value is narrowed to by [isEngineIdentity]. *)
Definition narrow (value : jsval) : option EngineIdentity :=
  match prop "family" value, prop "distribution" value, prop "version" value,
        prop "numerics_revision" value, prop "adapter_contract_version" value with
  | JStr f, JStr d, JStr v, JStr n, JNum a => Some (Build_EngineIdentity f d v n a)
  | _, _, _, _, _ => None
  end.

Definition sameAs (expected : EngineIdentity) (value : jsval) : bool :=
  match narrow value with Some e => sameEngineIdentity e expected | None => false end.

(** ** Selection *)

(** [xs.find(p)], and [undefined] when there is none. *)
Definition find_value (p : jsval -> bool) (xs : list jsval) : jsval :=
  match List.find p xs with Some v => v | None => JUndef end.

(** [a ?? b] *)
Definition coalesce (a b : jsval) : jsval := if nullish a then b else a.

Definition runtimeIdentityForExpected (response : option record) (expected : EngineIdentity) :
    option jsval :=
  match response with
  | None => None
  | Some response =>
      let inventory := coalesce (get "engines" response) (get "supported_engines" response) in
      let matched := match inventory with
        | JArr l => find_value (fun c => isEngineRuntimeIdentity c && sameAs expected c) l
        | _ => JUndef end in
      if isEngineRuntimeIdentity matched then Some matched
      else
        let engine := get "engine" response in
        if isEngineRuntimeIdentity engine && sameAs expected engine then Some engine else None
  end.

(** The descriptor made from a legacy single-adapter response. *)
Definition legacyDescriptor (engine routing_key : jsval) : jsval :=
  JObj [("engine", engine); ("routing_key", routing_key); ("analysis_methods", JArr []);
        ("steady", JBool false); ("transient", JBool false); ("volume_fields", JBool false);
        ("mesh_evidence", JBool false); ("stored_media", JBool false);
        ("custom_field_rendering", JBool false); ("multi_element_geometry", JBool false);
        ("supported_turbulence_models", JArr []); ("supported_image_fields", JArr [])].

Definition engineCapabilityForExpected (response : option record) (expected : EngineIdentity) :
    option jsval :=
  match response with
  | None => None
  | Some response =>
      let matched := match get "engines" response with
        | JArr l =>
            find_value (fun c => isEngineCapabilityDescriptor c && sameAs expected (prop "engine" c)) l
        | _ => JUndef end in
      if isEngineCapabilityDescriptor matched then Some matched
      else if isEngineIdentity (get "engine" response) && sameAs expected (get "engine" response) &&
              text (get "routing_key" response)
      then Some (legacyDescriptor (get "engine" response) (get "routing_key" response))
      else None
  end.

(** ** Execution pools *)

Definition exclusiveBinding (routingKey : string) (expectedEngine : EngineIdentity)
    (binding : jsval) : bool :=
  text (prop "worker" binding) && all_strings (prop "queues" binding) &&
  match prop "queues" binding with JArr [route] => is_str route routingKey | _ => false end &&
  is_str (prop "execution_pool" binding) routingKey &&
  isEngineRuntimeIdentity (prop "engine" binding) && sameAs expectedEngine (prop "engine" binding).

Definition liveWorkerConsumesExecutionPool (queue : option record) (routingKey : string)
    (expectedEngine : EngineIdentity) : bool :=
  match queue with
  | None => false
  | Some queue =>
      nullish (get "worker_queues_error" queue) && nullish (get "worker_runtime_error" queue) &&
      match get "worker_queues" queue with
      | JArr bindings => existsb (exclusiveBinding routingKey expectedEngine) bindings
      | _ => false
      end
  end.

(** ** Configuration *)

Record options := {
  version_option : option string;
  numericsRevision_option : option string;
  adapterContractVersion_option : option jsnum;
}.

Definition openFoamEngineIdentity (distribution : string) (options : options) : EngineIdentity :=
  let version := from_option id (if String.eqb distribution "foundation" then "14" else "2606")
                   (version_option options) in
  {| family := "openfoam";
     distribution := distribution;
     version := version;
     numerics_revision := from_option id
       (if String.eqb distribution "opencfd" && String.eqb version "2606" then "2" else "1")
       (numericsRevision_option options);
     adapter_contract_version := from_option id ENGINE_ADAPTER_CONTRACT_VERSION
       (adapterContractVersion_option options) |}.

Record config := {
  distribution_config : option string;
  version_config : option string;
  numericsRevision_config : option string;
  adapterContractVersion_config : option (string + jsnum);
}.

Definition parsedContractVersion (config : config) : jsnum :=
  match adapterContractVersion_config config with
  | None => ENGINE_ADAPTER_CONTRACT_VERSION
  | Some (inl s) => string_to_number s
  | Some (inr x) => x
  end.

Definition openFoamEngineIdentityFromConfig (config : config) : result EngineIdentity :=
  let distribution := from_option id "opencfd" (distribution_config config) in
  if negb (String.eqb distribution "opencfd") && negb (String.eqb distribution "foundation")
  then Throw ("Unsupported OpenFOAM distribution " +:+ json_string distribution +:+
              "; expected " +:+ quoted "opencfd" +:+ " or " +:+ quoted "foundation")
  else
    let parsed := parsedContractVersion config in
    if negb (isSafeInteger parsed) || (parsed <= 0)%js
    then Throw "ENGINE_ADAPTER_CONTRACT_VERSION must be a positive integer"
    else Ok (openFoamEngineIdentity distribution
      {| version_option := version_config config;
         numericsRevision_option := numericsRevision_config config;
         adapterContractVersion_option := Some parsed |}).

(** ** What the guards accept *)

Definition positive_safe (x : jsnum) : Prop :=
  exists z, to_integer x = Some z /\ (0 < z <= 2 ^ 53 - 1)%Z.

#[export] Instance repr_identity : JsonRepr EngineIdentity := fun e v =>
  exists o, v = JObj o /\
    get "family" o = JStr (family e) /\ get "distribution" o = JStr (distribution e) /\
    get "version" o = JStr (version e) /\
    get "numerics_revision" o = JStr (numerics_revision e) /\
    get "adapter_contract_version" o = JNum (adapter_contract_version e).

#[export] Instance valid_identity : Valid EngineIdentity := fun e =>
  nonempty (family e) = true /\ nonempty (distribution e) = true /\
  nonempty (version e) = true /\ nonempty (numerics_revision e) = true /\
  positive_safe (adapter_contract_version e).

(** An optional string field: absent, null or a string. *)
Definition optional (s : option string) (v : jsval) : Prop :=
  match s with None => nullish v = true | Some s => v = JStr s end.

#[export] Instance repr_runtime : JsonRepr EngineRuntimeIdentity := fun r v =>
  represents (identity r) v /\ exists o, v = JObj o /\
    get "build_id" o = JStr (build_id r) /\ optional (image_digest r) (get "image_digest" o) /\
    optional (application_source_sha256 r) (get "application_source_sha256" o) /\
    optional (binary_sha256 r) (get "binary_sha256" o) /\
    optional (package_sha256 r) (get "package_sha256" o).

(** Every digest that is present is well-formed. *)
Definition well_formed (re : string -> bool) (s : option string) : Prop :=
  match s with None => True | Some s => re s = true end.

#[export] Instance valid_runtime : Valid EngineRuntimeIdentity := fun r =>
  valid (identity r) /\ nonempty (build_id r) = true /\
  (well_formed SHA256_HEX (application_source_sha256 r) /\
   well_formed OCI_SHA256_DIGEST (image_digest r) /\
   well_formed SHA256_HEX (package_sha256 r) /\ well_formed SHA256_HEX (binary_sha256 r)) /\
  (is_Some (application_source_sha256 r) \/ is_Some (image_digest r) \/
   is_Some (package_sha256 r) \/ is_Some (binary_sha256 r)).

#[export] Instance repr_capability : JsonRepr EngineCapabilityDescriptor := fun c v =>
  exists o, v = JObj o /\
    represents (engine c) (get "engine" o) /\ represents (routing_key c) (get "routing_key" o) /\
    represents (analysis_methods c) (get "analysis_methods" o) /\
    represents (steady c) (get "steady" o) /\ represents (transient c) (get "transient" o) /\
    represents (volume_fields c) (get "volume_fields" o) /\
    represents (mesh_evidence c) (get "mesh_evidence" o) /\
    represents (stored_media c) (get "stored_media" o) /\
    represents (custom_field_rendering c) (get "custom_field_rendering" o) /\
    represents (multi_element_geometry c) (get "multi_element_geometry" o) /\
    represents (supported_turbulence_models c) (get "supported_turbulence_models" o) /\
    represents (supported_image_fields c) (get "supported_image_fields" o).

#[export] Instance valid_capability : Valid EngineCapabilityDescriptor := fun c =>
  valid (engine c) /\ nonempty (routing_key c) = true.

Lemma positive_safe_spec (x : jsnum) :
  isSafeInteger x && (x > 0)%js = true <-> positive_safe x.
Proof.
  rewrite andb_true_iff, isSafeInteger_spec. unfold positive_safe. split.
  - intros [(a & Ha & Hm) H]. rewrite (ltb_integer _ _ _ _ to_integer_0 Ha) in H.
    exists a. split; [done|]. lia.
  - intros (a & Ha & Hm). rewrite (ltb_integer _ _ _ _ to_integer_0 Ha). split; [|lia].
    exists a. split; [done|]. lia.
Qed.

Lemma text_spec (v : jsval) : text v = true <-> exists s, v = JStr s /\ nonempty s = true.
Proof. destruct v; cbn [text]; naive_solver. Qed.

Lemma safe_num_spec (v : jsval) :
  on_num (fun a => isSafeInteger a && (a > 0)%js) v = true <-> num_with positive_safe v.
Proof.
  unfold num_with. split.
  - destruct v; cbn [on_num]; try discriminate. intros H%positive_safe_spec. eauto.
  - intros (x & -> & H). by apply positive_safe_spec.
Qed.

Lemma isEngineIdentity_spec (v : jsval) : isEngineIdentity v = true <-> conforms EngineIdentity v.
Proof.
  unfold conforms. split.
  - destruct v as [| | | | | |o]; cbn [isEngineIdentity]; try discriminate.
    rewrite !andb_true_iff, !text_spec, safe_num_spec.
    intros ((((Hf & Hd) & Hv) & Hn) & Ha).
    destruct Hf as (f & Ef & Hf), Hd as (d & Ed & Hd), Hv as (w & Ev & Hv), Hn as (n & En & Hn),
      Ha as (a & Ea & Ha).
    exists (Build_EngineIdentity f d w n a). split; [exists o|]; cbn; split_conj; done.
  - intros (e & (o & -> & Hf & Hd & Hv & Hn & Ha) & Vf & Vd & Vv & Vn & Va).
    cbn [isEngineIdentity]. rewrite !andb_true_iff, !text_spec, safe_num_spec.
    rewrite Hf, Hd, Hv, Hn, Ha. split_conj; eexists; eauto.
Qed.

Lemma narrow_spec (v : jsval) (e : EngineIdentity) :
  narrow v = Some e <-> represents e v.
Proof.
  unfold narrow, represents, repr_identity. split.
  - destruct v as [| | | | | |o]; cbn [prop]; try discriminate.
    repeat case_match; try discriminate. intros [= <-]. exists o. done.
  - intros (o & -> & Hf & Hd & Hv & Hn & Ha). cbn [prop].
    rewrite Hf, Hd, Hv, Hn, Ha. by destruct e.
Qed.

Lemma optional_spec (re : string -> bool) (v : jsval) :
  malformed re v = false <-> exists s, optional s v /\ well_formed re s.
Proof.
  unfold malformed. split.
  - destruct v as [| | | |s| |]; cbn; try discriminate.
    + intros _. by exists None.
    + intros _. by exists None.
    + intros H%negb_false_iff. by exists (Some s).
  - intros ([s|] & Hs & Hw); cbn in *.
    + subst v. cbn. by rewrite Hw.
    + by rewrite Hs.
Qed.

(** Under [optional], a matching digest is a present one. *)
Lemma matches_present (re : string -> bool) (v : jsval) (s : option string) :
  optional s v -> well_formed re s -> matches re v = true <-> is_Some s.
Proof.
  destruct s as [s|]; cbn.
  - intros -> H. cbn. rewrite H. split; [by eexists|done].
  - intros H _. split; [|by intros []]. by destruct v.
Qed.

Lemma fingerprint_spec (o : record) :
  hasEngineRuntimeContentFingerprint o = true <->
  exists a i p b, optional a (get "application_source_sha256" o) /\
    optional i (get "image_digest" o) /\ optional p (get "package_sha256" o) /\
    optional b (get "binary_sha256" o) /\
    (well_formed SHA256_HEX a /\ well_formed OCI_SHA256_DIGEST i /\
     well_formed SHA256_HEX p /\ well_formed SHA256_HEX b) /\
    (is_Some a \/ is_Some i \/ is_Some p \/ is_Some b).
Proof.
  unfold hasEngineRuntimeContentFingerprint. split.
  - destruct (_ || _) eqn:E; [discriminate|]. breflect. destruct E as (((Ea & Ei) & Ep) & Eb).
    apply optional_spec in Ea as (a & Oa & Wa). apply optional_spec in Ei as (i & Oi & Wi).
    apply optional_spec in Ep as (p & Op & Wp). apply optional_spec in Eb as (b & Ob & Wb).
    rewrite !(matches_present _ _ _ Oa Wa), !(matches_present _ _ _ Oi Wi),
      !(matches_present _ _ _ Op Wp), !(matches_present _ _ _ Ob Wb).
    intros H. exists a, i, p, b. split_conj; try assumption. tauto.
  - intros (a & i & p & b & Oa & Oi & Op & Ob & (Wa & Wi & Wp & Wb) & H).
    rewrite (proj2 (optional_spec SHA256_HEX (get "application_source_sha256" o))) by eauto.
    rewrite (proj2 (optional_spec OCI_SHA256_DIGEST (get "image_digest" o))) by eauto.
    rewrite (proj2 (optional_spec SHA256_HEX (get "package_sha256" o))) by eauto.
    rewrite (proj2 (optional_spec SHA256_HEX (get "binary_sha256" o))) by eauto.
    cbn [orb]. rewrite !orb_true_iff, (matches_present _ _ _ Oa Wa), (matches_present _ _ _ Oi Wi),
      (matches_present _ _ _ Op Wp), (matches_present _ _ _ Ob Wb). tauto.
Qed.

Lemma runtime_conforms (v : jsval) :
  isEngineRuntimeIdentity v = true <-> conforms EngineRuntimeIdentity v.
Proof.
  unfold isEngineRuntimeIdentity. rewrite andb_true_iff, isEngineIdentity_spec. split.
  - intros [(e & He & Ve) H]. destruct v as [| | | | | |o]; try discriminate.
    rewrite andb_true_iff, text_spec, fingerprint_spec in H.
    destruct H as [(s & Es & Hs) (a & i & p & b & Oa & Oi & Op & Ob & Hw & Hp)].
    exists (Build_EngineRuntimeIdentity e s i a b p). split.
    + split; [done|]. exists o. done.
    + split; [done|]. done.
  - intros ([e s i a b p] & (He & o & -> & Es & Oi & Oa & Ob & Op) & Ve & Hs & Hw & Hp).
    split; [by exists e|]. rewrite andb_true_iff, text_spec, fingerprint_spec.
    split; [by exists s|]. exists a, i, p, b. done.
Qed.

(** A value is taken for a runtime acknowledgement exactly when it carries a
    valid engine identity, a build id and a content fingerprint: every digest
    present is well-formed and at least one is present. *)
Theorem isEngineRuntimeIdentity_contract (v : jsval) :
  isEngineRuntimeIdentity v = true <-> conforms EngineRuntimeIdentity v.
Proof. apply runtime_conforms. Qed.

Lemma all_strings_spec (v : jsval) :
  all_strings v = true <-> exists l : list string, represents l v.
Proof.
  unfold all_strings. split.
  - destruct v as [| | | | |l|]; try discriminate. rewrite forallb_forall. intros H.
    enough (exists ss : list string, Forall2 represents ss l) as [ss Hss] by (exists ss, l; done).
    induction l as [|v l IH]; [by exists []|].
    destruct IH as [ss Hss]; [intros x Hx; apply H; by right|].
    specialize (H v (or_introl eq_refl)). destruct v as [| | | |s| |]; try discriminate.
    exists (s :: ss). by constructor.
  - intros (l & vs & -> & H). induction H as [|s v ss vs Hv _ IH]; [done|].
    cbn. rewrite Hv. exact IH.
Qed.

(** The same for the capability descriptors of the gateway inventory. *)
Theorem isEngineCapabilityDescriptor_contract (v : jsval) :
  isEngineCapabilityDescriptor v = true <-> conforms EngineCapabilityDescriptor v.
Proof.
  unfold isEngineCapabilityDescriptor, conforms. split.
  - destruct v as [| | | | | |o]; try discriminate.
    rewrite !andb_true_iff, isEngineIdentity_spec, text_spec, !all_strings_spec,
      !typeof_boolean_repr.
    intros (((((((((((He & Hk) & Ha) & H1) & H2) & H3) & H4) & H5) & H6) & H7) & Ht) & Hi).
    destruct He as (e & He & Ve), Hk as (k & Ek & Hk), Ha as [a Ha], H1 as [b1 H1], H2 as [b2 H2],
      H3 as [b3 H3], H4 as [b4 H4], H5 as [b5 H5], H6 as [b6 H6], H7 as [b7 H7], Ht as [t Ht],
      Hi as [i Hi].
    exists (Build_EngineCapabilityDescriptor e k a b1 b2 b3 b4 b5 b6 b7 t i).
    split; [exists o; split; [done|]; cbn; split_conj; done|split; done].
  - intros (c & (o & -> & He & Hk & Hr) & Ve & Vk).
    rewrite !andb_true_iff, isEngineIdentity_spec, text_spec, !all_strings_spec,
      !typeof_boolean_repr.
    destruct_and! Hr. split_conj; eexists; try eassumption; split; eassumption.
Qed.

(** ** Keys *)

(** The identities whose slugs hold no key separator. *)
Definition no_colon (s : string) : bool := all_chars (fun c => negb (Ascii.eqb c ":")) s.
Definition separable (e : EngineIdentity) : Prop :=
  no_colon (family e) = true /\ no_colon (distribution e) = true /\
  no_colon (version e) = true /\ no_colon (numerics_revision e) = true.

Lemma colon_inj (a b r r' : string) :
  no_colon a = true -> no_colon b = true ->
  (a +:+ String ":" r = b +:+ String ":" r')%string -> a = b /\ r = r'.
Proof. apply separator_inj. Qed.

Lemma join_cons (a b : string) (l : list string) :
  join ":" (a :: b :: l) = (a +:+ String ":" (join ":" (b :: l)))%string.
Proof. reflexivity. Qed.

Definition same_numerics (l r : EngineIdentity) : Prop :=
  family l = family r /\ distribution l = distribution r /\ version l = version r /\
  numerics_revision l = numerics_revision r.

Lemma no_colon_app (a b : string) :
  no_colon a = true -> no_colon b = true -> no_colon (a +:+ b)%string = true.
Proof. intros Ha Hb. unfold no_colon. rewrite all_chars_app. by apply andb_true_iff. Qed.

(** On identities whose slugs hold no separator the public numerical key
    tells two engines apart exactly by family, distribution, version and
    numerics revision, and the handshake key also by the printed adapter
    contract version: wire-only changes keep the public key, and no two
    numerically different engines share either. *)
Theorem engine_keys_injective (l r : EngineIdentity) :
  separable l -> separable r ->
  (engineNumericalCompatibilityKey l = engineNumericalCompatibilityKey r <-> same_numerics l r) /\
  (sameEngineIdentity l r = true <->
   same_numerics l r /\ Number_toString (adapter_contract_version l) =
                        Number_toString (adapter_contract_version r)).
Proof.
  intros (Lf & Ld & Lv & Ln) (Rf & Rd & Rv & Rn). unfold same_numerics.
  unfold sameEngineIdentity, engineIdentityKey, engineNumericalCompatibilityKey.
  rewrite String.eqb_eq, !join_cons. cbn [join]. split; split.
  - intros [Ef H]%colon_inj; try assumption. apply colon_inj in H as [Ed H]; try assumption.
    apply colon_inj in H as [Ev H%append_inj_l]; try assumption. done.
  - intros (-> & -> & -> & ->). done.
  - intros [Ef H]%colon_inj; try assumption. apply colon_inj in H as [Ed H]; try assumption.
    apply colon_inj in H as [Ev H]; try assumption.
    apply colon_inj in H as [En H]; [|by apply no_colon_app..].
    apply append_inj_l in En. apply append_inj_l in H. done.
  - intros ((-> & -> & -> & ->) & ->). done.
Qed.

Lemma engine_keys_injective_witness :
  separable OPENCFD_2606_ENGINE /\ separable OPENCFD_2606_NUMERICS2_ENGINE /\
  sameEngineIdentity OPENCFD_2606_ENGINE OPENCFD_2606_NUMERICS2_ENGINE <> true.
Proof.
  assert (H1 : separable OPENCFD_2606_ENGINE) by (vm_compute; repeat split).
  assert (H2 : separable OPENCFD_2606_NUMERICS2_ENGINE) by (vm_compute; repeat split).
  split; [exact H1|]. split; [exact H2|].
  intros H. apply (engine_keys_injective _ _ H1 H2) in H as [(_ & _ & _ & H) _]. discriminate H.
Defined.

(** Without that condition two valid identities may share a handshake key. *)
Example colon_collision :
  let l := Build_EngineIdentity "a:b" "c" "1" "1" 1%float in
  let r := Build_EngineIdentity "a" "b:c" "1" "1" 1%float in
  valid l /\ valid r /\ l <> r /\ sameEngineIdentity l r = true.
Proof.
  cbn zeta. assert (H : positive_safe 1) by (exists 1%Z; split; [vm_compute; reflexivity|lia]).
  split; [exact (conj eq_refl (conj eq_refl (conj eq_refl (conj eq_refl H))))|].
  split; [exact (conj eq_refl (conj eq_refl (conj eq_refl (conj eq_refl H))))|].
  split; [intros E; injection E; intros E' _; discriminate E'|vm_compute; reflexivity].
Qed.

(** ** Selection *)

(** The acknowledgement is a runtime identity of the expected engine. *)
Definition acknowledges (expected : EngineIdentity) (v : jsval) : Prop :=
  exists r : EngineRuntimeIdentity, represents r v /\ valid r /\
    engineIdentityKey (identity r) = engineIdentityKey expected.

Lemma sameAs_spec (expected : EngineIdentity) (v : jsval) :
  sameAs expected v = true <->
  exists e, represents e v /\ engineIdentityKey e = engineIdentityKey expected.
Proof.
  unfold sameAs, sameEngineIdentity. split.
  - destruct (narrow v) as [e|] eqn:E; [|discriminate]. intros H%String.eqb_eq.
    apply narrow_spec in E. eauto.
  - intros (e & He%narrow_spec & H). rewrite He. by apply String.eqb_eq.
Qed.

Lemma represents_functional (e e' : EngineIdentity) (v : jsval) :
  represents e v -> represents e' v -> e = e'.
Proof. rewrite <- !narrow_spec. intros -> [= ->]. done. Qed.

Lemma acknowledges_spec (expected : EngineIdentity) (v : jsval) :
  isEngineRuntimeIdentity v && sameAs expected v = true <->
  isEngineRuntimeIdentity v = true /\
  exists e, represents e v /\ valid e /\ engineIdentityKey e = engineIdentityKey expected.
Proof.
  rewrite andb_true_iff, sameAs_spec. split; intros [H (e & He & Hk)].
  - split; [done|]. exists e. split; [done|]. split; [|done].
    unfold isEngineRuntimeIdentity in H. apply andb_true_iff in H as [H _].
    apply isEngineIdentity_spec in H as (e' & He' & Ve). by rewrite (represents_functional e e' v).
  - split; [done|]. exists e. tauto.
Qed.

(** The first element of a list that satisfies a test, and its absence. *)
Definition first_with (p : jsval -> bool) (l : list jsval) (v : jsval) : Prop :=
  exists pre post, l = pre ++ v :: post /\ Forall (fun x => p x = false) pre /\ p v = true.

Lemma find_first (p : jsval -> bool) (l : list jsval) (v : jsval) :
  List.find p l = Some v <-> first_with p l v.
Proof.
  unfold first_with. induction l as [|x l IH]; cbn.
  - split; [done|]. by intros ([|? ?] & post & ? & _).
  - destruct (p x) eqn:E.
    + split.
      * intros [= <-]. by exists [], l.
      * intros ([|y pre] & post & [= -> ?] & Hpre & Hv); [by subst|].
        apply Forall_cons_iff in Hpre as [Hy _]. congruence.
    + rewrite IH. split.
      * intros (pre & post & -> & Hpre & Hv). exists (x :: pre), post.
        split; [done|]. split; [by constructor|done].
      * intros ([|y pre] & post & [= -> ?] & Hpre & Hv); [congruence|].
        apply Forall_cons_iff in Hpre as [_ Hpre]. by exists pre, post.
Qed.

Lemma find_none (p : jsval -> bool) (l : list jsval) :
  List.find p l = None <-> Forall (fun x => p x = false) l.
Proof.
  induction l as [|x l IH]; cbn; [by split|]. rewrite Forall_cons_iff, <- IH.
  destruct (p x); naive_solver.
Qed.

Lemma find_app {A} (p : A -> bool) (l l' : list A) :
  List.find p (l ++ l') = match List.find p l with Some x => Some x | None => List.find p l' end.
Proof. induction l as [|x l IH]; cbn; [done|]. by destruct (p x). Qed.

Definition elements (v : jsval) : list jsval := match v with JArr l => l | _ => [] end.

(** The candidate acknowledgements of a response, in the order of preference. *)
Definition candidates (response : record) : list jsval :=
  elements (coalesce (get "engines" response) (get "supported_engines" response)) ++
  [get "engine" response].

(** A matched value that passes the guard again is returned. *)
Lemma find_guarded (p q : jsval -> bool) (v : jsval) (otherwise : option jsval) :
  (forall c, p c = true -> q c = true) -> q JUndef = false ->
  let matched := match v with JArr l => find_value p l | _ => JUndef end in
  (if q matched then Some matched else otherwise) =
  match List.find p (elements v) with Some c => Some c | None => otherwise end.
Proof.
  intros Hpq Hq. destruct v; cbn [elements List.find]; cbn zeta; rewrite ?Hq; try done.
  unfold find_value. destruct (List.find p l) eqn:E; [|by rewrite Hq].
  apply List.find_some in E as [_ E]. by rewrite (Hpq _ E).
Qed.

Lemma runtimeIdentityForExpected_find (response : record) (expected : EngineIdentity) :
  runtimeIdentityForExpected (Some response) expected =
  List.find (fun c => isEngineRuntimeIdentity c && sameAs expected c) (candidates response).
Proof.
  unfold runtimeIdentityForExpected, candidates. rewrite find_app. cbn [List.find].
  rewrite (find_guarded (fun c => isEngineRuntimeIdentity c && sameAs expected c)
    isEngineRuntimeIdentity); [done| |done].
  intros c. rewrite andb_true_iff. tauto.
Qed.

Definition acknowledgesb (expected : EngineIdentity) (v : jsval) : bool :=
  isEngineRuntimeIdentity v && sameAs expected v.

Lemma acknowledgesb_spec (expected : EngineIdentity) (v : jsval) :
  acknowledgesb expected v = true <-> acknowledges expected v.
Proof.
  unfold acknowledgesb, acknowledges. rewrite acknowledges_spec, runtime_conforms. split.
  - intros [(r & Hr & Vr) (e & He & _ & Hk)]. exists r. split; [done|]. split; [done|].
    by rewrite (represents_functional (identity r) e v (proj1 Hr) He).
  - intros (r & Hr & Vr & Hk). split; [by exists r|]. exists (identity r).
    split; [apply Hr|]. split; [apply Vr|done].
Qed.

(** The runtime acknowledgement selected for an expected engine is the first
    of the inventory ([engines], or [supported_engines] when it is absent) and
    then of the response's own engine that is a valid runtime identity with the
    key of the expected engine, and nothing is returned exactly when there is
    none: no unattested or foreign build is ever taken for the expected one. *)
Theorem runtimeIdentityForExpected_spec (response : record) (expected : EngineIdentity) :
  (forall v, runtimeIdentityForExpected (Some response) expected = Some v <->
     first_with (acknowledgesb expected) (candidates response) v) /\
  (runtimeIdentityForExpected (Some response) expected = None <->
     Forall (fun v => ~ acknowledges expected v) (candidates response)) /\
  (forall v, runtimeIdentityForExpected (Some response) expected = Some v ->
     acknowledges expected v).
Proof.
  rewrite runtimeIdentityForExpected_find. split_conj.
  - intros v. apply find_first.
  - rewrite find_none. apply forall_iff. intros v. rewrite <- acknowledgesb_spec, not_true_iff_false. done.
  - intros v [_ H]%List.find_some. by apply acknowledgesb_spec.
Qed.

Definition advertisesb (expected : EngineIdentity) (v : jsval) : bool :=
  isEngineCapabilityDescriptor v && sameAs expected (prop "engine" v).

(** The response itself names the expected engine and a route. *)
Definition legacy_route (expected : EngineIdentity) (response : record) : bool :=
  isEngineIdentity (get "engine" response) && sameAs expected (get "engine" response) &&
  text (get "routing_key" response).

Lemma legacy_descriptor_ok (expected : EngineIdentity) (response : record) :
  legacy_route expected response = true ->
  advertisesb expected (legacyDescriptor (get "engine" response) (get "routing_key" response)) =
  true.
Proof.
  unfold legacy_route, advertisesb, legacyDescriptor. rewrite !andb_true_iff.
  intros [[He Hs] Hk]. unfold isEngineCapabilityDescriptor. cbn. rewrite He, Hs, Hk. done.
Qed.

(** The capability selected for an expected engine is the first descriptor
    of the inventory that advertises it; with none, a response that itself names
    the engine and a route gives a descriptor that claims no feature; otherwise
    nothing.  What is selected is always a valid descriptor of that engine. *)
Theorem engineCapabilityForExpected_spec (response : record) (expected : EngineIdentity) :
  let inventory := elements (get "engines" response) in
  (forall v, engineCapabilityForExpected (Some response) expected = Some v <->
     first_with (advertisesb expected) inventory v \/
     Forall (fun c => advertisesb expected c = false) inventory /\
     legacy_route expected response = true /\
     v = legacyDescriptor (get "engine" response) (get "routing_key" response)) /\
  (forall v, engineCapabilityForExpected (Some response) expected = Some v ->
     advertisesb expected v = true).
Proof.
  cbn zeta. unfold engineCapabilityForExpected.
  rewrite (find_guarded (advertisesb expected) isEngineCapabilityDescriptor); [| |done].
  2: { intros c. unfold advertisesb. rewrite andb_true_iff. tauto. }
  fold (legacy_route expected response).
  destruct (List.find _ _) as [c|] eqn:E.
  - pose proof (proj1 (find_first _ _ _) E) as Hc. split.
    + intros v. rewrite <- find_first. split; [intros [= <-]; by left|].
      intros [H|(H & _)]; [congruence|]. apply find_none in H. congruence.
    + intros v [= <-]. apply List.find_some in E. apply E.
  - pose proof (proj1 (find_none _ _) E) as Hn. split.
    + intros v. rewrite <- find_first. destruct (legacy_route expected response) eqn:El.
      * split; [intros [= <-]; right; done|]. intros [H|(_ & _ & ->)]; [congruence|done].
      * split; [discriminate|]. intros [H|(_ & H & _)]; [congruence|discriminate].
    + intros v. destruct (legacy_route expected response) eqn:El; [|discriminate].
      intros [= <-]. by apply legacy_descriptor_ok.
Qed.

(** ** Execution pools *)

(** A worker that consumes the pool's route and no other, claims the pool and
    acknowledges the expected engine. *)
Definition isolated (routingKey : string) (expected : EngineIdentity) (binding : jsval) : Prop :=
  (exists s, prop "worker" binding = JStr s /\ nonempty s = true) /\
  prop "queues" binding = JArr [JStr routingKey] /\
  prop "execution_pool" binding = JStr routingKey /\
  acknowledges expected (prop "engine" binding).

Lemma exclusiveBinding_spec (routingKey : string) (expected : EngineIdentity) (binding : jsval) :
  exclusiveBinding routingKey expected binding = true <-> isolated routingKey expected binding.
Proof.
  unfold exclusiveBinding, isolated. rewrite <- acknowledgesb_spec. unfold acknowledgesb.
  rewrite !andb_true_iff, text_spec, is_str_spec. split.
  - intros (((((Hw & _) & Hq) & Hp) & Hr) & Hs). split_conj; try assumption.
    destruct (prop "queues" binding) as [| | | | |[|q [|]]|]; try discriminate.
    by apply is_str_spec in Hq as ->.
  - intros (Hw & -> & Hp & Hr & Hs). cbn. rewrite String.eqb_refl. tauto.
Qed.

(** An execution pool is reported live exactly when the inspector snapshot
    has no error and some worker of it is isolated: it consumes exactly the
    pool's route, claims the pool and acknowledges the expected engine. *)
Theorem liveWorkerConsumesExecutionPool_spec (queue : record) (routingKey : string)
    (expected : EngineIdentity) :
  liveWorkerConsumesExecutionPool (Some queue) routingKey expected = true <->
  nullish (get "worker_queues_error" queue) = true /\
  nullish (get "worker_runtime_error" queue) = true /\
  exists bindings binding, get "worker_queues" queue = JArr bindings /\ In binding bindings /\
    isolated routingKey expected binding.
Proof.
  unfold liveWorkerConsumesExecutionPool. rewrite !andb_true_iff. split.
  - intros [[He Hr] H]. split_conj; try assumption.
    destruct (get "worker_queues" queue) as [| | | | |l|]; try discriminate.
    apply existsb_exists in H as (b & Hin & Hb). apply exclusiveBinding_spec in Hb. eauto.
  - intros (He & Hr & l & b & -> & Hin & Hb). split; [done|].
    apply existsb_exists. exists b. by rewrite exclusiveBinding_spec.
Qed.

(** ** Configuration *)

Definition supported (distribution : string) : Prop :=
  distribution = "opencfd" \/ distribution = "foundation".

(** An explicit slug of the configuration is not empty. *)
Definition non_empty_slug (s : option string) : Prop :=
  match s with None => True | Some s => nonempty s = true end.

Definition configured_distribution (c : config) : string :=
  from_option id "opencfd" (distribution_config c).

Lemma supported_spec (d : string) :
  negb (String.eqb d "opencfd") && negb (String.eqb d "foundation") = false <-> supported d.
Proof.
  unfold supported. rewrite andb_false_iff, !negb_false_iff, !String.eqb_eq. done.
Qed.

Lemma contract_version_spec (a : jsnum) :
  negb (isSafeInteger a) || (a <= 0)%js = false <-> positive_safe a.
Proof.
  rewrite orb_false_iff, negb_false_iff, isSafeInteger_spec. unfold positive_safe. split.
  - intros [(z & Hz & Hm) H]. rewrite (leb_integer _ _ _ _ Hz to_integer_0) in H.
    exists z. split; [done|]. lia.
  - intros (z & Hz & Hm). rewrite (leb_integer _ _ _ _ Hz to_integer_0). split; [|lia].
    exists z. split; [done|]. lia.
Qed.

Lemma config_ok (c : config) (e : EngineIdentity) :
  openFoamEngineIdentityFromConfig c = Ok e <->
  supported (configured_distribution c) /\ positive_safe (parsedContractVersion c) /\
  e = openFoamEngineIdentity (configured_distribution c)
        {| version_option := version_config c;
           numericsRevision_option := numericsRevision_config c;
           adapterContractVersion_option := Some (parsedContractVersion c) |}.
Proof.
  unfold openFoamEngineIdentityFromConfig. fold (configured_distribution c).
  rewrite <- supported_spec, <- contract_version_spec.
  destruct (negb _ && negb _); [split; [discriminate|by intros (? & _)]|].
  destruct (negb _ || _); [split; [discriminate|by intros (_ & ? & _)]|].
  split; [intros [= <-]; done|by intros (_ & _ & ->)].
Qed.

Lemma numerics_default (d v : string) :
  let n := if String.eqb d "opencfd" && String.eqb v "2606" then "2" else "1" in
  n = "2" /\ d = "opencfd" /\ v = "2606" \/ n = "1" /\ ~ (d = "opencfd" /\ v = "2606").
Proof.
  cbn zeta. destruct (String.eqb_spec d "opencfd"), (String.eqb_spec v "2606"); cbn; tauto.
Qed.

Lemma version_default (d : string) :
  supported d ->
  let v := if String.eqb d "foundation" then "14" else "2606" in
  d = "opencfd" /\ v = "2606" \/ d = "foundation" /\ v = "14".
Proof. intros [->| ->]; [by left|by right]. Qed.

(** The configuration parser throws exactly on an unsupported distribution
    or a contract version that is not a positive safe integer; otherwise it
    keeps the explicit settings, completes a missing version with the default of
    the configured distribution (never the other's), a missing numerics revision
    with 2 for OpenCFD 2606 alone, and gives a valid identity when the explicit
    slugs are not empty. *)
Theorem openFoamEngineIdentityFromConfig_spec (c : config) :
  let d := configured_distribution c in
  (throws (openFoamEngineIdentityFromConfig c) = true <->
   ~ (supported d /\ positive_safe (parsedContractVersion c))) /\
  (forall e, openFoamEngineIdentityFromConfig c = Ok e ->
     family e = "openfoam" /\ distribution e = d /\
     adapter_contract_version e = parsedContractVersion c /\
     (forall v, version_config c = Some v -> version e = v) /\
     (version_config c = None -> (d = "opencfd" /\ version e = "2606") \/
                                 (d = "foundation" /\ version e = "14")) /\
     (forall n, numericsRevision_config c = Some n -> numerics_revision e = n) /\
     (numericsRevision_config c = None ->
        numerics_revision e = "2" /\ d = "opencfd" /\ version e = "2606" \/
        numerics_revision e = "1" /\ ~ (d = "opencfd" /\ version e = "2606")) /\
     (non_empty_slug (version_config c) -> non_empty_slug (numericsRevision_config c) -> valid e)).
Proof.
  cbn zeta. pose proof (config_ok c) as Hok. split.
  - destruct (openFoamEngineIdentityFromConfig c) as [e|m]; cbn [throws].
    + split; [discriminate|]. intros H. exfalso. destruct (proj1 (Hok e) eq_refl) as (Hs & Hp & _).
      exact (H (conj Hs Hp)).
    + split; [|done]. intros _ [Hs Hp].
      discriminate (proj2 (Hok _) (conj Hs (conj Hp eq_refl))).
  - intros e He. apply Hok in He as (Hs & Hp & ->). clear Hok.
    unfold openFoamEngineIdentity, valid, valid_identity.
    cbn [family distribution version numerics_revision adapter_contract_version
         version_option numericsRevision_option adapterContractVersion_option from_option id].
    set (d := configured_distribution c) in *. pose proof (version_default d Hs) as Hv.
    split_conj; try done.
    + by intros v ->.
    + by intros ->.
    + by intros n ->.
    + intros ->. apply numerics_default.
    + intros Wv Wn. split_conj; [done|by destruct Hs as [-> | ->]|..|done].
      * destruct (version_config c); [exact Wv|by destruct Hv as [[_ ->]|[_ ->]]].
      * destruct (numericsRevision_config c); [exact Wn|]. cbn. by destruct (_ && _).
Qed.

Lemma openFoamEngineIdentityFromConfig_spec_witness :
  let c := {| distribution_config := Some "foundation"; version_config := None;
              numericsRevision_config := None;
              adapterContractVersion_config := Some (inl "1") |} in
  openFoamEngineIdentityFromConfig c = Ok FOUNDATION_OPENFOAM_14_ENGINE /\
  valid FOUNDATION_OPENFOAM_14_ENGINE.
Proof.
  intros c. assert (H : openFoamEngineIdentityFromConfig c = Ok FOUNDATION_OPENFOAM_14_ENGINE)
    by (vm_compute; reflexivity).
  split; [exact H|].
  destruct (proj2 (openFoamEngineIdentityFromConfig_spec c) _ H) as (_ & _ & _ & _ & _ & _ & _ & Hv).
  exact (Hv I I).
Defined.
