(* ===== verification/EvidenceGate.v ===== *)
(** * The pointwise evidence gate ([packages/core/src/polar-fit.ts])

    [baseRejectionReasons] decides from one solved point alone whether its
    coefficients may enter a polar: the basic identity and magnitude gates, the
    steady gates with the RANS hold proof, and for URANS points the four
    admissible kinds of evidence (a selected archive interpretation, a certified
    absence of shedding, a certified aperiodic mean, or a periodic window with
    its clean-cycle tail).  Proved: what an empty list of reasons means, on
    every route, and that the hold gate accepts nothing that the engine client's
    parser rejects. *)

From Stdlib Require Import ZArith Lia Bool Ascii String.
From Stdlib Require Import Floats.
From stdpp Require Import base list strings option numbers.
From S2P Require Import Prelude JsNumber JsString JsValue Numeric.
From S2P Require UransQuality UransCyclePolicy NoShedding AperiodicMean RansHold PolarEvidence.

Local Open Scope string_scope.
Local Open Scope list_scope.

#[local] Existing Instances RansHold.repr_channel RansHold.repr_certificate
  RansHold.valid_certificate AperiodicMean.repr_channel AperiodicMean.repr_certificate
  AperiodicMean.valid_certificate NoShedding.repr_certificate NoShedding.valid_certificate.

Definition MISSING_URANS_VIDEO_REASON : string := "missing-urans-video".
Definition INCOMPLETE_URANS_INTEGRATION_REASON : string := "incomplete-urans-integration".

Definition hasIncompleteUransIntegrationWarning (warnings : option (list string)) : bool :=
  match warnings with
  | Some warnings =>
      existsb (fun warning =>
        JsString.includes warning UransQuality.URANS_BUDGET_STOP_MARKER ||
        JsString.includes warning UransQuality.URANS_CONTINUATION_REQUIRED_MARKER) warnings
  | None => false
  end.

(** The period floors are small integers, compared with counts and numbers. *)
Definition FRAME_TRACK_MIN_PERIODS : Z := 5.
Definition FRAME_TRACK_MIN_PERIODS_FULL : Z := FRAME_TRACK_MIN_PERIODS.
Definition FRAME_TRACK_MIN_PERIODS_PRECALC : Z := 3.
Definition FRAME_TRACK_PERIOD_EPSILON : jsnum := 1e-9%float.

Definition is_label (o : option string) (s : string) : bool :=
  match o with Some t => String.eqb t s | None => false end.

Definition frameTrackMinPeriodsFor (fidelity : option string) : Z :=
  if is_label fidelity "urans_precalc" then FRAME_TRACK_MIN_PERIODS_PRECALC
  else FRAME_TRACK_MIN_PERIODS_FULL.

Definition NON_PHYSICAL_COEFFICIENT_LIMIT : jsnum := 5%float.
Definition URANS_CLEAN_CYCLE_CERTIFICATE_VERSION : string := "clean-cycle-v3".
Definition RANS_HOLD_CERTIFICATE_VERSION : string := "rans-hold-v1".
Definition RANS_HOLD_REQUIRED_SAMPLES : jsnum := 200%float.

(** ** Data *)

Inductive ResultRegime := rans | urans.

#[export] Instance result_regime_eq_dec : EqDecision ResultRegime.
Proof. solve_decision. Defined.

(** The fields the classifier reads.  [null] and [undefined] coefficients, labels and
    flags are [None] (the gate does not tell them apart); payloads whose absence
    it does tell from [null] are dynamic values. *)
Record PolarEvidencePoint := {
  a : jsnum;
  cl : option jsnum;
  cd : option jsnum;
  cm : option jsnum;
  ld : option jsnum;
  status : string;
  source : string;
  regime : option ResultRegime;
  converged : bool;
  stalled : bool;
  unsteady : option bool;
  error : option string;
  failureDisposition : option string;
  finalResidual : option jsnum;
  iterations : option jsnum;
  sourceGeometryCompatible : option bool;
  hasForceHistory : option bool;
  hasVideo : option bool;
  frameTrack : jsval;
  uransCycleCertificate : jsval;
  noSheddingCertificate : jsval;
  aperiodicMeanCertificate : jsval;
  ransHoldCertificate : jsval;
  fidelity : option string;
  steadyHistory : jsval;
  qualityWarnings : option (list string);
  selectedArchiveInterpretation : jsval;
}.

(** [o === b] and the truthiness of an optional flag *)
Definition flag_is (o : option bool) (b : bool) : bool :=
  match o with Some c => Bool.eqb c b | None => false end.
Definition flag (o : option bool) : bool := flag_is o true.

(** [finite(x)] on a coefficient, and a test on a finite one. *)
Definition finite_coefficient (x : option jsnum) : bool :=
  match x with Some x => isFinite x | None => false end.
Definition finite_and (x : option jsnum) (p : jsnum -> bool) : bool :=
  match x with Some x => isFinite x && p x | None => false end.

Definition all_finite (p : PolarEvidencePoint) : bool :=
  finite_coefficient (cl p) && finite_coefficient (cd p) && finite_coefficient (cm p).

Definition is_urans (p : PolarEvidencePoint) : bool := bool_decide (regime p = Some urans).

(** ** The selected archive interpretation *)

Definition SHA256_HEX (s : string) : bool := hex_string 64 s.

Definition hex_any_case (c : ascii) : bool := hex_char (lower_char c).
Definition dash (c : ascii) : bool := Ascii.eqb c "-".
Definition between (lo hi c : ascii) : bool :=
  Nat.leb (code lo) (code c) && Nat.leb (code c) (code hi).

Fixpoint match_chars (pattern : list (ascii -> bool)) (s : string) : bool :=
  match pattern, s with
  | [], EmptyString => true
  | p :: pattern', String c s' => p c && match_chars pattern' s'
  | _, _ => false
  end.

(** [/^[0-9a-f]{8}-[0-9a-f]{4}-[1-8][0-9a-f]{3}-[89ab][0-9a-f]{3}-[0-9a-f]{12}$/i] *)
Definition UUID_TEXT : string -> bool :=
  match_chars
    (repeat hex_any_case 8 ++ [dash] ++ repeat hex_any_case 4 ++ [dash; between "1" "8"] ++
     repeat hex_any_case 3 ++ [dash; fun c => between "8" "9" c || between "a" "b" (lower_char c)] ++
     repeat hex_any_case 3 ++ [dash] ++ repeat hex_any_case 12).

Definition str_matches (re : string -> bool) (v : jsval) : bool :=
  match v with JStr s => re s | _ => false end.

Definition hasCertifiedSelectedArchiveInterpretation (p : PolarEvidencePoint) : bool :=
  let interpretation := selectedArchiveInterpretation p in
  is_urans p && isRecord interpretation &&
  is_str (prop "source" interpretation) "archive_backfill" &&
  is_str (prop "state" interpretation) "accepted" &&
  (is_str (prop "regime" interpretation) "periodic" ||
   is_str (prop "regime" interpretation) "steady_equivalent") &&
  str_matches UUID_TEXT (prop "id" interpretation) &&
  str_matches UUID_TEXT (prop "sourceArchiveId" interpretation) &&
  str_matches SHA256_HEX (prop "inputEvidenceSignature" interpretation).

(** ** Steady evidence *)

Definition isOscillatingSteadyStable (p : PolarEvidencePoint) : bool :=
  negb (flag (unsteady p)) && negb (nullish (steadyHistory p)) &&
  is_true (prop "mean_stable" (steadyHistory p)).

Definition isSteadyRansEvidence (evidence : PolarEvidencePoint) : bool :=
  bool_decide (regime evidence = Some rans) &&
  negb (is_label (fidelity evidence) "urans_precalc") &&
  negb (is_label (fidelity evidence) "urans_full").

Definition approximatelyEqual (left right : jsnum) : bool :=
  (PrimFloat.abs (left - right)
   <= 1e-12 * Math_max (Math_max 1 (PrimFloat.abs left)) (PrimFloat.abs right))%js.

Definition HOLD_CHANNEL_KEYS : list string :=
  ["mean"; "min_value"; "max_value"; "peak_to_peak"; "relative_spread"].

Definition validRansHoldChannel (value : jsval) (absoluteFloor relativeTolerance : jsnum) : bool :=
  match value with
  | JObj o =>
      hasExactKeys o HOLD_CHANNEL_KEYS &&
      match get "mean" o, get "min_value" o, get "max_value" o, get "peak_to_peak" o,
            get "relative_spread" o with
      | JNum mean, JNum minimum, JNum maximum, JNum peakToPeak, JNum relativeSpread =>
          negb (negb (isFinite mean) || negb (isFinite minimum) || negb (isFinite maximum) ||
                negb (isFinite peakToPeak) || negb (isFinite relativeSpread) ||
                (minimum > mean)%js || (mean > maximum)%js || (maximum < minimum)%js ||
                (peakToPeak < 0)%js || (relativeSpread < 0)%js) &&
          (let expectedPeakToPeak := (maximum - minimum)%float in
           let expectedRelativeSpread := (peakToPeak / (PrimFloat.abs mean + absoluteFloor))%float in
           approximatelyEqual peakToPeak expectedPeakToPeak &&
           approximatelyEqual relativeSpread expectedRelativeSpread &&
           (relativeSpread <= relativeTolerance)%js)
      | _, _, _, _, _ => false
      end
  | _ => false
  end.

Definition HOLD_KEYS : list string :=
  ["reducer_version"; "sample_count"; "required_sample_count"; "start_iteration";
   "end_iteration"; "relative_tolerance"; "absolute_floor"; "certified"; "cl"; "cd"; "cm"].

(** The negation of the long invalidity test, on the certificate's fields. *)
Definition validRansHold (certificate : record) : bool :=
  is_str (get "reducer_version" certificate) RANS_HOLD_CERTIFICATE_VERSION &&
  is_true (get "certified" certificate) &&
  match get "sample_count" certificate, get "required_sample_count" certificate,
        get "start_iteration" certificate, get "end_iteration" certificate,
        get "relative_tolerance" certificate, get "absolute_floor" certificate with
  | JNum sampleCount, JNum requiredSampleCount, JNum startIteration, JNum endIteration,
    JNum relativeTolerance, JNum absoluteFloor =>
      negb (negb (isInteger sampleCount) || negb (isInteger requiredSampleCount) ||
            negb (sampleCount === RANS_HOLD_REQUIRED_SAMPLES)%js ||
            negb (requiredSampleCount === RANS_HOLD_REQUIRED_SAMPLES)%js ||
            negb (isInteger startIteration) || (startIteration < 0)%js ||
            negb (isInteger endIteration) || (endIteration < startIteration)%js ||
            negb ((endIteration - startIteration + 1)%float === sampleCount)%js ||
            negb (isFinite relativeTolerance) || (relativeTolerance <= 0)%js ||
            negb (isFinite absoluteFloor) || (absoluteFloor <= 0)%js) &&
      validRansHoldChannel (get "cl" certificate) absoluteFloor relativeTolerance &&
      validRansHoldChannel (get "cd" certificate) absoluteFloor relativeTolerance &&
      validRansHoldChannel (get "cm" certificate) absoluteFloor relativeTolerance
  | _, _, _, _, _, _ => false
  end.

(** [finite(x) && approximatelyEqual(x, channel.mean)] *)
Definition bound_to_mean (x : option jsnum) (channel : jsval) : bool :=
  match x, prop "mean" channel with
  | Some x, JNum mean => isFinite x && approximatelyEqual x mean
  | _, _ => false
  end.

Definition ransHoldCertificateReasons (p : PolarEvidencePoint) : list string :=
  if negb (isSteadyRansEvidence p) then []
  else match ransHoldCertificate p with
  | JUndef => []
  | JNull => ["missing-rans-hold-certificate"]
  | JObj certificate =>
      if negb (hasExactKeys certificate HOLD_KEYS) then ["invalid-rans-hold-certificate"]
      else if negb (validRansHold certificate) then ["invalid-rans-hold-certificate"]
      else if negb (bound_to_mean (cl p) (get "cl" certificate) &&
                    bound_to_mean (cd p) (get "cd" certificate) &&
                    bound_to_mean (cm p) (get "cm" certificate))
           then ["rans-hold-coefficient-mismatch"]
      else []
  | _ => ["invalid-rans-hold-certificate"]
  end.

(** ** The clean-cycle tail *)

(** [cycle != null && typeof cycle === "object" && cycle.disposition === "selected"] *)
Definition isSelected (cycle : jsval) : bool := is_str (prop "disposition" cycle) "selected".

Definition qualityInput (cycle : jsval) : UransCyclePolicy.SelectedCleanCycleQualityInput :=
  let channel c := {| UransCyclePolicy.shapeError := prop (c +:+ "_shape_error") cycle;
                      UransCyclePolicy.amplitudeDeviation :=
                        prop (c +:+ "_amplitude_deviation") cycle;
                      UransCyclePolicy.highFrequency := prop (c +:+ "_high_frequency") cycle |} in
  {| UransCyclePolicy.coefficientSamples := prop "coefficient_samples" cycle;
     UransCyclePolicy.fieldFrames := prop "field_frames" cycle;
     UransCyclePolicy.phaseMaxGap := prop "phase_max_gap" cycle;
     UransCyclePolicy.phaseShiftBins := prop "phase_shift_bins" cycle;
     UransCyclePolicy.cl := channel "cl";
     UransCyclePolicy.cd := channel "cd";
     UransCyclePolicy.cm := channel "cm";
     UransCyclePolicy.reasons := prop "reasons" cycle |}.

(** [xs.findIndex(p)], [None] for [-1] *)
Fixpoint findIndex (p : jsval -> bool) (xs : list jsval) : option nat :=
  match xs with
  | [] => None
  | x :: xs' => if p x then Some 0%nat else option_map S (findIndex p xs')
  end.

(** Every index is an integer and one more than the one before. *)
Fixpoint consecutive_from (previous : jsval) (indexes : list jsval) : bool :=
  match indexes with
  | [] => true
  | index :: indexes' =>
      is_integer index &&
      match previous, index with JNum p, JNum i => (i === (p + 1)%float)%js | _, _ => false end &&
      consecutive_from index indexes'
  end.
Definition consecutive (indexes : list jsval) : bool :=
  match indexes with
  | [] => true
  | index :: indexes' => is_integer index && consecutive_from index indexes'
  end.

Definition startPosition (selectedStart : jsval) (cycles : list jsval) : option nat :=
  match selectedStart with
  | JNum start =>
      if isInteger start && (start >= 0)%js
      then findIndex (fun cycle => strict_eq_num (prop "index" cycle) start) cycles
      else None
  | _ => None
  end.

Definition suffixIsValid (selectedStart : jsval) (cycles : list jsval) (required : Z) : bool :=
  match startPosition selectedStart cycles with
  | None => false
  | Some position =>
      forallb isSelected (drop position cycles) &&
      forallb (fun cycle => negb (isSelected cycle)) (take position cycles) &&
      consecutive (List.map (prop "index") cycles) &&
      (Z.of_nat (length (List.filter isSelected cycles)) =? required)%Z
  end.

(** [issue === "coefficient-samples" || issue === "field-frames"] *)
Definition evidence_issue (issue : string) : bool :=
  String.eqb issue "coefficient-samples" || String.eqb issue "field-frames".

(** [typeof v === "number" && Number.isInteger(v) && p(v)] *)
Definition integer_with (p : jsnum -> bool) (v : jsval) : bool := is_integer v && on_num p v.

(** The reasons of a certified clean-cycle-v3 payload. *)
Definition cleanCycleTailReasons (certificate : jsval) (required : Z) : list string :=
  let cycles := match prop "cycles" certificate with JArr l => l | _ => [] end in
  let selected := List.filter isSelected cycles in
  let selectedQualityIssues := List.flat_map (fun cycle =>
    UransCyclePolicy.selectedCleanCycleQualityReasons (qualityInput cycle)) selected in
  fail_if (negb (integer_with (fun x => x === of_Z required)%js
                   (prop "required_clean_cycles" certificate)) ||
           negb (integer_with (fun x => x >= of_Z required)%js
                   (prop "terminal_clean_cycles" certificate)))
    "insufficient-clean-cycles" ++
  fail_if ((Z.of_nat (length selected) <? required)%Z || existsb evidence_issue selectedQualityIssues)
    "insufficient-clean-cycle-evidence" ++
  fail_if (existsb (fun issue => negb (evidence_issue issue)) selectedQualityIssues)
    "invalid-clean-cycle-quality" ++
  fail_if (negb (suffixIsValid (prop "selected_cycle_start_index" certificate) cycles required))
    "invalid-clean-cycle-certificate".

Definition cycleCertificateReasons (certificate : jsval) (fidelity : option string) :
    list string :=
  match certificate with
  | JNull => ["missing-clean-cycle-certificate"]
  | _ =>
      let required := frameTrackMinPeriodsFor fidelity in
      let version_ok :=
        is_str (prop "reducer_version" certificate) URANS_CLEAN_CYCLE_CERTIFICATE_VERSION in
      let certified := is_true (prop "certified" certificate) in
      fail_if (negb version_ok) "invalid-clean-cycle-certificate" ++
      fail_if (negb certified) "uncertified-urans-cycles" ++
      when (certified && version_ok) (cleanCycleTailReasons certificate required)
  end.

Definition frameTrackReasons (frameTrack : jsval) (fidelity : option string) : list string :=
  fail_if (negb (is_true (prop "stationary" frameTrack))) "non-stationary" ++
  fail_if (negb (match prop "periods_retained" frameTrack with
                 | JNum periods =>
                     isFinite periods &&
                     (periods + FRAME_TRACK_PERIOD_EPSILON >=
                      of_Z (frameTrackMinPeriodsFor fidelity))%js
                 | _ => false
                 end)) "insufficient-periods".

(** ** The gate *)

Definition parse_unless_nullish (parse : jsval -> parse_result) (v : jsval) :
    option parse_result := if nullish v then None else Some (parse v).

Definition ok (r : option parse_result) : bool :=
  match r with Some r => accepted r | None => false end.
Definition present (r : option parse_result) : bool :=
  match r with Some _ => true | None => false end.

Definition noSheddingParse (p : PolarEvidencePoint) : option parse_result :=
  parse_unless_nullish NoShedding.parseNoSheddingCertificate (noSheddingCertificate p).
Definition aperiodicParse (p : PolarEvidencePoint) : option parse_result :=
  parse_unless_nullish AperiodicMean.parseAperiodicMeanCertificate (aperiodicMeanCertificate p).

Definition certifiedNoShedding (p : PolarEvidencePoint) : bool :=
  flag_is (unsteady p) false && ok (noSheddingParse p).

Definition aperiodicCoefficientsMatch (p : PolarEvidencePoint) : bool :=
  match aperiodicParse p with
  | Some (Parsed value) =>
      bound_to_mean (cl p) (prop "cl" value) && bound_to_mean (cd p) (prop "cd" value) &&
      bound_to_mean (cm p) (prop "cm" value)
  | _ => false
  end.

Definition certifiedAperiodic (p : PolarEvidencePoint) : bool :=
  flag (unsteady p) && is_label (fidelity p) "urans_precalc" && ok (aperiodicParse p) &&
  aperiodicCoefficientsMatch p.

(** The reasons of a URANS point. *)
Definition uransReasons (p : PolarEvidencePoint) (archiveBacked : bool) : list string :=
  let noShedding := certifiedNoShedding p in
  let aperiodic := certifiedAperiodic p in
  let periodic := negb archiveBacked && negb noShedding && negb aperiodic in
  fail_if (present (noSheddingParse p) &&
           (negb (ok (noSheddingParse p)) || negb (flag_is (unsteady p) false)))
    "invalid-no-shedding-certificate" ++
  fail_if (present (aperiodicParse p) &&
           (negb (ok (aperiodicParse p)) || negb (flag (unsteady p)) ||
            negb (is_label (fidelity p) "urans_precalc")))
    "invalid-aperiodic-mean-certificate" ++
  fail_if (ok (aperiodicParse p) && negb (aperiodicCoefficientsMatch p))
    "aperiodic-mean-coefficient-mismatch" ++
  fail_if (periodic && hasIncompleteUransIntegrationWarning (qualityWarnings p))
    INCOMPLETE_URANS_INTEGRATION_REASON ++
  fail_if (periodic && negb (flag (hasForceHistory p))) "missing-force-history" ++
  fail_if (aperiodic && negb (flag (hasForceHistory p))) "missing-force-history" ++
  (let selectedSteadyEquivalent :=
     archiveBacked &&
     is_str (prop "regime" (selectedArchiveInterpretation p)) "steady_equivalent" in
   fail_if (negb (flag (hasVideo p)) && negb selectedSteadyEquivalent && negb noShedding)
     MISSING_URANS_VIDEO_REASON) ++
  when (periodic && negb (nullish (frameTrack p))) (frameTrackReasons (frameTrack p) (fidelity p)) ++
  match uransCycleCertificate p with
  | JUndef => []
  | certificate => when periodic (cycleCertificateReasons certificate (fidelity p))
  end.

Definition baseRejectionReasons (p : PolarEvidencePoint) : list string :=
  let archiveBacked := hasCertifiedSelectedArchiveInterpretation p in
  let oscillatingSteady := isOscillatingSteadyStable p in
  fail_if (flag_is (sourceGeometryCompatible p) false) "unverified-source-geometry" ++
  fail_if (negb (String.eqb (status p) "done") || negb (String.eqb (source p) "solved"))
    "not-solved" ++
  fail_if (negb (all_finite p)) "missing-coefficients" ++
  fail_if (finite_and (cd p) (fun x => x <= 0)%js) "non-positive-drag" ++
  fail_if (finite_and (cl p) (fun x => PrimFloat.abs x > NON_PHYSICAL_COEFFICIENT_LIMIT)%js ||
           finite_and (cm p) (fun x => PrimFloat.abs x > NON_PHYSICAL_COEFFICIENT_LIMIT)%js)
    "non-physical-coefficients" ++
  fail_if (match error p with Some message => nonempty message | None => false end)
    "solver-error" ++
  fail_if (is_label (failureDisposition p) "material_domain") "material-domain" ++
  fail_if (negb (converged p) && negb oscillatingSteady && negb archiveBacked) "not-converged" ++
  fail_if (stalled p && negb (flag (unsteady p)) && negb oscillatingSteady) "solver-stalled" ++
  ransHoldCertificateReasons p ++
  when (is_urans p) (uransReasons p archiveBacked).

Definition isHardRansFailureEvidence (evidence : PolarEvidencePoint) : bool :=
  if negb (isSteadyRansEvidence evidence) then false
  else PolarEvidence.isAutomaticRansPrecalcHandoffEvidence
    {| PolarEvidence.classificationState := "rejected";
       PolarEvidence.failureDisposition := failureDisposition evidence;
       PolarEvidence.status := status evidence;
       PolarEvidence.source := source evidence;
       PolarEvidence.error := error evidence |}.

(** ** The hold gate and the engine client's parser *)

Lemma hold_channel_sound (v : jsval) (floor tolerance : jsnum) :
  isFinite tolerance = true ->
  validRansHoldChannel v floor tolerance = true ->
  exists c, represents c v /\ RansHold.channel_ok floor tolerance c /\
    (ord (RansHold.min_value c) <= ord (RansHold.mean c) <= ord (RansHold.max_value c))%Z.
Proof.
  intros Ht. unfold validRansHoldChannel. destruct v as [| | | | | |o]; try discriminate.
  rewrite andb_true_iff. intros [Hk H].
  apply hasExactKeys_exact in Hk; [|repeat constructor; cbn; intuition discriminate].
  destruct (get "mean" o) as [| | |m| | |] eqn:E1; try discriminate.
  destruct (get "min_value" o) as [| | |lo| | |] eqn:E2; try discriminate.
  destruct (get "max_value" o) as [| | |hi| | |] eqn:E3; try discriminate.
  destruct (get "peak_to_peak" o) as [| | |pp| | |] eqn:E4; try discriminate.
  destruct (get "relative_spread" o) as [| | |rs| | |] eqn:E5; try discriminate.
  rewrite !andb_true_iff, negb_true_iff, !orb_false_iff, !negb_false_iff in H.
  destruct H as [(((((((((F1 & F2) & F3) & F4) & F5) & L1) & L2) & L3) & L4) & L5)
    [[A1 A2] A3]].
  exists (RansHold.Build_RansHoldChannel m lo hi pp rs). split.
  - exists o. split; [done|]. split; [exact Hk|]. cbn. done.
  - cbn. split.
    + unfold RansHold.channel_ok, valid, valid_num. cbn. rewrite leb_finite in A3 by done.
      rewrite (ltb_finite_false tolerance) by done. done.
    + rewrite ltb_finite_false in L1, L2 by done. done.
Qed.

Lemma required_samples_integer : to_integer RANS_HOLD_REQUIRED_SAMPLES = Some 200%Z.
Proof. vm_compute. reflexivity. Qed.

Lemma is_200 (x : jsnum) :
  isInteger x = true -> (x === RANS_HOLD_REQUIRED_SAMPLES)%js = true -> to_integer x = Some 200%Z.
Proof.
  intros [z Hz]%isInteger_spec H. rewrite (eqb_integer _ _ _ _ Hz required_samples_integer) in H.
  apply Z.eqb_eq in H as ->. exact Hz.
Qed.

Lemma count_at_least_integer (x : jsnum) (lo : jsnum) (a z : Z) :
  to_integer lo = Some a -> to_integer x = Some z -> (a <= z)%Z -> RansHold.count_at_least lo x.
Proof.
  intros Ha Hz Hle. split; [apply isInteger_spec; eauto|].
  rewrite (leb_integer _ _ _ _ Ha Hz). by apply Z.leb_le.
Qed.

(** A coefficient of the point agrees with a window mean. *)
Definition agrees (x : option jsnum) (mean : jsnum) : Prop :=
  exists y, x = Some y /\ isFinite y = true /\ approximatelyEqual y mean = true.

Lemma bound_to_mean_spec (x : option jsnum) (channel : jsval) :
  bound_to_mean x channel = true <-> exists m, prop "mean" channel = JNum m /\ agrees x m.
Proof.
  unfold bound_to_mean, agrees. split.
  - destruct x as [y|]; [|discriminate]. destruct (prop "mean" channel); try discriminate.
    rewrite andb_true_iff. intros []. eauto 6.
  - intros (m & -> & y & -> & Hy & Ha). by rewrite Hy, Ha.
Qed.

Definition mean_between (c : RansHold.RansHoldChannel) : Prop :=
  (ord (RansHold.min_value c) <= ord (RansHold.mean c) <= ord (RansHold.max_value c))%Z.

Lemma validRansHold_sound (o : record) :
  hasExactKeys o HOLD_KEYS = true -> validRansHold o = true ->
  exists c : RansHold.RansHoldCertificate, represents c (JObj o) /\ valid c /\
    to_integer (RansHold.sample_count c) = Some 200%Z /\
    to_integer (RansHold.required_sample_count c) = Some 200%Z /\
    mean_between (RansHold.cl c) /\ mean_between (RansHold.cd c) /\ mean_between (RansHold.cm c).
Proof.
  intros Hk. apply hasExactKeys_exact in Hk; [|repeat constructor; cbn; intuition discriminate].
  unfold validRansHold. rewrite !andb_true_iff, is_str_spec, is_true_spec. intros [[Hv Hc] H].
  destruct (get "sample_count" o) as [| | |sc| | |] eqn:E1; try discriminate.
  destruct (get "required_sample_count" o) as [| | |rc| | |] eqn:E2; try discriminate.
  destruct (get "start_iteration" o) as [| | |s| | |] eqn:E3; try discriminate.
  destruct (get "end_iteration" o) as [| | |e| | |] eqn:E4; try discriminate.
  destruct (get "relative_tolerance" o) as [| | |rt| | |] eqn:E5; try discriminate.
  destruct (get "absolute_floor" o) as [| | |af| | |] eqn:E6; try discriminate.
  rewrite !andb_true_iff, negb_true_iff, !orb_false_iff, !negb_false_iff in H.
  destruct H as [[[H Hcl] Hcd] Hcm].
  destruct H as ((((((((((((I1 & I2) & Q1) & Q2) & I3) & P3) & I4) & P4) & Q5) & F5) & P5) & F6) & P6).
  apply hold_channel_sound in Hcl as (l & Rl & Vl & Ml), Hcd as (d & Rd & Vd & Md),
    Hcm as (m & Rm & Vm & Mm); [|assumption..].
  exists (RansHold.Build_RansHoldCertificate sc rc s e rt af l d m).
  pose proof (is_200 _ I1 Q1) as S1. pose proof (is_200 _ I2 Q2) as S2.
  pose proof to_integer_0 as T0. pose proof to_integer_1 as T1.
  apply isInteger_spec in I3 as [zs Hs]. apply isInteger_spec in I4 as [ze He].
  rewrite (ltb_integer _ _ _ _ Hs T0) in P3. pose proof P4 as P4'.
  rewrite (ltb_integer _ _ _ _ He Hs) in P4.
  split; [|split; [|exact (conj S1 (conj S2 (conj Ml (conj Md Mm))))]].
  - exists o. split; [reflexivity|]. split; [exact Hk|]. cbn. split_conj; assumption.
  - unfold valid, RansHold.valid_certificate. cbn.
    assert (positive_of : forall x, isFinite x = true -> (x <= 0)%js = false -> (x > 0)%js = true).
    { intros x Fx Px. rewrite leb_finite_false in Px by done. by rewrite ltb_finite. }
    split; [exact (count_at_least_integer _ _ _ _ T1 S1 ltac:(lia))|].
    split; [exact (count_at_least_integer _ _ _ _ T1 S2 ltac:(lia))|].
    split; [rewrite (ltb_integer _ _ _ _ S1 S2); apply Z.ltb_irrefl|].
    split; [eapply count_at_least_integer; [exact T0|exact Hs|lia]|].
    split; [eapply count_at_least_integer; [exact T0|exact He|lia]|].
    split; [exact P4'|]. split; [exact Q5|].
    split; [split; [exact F5|by apply positive_of]|].
    split; [split; [exact F6|by apply positive_of]|]. exact (conj Vl (conj Vd Vm)).
Qed.

(** The hold certificate of a point proves the exact 200-sample final window, and
    the point's coefficients are that window's means. *)
Definition holds (p : PolarEvidencePoint) (c : RansHold.RansHoldCertificate) : Prop :=
  represents c (ransHoldCertificate p) /\ valid c /\
  to_integer (RansHold.sample_count c) = Some 200%Z /\
  to_integer (RansHold.required_sample_count c) = Some 200%Z /\
  mean_between (RansHold.cl c) /\ mean_between (RansHold.cd c) /\ mean_between (RansHold.cm c) /\
  agrees (cl p) (RansHold.mean (RansHold.cl c)) /\ agrees (cd p) (RansHold.mean (RansHold.cd c)) /\
  agrees (cm p) (RansHold.mean (RansHold.cm c)).

Lemma bound_channel (x : option jsnum) (v : jsval) (c : RansHold.RansHoldChannel) :
  represents c v -> bound_to_mean x v = true -> agrees x (RansHold.mean c).
Proof.
  intros (o & -> & _ & Hm & _). rewrite bound_to_mean_spec. cbn [prop].
  unfold represents, repr_num in Hm. rewrite Hm. by intros (m & [= <-] & H).
Qed.

Lemma hold_reasons_sound (p : PolarEvidencePoint) :
  isSteadyRansEvidence p = true -> ransHoldCertificate p <> JUndef ->
  ransHoldCertificateReasons p = [] -> exists c, holds p c.
Proof.
  intros Hs Hu. unfold ransHoldCertificateReasons, holds. rewrite Hs. cbn [negb].
  destruct (ransHoldCertificate p) as [| | | | | |o]; try done.
  destruct (hasExactKeys o HOLD_KEYS) eqn:Ek; [|discriminate].
  destruct (validRansHold o) eqn:Ev; [|discriminate]. cbn [negb].
  destruct (_ && _) eqn:Eb; [|discriminate]. intros _.
  apply andb_true_iff in Eb as [[Bl Bd]%andb_true_iff Bm].
  destruct (validRansHold_sound o Ek Ev) as (c & Hr & Vc & S & R & Ml & Md & Mm).
  exists c. destruct Hr as (o' & [= <-] & Hk & Hf). pose proof Hf as (_ & _ & _ & _ & _ & _ & _ & _ & Rl & Rd & Rm).
  split; [exists o; split; [reflexivity|]; split; [exact Hk|exact Hf]|].
  split; [exact Vc|]. split; [exact S|]. split; [exact R|]. split; [exact Ml|].
  split; [exact Md|]. split; [exact Mm|].
  split; [by eapply bound_channel|]. split; by eapply bound_channel.
Qed.

(** C36. A steady RANS point whose hold gate reports nothing either carries no
    certificate field (legacy evidence) or carries one that the engine client's
    strict parser accepts, over exactly 200 samples, with every mean between the
    window's extrema and every coefficient of the point equal to that mean
    within tolerance. *)
Theorem ransHold_gate_sound (p : PolarEvidencePoint) :
  isSteadyRansEvidence p = true -> ransHoldCertificateReasons p = [] ->
  ransHoldCertificate p = JUndef \/
  accepted (RansHold.parseRansHoldCertificate (ransHoldCertificate p)) = true /\
  exists c, holds p c.
Proof.
  intros Hs Hr. destruct (decide_undef (ransHoldCertificate p)) as [Hu|Hu]; [by left|right].
  destruct (hold_reasons_sound p Hs Hu Hr) as [c Hc]. split; [|by exists c].
  apply RansHold.ransHold_accepted. exists c. split; apply Hc.
Qed.

(** ** The clean-cycle tail *)

Definition index_is (start : jsnum) (cycle : jsval) : Prop :=
  strict_eq_num (prop "index" cycle) start = true.

Definition clean_selected (cycle : jsval) : Prop :=
  isSelected cycle = true /\ UransCyclePolicy.clean_cycle (qualityInput cycle).

(** The cycles are unselected ones followed by exactly [required] selected clean
    ones, numbered without a gap, and the stamped start is the first of them. *)
Definition clean_tail (required : Z) (certificate : jsval) : Prop :=
  num_with (fun x => to_integer x = Some required) (prop "required_clean_cycles" certificate) /\
  num_with (at_least required) (prop "terminal_clean_cycles" certificate) /\
  exists before first tail start,
    prop "cycles" certificate = JArr (before ++ first :: tail) /\
    prop "selected_cycle_start_index" certificate = JNum start /\ at_least 0 start /\
    Z.of_nat (length (first :: tail)) = required /\
    Forall (fun cycle => isSelected cycle = false /\ ~ index_is start cycle) before /\
    index_is start first /\ Forall clean_selected (first :: tail) /\
    consecutive (List.map (prop "index") (before ++ first :: tail)) = true.

Lemma findIndex_spec (p : jsval -> bool) (xs : list jsval) (n : nat) :
  findIndex p xs = Some n <->
  exists before x after, xs = before ++ x :: after /\ length before = n /\
    Forall (fun y => p y = false) before /\ p x = true.
Proof.
  revert n. induction xs as [|x xs IH]; intros n; cbn [findIndex].
  - split; [discriminate|]. by intros ([|? ?] & ? & ? & ? & _).
  - destruct (p x) eqn:E.
    + split.
      * intros [= <-]. by exists [], x, xs.
      * intros ([|y before] & z & after & [= -> ->] & <- & Hb & Hz); [done|].
        apply Forall_cons_iff in Hb as [Hy _]. congruence.
    + split.
      * destruct (findIndex p xs) as [m|] eqn:Em; [|discriminate]. intros [= <-].
        destruct (proj1 (IH m) eq_refl) as (before & z & after & -> & <- & Hb & Hz).
        exists (x :: before), z, after. split; [done|]. split; [done|]. by split; [constructor|].
      * intros ([|y before] & z & after & [= -> ->] & <- & Hb & Hz); [congruence|].
        apply Forall_cons_iff in Hb as [_ Hb].
        rewrite (proj2 (IH (length before))); [done|]. by exists before, z, after.
Qed.

Lemma drop_before {A} (l : list A) (x : A) (l' : list A) :
  drop (length l) (l ++ x :: l') = x :: l'.
Proof. by rewrite drop_app_length. Qed.

Lemma filter_split (p : jsval -> bool) (l l' : list jsval) :
  Forall (fun x => p x = false) l -> Forall (fun x => p x = true) l' ->
  List.filter p (l ++ l') = l'.
Proof.
  intros Hl Hl'. rewrite List.filter_app.
  assert (E : List.filter p l = []).
  { induction Hl as [|x l Hx _ IH]; cbn; [done|]. by rewrite Hx. }
  rewrite E. cbn. induction Hl' as [|x l' Hx _ IH]; cbn; [done|]. by rewrite Hx, IH.
Qed.

Lemma at_least_test (x lo : jsnum) (a : Z) :
  to_integer lo = Some a -> isInteger x && (x >= lo)%js = true <-> at_least a x.
Proof.
  intros Ha. rewrite andb_true_iff. unfold at_least. split.
  - intros [[z Hz]%isInteger_spec H]. rewrite (leb_integer _ _ _ _ Ha Hz) in H.
    exists z. split; [exact Hz|]. by apply Z.leb_le.
  - intros (z & Hz & H). split; [apply isInteger_spec; by exists z|].
    rewrite (leb_integer _ _ _ _ Ha Hz). by apply Z.leb_le.
Qed.

Lemma startPosition_spec (selectedStart : jsval) (cycles : list jsval) (n : nat) :
  startPosition selectedStart cycles = Some n <->
  exists start before first tail, selectedStart = JNum start /\ at_least 0 start /\
    cycles = before ++ first :: tail /\ length before = n /\
    Forall (fun cycle => ~ index_is start cycle) before /\ index_is start first.
Proof.
  unfold startPosition. split.
  - destruct selectedStart as [| | |start| | |]; try discriminate.
    destruct (isInteger start && _) eqn:E; [|discriminate].
    apply (at_least_test _ _ _ to_integer_0) in E.
    intros (before & x & after & -> & <- & Hb & Hx)%findIndex_spec.
    exists start, before, x, after. split_conj; try assumption; try reflexivity.
    revert Hb. apply List.Forall_impl. intros y Hy Hi. unfold index_is in Hi. congruence.
  - intros (start & before & first & tail & -> & Hs & -> & <- & Hb & Hf).
    rewrite (proj2 (at_least_test _ _ _ to_integer_0) Hs). apply findIndex_spec.
    exists before, first, tail. split_conj; try assumption; try reflexivity.
    revert Hb. apply List.Forall_impl. intros y Hy. by apply not_true_iff_false.
Qed.

Lemma suffixIsValid_spec (selectedStart : jsval) (cycles : list jsval) (required : Z) :
  suffixIsValid selectedStart cycles required = true <->
  exists before first tail start,
    cycles = before ++ first :: tail /\ selectedStart = JNum start /\ at_least 0 start /\
    Z.of_nat (length (first :: tail)) = required /\
    Forall (fun cycle => isSelected cycle = false /\ ~ index_is start cycle) before /\
    index_is start first /\ Forall (fun cycle => isSelected cycle = true) (first :: tail) /\
    consecutive (List.map (prop "index") cycles) = true.
Proof.
  unfold suffixIsValid. split.
  - destruct (startPosition selectedStart cycles) as [n|] eqn:E; [|discriminate].
    apply startPosition_spec in E as (start & before & first & tail & -> & Hs & -> & <- & Hb & Hf).
    rewrite drop_before, take_app_length, !andb_true_iff, !forallb_forall, <- !List.Forall_forall.
    intros [[[Hsel Hnot] Hc] Hn]. apply Z.eqb_eq in Hn.
    assert (Hnot' : Forall (fun cycle => isSelected cycle = false) before).
    { revert Hnot. apply List.Forall_impl. intros x. apply negb_true_iff. }
    rewrite (filter_split _ _ _ Hnot' Hsel) in Hn.
    exists before, first, tail, start. split_conj; try assumption; try reflexivity.
    apply List.Forall_and; assumption.
  - intros (before & first & tail & start & -> & -> & Hs & Hn & Hb & Hf & Hsel & Hc).
    assert (Hnot : Forall (fun cycle => isSelected cycle = false) before)
      by (revert Hb; apply List.Forall_impl; tauto).
    rewrite (proj2 (startPosition_spec (JNum start) (before ++ first :: tail) (length before))).
    2: { exists start, before, first, tail. split_conj; try assumption; try reflexivity.
         revert Hb. apply List.Forall_impl. tauto. }
    rewrite drop_before, take_app_length, !andb_true_iff, !forallb_forall, <- !List.Forall_forall.
    rewrite (filter_split _ _ _ Hnot Hsel). split_conj; try assumption.
    + revert Hnot. apply List.Forall_impl. intros x. apply negb_true_iff.
    + by apply Z.eqb_eq.
Qed.

Lemma integer_is (required : jsnum) (r : Z) (v : jsval) :
  to_integer required = Some r ->
  integer_with (fun x => x === required)%js v = true <->
  num_with (fun x => to_integer x = Some r) v.
Proof.
  intros Hr. unfold integer_with, num_with. rewrite andb_true_iff. split.
  - destruct v as [| | |x| | |]; cbn [is_integer on_num].
    1-3,5-7: intros [[=] _].
    intros [[z Hz]%isInteger_spec H]. rewrite (eqb_integer _ _ _ _ Hz Hr) in H.
    apply Z.eqb_eq in H as ->. by exists x.
  - intros (x & -> & Hx). cbn [is_integer on_num]. split; [apply isInteger_spec; by exists r|].
    rewrite (eqb_integer _ _ _ _ Hx Hr). apply Z.eqb_refl.
Qed.

Lemma integer_from (lo : jsnum) (a : Z) (v : jsval) :
  to_integer lo = Some a ->
  integer_with (fun x => x >= lo)%js v = true <-> num_with (at_least a) v.
Proof.
  intros Ha. unfold integer_with, num_with. rewrite andb_true_iff. split.
  - destruct v as [| | |x| | |]; cbn [is_integer on_num].
    1-3,5-7: intros [[=] _].
    intros H. exists x. split; [reflexivity|]. apply (at_least_test _ _ _ Ha).
    by apply andb_true_iff.
  - intros (x & -> & H%(at_least_test _ _ _ Ha)). by apply andb_true_iff in H.
Qed.

(** No issue of either kind: no issue at all. *)
Lemma no_issue (issues : list string) :
  existsb evidence_issue issues = false ->
  existsb (fun issue => negb (evidence_issue issue)) issues = false -> issues = [].
Proof.
  destruct issues as [|i l]; [done|]. cbn. destruct (evidence_issue i); cbn; discriminate.
Qed.

Lemma quality_issues_nil (selected : list jsval) :
  List.flat_map (fun cycle =>
    UransCyclePolicy.selectedCleanCycleQualityReasons (qualityInput cycle)) selected = [] <->
  Forall (fun cycle => UransCyclePolicy.clean_cycle (qualityInput cycle)) selected.
Proof.
  rewrite flat_map_nil. apply forall_iff. intros c.
  apply UransCyclePolicy.selectedCleanCycleQualityReasons_spec.
Qed.

Lemma floor_integer (fidelity : option string) :
  to_integer (of_Z (frameTrackMinPeriodsFor fidelity)) = Some (frameTrackMinPeriodsFor fidelity).
Proof. unfold frameTrackMinPeriodsFor. destruct (is_label _ _); vm_compute; reflexivity. Qed.

Lemma cleanCycleTailReasons_spec (certificate : jsval) (fidelity : option string) :
  cleanCycleTailReasons certificate (frameTrackMinPeriodsFor fidelity) = [] <->
  clean_tail (frameTrackMinPeriodsFor fidelity) certificate.
Proof.
  pose proof (floor_integer fidelity) as Hr. set (required := frameTrackMinPeriodsFor fidelity) in *.
  unfold cleanCycleTailReasons, clean_tail.
  rewrite !app_nil, !fail_if_nil, !orb_false_iff, !negb_false_iff, (integer_is _ _ _ Hr),
    (integer_from _ _ _ Hr), suffixIsValid_spec. split.
  - intros ((Hq & Ht) & (_ & He) & Ho & before & first & tail & start & Ec & Es & Hs & Hn & Hb & Hf
      & Hsel & Hc).
    split; [exact Hq|]. split; [exact Ht|]. exists before, first, tail, start.
    assert (Hcy : prop "cycles" certificate = JArr (before ++ first :: tail)).
    { destruct (prop "cycles" certificate); try (by destruct before). by f_equal. }
    rewrite Hcy in *. clear Ec. assert (Hnot : Forall (fun cycle => isSelected cycle = false) before)
      by (revert Hb; apply List.Forall_impl; tauto).
    pose proof (no_issue _ He Ho) as Hi. rewrite (filter_split _ _ _ Hnot Hsel) in Hi.
    apply quality_issues_nil in Hi.
    split_conj; try assumption; try reflexivity. unfold clean_selected.
    apply List.Forall_and; assumption.
  - intros (Hq & Ht & before & first & tail & start & Ec & Es & Hs & Hn & Hb & Hf & Hsel & Hc).
    rewrite Ec, Es. assert (Hnot : Forall (fun cycle => isSelected cycle = false) before)
      by (revert Hb; apply List.Forall_impl; tauto).
    assert (Hs1 : Forall (fun cycle => isSelected cycle = true) (first :: tail))
      by (revert Hsel; apply List.Forall_impl; intros ? []; assumption).
    assert (Hs2 : Forall (fun cycle => UransCyclePolicy.clean_cycle (qualityInput cycle)) (first :: tail))
      by (revert Hsel; apply List.Forall_impl; intros ? []; assumption).
    rewrite (filter_split _ _ _ Hnot Hs1), Hn, Z.ltb_irrefl.
    apply quality_issues_nil in Hs2. rewrite Hs2. cbn [existsb].
    split; [exact (conj Hq Ht)|]. split; [done|]. split; [done|].
    exists before, first, tail, start. split_conj; try assumption; reflexivity.
Qed.

(** The clean-cycle certificate of a current producer. *)
Definition clean_cycle_certificate (fidelity : option string) (certificate : jsval) : Prop :=
  prop "reducer_version" certificate = JStr URANS_CLEAN_CYCLE_CERTIFICATE_VERSION /\
  prop "certified" certificate = JBool true /\
  clean_tail (frameTrackMinPeriodsFor fidelity) certificate.

Lemma cycle_reasons_spec (certificate : jsval) (fidelity : option string) :
  certificate <> JUndef ->
  cycleCertificateReasons certificate fidelity = [] <-> clean_cycle_certificate fidelity certificate.
Proof.
  intros _. unfold cycleCertificateReasons, clean_cycle_certificate.
  rewrite <- cleanCycleTailReasons_spec, <- is_str_spec, <- is_true_spec.
  assert (H : forall x y : bool, forall l : list string,
    fail_if (negb x) "invalid-clean-cycle-certificate" ++ fail_if (negb y) "uncertified-urans-cycles"
      ++ when (y && x) l = [] <-> x = true /\ y = true /\ l = []).
  { intros [] [] l; cbn; naive_solver. }
  destruct certificate; try apply H. cbn. split; [discriminate|]. by intros [? _].
Qed.

(** The clean-cycle gate reports nothing exactly when the certificate of the
    current version is certified and its cycles end in a gap-free suffix of
    exactly the required number of selected clean cycles, which starts at the
    stamped index, with no selected cycle before it: a producer cannot stitch
    around a corrupt period. *)
Theorem cycleCertificateReasons_clean_tail (certificate : jsval) (fidelity : option string) :
  cycleCertificateReasons certificate fidelity = [] <->
  clean_cycle_certificate fidelity certificate.
Proof.
  destruct (decide_undef certificate) as [->|H]; [|by apply cycle_reasons_spec].
  split; [discriminate|]. by intros [? _].
Qed.

(** ** What the gate accepts *)

Definition within_limit (x : jsnum) : Prop :=
  (- ord NON_PHYSICAL_COEFFICIENT_LIMIT <= ord x <= ord NON_PHYSICAL_COEFFICIENT_LIMIT)%Z.

(** Finite coefficients, positive drag, physical lift and moment. *)
Definition physical_coefficients (p : PolarEvidencePoint) : Prop :=
  exists l d m, cl p = Some l /\ cd p = Some d /\ cm p = Some m /\
    is_finite l /\ is_finite d /\ is_finite m /\
    (0 < ord d)%Z /\ within_limit l /\ within_limit m.

Definition archive_backed (p : PolarEvidencePoint) : Prop :=
  hasCertifiedSelectedArchiveInterpretation p = true.
Definition oscillating_steady (p : PolarEvidencePoint) : Prop := isOscillatingSteadyStable p = true.

(** The gates of every point, steady or not. *)
Definition base_ok (p : PolarEvidencePoint) : Prop :=
  sourceGeometryCompatible p <> Some false /\
  (status p = "done" /\ source p = "solved") /\
  physical_coefficients p /\
  (error p = None \/ error p = Some "") /\
  failureDisposition p <> Some "material_domain" /\
  (converged p = true \/ oscillating_steady p \/ archive_backed p) /\
  (stalled p = false \/ unsteady p = Some true \/ oscillating_steady p).

Definition certified_no_shedding (p : PolarEvidencePoint) : Prop :=
  unsteady p = Some false /\ conforms NoShedding.NoSheddingCertificate (noSheddingCertificate p).

(** The certificate's means are the point's coefficients. *)
Definition certified_aperiodic (p : PolarEvidencePoint) : Prop :=
  unsteady p = Some true /\ fidelity p = Some "urans_precalc" /\
  exists c, represents c (aperiodicMeanCertificate p) /\ valid c /\
    agrees (cl p) (AperiodicMean.mean (AperiodicMean.cl c)) /\
    agrees (cd p) (AperiodicMean.mean (AperiodicMean.cd c)) /\
    agrees (cm p) (AperiodicMean.mean (AperiodicMean.cm c)).

(** A stationary frame track with enough retained periods for the tier. *)
Definition stationary_track (frameTrack : jsval) (fidelity : option string) : Prop :=
  prop "stationary" frameTrack = JBool true /\
  exists periods, prop "periods_retained" frameTrack = JNum periods /\ is_finite periods /\
    (periods + FRAME_TRACK_PERIOD_EPSILON >= of_Z (frameTrackMinPeriodsFor fidelity))%js = true.

(** The evidence of a periodic point without a certificate of another kind. *)
Definition periodic_evidence (p : PolarEvidencePoint) : Prop :=
  hasIncompleteUransIntegrationWarning (qualityWarnings p) = false /\
  hasForceHistory p = Some true /\
  (nullish (frameTrack p) = true \/ stationary_track (frameTrack p) (fidelity p)) /\
  (uransCycleCertificate p = JUndef \/
   clean_cycle_certificate (fidelity p) (uransCycleCertificate p)).

Definition steady_equivalent_archive (p : PolarEvidencePoint) : Prop :=
  archive_backed p /\ prop "regime" (selectedArchiveInterpretation p) = JStr "steady_equivalent".

(** A URANS point: a certificate that is present is valid for the point, one of
    the four kinds of evidence holds, and the stored media it owes exist. *)
Definition urans_ok (p : PolarEvidencePoint) : Prop :=
  (nullish (noSheddingCertificate p) = true \/ certified_no_shedding p) /\
  (nullish (aperiodicMeanCertificate p) = true \/ certified_aperiodic p) /\
  (archive_backed p \/ certified_no_shedding p \/ certified_aperiodic p \/ periodic_evidence p) /\
  (certified_aperiodic p -> hasForceHistory p = Some true) /\
  (hasVideo p = Some true \/ steady_equivalent_archive p \/ certified_no_shedding p).

Lemma flag_is_spec (o : option bool) (b : bool) : flag_is o b = true <-> o = Some b.
Proof. destruct o as [[]|], b; cbn; naive_solver. Qed.

Lemma flag_spec (o : option bool) : flag o = true <-> o = Some true.
Proof. apply flag_is_spec. Qed.

Lemma is_label_spec (o : option string) (s : string) : is_label o s = true <-> o = Some s.
Proof.
  unfold is_label. destruct o as [t|]; [|naive_solver]. rewrite String.eqb_eq. naive_solver.
Qed.

Lemma ok_parse (parse : jsval -> parse_result) (v : jsval) :
  ok (parse_unless_nullish parse v) = true <-> nullish v = false /\ accepted (parse v) = true.
Proof. unfold parse_unless_nullish. destruct (nullish v); cbn; naive_solver. Qed.

Lemma present_parse (parse : jsval -> parse_result) (v : jsval) :
  present (parse_unless_nullish parse v) = negb (nullish v).
Proof. unfold parse_unless_nullish. by destruct (nullish v). Qed.

Lemma ok_present (r : option parse_result) : ok r = true -> present r = true.
Proof. by destruct r. Qed.

Lemma certifiedNoShedding_spec (p : PolarEvidencePoint) :
  certifiedNoShedding p = true <-> certified_no_shedding p.
Proof.
  unfold certifiedNoShedding, certified_no_shedding, noSheddingParse.
  rewrite andb_true_iff, flag_is_spec, ok_parse, NoShedding.noShedding_accepted.
  split; [tauto|]. intros [Hu Hc]. split; [exact Hu|]. split; [|exact Hc].
  destruct Hc as (c & (o & -> & _) & _). done.
Qed.

Lemma parse_value (v w : jsval) :
  AperiodicMean.parseAperiodicMeanCertificate v = Parsed w -> w = v.
Proof.
  unfold AperiodicMean.parseAperiodicMeanCertificate, verdict.
  destruct v as [| | | | | |o]; try discriminate.
  destruct (AperiodicMean.aperiodicErrors o); [|discriminate]. by intros [= <-].
Qed.

Lemma aperiodic_match (p : PolarEvidencePoint) :
  ok (aperiodicParse p) && aperiodicCoefficientsMatch p = true <->
  exists c, represents c (aperiodicMeanCertificate p) /\ valid c /\
    agrees (cl p) (AperiodicMean.mean (AperiodicMean.cl c)) /\
    agrees (cd p) (AperiodicMean.mean (AperiodicMean.cd c)) /\
    agrees (cm p) (AperiodicMean.mean (AperiodicMean.cm c)).
Proof.
  unfold aperiodicCoefficientsMatch, aperiodicParse.
  rewrite andb_true_iff, ok_parse, AperiodicMean.aperiodic_accepted.
  assert (Hmean : forall x v c, represents c v ->
    bound_to_mean x v = true <-> agrees x (AperiodicMean.mean c)).
  { intros x v c (o & -> & _ & Hm & _). rewrite bound_to_mean_spec. cbn [prop].
    rewrite Hm. naive_solver. }
  split.
  - intros [(Hn & c & Hr & Vc) H]. exists c. split; [exact Hr|]. split; [exact Vc|].
    unfold parse_unless_nullish in H. rewrite Hn in H.
    destruct (AperiodicMean.parseAperiodicMeanCertificate _) as [w|] eqn:E; [|discriminate].
    apply parse_value in E as ->. destruct Hr as (o & Ho & _ & Hf). destruct_and! Hf.
    rewrite Ho in H. cbn [prop] in H. rewrite !andb_true_iff in H.
    destruct H as [[Hl Hd] Hm]. split_and!; by eapply Hmean.
  - intros (c & Hr & Vc & Hl & Hd & Hm).
    assert (Hn : nullish (aperiodicMeanCertificate p) = false) by (by destruct Hr as (o & -> & _)).
    split; [split; [exact Hn|by exists c]|]. unfold parse_unless_nullish. rewrite Hn.
    assert (Ha : accepted (AperiodicMean.parseAperiodicMeanCertificate (aperiodicMeanCertificate p))
      = true) by (apply AperiodicMean.aperiodic_accepted; by exists c).
    destruct (AperiodicMean.parseAperiodicMeanCertificate _) as [w|] eqn:E; [|discriminate].
    apply parse_value in E as ->. destruct Hr as (o & Ho & _ & Hf). destruct_and! Hf.
    rewrite Ho. cbn [prop]. rewrite !andb_true_iff.
    split_and!; by eapply Hmean.
Qed.

Lemma certifiedAperiodic_spec (p : PolarEvidencePoint) :
  certifiedAperiodic p = true <-> certified_aperiodic p.
Proof.
  unfold certifiedAperiodic, certified_aperiodic.
  rewrite <- aperiodic_match, !andb_true_iff, flag_spec, is_label_spec. tauto.
Qed.

Lemma frameTrackReasons_spec (track : jsval) (fidelity : option string) :
  frameTrackReasons track fidelity = [] <-> stationary_track track fidelity.
Proof.
  unfold frameTrackReasons, stationary_track. rewrite app_nil, !fail_if_nil, !negb_false_iff,
    is_true_spec. split; intros [H1 H2]; (split; [exact H1|]).
  - destruct (prop "periods_retained" track) as [| | |x| | |]; try discriminate.
    apply andb_true_iff in H2 as [Hf Hx]. exists x. split; [reflexivity|]. by split.
  - destruct H2 as (x & -> & Hf & Hx). by apply andb_true_iff.
Qed.

(** A boolean and the proposition it decides, for the gate's three routes. *)
Lemma route_or (b : bool) (P : Prop) (X : Prop) :
  (b = true <-> P) -> (negb b = true -> X) <-> (P \/ X).
Proof. intros H. rewrite negb_true_iff. destruct b; intuition congruence. Qed.

Lemma invalid_certificate (b : bool) (v : jsval) (r : option parse_result) (P : Prop) :
  present r = negb (nullish v) -> (ok r = true /\ b = true <-> P) ->
  present r && (negb (ok r) || negb b) = false <-> nullish v = true \/ P.
Proof.
  intros -> <-. destruct (nullish v), (ok r), b; cbn; intuition discriminate.
Qed.

Lemma periodic_reasons (p : PolarEvidencePoint) (periodic : bool) :
  fail_if (periodic && hasIncompleteUransIntegrationWarning (qualityWarnings p))
    INCOMPLETE_URANS_INTEGRATION_REASON = [] /\
  fail_if (periodic && negb (flag (hasForceHistory p))) "missing-force-history" = [] /\
  when (periodic && negb (nullish (frameTrack p)))
    (frameTrackReasons (frameTrack p) (fidelity p)) = [] /\
  match uransCycleCertificate p with
  | JUndef => []
  | certificate => when periodic (cycleCertificateReasons certificate (fidelity p))
  end = [] <-> (periodic = true -> periodic_evidence p).
Proof.
  unfold periodic_evidence. rewrite !fail_if_nil, when_nil, frameTrackReasons_spec, <- flag_spec.
  assert (Hc : match uransCycleCertificate p with
    | JUndef => []
    | certificate => when periodic (cycleCertificateReasons certificate (fidelity p))
    end = [] <-> (periodic = true -> uransCycleCertificate p = JUndef \/
      clean_cycle_certificate (fidelity p) (uransCycleCertificate p))).
  { destruct (decide_undef (uransCycleCertificate p)) as [E|E].
    - rewrite E. split; [by left|done].
    - pose proof (cycle_reasons_spec _ (fidelity p) E) as H.
      transitivity (when periodic (cycleCertificateReasons (uransCycleCertificate p) (fidelity p))
        = []); [by destruct (uransCycleCertificate p)|].
      rewrite when_nil, H. tauto. }
  rewrite Hc. destruct periodic, (nullish (frameTrack p)), (flag (hasForceHistory p)),
    (hasIncompleteUransIntegrationWarning _); cbn [andb negb]; intuition discriminate.
Qed.

Lemma ok_parse_eq (parse : jsval -> parse_result) (v : jsval) :
  ok (parse_unless_nullish parse v) = negb (nullish v) && accepted (parse v).
Proof. unfold parse_unless_nullish. by destruct (nullish v). Qed.

Lemma aperiodic_bools (absent accepted unsteady precalc matching : bool) :
  negb absent && (negb (negb absent && accepted) || negb unsteady || negb precalc) = false /\
  negb absent && accepted && negb matching = false <->
  absent = true \/ unsteady && precalc && (negb absent && accepted) && matching = true.
Proof.
  destruct absent, accepted, unsteady, precalc, matching; cbn; intuition congruence.
Qed.

Lemma uransReasons_spec (p : PolarEvidencePoint) :
  uransReasons p (hasCertifiedSelectedArchiveInterpretation p) = [] <-> urans_ok p.
Proof.
  unfold uransReasons, urans_ok, steady_equivalent_archive, archive_backed. cbn zeta.
  rewrite <- certifiedNoShedding_spec, <- !certifiedAperiodic_spec, <- !flag_spec, <- is_str_spec.
  set (archive := hasCertifiedSelectedArchiveInterpretation p).
  set (periodic := negb archive && negb (certifiedNoShedding p) && negb (certifiedAperiodic p)).
  pose proof (periodic_reasons p periodic) as Hper.
  assert (Hns := invalid_certificate (flag_is (unsteady p) false) (noSheddingCertificate p)
    (noSheddingParse p) (certifiedNoShedding p = true) (present_parse _ _)
    ltac:(unfold certifiedNoShedding; rewrite andb_true_iff; tauto)).
  assert (Hap : present (aperiodicParse p) &&
      (negb (ok (aperiodicParse p)) || negb (flag (unsteady p)) ||
       negb (is_label (fidelity p) "urans_precalc")) = false /\
      ok (aperiodicParse p) && negb (aperiodicCoefficientsMatch p) = false <->
    nullish (aperiodicMeanCertificate p) = true \/ certifiedAperiodic p = true).
  { unfold certifiedAperiodic, aperiodicParse. rewrite present_parse, ok_parse_eq.
    apply aperiodic_bools. }
  assert (Hroute : (periodic = true -> periodic_evidence p) <->
    archive = true \/ certifiedNoShedding p = true \/ certifiedAperiodic p = true \/
    periodic_evidence p).
  { unfold periodic. destruct archive, (certifiedNoShedding p), (certifiedAperiodic p); cbn;
      intuition discriminate. }
  rewrite <- Hns, <- Hap, <- Hroute, <- Hper. rewrite !app_nil, !fail_if_nil.
  set (media := negb (flag (hasVideo p)) && _ && _).
  assert (Hmedia : media = false <-> flag (hasVideo p) = true \/
    (archive = true /\ is_str (prop "regime" (selectedArchiveInterpretation p)) "steady_equivalent" = true)
    \/ certifiedNoShedding p = true).
  { unfold media. destruct (flag (hasVideo p)), archive, (is_str _ _), (certifiedNoShedding p); cbn;
      intuition discriminate. }
  rewrite Hmedia.
  assert (Hforce : certifiedAperiodic p && negb (flag (hasForceHistory p)) = false <->
    (certifiedAperiodic p = true -> flag (hasForceHistory p) = true)).
  { destruct (certifiedAperiodic p), (flag (hasForceHistory p)); cbn; intuition discriminate. }
  rewrite Hforce. clear. tauto.
Qed.

(** ** The base gates *)

Lemma magnitude_spec (x : jsnum) :
  isFinite x = true ->
  (PrimFloat.abs x > NON_PHYSICAL_COEFFICIENT_LIMIT)%js = false <-> within_limit x.
Proof.
  intros Hx. assert (Ha : isFinite (PrimFloat.abs x) = true).
  { apply isFinite_ord in Hx as [Hn Ho]. apply isFinite_ord. rewrite isNaN_abs, ord_abs.
    split; [exact Hn|lia]. }
  assert (Hl : isFinite NON_PHYSICAL_COEFFICIENT_LIMIT = true) by (vm_compute; reflexivity).
  rewrite (ltb_finite_false _ _ Hl Ha), ord_abs. unfold within_limit. lia.
Qed.

Lemma physical_spec (p : PolarEvidencePoint) :
  physical_coefficients p <->
  negb (all_finite p) = false /\ finite_and (cd p) (fun x => x <= 0)%js = false /\
  finite_and (cl p) (fun x => PrimFloat.abs x > NON_PHYSICAL_COEFFICIENT_LIMIT)%js ||
  finite_and (cm p) (fun x => PrimFloat.abs x > NON_PHYSICAL_COEFFICIENT_LIMIT)%js = false.
Proof.
  unfold physical_coefficients, all_finite, finite_coefficient, finite_and, is_finite.
  rewrite negb_false_iff, !andb_true_iff, orb_false_iff. split.
  - intros (l & d & m & -> & -> & -> & Hl & Hd & Hm & Hp & Ll & Lm). rewrite Hl, Hd, Hm.
    cbn [andb]. rewrite !magnitude_spec by assumption.
    rewrite (leb_finite_false d 0%float) by (assumption || vm_compute; reflexivity).
    rewrite ord_0. split_conj; assumption || reflexivity.
  - destruct (cl p) as [l|], (cd p) as [d|], (cm p) as [m|]; intros (((Hl & Hd) & Hm) & Hp & Ll & Lm);
      try discriminate.
    rewrite Hl in Ll. rewrite Hd in Hp. rewrite Hm in Lm. cbn [andb] in *.
    apply magnitude_spec in Ll, Lm; try assumption.
    rewrite (leb_finite_false d 0%float), ord_0 in Hp by (assumption || vm_compute; reflexivity).
    exists l, d, m. split_conj; assumption || reflexivity.
Qed.

Lemma flag_is_false (o : option bool) (b : bool) : flag_is o b = false <-> o <> Some b.
Proof. rewrite <- not_true_iff_false, flag_is_spec. done. Qed.

Lemma is_label_false (o : option string) (s : string) : is_label o s = false <-> o <> Some s.
Proof. rewrite <- not_true_iff_false, is_label_spec. done. Qed.

Lemma no_error (o : option string) :
  match o with Some message => nonempty message | None => false end = false <->
  o = None \/ o = Some "".
Proof. destruct o as [[|c s]|]; cbn; naive_solver. Qed.

Lemma convergence_bools (c s a : bool) :
  negb c && negb s && negb a = false <-> c = true \/ s = true \/ a = true.
Proof. destruct c, s, a; cbn; intuition congruence. Qed.

Lemma stalled_bools (s u o : bool) :
  s && negb u && negb o = false <-> s = false \/ u = true \/ o = true.
Proof. destruct s, u, o; cbn; intuition congruence. Qed.

(** A point has no rejection reason exactly when it passes every base gate,
    the steady hold gate, and, for a URANS point, carries admissible evidence: a
    present certificate is valid for this very point, its evidence is a selected
    archive interpretation, a certified absence of shedding, a certified
    aperiodic mean with matching coefficients, or a periodic window with its
    force history, stationary track and clean-cycle tail; and the stored video it
    owes exists. *)
Theorem baseRejectionReasons_accepts (p : PolarEvidencePoint) :
  baseRejectionReasons p = [] <->
  base_ok p /\ ransHoldCertificateReasons p = [] /\ (regime p = Some urans -> urans_ok p).
Proof.
  unfold baseRejectionReasons. rewrite !app_nil, !fail_if_nil, when_nil, uransReasons_spec.
  unfold is_urans. rewrite bool_decide_eq_true.
  rewrite flag_is_false, is_label_false, no_error, convergence_bools, stalled_bools, flag_spec,
    orb_false_iff, !negb_false_iff, !String.eqb_eq, <- (negb_false_iff (all_finite p)).
  unfold base_ok, oscillating_steady, archive_backed. rewrite physical_spec. clear. tauto.
Qed.

(** The reasons of the hold gate are among those of the point, in place. *)
Lemma base_contains_hold (p : PolarEvidencePoint) :
  exists before after,
    baseRejectionReasons p = before ++ ransHoldCertificateReasons p ++ after.
Proof. unfold baseRejectionReasons. rewrite !app_assoc. rewrite <- app_assoc. by do 2 eexists. Qed.

(** ** Concrete points *)

Definition sample_hold_channel : jsval :=
  JObj [("mean", JNum 0.5); ("min_value", JNum 0.25); ("max_value", JNum 0.75);
        ("peak_to_peak", JNum 0.5); ("relative_spread", JNum 0.5)]%float.

Definition sample_hold : jsval :=
  JObj [("reducer_version", JStr "rans-hold-v1"); ("sample_count", JNum 200);
        ("required_sample_count", JNum 200); ("start_iteration", JNum 1);
        ("end_iteration", JNum 200); ("relative_tolerance", JNum 0.5);
        ("absolute_floor", JNum 0.5); ("certified", JBool true);
        ("cl", sample_hold_channel); ("cd", sample_hold_channel); ("cm", sample_hold_channel)]%float.

Definition sample_point (regime : ResultRegime) (hold archive : jsval) : PolarEvidencePoint :=
  {| a := 2; cl := Some 0.5%float; cd := Some 0.5%float; cm := Some 0.5%float; ld := None;
     status := "done"; source := "solved"; regime := Some regime; converged := true;
     stalled := false; unsteady := None; error := None; failureDisposition := None;
     finalResidual := None; iterations := None;
     sourceGeometryCompatible := None; hasForceHistory := None; hasVideo := None;
     frameTrack := JUndef; uransCycleCertificate := JUndef; noSheddingCertificate := JUndef;
     aperiodicMeanCertificate := JUndef; ransHoldCertificate := hold; fidelity := None;
     steadyHistory := JUndef; qualityWarnings := None; selectedArchiveInterpretation := archive |}.

Definition sample_archive (regime : string) : jsval :=
  JObj [("id", JStr "01234567-89AB-4def-8123-456789abcdef"); ("source", JStr "archive_backfill");
        ("state", JStr "accepted"); ("regime", JStr regime);
        ("sourceArchiveId", JStr "01234567-89ab-4def-8123-456789abcdef");
        ("inputEvidenceSignature",
         JStr "0123456789abcdef0123456789abcdef0123456789abcdef0123456789abcdef")].

Example sample_verdicts :
  baseRejectionReasons (sample_point rans sample_hold JUndef) = [] /\
  baseRejectionReasons (sample_point rans JNull JUndef) = ["missing-rans-hold-certificate"] /\
  baseRejectionReasons (sample_point urans JUndef (sample_archive "steady_equivalent")) = [] /\
  baseRejectionReasons (sample_point urans JUndef (sample_archive "periodic")) =
    ["missing-urans-video"] /\
  baseRejectionReasons (sample_point urans JUndef JUndef) =
    ["missing-force-history"; "missing-urans-video"].
Proof. vm_compute. repeat split. Qed.

Lemma ransHold_gate_sound_witness :
  let p := sample_point rans sample_hold JUndef in
  isSteadyRansEvidence p = true /\ ransHoldCertificateReasons p = [] /\
  accepted (RansHold.parseRansHoldCertificate (ransHoldCertificate p)) = true.
Proof.
  intros p. assert (Hs : isSteadyRansEvidence p = true) by (vm_compute; reflexivity).
  assert (Hr : ransHoldCertificateReasons p = []) by (vm_compute; reflexivity).
  split; [exact Hs|]. split; [exact Hr|].
  destruct (ransHold_gate_sound p Hs Hr) as [H|[H _]]; [discriminate H|exact H].
Defined.
