(* ===== verification/Classifier.v ===== *)
(** * The polar-shape classifier ([packages/core/src/polar-fit.ts])

    [classifyPolarEvidence] gives every point of a polar its verdict: the
    pointwise gate first, then the heuristics that look at the shape of the
    accepted steady RANS points and hand some of them over to URANS.  Points are
    objects, and the heuristics find a point's verdict by object identity and
    change it in place: a point is a reference into [heap], and each heuristic
    maps the list of verdicts to the next one.

    Proved: no heuristic resurrects a rejected point or touches one that is not
    accepted steady RANS evidence, every hand-over is explained by its reasons,
    the low-angle check stays in its narrow window, and a hard failure at low
    angle hands over the whole steady polar. *)

From Stdlib Require Import ZArith Lia Bool Ascii String Sorting.Permutation Sorting.Sorted.
From Stdlib Require Import Floats.
From stdpp Require Import base list strings option numbers gmap.
From S2P Require Import Prelude JsNumber JsArray.
From S2P Require EvidenceGate.
Import EvidenceGate(PolarEvidencePoint, a, cl, cd, iterations, finalResidual, isSteadyRansEvidence,
  isHardRansFailureEvidence, baseRejectionReasons, ransHoldCertificateReasons,
  finite_coefficient, flag_is).

Local Open Scope string_scope.
Local Open Scope list_scope.

Inductive ResultClassificationState := accepted | needs_urans | superseded_by_urans | rejected.
Inductive ResultClassificationRegion := attached | near_stall | post_stall | unknown.

#[export] Instance classification_state_eq_dec : EqDecision ResultClassificationState.
Proof. solve_decision. Defined.

Record PolarEvidenceClassification := {
  evidence : nat;
  state : ResultClassificationState;
  region : ResultClassificationRegion;
  confidence : jsnum;
  reasons : list string;
}.

Record ClassifiedPolar := {
  classifications : list PolarEvidenceClassification;
  needsUransAoas : list jsnum;
  hardRejectedAoas : list jsnum;
  lowAoaFailure : bool;
}.

(** [o ?? x] *)
Definition coalesce (o : option jsnum) (x : jsnum) : jsnum := default x o.

Definition ldOf (p : PolarEvidencePoint) : option jsnum :=
  if finite_coefficient (EvidenceGate.ld p) then EvidenceGate.ld p
  else match cl p, cd p with
       | Some l, Some d =>
           if negb (isFinite l) || negb (isFinite d) || (d === 0)%js then None
           else Some (l / d)%float
       | _, _ => None
       end.

(** An array read inside its bounds. *)
Definition at_ (xs : list jsnum) (i : nat) : jsnum := default PrimFloat.nan (xs !! i).

Definition median (values : list jsnum) (fallback : jsnum) : jsnum :=
  let xs := sort ascending (List.filter (fun x => isFinite x && (x > 0)%js) values) in
  match xs with
  | [] => fallback
  | _ =>
      let mid := Nat.div2 (length xs) in
      if Nat.odd (length xs) then at_ xs mid
      else ((at_ xs (mid - 1) + at_ xs mid) / 2)%float
  end.

(** [xs.slice(1).map((x, i) => x - xs[i])] *)
Fixpoint steps_between (xs : list jsnum) : list jsnum :=
  match xs with
  | x :: (y :: _) as xs' => (y - x)%float :: steps_between xs'
  | _ => []
  end.

(** The points are references into the heap of evidence objects. *)
Section Polar.
Context (heap : nat -> PolarEvidencePoint).

Abbreviation ref := nat.
Definition angle (p : ref) : jsnum := a (heap p).

(** [(a, b) => a.a - b.a] *)
Definition by_angle (p q : ref) : jsnum := (angle p - angle q)%float.

Definition nominalStep (points : list ref) : jsnum :=
  let xs := sort ascending (dedup (List.filter isFinite (List.map angle points))) in
  median (steps_between xs) 1.

Record LinearFit := { slope : jsnum; intercept : jsnum; maxResidual : jsnum }.

Definition linearFit (points : list ref) : option LinearFit :=
  let usable := List.filter (fun p => isFinite (angle p) && finite_coefficient (cl (heap p))) points in
  let lift p := coalesce (cl (heap p)) 0 in
  if Nat.ltb (length usable) 2 then None
  else
    let n := of_nat (length usable) in
    let mx := (fold_left (fun sum p => (sum + angle p)%float) usable 0 / n)%float in
    let my := (fold_left (fun sum p => (sum + lift p)%float) usable 0 / n)%float in
    let '(num, den) := fold_left (fun '(num, den) p =>
      let dx := (angle p - mx)%float in
      (num + dx * (lift p - my), den + dx * dx)%float) usable (0, 0)%float in
    if (den <= 0)%js then None
    else
      let slope := (num / den)%float in
      let intercept := (my - slope * mx)%float in
      Some {| slope := slope; intercept := intercept;
              maxResidual := Math_max_all
                (List.map (fun p => PrimFloat.abs (lift p - (intercept + slope * angle p))) usable) |}.

Definition acceptedForShape (c : PolarEvidenceClassification) : bool :=
  bool_decide (state c = accepted) && isSteadyRansEvidence (heap (evidence c)) &&
  finite_coefficient (cl (heap (evidence c))) && finite_coefficient (cd (heap (evidence c))).

(** [classifications.filter(acceptedForShape).map((c) => c.evidence)] *)
Definition acceptedRans (cs : list PolarEvidenceClassification) : list ref :=
  List.map evidence (List.filter acceptedForShape cs).

(** [const target = cs.find((c) => c.evidence === p); if (target) ...] *)
Fixpoint update_target (p : ref)
    (f : PolarEvidenceClassification -> PolarEvidenceClassification)
    (cs : list PolarEvidenceClassification) : list PolarEvidenceClassification :=
  match cs with
  | [] => []
  | c :: cs' => if Nat.eqb (evidence c) p then f c :: cs' else c :: update_target p f cs'
  end.

(** [acceptedRans.filter((p) => p.a >= lo && p.a <= hi)] *)
Definition within (lo hi : jsnum) (points : list ref) : list ref :=
  List.filter (fun p => (angle p >= lo)%js && (angle p <= hi)%js) points.

(** ** The low-angle attached branch *)

Definition candidateResiduals (fit : LinearFit) (points : list ref) : gmap ref jsnum :=
  let residualFloor := Math_max 0.25 (maxResidual fit * 5) in
  fold_left (fun candidates point =>
    match cl (heap point) with
    | Some lift =>
        if (angle point < -6)%js || (angle point >= 0)%js || negb (isFinite lift) then candidates
        else
          let predicted := (intercept fit + slope fit * angle point)%float in
          let residual := (lift - predicted)%float in
          if (PrimFloat.abs predicted >= 0.15)%js && (PrimFloat.abs residual >= residualFloor)%js
          then <[point := residual]> candidates
          else candidates
    | None => candidates
    end) points ∅.

Section Branch.
Context (points : list ref) (candidates : gmap ref jsnum).
Context (slopeOfFit maximumAdjacentGap slopeMismatchFloor : jsnum).

(** The first index of the anomalous run that ends before [firstIndex]. *)
Fixpoint runStart (residualSign : jsnum) (firstIndex : nat) : nat :=
  match firstIndex with
  | O => O
  | S k =>
      match points !! k, points !! firstIndex with
      | Some previous, Some current =>
          match candidates !! previous with
          | Some previousResidual =>
              let gap := (angle current - angle previous)%float in
              if negb (Math_sign previousResidual === residualSign)%js ||
                 (gap > maximumAdjacentGap)%js
              then firstIndex
              else runStart residualSign k
          | None => firstIndex
          end
      | _, _ => firstIndex
      end
  end.

(** [marked.add(p)] *)
Definition set_add (marked : list ref) (p : ref) : list ref :=
  if List.existsb (Nat.eqb p) marked then marked else marked ++ [p].

(** One step of the loop over [rightmostIndex]. *)
Definition markRun (marked : list ref) (rightmostIndex : nat) : list ref :=
  match points !! rightmostIndex, points !! S rightmostIndex with
  | Some rightmost, Some next =>
      match candidates !! rightmost with
      | None => marked
      | Some residual =>
          if bool_decide (is_Some (candidates !! next)) || (angle rightmost >= 0)%js ||
             (angle next > 0)%js then marked
          else
            let da := (angle next - angle rightmost)%float in
            if (da <= 0)%js || (da > maximumAdjacentGap)%js then marked
            else
              let localSlope :=
                ((coalesce (cl (heap next)) 0 - coalesce (cl (heap rightmost)) 0) / da)%float in
              if (slopeOfFit - localSlope < slopeMismatchFloor)%js then marked
              else
                let firstIndex := runStart (Math_sign residual) rightmostIndex in
                fold_left set_add
                  (take (S rightmostIndex - firstIndex) (drop firstIndex points)) marked
      end
  | _, _ => marked
  end.
End Branch.

Definition discontinuity (c : PolarEvidenceClassification) : PolarEvidenceClassification :=
  {| evidence := evidence c; state := needs_urans; region := unknown; confidence := 0.95;
     reasons := ["low-aoa-attached-branch-discontinuity"; "attached-baseline-residual"] |}.

(** The points the low-angle check marks. *)
Definition lowAngleMarks (cs : list PolarEvidenceClassification) (nominalAoaStep : jsnum) :
    list ref :=
  let points := sort by_angle (acceptedRans cs) in
  let baseline := within 0 5 points in
  if Nat.ltb (length baseline) 4 then []
  else match linearFit baseline with
  | None => []
  | Some fit =>
      if (slope fit < 0.03)%js || (maxResidual fit > 0.06)%js then []
      else
        let candidates := candidateResiduals fit points in
        if Nat.eqb (size candidates) 0 then []
        else
          let maximumAdjacentGap := (Math_max 1 nominalAoaStep * 2.5 + 1e-9)%float in
          let slopeMismatchFloor := Math_max 0.25 (slope fit * 3) in
          fold_left (markRun points candidates (slope fit) maximumAdjacentGap slopeMismatchFloor)
            (seq 0 (length points - 1)) []
  end.

Definition markLowAngleAttachedBranchDiscontinuities (cs : list PolarEvidenceClassification)
    (nominalAoaStep : jsnum) : list PolarEvidenceClassification :=
  fold_left (fun cs p => update_target p discontinuity cs) (lowAngleMarks cs nominalAoaStep) cs.

(** ** The post-stall scan *)

Record scan := {
  runningClMax : jsnum;
  runningLdMax : jsnum;
  runningCdMin : jsnum;
  prev : option ref;
  verdicts : list PolarEvidenceClassification;
}.

(** [finite(x) && x > limit] *)
Definition finite_above (o : option jsnum) (limit : jsnum) : bool :=
  match o with Some x => isFinite x && (x > limit)%js | None => false end.

(** The post-stall reasons of a point, from the extrema before it. *)
Definition postStallReasons (slopeOfFit step : jsnum) (s : scan) (p q : ref) : list string :=
  let lift := coalesce (cl (heap p)) 0 in
  let drag := coalesce (cd (heap p)) 0 in
  let ld := coalesce (ldOf (heap p)) 0 in
  let da := Math_max (PrimFloat.abs (angle p - angle q)) step in
  let localSlope := ((lift - coalesce (cl (heap q)) lift) / da)%float in
  let reason (b : bool) (r : string) := if b then [r] else [] in
  reason (localSlope < slopeOfFit * 0.35)%js "lift-slope-collapse" ++
  reason (isFinite (runningClMax s) && (runningClMax s > 0)%js &&
          ((runningClMax s - lift) / runningClMax s > 0.05)%js) "lift-drop-from-running-max" ++
  reason (isFinite (runningCdMin s) && (runningCdMin s > 0)%js &&
          (drag / runningCdMin s > 1.75)%js) "drag-acceleration" ++
  reason (isFinite (runningLdMax s) && (runningLdMax s > 0)%js &&
          (ld / runningLdMax s < 0.78)%js) "ld-collapse" ++
  reason (finite_above (iterations (heap p)) 0 && finite_above (finalResidual (heap p)) 1e-4)
    "weak-steady-convergence".

Definition postStall (rs : list string) (c : PolarEvidenceClassification) :
    PolarEvidenceClassification :=
  {| evidence := evidence c; state := needs_urans; region := post_stall;
     confidence := Math_min 0.95 (0.58 + of_nat (length rs) * 0.1)%float; reasons := rs |}.

Definition nearStall (c : PolarEvidenceClassification) : PolarEvidenceClassification :=
  {| evidence := evidence c; state := state c; region := near_stall; confidence := confidence c;
     reasons := reasons c |}.

(** One iteration: [previousX] is the extremum before the update. *)
Definition scanPoint (slopeOfFit step postStallStart peakAngle : jsnum) (s : scan) (p : ref) :
    scan :=
  let lift := coalesce (cl (heap p)) 0 in
  let drag := coalesce (cd (heap p)) 0 in
  let ld := coalesce (ldOf (heap p)) 0 in
  let next verdicts :=
    {| runningClMax := Math_max (runningClMax s) lift;
       runningLdMax := Math_max (runningLdMax s) ld;
       runningCdMin := Math_min (runningCdMin s) drag;
       prev := Some p;
       verdicts := verdicts |} in
  match prev s with
  | None => next (verdicts s)
  | Some q =>
      if (angle p < postStallStart)%js then next (verdicts s)
      else
        let rs := postStallReasons slopeOfFit step s p q in
        if Nat.leb 2 (length rs) then next (update_target p (postStall rs) (verdicts s))
        else if (angle p > peakAngle)%js then next (update_target p nearStall (verdicts s))
        else next (verdicts s)
  end.

(** The point of largest lift, the first of them on a tie. *)
Definition peakOf (first : ref) (points : list ref) : ref :=
  let lift p := coalesce (cl (heap p)) PrimFloat.neg_infinity in
  fold_left (fun peak p => if (lift p > lift peak)%js then p else peak) points first.

Definition postStallScan (cs : list PolarEvidenceClassification) :
    list PolarEvidenceClassification :=
  let points := acceptedRans cs in
  let step := nominalStep points in
  match points with
  | [] => cs
  | first :: _ =>
      if Nat.ltb (length points) 5 then cs
      else
        let baseline := within 0 5 points in
        let fallback := within (-4) 6 points in
        match linearFit (if Nat.leb 3 (length baseline) then baseline else fallback) with
        | None => cs
        | Some fit =>
            if (slope fit > 0.005)%js then
              let peak := peakOf first points in
              let postStallStart := (angle peak + Math_max (step * 1.5) 1.5)%float in
              verdicts (fold_left (scanPoint (slope fit) step postStallStart (angle peak)) points
                {| runningClMax := PrimFloat.neg_infinity;
                   runningLdMax := PrimFloat.neg_infinity;
                   runningCdMin := PrimFloat.infinity;
                   prev := None; verdicts := cs |})
            else cs
        end
  end.

(** ** The whole classifier *)

(** The verdict of the pointwise gate. *)
Definition classifyPoint (p : ref) : PolarEvidenceClassification :=
  let rs := baseRejectionReasons (heap p) in
  let ransHoldReasons := ransHoldCertificateReasons (heap p) in
  let onlyRansHoldProofIsMissing :=
    Nat.ltb 0 (length ransHoldReasons) && Nat.eqb (length rs) (length ransHoldReasons) &&
    forallb (fun reason => existsb (String.eqb reason) ransHoldReasons) rs in
  let state := if onlyRansHoldProofIsMissing then needs_urans
               else if Nat.ltb 0 (length rs) then rejected else accepted in
  {| evidence := p;
     state := state;
     region := if bool_decide (state = accepted) then attached else unknown;
     confidence := if bool_decide (state = accepted) then 0.9%float
                   else if onlyRansHoldProofIsMissing then 0.98%float else 1%float;
     reasons := rs |}.

(** A hard solver failure of a steady point between 0 and 5 degrees. *)
Definition lowAngleFailure (c : PolarEvidenceClassification) : bool :=
  isSteadyRansEvidence (heap (evidence c)) && (angle (evidence c) >= 0)%js &&
  (angle (evidence c) <= 5)%js && bool_decide (state c = rejected) &&
  isHardRansFailureEvidence (heap (evidence c)).

Definition promote (c : PolarEvidenceClassification) : PolarEvidenceClassification :=
  if isSteadyRansEvidence (heap (evidence c)) && bool_decide (state c = accepted)
  then {| evidence := evidence c; state := needs_urans; region := unknown; confidence := 0.9;
          reasons := ["low-aoa-rans-failure"] |}
  else c.

(** [cs.filter((c) => c.state === s).map((c) => c.evidence.a).sort((a, b) => a - b)] *)
Definition anglesIn (s : ResultClassificationState) (cs : list PolarEvidenceClassification) :
    list jsnum :=
  sort ascending
    (List.map (fun c => angle (evidence c)) (List.filter (fun c => bool_decide (state c = s)) cs)).

Definition classifyPolarEvidence (points : list ref) (detectLowAngleAttachedBranch : option bool) :
    ClassifiedPolar :=
  let cs0 := List.map classifyPoint (sort by_angle points) in
  let initialStep := nominalStep (acceptedRans cs0) in
  let lowAoaFailure := existsb lowAngleFailure cs0 in
  let cs1 := if lowAoaFailure then List.map promote cs0 else cs0 in
  let cs2 :=
    if negb lowAoaFailure && negb (flag_is detectLowAngleAttachedBranch false)
    then markLowAngleAttachedBranchDiscontinuities cs1 initialStep else cs1 in
  let cs3 := if lowAoaFailure then cs2 else postStallScan cs2 in
  {| classifications := cs3;
     needsUransAoas := anglesIn needs_urans cs3;
     hardRejectedAoas := anglesIn rejected cs3;
     lowAoaFailure := lowAoaFailure |}.

(** ** What the gate's verdict means *)

Lemma classifyPoint_cases (p : ref) :
  let hold := ransHoldCertificateReasons (heap p) in
  let base := baseRejectionReasons (heap p) in
  (state (classifyPoint p) = accepted <-> base = []) /\
  (state (classifyPoint p) = needs_urans <-> base = hold /\ hold <> []) /\
  (state (classifyPoint p) = rejected <-> base <> [] /\ base <> hold) /\
  reasons (classifyPoint p) = base.
Proof.
  cbn zeta. unfold classifyPoint. cbn [state reasons].
  set (hold := ransHoldCertificateReasons (heap p)).
  destruct (EvidenceGate.base_contains_hold (heap p)) as (before & after & Hb). fold hold in Hb.
  set (base := baseRejectionReasons (heap p)) in *.
  set (only := _ && _ && _).
  assert (Honly : only = true <-> base = hold /\ hold <> []).
  { unfold only. rewrite !andb_true_iff, Nat.ltb_lt, Nat.eqb_eq. split.
    - intros [[Hl He] _]. rewrite Hb, !length_app in He.
      destruct before, after; cbn in He; try lia. rewrite Hb. cbn. rewrite app_nil_r.
      split; [done|]. intros E. rewrite E in Hl. cbn in Hl. lia.
    - intros [E Hn]. rewrite E. split; [split; [|done]|].
      + destruct hold; [done|cbn; lia].
      + apply forallb_forall. intros x Hx. apply existsb_exists. exists x.
        split; [done|]. apply String.eqb_refl. }
  destruct only.
  - destruct (proj1 Honly eq_refl) as [E Hn]. rewrite E. intuition congruence.
  - assert (Hno : ~ (base = hold /\ hold <> [])) by (intros H; apply Honly in H; discriminate).
    destruct base as [|r base']; cbn [length Nat.ltb Nat.leb].
    + intuition congruence.
    + assert (Hne : r :: base' <> hold) by (intros E; apply Hno; split; [done|by rewrite <- E]).
      intuition congruence.
Qed.

(** ** The heuristics only hand over accepted steady points *)

Definition low_angle_reasons : list string :=
  ["low-aoa-attached-branch-discontinuity"; "attached-baseline-residual"].

(** Why an accepted steady point was handed over to URANS. *)
Definition handed_over (failure : bool) (c : PolarEvidenceClassification) : Prop :=
  (failure = true /\ reasons c = ["low-aoa-rans-failure"]) \/
  (failure = false /\ reasons c = low_angle_reasons /\
   (angle (evidence c) < -6)%js = false /\ (angle (evidence c) >= 0)%js = false) \/
  (failure = false /\ 2 <= length (reasons c)).

(** A verdict is the gate's own, or hands over an accepted steady RANS point. *)
Definition explained (failure : bool) (c : PolarEvidenceClassification) : Prop :=
  let gate := classifyPoint (evidence c) in
  (state c = state gate /\ reasons c = reasons gate) \/
  (state gate = accepted /\ isSteadyRansEvidence (heap (evidence c)) = true /\
   state c = needs_urans /\ handed_over failure c).

Lemma Forall_update_target (P : PolarEvidenceClassification -> Prop) (p : ref)
    (f : PolarEvidenceClassification -> PolarEvidenceClassification)
    (cs : list PolarEvidenceClassification) :
  (forall c, evidence c = p -> P c -> P (f c)) -> Forall P cs -> Forall P (update_target p f cs).
Proof.
  intros Hf Hcs. induction Hcs as [|c cs Hc Hcs IH]; cbn; [constructor|].
  destruct (Nat.eqb_spec (evidence c) p); constructor; auto.
Qed.

Lemma evidence_update_target (p : ref)
    (f : PolarEvidenceClassification -> PolarEvidenceClassification)
    (cs : list PolarEvidenceClassification) :
  (forall c, evidence (f c) = evidence c) ->
  List.map evidence (update_target p f cs) = List.map evidence cs.
Proof.
  intros Hf. induction cs as [|c cs IH]; cbn; [done|].
  destruct (Nat.eqb (evidence c) p); cbn; by rewrite ?Hf, ?IH.
Qed.

(** The points the shape heuristics read are accepted by the gate. *)
Lemma acceptedRans_gate (failure : bool) (cs : list PolarEvidenceClassification) (p : ref) :
  Forall (explained failure) cs -> In p (acceptedRans cs) ->
  state (classifyPoint p) = accepted /\ isSteadyRansEvidence (heap p) = true.
Proof.
  intros Hcs (c & <- & Hc)%in_map_iff. apply filter_In in Hc as [Hin Hc].
  unfold acceptedForShape in Hc. rewrite !andb_true_iff, bool_decide_eq_true in Hc.
  destruct Hc as [[[Ha Hs] _] _]. rewrite List.Forall_forall in Hcs.
  split; [|done]. destruct (Hcs c Hin) as [[H _]|(H & _)]; congruence.
Qed.

(** *** The low-angle fence *)

Definition in_fence (p : ref) : Prop := (angle p < -6)%js = false /\ (angle p >= 0)%js = false.

Lemma candidateResiduals_fence (fit : LinearFit) (points : list ref) (p : ref) :
  is_Some (candidateResiduals fit points !! p) -> in_fence p.
Proof.
  unfold candidateResiduals. set (step := fun candidates point => _).
  enough (H : forall m, map_Forall (fun q _ => in_fence q) m ->
    map_Forall (fun q _ => in_fence q) (fold_left step points m)).
  { intros [r Hr]. by apply (H ∅ (map_Forall_empty _) p r). }
  induction points as [|q points IH]; intros m Hm; cbn [fold_left]; [exact Hm|].
  apply IH. unfold step. destruct (cl (heap q)) as [lift|]; [|exact Hm].
  destruct (_ || _) eqn:E; [exact Hm|]. destruct (_ && _); [|exact Hm].
  apply map_Forall_insert_2; [|exact Hm].
  apply orb_false_iff in E as [E _]. by apply orb_false_iff in E.
Qed.

Lemma runStart_spec (points : list ref) (candidates : gmap ref jsnum) (gap sign : jsnum) (i : nat) :
  forall j q, runStart points candidates gap sign i <= j < i -> points !! j = Some q ->
  is_Some (candidates !! q).
Proof.
  induction i as [|i IH]; intros j q Hj Hq; cbn [runStart] in Hj; [lia|].
  destruct (points !! i) as [previous|] eqn:Ei; [|lia].
  destruct (points !! S i); [|lia]. destruct (candidates !! previous) as [r|] eqn:Er; [|lia].
  destruct (_ || _); [lia|]. destruct (decide (j = i)) as [->|Hne].
  - rewrite Ei in Hq. injection Hq as <-. by exists r.
  - apply (IH j q); [lia|exact Hq].
Qed.

Lemma Forall_set_add (P : ref -> Prop) (marked added : list ref) :
  Forall P marked -> Forall P added -> Forall P (fold_left set_add added marked).
Proof.
  intros Hm Ha. revert marked Hm. induction Ha as [|p added Hp Ha IH]; intros marked Hm; cbn;
    [exact Hm|]. apply IH. unfold set_add. destruct (existsb _ _); [exact Hm|].
  apply List.Forall_app. split; [exact Hm|]. by constructor.
Qed.

(** Everything that is marked is a candidate among the accepted points. *)
Lemma markRun_candidates (points : list ref) (candidates : gmap ref jsnum)
    (slopeOfFit gap floor : jsnum) (indexes : list nat) (marked : list ref) :
  let P p := In p points /\ is_Some (candidates !! p) in
  Forall P marked ->
  Forall P (fold_left (markRun points candidates slopeOfFit gap floor) indexes marked).
Proof.
  intros P. revert marked. induction indexes as [|i indexes IH]; intros marked Hm; cbn [fold_left];
    [exact Hm|].
  apply IH. unfold markRun. destruct (points !! i) as [rightmost|] eqn:Ei; [|exact Hm].
  destruct (points !! S i) as [next|]; [|exact Hm].
  destruct (candidates !! rightmost) as [residual|] eqn:Er; [|exact Hm].
  destruct (_ || _); [exact Hm|]. destruct (_ || _); [exact Hm|]. destruct (_ < _)%js; [exact Hm|].
  apply Forall_set_add; [exact Hm|]. rewrite List.Forall_forall. intros q Hq.
  apply list_elem_of_In, list_elem_of_lookup in Hq as [k Hk].
  apply lookup_take_Some in Hk as [Hk Hlt]. rewrite lookup_drop in Hk. split.
  - apply list_elem_of_In. by eapply list_elem_of_lookup_2.
  - set (first := runStart _ _ _ _ _) in *. destruct (decide (first + k = i)) as [E|E].
    + rewrite E, Ei in Hk. injection Hk as <-. by exists residual.
    + apply (runStart_spec points candidates gap (Math_sign residual) i (first + k) q);
        [fold first; lia|exact Hk].
Qed.

Lemma lowAngleMarks_fence (cs : list PolarEvidenceClassification) (step : jsnum) :
  Forall (fun p => In p (acceptedRans cs) /\ in_fence p) (lowAngleMarks cs step).
Proof.
  unfold lowAngleMarks. set (points := sort by_angle (acceptedRans cs)).
  destruct (Nat.ltb _ 4); [constructor|]. destruct (linearFit _) as [fit|]; [|constructor].
  destruct (_ || _); [constructor|]. destruct (Nat.eqb _ 0); [constructor|].
  eapply List.Forall_impl; [|apply markRun_candidates; constructor].
  intros p [Hin Hc]. split; [by apply in_sort in Hin|]. by eapply candidateResiduals_fence.
Qed.

Lemma lowAngle_explained (cs : list PolarEvidenceClassification) (step : jsnum) :
  Forall (explained false) cs ->
  Forall (explained false) (markLowAngleAttachedBranchDiscontinuities cs step) /\
  List.map evidence (markLowAngleAttachedBranchDiscontinuities cs step) = List.map evidence cs.
Proof.
  intros Hcs. unfold markLowAngleAttachedBranchDiscontinuities.
  pose proof (lowAngleMarks_fence cs step) as Hm.
  assert (Hm' : Forall (fun p => state (classifyPoint p) = accepted /\
    isSteadyRansEvidence (heap p) = true /\ in_fence p) (lowAngleMarks cs step)).
  { revert Hm. apply List.Forall_impl. intros p [Hin Hf].
    destruct (acceptedRans_gate false cs p Hcs Hin). done. }
  clear Hm. revert Hm'. generalize (lowAngleMarks cs step). intros marks. revert cs Hcs.
  induction marks as [|p marks IH]; intros cs Hcs Hm; cbn [fold_left]; [done|].
  apply Forall_cons_iff in Hm as [(Hg & Hs & Hf) Hm].
  destruct (IH (update_target p discontinuity cs)) as [H1 H2]; [|exact Hm|].
  - apply Forall_update_target; [|exact Hcs]. intros c <- _. right. cbn. split_and!; try done.
    right. left. cbn. by destruct Hf.
  - split; [exact H1|]. rewrite H2. by apply evidence_update_target.
Qed.


(** *** The post-stall scan and the promotion *)

Lemma scan_explained (slopeOfFit step start peak : jsnum) (points : list ref) (s : scan) :
  Forall (fun p => state (classifyPoint p) = accepted /\
                   isSteadyRansEvidence (heap p) = true) points ->
  Forall (explained false) (verdicts s) ->
  let s' := fold_left (scanPoint slopeOfFit step start peak) points s in
  Forall (explained false) (verdicts s') /\
  List.map evidence (verdicts s') = List.map evidence (verdicts s).
Proof.
  intros Hp. revert s. induction Hp as [|p points [Hg Hst] Hp IH]; intros s Hs; cbn [fold_left];
    [done|].
  enough (H : Forall (explained false) (verdicts (scanPoint slopeOfFit step start peak s p)) /\
    List.map evidence (verdicts (scanPoint slopeOfFit step start peak s p)) =
    List.map evidence (verdicts s)).
  { destruct H as [H1 H2]. destruct (IH _ H1) as [H3 H4]. split; [exact H3|]. by rewrite H4. }
  unfold scanPoint. destruct (prev s) as [q|]; [|done].
  destruct (_ < start)%js; [done|]. destruct (Nat.leb_spec 2 (length (postStallReasons
    slopeOfFit step s p q))) as [Hlen|Hlen].
  - cbn [verdicts]. split; [|by apply evidence_update_target].
    apply Forall_update_target; [|exact Hs]. intros c <- _. right. cbn. split_and!; try done.
    right. right. done.
  - destruct (_ > peak)%js; [|done]. cbn [verdicts].
    split; [|by apply evidence_update_target].
    apply Forall_update_target; [|exact Hs]. intros c _ Hc. exact Hc.
Qed.

Lemma postStall_explained (cs : list PolarEvidenceClassification) :
  Forall (explained false) cs ->
  Forall (explained false) (postStallScan cs) /\
  List.map evidence (postStallScan cs) = List.map evidence cs.
Proof.
  intros Hcs. assert (Hp : Forall (fun p => state (classifyPoint p) = accepted /\
    isSteadyRansEvidence (heap p) = true) (acceptedRans cs)).
  { rewrite List.Forall_forall. intros p Hp. by apply (acceptedRans_gate false cs). }
  unfold postStallScan. destruct (acceptedRans cs) as [|first points] eqn:E; [done|].
  destruct (Nat.ltb _ 5); [done|]. destruct (linearFit _) as [fit|]; [|done].
  destruct (slope fit > 0.005)%js; [|done].
  match goal with |- context [fold_left _ _ ?s0] => exact (scan_explained _ _ _ _ _ s0 Hp Hcs) end.
Qed.

Lemma gate_explained (failure : bool) (points : list ref) :
  Forall (explained failure) (List.map classifyPoint points).
Proof.
  rewrite List.Forall_forall. intros c (p & <- & _)%in_map_iff. left. done.
Qed.

Lemma promote_explained (points : list ref) :
  Forall (explained true) (List.map promote (List.map classifyPoint points)).
Proof.
  rewrite List.Forall_forall. intros c (c' & <- & Hc)%in_map_iff.
  apply in_map_iff in Hc as (p & <- & _). unfold promote.
  destruct (isSteadyRansEvidence _ && _) eqn:E; [|by left].
  apply andb_true_iff in E as [Hs Ha%bool_decide_eq_true]. right. cbn. split_and!; try done.
  by left.
Qed.

Lemma map_evidence_promote (cs : list PolarEvidenceClassification) :
  List.map evidence (List.map promote cs) = List.map evidence cs.
Proof.
  rewrite List.map_map. apply List.map_ext. intros c. unfold promote. by destruct (_ && _).
Qed.

Lemma map_evidence_gate (points : list ref) :
  List.map evidence (List.map classifyPoint points) = points.
Proof. rewrite List.map_map. apply List.map_id. Qed.

Lemma classify_explained (points : list ref) (detect : option bool) :
  let r := classifyPolarEvidence points detect in
  Forall (explained (lowAoaFailure r)) (classifications r) /\
  List.map evidence (classifications r) = sort by_angle points.
Proof.
  unfold classifyPolarEvidence. cbn [lowAoaFailure classifications].
  set (ordered := sort by_angle points).
  destruct (existsb lowAngleFailure (List.map classifyPoint ordered)); cbn [negb andb].
  - split; [apply promote_explained|]. by rewrite map_evidence_promote, map_evidence_gate.
  - set (cs2 := if negb _ then _ else _).
    assert (H : Forall (explained false) cs2 /\ List.map evidence cs2 = ordered).
    { unfold cs2. destruct (negb _).
      - destruct (lowAngle_explained (List.map classifyPoint ordered)
          (nominalStep (acceptedRans (List.map classifyPoint ordered))) (gate_explained false _))
          as [H1 H2]. split; [exact H1|]. by rewrite H2, map_evidence_gate.
      - split; [apply gate_explained|apply map_evidence_gate]. }
    destruct H as [H1 H2]. destruct (postStall_explained cs2 H1) as [H3 H4].
    split; [exact H3|]. by rewrite H4.
Qed.

(** The classifier gives every point exactly one verdict, in order of angle.
    A verdict is the pointwise gate's own (accepted without reasons, handed over
    when only the hold proof is missing, rejected otherwise), or it hands over
    to URANS a steady RANS point that the gate accepts, with the reason: a hard
    failure at low angle, the low-angle branch check (only between -6 and 0
    degrees), or at least two post-stall reasons.  No heuristic resurrects a
    rejected point or touches other evidence. *)
Theorem classifyPolarEvidence_explained (points : list ref) (detect : option bool) :
  let r := classifyPolarEvidence points detect in
  List.map evidence (classifications r) = sort by_angle points /\
  Forall (fun c =>
    explained (lowAoaFailure r) c /\
    (state c = accepted -> baseRejectionReasons (heap (evidence c)) = []) /\
    (state c = rejected -> reasons c = baseRejectionReasons (heap (evidence c)) /\
                           reasons c <> []) /\
    (isSteadyRansEvidence (heap (evidence c)) = false ->
       state c = state (classifyPoint (evidence c)))) (classifications r).
Proof.
  destruct (classify_explained points detect) as [He Hm]. split; [exact Hm|].
  revert He. apply List.Forall_impl. intros c Hc. split; [exact Hc|].
  destruct (classifyPoint_cases (evidence c)) as (Ha & _ & Hr & Hrs).
  destruct Hc as [[Hs Hrc]|(Hg & Hst & Hs & _)].
  - rewrite Hs, Hrc. split_and!; [apply Ha| |done].
    intros H. rewrite Hrs. split; [done|]. by apply Hr in H as [H _].
  - rewrite Hs. split_and!; [done|done|]. congruence.
Qed.

(** A hard failure of a steady point between 0 and 5 degrees, before any shape
    heuristic. *)
Definition hard_low_failure (p : ref) : Prop :=
  isSteadyRansEvidence (heap p) = true /\ (angle p >= 0)%js = true /\ (angle p <= 5)%js = true /\
  state (classifyPoint p) = rejected /\ isHardRansFailureEvidence (heap p) = true.

(** The low-angle failure flag is set exactly when some point fails hard
    between 0 and 5 degrees, and then no steady RANS point of the polar stays
    accepted: the whole steady polar is handed over to URANS. *)
Theorem low_angle_failure_promotes (points : list ref) (detect : option bool) :
  let r := classifyPolarEvidence points detect in
  (lowAoaFailure r = true <-> exists p, In p points /\ hard_low_failure p) /\
  (lowAoaFailure r = true ->
   Forall (fun c => isSteadyRansEvidence (heap (evidence c)) = true -> state c <> accepted)
     (classifications r)).
Proof.
  cbn zeta. split.
  - unfold classifyPolarEvidence. cbn [lowAoaFailure]. rewrite existsb_exists.
    unfold hard_low_failure, lowAngleFailure. split.
    + intros (c & (p & <- & Hp)%in_map_iff & Hc). exists p. apply in_sort in Hp.
      rewrite !andb_true_iff, bool_decide_eq_true in Hc. cbn [evidence] in Hc. tauto.
    + intros (p & Hp & H). exists (classifyPoint p). split.
      * apply in_map_iff. exists p. split; [done|]. by apply in_sort.
      * rewrite !andb_true_iff, bool_decide_eq_true. cbn [evidence]. tauto.
  - unfold classifyPolarEvidence. cbn [lowAoaFailure classifications]. intros ->.
    cbn [negb andb]. rewrite List.Forall_forall. intros c (c' & <- & _)%in_map_iff.
    unfold promote. destruct (_ && _) eqn:E; cbn [state evidence]; [done|].
    intros Hs Ha. rewrite Hs in E. cbn [andb] in E. by apply bool_decide_eq_false in E.
Qed.

End Polar.

(** ** A concrete polar *)

Definition steady_point (angle lift drag : jsnum) (converged : bool) : PolarEvidencePoint :=
  {| a := angle; cl := Some lift; cd := Some drag; EvidenceGate.cm := Some 0%float;
     EvidenceGate.ld := None; EvidenceGate.status := "done"; EvidenceGate.source := "solved";
     EvidenceGate.regime := Some EvidenceGate.rans; EvidenceGate.converged := converged;
     EvidenceGate.stalled := false; EvidenceGate.unsteady := None; EvidenceGate.error := None;
     EvidenceGate.failureDisposition := None; finalResidual := None; iterations := None;
     EvidenceGate.sourceGeometryCompatible := None; EvidenceGate.hasForceHistory := None;
     EvidenceGate.hasVideo := None; EvidenceGate.frameTrack := JsValue.JUndef;
     EvidenceGate.uransCycleCertificate := JsValue.JUndef;
     EvidenceGate.noSheddingCertificate := JsValue.JUndef;
     EvidenceGate.aperiodicMeanCertificate := JsValue.JUndef;
     EvidenceGate.ransHoldCertificate := JsValue.JUndef; EvidenceGate.fidelity := None;
     EvidenceGate.steadyHistory := JsValue.JUndef; EvidenceGate.qualityWarnings := None;
     EvidenceGate.selectedArchiveInterpretation := JsValue.JUndef |}.

Definition polar (points : list PolarEvidencePoint) (p : nat) : PolarEvidencePoint :=
  default (steady_point 0 0 0 false) (points !! p).

Definition attached_polar : list PolarEvidencePoint :=
  [steady_point 3 0.3 0.01 true; steady_point 0 0 0.01 true; steady_point 1 0.1 0.01 true;
   steady_point 2 0.2 0.01 true; steady_point (-2) 0.8 0.01 true; steady_point (-1) (-0.1) 0.01 true;
   steady_point 10 1 0.02 true; steady_point 12 0.5 0.1 true]%float.

Definition summary (r : ClassifiedPolar) : list (nat * ResultClassificationState) * list jsnum * bool :=
  (List.map (fun c => (evidence c, state c)) (classifications r), needsUransAoas r, lowAoaFailure r).

Example attached_polar_verdicts :
  summary (classifyPolarEvidence (polar attached_polar) (seq 0 8) None) =
  ([(4, needs_urans); (5, accepted); (1, accepted); (2, accepted); (3, accepted); (0, accepted);
    (6, accepted); (7, needs_urans)], [-2; 12]%float, false).
Proof. vm_compute. reflexivity. Qed.

Example failed_polar_verdicts :
  summary (classifyPolarEvidence
    (polar [steady_point 0 0 0.01 true; steady_point 1 0.1 0.01 false;
            steady_point 6 0.6 0.01 true]%float) (seq 0 3) None) =
  ([(0, needs_urans); (1, rejected); (2, needs_urans)], [0; 6]%float, true).
Proof. vm_compute. reflexivity. Qed.
