(* ===== verification/QueuedDisk.v ===== *)
(** * Disk forecast of the queued jobs

    [apps/sweeper/src/queued-disk-exposure.ts]: the storage that the next
    admission batch may need.  A queued job of known shape reserves its cases
    at the measured size per case, any other one a fallback; the forecast sorts
    the requests by bytes per CPU slot and fills the idle slots greedily.  The
    theorems show that the greedy filling covers every batch that fits the idle
    slots (the fractional knapsack argument), whatever batch the scheduler then
    picks.

    Numbers are binary64; [BigInt(x)] is used on safe integers only, where it
    is the integer of the number. *)

From Stdlib Require Import ZArith Lia Bool Sorting.Permutation Sorting.Sorted.
From Stdlib Require Import Floats.
From stdpp Require Import base list strings option numbers.
From S2P Require Import Prelude JsNumber JsString JsValue JsArray.

Local Open Scope string_scope.
Local Open Scope list_scope.
Local Open Scope result_scope.

(** ** Data *)

(** [interface DiskAdmissionConfig] (apps/sweeper/src/disk-admission.ts) *)
Record DiskAdmissionConfig := {
  maxUsedPct : jsnum;
  minFreeBytes : jsnum;
  jobReserveBytes : jsnum;
  idleSlotReserveBytes : jsnum;
  ransCaseReserveBytes : option jsnum;
  precalcCaseReserveBytes : option jsnum;
  fullCaseReserveBytes : option jsnum;
}.

(** [interface LocalDiskJob] *)
Record LocalDiskJob := {
  totalCases : jsnum;
  completedCases : jsnum;
  requestPayload : jsval;
  admissionCpuSlots : option jsnum;
}.

Definition MAX_FORECAST_QUEUE_JOBS : Z := 4096.
Definition DEFAULT_DISK_ADMISSION_BATCH_SLOTS : jsnum := 16%float.

(** [object(value)?.k]: a property of an object, undefined of anything else. *)
Definition object (v : jsval) : option record :=
  match v with JObj o => Some o | _ => None end.
Definition object_prop (o : option record) (k : string) : jsval :=
  match o with Some o => get k o | None => JUndef end.

Definition finiteList (v : jsval) (positive : bool) : bool :=
  match v with
  | JArr l =>
      Nat.ltb 0 (length l) && Nat.leb (length l) 1024 &&
      forallb (fun entry =>
        finite entry && (negb positive || on_num (fun x => x > 0)%js entry)) l
  | _ => false
  end.

(** The list that [finiteList] has narrowed. *)
Definition numbers_of (v : jsval) : list jsnum :=
  match v with
  | JArr l => omap (fun entry => match entry with JNum x => Some x | _ => None end) l
  | _ => []
  end.

Definition array_length (l : list jsnum) : jsnum := of_Z (Z.of_nat (length l)).

(** The shape of a queued request is known: a complete fresh solver request. *)
Definition known_shape (job : LocalDiskJob) (request solver : record) : bool :=
  let angles := object_prop (object (get "aoa" request)) "angles" in
  let chords := get "chord_lengths" request in
  let speeds := get "speeds" request in
  nullish (get "continue_from" request) &&
  (completedCases job === 0)%js &&
  finiteList angles false && finiteList chords true && finiteList speeds true &&
  Nat.eqb (length (dedup (numbers_of angles))) (length (numbers_of angles)) &&
  isSafeInteger (totalCases job) &&
  (totalCases job === (array_length (numbers_of angles) * array_length (numbers_of chords)
                       * array_length (numbers_of speeds))%float)%js &&
  typeof_boolean (get "force_transient" solver) &&
  typeof_boolean (get "transient_fallback" solver).

(** The size per case by the fidelity the solver may reach. *)
Definition perCaseReserve (solver : record) (config : DiskAdmissionConfig) : option jsnum :=
  if is_true (get "transient_fallback" solver) then fullCaseReserveBytes config
  else if is_true (get "force_transient" solver) then
    if is_str (get "urans_fidelity" solver) "precalc" then precalcCaseReserveBytes config
    else if is_str (get "urans_fidelity" solver) "full" then fullCaseReserveBytes config
    else None
  else ransCaseReserveBytes config.

Definition bounds_error : string := "Queued disk forecast exceeds finite storage bounds".

Definition queuedJobReserve (job : LocalDiskJob) (config : DiskAdmissionConfig) :
    result (option jsnum) :=
  let request := object (object_prop (object (requestPayload job)) "engineRequest") in
  match request, object (object_prop request "solver") with
  | Some request, Some solver =>
      if known_shape job request solver then
        match perCaseReserve solver config with
        | None => Ok None
        | Some perCase =>
            let bytes := Math_ceil (totalCases job * perCase)%float in
            if negb (isSafeInteger bytes) || (bytes <= 0)%js then Throw bounds_error
            else Ok (Some bytes)
        end
      else Ok None
  | _, _ => Ok None
  end.

(** ** The forecast *)

Record Request := { slots : jsnum; bytes : jsnum }.
Record Forecast := { reservedBytes : jsnum; queuedCpuSlots : jsnum }.

(** [BigInt(x)] of a safe integer. *)
Definition BigInt (x : jsnum) : Z := default 0%Z (to_integer x).

Definition requestOf (config : DiskAdmissionConfig) (job : LocalDiskJob) : result Request :=
  let slots := default PrimFloat.nan (admissionCpuSlots job) in
  let* known := queuedJobReserve job config in
  let bytes := match known with
    | Some b => b
    | None => Math_max (jobReserveBytes config) (slots * idleSlotReserveBytes config)%float
    end in
  if negb (isSafeInteger bytes) || (bytes < 0)%js then Throw bounds_error
  else Ok {| slots := slots; bytes := bytes |}.

Definition requestsOf (config : DiskAdmissionConfig) (jobs : list LocalDiskJob) :
    result (list Request) := result_map (requestOf config) jobs.

(** The comparator: by decreasing bytes per slot, in exact integers. *)
Definition byDensity (left right : Request) : jsnum :=
  let order := (BigInt (bytes right) * BigInt (slots left)
                - BigInt (bytes left) * BigInt (slots right))%Z in
  if (0 <? order)%Z then 1%float else if (order <? 0)%Z then (-1)%float else 0%float.

(** The share of a request's bytes for some of its slots, rounded up. *)
Definition shareOf (request : Request) (taken : jsnum) : jsnum :=
  of_Z (Z.quot (BigInt (bytes request) * BigInt taken + BigInt (slots request) - 1)
               (BigInt (slots request))).

Fixpoint fillSlots (requests : list Request) (remaining reserved : jsnum) : jsnum * jsnum :=
  match requests with
  | [] => (remaining, reserved)
  | request :: requests' =>
      let taken := Math_min remaining (slots request) in
      let reserved := (reserved + shareOf request taken)%float in
      let remaining := (remaining - taken)%float in
      if (remaining === 0)%js then (remaining, reserved)
      else fillSlots requests' remaining reserved
  end.

Definition positive_slots (job : LocalDiskJob) : bool :=
  match admissionCpuSlots job with
  | Some n => isSafeInteger n && negb (n < 1)%js
  | None => false
  end.

Definition queuedDiskExposure (jobs : list LocalDiskJob) (idleSlots : jsnum)
    (config : DiskAdmissionConfig) : result Forecast :=
  if negb (isSafeInteger idleSlots) || (idleSlots < 0)%js
     || negb (isSafeInteger (idleSlotReserveBytes config))
     || (idleSlotReserveBytes config <= 0)%js
  then Throw "Queued disk forecast requires finite storage and capacity bounds"
  else
    let standbySlots := Math_min idleSlots DEFAULT_DISK_ADMISSION_BATCH_SLOTS in
    let fallback := {| reservedBytes := (standbySlots * idleSlotReserveBytes config)%float;
                       queuedCpuSlots := 0 |} in
    if (MAX_FORECAST_QUEUE_JOBS <? Z.of_nat (length jobs))%Z then Ok fallback
    else if existsb (fun job => negb (positive_slots job)) jobs
    then Throw "Queued disk forecast requires exact planned CPU slots"
    else
      let* requests := requestsOf config jobs in
      let '(remaining, reserved) := fillSlots (sort byDensity requests) idleSlots 0%float in
      let reserved := (reserved + Math_min remaining DEFAULT_DISK_ADMISSION_BATCH_SLOTS
                                  * idleSlotReserveBytes config)%float in
      if negb (isSafeInteger reserved) || (reserved < 0)%js then Throw bounds_error
      else Ok {| reservedBytes := reserved; queuedCpuSlots := (idleSlots - remaining)%float |}.

(** ** Exact integers of a request *)

Local Open Scope Z_scope.

Definition slotsZ (r : Request) : Z := BigInt (slots r).
Definition bytesZ (r : Request) : Z := BigInt (bytes r).

Fixpoint total (f : Request -> Z) (l : list Request) : Z :=
  match l with [] => 0 | r :: l' => f r + total f l' end.

(** What [requestsOf] makes of jobs with planned slots. *)
Record wf_request (r : Request) : Prop := {
  wf_slots : to_integer (slots r) = Some (slotsZ r);
  wf_bytes : to_integer (bytes r) = Some (bytesZ r);
  wf_slots_range : 1 <= slotsZ r <= 2 ^ 53 - 1;
  wf_bytes_range : 0 <= bytesZ r <= 2 ^ 53 - 1;
}.

Lemma BigInt_safe (x : jsnum) :
  isSafeInteger x = true -> to_integer x = Some (BigInt x) /\ Z.abs (BigInt x) <= 2 ^ 53 - 1.
Proof.
  rewrite isSafeInteger_spec. intros (a & Ha & Hb). unfold BigInt. by rewrite Ha.
Qed.

Lemma BigInt_eq (x : jsnum) (a : Z) : to_integer x = Some a -> BigInt x = a.
Proof. unfold BigInt. by intros ->. Qed.

Lemma total_perm (f : Request -> Z) (l l' : list Request) :
  Permutation l l' -> total f l = total f l'.
Proof. induction 1; cbn; lia. Qed.

Lemma total_nonneg (f : Request -> Z) (l : list Request) :
  Forall (fun r => 0 <= f r) l -> 0 <= total f l.
Proof. induction 1; cbn; lia. Qed.

Lemma slots_nonneg (l : list Request) : Forall wf_request l -> 0 <= total slotsZ l.
Proof.
  intros Hl. apply total_nonneg. forall_impl Hl. intros r [_ _ ? _]. lia.
Qed.

Lemma Forall_sublist {A} (P : A -> Prop) (l l' : list A) :
  sublist l l' -> Forall P l' -> Forall P l.
Proof. induction 1; intros Hl; [done|..]; apply Forall_cons_iff in Hl as [? ?]; auto. Qed.

(** ** The greedy filling, in integers *)

Fixpoint greedy (l : list Request) (R : Z) : Z :=
  match l with
  | [] => 0
  | r :: l' =>
      let t := Z.min R (slotsZ r) in
      (bytesZ r * t + slotsZ r - 1) / slotsZ r + greedy l' (R - t)
  end.

(** [x] is at least as dense as [y], in bytes per slot. *)
Definition denser (x y : Request) : Prop := bytesZ y * slotsZ x <= bytesZ x * slotsZ y.

Lemma ceil_share (b t s : Z) :
  0 <= b -> 0 <= t <= s -> 1 <= s ->
  0 <= (b * t + s - 1) / s <= b /\ b * t <= (b * t + s - 1) / s * s.
Proof.
  intros Hb Ht Hs. pose proof (Z.div_mod (b * t + s - 1) s).
  pose proof (Z.mod_pos_bound (b * t + s - 1) s). split; [|nia]. split; [apply Z.div_pos; nia|].
  apply Z.lt_succ_r, Z.div_lt_upper_bound; nia.
Qed.

Lemma ceil_share_all (b s : Z) : 1 <= s -> (b * s + s - 1) / s = b.
Proof. intros Hs. symmetry. apply Z.div_unique with (s - 1); lia. Qed.

Lemma greedy_bounds (l : list Request) : forall R,
  Forall wf_request l -> 0 <= R -> 0 <= greedy l R <= total bytesZ l.
Proof.
  induction l as [|r l IH]; intros R Hl HR; cbn; [lia|].
  apply Forall_cons_iff in Hl as [[_ _ Hs Hb] Hl].
  destruct (ceil_share (bytesZ r) (Z.min R (slotsZ r)) (slotsZ r)) as [H1 _]; [lia..|].
  specialize (IH (R - Z.min R (slotsZ r)) Hl). lia.
Qed.

Lemma greedy_all (l : list Request) : forall R,
  Forall wf_request l -> total slotsZ l <= R -> greedy l R = total bytesZ l.
Proof.
  induction l as [|r l IH]; intros R Hl HR; cbn in *; [done|].
  apply Forall_cons_iff in Hl as [[_ _ Hs Hb] Hl].
  pose proof (slots_nonneg l Hl).
  rewrite Z.min_r, ceil_share_all by lia. f_equal. apply IH; [done|lia].
Qed.

Lemma greedy_zero (l : list Request) : Forall wf_request l -> greedy l 0 = 0.
Proof.
  induction 1 as [|r l [_ _ Hs _] _ IH]; cbn; [done|].
  rewrite Z.min_l, Z.mul_0_r, Z.div_small, Z.sub_0_r, IH by lia. done.
Qed.

(** Every part of a list is at most as dense as a bound on the list. *)
Lemma density_total (b s : Z) (l : list Request) :
  Forall (fun r => bytesZ r * s <= b * slotsZ r) l -> total bytesZ l * s <= b * total slotsZ l.
Proof. induction 1; cbn; lia. Qed.

(** The exchange argument, with the slots of [chosen] above the capacity priced
    at a density [b / s] that bounds the list. *)
Lemma greedy_covers (chosen l : list Request) :
  sublist chosen l -> forall R b s,
  Forall wf_request l -> StronglySorted denser l -> 0 <= R -> 0 <= b -> 1 <= s ->
  Forall (fun r => bytesZ r * s <= b * slotsZ r) l ->
  total bytesZ chosen * s <= greedy l R * s + b * Z.max 0 (total slotsZ chosen - R).
Proof.
  induction 1 as [|r c l Hsub IH|r c l Hsub IH]; intros R b s Hwf Hs HR Hb Hs1 Hd.
  - cbn. nia.
  - apply Forall_cons_iff in Hwf as [[_ _ Sr Br] Hwf].
    apply Forall_cons_iff in Hd as [Dr Hd]. inversion Hs as [|? ? Hs' Hr]; subst.
    cbn [total greedy].
    destruct (Z.le_gt_cases (slotsZ r) R) as [Hle|Hgt].
    + rewrite Z.min_r, ceil_share_all by lia.
      specialize (IH (R - slotsZ r) b s Hwf Hs'). 
      replace (slotsZ r + total slotsZ c - R) with (total slotsZ c - (R - slotsZ r)) by lia.
      specialize (IH ltac:(lia) Hb Hs1 Hd). lia.
    + rewrite Z.min_l, Z.sub_diag, greedy_zero by (done || lia).
      destruct (ceil_share (bytesZ r) R (slotsZ r)) as [_ Hc]; [lia..|].
      set (g := _ / slotsZ r) in *.
      assert (Hc' : total bytesZ c * s <= b * total slotsZ c).
      { apply density_total. by eapply Forall_sublist. }
      assert (0 <= total slotsZ c) by (eapply slots_nonneg, Forall_sublist; done).
      rewrite Z.max_r by lia.
      assert (bytesZ r * s <= g * s + b * (slotsZ r - R)); [|lia].
      apply Z.mul_le_mono_pos_r with (slotsZ r); [lia|]. nia.
  - apply Forall_cons_iff in Hwf as [[_ _ Sr Br] Hwf].
    apply Forall_cons_iff in Hd as [Dr Hd]. inversion Hs as [|? ? Hs' Hr]; subst.
    cbn [greedy]. set (k := Z.max 0 (total slotsZ c - R)).
    specialize (IH (R - Z.min R (slotsZ r)) (bytesZ r) (slotsZ r) Hwf Hs'
                  ltac:(lia) ltac:(lia) ltac:(lia)).
    specialize (IH ltac:(forall_impl Hr; unfold denser; intros; lia)).
    destruct (ceil_share (bytesZ r) (Z.min R (slotsZ r)) (slotsZ r)) as [_ Hc]; [lia..|].
    set (g := _ / slotsZ r) in *. set (G := greedy l _) in *.
    set (t := Z.min R (slotsZ r)) in *.
    assert (Hk : Z.max 0 (total slotsZ c - (R - t)) <= t + k) by lia.
    set (k' := Z.max 0 (total slotsZ c - (R - t))) in *.
    assert (H1 : total bytesZ c * slotsZ r <= (g + G) * slotsZ r + bytesZ r * k) by nia.
    apply Z.mul_le_mono_pos_r with (slotsZ r); [lia|].
    transitivity (((g + G) * slotsZ r + bytesZ r * k) * s); [nia|].
    assert (bytesZ r * s * k <= b * slotsZ r * k) by (apply Z.mul_le_mono_nonneg_r; lia). lia.
Qed.

Lemma covers_sorted (l chosen : list Request) (R : Z) :
  Forall wf_request l -> StronglySorted denser l -> sublist chosen l -> 0 <= R ->
  total slotsZ chosen <= R -> total bytesZ chosen <= greedy l R.
Proof.
  intros Hwf Hs Hsub HR Hfit. destruct l as [|r l].
  { apply sublist_nil_r in Hsub as ->. done. }
  pose proof Hwf as [[_ _ Sr Br] _]%Forall_cons_iff.
  pose proof (greedy_covers chosen (r :: l) Hsub R (bytesZ r) (slotsZ r) Hwf Hs) as H.
  rewrite Z.max_l in H by lia. inversion Hs as [|? ? _ Hr]; subst.
  apply Z.mul_le_mono_pos_r with (slotsZ r); [lia|].
  rewrite Z.mul_0_r, Z.add_0_r in H. apply H; [lia..|]. constructor; [lia|].
  forall_impl Hr. unfold denser. intros; lia.
Qed.

(** ** The loop of the code computes [greedy] *)

Lemma shareOf_integer (r : Request) (taken : jsnum) (t : Z) :
  wf_request r -> to_integer taken = Some t -> 0 <= t <= slotsZ r ->
  to_integer (shareOf r taken) = Some ((bytesZ r * t + slotsZ r - 1) / slotsZ r).
Proof.
  intros [_ _ Hs Hb] Ht Hr. unfold shareOf. fold (bytesZ r) (slotsZ r).
  rewrite (BigInt_eq _ _ Ht), Z.quot_div_nonneg by nia.
  destruct (ceil_share (bytesZ r) t (slotsZ r)) as [H _]; [lia..|]. apply of_Z_integer. lia.
Qed.

Lemma fillSlots_spec (l : list Request) : forall remaining reserved R A,
  Forall wf_request l -> to_integer remaining = Some R -> 0 <= R <= 2 ^ 53 - 1 ->
  to_integer reserved = Some A -> 0 <= A -> A + total bytesZ l <= 2 ^ 53 - 1 ->
  to_integer (fst (fillSlots l remaining reserved)) = Some (Z.max 0 (R - total slotsZ l)) /\
  to_integer (snd (fillSlots l remaining reserved)) = Some (A + greedy l R).
Proof.
  induction l as [|r l IH]; intros rem res R A Hl Hrem HR Hres HA Hsum; cbn [fillSlots fst snd].
  - cbn [total greedy]. rewrite Hrem, Hres. split; f_equal; lia.
  - apply Forall_cons_iff in Hl as [Hr Hl]. pose proof Hr as [Is Ib Hs Hb].
    pose proof (slots_nonneg l Hl) as Hsl.
    set (t := Z.min R (slotsZ r)).
    pose proof (Math_min_integer rem (slots r) R (slotsZ r) Hrem Is) as Ht. fold t in Ht.
    pose proof (shareOf_integer r _ t Hr Ht ltac:(lia)) as Hsh.
    destruct (ceil_share (bytesZ r) t (slotsZ r)) as [Hg _]; [lia..|].
    cbn [total greedy] in *. fold t. set (g := _ / slotsZ r) in *.
    assert (0 <= total bytesZ l) by (pose proof (greedy_bounds l 0 Hl); lia).
    pose proof (add_integer _ _ _ _ Hres Hsh ltac:(lia)) as Hres'.
    pose proof (sub_integer _ _ _ _ Hrem Ht ltac:(lia)) as Hrem'.
    rewrite (eqb_integer _ _ _ _ Hrem' to_integer_0).
    destruct (Z.eqb_spec (R - t) 0) as [E|E]; cbn [fst snd].
    + rewrite E, greedy_zero by done. rewrite Hrem', Hres'. split; f_equal; lia.
    + destruct (IH _ _ _ _ Hl Hrem' ltac:(lia) Hres' ltac:(lia) ltac:(lia)) as [-> ->].
      split; f_equal; lia.
Qed.

(** ** The requests and their order *)

Lemma requestOf_wf (config : DiskAdmissionConfig) (job : LocalDiskJob) (r : Request) :
  positive_slots job = true -> requestOf config job = Ok r -> wf_request r.
Proof.
  unfold positive_slots, requestOf. destruct (admissionCpuSlots job) as [n|]; [|done].
  cbn [default]. intros [Hs Hn]%andb_true_iff. rewrite bind_ok. intros (known & _ & H).
  match type of H with context [isSafeInteger ?x] => set (b := x) in H end.
  destruct (isSafeInteger b) eqn:Eb; [|done]. destruct (b < 0)%js eqn:Eb0; [done|].
  cbn in H. injection H as <-.
  destruct (BigInt_safe n Hs) as [Is Bs], (BigInt_safe b Eb) as [Ib Bb].
  rewrite (ltb_integer _ _ _ _ Is to_integer_1) in Hn.
  rewrite (ltb_integer _ _ _ _ Ib to_integer_0) in Eb0.
  constructor; unfold slotsZ, bytesZ; cbn [slots bytes]; try done; lia.
Qed.

Lemma requestsOf_wf (config : DiskAdmissionConfig) (jobs : list LocalDiskJob) (rs : list Request) :
  existsb (fun job => negb (positive_slots job)) jobs = false ->
  requestsOf config jobs = Ok rs -> Forall wf_request rs.
Proof.
  intros Hp H%result_map_ok. induction H as [|j r jobs rs Hr _ IH]; [constructor|].
  cbn in Hp. apply orb_false_iff in Hp as [Hj Hp]. constructor; [|auto].
  eapply requestOf_wf; [|exact Hr]. by destruct (positive_slots j).
Qed.

Lemma byDensity_ltb (x y : Request) :
  PrimFloat.ltb (byDensity y x) 0 = negb (bytesZ y * slotsZ x <=? bytesZ x * slotsZ y).
Proof.
  unfold byDensity. fold (bytesZ x) (bytesZ y) (slotsZ x) (slotsZ y).
  destruct (Z.ltb_spec 0 (bytesZ x * slotsZ y - bytesZ y * slotsZ x)) as [H|H].
  { symmetry. apply negb_false_iff, Z.leb_le. lia. }
  destruct (Z.ltb_spec (bytesZ x * slotsZ y - bytesZ y * slotsZ x) 0) as [H'|H'];
    symmetry; [apply negb_true_iff, Z.leb_gt|apply negb_false_iff, Z.leb_le]; lia.
Qed.

Lemma sort_density (l : list Request) :
  Forall wf_request l -> StronglySorted denser (sort byDensity l).
Proof.
  apply (sort_before_sorted _ wf_request).
  - intros x y _ _. rewrite byDensity_ltb. unfold denser. by rewrite negb_false_iff, Z.leb_le.
  - intros x y _ _. unfold denser. lia.
  - intros x y z [_ _ Sx Bx] [_ _ Sy By] [_ _ Sz Bz]. unfold denser. intros H1 H2.
    apply Z.mul_le_mono_pos_r with (slotsZ y); [lia|]. nia.
Qed.

Lemma sort_forall (P : Request -> Prop) (l : list Request) :
  Forall P l -> Forall P (sort byDensity l).
Proof. rewrite !List.Forall_forall. intros H x Hx%in_sort. auto. Qed.

(** ** The forecast *)

Section Forecast.
Context (jobs : list LocalDiskJob) (idleSlots : jsnum) (config : DiskAdmissionConfig).
Context (requests : list Request).
Hypothesis Hrequests : requestsOf config jobs = Ok requests.
Hypothesis Hcount : Z.of_nat (length jobs) <= MAX_FORECAST_QUEUE_JOBS.

Abbreviation idle := (BigInt idleSlots).
Abbreviation standby := (BigInt (idleSlotReserveBytes config)).

(** Everything the queue could ask for, and a standby batch, fits a safe integer. *)
Hypothesis Hexact : total bytesZ requests + 16 * standby <= 2 ^ 53 - 1.

(** The value of the forecast, in exact integers. *)
Lemma queuedDiskExposure_value (forecast : Forecast) :
  queuedDiskExposure jobs idleSlots config = Ok forecast ->
  Forall wf_request requests /\ 0 <= idle /\ 1 <= standby /\
  to_integer (queuedCpuSlots forecast) = Some (Z.min idle (total slotsZ requests)) /\
  to_integer (reservedBytes forecast) =
    Some (greedy (sort byDensity requests) idle
          + Z.min 16 (Z.max 0 (idle - total slotsZ requests)) * standby).
Proof.
  unfold queuedDiskExposure.
  destruct (_ || _) eqn:Hin; [done|]. apply orb_false_iff in Hin as [Hin Hr0].
  apply orb_false_iff in Hin as [[Hi Hi0]%orb_false_iff Hr]. apply negb_false_iff in Hi, Hr.
  destruct (BigInt_safe _ Hi) as [Ii Bi], (BigInt_safe _ Hr) as [Ir Br].
  rewrite (ltb_integer _ _ _ _ Ii to_integer_0) in Hi0.
  rewrite (leb_integer _ _ _ _ Ir to_integer_0) in Hr0.
  rewrite (proj2 (Z.ltb_ge _ _)) by done.
  destruct (existsb _ jobs) eqn:Hp; [done|]. rewrite Hrequests. cbn [bind_result].
  pose proof (requestsOf_wf config jobs requests Hp Hrequests) as Hwf.
  pose proof (sort_perm byDensity requests) as Hperm.
  pose proof (slots_nonneg requests Hwf) as Hsn.
  assert (Hbn : 0 <= total bytesZ requests) by (pose proof (greedy_bounds requests 0 Hwf); lia).
  destruct (fillSlots_spec (sort byDensity requests) idleSlots 0 idle 0) as [Hrem Hres];
    [by apply sort_forall|done|lia|apply to_integer_0|lia|rewrite <- (total_perm _ _ _ Hperm); lia|].
  destruct (fillSlots _ idleSlots 0%float) as [rem res]. cbn [fst snd] in Hrem, Hres.
  rewrite <- (total_perm _ _ _ Hperm) in Hrem. rewrite Z.add_0_l in Hres.
  destruct (greedy_bounds (sort byDensity requests) idle) as [G0 G1]; [by apply sort_forall|lia|].
  rewrite <- (total_perm _ _ _ Hperm) in G1.
  assert (H16 : to_integer DEFAULT_DISK_ADMISSION_BATCH_SLOTS = Some 16) by (vm_compute; done).
  pose proof (Math_min_integer _ _ _ _ Hrem H16) as Hm.
  pose proof (mul_integer _ _ _ _ Hm Ir ltac:(nia)) as Hx.
  pose proof (add_integer _ _ _ _ Hres Hx ltac:(nia)) as Hy.
  pose proof (sub_integer _ _ _ _ Ii Hrem ltac:(lia)) as Hq.
  destruct (_ || _) eqn:Hend; [done|]. intros [= <-]. cbn [queuedCpuSlots reservedBytes].
  rewrite Hy, Hq. repeat split; [done|lia|lia|f_equal; lia|]. do 2 f_equal. by rewrite Z.min_comm.
Qed.
End Forecast.

(** The greedy forecast against every batch, and its value when all fits. *)
Lemma forecast_sound (jobs : list LocalDiskJob) (idleSlots : jsnum)
    (config : DiskAdmissionConfig) (requests : list Request) (forecast : Forecast) :
  requestsOf config jobs = Ok requests ->
  Z.of_nat (length jobs) <= MAX_FORECAST_QUEUE_JOBS ->
  total bytesZ requests + 16 * BigInt (idleSlotReserveBytes config) <= 2 ^ 53 - 1 ->
  queuedDiskExposure jobs idleSlots config = Ok forecast ->
  (forall chosen, submseteq chosen requests -> total slotsZ chosen <= BigInt idleSlots ->
     total bytesZ chosen <= BigInt (reservedBytes forecast)) /\
  BigInt (queuedCpuSlots forecast) = Z.min (BigInt idleSlots) (total slotsZ requests) /\
  BigInt (reservedBytes forecast)
    <= total bytesZ requests + 16 * BigInt (idleSlotReserveBytes config) /\
  (total slotsZ requests <= BigInt idleSlots ->
   BigInt (reservedBytes forecast)
   = total bytesZ requests + Z.min 16 (BigInt idleSlots - total slotsZ requests)
                             * BigInt (idleSlotReserveBytes config)).
Proof.
  intros Hrs Hn Hx Hf.
  destruct (queuedDiskExposure_value jobs idleSlots config requests Hrs Hn Hx forecast Hf)
    as (Hwf & Hi & Hsb & Hq%BigInt_eq & Hr%BigInt_eq). rewrite Hq, Hr.
  assert (Hwfs : Forall wf_request (sort byDensity requests)) by by apply sort_forall.
  pose proof (sort_perm byDensity requests) as Hperm.
  destruct (greedy_bounds _ (BigInt idleSlots) Hwfs Hi) as [_ G1].
  rewrite <- (total_perm _ _ _ Hperm) in G1. repeat split; [|nia|].
  - intros chosen Hc Hfit.
    rewrite Hperm in Hc. apply submseteq_sublist_r in Hc as (c & Hcp & Hc).
    rewrite (total_perm bytesZ _ _ Hcp). rewrite (total_perm slotsZ _ _ Hcp) in Hfit.
    pose proof (covers_sorted _ c (BigInt idleSlots) Hwfs (sort_density _ Hwf) Hc Hi Hfit). nia.
  - intros Hall. rewrite greedy_all; [|done|by rewrite <- (total_perm _ _ _ Hperm)].
    rewrite <- (total_perm _ _ _ Hperm). do 2 f_equal. lia.
Qed.

(** C2. The queued disk forecast covers every batch that fits the idle CPU slots:
    when it is answered for an exactly counted queue, any selection of the
    queued requests whose planned slots fit the idle slots needs at most the
    reserved bytes; it counts the slots the queue can use, never reserves more
    than the whole queue plus a standby batch of at most 16 slots, and reserves
    exactly the bytes of the whole queue plus the standby batch when the whole
    queue fits. *)
Theorem queuedDiskExposure_covers (jobs : list LocalDiskJob) (idleSlots : jsnum)
    (config : DiskAdmissionConfig) (requests : list Request) (forecast : Forecast) :
  requestsOf config jobs = Ok requests ->
  Z.of_nat (length jobs) <= MAX_FORECAST_QUEUE_JOBS ->
  total bytesZ requests + 16 * BigInt (idleSlotReserveBytes config) <= 2 ^ 53 - 1 ->
  queuedDiskExposure jobs idleSlots config = Ok forecast ->
  (forall chosen, submseteq chosen requests -> total slotsZ chosen <= BigInt idleSlots ->
     total bytesZ chosen <= BigInt (reservedBytes forecast)) /\
  BigInt (queuedCpuSlots forecast) = Z.min (BigInt idleSlots) (total slotsZ requests) /\
  BigInt (reservedBytes forecast)
    <= total bytesZ requests + 16 * BigInt (idleSlotReserveBytes config) /\
  (total slotsZ requests <= BigInt idleSlots ->
   BigInt (reservedBytes forecast)
   = total bytesZ requests + Z.min 16 (BigInt idleSlots - total slotsZ requests)
                             * BigInt (idleSlotReserveBytes config)).
Proof. intros Hrs Hn Hx Hf. by apply (forecast_sound jobs). Qed.

Definition default_config : DiskAdmissionConfig := {|
  maxUsedPct := 95; minFreeBytes := 21474836480; jobReserveBytes := 42949672960;
  idleSlotReserveBytes := 32212254720; ransCaseReserveBytes := Some 335544320%float;
  precalcCaseReserveBytes := Some 1610612736%float;
  fullCaseReserveBytes := Some 6442450944%float |}.

(** A fresh RANS job of two cases on three slots, and one of unknown shape. *)
Definition rans_payload : jsval :=
  JObj [("engineRequest", JObj
    [("solver", JObj [("force_transient", JBool false); ("transient_fallback", JBool false)]);
     ("aoa", JObj [("angles", JArr [JNum 0; JNum 2])]);
     ("chord_lengths", JArr [JNum 1]); ("speeds", JArr [JNum 30])])].
Definition sample_jobs : list LocalDiskJob :=
  [{| totalCases := 2; completedCases := 0; requestPayload := rans_payload;
      admissionCpuSlots := Some 3%float |};
   {| totalCases := 5; completedCases := 1; requestPayload := JNull;
      admissionCpuSlots := Some 2%float |}].
Definition sample_requests : list Request :=
  [{| slots := 3; bytes := 671088640 |}; {| slots := 2; bytes := 64424509440 |}].

Example sample_forecasts :
  requestsOf default_config sample_jobs = Ok sample_requests /\
  queuedDiskExposure sample_jobs 4 default_config
    = Ok {| reservedBytes := 64871901867; queuedCpuSlots := 4 |} /\
  queuedDiskExposure sample_jobs 6 default_config
    = Ok {| reservedBytes := 97307852800; queuedCpuSlots := 5 |} /\
  throws (queuedDiskExposure sample_jobs (-1) default_config) = true.
Proof. vm_compute. repeat split. Qed.

Definition sample_forecast : Forecast := {| reservedBytes := 64871901867; queuedCpuSlots := 4 |}.

Lemma sample_bound :
  total bytesZ sample_requests + 16 * BigInt (idleSlotReserveBytes default_config)
  <= 2 ^ 53 - 1.
Proof. vm_compute. discriminate. Qed.

Lemma queuedDiskExposure_covers_witness :
  queuedDiskExposure sample_jobs 4 default_config = Ok sample_forecast /\
  forall chosen, submseteq chosen sample_requests -> total slotsZ chosen <= BigInt 4 ->
    total bytesZ chosen <= BigInt (reservedBytes sample_forecast).
Proof.
  destruct sample_forecasts as (H1 & H2 & _). split; [exact H2|].
  assert (Hn : Z.of_nat (length sample_jobs) <= MAX_FORECAST_QUEUE_JOBS)
    by (vm_compute; discriminate).
  exact (proj1 (queuedDiskExposure_covers sample_jobs 4 default_config sample_requests
    sample_forecast H1 Hn sample_bound H2)).
Defined.
