(* ===== verification/DiskAdmission.v ===== *)
(** * Storage admission of the sweeper

    [apps/sweeper/src/disk-admission.ts]: the configuration read from the
    environment, the exposure of the local jobs, the admission decision, the
    emergency test, the measurement with its fallback, the refresh that records
    the decision, and the cancellation of disposable jobs.  The SQL reads of the
    exposure, the engine's disk and cancel endpoints, [statfs] and the database
    transaction that releases a job are arguments: the outcomes of these calls,
    a value or the message of the exception. *)

From Stdlib Require Import ZArith Lia Bool.
From Stdlib Require Import Floats.
From stdpp Require Import base list strings option numbers.
From S2P Require Import Prelude JsNumber JsString JsValue JsArray QueuedDisk.

Local Open Scope string_scope.
Local Open Scope list_scope.
Local Open Scope result_scope.

Definition GIB : jsnum := 1073741824%float.
Definition MIB : jsnum := 1048576%float.

Definition DEFAULT_DISK_MAX_USED_PCT : jsnum := 95%float.
Definition DEFAULT_DISK_MIN_FREE_BYTES : jsnum := (20 * GIB)%float.
Definition DEFAULT_DISK_JOB_RESERVE_BYTES : jsnum := (40 * GIB)%float.
Definition DEFAULT_DISK_IDLE_SLOT_RESERVE_BYTES : jsnum := (30 * GIB)%float.
Definition DEFAULT_DISK_RANS_CASE_RESERVE_BYTES : jsnum := (320 * MIB)%float.
Definition DEFAULT_DISK_PRECALC_CASE_RESERVE_BYTES : jsnum := (1.5 * GIB)%float.
Definition DEFAULT_DISK_FULL_CASE_RESERVE_BYTES : jsnum := (6 * GIB)%float.
Definition DEFAULT_DISK_EMERGENCY_USED_PCT : jsnum := 98%float.
Definition DISK_PRESSURE_CANCELLATION_MARKER : string :=
  "Storage pressure emergency: cancelled disposable solver work for restart".

(** [interface DiskAdmissionExposure]; the optional members are [None] when
    they are absent. *)
Record DiskAdmissionExposure := {
  activeLocalJobCount : jsnum;
  activeLocalReservedBytes : jsnum;
  configuredLocalCpuSlots : option jsnum;
  activeLocalCpuSlots : option jsnum;
  idleLocalCpuSlots : option jsnum;
  idleLocalReservedBytes : option jsnum;
}.

(** [interface DiskAdmissionDecision] *)
Record DiskAdmissionDecision := {
  allowed : bool;
  reason : option string;
  usedPct : option jsnum;
  freeBytes : option jsnum;
  requiredFreeBytes : option jsnum;
}.

(** [EngineMaintenanceDiskResponse] *)
Record Disk := { total_bytes : jsnum; free_bytes : jsnum; used_pct : jsnum }.

(** ** Configuration *)

Definition Env := string -> option string.

(** [Number(process.env[name])]: an absent variable is NaN. *)
Definition env_number (env : Env) (name : string) : jsnum :=
  match env name with Some s => string_to_number s | None => PrimFloat.nan end.

Definition positiveEnv (env : Env) (name : string) (fallback : jsnum) : jsnum :=
  let parsed := env_number env name in
  if isFinite parsed && (parsed > 0)%js then parsed else fallback.

Definition diskPressureEmergencyFromEnv (env : Env) : jsnum :=
  let value := positiveEnv env "SWEEPER_DISK_EMERGENCY_USED_PCT" DEFAULT_DISK_EMERGENCY_USED_PCT in
  if (value > 0)%js && (value < 100)%js then value else DEFAULT_DISK_EMERGENCY_USED_PCT.

Definition isDiskPressureEmergency (decision : DiskAdmissionDecision)
    (thresholdPct minFreeBytes : jsnum) : bool :=
  match usedPct decision with Some x => (x >= thresholdPct)%js | None => false end
  || match freeBytes decision with Some x => (x < minFreeBytes)%js | None => false end.

Definition diskAdmissionConfigFromEnv (env : Env) : DiskAdmissionConfig :=
  let maxUsedPct := positiveEnv env "SWEEPER_DISK_MAX_USED_PCT" DEFAULT_DISK_MAX_USED_PCT in
  let gibEnv name bytes := (positiveEnv env name (bytes / GIB) * GIB)%float in
  {| maxUsedPct := if (maxUsedPct > 0)%js && (maxUsedPct < 100)%js
                   then maxUsedPct else DEFAULT_DISK_MAX_USED_PCT;
     minFreeBytes := gibEnv "SWEEPER_DISK_MIN_FREE_GIB" DEFAULT_DISK_MIN_FREE_BYTES;
     jobReserveBytes := gibEnv "SWEEPER_DISK_JOB_RESERVE_GIB" DEFAULT_DISK_JOB_RESERVE_BYTES;
     idleSlotReserveBytes :=
       gibEnv "SWEEPER_DISK_IDLE_SLOT_RESERVE_GIB" DEFAULT_DISK_IDLE_SLOT_RESERVE_BYTES;
     ransCaseReserveBytes :=
       Some (gibEnv "SWEEPER_DISK_RANS_CASE_RESERVE_GIB" DEFAULT_DISK_RANS_CASE_RESERVE_BYTES);
     precalcCaseReserveBytes :=
       Some (gibEnv "SWEEPER_DISK_PRECALC_CASE_RESERVE_GIB"
               DEFAULT_DISK_PRECALC_CASE_RESERVE_BYTES);
     fullCaseReserveBytes :=
       Some (gibEnv "SWEEPER_DISK_FULL_CASE_RESERVE_GIB" DEFAULT_DISK_FULL_CASE_RESERVE_BYTES) |}.

Definition gib (bytes : jsnum) : string := toFixed (bytes / GIB)%float 1.

Definition objectPayload (v : jsval) : option record :=
  match v with JObj o => Some o | _ => None end.

(** ** Exposure of the local jobs *)

(** The growth a job may still need, by its fidelity. *)
Definition malformed_progress (job : LocalDiskJob) : bool :=
  negb (isInteger (totalCases job)) || (totalCases job < 1)%js
  || negb (isInteger (completedCases job)) || (completedCases job < 0)%js
  || (completedCases job > totalCases job)%js.

Definition perCaseBytes (fidelity : jsval) (config : DiskAdmissionConfig) : option jsnum :=
  if nullish fidelity || is_str fidelity "rans"
  then Some (default DEFAULT_DISK_RANS_CASE_RESERVE_BYTES (ransCaseReserveBytes config))
  else if is_str fidelity "precalc"
  then Some (default DEFAULT_DISK_PRECALC_CASE_RESERVE_BYTES (precalcCaseReserveBytes config))
  else if is_str fidelity "full"
  then Some (default DEFAULT_DISK_FULL_CASE_RESERVE_BYTES (fullCaseReserveBytes config))
  else None.

Definition activeReserve (config : DiskAdmissionConfig) (job : LocalDiskJob) : jsnum :=
  if malformed_progress job then jobReserveBytes config
  else
    let remainingCases := Math_max 1 (totalCases job - completedCases job)%float in
    let fidelity := object_prop (objectPayload (requestPayload job)) "uransFidelity" in
    match perCaseBytes fidelity config with
    | Some perCase => Math_ceil (remainingCases * perCase)%float
    | None => jobReserveBytes config
    end.

Definition activeSlots (job : LocalDiskJob) : jsnum :=
  match admissionCpuSlots job with
  | Some n => if isInteger n && (n > 0)%js then n else 1%float
  | None => 1%float
  end.

(** The loop over the active jobs: reserved bytes and occupied slots. *)
Definition activeStep (config : DiskAdmissionConfig) (acc : jsnum * jsnum) (job : LocalDiskJob) :
    jsnum * jsnum :=
  (fst acc + activeReserve config job, snd acc + activeSlots job)%float.

Definition activeExposure (config : DiskAdmissionConfig) (jobs : list LocalDiskJob) :
    jsnum * jsnum := fold_left (activeStep config) jobs (0, 0)%float.

Definition with_case_defaults (config : DiskAdmissionConfig) : DiskAdmissionConfig := {|
  maxUsedPct := maxUsedPct config; minFreeBytes := minFreeBytes config;
  jobReserveBytes := jobReserveBytes config;
  idleSlotReserveBytes := idleSlotReserveBytes config;
  ransCaseReserveBytes :=
    Some (default DEFAULT_DISK_RANS_CASE_RESERVE_BYTES (ransCaseReserveBytes config));
  precalcCaseReserveBytes :=
    Some (default DEFAULT_DISK_PRECALC_CASE_RESERVE_BYTES (precalcCaseReserveBytes config));
  fullCaseReserveBytes :=
    Some (default DEFAULT_DISK_FULL_CASE_RESERVE_BYTES (fullCaseReserveBytes config)) |}.

Definition positive_integer (x : option jsnum) : option jsnum :=
  match x with
  | Some n => if isInteger n && (n > 0)%js then Some n else None
  | None => None
  end.

Definition diskAdmissionExposureForJobs (jobs : list LocalDiskJob) (config : DiskAdmissionConfig)
    (configuredCpuSlots : option jsnum) (queuedJobs : list LocalDiskJob) :
    result DiskAdmissionExposure :=
  let '(activeBytes, activeCpu) := activeExposure config jobs in
  match positive_integer configuredCpuSlots with
  | Some capacity =>
      let idle := Math_max 0 (capacity - activeCpu)%float in
      let* forecast := queuedDiskExposure queuedJobs idle (with_case_defaults config) in
      Ok {| activeLocalJobCount := of_nat (length jobs);
            activeLocalReservedBytes := activeBytes;
            configuredLocalCpuSlots := Some capacity;
            activeLocalCpuSlots := Some activeCpu;
            idleLocalCpuSlots := Some idle;
            idleLocalReservedBytes := Some (reservedBytes forecast) |}
  | None =>
      Ok {| activeLocalJobCount := of_nat (length jobs);
            activeLocalReservedBytes := activeBytes;
            configuredLocalCpuSlots := None; activeLocalCpuSlots := None;
            idleLocalCpuSlots := None; idleLocalReservedBytes := None |}
  end.

(** [sweeperState] columns; [None] is null. *)
Definition configuredDiskCapacitySlots (state : option (option jsnum * option jsnum)) (env : Env) :
    jsnum :=
  let cpuSlots := match state with Some (c, _) => c | None => None end in
  let maxConcurrentJobs := match state with Some (_, m) => m | None => None end in
  match positive_integer cpuSlots, positive_integer maxConcurrentJobs with
  | Some n, _ => n
  | None, Some n => n
  | None, None =>
      let workerBudget := env_number env "AIRFOILFOAM_WORKER_CPU_BUDGET" in
      if isInteger workerBudget && (workerBudget > 0)%js then workerBudget else 2%float
  end.

(** [loadDiskAdmissionExposure], given the rows of its three queries. *)
Definition loadDiskAdmissionExposure (jobs queuedJobs : list LocalDiskJob)
    (capacityState : option (option jsnum * option jsnum)) (config : DiskAdmissionConfig)
    (env : Env) : result DiskAdmissionExposure :=
  diskAdmissionExposureForJobs jobs config
    (Some (configuredDiskCapacitySlots capacityState env)) queuedJobs.

(** ** The decision *)

Definition valid_measurement (disk : Disk) (exposure : DiskAdmissionExposure) : bool :=
  isFinite (total_bytes disk) && (total_bytes disk > 0)%js &&
  isFinite (free_bytes disk) && (free_bytes disk >= 0)%js &&
  isFinite (used_pct disk) && (used_pct disk >= 0)%js && (used_pct disk <= 100)%js &&
  isInteger (activeLocalJobCount exposure) && (activeLocalJobCount exposure >= 0)%js &&
  isFinite (activeLocalReservedBytes exposure) && (activeLocalReservedBytes exposure >= 0)%js &&
  match idleLocalReservedBytes exposure with
  | None => true
  | Some b => isFinite b && (b >= 0)%js
  end.

Definition blocked (why : string) : DiskAdmissionDecision :=
  {| allowed := false; reason := Some why; usedPct := None; freeBytes := None;
     requiredFreeBytes := None |}.

(** The system floor, the active jobs and the idle reserve. *)
Definition requiredBytes (exposure : DiskAdmissionExposure) (config : DiskAdmissionConfig) : jsnum :=
  (minFreeBytes config + activeLocalReservedBytes exposure
   + default (jobReserveBytes config) (idleLocalReservedBytes exposure))%float.

Definition usedReason (disk : Disk) (config : DiskAdmissionConfig) : string :=
  toFixed (used_pct disk) 1 +:+ "% used (admission limit " +:+ toFixed (maxUsedPct config) 1
  +:+ "%)".

Definition freeReason (disk : Disk) (exposure : DiskAdmissionExposure)
    (config : DiskAdmissionConfig) : string :=
  let idleReserveBytes := default (jobReserveBytes config) (idleLocalReservedBytes exposure) in
  let idleReserveDescription :=
    match configuredLocalCpuSlots exposure, idleLocalCpuSlots exposure with
    | Some configured, Some idle =>
        gib idleReserveBytes +:+ " GiB for " +:+ Number_toString idle +:+ " idle of "
        +:+ Number_toString configured +:+ " configured CPU slots"
    | _, _ => gib idleReserveBytes +:+ " GiB for the next local job"
    end in
  gib (free_bytes disk) +:+ " GiB free; " +:+ gib (requiredBytes exposure config)
  +:+ " GiB required (" +:+ gib (minFreeBytes config) +:+ " GiB system floor + "
  +:+ gib (activeLocalReservedBytes exposure) +:+ " GiB remaining local work across "
  +:+ Number_toString (activeLocalJobCount exposure) +:+ " job"
  +:+ (if (activeLocalJobCount exposure === 1)%js then "" else "s")
  +:+ " + " +:+ idleReserveDescription +:+ ")".

Definition admissionReasons (disk : Disk) (exposure : DiskAdmissionExposure)
    (config : DiskAdmissionConfig) : list string :=
  fail_if (used_pct disk >= maxUsedPct config)%js (usedReason disk config) ++
  fail_if (free_bytes disk < requiredBytes exposure config)%js (freeReason disk exposure config).

Definition evaluateDiskAdmission (disk : Disk) (exposure : DiskAdmissionExposure)
    (config : DiskAdmissionConfig) : DiskAdmissionDecision :=
  if negb (valid_measurement disk exposure)
  then blocked "Storage admission stopped: the engine returned an invalid disk measurement."
  else
    let reasons := admissionReasons disk exposure config in
    {| allowed := Nat.eqb (length reasons) 0;
       reason := if Nat.eqb (length reasons) 0 then None
         else Some ("Storage admission stopped: " +:+ join "; " reasons +:+
                    ". Existing jobs may reconcile and ingest, but no new solver job will be submitted.");
       usedPct := Some (used_pct disk);
       freeBytes := Some (free_bytes disk);
       requiredFreeBytes := Some (requiredBytes exposure config) |}.

(** ** Measurement and refresh *)

(** The members of [statfs] that are read, as numbers. *)
Record Statfs := { blocks : jsnum; bavail : jsnum; bsize : jsnum }.

Definition diskMeasurementFromStatfs (input : Statfs) : Disk :=
  let totalBytes := (blocks input * bsize input)%float in
  {| total_bytes := totalBytes;
     free_bytes := (bavail input * bsize input)%float;
     used_pct := if (totalBytes > 0)%js
       then ((blocks input - bavail input) / blocks input * 100)%float else PrimFloat.nan |}.

(** Module state: [string | null | undefined], [undefined] as the outer [None]. *)
Record Memory := {
  lastLoggedReason : option (option string);
  lastDiskMeasurementFallback : option (option string);
}.

Definition resetDiskAdmissionMemory : Memory :=
  {| lastLoggedReason := None; lastDiskMeasurementFallback := None |}.

Definition truthy_text (x : option (option string)) : bool :=
  match x with Some (Some s) => nonempty s | _ => false end.

(** Console output, in order. *)
Inductive Log := LogInfo (s : string) | LogWarn (s : string) | LogError (s : string).

Definition set_fallback (m : Memory) (x : option string) : Memory :=
  {| lastLoggedReason := lastLoggedReason m; lastDiskMeasurementFallback := Some x |}.

Definition measuredDisk (engineDisk : result Disk) (localStatfs : result Statfs) (m : Memory) :
    result Disk * Memory * list Log :=
  match engineDisk with
  | Ok disk =>
      (Ok disk, set_fallback m None,
       if truthy_text (lastDiskMeasurementFallback m)
       then [LogInfo "[sweeper] Engine disk measurement recovered; local statfs fallback is no longer needed."]
       else [])
  | Throw message =>
      match localStatfs with
      | Ok local =>
          (Ok (diskMeasurementFromStatfs local), set_fallback m (Some message),
           if decide (lastDiskMeasurementFallback m = Some (Some message)) then []
           else [LogWarn ("[sweeper] Engine disk measurement unavailable (" +:+ message +:+
                          "); using local media-volume statfs.")])
      | Throw localMessage =>
          (Throw ("engine measurement failed (" +:+ message +:+
                  "); local media-volume statfs failed (" +:+ localMessage +:+ ")"), m, [])
      end
  end.

(** The columns of [sweeperState] that a refresh writes. *)
Record DiskRow := {
  diskAdmissionBlocked : bool;
  diskAdmissionReason : option string;
  diskUsedPct : option jsnum;
  diskFreeBytes : option jsnum;
  diskRequiredFreeBytes : option jsnum;
}.

Definition rowOf (decision : DiskAdmissionDecision) : DiskRow := {|
  diskAdmissionBlocked := negb (allowed decision);
  diskAdmissionReason := reason decision;
  diskUsedPct := usedPct decision;
  diskFreeBytes := freeBytes decision;
  diskRequiredFreeBytes := requiredFreeBytes decision |}.

(** The [try] of the refresh: measure, load the exposure, evaluate; an exception
    becomes a blocking decision. *)
Definition refreshDecision (measured : result Disk) (exposure : result DiskAdmissionExposure)
    (config : DiskAdmissionConfig) : DiskAdmissionDecision :=
  match (let* disk := measured in let* e := exposure in Ok (evaluateDiskAdmission disk e config)) with
  | Ok decision => decision
  | Throw message =>
      blocked ("Storage admission stopped: disk measurement unavailable (" +:+ message +:+ ").")
  end.

(** The reason is logged when it changes, its disappearance once. *)
Definition logReason (decision : DiskAdmissionDecision) (m : Memory) : Memory * list Log :=
  if decide (Some (reason decision) = lastLoggedReason m) then (m, [])
  else
    ({| lastLoggedReason := Some (reason decision);
        lastDiskMeasurementFallback := lastDiskMeasurementFallback m |},
     if truthy_text (Some (reason decision))
     then [LogWarn ("[sweeper] " +:+ default "" (reason decision))]
     else if truthy_text (lastLoggedReason m)
     then [LogInfo "[sweeper] Storage admission restored; new jobs may be submitted."]
     else []).

(** One refresh: the returned decision, or the exception of the database write,
    the row it writes, the new module state and the console output. *)
Definition refreshDiskAdmission (env : Env) (engineDisk : result Disk)
    (localStatfs : result Statfs) (exposure : DiskAdmissionConfig -> result DiskAdmissionExposure)
    (dbUpdate : DiskRow -> result unit) (m : Memory) :
    result DiskAdmissionDecision * DiskRow * Memory * list Log :=
  let config := diskAdmissionConfigFromEnv env in
  let '(measured, m1, logs1) := measuredDisk engineDisk localStatfs m in
  let decision := refreshDecision measured (exposure config) config in
  match dbUpdate (rowOf decision) with
  | Throw message => (Throw message, rowOf decision, m1, logs1)
  | Ok _ =>
      let '(m2, logs2) := logReason decision m1 in
      (Ok decision, rowOf decision, m2, logs1 ++ logs2)
  end.

(** ** Cancellation under storage pressure *)

Record SimJobRow := { jobId : string; engineJobId : option string }.

(** How the engine's cancel call ends. *)
Inductive CancelOutcome :=
  | Cancelled
  | EngineErrorStatus (status : Z) (message : string)
  | OtherError (message : string).

(** The calls that reach the engine and the database, in order. *)
Inductive Action :=
  | CancelJob (engineJobId : string)
  | CancelJobAndReleaseClaims (job : SimJobRow) (marker : string).

(** [null] and the empty string are falsy. *)
Definition engine_id (job : SimJobRow) : option string :=
  match engineJobId job with
  | Some i => if nonempty i then Some i else None
  | None => None
  end.

Definition cancel_log (i message : string) : Log :=
  LogError ("[sweeper] DISK EMERGENCY: engine cancellation failed for " +:+ i +:+ ": " +:+ message).

(** The engine no longer runs the job, or the error that makes the loop go on
    to the next job. *)
Definition engineStopped (cancelJob : string -> CancelOutcome) (i : string) : option string :=
  match cancelJob i with
  | Cancelled => None
  | EngineErrorStatus status message => if (status =? 404)%Z then None else Some message
  | OtherError message => Some message
  end.

Record CancelRun := { cancelled : nat; actions : list Action; logs : list Log }.

Fixpoint cancelLoop (cancelJob : string -> CancelOutcome) (release : SimJobRow -> result bool)
    (jobs : list SimJobRow) (run : CancelRun) : result nat * list Action * list Log :=
  match jobs with
  | [] => (Ok (cancelled run), actions run, logs run)
  | job :: jobs' =>
      let releaseAfter acts :=
        let acts := acts ++ [CancelJobAndReleaseClaims job DISK_PRESSURE_CANCELLATION_MARKER] in
        match release job with
        | Throw message => (Throw message, acts, logs run)
        | Ok released =>
            cancelLoop cancelJob release jobs'
              {| cancelled := if released then S (cancelled run) else cancelled run;
                 actions := acts; logs := logs run |}
        end in
      match engine_id job with
      | None => releaseAfter (actions run)
      | Some i =>
          let acts := actions run ++ [CancelJob i] in
          match engineStopped cancelJob i with
          | None => releaseAfter acts
          | Some message =>
              cancelLoop cancelJob release jobs'
                {| cancelled := cancelled run; actions := acts;
                   logs := logs run ++ [cancel_log i message] |}
          end
      end
  end.

(** [jobs] are the rows of the bounded query. *)
Definition cancelDisposableJobsForDiskPressure (cancelJob : string -> CancelOutcome)
    (release : SimJobRow -> result bool) (jobs : list SimJobRow) :
    result nat * list Action * list Log :=
  let '(r, acts, ls) := cancelLoop cancelJob release jobs
    {| cancelled := 0; actions := []; logs := [] |} in
  match r with
  | Ok (S _ as n) =>
      (r, acts, ls ++ [LogWarn ("[sweeper] DISK EMERGENCY: cancelled " +:+ string_of_nat n +:+
        " disposable job(s); their points were released for restart")])
  | _ => (r, acts, ls)
  end.

(** ** The decision covers what the scheduler may then run *)

Local Open Scope Z_scope.

Lemma fail_if_length0 (a b : bool) (m n : string) :
  Nat.eqb (length (fail_if a m ++ fail_if b n)) 0 = negb a && negb b.
Proof. by destruct a, b. Qed.

Lemma evaluate_allowed (disk : Disk) (exposure : DiskAdmissionExposure)
    (config : DiskAdmissionConfig) :
  allowed (evaluateDiskAdmission disk exposure config) = true <->
  valid_measurement disk exposure = true /\
  (used_pct disk >= maxUsedPct config)%js = false /\
  (free_bytes disk < requiredBytes exposure config)%js = false.
Proof.
  unfold evaluateDiskAdmission. destruct (valid_measurement disk exposure); cbn [negb];
    [|cbn; naive_solver].
  cbn [allowed]. unfold admissionReasons.
  rewrite fail_if_length0, andb_true_iff, !negb_true_iff. naive_solver.
Qed.

Lemma valid_measurement_active (disk : Disk) (exposure : DiskAdmissionExposure) :
  valid_measurement disk exposure = true ->
  PrimFloat.leb 0 (activeLocalReservedBytes exposure) = true.
Proof. unfold valid_measurement. rewrite !andb_true_iff. tauto. Qed.

Lemma exposure_configured (jobs queued : list LocalDiskJob) (config : DiskAdmissionConfig)
    (slots : option jsnum) (exposure : DiskAdmissionExposure) (idle : jsnum) :
  diskAdmissionExposureForJobs jobs config slots queued = Ok exposure ->
  idleLocalCpuSlots exposure = Some idle ->
  exists forecast, queuedDiskExposure queued idle (with_case_defaults config) = Ok forecast /\
    idleLocalReservedBytes exposure = Some (reservedBytes forecast).
Proof.
  unfold diskAdmissionExposureForJobs. destruct (activeExposure config jobs) as [b c].
  destruct (positive_integer slots) as [n|]; [|by intros [= <-]].
  rewrite bind_ok. intros (f & Hf & [= <-]). cbn. intros [= <-]. by exists f.
Qed.

(** C1. An admitted measurement leaves room for whatever is then started: when the
    decision over the local jobs and the queue admits, the storage is below the
    percentage limit, and the free bytes hold the system floor, the remaining
    growth of the active jobs and every batch of queued requests that fits the
    idle slots, all in exact integers. *)
Theorem admission_covers_batches (disk : Disk) (jobs queued : list LocalDiskJob)
    (config : DiskAdmissionConfig) (slots : option jsnum) (exposure : DiskAdmissionExposure)
    (idle : jsnum) (requests chosen : list Request) (floor active free : Z) :
  diskAdmissionExposureForJobs jobs config slots queued = Ok exposure ->
  idleLocalCpuSlots exposure = Some idle ->
  allowed (evaluateDiskAdmission disk exposure config) = true ->
  to_integer (minFreeBytes config) = Some floor -> 0 <= floor ->
  to_integer (activeLocalReservedBytes exposure) = Some active ->
  to_integer (free_bytes disk) = Some free ->
  requestsOf (with_case_defaults config) queued = Ok requests ->
  Z.of_nat (length queued) <= MAX_FORECAST_QUEUE_JOBS ->
  floor + active + total bytesZ requests + 16 * BigInt (idleSlotReserveBytes config)
    <= 2 ^ 53 - 1 ->
  submseteq chosen requests -> total slotsZ chosen <= BigInt idle ->
  (used_pct disk >= maxUsedPct config)%js = false /\
  floor + active + total bytesZ chosen <= free.
Proof.
  intros He Hi Ha If Hf0 Ia Ifr Hrs Hn Hx Hc Hfit.
  apply evaluate_allowed in Ha as (Hv & Hu & Hr). split; [done|].
  destruct (exposure_configured jobs queued config slots exposure idle He Hi) as (f & Hf & Hb).
  pose proof (valid_measurement_active disk exposure Hv) as Ha.
  rewrite (leb_integer _ _ _ _ to_integer_0 Ia), Z.leb_le in Ha.
  destruct (queuedDiskExposure_value queued idle (with_case_defaults config) requests Hrs Hn
    ltac:(cbn; lia) f Hf) as (Hwf & Hi0 & Hs1 & _ & Hres).
  destruct (forecast_sound queued idle (with_case_defaults config) requests f Hrs Hn
    ltac:(cbn; lia) Hf) as (Hcov & _ & Hup & _).
  specialize (Hcov chosen Hc Hfit). cbn [with_case_defaults idleSlotReserveBytes] in *.
  rewrite (BigInt_eq _ _ Hres) in Hcov, Hup.
  unfold requiredBytes in Hr. rewrite Hb in Hr. cbn [from_option id] in Hr.
  pose proof (greedy_bounds (sort byDensity requests) (BigInt idle) (sort_forall _ _ Hwf) Hi0).
  set (i := greedy _ _ + _) in *.
  pose proof (add_integer _ _ _ _ If Ia ltac:(lia)) as H1.
  assert (0 <= i) by (unfold i; nia).
  pose proof (add_integer _ _ _ _ H1 Hres ltac:(lia)) as H2.
  rewrite (ltb_integer _ _ _ _ Ifr H2), Z.ltb_ge in Hr. lia.
Qed.

(** ** The refresh fails closed *)

(** The disk a refresh measures: the engine's, or the local one when the engine
    call failed. *)
Definition measures (engineDisk : result Disk) (localStatfs : result Statfs) (disk : Disk) : Prop :=
  engineDisk = Ok disk \/
  (throws engineDisk = true /\ exists st, localStatfs = Ok st /\ disk = diskMeasurementFromStatfs st).

Lemma measuredDisk_spec (engineDisk : result Disk) (localStatfs : result Statfs) (m : Memory)
    (disk : Disk) :
  fst (fst (measuredDisk engineDisk localStatfs m)) = Ok disk <->
  measures engineDisk localStatfs disk.
Proof.
  unfold measuredDisk, measures. destruct engineDisk as [d|msg], localStatfs as [st|msg'];
    cbn; naive_solver.
Qed.

Lemma refreshDecision_allowed (measured : result Disk) (exposure : result DiskAdmissionExposure)
    (config : DiskAdmissionConfig) :
  allowed (refreshDecision measured exposure config) = true <->
  exists disk e, measured = Ok disk /\ exposure = Ok e /\
    allowed (evaluateDiskAdmission disk e config) = true.
Proof.
  unfold refreshDecision. destruct measured as [disk|m], exposure as [e|m'];
    cbn [bind_result]; naive_solver.
Qed.

Lemma evaluate_reason (disk : Disk) (e : DiskAdmissionExposure) (config : DiskAdmissionConfig) :
  allowed (evaluateDiskAdmission disk e config) = true <->
  reason (evaluateDiskAdmission disk e config) = None.
Proof.
  unfold evaluateDiskAdmission. destruct (valid_measurement disk e); cbn [negb]; [|done].
  cbn [allowed reason]. by destruct (Nat.eqb _ 0).
Qed.

Lemma refreshDecision_reason (measured : result Disk) (exposure : result DiskAdmissionExposure)
    (config : DiskAdmissionConfig) :
  allowed (refreshDecision measured exposure config) = true <->
  reason (refreshDecision measured exposure config) = None.
Proof.
  unfold refreshDecision. destruct measured as [disk|m], exposure as [e|m'];
    cbn [bind_result]; [apply evaluate_reason|done..].
Qed.

Lemma refreshDecision_unmeasured (measured : result Disk) (exposure : result DiskAdmissionExposure)
    (config : DiskAdmissionConfig) (t f : jsnum) :
  throws measured || throws exposure = true ->
  isDiskPressureEmergency (refreshDecision measured exposure config) t f = false.
Proof. unfold refreshDecision. by destruct measured, exposure. Qed.

(** C40. Storage admission fails closed: a refresh records an open gate exactly when
    the engine measured the disk, or it failed and the local volume did, the
    exposure of the jobs was loaded, and the decision over both admits; the row
    carries a reason exactly when the gate is closed, the returned decision is
    the recorded one and is returned exactly when the write succeeds; and a
    refresh without a measurement or an exposure is never an emergency. *)
Theorem refresh_fails_closed (env : Env) (engineDisk : result Disk) (localStatfs : result Statfs)
    (exposure : DiskAdmissionConfig -> result DiskAdmissionExposure)
    (dbUpdate : DiskRow -> result unit) (m : Memory) :
  let config := diskAdmissionConfigFromEnv env in
  let '(r, row, _, _) := refreshDiskAdmission env engineDisk localStatfs exposure dbUpdate m in
  (diskAdmissionBlocked row = false <->
     exists disk e, measures engineDisk localStatfs disk /\ exposure config = Ok e /\
       allowed (evaluateDiskAdmission disk e config) = true) /\
  (diskAdmissionBlocked row = false <-> diskAdmissionReason row = None) /\
  (throws r = throws (dbUpdate row)) /\
  (forall d, r = Ok d -> row = rowOf d /\
     ((forall disk, ~ measures engineDisk localStatfs disk) \/ throws (exposure config) = true ->
      forall t f, isDiskPressureEmergency d t f = false)).
Proof.
  intros config. unfold refreshDiskAdmission. fold config.
  pose proof (measuredDisk_spec engineDisk localStatfs m) as Hm.
  destruct (measuredDisk engineDisk localStatfs m) as [[measured m1] logs1]. cbn [fst] in Hm.
  set (d := refreshDecision measured (exposure config) config).
  assert (Hrow : diskAdmissionBlocked (rowOf d) = false <->
    exists disk e, measures engineDisk localStatfs disk /\ exposure config = Ok e /\
      allowed (evaluateDiskAdmission disk e config) = true).
  { cbn [rowOf diskAdmissionBlocked]. rewrite negb_false_iff. unfold d.
    rewrite refreshDecision_allowed. naive_solver. }
  assert (Hreason : diskAdmissionBlocked (rowOf d) = false <-> diskAdmissionReason (rowOf d) = None)
    by (cbn; rewrite negb_false_iff; apply refreshDecision_reason).
  assert (Hem : (forall disk, ~ measures engineDisk localStatfs disk) \/
      throws (exposure config) = true -> forall t f, isDiskPressureEmergency d t f = false).
  { intros H t f. apply refreshDecision_unmeasured, orb_true_iff.
    destruct H as [H|H]; [left|by right]. destruct measured as [disk|]; [|done].
    exfalso. by apply (H disk), Hm. }
  destruct (dbUpdate (rowOf d)) as [[]|msg] eqn:Ed.
  - destruct (logReason d m1) as [m2 logs2]. rewrite Ed. split_and!; [done..|].
    intros d' [= <-]. done.
  - rewrite Ed. split_and!; [done..|]. by intros d' [=].
Qed.

(** ** Cancellation releases stopped jobs only *)

Section Cancel.
Context (cancelJob : string -> CancelOutcome) (release : SimJobRow -> result bool).

(** The engine does not run the job: it has no engine id, its cancellation
    succeeded, or the engine does not know it. *)
Definition stopped (job : SimJobRow) : bool :=
  match engine_id job with
  | None => true
  | Some i => match engineStopped cancelJob i with None => true | Some _ => false end
  end.

Definition job_actions (job : SimJobRow) : list Action :=
  match engine_id job with Some i => [CancelJob i] | None => [] end ++
  if stopped job then [CancelJobAndReleaseClaims job DISK_PRESSURE_CANCELLATION_MARKER] else [].

Definition released (job : SimJobRow) : bool :=
  stopped job && match release job with Ok b => b | Throw _ => false end.

Definition release_fails (job : SimJobRow) (msg : string) : Prop :=
  stopped job = true /\ release job = Throw msg.

(** The outcome of the jobs from [n] releases and the actions [done_]. *)
Definition cancel_outcome (n : nat) (done_ : list Action) (jobs : list SimJobRow)
    (r : result nat) (acts : list Action) : Prop :=
  (r = Ok (n + length (List.filter released jobs))%nat /\
   acts = done_ ++ flat_map job_actions jobs) \/
  (exists before job after msg, jobs = before ++ job :: after /\ release_fails job msg /\
   r = Throw msg /\ acts = done_ ++ flat_map job_actions (before ++ [job])).

Lemma outcome_step (n : nat) (done_ acts : list Action) (job : SimJobRow) (jobs : list SimJobRow)
    (r : result nat) :
  cancel_outcome (n + if released job then 1 else 0) (done_ ++ job_actions job) jobs r acts ->
  cancel_outcome n done_ (job :: jobs) r acts.
Proof.
  intros [[-> ->]|(b & j & a & msg & -> & Hf & -> & ->)]; [left|right].
  - cbn [flat_map List.filter]. rewrite <- app_assoc. split; [|reflexivity].
    f_equal. destruct (released job); cbn [length]; lia.
  - exists (job :: b), j, a, msg. cbn [app flat_map]. by rewrite <- app_assoc.
Qed.

Lemma cancelLoop_step (job : SimJobRow) (jobs : list SimJobRow) (run : CancelRun) :
  let acts := actions run ++ job_actions job in
  if stopped job then
    match release job with
    | Throw msg => cancelLoop cancelJob release (job :: jobs) run = (Throw msg, acts, logs run)
    | Ok b => cancelLoop cancelJob release (job :: jobs) run =
        cancelLoop cancelJob release jobs
          {| cancelled := cancelled run + if b then 1 else 0; actions := acts; logs := logs run |}
    end
  else exists ls, cancelLoop cancelJob release (job :: jobs) run =
    cancelLoop cancelJob release jobs
      {| cancelled := cancelled run; actions := acts; logs := ls |}.
Proof.
  unfold job_actions, stopped. cbn [cancelLoop].
  destruct (engine_id job) as [i|]; [destruct (engineStopped cancelJob i) as [e|]|];
    cbn [app]; [by eexists| |]; rewrite <- ?app_assoc; cbn [app];
    (destruct (release job) as [[]|]; rewrite ?Nat.add_0_r, ?Nat.add_1_r; reflexivity).
Qed.

Lemma cancelLoop_spec (jobs : list SimJobRow) : forall run r acts ls,
  cancelLoop cancelJob release jobs run = (r, acts, ls) ->
  cancel_outcome (cancelled run) (actions run) jobs r acts.
Proof.
  induction jobs as [|job jobs IH]; intros run r acts ls.
  - intros [= <- <- <-]. left. cbn. by rewrite app_nil_r, Nat.add_0_r.
  - pose proof (cancelLoop_step job jobs run) as Hs. cbn zeta in Hs.
    assert (Hrel : released job = stopped job && match release job with Ok b => b | _ => false end)
      by done.
    destruct (stopped job) eqn:Est; [destruct (release job) as [b|msg] eqn:Er|].
    + rewrite Hs. intros H%IH. apply outcome_step. by rewrite Hrel.
    + rewrite Hs. intros [= <- <- <-]. right. exists [], job, jobs, msg. cbn.
      by rewrite app_nil_r.
    + destruct Hs as [ls' ->]. intros H%IH. apply outcome_step. by rewrite Hrel, Nat.add_0_r.
Qed.
End Cancel.

(** Under storage pressure every selected job is asked to stop, in order, and
    exactly the jobs the engine does not run any more (never sent, cancelled, or
    unknown to it) have their claims released, with the disposable marker; the
    result counts the releases that took effect, and the exception of a release
    is passed on with the later jobs untouched. *)
Theorem cancel_releases_stopped (cancelJob : string -> CancelOutcome)
    (release : SimJobRow -> result bool) (jobs : list SimJobRow) :
  let '(r, acts, _) := cancelDisposableJobsForDiskPressure cancelJob release jobs in
  (r = Ok (length (List.filter (released cancelJob release) jobs)) /\
   acts = flat_map (job_actions cancelJob) jobs) \/
  (exists before job after msg, jobs = before ++ job :: after /\
   release_fails cancelJob release job msg /\
   r = Throw msg /\ acts = flat_map (job_actions cancelJob) (before ++ [job])).
Proof.
  unfold cancelDisposableJobsForDiskPressure.
  destruct (cancelLoop cancelJob release jobs _) as [[r acts] ls] eqn:E.
  apply cancelLoop_spec in E. cbn [cancelled actions app] in E. by destruct r as [[]|].
Qed.

(** ** Samples *)

Definition no_env : Env := fun _ => None.

Example config_defaults :
  diskAdmissionConfigFromEnv no_env = default_config /\
  maxUsedPct (diskAdmissionConfigFromEnv
    (fun n => if String.eqb n "SWEEPER_DISK_MAX_USED_PCT" then Some "120" else None)) = 95%float /\
  configuredDiskCapacitySlots (Some (None, Some 6%float)) no_env = 6%float /\
  configuredDiskCapacitySlots None no_env = 2%float.
Proof. vm_compute. repeat split. Qed.

Definition precalc_job : LocalDiskJob := {|
  totalCases := 2; completedCases := 1; requestPayload := JObj [("uransFidelity", JStr "precalc")];
  admissionCpuSlots := Some 3%float |}.

Definition sample_exposure : DiskAdmissionExposure := {|
  activeLocalJobCount := 1; activeLocalReservedBytes := 1610612736;
  configuredLocalCpuSlots := Some 7%float; activeLocalCpuSlots := Some 3%float;
  idleLocalCpuSlots := Some 4%float; idleLocalReservedBytes := Some 64871901867%float |}.

Definition sample_disk : Disk := {|
  total_bytes := 536870912000; free_bytes := 107374182400; used_pct := 80 |}.
Definition full_disk : Disk := {|
  total_bytes := 536870912000; free_bytes := 85899345920; used_pct := 95.1 |}.

Example sample_decisions :
  diskAdmissionExposureForJobs [precalc_job] default_config (Some 7%float) sample_jobs
    = Ok sample_exposure /\
  requestsOf (with_case_defaults default_config) sample_jobs = Ok sample_requests /\
  allowed (evaluateDiskAdmission sample_disk sample_exposure default_config) = true /\
  reason (evaluateDiskAdmission full_disk sample_exposure default_config)
    = Some ("Storage admission stopped: 95.1% used (admission limit 95.0%); 80.0 GiB free; "
        +:+ "81.9 GiB required (20.0 GiB system floor + 1.5 GiB remaining local work across 1 job "
        +:+ "+ 60.4 GiB for 4 idle of 7 configured CPU slots). Existing jobs may reconcile and "
        +:+ "ingest, but no new solver job will be submitted.").
Proof. vm_compute. repeat split. Qed.

Example sample_cancel :
  cancelDisposableJobsForDiskPressure
    (fun i => if String.eqb i "e1" then EngineErrorStatus 404 "gone" else OtherError "down")
    (fun _ => Ok true)
    [{| jobId := "a"; engineJobId := Some "e1" |}; {| jobId := "b"; engineJobId := Some "e2" |};
     {| jobId := "c"; engineJobId := None |}]
  = (Ok 2%nat,
     [CancelJob "e1";
      CancelJobAndReleaseClaims {| jobId := "a"; engineJobId := Some "e1" |}
        DISK_PRESSURE_CANCELLATION_MARKER;
      CancelJob "e2";
      CancelJobAndReleaseClaims {| jobId := "c"; engineJobId := None |}
        DISK_PRESSURE_CANCELLATION_MARKER],
     [LogError "[sweeper] DISK EMERGENCY: engine cancellation failed for e2: down";
      LogWarn "[sweeper] DISK EMERGENCY: cancelled 2 disposable job(s); their points were released for restart"]).
Proof. vm_compute. reflexivity. Qed.

Lemma sample_integers :
  to_integer (minFreeBytes default_config) = Some 21474836480 /\
  to_integer (activeLocalReservedBytes sample_exposure) = Some 1610612736 /\
  to_integer (free_bytes sample_disk) = Some 107374182400.
Proof. vm_compute. repeat split. Qed.

Lemma sample_fits :
  21474836480 + 1610612736 + total bytesZ sample_requests
    + 16 * BigInt (idleSlotReserveBytes default_config) <= 2 ^ 53 - 1 /\
  total slotsZ [{| slots := 2; bytes := 64424509440 |}] <= BigInt 4.
Proof. vm_compute. split; discriminate. Qed.

Lemma admission_covers_batches_witness :
  allowed (evaluateDiskAdmission sample_disk sample_exposure default_config) = true /\
  21474836480 + 1610612736 + total bytesZ [{| slots := 2; bytes := 64424509440 |}]
    <= 107374182400.
Proof.
  destruct sample_decisions as (He & Hr & Ha & _).
  destruct sample_integers as (I1 & I2 & I3), sample_fits as [F1 F2].
  assert (Hn : Z.of_nat (length sample_jobs) <= MAX_FORECAST_QUEUE_JOBS)
    by (vm_compute; discriminate).
  assert (H0 : 0 <= 21474836480) by lia.
  assert (Hc : submseteq [{| slots := 2; bytes := 64424509440 |}] sample_requests)
    by (apply submseteq_cons; apply submseteq_skip, submseteq_nil_l).
  split; [exact Ha|].
  exact (proj2 (admission_covers_batches sample_disk [precalc_job] sample_jobs default_config
    (Some 7%float) sample_exposure 4 sample_requests [{| slots := 2; bytes := 64424509440 |}]
    21474836480 1610612736 107374182400 He eq_refl Ha I1 H0 I2 I3 Hr Hn F1 Hc F2)).
Defined.
