(* ===== verification/NotificationDrain.v ===== *)
(** * The notification-driven drain loop

    [apps/sweeper/src/notification-drain.ts]: one asynchronous function that
    drains work when the database notifies it, when a poll or a retry timer
    fires, and at start-up.  The function runs between its [await]s; a state is
    what it holds at an [await] ([phase] says which), and an event is what can
    happen there: the awaited promise settles, a listener or timer callback
    runs, the clock advances.  Events interleave in any order that the state
    allows.  The drain, the deadline query and the subscription are arguments:
    their outcomes are parts of the events.  Times are integer milliseconds of
    [Date.now()], which does not run backwards, and a timer fires at or after
    its deadline. *)

From Stdlib Require Import ZArith Lia Bool.
From stdpp Require Import base list strings option numbers.
From S2P Require Import Prelude.

Local Open Scope list_scope.
Local Open Scope Z_scope.

(** The [await] the function is at. *)
Inductive phase :=
  | Listening      (* notifications.listen *)
  | Waiting        (* the wake promise, unresolved *)
  | Resumed        (* the wake promise, resolved *)
  | Draining       (* options.drain *)
  | AskingDeadline (* options.nextWakeAt *)
  | Unlistening    (* subscription.unlisten, in the finally block *)
  | Finished.

#[export] Instance phase_eq_dec : EqDecision phase.
Proof. solve_decision. Defined.

(** The result of [options.nextWakeAt]. *)
Inductive deadline := NoDeadline | At (time : Z) | InvalidDate.

Record options := {
  has_nextWakeAt : bool;
  pollIntervalMs : Z; (* 0 when absent *)
}.

(** The variables of the call; [retry] is the deadline of the armed retry timer.
    [owed] is not in the code: work was notified, returned by a drain or failed
    since the last drain started. *)
Record state := {
  at_ : phase;
  now : Z;
  aborted : bool;
  pending : bool;
  retry : option Z;
  poll : bool;
  retryNotBefore : Z;
  subscribed : bool;
  abortListener : bool;
  drains : nat;
  reported : nat;
  failed : bool;
  owed : bool;
}.

Definition set_phase (p : phase) (s : state) : state := {|
  at_ := p; now := now s; aborted := aborted s; pending := pending s; retry := retry s;
  poll := poll s; retryNotBefore := retryNotBefore s; subscribed := subscribed s;
  abortListener := abortListener s; drains := drains s; reported := reported s;
  failed := failed s; owed := owed s |}.

(** [pending = b], and whether work is owed. *)
Definition set_pending (b o : bool) (s : state) : state := {|
  at_ := at_ s; now := now s; aborted := aborted s; pending := b; retry := retry s;
  poll := poll s; retryNotBefore := retryNotBefore s; subscribed := subscribed s;
  abortListener := abortListener s; drains := drains s; reported := reported s;
  failed := failed s; owed := o |}.

Definition set_retry (r : option Z) (notBefore : Z) (s : state) : state := {|
  at_ := at_ s; now := now s; aborted := aborted s; pending := pending s; retry := r;
  poll := poll s; retryNotBefore := notBefore; subscribed := subscribed s;
  abortListener := abortListener s; drains := drains s; reported := reported s;
  failed := failed s; owed := owed s |}.

Definition set_clock (t : Z) (ab : bool) (s : state) : state := {|
  at_ := at_ s; now := t; aborted := ab; pending := pending s; retry := retry s;
  poll := poll s; retryNotBefore := retryNotBefore s; subscribed := subscribed s;
  abortListener := abortListener s; drains := drains s; reported := reported s;
  failed := failed s; owed := owed s |}.

Definition set_subscribed (b p : bool) (s : state) : state := {|
  at_ := at_ s; now := now s; aborted := aborted s; pending := pending s; retry := retry s;
  poll := p; retryNotBefore := retryNotBefore s; subscribed := b;
  abortListener := abortListener s; drains := drains s; reported := reported s;
  failed := failed s; owed := owed s |}.

(** [notify]: mark work pending and wake the loop, unless it is backing off. *)
Definition notify (s : state) : state :=
  let s := set_pending true true s in
  if aborted s || (retryNotBefore s <=? now s) then
    match at_ s with Waiting => set_phase Resumed s | _ => s end
  else s.

(** The [finally] block up to [await unlisten?.()]. *)
Definition finish (err : bool) (s : state) : state := {|
  at_ := if subscribed s then Unlistening else Finished; now := now s; aborted := aborted s;
  pending := pending s; retry := None; poll := false; retryNotBefore := retryNotBefore s;
  subscribed := subscribed s; abortListener := false; drains := drains s;
  reported := reported s; failed := err; owed := owed s |}.

(** From [wake = null] to [await options.drain()]. *)
Definition startDrain (s : state) : state :=
  let s := set_retry None 0 (set_pending false (owed s) s) in
  if aborted s then finish false s
  else {| at_ := Draining; now := now s; aborted := aborted s; pending := pending s;
          retry := retry s; poll := poll s; retryNotBefore := retryNotBefore s;
          subscribed := subscribed s; abortListener := abortListener s;
          drains := S (drains s); reported := reported s; failed := failed s; owed := false |}.

(** [while (!signal.aborted)] and the wait at its top. *)
Definition loopTop (s : state) : state :=
  if aborted s then finish false s
  else if negb (pending s) || (now s <? retryNotBefore s) then
    if (pending s && (retryNotBefore s <=? now s)) || aborted s then set_phase Resumed s
    else set_phase Waiting s
  else startDrain s.

(** The [catch] of one round. *)
Definition drainFailed (s : state) : state :=
  let s := {| at_ := at_ s; now := now s; aborted := aborted s; pending := pending s;
              retry := retry s; poll := poll s; retryNotBefore := retryNotBefore s;
              subscribed := subscribed s; abortListener := abortListener s;
              drains := drains s; reported := S (reported s); failed := failed s;
              owed := true |} in
  loopTop (if aborted s then s
           else set_retry (Some (now s + 100)) (now s + 100) (set_pending false (owed s) s)).

Definition drainReturned (o : options) (more : bool) (s : state) : state :=
  if more then loopTop (set_pending true true s)
  else if has_nextWakeAt o && negb (aborted s) then set_phase AskingDeadline s
  else loopTop s.

Definition deadlineReturned (d : deadline) (s : state) : state :=
  match d with
  | NoDeadline => loopTop s
  | At _ | InvalidDate =>
      if negb (aborted s) && negb (pending s) then
        match d with
        | At t => loopTop (set_retry (Some (now s + Z.min 2147483647 (Z.max 0 (t - now s))))
                             (retryNotBefore s) s)
        | _ => drainFailed s
        end
      else loopTop s
  end.

(** The call up to its first [await]; [None] when it returns at once. *)
Definition start (ab : bool) (t : Z) : state := {|
  at_ := if ab then Finished else Listening; now := t; aborted := ab; pending := true;
  retry := None; poll := false; retryNotBefore := 0; subscribed := false;
  abortListener := negb ab; drains := 0; reported := 0; failed := false; owed := true |}.

Inductive event :=
  | Listened | ListenFailed            (* the subscription promise settles *)
  | Notified                           (* a notification, or the subscription's start *)
  | PollFires
  | RetryFires
  | Abort
  | Tick (d : Z)                       (* the clock advances *)
  | Resume                             (* the continuation of the wake promise *)
  | DrainReturned (more : bool) | DrainThrew
  | DeadlineReturned (d : deadline) | DeadlineThrew
  | Unlistened.

(** One event, when the state allows it. *)
Definition step (o : options) (s : state) (e : event) : option state :=
  match e, at_ s with
  | Listened, Listening =>
      Some (loopTop (set_subscribed true (0 <? pollIntervalMs o) s))
  | ListenFailed, Listening => Some (finish true s)
  | Notified, _ => if subscribed s || bool_decide (at_ s = Listening) then Some (notify s) else None
  | PollFires, _ => if poll s then Some (notify s) else None
  | RetryFires, _ =>
      match retry s with
      | Some t => if t <=? now s then Some (notify (set_retry None (retryNotBefore s) s)) else None
      | None => None
      end
  | Abort, _ =>
      if aborted s then None
      else let s := set_clock (now s) true s in
           Some (if abortListener s then notify s else s)
  | Tick d, _ => if 0 <=? d then Some (set_clock (now s + d) (aborted s) s) else None
  | Resume, Resumed => Some (startDrain s)
  | DrainReturned more, Draining => Some (drainReturned o more s)
  | DrainThrew, Draining => Some (drainFailed s)
  | DeadlineReturned d, AskingDeadline => Some (deadlineReturned d s)
  | DeadlineThrew, AskingDeadline => Some (drainFailed s)
  | Unlistened, Unlistening => Some (set_phase Finished (set_subscribed false false s))
  | _, _ => None
  end.

Fixpoint run (o : options) (s : state) (es : list event) : option state :=
  match es with
  | [] => Some s
  | e :: es' => match step o s e with Some s' => run o s' es' | None => None end
  end.

(** ** The invariant *)

(** What holds at each [await]. *)
Record waiting_inv (s : state) : Prop := {
  wait_abort : aborted s = false;
  wait_owed : owed s = true \/ pending s = true -> retry s <> None;
  wait_backoff : now s < retryNotBefore s -> owed s = true /\ retry s <> None;
  wait_timer : forall t, retry s = Some t -> retryNotBefore s <= t;
}.

Definition phase_inv (s : state) : Prop :=
  match at_ s with
  | Listening => pending s = true /\ retry s = None /\ retryNotBefore s = 0 /\
                 subscribed s = false /\ poll s = false /\ abortListener s = true
  | Waiting => waiting_inv s /\ subscribed s = true /\ abortListener s = true
  | Resumed => subscribed s = true /\ abortListener s = true
  | Draining | AskingDeadline =>
      retry s = None /\ retryNotBefore s = 0 /\ (owed s = true -> pending s = true) /\
      subscribed s = true /\ abortListener s = true
  | Unlistening => retry s = None /\ poll s = false /\ abortListener s = false
  | Finished => retry s = None /\ poll s = false /\ abortListener s = false /\
                subscribed s = false
  end.

Definition inv (s : state) : Prop := 0 <= now s /\ phase_inv s.

Lemma finish_inv (err : bool) (s : state) : 0 <= now s -> inv (finish err s).
Proof. intros H. split; [done|]. unfold phase_inv. cbn. by destruct (subscribed s). Qed.

Lemma startDrain_inv (s : state) :
  0 <= now s -> subscribed s = true -> abortListener s = true -> inv (startDrain s).
Proof.
  intros H Hs Ha. unfold startDrain. cbn. destruct (aborted s); [by apply finish_inv|].
  by split.
Qed.

Lemma loopTop_aborted (s : state) : aborted s = true -> loopTop s = finish false s.
Proof. unfold loopTop. by intros ->. Qed.

(** The state at the top of the loop. *)
Lemma loopTop_inv (s : state) :
  0 <= now s -> subscribed s = true -> abortListener s = true ->
  (owed s = true -> pending s = true \/ retry s <> None) ->
  (now s < retryNotBefore s -> owed s = true /\ retry s <> None) ->
  (forall t, retry s = Some t -> retryNotBefore s <= t) ->
  inv (loopTop s).
Proof.
  intros H Hs Ha Ho Hb Ht. unfold loopTop.
  destruct (aborted s) eqn:Eab; [by apply finish_inv|]. rewrite orb_false_r.
  destruct (Z.ltb_spec (now s) (retryNotBefore s)) as [Hlt|Hge].
  - rewrite (proj2 (Z.leb_gt _ _)), orb_true_r, andb_false_r by done.
    destruct (Hb Hlt) as [Hob Hr]. by split.
  - rewrite (proj2 (Z.leb_le _ _)), orb_false_r, andb_true_r by done.
    destruct (pending s) eqn:Ep; cbn [negb]; [by apply startDrain_inv|].
    split; [done|]. split; [|done]. constructor; cbn; [done| |lia|done].
    intros [Hx|Hx]; [|congruence]. destruct (Ho Hx) as [?|?]; [congruence|done].
Qed.

Lemma notify_inv (s : state) : inv s -> inv (notify s).
Proof.
  intros [H Hp]. unfold notify. cbn.
  destruct (aborted s || (retryNotBefore s <=? now s)) eqn:E.
  - unfold phase_inv in Hp. destruct (at_ s) eqn:Ea; split; try done; unfold phase_inv; cbn;
      rewrite ?Ea; naive_solver.
  - apply orb_false_iff in E as [Eab Elt%Z.leb_gt]. split; [done|].
    unfold phase_inv in *. cbn. destruct (at_ s); try naive_solver lia.
    destruct Hp as [[? Hw Hb Ht] Hrest]. split; [|done].
    constructor; cbn; [done| |naive_solver|done]. intros _. by apply Hb.
Qed.

Lemma drainFailed_inv (s : state) :
  0 <= now s -> subscribed s = true -> abortListener s = true -> retry s = None ->
  retryNotBefore s = 0 -> inv (drainFailed s).
Proof.
  intros H Hs Ha Hr Hb. unfold drainFailed. cbn.
  destruct (aborted s) eqn:Eab.
  - rewrite loopTop_aborted by done. by apply finish_inv.
  - apply loopTop_inv; cbn; try done; [by right|]. by intros t [= <-].
Qed.

Lemma start_inv (ab : bool) (t : Z) : 0 <= t -> inv (start ab t).
Proof. intros H. by destruct ab. Qed.

Lemma deadlineReturned_inv (d : deadline) (s : state) :
  inv s -> at_ s = AskingDeadline -> inv (deadlineReturned d s).
Proof.
  intros [H Hp] Ea. unfold phase_inv in Hp. rewrite Ea in Hp.
  destruct Hp as (Hr & Hb & Ho & Hs & Hl).
  assert (Htop : inv (loopTop s)).
  { apply loopTop_inv; try done; [naive_solver|lia|]. rewrite Hr. by intros t [=]. }
  unfold deadlineReturned. destruct d as [|t|]; [done| |];
    destruct (negb (aborted s) && negb (pending s)) eqn:E; try done;
    [|by apply drainFailed_inv].
  apply andb_true_iff in E as [_ E%negb_true_iff].
  apply loopTop_inv; cbn; try done; [by right|rewrite Hb; lia|].
  intros t' [= <-]. rewrite Hb. lia.
Qed.

Lemma drainReturned_inv (o : options) (more : bool) (s : state) :
  inv s -> at_ s = Draining -> inv (drainReturned o more s).
Proof.
  intros [H Hp] Ea. unfold phase_inv in Hp. rewrite Ea in Hp.
  destruct Hp as (Hr & Hb & Ho & Hs & Hl). unfold drainReturned.
  destruct more; [|destruct (has_nextWakeAt o && negb (aborted s))].
  - apply loopTop_inv; cbn; try done; [by left|rewrite Hb; lia|rewrite Hr; by intros t [=]].
  - by split.
  - apply loopTop_inv; try done; [naive_solver|lia|rewrite Hr; by intros t [=]].
Qed.

(** An armed timer that fires wakes a waiting loop. *)
Lemma retry_fires (s : state) (t : Z) :
  inv s -> retry s = Some t -> t <= now s ->
  inv (notify (set_retry None (retryNotBefore s) s)) /\
  (at_ s = Waiting -> at_ (notify (set_retry None (retryNotBefore s) s)) = Resumed).
Proof.
  intros [H Hp] Hr Ht. unfold notify. cbn. unfold phase_inv in Hp.
  destruct (at_ s) eqn:Ea; rewrite ?Hr in Hp; try naive_solver.
  - destruct Hp as [[Hab _ _ Htm] [Hs Hl]]. specialize (Htm t Hr).
    rewrite (proj2 (Z.leb_le _ _)), orb_true_r by lia. by repeat split.
  - destruct (aborted s || _); (split; [|done]); split; try done;
      unfold phase_inv; cbn; by rewrite Ea.
Qed.

(** A change of the clock or of the abort flag alone, outside the wait. *)
Lemma clock_inv (s : state) (t : Z) (ab : bool) :
  inv s -> now s <= t -> (at_ s = Waiting -> ab = false) -> inv (set_clock t ab s).
Proof.
  intros [H Hp] Ht Hw. split; [cbn; lia|]. unfold phase_inv in *. cbn.
  destruct (at_ s); try done. destruct Hp as [[? ? Hb ?] ?]. split; [|done].
  constructor; cbn; [auto|done| |done]. intros ?. apply Hb. lia.
Qed.

(** The abort event reaches the listener and ends the wait. *)
Lemma abort_inv (s : state) :
  inv s ->
  inv (if abortListener s then notify (set_clock (now s) true s) else set_clock (now s) true s).
Proof.
  intros [H Hp]. pose proof Hp as Hp'. unfold phase_inv in Hp.
  destruct (decide (at_ s = Waiting)) as [Ea|Ea].
  - rewrite Ea in Hp. destruct Hp as (_ & Hs & Hl). rewrite Hl. unfold notify. cbn. rewrite Ea.
    split; [exact H|]. by split.
  - assert (inv (set_clock (now s) true s)) by (apply clock_inv; [by split|lia|done]).
    destruct (abortListener s); [by apply notify_inv|done].
Qed.

Lemma drain_step_inv (o : options) (s s' : state) (e : event) : inv s -> step o s e = Some s' -> inv s'.
Proof.
  intros Hi. pose proof Hi as [H Hp]. unfold phase_inv in Hp. unfold step.
  destruct e; try (destruct (at_ s) eqn:Ea; [..|]; try done; intros [= <-]).
  - destruct Hp as (Hpe & Hr & Hb & Hs & Hl & Ha). apply loopTop_inv; cbn; try done;
      [by left|rewrite Hb; lia|rewrite Hr; by intros t [=]].
  - by apply finish_inv.
  - destruct (_ || _); [|done]. intros [= <-]. by apply notify_inv.
  - destruct (poll s); [|done]. intros [= <-]. by apply notify_inv.
  - destruct (retry s) as [t|] eqn:Er; [|done]. destruct (Z.leb_spec t (now s)); [|done].
    intros [= <-]. by apply (retry_fires s t).
  - destruct (aborted s); [done|]. intros [= <-]. by apply abort_inv.
  - destruct (Z.leb_spec 0 d); [|done]. intros [= <-]. apply clock_inv; [done|lia|].
    intros Ea. rewrite Ea in Hp. by destruct Hp as [[? _ _ _] _].
  - destruct Hp. by apply startDrain_inv.
  - by apply drainReturned_inv.
  - destruct Hp as (? & ? & ? & ? & ?). by apply drainFailed_inv.
  - by apply deadlineReturned_inv.
  - destruct Hp as (? & ? & ? & ? & ?). by apply drainFailed_inv.
  - destruct Hp as (? & ? & ?). by split.
Qed.

Lemma drain_run_inv (o : options) (es : list event) : forall s s', inv s -> run o s es = Some s' -> inv s'.
Proof.
  induction es as [|e es IH]; intros s s' Hi; cbn [run]; [by intros [= <-]|].
  destruct (step o s e) as [s1|] eqn:E; [|done]. apply IH. by eapply drain_step_inv.
Qed.

(** ** No lost wake-up *)

Definition reachable (o : options) (s : state) : Prop :=
  exists t es, 0 <= t /\ run o (start false t) es = Some s.

Lemma reachable_inv (o : options) (s : state) : reachable o s -> inv s.
Proof. intros (t & es & Ht & Hr). eapply drain_run_inv; [|exact Hr]. by apply start_inv. Qed.

(** Waking a waiting loop starts a drain. *)
Lemma resumed_drains (o : options) (s : state) :
  at_ s = Resumed -> aborted s = false ->
  exists s', step o s Resume = Some s' /\ at_ s' = Draining /\ drains s' = S (drains s).
Proof.
  intros Ea Hab. unfold step. rewrite Ea. unfold startDrain. cbn. rewrite Hab.
  eexists. split; [reflexivity|]. done.
Qed.

(** C4. No wake-up is lost, in any interleaving: whenever the loop sleeps, it is not
    aborted; with no work owed, the next notification or poll starts a drain;
    and with work owed (notified during the back-off, or a failed drain), a
    retry timer is armed whose firing, at any time from its deadline on, starts a
    drain.  While a drain or a deadline query runs, owed work is marked pending,
    so the loop drains again without sleeping. *)
Theorem no_lost_wakeup (o : options) (s : state) :
  reachable o s ->
  (at_ s = Waiting ->
     aborted s = false /\
     (owed s = false ->
        exists s', run o s [Notified; Resume] = Some s' /\ at_ s' = Draining /\
          drains s' = S (drains s)) /\
     (owed s = true ->
        exists t, retry s = Some t /\ forall d, 0 <= d -> t <= now s + d ->
          exists s', run o s [Tick d; RetryFires; Resume] = Some s' /\ at_ s' = Draining /\
            drains s' = S (drains s))) /\
  (at_ s = Draining \/ at_ s = AskingDeadline -> owed s = true -> pending s = true) /\
  (at_ s = Resumed -> aborted s = false ->
     exists s', step o s Resume = Some s' /\ at_ s' = Draining).
Proof.
  intros Hi%reachable_inv. pose proof Hi as [H Hp]. unfold phase_inv in Hp. split_and!.
  - intros Ea. rewrite Ea in Hp. destruct Hp as [[Hab Ho Hb Ht] [Hs Hl]].
    split; [done|]. split.
    + intros How. cbn [run step]. rewrite Hs. cbn [orb]. unfold notify. cbn.
      assert (retryNotBefore s <= now s).
      { destruct (Z.le_gt_cases (retryNotBefore s) (now s)); [done|].
        destruct (Hb ltac:(lia)). congruence. }
      rewrite (proj2 (Z.leb_le _ _)), orb_true_r, Ea by done. unfold startDrain. cbn. rewrite Hab.
      eexists. split; [reflexivity|]. done.
    + intros How. destruct (retry s) as [t|] eqn:Er; [|by destruct Ho; auto].
      exists t. split; [done|]. intros d Hd Htd. cbn [run step].
      rewrite (proj2 (Z.leb_le _ _)) by done. cbn. rewrite Er, (proj2 (Z.leb_le _ _)) by done.
      unfold notify. cbn. specialize (Ht t eq_refl).
      rewrite (proj2 (Z.leb_le _ _)), orb_true_r, Ea by lia. unfold startDrain. cbn. rewrite Hab.
      eexists. split; [reflexivity|]. done.
  - intros [Ea|Ea]; rewrite Ea in Hp; tauto.
  - intros Ea Hab. destruct (resumed_drains o s Ea Hab) as (s' & ? & ? & _). eauto.
Qed.

Definition plain : options := {| has_nextWakeAt := false; pollIntervalMs := 0 |}.

(** A notification that arrives during the back-off after a failed drain. *)
Definition backing_off : state :=
  default (start false 0) (run plain (start false 1000) [Listened; DrainThrew; Tick 40; Notified]).

Lemma no_lost_wakeup_witness :
  at_ backing_off = Waiting /\ owed backing_off = true /\ retry backing_off = Some 1100 /\
  exists t, retry backing_off = Some t /\ forall d, 0 <= d -> t <= now backing_off + d ->
    exists s', run plain backing_off [Tick d; RetryFires; Resume] = Some s' /\
      at_ s' = Draining /\ drains s' = S (drains backing_off).
Proof.
  assert (Hr : reachable plain backing_off).
  { exists 1000, [Listened; DrainThrew; Tick 40; Notified]. split; [lia|vm_compute; reflexivity]. }
  split; [vm_compute; reflexivity|]. split; [vm_compute; reflexivity|]. split; [vm_compute; reflexivity|].
  assert (Ha : at_ backing_off = Waiting) by (vm_compute; reflexivity).
  assert (Ho : owed backing_off = true) by (vm_compute; reflexivity).
  exact (proj2 (proj2 (proj1 (no_lost_wakeup plain backing_off Hr) Ha)) Ho).
Defined.

(** ** Abort *)

Lemma finish_quiet (err : bool) (s : state) :
  drains (finish err s) = drains s /\ aborted (finish err s) = aborted s.
Proof. done. Qed.

(** Nothing is drained after the abort, and the [await] it meets is the last. *)
Lemma aborted_step (o : options) (s s' : state) (e : event) :
  aborted s = true -> step o s e = Some s' -> aborted s' = true /\ drains s' = drains s.
Proof.
  intros Hab. assert (Hn : forall x, aborted x = true -> drains x = drains s ->
    aborted (notify x) = true /\ drains (notify x) = drains s).
  { intros x Hx Hd. unfold notify. cbn. destruct (_ || _); [destruct (at_ x)|]; done. }
  unfold step. destruct e;
    try (destruct (at_ s); [..|]; try done; intros [= <-]).
  - by rewrite loopTop_aborted.
  - done.
  - destruct (_ || _); [|done]. intros [= <-]. by apply Hn.
  - destruct (poll s); [|done]. intros [= <-]. by apply Hn.
  - destruct (retry s); [|done]. destruct (_ <=? _); [|done]. intros [= <-]. by apply Hn.
  - by rewrite Hab.
  - destruct (0 <=? d); [|done]. by intros [= <-].
  - unfold startDrain. cbn. by rewrite Hab.
  - unfold drainReturned. rewrite Hab, andb_false_r. by destruct more; rewrite loopTop_aborted.
  - unfold drainFailed. cbn. rewrite Hab. by rewrite loopTop_aborted.
  - unfold deadlineReturned. rewrite Hab. destruct d; cbn [negb andb]; by rewrite loopTop_aborted.
  - unfold drainFailed. cbn. rewrite Hab. by rewrite loopTop_aborted.
  - done.
Qed.

Lemma aborted_run (o : options) (es : list event) : forall s s',
  aborted s = true -> run o s es = Some s' -> drains s' = drains s.
Proof.
  induction es as [|e es IH]; intros s s' Hab; cbn [run]; [by intros [= <-]|].
  destruct (step o s e) as [s1|] eqn:E; [|done]. intros Hr.
  destruct (aborted_step o s s1 e Hab E) as [Ha <-]. by eapply IH.
Qed.

(** The settlement of the promise that the function awaits. *)
Definition settles (e : event) : bool :=
  match e with
  | Listened | ListenFailed | Resume | DrainReturned _ | DrainThrew | DeadlineReturned _
  | DeadlineThrew | Unlistened => true
  | _ => false
  end.

Lemma aborted_settles (o : options) (s s' : state) (e : event) :
  aborted s = true -> settles e = true -> step o s e = Some s' ->
  at_ s' = Unlistening \/ at_ s' = Finished.
Proof.
  intros Hab He. assert (Hf : forall err x, at_ (finish err x) = Unlistening \/
    at_ (finish err x) = Finished) by (intros err x; cbn; destruct (subscribed x); auto).
  unfold step. destruct e; try done; destruct (at_ s); try done; intros [= <-].
  - rewrite loopTop_aborted by done. apply Hf.
  - apply Hf.
  - unfold startDrain. cbn. rewrite Hab. apply Hf.
  - unfold drainReturned. rewrite Hab, andb_false_r.
    destruct more; rewrite loopTop_aborted by done; apply Hf.
  - unfold drainFailed. cbn. rewrite Hab, loopTop_aborted by done. apply Hf.
  - unfold deadlineReturned. rewrite Hab. destruct d; cbn [negb andb]; rewrite loopTop_aborted by done; apply Hf.
  - unfold drainFailed. cbn. rewrite Hab, loopTop_aborted by done. apply Hf.
  - by right.
Qed.

(** After the abort signal no drain starts, in any continuation; the loop does
    not sleep, and the promise it awaits is the last one before it releases the
    subscription; a finished call holds no subscription, timer, poll or abort
    listener. *)
Theorem abort_stops (o : options) (s : state) :
  reachable o s ->
  (aborted s = true ->
     at_ s <> Waiting /\
     (forall es s', run o s es = Some s' -> drains s' = drains s) /\
     (forall e s', settles e = true -> step o s e = Some s' ->
        at_ s' = Unlistening \/ at_ s' = Finished)) /\
  (at_ s = Finished ->
     subscribed s = false /\ retry s = None /\ poll s = false /\ abortListener s = false).
Proof.
  intros [H Hp]%reachable_inv. unfold phase_inv in Hp. split.
  - intros Hab. split_and!.
    + intros Ea. rewrite Ea in Hp. destruct Hp as [[Hw _ _ _] _]. congruence.
    + intros es s'. by apply aborted_run.
    + intros e s'. by apply aborted_settles.
  - intros Ea. rewrite Ea in Hp. tauto.
Qed.

Definition with_deadline : options := {| has_nextWakeAt := true; pollIntervalMs := 50 |}.
Definition stopped_run : list event :=
  [Listened; DrainReturned false; DeadlineReturned (At 5000); Abort; Resume; Unlistened].
Definition stopped_state : state :=
  default (start false 0) (run with_deadline (start false 1000) stopped_run).

Lemma abort_stops_witness :
  at_ stopped_state = Finished /\ drains stopped_state = 1%nat /\
  subscribed stopped_state = false /\ retry stopped_state = None /\
  poll stopped_state = false /\ abortListener stopped_state = false.
Proof.
  assert (Hr : reachable with_deadline stopped_state).
  { exists 1000, stopped_run. split; [lia|vm_compute; reflexivity]. }
  split; [vm_compute; reflexivity|]. split; [vm_compute; reflexivity|].
  assert (Ha : at_ stopped_state = Finished) by (vm_compute; reflexivity).
  exact (proj2 (abort_stops with_deadline stopped_state Hr) Ha).
Defined.
