(* ===== verification/CanonicalJson.v ===== *)
(** * Canonical JSON and content identity

    [canonicalAnalysisJson] and [analysisContentHash] of
    [packages/db/src/analysis-target.ts], which give every stored analysis,
    assignment and report its content signature.  [String.prototype.localeCompare]
    (the "en" collation of ICU) and SHA-256 are parameters; the collation is
    assumed to be a total preorder, and a theorem that needs two keys to be told
    apart says so. *)

From Stdlib Require Import ZArith Lia Bool Sorting.Permutation Sorting.Sorted.
From Stdlib Require Import Floats.
From stdpp Require Import base list strings option numbers sorting.
From S2P Require Import Prelude JsNumber JsString JsValue JsArray.

Local Open Scope string_scope.
Local Open Scope list_scope.
Local Open Scope result_scope.

Section Canonical.
(** [left.localeCompare(right, "en")] *)
Context (localeCompare : string -> string -> jsnum).

Definition not_json : string := "Analysis identity requires finite, explicit JSON values".

(** [Object.entries(value).sort(([left], [right]) => left.localeCompare(right, "en"))];
    the entries carry what their value becomes, which the sort does not read. *)
Definition byKey {A} (left right : string * A) : jsnum := localeCompare (fst left) (fst right).

Definition entry_text (e : string * string) : string := json_string (fst e) +:+ ":" +:+ snd e.

Fixpoint canonicalAnalysisJson (value : jsval) : result string :=
  match value with
  | JNull => Ok "null"
  | JBool b => Ok (if b then "true" else "false")
  | JStr s => Ok (json_string s)
  | JNum x => if isFinite x then Ok (Number_toString x) else Throw not_json
  | JArr l =>
      let* parts := result_map canonicalAnalysisJson l in
      Ok ("[" +:+ join "," parts +:+ "]")
  | JObj o =>
      let* entries := result_map (fun e =>
        match e with (k, item) =>
          let* text := canonicalAnalysisJson item in Ok (k, text) end) o in
      Ok ("{" +:+ join "," (List.map entry_text (sort byKey entries)) +:+ "}")
  | JUndef => Throw not_json
  end.

(** ** [JSON.parse(canonicalAnalysisJson(value))]

    The copy has the properties of every object in key order, except that array
    indices come first and ascend (the property order of the language), and
    [0] for [-0]. *)

(** A canonical array index: at most 10 digits, no leading zero, below 2^32-1. *)
Definition array_index (k : string) : option Z :=
  match take_digits k 0 0 with
  | (v, S n, EmptyString) =>
      if Nat.leb (S n) 10 && String.eqb (string_of_N v) k && (v <? 4294967295)%Z
      then Some v else None
  | _ => None
  end.

Definition indexed (e : string * jsval) : bool :=
  match array_index (fst e) with Some _ => true | None => false end.

Definition property_order (o : record) : record :=
  sort_before (fun y x => (default 0 (array_index (fst y)) <? default 0 (array_index (fst x)))%Z)
    (List.filter indexed o) ++
  List.filter (fun e => negb (indexed e)) o.

Fixpoint canonical_copy (value : jsval) : jsval :=
  match value with
  | JNum x => JNum (norm0 x)
  | JArr l => JArr (List.map canonical_copy l)
  | JObj o => JObj (property_order (sort byKey
      (List.map (fun e => match e with (k, item) => (k, canonical_copy item) end) o)))
  | _ => value
  end.

(** [JSON.parse(canonicalAnalysisJson(value))] *)
Definition parsed_canonical (value : jsval) : result jsval :=
  let* _ := canonicalAnalysisJson value in Ok (canonical_copy value).

(** [createHash("sha256").update(s).digest("hex")] *)
Context (sha256 : string -> string).

Definition analysisContentHash (value : jsval) : result string :=
  let* text := canonicalAnalysisJson value in Ok (sha256 text).

End Canonical.

(** ** The order of the keys does not matter *)

(** The same data, up to the order of the properties of every object. *)
Inductive same_data : jsval -> jsval -> Prop :=
  | same_refl v : same_data v v
  | same_arr l l' : same_list l l' -> same_data (JArr l) (JArr l')
  | same_obj o p o' : same_entries o p -> Permutation p o' -> same_data (JObj o) (JObj o')
with same_list : list jsval -> list jsval -> Prop :=
  | same_list_nil : same_list [] []
  | same_list_cons v v' l l' : same_data v v' -> same_list l l' -> same_list (v :: l) (v' :: l')
with same_entries : record -> record -> Prop :=
  | same_nil : same_entries [] []
  | same_cons k v v' o o' :
      same_data v v' -> same_entries o o' -> same_entries ((k, v) :: o) ((k, v') :: o').

Scheme same_data_mind := Minimality for same_data Sort Prop
  with same_list_mind := Minimality for same_list Sort Prop
  with same_entries_mind := Minimality for same_entries Sort Prop.
Combined Scheme same_data_mutind from same_data_mind, same_list_mind, same_entries_mind.

(** A collation orders strings totally, possibly without telling some apart. *)
Class Collation (localeCompare : string -> string -> jsnum) : Prop := {
  collation_total a b : PrimFloat.ltb (localeCompare a b) 0 = false \/
                        PrimFloat.ltb (localeCompare b a) 0 = false;
  collation_trans a b c : PrimFloat.ltb (localeCompare b a) 0 = false ->
    PrimFloat.ltb (localeCompare c b) 0 = false -> PrimFloat.ltb (localeCompare c a) 0 = false;
}.

Section KeyOrder.
Context (localeCompare : string -> string -> jsnum) `{!Collation localeCompare}.

Abbreviation canonical := (canonicalAnalysisJson localeCompare).

(** [a] and [b] collate strictly one way. *)
Definition told_apart (a b : string) : Prop :=
  PrimFloat.ltb (localeCompare a b) 0 = true \/ PrimFloat.ltb (localeCompare b a) 0 = true.

(** The keys of an object are distinct, and the collation tells them apart. *)
Definition well_keyed_object (o : record) : Prop :=
  List.NoDup (keys o) /\
  forall a b, In a (keys o) -> In b (keys o) -> a <> b -> told_apart a b.

Fixpoint well_keyed (v : jsval) : Prop :=
  match v with
  | JArr l => fold_right (fun x P => well_keyed x /\ P) True l
  | JObj o => well_keyed_object o /\
      fold_right (fun e P => match e with (_, x) => well_keyed x /\ P end) True o
  | _ => True
  end.

Definition entry_result (e : string * jsval) : result (string * string) :=
  match e with (k, item) => bind_result (canonical item) (fun text => Ok (k, text)) end.

Lemma canonical_obj (o : record) :
  canonical (JObj o) = bind_result (result_map entry_result o) (fun entries =>
    Ok ("{" +:+ join "," (List.map entry_text (sort (byKey localeCompare) entries)) +:+ "}")).
Proof. done. Qed.

Lemma entry_keys (o : record) (es : list (string * string)) :
  result_map entry_result o = Ok es -> List.map fst es = keys o.
Proof.
  rewrite result_map_ok. unfold keys. induction 1 as [|[k v] [k' s] o es H _ IH]; cbn; [done|].
  rewrite IH. f_equal. cbn in H. by apply bind_ok in H as (t & _ & [= -> _]).
Qed.

(** Sorting entries with well-kept keys forgets their order. *)
Lemma sort_entries {A} (es es' : list (string * A)) :
  Permutation es es' -> List.NoDup (List.map fst es) ->
  (forall a b, In a (List.map fst es) -> In b (List.map fst es) -> a <> b -> told_apart a b) ->
  sort (byKey localeCompare) es = sort (byKey localeCompare) es'.
Proof.
  intros Hp Hn Ht. apply sort_perm_eq; [| |done|].
  - intros x y. apply (collation_total (fst x) (fst y)).
  - intros x y z. apply (collation_trans (fst x) (fst y) (fst z)).
  - intros x y Hx Hy Hxy Hyx. destruct (decide (fst x = fst y)) as [E|E].
    + by apply (nodup_map_inj fst es).
    + destruct (Ht (fst x) (fst y)) as [H|H]; [by apply in_map..|done| |].
      * unfold byKey in Hyx. congruence.
      * unfold byKey in Hxy. congruence.
Qed.

Lemma same_canonical :
  (forall v w, same_data v w -> well_keyed v -> forall s, canonical v = Ok s -> canonical w = Ok s) /\
  (forall l l', same_list l l' -> fold_right (fun x P => well_keyed x /\ P) True l ->
     forall ys, result_map canonical l = Ok ys -> result_map canonical l' = Ok ys) /\
  (forall o p, same_entries o p ->
     keys p = keys o /\
     (fold_right (fun e P => match e with (_, x) => well_keyed x /\ P end) True o ->
      forall ys, result_map entry_result o = Ok ys -> result_map entry_result p = Ok ys)).
Proof.
  apply same_data_mutind.
  - done.
  - intros l l' _ IH Hw s. cbn [canonicalAnalysisJson]. rewrite bind_ok.
    intros (ys & Hys & [= <-]). by rewrite (IH Hw ys Hys).
  - intros o p o' _ [Hk IH] Hp [[Hn Ht] Hw] s. rewrite !canonical_obj, bind_ok.
    intros (es & Hes & [= <-]). specialize (IH Hw es Hes).
    destruct (result_map_perm entry_result p o' Hp es IH) as (es' & -> & Hpe). cbn [bind_result].
    pose proof (entry_keys o es Hes) as He.
    rewrite (sort_entries es es' Hpe); [done|by rewrite He..].
  - done.
  - intros v v' l l' _ IHv _ IHl [Hv Hl] ys. cbn [result_map]. rewrite !bind_ok.
    intros (b & Hb & (bs & Hbs & [= <-])%bind_ok). exists b. split; [by apply IHv|].
    apply bind_ok. exists bs. split; [by apply IHl|done].
  - done.
  - intros k v v' o o' _ IHv _ [Hk IHo]. split; [cbn; by f_equal|]. intros [Hv Ho] ys.
    cbn [result_map entry_result]. rewrite !bind_ok.
    intros (b & (t & Ht & [= <-])%bind_ok & (bs & Hbs & [= <-])%bind_ok).
    exists (k, t). split; [rewrite (IHv Hv t Ht); done|].
    apply bind_ok. exists bs. split; [by apply IHo|done].
Qed.

(** The copy that the canonical text parses to. *)
Lemma property_order_perm (o : record) : Permutation o (property_order o).
Proof.
  unfold property_order. rewrite <- sort_before_perm.
  induction o as [|e o IH]; cbn; [done|]. destruct (indexed e); cbn [negb app].
  - by constructor.
  - by apply Permutation_cons_app.
Qed.

Lemma copy_entries (o : record) :
  Forall (fun e => well_keyed (snd e) ->
    forall s, canonical (snd e) = Ok s ->
    canonical (canonical_copy localeCompare (snd e)) = Ok s) o ->
  fold_right (fun e P => match e with (_, x) => well_keyed x /\ P end) True o ->
  forall es, result_map entry_result o = Ok es ->
  result_map entry_result (List.map (fun e =>
    match e with (k, item) => (k, canonical_copy localeCompare item) end) o) = Ok es.
Proof.
  induction 1 as [|[k v] o Hv _ IH]; [done|]. intros [Hw Ho] es.
  cbn [result_map entry_result List.map]. rewrite !bind_ok.
  intros (b & (t & Ht & [= <-])%bind_ok & (bs & Hbs & [= <-])%bind_ok).
  pose proof (Hv Hw t Ht) as Hc. cbn [snd] in Hc. exists (k, t). split; [by rewrite Hc|].
  apply bind_ok. exists bs. split; [by apply IH|done].
Qed.

Lemma Number_toString_norm0 (x : jsnum) : Number_toString (norm0 x) = Number_toString x.
Proof.
  unfold norm0. destruct (PrimFloat.eqb x 0) eqn:E; [|done]. apply eqb_ord in E as (Hn & _ & Ho).
  assert (Hf : isFinite x = true).
  { apply isFinite_ord. rewrite Ho, ord_0. pose proof inf_ord_pos. split; [done|lia]. }
  unfold Number_toString. destruct (finite_cases x Hf) as [[s Es]|(s & m & e & Es & Bs)].
  - by rewrite Es.
  - exfalso. unfold ord in Ho. rewrite Es, sf_ord_finite in Ho. change (ord 0%float) with 0%Z in Ho.
    change (sf_ord (Prim2SF 0%float)) with 0%Z in Ho.
    apply bounded_spec in Bs. pose proof (Z.pow_pos_nonneg 2 (e + 1074)).
    destruct s; cbn [cond_Zopp] in Ho; nia.
Qed.

Lemma copy_text (v : jsval) :
  well_keyed v -> forall s, canonical v = Ok s ->
  canonical (canonical_copy localeCompare v) = Ok s.
Proof.
  induction v as [| | | | |l IH|o IH] using jsval_nested_ind; try done.
  - intros _ s. cbn [canonicalAnalysisJson canonical_copy].
    by rewrite Number_toString_norm0, isFinite_norm0.
  - intros Hw s. cbn [canonicalAnalysisJson canonical_copy]. rewrite !bind_ok.
    intros (ys & Hys & [= <-]). exists ys. split; [|done]. cbn [well_keyed] in Hw.
    revert ys Hys. induction IH as [|v l Hv _ IHl]; [done|]. destruct Hw as [Hwv Hwl]. intros ys.
    cbn [result_map List.map]. rewrite !bind_ok. intros (b & Hb & (bs & Hbs & [= <-])%bind_ok).
    exists b. split; [by apply Hv|]. apply bind_ok. exists bs. split; [by apply IHl|done].
  - intros [[Hn Ht] Hw] s. cbn [canonical_copy]. rewrite !canonical_obj, bind_ok.
    intros (es & Hes & [= <-]). pose proof (copy_entries o IH Hw es Hes) as Hc.
    pose proof (entry_keys o es Hes) as He.
    assert (Hperm : forall p : record, Permutation p (property_order (sort (byKey localeCompare) p))).
    { intros p. etransitivity; [|apply property_order_perm]. apply sort_before_perm. }
    destruct (result_map_perm entry_result _ _ (Hperm _) es Hc) as (es' & -> & Hp).
    cbn [bind_result]. rewrite (sort_entries es es' Hp); [done|by rewrite He..].
Qed.
End KeyOrder.

(** The canonical text and the content hash do not depend on the order of
    object keys, at any depth: two values with the same data have the same
    canonical text, hence the same content hash, whenever the collation tells
    the keys of each object apart. *)
Theorem canonical_key_order (localeCompare : string -> string -> jsnum)
    (sha256 : string -> string) (v w : jsval) :
  Collation localeCompare -> same_data v w -> well_keyed localeCompare v ->
  forall s, canonicalAnalysisJson localeCompare v = Ok s ->
  canonicalAnalysisJson localeCompare w = Ok s /\
  analysisContentHash localeCompare sha256 v = Ok (sha256 s) /\
  analysisContentHash localeCompare sha256 w = Ok (sha256 s).
Proof.
  intros Hc Hs Hw s Hv. destruct (same_canonical localeCompare) as (H & _ & _).
  pose proof (H v w Hs Hw s Hv) as Hw'. unfold analysisContentHash. by rewrite Hv, Hw'.
Qed.

(** C38. A content signature survives its own serialisation: the value that a
    canonical text parses to has that same canonical text, and therefore the
    same content hash, whenever the collation tells the keys of each object
    apart. *)
Theorem canonical_roundtrip (localeCompare : string -> string -> jsnum)
    (sha256 : string -> string) (v w : jsval) :
  Collation localeCompare -> well_keyed localeCompare v ->
  parsed_canonical localeCompare v = Ok w ->
  (exists s, canonicalAnalysisJson localeCompare v = Ok s /\
     canonicalAnalysisJson localeCompare w = Ok s) /\
  analysisContentHash localeCompare sha256 w = analysisContentHash localeCompare sha256 v.
Proof.
  intros Hc Hw H. apply bind_ok in H as (s & Hs & [= <-]).
  pose proof (copy_text localeCompare v Hw s Hs) as Ht. split; [by exists s|].
  unfold analysisContentHash. by rewrite Hs, Ht.
Qed.

(** ** Samples: the collation by code units *)

#[export] Instance code_unit_collation : Collation code_units.
Proof.
  split; intros *; rewrite !code_units_ltb; [apply str_ltb_total|apply str_ltb_trans].
Qed.

Definition sample_left : jsval :=
  JObj [("reynolds", JNum 100000); ("flow", JObj [("speed", JNum 30.5); ("alpha", JNum (-2))]);
        ("tags", JArr [JStr "a"; JNull; JBool true])].
Definition sample_right : jsval :=
  JObj [("tags", JArr [JStr "a"; JNull; JBool true]);
        ("flow", JObj [("alpha", JNum (-2)); ("speed", JNum 30.5)]); ("reynolds", JNum 100000)].
Definition sample_text : string :=
  "{" +:+ quoted "flow" +:+ ":{" +:+ quoted "alpha" +:+ ":-2," +:+ quoted "speed" +:+ ":30.5},"
  +:+ quoted "reynolds" +:+ ":100000," +:+ quoted "tags" +:+ ":[" +:+ quoted "a"
  +:+ ",null,true]}".

Lemma sample_text_left : canonicalAnalysisJson code_units sample_left = Ok sample_text.
Proof. vm_compute. reflexivity. Qed.

Lemma sample_same : same_data sample_left sample_right.
Proof.
  apply (same_obj _ [("reynolds", JNum 100000);
    ("flow", JObj [("alpha", JNum (-2)); ("speed", JNum 30.5)]);
    ("tags", JArr [JStr "a"; JNull; JBool true])]).
  - repeat constructor. apply (same_obj _ [("speed", JNum 30.5); ("alpha", JNum (-2))]);
      [repeat constructor|apply perm_swap].
  - etransitivity; [apply perm_swap|]. etransitivity; [constructor; apply perm_swap|].
    apply perm_swap.
Qed.

Lemma sample_well_keyed : well_keyed code_units sample_left.
Proof.
  unfold told_apart. cbn. unfold well_keyed_object, told_apart. cbn.
  setoid_rewrite code_units_ltb.
  repeat split; try (repeat constructor; cbn; naive_solver); intros a b Ha Hb Hn;
    repeat destruct Ha as [<-|Ha]; try destruct Ha; repeat destruct Hb as [<-|Hb];
    try destruct Hb; try done; cbn; auto.
Qed.

Lemma canonical_key_order_witness :
  canonicalAnalysisJson code_units sample_right = Ok sample_text.
Proof.
  exact (proj1 (canonical_key_order code_units (fun s => s) sample_left sample_right
    code_unit_collation sample_same sample_well_keyed sample_text sample_text_left)).
Defined.

Definition sample_copy : jsval :=
  JObj [("7", JNull); ("10", JBool true); ("b", JNum 0); ("c", JNum 2)].
Definition sample_source : jsval :=
  JObj [("7", JNull); ("10", JBool true); ("c", JNum 2); ("b", JNum (-0))].

Lemma sample_parse : parsed_canonical code_units sample_source = Ok sample_copy.
Proof. vm_compute. reflexivity. Qed.

Lemma sample_source_keyed : well_keyed code_units sample_source.
Proof.
  unfold told_apart. cbn. unfold well_keyed_object, told_apart. cbn.
  setoid_rewrite code_units_ltb.
  repeat split; try (repeat constructor; cbn; naive_solver); intros a b Ha Hb Hn;
    repeat destruct Ha as [<-|Ha]; try destruct Ha; repeat destruct Hb as [<-|Hb];
    try destruct Hb; try done; cbn; auto.
Qed.

Lemma canonical_roundtrip_witness :
  analysisContentHash code_units (fun s => s) sample_copy
  = analysisContentHash code_units (fun s => s) sample_source.
Proof.
  exact (proj2 (canonical_roundtrip code_units (fun s => s) sample_source sample_copy
    code_unit_collation sample_source_keyed sample_parse)).
Defined.
