(* ===== verification/StableJson.v ===== *)
(** * Stable JSON text

    [stableStringify], which [packages/db/src/campaign-execution.ts],
    [campaigns.ts], [simulation-setup.ts] and [point-corrections.ts] each define with
    the same body: JSON with the entries of every object in collation order and
    undefined ones left out.  Its hash identifies setups, physics and job groups.

    The text is proved independent of the order of keys and injective: it is the
    printing of a [tree], the data with its entries sorted, and a tree is determined
    by its text.  The host's collation ([a.localeCompare(b)]) is a parameter. *)

From Stdlib Require Import ZArith Lia Bool Ascii String Permutation Sorted.
From Stdlib Require Import Floats.
From stdpp Require Import base list sorting strings option numbers.
From S2P Require Import Prelude JsNumber JsString JsValue JsArray CanonicalJson.

Local Open Scope string_scope.
Local Open Scope list_scope.

Section Stable.
(** [a.localeCompare(b)] *)
Context (localeCompare : string -> string -> jsnum).

(** The text of an entry; a value without text is left out before. *)
Definition entry (e : string * option string) : string :=
  json_string (fst e) +:+ ":" +:+ default "" (snd e).

Definition has_text (e : string * option string) : bool :=
  match snd e with Some _ => true | None => false end.

(** [None] is the [undefined] that [JSON.stringify(undefined)] returns; in the text of
    an array [join] makes it empty. *)
Fixpoint stableStringify (value : jsval) : option string :=
  match value with
  | JUndef => None
  | JNull => Some "null"
  | JBool b => Some (if b then "true" else "false")
  | JNum x => Some (if isFinite x then Number_toString x else "null")
  | JStr s => Some (json_string s)
  | JArr l => Some ("[" +:+ join "," (List.map (fun v => default "" (stableStringify v)) l) +:+ "]")
  | JObj o =>
      let entries := List.map (fun e => match e with (k, v) => (k, stableStringify v) end) o in
      Some ("{" +:+ join "," (List.map entry
             (sort (byKey localeCompare) (List.filter has_text entries))) +:+ "}")
  end.
End Stable.

(** ** The data of a text *)

Inductive tree :=
  | TNull
  | TBool (b : bool)
  | TNum (text : string)
  | TStr (s : string)
  | TArr (l : list tree)
  | TObj (o : list (string * tree)).

Section TreeInd.
Context (P : tree -> Prop).
Hypotheses (Hnull : P TNull) (Hbool : forall b, P (TBool b)) (Hnum : forall s, P (TNum s))
  (Hstr : forall s, P (TStr s)) (Harr : forall l, Forall P l -> P (TArr l))
  (Hobj : forall o, Forall (fun e => P (snd e)) o -> P (TObj o)).

Fixpoint tree_nested_ind (t : tree) : P t :=
  match t with
  | TNull => Hnull
  | TBool b => Hbool b
  | TNum s => Hnum s
  | TStr s => Hstr s
  | TArr l => Harr l ((fix all l : Forall P l := match l with
      | [] => List.Forall_nil _
      | t :: l' => List.Forall_cons _ _ _ (tree_nested_ind t) (all l') end) l)
  | TObj o => Hobj o ((fix all o : Forall (fun e => P (snd e)) o := match o with
      | [] => List.Forall_nil _
      | (k, t) as e :: o' => List.Forall_cons _ _ _ (tree_nested_ind (snd e)) (all o') end) o)
  end.
End TreeInd.

Fixpoint print (t : tree) : string :=
  match t with
  | TNull => "null"
  | TBool b => if b then "true" else "false"
  | TNum s => s
  | TStr s => json_string s
  | TArr l => "[" +:+ join "," (List.map print l) +:+ "]"
  | TObj o => "{" +:+ join "," (List.map (fun e => match e with (k, t) =>
                json_string k +:+ ":" +:+ print t end) o) +:+ "}"
  end.

(** A number as JSON writes it: a digit or a sign, then digits, points and exponents. *)
Definition digit (c : ascii) : bool := Nat.leb 48 (code c) && Nat.leb (code c) 57.
Definition number_letter (c : ascii) : bool :=
  digit c || Ascii.eqb c "." || Ascii.eqb c "e" || Ascii.eqb c "+" || Ascii.eqb c "-".
Definition number_text (s : string) : bool :=
  match s with
  | String c s' => (digit c || Ascii.eqb c "-") && all_chars number_letter s'
  | EmptyString => false
  end.

Fixpoint wf (t : tree) : bool :=
  match t with
  | TNum s => number_text s
  | TArr l => forallb wf l
  | TObj o => forallb (fun e => match e with (_, t) => wf t end) o
  | _ => true
  end.

(** ** Strings are read back *)

Definition hex_value (c : ascii) : nat :=
  if Nat.leb (code c) 57 then code c - 48 else code c - 87.

(** The character at the front of the body of a JSON string. *)
Definition read_char (s : string) : option (ascii * string) :=
  match s with
  | String "\" (String c r) =>
      if Ascii.eqb c "b" then Some (ascii_of_nat 8, r)
      else if Ascii.eqb c "t" then Some (ascii_of_nat 9, r)
      else if Ascii.eqb c "n" then Some (ascii_of_nat 10, r)
      else if Ascii.eqb c "f" then Some (ascii_of_nat 12, r)
      else if Ascii.eqb c "r" then Some (ascii_of_nat 13, r)
      else if Ascii.eqb c "u" then
        match r with
        | String _ (String _ (String h (String l r'))) =>
            Some (ascii_of_nat (16 * hex_value h + hex_value l), r')
        | _ => None
        end
      else Some (c, r)
  | String c r => Some (c, r)
  | EmptyString => None
  end.

Lemma read_json_char (c : ascii) (r : string) : read_char (json_char c +:+ r) = Some (c, r).
Proof. destruct c as [[] [] [] [] [] [] [] []]; reflexivity. Qed.

Lemma json_char_first (c : ascii) (r : string) :
  exists d s, json_char c +:+ r = String d s /\ d <> "034"%char.
Proof. destruct c as [[] [] [] [] [] [] [] []]; (do 2 eexists; split; [reflexivity|discriminate]). Qed.

Lemma dq_app (r : string) : dq +:+ r = String "034" r.
Proof. reflexivity. Qed.

Lemma empty_app (r : string) : "" +:+ r = r.
Proof. reflexivity. Qed.

Lemma json_chars_inj (s : string) : forall t r r',
  json_chars s +:+ dq +:+ r = json_chars t +:+ dq +:+ r' -> s = t /\ r = r'.
Proof.
  assert (Hdq : forall c s r r', dq +:+ r <> json_char c +:+ json_chars s +:+ dq +:+ r').
  { intros c s' r r' H. destruct (json_char_first c (json_chars s' +:+ dq +:+ r')) as (d & u & E & Hd).
    rewrite E, dq_app in H. injection H as H _. congruence. }
  induction s as [|c s IH]; intros [|d t] r r' H; cbn [json_chars] in H.
  - rewrite !empty_app, !dq_app in H. by injection H as ->.
  - rewrite empty_app, append_assoc in H. by apply Hdq in H.
  - rewrite empty_app, append_assoc in H. symmetry in H. by apply Hdq in H.
  - rewrite !append_assoc in H. apply (f_equal read_char) in H. rewrite !read_json_char in H.
    injection H as -> H. apply IH in H as [-> ->]. done.
Qed.

Lemma json_string_inj (s t r r' : string) :
  json_string s +:+ r = json_string t +:+ r' -> s = t /\ r = r'.
Proof.
  unfold json_string, quoted. rewrite !append_assoc, (dq_app (json_chars s +:+ _)), (dq_app (json_chars t +:+ _)).
  intros H. injection H as H. by apply json_chars_inj in H.
Qed.

(** ** Trees are read back *)

(** What may follow a value. *)
Definition ends (r : string) : bool :=
  match r with
  | EmptyString => true
  | String c _ => Ascii.eqb c "," || Ascii.eqb c "]" || Ascii.eqb c "}"
  end.

(** The kind of value that starts with a character. *)
Definition kind (s : string) : nat :=
  match s with
  | EmptyString => 9
  | String c _ =>
      if Ascii.eqb c "n" then 0 else if Ascii.eqb c "t" then 1 else if Ascii.eqb c "f" then 2
      else if Ascii.eqb c "034" then 4 else if Ascii.eqb c "[" then 5 else if Ascii.eqb c "{" then 6
      else if Ascii.eqb c "]" || Ascii.eqb c "}" || Ascii.eqb c "," then 8 else 3
  end.

Definition kind_of (t : tree) : nat :=
  match t with
  | TNull => 0 | TBool true => 1 | TBool false => 2 | TNum _ => 3 | TStr _ => 4 | TArr _ => 5 | TObj _ => 6
  end.

Lemma print_kind (t : tree) (r : string) : wf t = true -> kind (print t +:+ r) = kind_of t.
Proof.
  destruct t as [|[]|s|s|l|o]; cbn [wf print kind_of]; intros H; try reflexivity.
  destruct s as [|c s]; [done|]. cbn in H. apply andb_true_iff in H as [H _].
  destruct c as [[] [] [] [] [] [] [] []]; (discriminate || reflexivity).
Qed.

Lemma span_inj (p : ascii -> bool) (s : string) : forall t r r',
  all_chars p s = true -> all_chars p t = true ->
  (forall c u, r = String c u -> p c = false) -> (forall c u, r' = String c u -> p c = false) ->
  s +:+ r = t +:+ r' -> s = t /\ r = r'.
Proof.
  induction s as [|c s IH]; intros [|d t] r r' Hs Ht Hr Hr' H; cbn [all_chars] in *.
  - done.
  - rewrite empty_app in H. rewrite append_cons in H. apply andb_true_iff in Ht as [Ht _].
    specialize (Hr _ _ H). congruence.
  - rewrite empty_app in H. rewrite append_cons in H. symmetry in H.
    apply andb_true_iff in Hs as [Hs _]. specialize (Hr' _ _ H). congruence.
  - rewrite !append_cons in H. injection H as -> H.
    apply andb_true_iff in Hs as [_ Hs]. apply andb_true_iff in Ht as [_ Ht].
    destruct (IH t r r') as [-> ->]; done.
Qed.

Lemma number_text_letters (s : string) : number_text s = true -> all_chars number_letter s = true.
Proof.
  destruct s as [|c s]; cbn; [done|]. intros H. apply andb_true_iff in H as [Hc Hs].
  rewrite Hs, andb_true_r. unfold number_letter.
  apply orb_true_iff in Hc as [-> | ->]; [done|]. by rewrite !orb_true_r.
Qed.

Lemma ends_letter (r : string) : ends r = true -> forall c u, r = String c u -> number_letter c = false.
Proof.
  intros H c u ->. cbn in H.
  destruct c as [[] [] [] [] [] [] [] []]; (discriminate || reflexivity).
Qed.

(** The elements of an array or of an object. *)
Section Items.
Context {A : Type} (p : A -> string) (Q : A -> Prop).

Definition read_back (x : A) : Prop :=
  forall y r r', Q y -> ends r = true -> ends r' = true -> p x +:+ r = p y +:+ r' -> x = y /\ r = r'.

Hypothesis Hstart : forall x r, Q x -> kind (p x +:+ r) <> 8.

Definition rest (l : list A) : string :=
  match l with [] => "" | _ => "," +:+ join "," (List.map p l) end.

Lemma join_rest (x : A) (l : list A) (r : string) :
  join "," (List.map p (x :: l)) +:+ r = p x +:+ (rest l +:+ r).
Proof. destruct l as [|y l]; [reflexivity|]. cbn [List.map join rest]. by rewrite !append_assoc. Qed.

Lemma items_inj (close : ascii) :
  (forall r, kind (String close r) = 8) -> (forall r, ends (String close r) = true) ->
  close <> ","%char ->
  forall l l' r r', Forall read_back l -> Forall Q l -> Forall Q l' ->
  join "," (List.map p l) +:+ String close r = join "," (List.map p l') +:+ String close r' ->
  l = l' /\ r = r'.
Proof.
  intros Hk He Hc. assert (Hends : forall l r, ends (rest l +:+ String close r) = true).
  { intros [|x l] r; cbn [rest]; [rewrite empty_app; apply He|reflexivity]. }
  induction l as [|x l IH]; intros [|y l'] r r' Hb HQ HQ' H.
  - cbn [List.map join] in H. rewrite !empty_app in H. by injection H as ->.
  - exfalso. apply Forall_cons_iff in HQ' as [Qy _]. rewrite join_rest in H.
    cbn [List.map join] in H. rewrite empty_app in H. apply (Hstart y (rest l' +:+ String close r') Qy). rewrite <- H. apply Hk.
  - exfalso. apply Forall_cons_iff in HQ as [Qx _]. rewrite join_rest in H.
    cbn [List.map join] in H. rewrite empty_app in H. apply (Hstart x (rest l +:+ String close r) Qx). rewrite H. apply Hk.
  - apply Forall_cons_iff in Hb as [Hx Hb], HQ as [Qx HQ], HQ' as [Qy HQ'].
    rewrite !join_rest in H. destruct (Hx y _ _ Qy (Hends l r) (Hends l' r') H) as [-> Hr]. clear H.
    destruct l as [|a l], l' as [|b l']; cbn [rest] in Hr; rewrite ?empty_app in Hr.
    + by injection Hr as ->.
    + exfalso. rewrite append_assoc, append_cons in Hr. injection Hr as Hr _. by apply Hc.
    + exfalso. rewrite append_assoc, append_cons in Hr. injection Hr as Hr _. by apply Hc.
    + rewrite !append_assoc, !append_cons, !empty_app in Hr. injection Hr as Hr.
      destruct (IH _ _ _ Hb HQ HQ' Hr) as [-> ->]. done.
Qed.
End Items.

Definition print_entry (e : string * tree) : string := json_string (fst e) +:+ ":" +:+ print (snd e).

Lemma print_obj (o : list (string * tree)) :
  print (TObj o) = "{" +:+ join "," (List.map print_entry o) +:+ "}".
Proof. cbn [print]. do 2 f_equal. f_equal. by apply List.map_ext; intros [k t]. Qed.

Lemma wf_obj (o : list (string * tree)) : wf (TObj o) = forallb (fun e => wf (snd e)) o.
Proof. cbn [wf]. induction o as [|[k t] o IH]; cbn; [done|]. by rewrite IH. Qed.

Lemma print_inj (t : tree) : wf t = true -> read_back print (fun u => wf u = true) t.
Proof.
  assert (Hstart : forall t r, wf t = true -> kind (print t +:+ r) <> 8).
  { intros u r Hu. rewrite print_kind by done. by destruct u as [|[]| | | |]. }
  induction t as [|b|n|s|l IH|o IH] using tree_nested_ind; intros Hw u r r' Hu Hr Hr' H;
    pose proof (f_equal kind H) as Hk; rewrite !print_kind in Hk by done;
    destruct u as [|b'|n'|s'|l'|o']; try discriminate; try (by destruct b); try (by destruct b').
  - by apply append_inj_l in H.
  - destruct b, b'; try discriminate; by apply append_inj_l in H.
  - cbn [wf print] in *. destruct (span_inj number_letter n n' r r') as [-> ->];
      [by apply number_text_letters..|by apply ends_letter|by apply ends_letter|done|done].
  - cbn [print] in H. by apply json_string_inj in H as [-> ->].
  - cbn [print wf] in *. rewrite !append_assoc in H. apply append_inj_l in H.
    rewrite !append_cons, !empty_app in H. rewrite forallb_forall in Hw, Hu.
    destruct (items_inj print (fun u => wf u = true) Hstart "]") with (l := l) (l' := l') (r := r) (r' := r')
      as [-> ->]; try done; try (apply List.Forall_forall; auto).
    rewrite List.Forall_forall in IH. auto.
  - rewrite !print_obj, !append_assoc in H. apply append_inj_l in H.
    rewrite !append_cons, !empty_app in H. rewrite !wf_obj in *. rewrite forallb_forall in Hw, Hu.
    destruct (items_inj print_entry (fun e => wf (snd e) = true)) with
      (close := "}"%char) (l := o) (l' := o') (r := r) (r' := r') as [-> ->]; try done;
      try (apply List.Forall_forall; auto).
    rewrite List.Forall_forall in IH. intros [k t] Hin [k' t'] z z' Hw' Hz Hz' E.
    unfold print_entry in E. cbn [fst snd] in *. rewrite !append_assoc in E.
    apply json_string_inj in E as [-> E]. apply append_inj_l in E.
    destruct (IH _ Hin (Hw _ Hin) t' z z' Hw' Hz Hz' E) as [Et ->]. cbn in Et. by subst.
Qed.

(** ** The tree of a value *)

Section TreeOf.
Context (localeCompare : string -> string -> jsnum).

(** The data of a value with the entries of every object sorted; [undefined] has none. *)
Fixpoint tree_of (value : jsval) : option tree :=
  match value with
  | JUndef => None
  | JNull => Some TNull
  | JBool b => Some (TBool b)
  | JNum x => Some (TNum (Number_toString x))
  | JStr s => Some (TStr s)
  | JArr l => Some (TArr (List.map (fun v => default TNull (tree_of v)) l))
  | JObj o =>
      Some (TObj (sort (byKey localeCompare) (List.flat_map (fun e =>
        match e with (k, v) => match tree_of v with Some t => [(k, t)] | None => [] end end) o)))
  end.

(** Data as JSON has it: every number is finite and prints as a number, and no
    element of an array is [undefined]. *)
Fixpoint plain (value : jsval) : bool :=
  match value with
  | JNum x => isFinite x && number_text (Number_toString x)
  | JArr l => forallb (fun v => match v with JUndef => false | _ => plain v end) l
  | JObj o => forallb (fun e => match e with (_, v) => plain v end) o
  | _ => true
  end.

Definition tree_entries (o : record) : list (string * tree) :=
  List.flat_map (fun e => match tree_of (snd e) with Some t => [(fst e, t)] | None => [] end) o.

Lemma tree_of_obj (o : record) :
  tree_of (JObj o) = Some (TObj (sort (byKey localeCompare) (tree_entries o))).
Proof.
  cbn [tree_of]. do 3 f_equal. unfold tree_entries. apply List.flat_map_ext. by intros [k v].
Qed.

(** Sorting entries by key does not look at their values. *)
Lemma sort_by_key_map {A B} (f : A -> B) (l : list (string * A)) :
  sort (byKey localeCompare) (List.map (fun e => (fst e, f (snd e))) l)
  = List.map (fun e => (fst e, f (snd e))) (sort (byKey localeCompare) l).
Proof.
  unfold sort, sort_before. induction l as [|e l IH]; cbn [List.map fold_right]; [done|].
  rewrite IH. set (s := fold_right _ [] l). clearbody s. clear IH.
  induction s as [|d s IH]; cbn [List.map insert_by]; [done|].
  unfold byKey at 1 3. cbn [fst]. destruct (PrimFloat.ltb (localeCompare (fst d) (fst e)) 0);
    cbn [List.map]; [by rewrite IH|done].
Qed.

Lemma stable_print (value : jsval) :
  plain value = true ->
  stableStringify localeCompare value = option_map print (tree_of value) /\
  (forall t, tree_of value = Some t -> wf t = true).
Proof.
  induction value as [| |b|x|s|l IH|o IH] using jsval_nested_ind; intros Hp.
  - by split.
  - split; [done|]. by intros t [= <-].
  - split; [done|]. by intros t [= <-].
  - cbn [plain] in Hp. apply andb_true_iff in Hp as [Hf Hn]. cbn [stableStringify tree_of option_map].
    rewrite Hf. split; [done|]. by intros t [= <-].
  - split; [done|]. by intros t [= <-].
  - cbn [plain] in Hp. rewrite forallb_forall in Hp. rewrite List.Forall_forall in IH.
    assert (Hel : forall v, In v l -> exists t, tree_of v = Some t /\ wf t = true /\
      stableStringify localeCompare v = Some (print t)).
    { intros v Hv. specialize (Hp v Hv). destruct (IH v Hv) as [Ht Hw]; [by destruct v|].
      destruct (tree_of v) as [t|] eqn:E; [exists t; auto|].
      destruct v; by cbn in *. }
    cbn [stableStringify tree_of option_map print]. split.
    + do 4 f_equal. rewrite List.map_map. apply List.map_ext_in. intros v Hv.
      by destruct (Hel v Hv) as (t & -> & _ & ->).
    + intros t [= <-]. cbn [wf]. apply forallb_forall. intros t (v & <- & Hv)%in_map_iff.
      by destruct (Hel v Hv) as (t & -> & Hw & _).
  - cbn [plain] in Hp. rewrite forallb_forall in Hp. rewrite List.Forall_forall in IH.
    assert (Hel : forall k v, In (k, v) o -> stableStringify localeCompare v = option_map print (tree_of v)
      /\ forall t, tree_of v = Some t -> wf t = true).
    { intros k v Hv. apply (IH (k, v) Hv). by apply (Hp (k, v)). }
    rewrite tree_of_obj. cbn [option_map]. rewrite print_obj. split.
    + cbn [stableStringify]. do 4 f_equal.
      transitivity (List.map entry (List.map (fun e => (fst e, Some (print (snd e))))
        (sort (byKey localeCompare) (tree_entries o)))); [|by rewrite List.map_map].
      rewrite <- (sort_by_key_map (fun t => Some (print t))). do 2 f_equal. unfold tree_entries.
      clear Hp IH. induction o as [|[k v] o IHo]; [done|].
      cbn [List.map List.filter List.flat_map]. rewrite List.map_app, <- IHo by (intros; eapply Hel; by right).
      destruct (Hel k v) as [-> _]; [by left|]. cbn [fst snd]. by destruct (tree_of v).
    + intros t [= <-]. rewrite wf_obj. apply forallb_forall. intros [k t] Hin%in_sort.
      apply in_flat_map in Hin as ([k' v] & Hv & Ht). cbn [fst snd] in *.
      destruct (tree_of v) as [u|] eqn:E; [|done]. destruct Ht as [[= <- <-]|[]].
      by apply (proj2 (Hel _ _ Hv)).
Qed.

(** The text determines the data. *)
Lemma stable_injective (v w : jsval) :
  plain v = true -> plain w = true ->
  stableStringify localeCompare v = stableStringify localeCompare w -> tree_of v = tree_of w.
Proof.
  intros Hv Hw E. destruct (stable_print v Hv) as [Ev Wv], (stable_print w Hw) as [Ew Ww].
  rewrite Ev, Ew in E. destruct (tree_of v) as [t|], (tree_of w) as [u|]; try done.
  injection E as E. f_equal. specialize (Wv t eq_refl). specialize (Ww u eq_refl).
  apply (f_equal (fun s => s +:+ "")) in E.
  by destruct (print_inj t Wv u "" "" Ww eq_refl eq_refl E).
Qed.

Lemma tree_keys (o : record) : incl (List.map fst (tree_entries o)) (keys o).
Proof.
  unfold tree_entries, keys. intros k (e & <- & He)%in_map_iff.
  apply in_flat_map in He as ([k v] & Hv & Ht). cbn [fst snd] in Ht.
  destruct (tree_of v); [|done]. destruct Ht as [<-|[]]. exact (in_map fst _ _ Hv).
Qed.

Lemma tree_keys_nodup (o : record) : List.NoDup (keys o) -> List.NoDup (List.map fst (tree_entries o)).
Proof.
  unfold tree_entries, keys. induction o as [|[k v] o IH]; cbn; [constructor|].
  intros [Hk Hn]%NoDup_cons_iff. destruct (tree_of v); cbn; [|auto]. constructor; [|auto].
  intros H%tree_keys. by apply Hk.
Qed.

(** The data of one property. *)
Lemma in_tree_entries (o : record) (k : string) (t : tree) :
  List.NoDup (keys o) -> In (k, t) (tree_entries o) <-> tree_of (get k o) = Some t.
Proof.
  unfold tree_entries, keys. induction o as [|[k' v] o IH]; cbn [List.map fst get List.flat_map In snd]; [done|].
  intros [Hk Hn]%NoDup_cons_iff. rewrite in_app_iff, IH by done.
  destruct (String.eqb_spec k k') as [<-|Hne].
  - split; [|intros ->; by left; left].
    intros [H|H]; [destruct (tree_of v); [|done]; by destruct H as [[= ->]|[]]|].
    exfalso. apply Hk. apply mem_in. fold (keys o). destruct (has k o) eqn:E; [done|].
    by rewrite (get_not_has _ _ E) in H.
  - split; [|by right]. intros [H|H]; [|done]. destruct (tree_of v); [|done].
    by destruct H as [[= -> _]|[]].
Qed.

(** Objects with the same data have the same data under every key. *)
Lemma tree_of_get (o p : record) (k : string) :
  List.NoDup (keys o) -> List.NoDup (keys p) ->
  tree_of (JObj o) = tree_of (JObj p) -> tree_of (get k o) = tree_of (get k p).
Proof.
  rewrite !tree_of_obj. intros Ho Hp E. injection E as E.
  assert (H : forall t, tree_of (get k o) = Some t <-> tree_of (get k p) = Some t).
  { intros t. rewrite <- !in_tree_entries by done.
    rewrite <- (in_sort (byKey localeCompare) (tree_entries o)), E. apply in_sort. }
  destruct (tree_of (get k o)) as [t|]; [symmetry; by apply H|].
  destruct (tree_of (get k p)) as [t|]; [|done]. by apply H.
Qed.

(** Objects with the same keys in the same order. *)
Lemma same_keys_tree (o : record) : forall p,
  keys o = keys p -> List.NoDup (keys o) -> (forall k, In k (keys o) -> tree_of (get k o) = tree_of (get k p)) ->
  tree_of (JObj o) = tree_of (JObj p).
Proof.
  enough (H : forall p, keys o = keys p -> List.NoDup (keys o) ->
    (forall k, In k (keys o) -> tree_of (get k o) = tree_of (get k p)) -> tree_entries o = tree_entries p)
    by (intros p Hk Hn Ht; by rewrite !tree_of_obj, (H p Hk Hn Ht)).
  induction o as [|[k v] o IH]; intros [|[k' w] p] Hk Hn Ht; try done. injection Hk as <- Hk.
  apply NoDup_cons_iff in Hn as [Hin Hn]. unfold tree_entries in *. cbn [List.flat_map fst snd].
  pose proof (Ht k (or_introl eq_refl)) as E. cbn [get] in E. rewrite String.eqb_refl in E. rewrite E. f_equal.
  apply IH; [done|done|]. intros k' Hq. specialize (Ht k' (or_intror Hq)). cbn [get] in Ht.
  destruct (String.eqb_spec k' k) as [E'|]; [by subst|done].
Qed.
End TreeOf.

Section KeyOrder.
Context (localeCompare : string -> string -> jsnum) `{!Collation localeCompare}.

Lemma same_tree :
  (forall v w, same_data v w -> well_keyed localeCompare v -> tree_of localeCompare v = tree_of localeCompare w) /\
  (forall l l', same_list l l' -> fold_right (fun x P => well_keyed localeCompare x /\ P) True l ->
     List.map (fun v => default TNull (tree_of localeCompare v)) l
     = List.map (fun v => default TNull (tree_of localeCompare v)) l') /\
  (forall o p, same_entries o p ->
     fold_right (fun e P => match e with (_, x) => well_keyed localeCompare x /\ P end) True o ->
     tree_entries localeCompare o = tree_entries localeCompare p).
Proof.
  apply same_data_mutind.
  - done.
  - intros l l' _ IH Hw. cbn [tree_of]. by rewrite (IH Hw).
  - intros o p o' _ IH Hp [[Hn Ht] Hw]. rewrite !tree_of_obj. do 2 f_equal.
    apply sort_entries; [done|rewrite (IH Hw)| |].
    + apply Permutation_flat_map, Hp.
    + by apply tree_keys_nodup.
    + intros a b Ha%tree_keys Hb%tree_keys. by apply Ht.
  - done.
  - intros v v' l l' _ IHv _ IHl [Hv Hl]. cbn [List.map]. by rewrite (IHv Hv), (IHl Hl).
  - done.
  - intros k v v' o o' _ IHv _ IHo [Hv Ho]. unfold tree_entries in *. cbn [List.flat_map fst snd].
    by rewrite (IHv Hv), (IHo Ho).
Qed.

Lemma well_keyed_get (o : record) (k : string) :
  well_keyed localeCompare (JObj o) -> well_keyed localeCompare (get k o).
Proof.
  intros [_ H]. induction o as [|[k' v] o IH]; [done|]. destruct H as [Hv H].
  cbn [get]. destruct (String.eqb k k'); [done|auto].
Qed.

(** The data of an object is the data of its properties. *)
Lemma object_iff (o p : record) :
  well_keyed localeCompare (JObj o) -> well_keyed localeCompare (JObj p) ->
  tree_of localeCompare (JObj o) = tree_of localeCompare (JObj p) <->
  forall k, tree_of localeCompare (get k o) = tree_of localeCompare (get k p).
Proof.
  intros [[Ho Ht] _] [[Hp _] _]. split; [intros H k; by apply tree_of_get|]. intros H.
  rewrite !tree_of_obj. do 2 f_equal. apply sort_entries; [done| |by apply tree_keys_nodup|].
  - apply Permutation.NoDup_Permutation;
      [by apply (List.NoDup_map_inv fst), tree_keys_nodup..|].
    intros [k t]. by rewrite !in_tree_entries, H.
  - intros a b Ha%tree_keys Hb%tree_keys. by apply Ht.
Qed.

(** The stable text identifies data: two values with the same data, in whatever
    order their keys are, have the same text, and two values with the same text have
    the same data. *)
Theorem stable_text_identifies (v w : jsval) :
  plain v = true -> plain w = true -> well_keyed localeCompare v ->
  (same_data v w -> stableStringify localeCompare v = stableStringify localeCompare w) /\
  (stableStringify localeCompare v = stableStringify localeCompare w ->
   tree_of localeCompare v = tree_of localeCompare w).
Proof.
  intros Hv Hw Hk. split; [|by apply stable_injective].
  intros Hs. destruct (stable_print localeCompare v Hv) as [-> _], (stable_print localeCompare w Hw) as [-> _].
  by rewrite (proj1 same_tree v w Hs Hk).
Qed.
End KeyOrder.

(** The order of code units tells distinct keys apart, at every depth. *)
Fixpoint distinct_strings (l : list string) : bool :=
  match l with [] => true | k :: l' => negb (mem k l') && distinct_strings l' end.

Fixpoint distinct_keys (v : jsval) : bool :=
  match v with
  | JArr l => forallb distinct_keys l
  | JObj o => distinct_strings (keys o) && forallb (fun e => match e with (_, x) => distinct_keys x end) o
  | _ => true
  end.

Lemma distinct_strings_nodup (l : list string) : distinct_strings l = true -> List.NoDup l.
Proof.
  induction l as [|k l IH]; cbn; [constructor|]. rewrite andb_true_iff, negb_true_iff. intros [Hk Hl].
  constructor; [|auto]. intros H%mem_in. congruence.
Qed.

Lemma distinct_keyed (v : jsval) : distinct_keys v = true -> well_keyed code_units v.
Proof.
  induction v as [| | | | |l IH|o IH] using jsval_nested_ind; cbn [distinct_keys well_keyed]; try done.
  - rewrite forallb_forall, List.Forall_forall in *. intros H. induction l as [|v l IHl]; cbn; [done|].
    split; [apply IH; [by left|apply H; by left]|]. apply IHl; intros; [apply IH|apply H]; by try right.
  - intros [Hk H]%andb_true_iff. split.
    + split; [by apply distinct_strings_nodup|]. intros a b _ _ Hne. unfold told_apart. rewrite !code_units_ltb.
      destruct (str_ltb a b) eqn:E1; [by left|]. destruct (str_ltb b a) eqn:E2; [by right|].
      by destruct Hne; apply str_ltb_anti.
    + clear Hk. rewrite forallb_forall, List.Forall_forall in *. induction o as [|[k v] o IHo]; cbn; [done|].
      split; [apply (IH (k, v)); [by left|apply (H (k, v)); by left]|].
      apply IHo; intros; [apply IH|apply H]; by try right.
Qed.

(** ** The other canonical text

    [canonicalAnalysisJson] refuses what the stable text glosses over; where it
    succeeds the two texts agree (for one collation). *)

Lemma canonical_stable (localeCompare : string -> string -> jsnum) (v : jsval) : forall s,
  canonicalAnalysisJson localeCompare v = Ok s -> stableStringify localeCompare v = Some s.
Proof.
  induction v as [| |b|x|t|l IH|o IH] using jsval_nested_ind; intros s; try done.
  - by intros [= <-].
  - by intros [= <-].
  - cbn [canonicalAnalysisJson stableStringify]. destruct (isFinite x); [|done]. by intros [= <-].
  - by intros [= <-].
  - cbn [canonicalAnalysisJson stableStringify]. rewrite bind_ok. intros (ys & Hys & [= <-]).
    do 4 f_equal. revert ys Hys. induction IH as [|v l Hv _ IHl]; intros ys;
      cbn [result_map List.map]; [by intros [= <-]|].
    rewrite bind_ok. intros (y & Hy & (ys' & Hys' & [= <-])%bind_ok).
    by rewrite (Hv _ Hy), (IHl _ Hys').
  - rewrite canonical_obj, bind_ok. intros (es & Hes & [= <-]). cbn [stableStringify].
    do 4 f_equal. transitivity (List.map entry (List.map (fun e => (fst e, Some (snd e)))
      (sort (byKey localeCompare) es))); [|by rewrite List.map_map].
    rewrite <- (sort_by_key_map localeCompare Some). do 2 f_equal.
    revert es Hes. induction IH as [|[k v] o Hv _ IHo]; intros es; cbn [result_map List.map List.filter];
      [by intros [= <-]|].
    rewrite bind_ok. intros (e & He & (es' & Hes' & [= <-])%bind_ok).
    cbn [entry_result] in He. apply bind_ok in He as (t & Ht & [= <-]).
    pose proof (Hv _ Ht) as Hs. cbn [snd] in Hs. rewrite Hs. cbn [has_text snd List.map fst].
    by rewrite (IHo _ Hes').
Qed.

(** Two values with one canonical text have the same data. *)
Lemma canonical_injective (localeCompare : string -> string -> jsnum) (v w : jsval) (s : string) :
  plain v = true -> plain w = true ->
  canonicalAnalysisJson localeCompare v = Ok s -> canonicalAnalysisJson localeCompare w = Ok s ->
  tree_of localeCompare v = tree_of localeCompare w.
Proof.
  intros Hv Hw Ev%canonical_stable Ew%canonical_stable.
  apply stable_injective; [done..|congruence].
Qed.

Module Examples.
Definition value : jsval :=
  JObj [("z", JNum 0.5); ("gone", JUndef); ("a", JArr [JNull; JStr "x,y"; JObj []])].
Definition reordered : jsval := JObj [("a", JArr [JNull; JStr "x,y"; JObj []]); ("z", JNum 0.5); ("gone", JUndef)].

Lemma value_keyed : well_keyed code_units value.
Proof.
  unfold told_apart. cbn. unfold well_keyed_object, told_apart. cbn.
  setoid_rewrite code_units_ltb.
  repeat split; try (repeat constructor; cbn; naive_solver); intros a b Ha Hb Hn;
    repeat destruct Ha as [<-|Ha]; try destruct Ha; repeat destruct Hb as [<-|Hb];
    try destruct Hb; try done; cbn; auto.
Qed.

Definition text : string :=
  "{" +:+ quoted "a" +:+ ":[null," +:+ quoted "x,y" +:+ ",{}]," +:+ quoted "z" +:+ ":0.5}".

Example text_ex : stableStringify code_units value = Some text.
Proof. vm_compute. reflexivity. Qed.

(** An [undefined] element of an array leaves no text, so two arrays collide. *)
Example undefined_element_collides :
  stableStringify code_units (JArr [JUndef]) = stableStringify code_units (JArr []).
Proof. vm_compute. reflexivity. Qed.

(** So do [null] and a number that is not finite. *)
Example nan_is_null :
  stableStringify code_units (JArr [JNum PrimFloat.nan]) = stableStringify code_units (JArr [JNull]).
Proof. vm_compute. reflexivity. Qed.
End Examples.

Lemma stable_text_identifies_witness :
  stableStringify code_units Examples.value = stableStringify code_units Examples.reordered /\
  tree_of code_units Examples.value = tree_of code_units Examples.reordered.
Proof.
  destruct (stable_text_identifies code_units Examples.value Examples.reordered) as [H1 H2].
  - vm_compute. reflexivity.
  - vm_compute. reflexivity.
  - exact Examples.value_keyed.
  - assert (E : stableStringify code_units Examples.value = stableStringify code_units Examples.reordered).
    { apply H1, (same_obj _ [("z", JNum 0.5); ("gone", JUndef); ("a", JArr [JNull; JStr "x,y"; JObj []])]).
      - repeat constructor.
      - apply (Permutation_app_comm [("z", JNum 0.5); ("gone", JUndef)] [("a", _)]). }
    split; [exact E|exact (H2 E)].
Defined.
