(* ===== verification/SetupIdentity.v ===== *)
(** * Identities of simulation setups

    The hashes that decide whether two setups are the same physics:
    [physicsHashForSnapshot], [methodCompatibilityHashForSnapshot],
    [simulationSetupSignature] and the canonical keys of
    [packages/db/src/simulation-setup.ts], with [materialPhysicsValues] of
    [packages/core/src/material-physics.ts]; and [createAnalysisTarget] and
    [progressiveComparisonConditionKey] of [packages/db/src/analysis-target.ts], which
    identify the target of a polar.

    The blocks of a snapshot are the stored JSON objects.  The collations (the host's
    and "en"), SHA-256 and MD5 are parameters.  A read of a missing block throws a
    [TypeError]; its message is not modelled. *)

From Stdlib Require Import ZArith Lia Bool String Permutation.
From Stdlib Require Import Floats.
From stdpp Require Import base list strings option numbers.
From S2P Require Import Prelude JsNumber JsString JsValue JsArray CanonicalJson Canonical StableJson.

Local Open Scope string_scope.
Local Open Scope list_scope.
Local Open Scope result_scope.

(** ** Objects *)

(** [{ k: o.k, ... }] for the listed keys. *)
Definition pick (ks : list string) (o : record) : record := List.map (fun k => (k, get k o)) ks.

(** [const { k, ..., ...rest } = o] *)
Definition omit (ks : list string) (o : record) : record :=
  List.filter (fun e => negb (mem (fst e) ks)) o.

(** [v ?? w] *)
Definition orElse (v w : jsval) : jsval := if nullish v then w else v.

(** The object that a property is read from. *)
Definition object_of (v : jsval) : result record :=
  match v with JObj o => Ok o | _ => Throw "TypeError" end.

Definition ROW_IDENTITY : list string := ["id"; "slug"; "name"].

(** ** The physics of a material *)

Definition gasCalorics (model : record) : result record :=
  if is_str (get "heat_capacity_model" model) "constant_cp"
  then Ok (pick ["heat_capacity_cp"] model)
  else
    let* nasa7 := object_of (get "nasa7" model) in
    Ok [("nasa7", JObj
      (pick ["minimum_temperature_k"; "common_temperature_k"; "maximum_temperature_k"] nasa7 ++
       [("entropy_reference_pressure_pa",
          orElse (get "entropy_reference_pressure_pa" nasa7) (JNum 100000))] ++
       pick ["low_coefficients"; "high_coefficients"] nasa7))].

Definition gasTransport (model : record) : result record :=
  if is_str (get "transport_model" model) "polynomial" then
    let* transport := object_of (get "polynomial_transport" model) in
    Ok [("polynomial_transport", JObj
      (pick ["minimum_temperature_k"; "maximum_temperature_k"; "dynamic_viscosity_coefficients";
             "thermal_conductivity_coefficients"] transport))]
  else if is_str (get "transport_model" model) "sutherland" then
    Ok (pick ["reference_dynamic_viscosity"; "reference_temperature_k"; "sutherland_temperature_k"] model)
  else Ok (pick ["reference_dynamic_viscosity"; "prandtl"] model).

Definition gasPhysicsValues (model : record) : result record :=
  let* calorics := gasCalorics model in
  let base := pick ["equation_of_state"; "gas_constant"; "heat_capacity_model"; "transport_model"] model
              ++ calorics in
  let* transport := gasTransport model in
  Ok (base ++ transport).

Definition materialPhysicsValues (material : record) : result record :=
  if negb (truthy (get "gasThermodynamics" material)) then Ok material
  else if negb (is_str (get "phase" material) "gas")
  then Throw "An explicit gas model requires a gas medium"
  else
    let* model := object_of (get "gasThermodynamics" material) in
    let* gas := gasPhysicsValues model in
    Ok [("phase", get "phase" material); ("gasThermodynamics", JObj gas)].

(** ** Snapshots *)

(** The blocks of a stored snapshot; an absent or [null] block that the code tests for
    is [None]. *)
Record SimulationSetupSnapshot := {
  material : option record;
  engine : option record;
  flowState : record;
  referenceGeometry : record;
  derived : record;
  boundary : record;
  mesh : record;
  uransMesh : option record;
  uransPrecalcMesh : option record;
  solver : record;
  output : record;
}.

Definition LEGACY_UNKNOWN_SOLVER_IMPLEMENTATION_SNAPSHOT : record :=
  [("implementationId", JStr "2f8bc764-09ae-4ff3-8fd2-000000000000");
   ("key", JStr "openfoam:legacy:unknown:adapter-legacy:numerics-unknown");
   ("family", JStr "openfoam"); ("distribution", JStr "legacy"); ("releaseVersion", JStr "unknown");
   ("methodFamily", JStr "finite_volume_rans_urans"); ("adapterContractVersion", JNum 0);
   ("numericsRevision", JStr "unknown")].

Definition engineOf (s : SimulationSetupSnapshot) : record :=
  default LEGACY_UNKNOWN_SOLVER_IMPLEMENTATION_SNAPSHOT (engine s).

Definition REFERENCE_KEYS : list string :=
  ["geometryType"; "referenceLengthKind"; "referenceLengthM"; "spanM"; "referenceAreaM2"].
Definition BOUNDARY_KEYS : list string :=
  ["turbulenceIntensity"; "viscosityRatio"; "sandGrainHeight"; "roughnessConstant"].
Definition FLOW_KEYS : list string :=
  ["temperatureK"; "pressurePa"; "speedMps"; "density"; "dynamicViscosity"; "kinematicViscosity"].

(** [...(block ? { key: meshPhysicsPayload(block) } : {})] *)
Definition pinnedMesh (key : string) (block : option record) : record :=
  match block with Some m => [(key, JObj (omit ROW_IDENTITY m))] | None => [] end.

Definition solverPhysics (solver : record) : record :=
  let initialization := get "uransInitializationIterations" solver in
  let smoothing := get "localTimeStepSmoothing" solver in
  omit (ROW_IDENTITY ++ ["uransInitializationIterations"; "localTimeStepSmoothing"]) solver
  ++ (if nullish initialization then [] else [("uransInitializationIterations", initialization)])
  ++ (if nullish smoothing || strict_eq_num smoothing 0.02 then []
      else [("localTimeStepSmoothing", smoothing)]).

Definition has_gas (s : SimulationSetupSnapshot) : bool :=
  match material s with Some m => truthy (get "gasThermodynamics" m) | None => false end.

(** The fields that [physicsHashForSnapshot] hashes. *)
Definition physicsSubset (s : SimulationSetupSnapshot) : result record :=
  let* materialPart :=
    match material s with
    | Some m => let* values := materialPhysicsValues m in Ok [("material", JObj values)]
    | None => Ok []
    end in
  Ok (materialPart ++
      [("flowState", JObj ((if has_gas s then [] else pick ["mediumId"; "mediumSlug"] (flowState s))
                           ++ pick FLOW_KEYS (flowState s)));
       ("referenceGeometry", JObj (pick REFERENCE_KEYS (referenceGeometry s)));
       ("boundary", JObj (pick BOUNDARY_KEYS (boundary s)));
       ("mesh", JObj (omit ROW_IDENTITY (mesh s)))]
      ++ pinnedMesh "uransMesh" (uransMesh s)
      ++ pinnedMesh "uransPrecalcMesh" (uransPrecalcMesh s)
      ++ [("solver", JObj (solverPhysics (solver s)));
          ("derived", JObj (pick ["reynolds"; "mach"] (derived s)))]).

Section Hashes.
(** [a.localeCompare(b)], and the two digests in hexadecimal. *)
Context (localeCompare : string -> string -> jsnum) (sha256 md5 : string -> string).

Definition hashOf (digest : string -> string) (o : record) : string :=
  digest (default "" (stableStringify localeCompare (JObj o))).

Definition simulationSetupSignature (snapshot : record) : string := hashOf md5 snapshot.

Definition physicsHashForSnapshot (s : SimulationSetupSnapshot) : result string :=
  let* subset := physicsSubset s in Ok (hashOf sha256 subset).

Definition METHOD_COMPATIBILITY_HASH_VERSION : jsnum := 1%float.

Definition METHOD_KEYS : list string :=
  ["family"; "distribution"; "releaseVersion"; "methodFamily"; "numericsRevision"].

Definition methodSubset (s : SimulationSetupSnapshot) (physicsHash : string) : record :=
  [("version", JNum METHOD_COMPATIBILITY_HASH_VERSION); ("physicsHash", JStr physicsHash);
   ("engine", JObj (pick METHOD_KEYS (engineOf s)))].

Definition methodCompatibilityHashForSnapshot (s : SimulationSetupSnapshot) : result string :=
  let* physicsHash := physicsHashForSnapshot s in
  Ok (hashOf sha256 (methodSubset s physicsHash)).

Definition methodCompatibilityIdentityForSnapshot (s : SimulationSetupSnapshot) : result (jsnum * string) :=
  let* hash := methodCompatibilityHashForSnapshot s in Ok (METHOD_COMPATIBILITY_HASH_VERSION, hash).
End Hashes.

(** ** Canonical keys of the registry rows *)

Definition flowConditionCanonicalKey (mediumId : string) (t p v : jsnum) : result string :=
  let* ts := canonicalSiString temperatureK t in
  let* ps := canonicalSiString pressurePa p in
  let* vs := canonicalSiString speedMps v in
  Ok (join "|" [mediumId; ts; ps; vs]).

Definition optionalSi (kind : CanonicalSiKind) (x : option jsnum) : result string :=
  match x with Some x => canonicalSiString kind x | None => Ok "" end.

Definition referenceGeometryCanonicalKey (geometryType referenceLengthKind : string)
    (referenceLengthM : jsnum) (span area : option jsnum) : result string :=
  let* chord := canonicalSiString chordM referenceLengthM in
  let* spanText := optionalSi spanM span in
  let* areaText := optionalSi areaM2 area in
  Ok (join "|" [geometryType; referenceLengthKind; chord; spanText; areaText]).

(** ** Analysis targets *)

Inductive TransitionModel := fully_turbulent | prescribed_transition.

Record TransitionAssumptions := {
  model : TransitionModel;
  nCrit : jsnum;
  upper : jsnum;
  lower : jsnum;
}.

Definition model_name (m : TransitionModel) : string :=
  match m with fully_turbulent => "fully_turbulent" | prescribed_transition => "prescribed_transition" end.

Definition transition_json (t : TransitionAssumptions) : jsval :=
  JObj [("model", JStr (model_name (model t))); ("nCrit", JNum (nCrit t)); ("upper", JNum (upper t));
        ("lower", JNum (lower t))].

Record AnalysisInput := {
  airfoilId : string;
  points : list (jsnum * jsnum);
  inputMaterial : record;
  snapshot : SimulationSetupSnapshot;
  transition : TransitionAssumptions;
  branch : string;
}.

(** [{ ...o, k: v }] *)
Fixpoint with_entry (k : string) (v : jsval) (o : record) : record :=
  match o with
  | [] => [(k, v)]
  | (k', w) :: o' => if String.eqb k k' then (k', v) :: o' else (k', w) :: with_entry k v o'
  end.

(** [Math.min(...xs)] *)
Definition Math_min_all (xs : list jsnum) : jsnum := fold_left Math_min xs PrimFloat.infinity.

Definition geometryChecks (points : list (jsnum * jsnum)) : result unit :=
  let* _ := throw_if (Nat.ltb (length points) 3) "Stored coordinate geometry is required" in
  let* _ := throw_if (negb (forallb (fun p => isFinite (fst p) && isFinite (snd p)) points))
              "Geometry contains nonfinite coordinates" in
  throw_if (Math_max_all (List.map fst points) === Math_min_all (List.map fst points))%js
    "Geometry has no chord extent".

Definition transitionChecks (t : TransitionAssumptions) : result unit :=
  let* _ := throw_if
    (match model t with fully_turbulent => true | prescribed_transition => false end
     && (negb (upper t === 0)%js || negb (lower t === 0)%js))
    "Fully turbulent targets require leading-edge transition" in
  throw_if (negb (nCrit t > 0)%js
            || negb (forallb (fun v => (v >= 0)%js && (v <= 1)%js) [upper t; lower t]))
    "Invalid transition assumptions".

(** [v > 0], on a field that the type says is a number. *)
Definition positive_field (v : jsval) : bool := on_num (fun x => (x > 0)%js) v.

Definition stateChecks (s : SimulationSetupSnapshot) : result unit :=
  let* _ := throw_if
    (negb (positive_field (get "reynolds" (derived s))) || is_null (get "mach" (derived s))
     || on_num (fun x => (x < 0)%js) (get "mach" (derived s))
     || on_num (fun x => (x > 3)%js) (get "mach" (derived s)))
    "Analysis target has no supported Reynolds/Mach state" in
  throw_if
    (negb (forallb positive_field
      [get "temperatureK" (flowState s); get "pressurePa" (flowState s); get "density" (flowState s);
       get "dynamicViscosity" (flowState s); get "kinematicViscosity" (flowState s);
       get "referenceLengthM" (referenceGeometry s)]))
    "Analysis target has invalid physical state".

Definition geometry_json (points : list (jsnum * jsnum)) : jsval :=
  JArr (List.map (fun p => JArr [JNum (fst p); JNum (snd p)]) points).

Definition physicalOf (i : AnalysisInput) (materialValues : record) : record :=
  let s := snapshot i in
  [("version", JStr "physical-analysis-target-v1"); ("airfoilId", JStr (airfoilId i));
   ("geometry", geometry_json (points i)); ("material", JObj materialValues);
   ("flow", JObj (pick FLOW_KEYS (flowState s)));
   ("reference", JObj (pick REFERENCE_KEYS (referenceGeometry s)));
   ("boundary", JObj (pick BOUNDARY_KEYS (boundary s)));
   ("transition", transition_json (transition i));
   ("derived", JObj (pick ["reynolds"; "mach"] (derived s)));
   ("branch", JStr (branch i))].

Section Targets.
(** [a.localeCompare(b, "en")] *)
Context (localeCompareEn : string -> string -> jsnum) (sha256 : string -> string).

Abbreviation contentHash := (analysisContentHash localeCompareEn sha256).

(** A snapshot that names its material must name the one of the input. *)
Definition materialCheck (i : AnalysisInput) : result unit :=
  match material (snapshot i) with
  | None => Ok tt
  | Some m =>
      let* pinned := contentHash (JObj
        (with_entry "speedOfSound" (orElse (get "speedOfSound" m) JNull) m)) in
      let* given := contentHash (JObj (inputMaterial i)) in
      throw_if (negb (String.eqb pinned given))
        "Analysis material differs from its immutable setup snapshot"
  end.

(** The signature and the physical description that it signs. *)
Definition createAnalysisTarget (i : AnalysisInput) : result (string * record) :=
  let* _ := materialCheck i in
  let* _ := geometryChecks (points i) in
  let* _ := transitionChecks (transition i) in
  let* materialValues := materialPhysicsValues (inputMaterial i) in
  let physical := physicalOf i materialValues in
  let* _ := stateChecks (snapshot i) in
  let* signature := contentHash (JObj physical) in
  Ok (signature, physical).

Definition progressiveComparisonConditionKey (physical : record) : result string :=
  contentHash (JObj [("version", JStr "progressive-comparison-condition-v1");
                     ("physical", JObj (omit ["airfoilId"; "geometry"] physical))]).
End Targets.

(** ** What equal hashes say *)

Lemma keys_pick (ks : list string) (o : record) : keys (pick ks o) = ks.
Proof. unfold keys, pick. rewrite List.map_map. apply List.map_id. Qed.

Lemma get_pick (k : string) (ks : list string) (o : record) : In k ks -> get k (pick ks o) = get k o.
Proof.
  unfold pick. induction ks as [|k' ks IH]; [done|]. cbn [List.map get].
  destruct (String.eqb_spec k k') as [<-|Hne]; [done|]. intros [->|H]; [done|auto].
Qed.

(** The digest tells these two texts apart. *)
Definition collision_free (digest : string -> string) (a b : string) : Prop :=
  digest a = digest b -> a = b.

Definition stable_text (localeCompare : string -> string -> jsnum) (o : record) : string :=
  default "" (stableStringify localeCompare (JObj o)).

Section Equal.
Context (localeCompare : string -> string -> jsnum).

Abbreviation tree_of := (tree_of localeCompare).

Lemma hash_iff (sha256 : string -> string) (o p : record) :
  plain (JObj o) = true -> plain (JObj p) = true ->
  collision_free sha256 (stable_text localeCompare o) (stable_text localeCompare p) ->
  hashOf localeCompare sha256 o = hashOf localeCompare sha256 p <-> tree_of (JObj o) = tree_of (JObj p).
Proof.
  intros Ho Hp Hc. unfold hashOf, stable_text in *. split.
  - intros H%Hc. apply (stable_injective localeCompare); [done..|].
    destruct (stable_print localeCompare _ Ho) as [Eo _], (stable_print localeCompare _ Hp) as [Ep _].
    rewrite Eo, Ep, !tree_of_obj in *. cbn [option_map] in *. f_equal. exact H.
  - intros H. destruct (stable_print localeCompare _ Ho) as [-> _], (stable_print localeCompare _ Hp) as [-> _].
    by rewrite H.
Qed.

(** Objects with one tree, where the keys are known. *)
Lemma tree_pick (ks : list string) (o p : record) :
  List.NoDup ks -> tree_of (JObj (pick ks o)) = tree_of (JObj (pick ks p)) <->
  forall k, In k ks -> tree_of (get k o) = tree_of (get k p).
Proof.
  intros Hn. split.
  - intros H k Hk. pose proof (tree_of_get localeCompare _ _ k
      ltac:(by rewrite keys_pick) ltac:(by rewrite keys_pick) H) as E.
    by rewrite !get_pick in E.
  - intros H. apply same_keys_tree; rewrite ?keys_pick; [done|done|].
    intros k Hk. rewrite !get_pick by done. auto.
Qed.
End Equal.

(** ** Properties of built objects *)

Lemma get_app (k : string) (o p : record) : get k (o ++ p) = if has k o then get k o else get k p.
Proof.
  induction o as [|[k' v] o IH]; [done|]. unfold has in *. cbn [app get keys List.map fst existsb mem].
  destruct (String.eqb k k'); [done|]. exact IH.
Qed.

Lemma get_omit (k : string) (ks : list string) (o : record) :
  get k (omit ks o) = if mem k ks then JUndef else get k o.
Proof.
  unfold omit. induction o as [|[k' v] o IH]; cbn [List.filter get fst]; [by destruct (mem k ks)|].
  destruct (String.eqb_spec k k') as [<-|Hne].
  - destruct (mem k ks) eqn:E; cbn [negb]; [exact IH|]. cbn [get]. by rewrite String.eqb_refl.
  - destruct (negb (mem k' ks)); [|exact IH]. cbn [get]. by destruct (String.eqb_spec k k').
Qed.

Lemma get_pick_out (k : string) (ks : list string) (o : record) : ~ In k ks -> get k (pick ks o) = JUndef.
Proof.
  intros H. apply get_not_has, not_true_iff_false. unfold has. rewrite keys_pick. by rewrite mem_in.
Qed.

(** ** The physics of a setup, field by field *)

(** The fluid is named by its medium unless the material carries an explicit gas model. *)
Definition medium_field (s : SimulationSetupSnapshot) (k : string) : jsval :=
  match material s with
  | Some m => if truthy (get "gasThermodynamics" m) then JUndef else get k (flowState s)
  | None => get k (flowState s)
  end.

(** A property of the numerics: names do not count, an absent initialization is none and
    the default smoothing is no smoothing. *)
Definition numerics_field (o : record) (k : string) : jsval :=
  let v := get k o in
  if mem k ["id"; "slug"; "name"] then JUndef
  else if String.eqb k "uransInitializationIterations" then (if nullish v then JUndef else v)
  else if String.eqb k "localTimeStepSmoothing" then
    (if nullish v || strict_eq_num v 0.02 then JUndef else v)
  else v.

(** The same data in all properties but the names of the row. *)
Definition same_unnamed (localeCompare : string -> string -> jsnum) (o p : record) : Prop :=
  forall k, ~ In k ["id"; "slug"; "name"] -> tree_of localeCompare (get k o) = tree_of localeCompare (get k p).

Definition same_pinned (localeCompare : string -> string -> jsnum) (a b : option record) : Prop :=
  match a, b with
  | Some m, Some m' => same_unnamed localeCompare m m'
  | None, None => True
  | _, _ => False
  end.

Definition same_material (localeCompare : string -> string -> jsnum) (a b : option record) : Prop :=
  match a, b with
  | Some m, Some m' => exists values values',
      materialPhysicsValues m = Ok values /\ materialPhysicsValues m' = Ok values' /\
      tree_of localeCompare (JObj values) = tree_of localeCompare (JObj values')
  | None, None => True
  | _, _ => False
  end.

(** What two setups of the same physics share. *)
Definition same_physics (localeCompare : string -> string -> jsnum) (s s' : SimulationSetupSnapshot) : Prop :=
  let same v w := tree_of localeCompare v = tree_of localeCompare w in
  let block (f : SimulationSetupSnapshot -> record) ks :=
    forall k, In k ks -> same (get k (f s)) (get k (f s')) in
  same_material localeCompare (material s) (material s') /\
  (forall k, In k ["mediumId"; "mediumSlug"] -> same (medium_field s k) (medium_field s' k)) /\
  block flowState
    ["temperatureK"; "pressurePa"; "speedMps"; "density"; "dynamicViscosity"; "kinematicViscosity"] /\
  block referenceGeometry
    ["geometryType"; "referenceLengthKind"; "referenceLengthM"; "spanM"; "referenceAreaM2"] /\
  block boundary ["turbulenceIntensity"; "viscosityRatio"; "sandGrainHeight"; "roughnessConstant"] /\
  block derived ["reynolds"; "mach"] /\
  same_unnamed localeCompare (mesh s) (mesh s') /\
  same_pinned localeCompare (uransMesh s) (uransMesh s') /\
  same_pinned localeCompare (uransPrecalcMesh s) (uransPrecalcMesh s') /\
  (forall k, same (numerics_field (solver s) k) (numerics_field (solver s') k)).

(** What the hashed object of a setup has under a key. *)
Definition material_block (s : SimulationSetupSnapshot) : jsval :=
  match material s with
  | Some m => match materialPhysicsValues m with Ok values => JObj values | Throw _ => JUndef end
  | None => JUndef
  end.
Definition flow_block (s : SimulationSetupSnapshot) : record :=
  (if has_gas s then [] else pick ["mediumId"; "mediumSlug"] (flowState s)) ++ pick FLOW_KEYS (flowState s).
Definition pinned_block (block : option record) : jsval :=
  match block with Some m => JObj (omit ROW_IDENTITY m) | None => JUndef end.

Definition PHYSICS_KEYS : list string :=
  ["material"; "flowState"; "referenceGeometry"; "boundary"; "mesh"; "uransMesh"; "uransPrecalcMesh";
   "solver"; "derived"].

Lemma physicsSubset_blocks (s : SimulationSetupSnapshot) (p : record) :
  physicsSubset s = Ok p ->
  (forall m, material s = Some m -> exists values, materialPhysicsValues m = Ok values) /\
  get "material" p = material_block s /\
  get "flowState" p = JObj (flow_block s) /\
  get "referenceGeometry" p = JObj (pick REFERENCE_KEYS (referenceGeometry s)) /\
  get "boundary" p = JObj (pick BOUNDARY_KEYS (boundary s)) /\
  get "mesh" p = JObj (omit ROW_IDENTITY (mesh s)) /\
  get "uransMesh" p = pinned_block (uransMesh s) /\
  get "uransPrecalcMesh" p = pinned_block (uransPrecalcMesh s) /\
  get "solver" p = JObj (solverPhysics (solver s)) /\
  get "derived" p = JObj (pick ["reynolds"; "mach"] (derived s)) /\
  forall k, ~ In k PHYSICS_KEYS -> get k p = JUndef.
Proof.
  unfold physicsSubset. rewrite bind_ok. intros (part & Hpart & [= <-]).
  assert (Hp : (forall m, material s = Some m -> exists values, materialPhysicsValues m = Ok values) /\
    part = match material_block s with JObj values => [("material", JObj values)] | _ => [] end /\
    match material_block s with JObj _ | JUndef => True | _ => False end).
  { unfold material_block. destruct (material s) as [m|]; [|injection Hpart as <-; repeat split; discriminate].
    apply bind_ok in Hpart as (values & Ev & [= <-]). rewrite Ev. split; [|done].
    intros ? [= <-]. by exists values. }
  clear Hpart. destruct Hp as (Hm & -> & Hb). split; [exact Hm|].
  destruct (material_block s) as [| | | | | |values]; try done;
    destruct (uransMesh s), (uransPrecalcMesh s); (repeat (split; [reflexivity|]));
    intros k Hk; unfold PHYSICS_KEYS in Hk; cbn [In] in Hk; cbn [app get pinnedMesh List.app];
    repeat match goal with |- context [String.eqb k ?x] =>
      destruct (String.eqb_spec k x) as [->|]; [exfalso; apply Hk; tauto|] end; reflexivity.
Qed.

(** ** Blocks *)

Section Blocks.
Context (localeCompare : string -> string -> jsnum) `{!Collation localeCompare}.

Abbreviation tree_of := (tree_of localeCompare).
Abbreviation well_keyed := (well_keyed localeCompare).

Lemma unnamed_iff (o p : record) :
  well_keyed (JObj (omit ROW_IDENTITY o)) -> well_keyed (JObj (omit ROW_IDENTITY p)) ->
  tree_of (JObj (omit ROW_IDENTITY o)) = tree_of (JObj (omit ROW_IDENTITY p)) <->
  same_unnamed localeCompare o p.
Proof.
  intros Ho Hp. rewrite object_iff by done. unfold same_unnamed, ROW_IDENTITY. split.
  - intros H k Hk. specialize (H k). rewrite !get_omit in H.
    destruct (mem k _) eqn:E; [|done]. by apply mem_in in E.
  - intros H k. rewrite !get_omit. destruct (mem k _) eqn:E; [done|]. apply H.
    intros Hk. apply mem_in in Hk. congruence.
Qed.

Lemma pinned_iff (a b : option record) :
  well_keyed (pinned_block a) -> well_keyed (pinned_block b) ->
  tree_of (pinned_block a) = tree_of (pinned_block b) <-> same_pinned localeCompare a b.
Proof.
  destruct a as [m|], b as [m'|]; cbn [pinned_block same_pinned]; intros Ha Hb;
    [by apply unnamed_iff|rewrite tree_of_obj; by split..|by split].
Qed.

Lemma material_iff (s s' : SimulationSetupSnapshot) :
  (forall m, material s = Some m -> exists values, materialPhysicsValues m = Ok values) ->
  (forall m, material s' = Some m -> exists values, materialPhysicsValues m = Ok values) ->
  tree_of (material_block s) = tree_of (material_block s') <->
  same_material localeCompare (material s) (material s').
Proof.
  unfold material_block, same_material. intros H H'.
  destruct (material s) as [m|]; [destruct (H m eq_refl) as [v ->]|];
    (destruct (material s') as [m'|]; [destruct (H' m' eq_refl) as [v' ->]|]);
    rewrite ?tree_of_obj; split; try done; [|intros (w & w' & [= <-] & [= <-] & E); by rewrite !tree_of_obj in E].
  intros E. exists v, v'. by rewrite !tree_of_obj.
Qed.

(** What the flow block has: the medium, and the state. *)
Lemma flow_block_get (s : SimulationSetupSnapshot) (k : string) :
  get k (flow_block s) = if mem k ["mediumId"; "mediumSlug"] then medium_field s k
                         else if mem k FLOW_KEYS then get k (flowState s) else JUndef.
Proof.
  unfold flow_block. rewrite get_app. unfold has_gas, medium_field.
  assert (Hmed : forall ks, mem k ks = true -> has k (pick ks (flowState s)) = true)
    by (intros ks Hk; unfold has; by rewrite keys_pick).
  assert (Hout : forall ks, mem k ks = false -> has k (pick ks (flowState s)) = false)
    by (intros ks Hk; unfold has; by rewrite keys_pick).
  assert (Hget : forall ks, get k (pick ks (flowState s)) = if mem k ks then get k (flowState s) else JUndef).
  { intros ks. destruct (mem k ks) eqn:E; [by apply get_pick, mem_in|].
    apply get_pick_out. rewrite <- mem_in. by rewrite E. }
  assert (Hdis : mem k ["mediumId"; "mediumSlug"] = true -> mem k FLOW_KEYS = false).
  { intros [<-|[<-|[]]]%mem_in; reflexivity. }
  destruct (mem k ["mediumId"; "mediumSlug"]) eqn:E.
  - destruct (match material s with Some m => _ | None => false end) eqn:Eg.
    + cbn [has keys List.map mem existsb]. rewrite Hget, Hdis by done.
      destruct (material s); [by rewrite Eg|done].
    + rewrite Hmed, Hget, E by done. destruct (material s); [by rewrite Eg|done].
  - replace (has k _) with false; [apply Hget|].
    destruct (match material s with Some m => _ | None => false end); [done|]. by rewrite Hout.
Qed.

Lemma flow_iff (s s' : SimulationSetupSnapshot) :
  well_keyed (JObj (flow_block s)) -> well_keyed (JObj (flow_block s')) ->
  tree_of (JObj (flow_block s)) = tree_of (JObj (flow_block s')) <->
  (forall k, In k ["mediumId"; "mediumSlug"] -> tree_of (medium_field s k) = tree_of (medium_field s' k)) /\
  (forall k, In k FLOW_KEYS -> tree_of (get k (flowState s)) = tree_of (get k (flowState s'))).
Proof.
  intros Hs Hs'. rewrite object_iff by done. split.
  - intros H. split; intros k Hk; specialize (H k); rewrite !flow_block_get in H.
    + apply mem_in in Hk. by rewrite Hk in H.
    + assert (E : mem k ["mediumId"; "mediumSlug"] = false)
        by (cbn in Hk; destruct_or! Hk; subst; reflexivity || done).
      apply mem_in in Hk. by rewrite E, Hk in H.
  - intros [Hm Hf] k. rewrite !flow_block_get. destruct (mem k ["mediumId"; "mediumSlug"]) eqn:E.
    + apply Hm. by apply mem_in.
    + destruct (mem k FLOW_KEYS) eqn:E'; [|done]. apply Hf. by apply mem_in.
Qed.

Lemma solverPhysics_get (o : record) (k : string) : get k (solverPhysics o) = numerics_field o k.
Proof.
  unfold solverPhysics, numerics_field. rewrite !get_app.
  set (ks := ROW_IDENTITY ++ _). assert (Hks : mem k ks =
    mem k ["id"; "slug"; "name"] || String.eqb k "uransInitializationIterations"
    || String.eqb k "localTimeStepSmoothing").
  { unfold ks, mem. cbn. by rewrite !orb_false_r, !orb_assoc. }
  assert (Hhas : has k (omit ks o) = true -> mem k ks = false).
  { unfold has, keys. intros H%mem_in%in_map_iff. destruct H as ([k' v] & <- & H). cbn [fst].
    unfold omit in H. apply filter_In in H as [_ H]. by apply negb_true_iff. }
  assert (Hno : has k (omit ks o) = false -> mem k ks = false -> get k o = JUndef).
  { intros H1 H2. apply get_not_has in H1. by rewrite get_omit, H2 in H1. }
  rewrite get_omit. rewrite Hks in *. clear Hks. clearbody ks.
  destruct (mem k ["id"; "slug"; "name"]) eqn:Em; cbn [orb] in *.
  - assert (Hk : In k ["id"; "slug"; "name"]) by (by apply mem_in). destruct (has k _); [by specialize (Hhas eq_refl)|].
    destruct (nullish (get "uransInitializationIterations" o)); destruct (nullish _ || _);
      destruct Hk as [<-|[<-|[<-|[]]]]; reflexivity.
  - destruct (String.eqb_spec k "uransInitializationIterations") as [->|H1]; cbn [orb] in *.
    + destruct (has _ (omit ks o)); [by specialize (Hhas eq_refl)|].
      destruct (nullish (get "uransInitializationIterations" o)); [|reflexivity].
      by destruct (nullish _ || _).
    + destruct (String.eqb_spec k "localTimeStepSmoothing") as [->|H2]; cbn [orb] in *.
      * destruct (has _ (omit ks o)); [by specialize (Hhas eq_refl)|].
        destruct (nullish (get "uransInitializationIterations" o)); cbn [has keys List.map fst existsb mem];
          by destruct (nullish _ || _).
      * destruct (has k (omit ks o)) eqn:Eh; [done|]. rewrite (Hno eq_refl eq_refl).
        destruct (nullish (get "uransInitializationIterations" o)), (nullish _ || _); cbn;
          repeat match goal with |- context [String.eqb k ?x] => destruct (String.eqb_spec k x); [done|] end;
          reflexivity.
Qed.

Lemma numerics_iff (o p : record) :
  well_keyed (JObj (solverPhysics o)) -> well_keyed (JObj (solverPhysics p)) ->
  tree_of (JObj (solverPhysics o)) = tree_of (JObj (solverPhysics p)) <->
  forall k, tree_of (numerics_field o k) = tree_of (numerics_field p k).
Proof. intros Ho Hp. rewrite object_iff by done. by setoid_rewrite solverPhysics_get. Qed.

(** The hashed objects of two setups carry the same data exactly when the physics is the same. *)
Lemma subset_iff (s s' : SimulationSetupSnapshot) (p p' : record) :
  physicsSubset s = Ok p -> physicsSubset s' = Ok p' ->
  well_keyed (JObj p) -> well_keyed (JObj p') ->
  tree_of (JObj p) = tree_of (JObj p') <-> same_physics localeCompare s s'.
Proof.
  intros Es Es' Hw Hw'. rewrite object_iff by done.
  destruct (physicsSubset_blocks s p Es) as (Mok & A & F & R & B & M & U & V & S & D & Z).
  destruct (physicsSubset_blocks s' p' Es') as (Mok' & A' & F' & R' & B' & M' & U' & V' & S' & D' & Z').
  assert (Hk : forall k, well_keyed (get k p)) by (intros k; by apply well_keyed_get).
  assert (Hk' : forall k, well_keyed (get k p')) by (intros k; by apply well_keyed_get).
  assert (Hsplit : (forall k, tree_of (get k p) = tree_of (get k p')) <->
    Forall (fun k => tree_of (get k p) = tree_of (get k p')) PHYSICS_KEYS).
  { rewrite List.Forall_forall. split; [auto|]. intros H k.
    destruct (decide (In k PHYSICS_KEYS)) as [Hin|Hin]; [auto|]. by rewrite Z, Z'. }
  rewrite Hsplit. clear Hsplit Z Z'. unfold PHYSICS_KEYS. rewrite !Forall_cons_iff, Forall_nil_iff.
  pose proof (Hk "flowState") as WF. pose proof (Hk' "flowState") as WF'.
  pose proof (Hk "mesh") as WM. pose proof (Hk' "mesh") as WM'.
  pose proof (Hk "uransMesh") as WU. pose proof (Hk' "uransMesh") as WU'.
  pose proof (Hk "uransPrecalcMesh") as WV. pose proof (Hk' "uransPrecalcMesh") as WV'.
  pose proof (Hk "solver") as WS. pose proof (Hk' "solver") as WS'. clear Hk Hk'.
  rewrite A, A', F, F', R, R', B, B', M, M', U, U', V, V', S, S', D, D' in *.
  rewrite material_iff, flow_iff, unnamed_iff, !pinned_iff, numerics_iff by done.
  rewrite !tree_pick by (repeat constructor; cbn; intuition discriminate).
  unfold same_physics. tauto.
Qed.
End Blocks.

(** C33. The physics hash identifies the physics: where the digest tells the two texts
    apart and the collation their keys, two snapshots have the same hash exactly when they
    agree on the material and (without an explicit gas model) the medium, on the fluid
    state, reference geometry, boundary and derived numbers, and on every property of the
    meshes, the pinned URANS ones included, and of the numerics but the names and row
    identities of their profiles, an absent initialization and the default smoothing. *)
Theorem physics_hash_identity (localeCompare : string -> string -> jsnum) (sha256 : string -> string)
    (s s' : SimulationSetupSnapshot) (p p' : record) :
  Collation localeCompare ->
  physicsSubset s = Ok p -> physicsSubset s' = Ok p' ->
  plain (JObj p) = true -> plain (JObj p') = true ->
  well_keyed localeCompare (JObj p) -> well_keyed localeCompare (JObj p') ->
  collision_free sha256 (stable_text localeCompare p) (stable_text localeCompare p') ->
  physicsHashForSnapshot localeCompare sha256 s = physicsHashForSnapshot localeCompare sha256 s' <->
  same_physics localeCompare s s'.
Proof.
  intros Hl Es Es' Hp Hp' Hw Hw' Hc. rewrite <- (subset_iff localeCompare s s' p p' Es Es' Hw Hw').
  rewrite <- (hash_iff localeCompare sha256 p p' Hp Hp' Hc).
  unfold physicsHashForSnapshot. rewrite Es, Es'. cbn [bind_result]. split; [by intros [= ->]|by intros ->].
Qed.

(** The physics hash, the engine and its numerics separate the public series. *)
Lemma method_hash_separates (localeCompare : string -> string -> jsnum) (sha256 : string -> string)
    (s s' : SimulationSetupSnapshot) (h h' : string) :
  physicsHashForSnapshot localeCompare sha256 s = Ok h ->
  physicsHashForSnapshot localeCompare sha256 s' = Ok h' ->
  plain (JObj (methodSubset s h)) = true -> plain (JObj (methodSubset s' h')) = true ->
  collision_free sha256 (stable_text localeCompare (methodSubset s h))
    (stable_text localeCompare (methodSubset s' h')) ->
  methodCompatibilityHashForSnapshot localeCompare sha256 s
  = methodCompatibilityHashForSnapshot localeCompare sha256 s' ->
  h = h' /\ forall k, In k METHOD_KEYS ->
    tree_of localeCompare (get k (engineOf s)) = tree_of localeCompare (get k (engineOf s')).
Proof.
  intros Eh Eh' Hp Hp' Hc H. unfold methodCompatibilityHashForSnapshot in H.
  rewrite Eh, Eh' in H. cbn [bind_result] in H. injection H as H.
  apply (hash_iff localeCompare sha256 _ _ Hp Hp' Hc) in H.
  assert (Hn : forall t x, List.NoDup (keys (methodSubset t x)))
    by (intros; repeat constructor; cbn; intuition discriminate).
  pose proof (fun k => tree_of_get localeCompare _ _ k (Hn s h) (Hn s' h') H) as Hget. split.
  - specialize (Hget "physicsHash"). cbn in Hget. by injection Hget.
  - apply tree_pick; [repeat constructor; cbn; intuition discriminate|]. apply (Hget "engine").
Qed.

(** A smoothing at its default is no smoothing. *)
Lemma default_smoothing_omitted (o : record) :
  has "localTimeStepSmoothing" o = false ->
  solverPhysics (("localTimeStepSmoothing", JNum 0.02) :: o) = solverPhysics o.
Proof.
  intros H. unfold solverPhysics.
  assert (E : get "localTimeStepSmoothing" o = JUndef) by (by apply get_not_has).
  cbn [get String.eqb Ascii.eqb Bool.eqb]. rewrite E. cbn [nullish orb app].
  change (strict_eq_num (JNum 0.02) 0.02) with true. reflexivity.
Qed.

(** ** Accepted analysis targets *)

Section TargetProofs.
Context (localeCompareEn : string -> string -> jsnum) (sha256 : string -> string).

Abbreviation target := (createAnalysisTarget localeCompareEn sha256).

Lemma target_inv (i : AnalysisInput) (signature : string) (p : record) :
  target i = Ok (signature, p) ->
  exists values text, materialPhysicsValues (inputMaterial i) = Ok values /\ p = physicalOf i values /\
    canonicalAnalysisJson localeCompareEn (JObj p) = Ok text /\ signature = sha256 text /\
    materialCheck localeCompareEn sha256 i = Ok tt /\ geometryChecks (points i) = Ok tt /\
    transitionChecks (transition i) = Ok tt /\ stateChecks (snapshot i) = Ok tt.
Proof.
  unfold createAnalysisTarget. rewrite !bind_ok.
  intros ([] & Hm & ([] & Hg & ([] & Ht & (values & Hv & H)%bind_ok)%bind_ok)%bind_ok).
  cbv zeta in H. apply bind_ok in H as ([] & Hs & (sig & H & [= <- <-])%bind_ok).
  unfold analysisContentHash in H. apply bind_ok in H as (text & Htext & [= <-]).
  exists values, text. split_and!; done.
Qed.

Lemma physicalOf_keys (i : AnalysisInput) (values : record) : List.NoDup (keys (physicalOf i values)).
Proof. repeat constructor; cbn; intuition discriminate. Qed.

(** The number of a field that must be positive. *)
Lemma positive_field_spec (v : jsval) : positive_field v = true <-> exists x, v = JNum x /\ (x > 0)%js = true.
Proof. destruct v; cbn; naive_solver. Qed.

(** ** The state of a target *)

(** Points with one abscissa have one largest and smallest abscissa. *)
Lemma fold_same (f : jsnum -> jsnum -> jsnum) (z : Z) (xs : list jsnum) : forall acc,
  (forall x y, isNaN x = false -> isNaN y = false -> isNaN (f x y) = false /\
     (ord x = z -> ord y = z -> ord (f x y) = z)) ->
  isNaN acc = false -> ord acc = z -> Forall (fun x => isNaN x = false /\ ord x = z) xs ->
  isNaN (fold_left f xs acc) = false /\ ord (fold_left f xs acc) = z.
Proof.
  induction xs as [|x xs IH]; intros acc Hf Hn Ho Hx; [done|].
  apply Forall_cons_iff in Hx as [[Hnx Hox] Hx]. destruct (Hf acc x Hn Hnx) as [H1 H2].
  apply (IH (f acc x) Hf); auto.
Qed.

Lemma one_abscissa (z : Z) (xs : list jsnum) :
  xs <> [] -> Forall (fun x => isFinite x = true /\ ord x = z) xs ->
  (Math_max_all xs === Math_min_all xs)%js = true.
Proof.
  intros Hne Hx. destruct xs as [|x xs]; [done|]. apply Forall_cons_iff in Hx as [[Hf Ho] Hx].
  apply isFinite_ord in Hf as [Hn Hb].
  assert (Hxs : Forall (fun y => isNaN y = false /\ ord y = z) xs).
  { forall_impl Hx. intros y [Hy Hyo]. by apply isFinite_ord in Hy as [? _]. }
  unfold Math_max_all, Math_min_all. cbn [fold_left].
  destruct (Math_max_ord PrimFloat.neg_infinity x eq_refl Hn) as [A1 A2].
  destruct (Math_min_ord PrimFloat.infinity x eq_refl Hn) as [B1 B2].
  change (ord PrimFloat.neg_infinity) with (- inf_ord)%Z in A2.
  rewrite ord_infinity in B2.
  destruct (fold_same Math_max z xs (Math_max PrimFloat.neg_infinity x)) as [C1 C2]; [|done|lia|done|].
  { intros u v Hu Hv. destruct (Math_max_ord u v Hu Hv) as [? ?]. split; [done|lia]. }
  destruct (fold_same Math_min z xs (Math_min PrimFloat.infinity x)) as [D1 D2]; [|done|lia|done|].
  { intros u v Hu Hv. destruct (Math_min_ord u v Hu Hv) as [? ?]. split; [done|lia]. }
  apply eqb_ord. split_and!; [done|done|lia].
Qed.

(** A finite geometry of three points at least, two of them at different abscissas. *)
Record valid_geometry (pts : list (jsnum * jsnum)) : Prop := {
  geometry_stored : 3 <= length pts;
  geometry_finite : Forall (fun q => isFinite (fst q) = true /\ isFinite (snd q) = true) pts;
  geometry_chord : exists q q', In q pts /\ In q' pts /\ (fst q < fst q')%js = true;
}.

Record valid_transition (t : TransitionAssumptions) : Prop := {
  transition_edges : (0 <= upper t)%js = true /\ (upper t <= 1)%js = true /\
    (0 <= lower t)%js = true /\ (lower t <= 1)%js = true;
  transition_growth : (0 < nCrit t)%js = true;
  transition_turbulent : model t = fully_turbulent -> (upper t === 0)%js = true /\ (lower t === 0)%js = true;
}.

Definition positive_number (v : jsval) : Prop := exists x, v = JNum x /\ (0 < x)%js = true.

Record valid_state (s : SimulationSetupSnapshot) : Prop := {
  state_reynolds : positive_number (get "reynolds" (derived s));
  state_mach : get "mach" (derived s) <> JNull /\
    forall x, get "mach" (derived s) = JNum x -> (x < 0)%js = false /\ (3 < x)%js = false;
  state_fluid : forall k, In k ["temperatureK"; "pressurePa"; "density"; "dynamicViscosity"; "kinematicViscosity"] ->
    positive_number (get k (flowState s));
  state_length : positive_number (get "referenceLengthM" (referenceGeometry s));
}.

(** A pinned material is the input's, up to an unknown speed of sound. *)
Definition material_agrees (i : AnalysisInput) : Prop :=
  forall m, material (snapshot i) = Some m -> exists h,
    analysisContentHash localeCompareEn sha256
      (JObj (with_entry "speedOfSound" (orElse (get "speedOfSound" m) JNull) m)) = Ok h /\
    analysisContentHash localeCompareEn sha256 (JObj (inputMaterial i)) = Ok h.

Lemma geometryChecks_valid (pts : list (jsnum * jsnum)) : geometryChecks pts = Ok tt -> valid_geometry pts.
Proof.
  unfold geometryChecks. rewrite !bind_throw_if. intros (H3%Nat.ltb_ge & Hf%negb_false_iff & Hc%throw_if_ok).
  rewrite forallb_forall in Hf.
  assert (Hfin : Forall (fun q => isFinite (fst q) = true /\ isFinite (snd q) = true) pts).
  { apply List.Forall_forall. intros q Hq. by apply andb_true_iff, Hf. }
  split; [done|done|]. destruct pts as [|q0 qs] eqn:Ep; [cbn in H3; lia|]. rewrite <- Ep in *.
  destruct (decide (Forall (fun q => ord (fst q) = ord (fst q0)) pts)) as [Hall|Hex].
  - exfalso. rewrite (one_abscissa (ord (fst q0))) in Hc; [done|by subst|].
    apply List.Forall_map. rewrite List.Forall_forall in *. intros q Hq. destruct (Hfin q Hq). auto.
  - apply not_Forall_Exists in Hex; [|solve_decision]. apply List.Exists_exists in Hex as (q & Hq & Hne).
    assert (H0 : In q0 pts) by (subst; by left). rewrite List.Forall_forall in Hfin.
    destruct (Hfin q Hq) as [Fq _], (Hfin q0 H0) as [F0 _]. apply isFinite_not_nan in Fq, F0.
    destruct (Z.lt_total (ord (fst q)) (ord (fst q0))) as [Hlt|[|Hlt]]; [|done|].
    + exists q, q0. split_and!; [done|done|by apply ltb_ord].
    + exists q0, q. split_and!; [done|done|by apply ltb_ord].
Qed.

Lemma transitionChecks_valid (t : TransitionAssumptions) : transitionChecks t = Ok tt -> valid_transition t.
Proof.
  unfold transitionChecks. rewrite bind_throw_if, throw_if_ok. cbn [forallb]. intros [H1 H2].
  breflect. destruct_and!. split; [tauto|done|]. intros Em. rewrite Em in H1. destruct H1 as [|H1]; [done|].
  breflect. tauto.
Qed.

Lemma stateChecks_valid (s : SimulationSetupSnapshot) : stateChecks s = Ok tt -> valid_state s.
Proof.
  unfold stateChecks. rewrite bind_throw_if, throw_if_ok. intros [H1 H2]. breflect.
  destruct H1 as [[[Hr Hn] H0] H3]. rewrite forallb_forall in H2. split.
  - by apply positive_field_spec.
  - split; [by intros E; rewrite E in Hn|]. intros x E. rewrite E in H0, H3. done.
  - intros k Hk. apply positive_field_spec, H2. cbn in Hk |- *. destruct_or! Hk; subst; tauto.
  - apply positive_field_spec, H2. cbn. tauto.
Qed.

Lemma materialCheck_agrees (i : AnalysisInput) : materialCheck localeCompareEn sha256 i = Ok tt -> material_agrees i.
Proof.
  unfold materialCheck, material_agrees. intros H m Em. rewrite Em in H.
  apply bind_ok in H as (h & Eh & (g & Eg & H%throw_if_ok%negb_false_iff%String.eqb_eq)%bind_ok).
  subst g. by exists h.
Qed.

(** ** The identity of a target *)

(** The texts of the coordinates. *)
Definition printed_point (q : jsnum * jsnum) : string * string :=
  (Number_toString (fst q), Number_toString (snd q)).
Definition printed_transition (t : TransitionAssumptions) : TransitionModel * string * string * string :=
  (model t, Number_toString (nCrit t), Number_toString (upper t), Number_toString (lower t)).

(** What two inputs of one target share. *)
Definition same_target (i i' : AnalysisInput) : Prop :=
  let block (f : SimulationSetupSnapshot -> record) ks := forall k, In k ks ->
    tree_of localeCompareEn (get k (f (snapshot i))) = tree_of localeCompareEn (get k (f (snapshot i'))) in
  airfoilId i = airfoilId i' /\ branch i = branch i' /\
  List.map printed_point (points i) = List.map printed_point (points i') /\
  printed_transition (transition i) = printed_transition (transition i') /\
  same_material localeCompareEn (Some (inputMaterial i)) (Some (inputMaterial i')) /\
  block flowState
    ["temperatureK"; "pressurePa"; "speedMps"; "density"; "dynamicViscosity"; "kinematicViscosity"] /\
  block referenceGeometry
    ["geometryType"; "referenceLengthKind"; "referenceLengthM"; "spanM"; "referenceAreaM2"] /\
  block boundary ["turbulenceIntensity"; "viscosityRatio"; "sandGrainHeight"; "roughnessConstant"] /\
  block derived ["reynolds"; "mach"].

Lemma geometry_iff (a b : list (jsnum * jsnum)) :
  tree_of localeCompareEn (geometry_json a) = tree_of localeCompareEn (geometry_json b) <->
  List.map printed_point a = List.map printed_point b.
Proof.
  set (g := fun q : string * string => TArr [TNum (fst q); TNum (snd q)]).
  assert (E : forall l, tree_of localeCompareEn (geometry_json l) = Some (TArr (List.map g (List.map printed_point l)))).
  { intros l. unfold geometry_json. cbn [tree_of]. by rewrite !List.map_map. }
  rewrite !E. split; [|by intros ->]. intros [= H]. revert H. generalize (List.map printed_point a), (List.map printed_point b).
  induction l as [|[x y] l IH]; intros [|[x' y'] l'] H; try done. unfold g in H. cbn in H.
  injection H as -> -> H. f_equal. by apply IH.
Qed.

Lemma transition_iff (t t' : TransitionAssumptions) :
  tree_of localeCompareEn (transition_json t) = tree_of localeCompareEn (transition_json t') <->
  printed_transition t = printed_transition t'.
Proof.
  unfold transition_json, printed_transition.
  assert (Hn : forall a b c d : jsval, List.NoDup (keys [("model", a); ("nCrit", b); ("upper", c); ("lower", d)]))
    by (intros; repeat constructor; cbn; intuition discriminate).
  split.
  - intros H. pose proof (fun k => tree_of_get localeCompareEn _ _ k (Hn _ _ _ _) (Hn _ _ _ _) H) as Hg.
    pose proof (Hg "model") as H1. pose proof (Hg "nCrit") as H2. pose proof (Hg "upper") as H3.
    pose proof (Hg "lower") as H4. cbn in H1, H2, H3, H4. injection H1 as H1. injection H2 as ->.
    injection H3 as ->. injection H4 as ->. by destruct (model t), (model t').
  - intros [= H1 H2 H3 H4]. cbn [tree_of List.flat_map app]. by rewrite H1, H2, H3, H4.
Qed.

Lemma target_iff (i i' : AnalysisInput) (values values' : record) :
  materialPhysicsValues (inputMaterial i) = Ok values -> materialPhysicsValues (inputMaterial i') = Ok values' ->
  tree_of localeCompareEn (JObj (physicalOf i values)) = tree_of localeCompareEn (JObj (physicalOf i' values')) <->
  same_target i i'.
Proof.
  intros Ev Ev'.
  assert (Hp : forall ks o o', List.NoDup ks ->
    tree_of localeCompareEn (JObj (pick ks o)) = tree_of localeCompareEn (JObj (pick ks o')) <->
    forall k, In k ks -> tree_of localeCompareEn (get k o) = tree_of localeCompareEn (get k o'))
    by (intros; by apply tree_pick).
  assert (Hk : tree_of localeCompareEn (JObj (physicalOf i values)) = tree_of localeCompareEn (JObj (physicalOf i' values'))
    <-> Forall (fun k => tree_of localeCompareEn (get k (physicalOf i values))
                       = tree_of localeCompareEn (get k (physicalOf i' values'))) (keys (physicalOf i values))).
  { rewrite List.Forall_forall. split.
    - intros H k _. by apply tree_of_get; [apply physicalOf_keys..|].
    - intros H. apply same_keys_tree; [done|apply physicalOf_keys|done]. }
  rewrite Hk. clear Hk. unfold physicalOf. cbn [keys List.map fst]. rewrite !Forall_cons_iff, Forall_nil_iff.
  cbn [get String.eqb Ascii.eqb Bool.eqb]. rewrite geometry_iff, transition_iff.
  rewrite !Hp by (repeat constructor; cbn; intuition discriminate).
  unfold same_target, same_material.
  assert (Hm : tree_of localeCompareEn (JObj values) = tree_of localeCompareEn (JObj values') <->
    exists v v', materialPhysicsValues (inputMaterial i) = Ok v /\ materialPhysicsValues (inputMaterial i') = Ok v' /\
      tree_of localeCompareEn (JObj v) = tree_of localeCompareEn (JObj v')).
  { rewrite Ev, Ev'. split; [intros H; by exists values, values'|by intros (v & v' & [= <-] & [= <-] & H)]. }
  rewrite Hm. clear Hm.
  assert (Hs : forall a b, tree_of localeCompareEn (JStr a) = tree_of localeCompareEn (JStr b) <-> a = b)
    by (intros; cbn [tree_of]; split; [by intros [= ->]|by intros ->]).
  rewrite !Hs. unfold FLOW_KEYS, REFERENCE_KEYS, BOUNDARY_KEYS. tauto.
Qed.

(** C34. A target is made only of a material that agrees with the one the setup pins, a
    finite geometry with a chord extent, valid transition assumptions and a supported
    state (positive Reynolds number, fluid state and reference length; a Mach number that
    is not [null], below zero or above three). Where the digest tells the two texts apart,
    its signature identifies it: two targets have one signature exactly when they are of
    the same airfoil, branch, coordinates, transition, material physics, fluid state,
    reference, boundary and derived numbers, whatever else their snapshots hold. *)
Theorem analysis_target_identity (i i' : AnalysisInput) (signature signature' : string) (p p' : record) :
  target i = Ok (signature, p) -> target i' = Ok (signature', p') ->
  plain (JObj p) = true -> plain (JObj p') = true ->
  (forall a b, canonicalAnalysisJson localeCompareEn (JObj p) = Ok a ->
     canonicalAnalysisJson localeCompareEn (JObj p') = Ok b -> collision_free sha256 a b) ->
  (material_agrees i /\ valid_geometry (points i) /\ valid_transition (transition i) /\
   valid_state (snapshot i)) /\
  (signature = signature' <-> same_target i i').
Proof.
  intros (values & text & Hv & -> & Ht & -> & Hm & Hg & Htr & Hs)%target_inv
    (values' & text' & Hv' & -> & Ht' & -> & _)%target_inv Hp Hp' Hc.
  split; [split_and!; [by apply materialCheck_agrees|by apply geometryChecks_valid|
    by apply transitionChecks_valid|by apply stateChecks_valid]|].
  specialize (Hc _ _ Ht Ht'). rewrite <- (target_iff i i' values values' Hv Hv'). split.
  - intros E%Hc. subst text'. by apply (canonical_injective _ _ _ text).
  - intros H. f_equal. apply canonical_stable in Ht, Ht'.
    destruct (stable_print localeCompareEn _ Hp) as [E _], (stable_print localeCompareEn _ Hp') as [E' _].
    rewrite Ht in E. rewrite Ht' in E'. rewrite <- H in E'. rewrite <- E' in E. by injection E.
Qed.
End TargetProofs.

Module Examples.
Definition flow : record :=
  [("id", JStr "f1"); ("mediumId", JStr "air"); ("mediumSlug", JStr "air"); ("temperatureK", JNum 288.15);
   ("pressurePa", JNum 101325); ("speedMps", JNum 30); ("density", JNum 1.225);
   ("dynamicViscosity", JNum 0.0000179); ("kinematicViscosity", JNum 0.0000146); ("mach", JNum 0.09)].

Definition boundary_of (roughness : jsnum) : record :=
  [("turbulenceIntensity", JNum 0.001); ("viscosityRatio", JNum 10);
   ("sandGrainHeight", JNum 0); ("roughnessConstant", JNum roughness)].

Definition snapshot_of (name : string) (flow bounds : record) (smoothing : option jsnum) :
    SimulationSetupSnapshot := {|
  material := None; engine := None; flowState := flow;
  referenceGeometry := [("geometryType", JStr "airfoil"); ("referenceLengthKind", JStr "chord");
                        ("referenceLengthM", JNum 1); ("spanM", JNull); ("referenceAreaM2", JNull)];
  derived := [("reynolds", JNum 2050000); ("mach", JNum 0.09)];
  boundary := bounds;
  mesh := [("id", JStr name); ("slug", JStr name); ("name", JStr name); ("cells", JNum 200000)];
  uransMesh := None; uransPrecalcMesh := None;
  solver := [("name", JStr name); ("turbulenceModel", JStr "kOmegaSST")]
    ++ match smoothing with Some x => [("localTimeStepSmoothing", JNum x)] | None => [] end;
  output := [] |}.

Definition snapshot_named (name : string) (smoothing : option jsnum) : SimulationSetupSnapshot :=
  snapshot_of name flow (boundary_of 0.5) smoothing.
Definition in_medium (medium : string) : SimulationSetupSnapshot :=
  snapshot_of "a" (("mediumSlug", JStr medium) :: omit ["mediumSlug"] flow) (boundary_of 0.5) None.

Definition subset_of (s : SimulationSetupSnapshot) : record :=
  match physicsSubset s with Ok p => p | Throw _ => [] end.
Definition smooth_subset : record := Eval vm_compute in subset_of (snapshot_named "a" (Some 0.1%float)).
Definition water_subset : record := Eval vm_compute in subset_of (in_medium "water").

Definition subset : record := Eval vm_compute in
  match physicsSubset (snapshot_named "a" None) with Ok p => p | Throw _ => [] end.

(** Names of profiles and the default smoothing do not count. *)
Example names_do_not_count :
  physicsSubset (snapshot_named "b" (Some 0.02%float)) = Ok subset /\
  physicsSubset (snapshot_named "b" (Some 0.1%float)) <> Ok subset.
Proof. split; [vm_compute; reflexivity|vm_compute; discriminate]. Qed.

Definition input_of (s : SimulationSetupSnapshot) : AnalysisInput := {|
  airfoilId := "naca0012"; points := [(1, 0); (0, 0.06); (0, -0.06)]%float;
  inputMaterial := [("phase", JStr "gas"); ("density", JNum 1.225)];
  snapshot := s;
  transition := {| model := fully_turbulent; nCrit := 9; upper := 0; lower := 0 |};
  branch := "increasing" |}.

(** One target by two profiles, and a rougher wall. *)
Definition input : AnalysisInput := input_of (snapshot_named "a" None).
Definition renamed_input : AnalysisInput := input_of (snapshot_named "b" (Some 0.1%float)).
Definition rough_input : AnalysisInput := input_of (snapshot_of "a" flow (boundary_of 0.75) None).

Definition target_of (i : AnalysisInput) : string * record :=
  match createAnalysisTarget code_units (fun s => s) i with Ok target => target | Throw _ => ("", []) end.
Definition input_physical : record := Eval vm_compute in snd (target_of input).
Definition input_signature : string := Eval vm_compute in fst (target_of input).
Definition rough_physical : record := Eval vm_compute in snd (target_of rough_input).
Definition rough_signature : string := Eval vm_compute in fst (target_of rough_input).
End Examples.

Lemma physics_hash_identity_witness :
  let s := Examples.snapshot_named "a" None in
  same_physics code_units s (Examples.snapshot_named "b" (Some 0.02%float)) /\
  ~ same_physics code_units s (Examples.snapshot_named "a" (Some 0.1%float)) /\
  ~ same_physics code_units s (Examples.in_medium "water").
Proof.
  cbv zeta. split; [|split].
  - apply (physics_hash_identity code_units (fun s => s) _ _ Examples.subset Examples.subset code_unit_collation);
      [vm_compute; reflexivity..|apply distinct_keyed; vm_compute; reflexivity|
       apply distinct_keyed; vm_compute; reflexivity|intros H; exact H|vm_compute; reflexivity].
  - intros H. apply (physics_hash_identity code_units (fun s => s) _ _ Examples.subset Examples.smooth_subset
      code_unit_collation) in H;
      [vm_compute in H; discriminate H|vm_compute; reflexivity..|apply distinct_keyed; vm_compute; reflexivity|
       apply distinct_keyed; vm_compute; reflexivity|intros H'; exact H'].
  - intros H. apply (physics_hash_identity code_units (fun s => s) _ _ Examples.subset Examples.water_subset
      code_unit_collation) in H;
      [vm_compute in H; discriminate H|vm_compute; reflexivity..|apply distinct_keyed; vm_compute; reflexivity|
       apply distinct_keyed; vm_compute; reflexivity|intros H'; exact H'].
Defined.

Lemma analysis_target_identity_witness :
  valid_geometry (points Examples.input) /\
  same_target code_units Examples.input Examples.renamed_input /\
  ~ same_target code_units Examples.input Examples.rough_input.
Proof.
  destruct (analysis_target_identity code_units (fun s => s) Examples.input Examples.renamed_input
    Examples.input_signature Examples.input_signature Examples.input_physical Examples.input_physical)
    as [(_ & Hg & _) Hsame]; [vm_compute; reflexivity..|intros a b _ _ H; exact H|].
  split; [exact Hg|]. split; [apply Hsame; reflexivity|]. intros H.
  apply (analysis_target_identity code_units (fun s => s) Examples.input Examples.rough_input
    Examples.input_signature Examples.rough_signature Examples.input_physical Examples.rough_physical) in H;
    [vm_compute in H; discriminate H|vm_compute; reflexivity..|intros a b _ _ H'; exact H'].
Defined.
