(* ===== verification/BatchGroup.v ===== *)
(** * Job groups of a campaign

    From [packages/db/src/campaign-execution.ts]: the order of schedule candidates,
    the key of the conditions that may share an engine job, their grouping into the
    entries of one batch, the budget of a job and the convergence test of a lane.

    The snapshots and the stable text are those of [SetupIdentity] and [StableJson]:
    [stableStringify] and [withoutRowIdentity] of this module are the same functions.
    The host's collation and SHA-256 are parameters. *)

From Stdlib Require Import ZArith Lia Bool Ascii String Permutation Sorted.
From Stdlib Require Import Floats.
From stdpp Require Import base list sorting strings option numbers.
From S2P Require Import Prelude JsNumber JsString JsValue JsArray JsInteger CanonicalJson Canonical StableJson SetupIdentity.

Local Open Scope string_scope.
Local Open Scope list_scope.
Local Open Scope result_scope.

(** ** The order of the schedule *)

Record ScheduleCandidate := {
  effectivePriority : jsnum;
  candidate_reynolds : jsnum;
  slug : string;
  aoa : jsnum;
}.

Definition compareScheduleCandidates (a b : ScheduleCandidate) : jsnum :=
  if negb (effectivePriority a === effectivePriority b)%js
  then (effectivePriority b - effectivePriority a)%float
  else if negb (candidate_reynolds a === candidate_reynolds b)%js
  then (candidate_reynolds a - candidate_reynolds b)%float
  else if negb (String.eqb (slug a) (slug b)) then if str_ltb (slug a) (slug b) then (-1)%float else 1%float
  else (aoa a - aoa b)%float.

(** ** The physics group of a condition *)

Definition ENGINE_KEYS : list string :=
  ["key"; "family"; "distribution"; "releaseVersion"; "methodFamily"; "adapterContractVersion";
   "numericsRevision"].
Definition AMBIENT_KEYS : list string :=
  ["mediumId"; "temperatureK"; "pressurePa"; "density"; "dynamicViscosity"].

(** A field that the type says is a number; any other value is refused like [NaN]. *)
Definition number_of (v : jsval) : jsnum := match v with JNum x => x | _ => PrimFloat.nan end.

Definition chordOf (s : SimulationSetupSnapshot) : jsnum :=
  number_of (get "referenceLengthM" (referenceGeometry s)).

(** The fields that [campaignBatchGroupKey] hashes. *)
Definition batchSubset (s : SimulationSetupSnapshot) : result record :=
  let* chord := canonicalSiString chordM (chordOf s) in
  Ok ([("engine", JObj (pick ENGINE_KEYS (engineOf s)));
       ("ambient", JObj (pick AMBIENT_KEYS (flowState s)));
       ("referenceGeometry", JObj
         (pick ["geometryType"; "referenceLengthKind"] (referenceGeometry s) ++ [("chord", JStr chord)]
          ++ pick ["spanM"; "referenceAreaM2"] (referenceGeometry s)));
       ("boundary", JObj (pick BOUNDARY_KEYS (boundary s)));
       ("mesh", JObj (omit ROW_IDENTITY (mesh s)))]
      ++ pinnedMesh "uransMesh" (uransMesh s)
      ++ pinnedMesh "uransPrecalcMesh" (uransPrecalcMesh s)
      ++ [("solver", JObj (omit ROW_IDENTITY (solver s)));
          ("output", JObj (omit ROW_IDENTITY (output s)))]).

Record CampaignConditionCandidate := {
  conditionId : string;
  revisionId : string;
  presetId : string;
  reynolds : jsnum;
  aoas : list jsnum;
  requestedPolarAoas : list jsnum;
  snapshot : SimulationSetupSnapshot;
}.

Record CampaignBatchEntry := {
  entry_conditionId : string;
  entry_revisionId : string;
  entry_presetId : string;
  speed : jsnum;
  entry_reynolds : jsnum;
  entry_requestedPolarAoas : list jsnum;
}.

Record CampaignBatch := {
  chord : jsnum;
  angles : list jsnum;
  entries : list CampaignBatchEntry;
}.

Definition angleSetKey (angles : list jsnum) : result string :=
  let* canonical := result_map canonicalAoa angles in
  Ok (join "," (List.map Number_toString canonical)).

(** [[...new Set(angles.map(canonicalAoa))].sort((x, y) => x - y)] *)
Definition canonicalSet (angles : list jsnum) : result (list jsnum) :=
  let* canonical := result_map canonicalAoa angles in Ok (sort ascending (dedup canonical)).

(** [xs.filter(p)] for a test that may throw. *)
Fixpoint result_filter {A} (p : A -> result bool) (xs : list A) : result (list A) :=
  match xs with
  | [] => Ok []
  | x :: xs' =>
      let* b := p x in
      let* rest := result_filter p xs' in
      Ok (if b then x :: rest else rest)
  end.

Section Grouping.
Context (localeCompare : string -> string -> jsnum) (sha256 : string -> string).

Definition campaignBatchGroupKey (s : SimulationSetupSnapshot) : result string :=
  let* subset := batchSubset s in Ok (hashOf localeCompare sha256 subset).

(** The three keys of the head, compared left to right. *)
Definition joins (headGroup headAngles headRequestedPolar : string) (c : CampaignConditionCandidate) :
    result bool :=
  let* group := campaignBatchGroupKey (snapshot c) in
  if negb (String.eqb group headGroup) then Ok false
  else
    let* open := angleSetKey (aoas c) in
    if negb (String.eqb open headAngles) then Ok false
    else
      let* requested := angleSetKey (requestedPolarAoas c) in
      Ok (String.eqb requested headRequestedPolar).

Definition toEntry (c : CampaignConditionCandidate) : result CampaignBatchEntry :=
  let* v := canonicalSi speedMps (number_of (get "speedMps" (flowState (snapshot c)))) in
  let* polar := canonicalSet (requestedPolarAoas c) in
  Ok {| entry_conditionId := conditionId c; entry_revisionId := revisionId c;
        entry_presetId := presetId c; speed := v; entry_reynolds := reynolds c;
        entry_requestedPolarAoas := polar |}.

Definition byReynolds (x y : CampaignBatchEntry) : jsnum :=
  if negb (entry_reynolds x === entry_reynolds y)%js
  then (entry_reynolds x - entry_reynolds y)%float
  else if str_ltb (entry_conditionId x) (entry_conditionId y) then (-1)%float else 1%float.

Definition groupCampaignBatchEntries (head : CampaignConditionCandidate)
    (candidates : list CampaignConditionCandidate) : result CampaignBatch :=
  let* headGroup := campaignBatchGroupKey (snapshot head) in
  let* headAngles := angleSetKey (aoas head) in
  let* headRequestedPolar := angleSetKey (requestedPolarAoas head) in
  let* members := result_filter (joins headGroup headAngles headRequestedPolar) candidates in
  let* mapped := result_map toEntry members in
  let* c := canonicalSi chordM (chordOf (snapshot head)) in
  let* a := canonicalSet (aoas head) in
  Ok {| chord := c; angles := a; entries := sort byReynolds mapped |}.
End Grouping.

(** ** The budget of a job *)

Definition CAMPAIGN_MAX_CASES_PER_JOB : jsnum := 256%float.

(** [xs.slice(0, n)] for an integer [n] or one that is not finite. *)
Definition slice0 {A} (xs : list A) (n : jsnum) : list A :=
  match to_integer n with
  | Some z => if (z <? 0)%Z then take (Z.to_nat (Z.of_nat (length xs) + z)) xs else take (Z.to_nat z) xs
  | None => if (n > 0)%js then xs else []
  end.

Definition chunkCampaignSpeeds {A} (entries : list A) (angleCount maxCases : jsnum) : list A :=
  let maxSpeeds := Math_max 1 (Math_floor (maxCases / Math_max 1 angleCount)%float) in
  slice0 entries maxSpeeds.

(** ** Keys and convergence of a refinement lane *)

Record CampaignLaneKey := {
  lane_campaignId : string;
  lane_airfoilId : string;
  lane_conditionId : string;
  objective : string;
}.

Definition laneKeyId (key : CampaignLaneKey) : string :=
  lane_campaignId key +:+ ":" +:+ lane_airfoilId key +:+ ":" +:+ lane_conditionId key +:+ ":" +:+ objective key.

Definition isOscillationConverged (predictions : list jsnum) (toleranceDeg : jsnum) : bool :=
  if Nat.ltb (length predictions) 3 then false
  else
    let last := drop (length predictions - 3) predictions in
    (Math_max_all last - Math_min_all last <= 2 * toleranceDeg + 1e-9)%js.

(** ** What the members of a batch share *)









Section Members.
Context (localeCompare : string -> string -> jsnum) `{!Collation localeCompare}.

Abbreviation tree_of := (tree_of localeCompare).
Abbreviation well_keyed := (well_keyed localeCompare).








End Members.

(** ** The entries of a batch *)







(** The budget of a job. With [n] angles and [m] cases allowed, a chunk is the
    first [k] speeds, where [k] is at least one, a longer chunk than one speed stays
    within the budget, and one speed more would exceed it. *)
Theorem chunk_budget {A} (entries : list A) (angleCount maxCases : jsnum) (n m : Z) :
  to_integer angleCount = Some n -> to_integer maxCases = Some m ->
  (n < 2 ^ 53)%Z -> (0 <= m < 2 ^ 53)%Z ->
  exists k, chunkCampaignSpeeds entries angleCount maxCases = take k entries /\ 1 <= k /\
    (k = 1%nat \/ (Z.of_nat k * n <= m)%Z) /\ (m < (Z.of_nat k + 1) * Z.max 1 n)%Z.
Proof.
  intros Hn Hm Bn Bm.
  assert (Hone : to_integer (Math_max 1 angleCount) = Some (Z.max 1 n))
    by (apply Math_max_integer; [exact to_integer_1|done]).
  pose proof (floor_div_integer _ _ _ _ Hm Hone ltac:(lia) ltac:(lia)) as Hq.
  pose proof (Math_max_integer _ _ _ _ to_integer_1 Hq) as Hk.
  unfold chunkCampaignSpeeds, slice0. rewrite Hk.
  destruct (Z.ltb_spec (Z.max 1 (m / Z.max 1 n)) 0) as [|_]; [lia|].
  exists (Z.to_nat (Z.max 1 (m / Z.max 1 n))). split; [done|].
  set (d := Z.max 1 n) in *. assert (Hd : (1 <= d)%Z) by lia. assert (Hnd : (n <= d)%Z) by lia.
  pose proof (Z.div_mod m d ltac:(lia)) as E. pose proof (Z.mod_pos_bound m d ltac:(lia)) as B.
  set (q := (m / d)%Z) in *. split; [lia|]. split.
  - destruct (Z.le_gt_cases q 1) as [|]; [left; lia|right]. nia.
  - rewrite Z2Nat.id by lia. destruct (Z.le_gt_cases q 1); [rewrite Z.max_l by lia|rewrite Z.max_r by lia]; nia.
Qed.

Module Examples.
Import SetupIdentity.Examples.

Definition condition (id : string) (re : jsnum) (open : list jsnum) (s : SimulationSetupSnapshot) :
    CampaignConditionCandidate := {|
  conditionId := id; revisionId := "r1"; presetId := "p1"; reynolds := re; aoas := open;
  requestedPolarAoas := [0; 2; 4]%float; snapshot := s |}.

Definition at_speed (name : string) (v : jsnum) : SimulationSetupSnapshot :=
  snapshot_of name (("speedMps", JNum v) :: omit ["speedMps"] flow) (boundary_of 0.5) None.
Definition rough : SimulationSetupSnapshot := snapshot_of "a" flow (boundary_of 0.75) None.

Definition head : CampaignConditionCandidate := condition "c2" 2000000 [2; 0]%float (at_speed "a" 30).
Definition slow : CampaignConditionCandidate := condition "c1" 1000000 [2; 0]%float (at_speed "b" 15).
Definition closed : CampaignConditionCandidate := condition "c3" 1000000 [0]%float (at_speed "a" 15).
Definition rougher : CampaignConditionCandidate := condition "c4" 2000000 [2; 0]%float rough.
Definition candidates : list CampaignConditionCandidate := [head; closed; slow; rougher].

Definition batch : CampaignBatch := Eval vm_compute in
  match groupCampaignBatchEntries code_units (fun s => s) head candidates with
  | Ok b => b | Throw _ => {| chord := 0; angles := []; entries := [] |} end.

(** The conditions with other open angles and with another wall stay out, the one with
    other names and speed is in; the smallest Reynolds number leads. *)
Example batch_members : List.map entry_conditionId (entries batch) = ["c1"; "c2"].
Proof. vm_compute. reflexivity. Qed.



End Examples.


Lemma chunk_budget_witness :
  exists k, chunkCampaignSpeeds [1; 2; 3; 4; 5] 100 CAMPAIGN_MAX_CASES_PER_JOB = take k [1; 2; 3; 4; 5] /\
    1 <= k /\ (k = 1%nat \/ (Z.of_nat k * 100 <= 256)%Z) /\ (256 < (Z.of_nat k + 1) * Z.max 1 100)%Z.
Proof.
  apply (chunk_budget [1; 2; 3; 4; 5] 100%float CAMPAIGN_MAX_CASES_PER_JOB 100 256).
  - vm_compute. reflexivity.
  - vm_compute. reflexivity.
  - lia.
  - lia.
Defined.
