(* ===== verification/SolverBudget.v ===== *)
(** * Solver budgets of physical cases

    [packages/engine-client/src/solver-budget.ts]: the key of a physical case
    and the allocation of solver seconds to the cases of a request, either one
    shared limit or one explicit limit per case.  The resulting [Map] is the
    list of its entries in insertion order. *)

From Stdlib Require Import ZArith Lia Bool.
From Stdlib Require Import Floats.
From stdpp Require Import base list strings option numbers.
From S2P Require Import Prelude JsNumber JsString JsValue JsArray JsMap.

Local Open Scope string_scope.
Local Open Scope list_scope.
Local Open Scope result_scope.

(** [SolverBudgetCase]; the fields of an allocation read from a request may be
    anything. *)
Record SolverBudgetCase := { chord : jsval; speed : jsval; aoa_deg : jsval }.

Definition number_text (v : jsval) : string :=
  match v with JNum x => Number_toString x | _ => "null" end.

Definition solverBudgetCaseKey (physical : SolverBudgetCase) : result string :=
  let* _ := throw_if
    (negb (forallb finite [chord physical; speed physical; aoa_deg physical])
     || on_num (fun x => x <= 0)%js (chord physical)
     || on_num (fun x => x <= 0)%js (speed physical))
    "Solver allocation requires a finite physical case" in
  Ok ("[" +:+ join "," (List.map number_text
        [chord physical; speed physical; aoa_deg physical]) +:+ "]").

Definition validLimit (value : jsval) : bool :=
  match value with
  | JNum x => isFinite x && (x > 0)%js && (x <= 43200)%js
  | _ => false
  end.

(** The seconds that [validLimit] has narrowed. *)
Definition limit_of (value : jsval) : jsnum :=
  match value with JNum x => x | _ => PrimFloat.nan end.

Abbreviation allocation_map := (list (string * jsnum)).

Definition caseOf (allocation : record) : SolverBudgetCase :=
  {| chord := get "chord" allocation; speed := get "speed" allocation;
     aoa_deg := get "aoa_deg" allocation |}.

Fixpoint allocationLoop (scope : list string) (values : list jsval) (resolved : allocation_map) :
    result allocation_map :=
  match values with
  | [] => Ok resolved
  | JObj allocation :: values' =>
      let* key := solverBudgetCaseKey (caseOf allocation) in
      let* _ := throw_if
        (negb (mem key scope) || mem key (List.map fst resolved)
         || negb (validLimit (get "limit_seconds" allocation)))
        "Solver allocation differs from its exact physical case scope" in
      allocationLoop scope values' (resolved ++ [(key, limit_of (get "limit_seconds" allocation))])
  | _ :: _ => Throw "Malformed solver case allocation"
  end.

Definition resolveSolverCaseAllocations (resources : jsval) (cases : list SolverBudgetCase)
    (expectedVersion : jsval) : result allocation_map :=
  match resources with
  | JObj values =>
      let* _ := throw_if (negb (nullish expectedVersion) && negb (strict_eq_num expectedVersion 2))
        "Solver allocation contract version differs from version two" in
      let* keys := result_map solverBudgetCaseKey cases in
      let scope := dedup_strings keys in
      let* _ := throw_if
        (Nat.eqb (length scope) 0 || Nat.ltb 512 (length scope)
         || negb (Nat.eqb (length scope) (length cases)))
        "Solver allocation scope must contain one to 512 unique physical cases" in
      let shared := get "case_solver_budget_seconds" values in
      let allocations := get "case_solver_allocations" values in
      if nullish allocations then
        let* _ := throw_if (negb (validLimit shared))
          "A finite positive shared solver allocation is required" in
        Ok (List.map (fun key => (key, limit_of shared)) scope)
      else
        match allocations with
        | JArr l =>
            let* _ := throw_if
              (negb (nullish shared) || negb (strict_eq_num expectedVersion 2)
               || negb (Nat.eqb (length l) (length scope)))
              "Exact solver allocations require version two and complete exclusive scope" in
            allocationLoop scope l []
        | _ => Throw "Exact solver allocations require version two and complete exclusive scope"
        end
  | _ => Throw "Solver allocation resources are missing"
  end.

(** ** Theory *)

Definition valid_limit (x : jsnum) : Prop :=
  isFinite x = true /\ PrimFloat.ltb 0 x = true /\ PrimFloat.leb x 43200 = true.

Lemma validLimit_spec (v : jsval) : validLimit v = true <-> exists x, v = JNum x /\ valid_limit x.
Proof.
  unfold valid_limit. destruct v; cbn [validLimit]; rewrite ?andb_true_iff; naive_solver.
Qed.

Lemma validLimit_limit (v : jsval) : validLimit v = true -> valid_limit (limit_of v).
Proof. rewrite validLimit_spec. by intros (x & -> & H). Qed.

(** An entry that the explicit allocations grant. *)
Definition granted (l : list jsval) (e : string * jsnum) : Prop :=
  exists o, In (JObj o) l /\ solverBudgetCaseKey (caseOf o) = Ok (fst e) /\
    get "limit_seconds" o = JNum (snd e) /\ valid_limit (snd e).

Lemma allocationLoop_spec (scope : list string) (l : list jsval) : forall resolved m,
  allocationLoop scope l resolved = Ok m ->
  List.NoDup (List.map fst resolved) ->
  exists new, m = resolved ++ new /\ length new = length l /\
    List.NoDup (List.map fst m) /\ incl (List.map fst new) scope /\ Forall (granted l) new.
Proof.
  induction l as [|v l IH]; intros resolved m; cbn [allocationLoop].
  - intros [= <-] Hn. exists []. rewrite app_nil_r. split; [done|]. split; [done|]. split; [done|]. split; [intros k []|constructor].
  - destruct v as [| | | | | |o]; try done. rewrite bind_ok. intros (k & Hk & H).
    apply bind_throw_if in H as [Hg H]. intros Hn.
    apply orb_false_iff in Hg as [Hg Hv%negb_false_iff]. apply orb_false_iff in Hg as [Hs%negb_false_iff Hr].
    assert (Hkr : ~ In k (List.map fst resolved)) by (rewrite <- mem_spec; congruence).
    apply IH in H as (new & -> & Hl & Hd & Hi & Hg).
    + exists ((k, limit_of (get "limit_seconds" o)) :: new). rewrite <- app_assoc in *.
      split; [done|]. split; [cbn; by rewrite Hl|]. split; [exact Hd|]. split.
      * intros k' [<-|Hk']; [by apply mem_spec|by apply Hi].
      * constructor.
        -- apply validLimit_spec in Hv as (x & Hx & Hv). exists o. rewrite Hx. cbn.
           split; [by left|]. by split.
        -- forall_impl Hg. intros e (o' & Ho & Hrest).
           exists o'. split; [by right|done].
    + rewrite map_app. cbn. apply List.NoDup_app; [done|repeat constructor; auto|].
      intros x Hx [<-|[]]. done.
Qed.

(** The resolved map, in both forms of the request. *)
Lemma resolve_sound (resources : jsval) (cases : list SolverBudgetCase) (expectedVersion : jsval)
    (m : allocation_map) :
  resolveSolverCaseAllocations resources cases expectedVersion = Ok m ->
  exists keys, Forall2 (fun c k => solverBudgetCaseKey c = Ok k) cases keys /\
    List.NoDup keys /\ (1 <= length keys <= 512)%nat /\
    List.NoDup (List.map fst m) /\ (forall k, In k (List.map fst m) <-> In k keys) /\
    let shared := prop "case_solver_budget_seconds" resources in
    let allocations := prop "case_solver_allocations" resources in
    forall k x, In (k, x) m -> valid_limit x /\
      ((nullish allocations = true /\ shared = JNum x) \/
       (exists l, allocations = JArr l /\ nullish shared = true /\
          strict_eq_num expectedVersion 2 = true /\ granted l (k, x))).
Proof.
  unfold resolveSolverCaseAllocations. destruct resources as [| | | | | |o]; try done.
  intros [_ H]%bind_throw_if. apply bind_ok in H as (keys & Hkeys%result_map_ok & H).
  apply bind_throw_if in H as [Hn H].
  apply orb_false_iff in Hn as [Hn Hl%negb_false_iff%Nat.eqb_eq].
  apply orb_false_iff in Hn as [H0%Nat.eqb_neq H512%Nat.ltb_ge].
  pose proof (Forall2_length Hkeys) as Hlen. rewrite Hlen in Hl.
  pose proof (proj1 (dedup_strings_full keys) Hl) as Hd. rewrite Hl in H0, H512.
  exists keys. split; [exact Hkeys|]. split; [exact Hd|]. split; [lia|]. cbn [prop].
  destruct (nullish (get "case_solver_allocations" o)) eqn:En.
  - apply bind_throw_if in H as [Hv%negb_false_iff H]. injection H as <-.
    rewrite map_map. cbn [fst]. rewrite List.map_id.
    split; [apply dedup_strings_nodup|]. split; [apply in_dedup_strings|].
    intros k x (k' & [= _ <-] & _)%in_map_iff. split; [by apply validLimit_limit|]. left.
    split; [done|]. apply validLimit_spec in Hv as (x & -> & _). done.
  - destruct (get "case_solver_allocations" o) as [| | | | |l|]; try done.
    apply bind_throw_if in H as [Hg H]. apply orb_false_iff in Hg as [Hg Hll%negb_false_iff%Nat.eqb_eq].
    apply orb_false_iff in Hg as [Hs%negb_false_iff Hv%negb_false_iff].
    destruct (allocationLoop_spec _ l [] m H) as (new & -> & Hnew & Hdm & Hi & Hg); [constructor|].
    cbn [app] in *. split; [exact Hdm|]. split.
    + intros k. rewrite (nodup_incl_all _ _ Hdm Hi); [apply in_dedup_strings|].
      rewrite length_map. congruence.
    + intros k x Hk. rewrite List.Forall_forall in Hg. pose proof (Hg (k, x) Hk) as Hgx.
      split; [by destruct Hgx as (? & _ & _ & _ & ?)|]. right. by exists l.
Qed.

(** Solver seconds are granted to exactly the physical cases of the request:
    a resolved allocation covers one to 512 distinct finite cases, has exactly
    one entry per case and none for any other, and every limit is finite,
    positive and at most 43200 seconds; it is the shared limit when no explicit
    allocation is given, and otherwise the limit of an explicit entry for that
    very case, under contract version two and without a shared limit. *)
Theorem resolveSolverCaseAllocations_exact (resources : jsval) (cases : list SolverBudgetCase)
    (expectedVersion : jsval) (m : allocation_map) :
  resolveSolverCaseAllocations resources cases expectedVersion = Ok m ->
  exists keys, Forall2 (fun c k => solverBudgetCaseKey c = Ok k) cases keys /\
    List.NoDup keys /\ (1 <= length keys <= 512)%nat /\
    List.NoDup (List.map fst m) /\ (forall k, In k (List.map fst m) <-> In k keys) /\
    let shared := prop "case_solver_budget_seconds" resources in
    let allocations := prop "case_solver_allocations" resources in
    forall k x, In (k, x) m -> valid_limit x /\
      ((nullish allocations = true /\ shared = JNum x) \/
       (exists l, allocations = JArr l /\ nullish shared = true /\
          strict_eq_num expectedVersion 2 = true /\ granted l (k, x))).
Proof. apply resolve_sound. Qed.

Definition sample_case (a : jsnum) : SolverBudgetCase :=
  {| chord := JNum 1; speed := JNum 30; aoa_deg := JNum a |}.
Definition sample_allocation (a seconds : jsnum) : jsval :=
  JObj [("chord", JNum 1); ("speed", JNum 30); ("aoa_deg", JNum a); ("limit_seconds", JNum seconds)].
Definition sample_resources : jsval :=
  JObj [("case_solver_allocations", JArr [sample_allocation 2 60; sample_allocation 0 900])].

Example sample_resolved :
  resolveSolverCaseAllocations sample_resources [sample_case 0; sample_case 2] (JNum 2)
    = Ok [("[1,30,2]", 60%float); ("[1,30,0]", 900%float)] /\
  resolveSolverCaseAllocations (JObj [("case_solver_budget_seconds", JNum 600)])
    [sample_case 0; sample_case (-2.5)] JUndef
    = Ok [("[1,30,0]", 600%float); ("[1,30,-2.5]", 600%float)] /\
  throws (resolveSolverCaseAllocations sample_resources [sample_case 0; sample_case 3] (JNum 2))
    = true /\
  throws (resolveSolverCaseAllocations sample_resources [sample_case 0; sample_case 0] (JNum 2))
    = true.
Proof. vm_compute. repeat split. Qed.

Lemma resolveSolverCaseAllocations_exact_witness :
  exists keys, Forall2 (fun c k => solverBudgetCaseKey c = Ok k) [sample_case 0; sample_case 2] keys /\
    List.NoDup keys.
Proof.
  destruct (resolveSolverCaseAllocations_exact sample_resources [sample_case 0; sample_case 2]
    (JNum 2) _ (proj1 sample_resolved)) as (keys & H1 & H2 & _).
  exists keys. exact (conj H1 H2).
Defined.
