(* ===== verification/JobSlots.v ===== *)
(** * CPU slots of a job

    [admissionCpuSlotsForRequest] and [pinAdmissionCpuSlotsForRequest] of
    [apps/sweeper/src/build-request.ts]: the CPU weight that a job reserves when it
    is admitted, and the request the engine gets, made to use just that weight.
    [remainingAdmissionCpuSlotsForStatus] of [apps/sweeper/src/reconcile.ts]: what a
    running job still needs of its reservation.

    The resources of a request are an object that other parts of the payload may
    share: a request holds a reference into [heap]. *)

From Stdlib Require Import ZArith Lia Bool String.
From Stdlib Require Import Floats.
From stdpp Require Import base list strings option numbers.
From S2P Require Import Prelude JsNumber JsString JsValue JsInteger.

Local Open Scope string_scope.
Local Open Scope list_scope.

(** ** Requests *)

(** The fields the functions read and write; [other] holds the rest of the object,
    which is copied. *)
Record ResourceParams := {
  cpu_budget : option jsnum;
  case_concurrency : option jsnum;
  solver_processes : option jsnum;
  other : record;
}.

Abbreviation heap := (list ResourceParams).
Abbreviation ref := nat.

Record Solver := { warm_start : option bool; force_transient : option bool }.

Record PolarRequest := {
  resources : option ref;
  angles : option (list jsnum);
  speeds : option (list jsnum);
  chord_lengths : option (list jsnum);
  solver : option Solver;
}.

(** [resources?.field] *)
Definition field (f : ResourceParams -> option jsnum) (h : heap) (r : option ref) : option jsnum :=
  match r with
  | Some i => match h !! i with Some o => f o | None => None end
  | None => None
  end.

(** [Number.isInteger(x) && (x ?? 0) > 0], and the number then. *)
Definition positiveInteger (x : option jsnum) : option jsnum :=
  match x with
  | Some n => if isInteger n && (0 < n)%js then Some n else None
  | None => None
  end.

(** ** The weight of a request *)

Definition solverProcesses (h : heap) (r : option ref) : jsnum :=
  default 1%float (positiveInteger (field solver_processes h r)).

Definition caseConcurrency (h : heap) (r : option ref) : option jsnum :=
  positiveInteger (field case_concurrency h r).

Definition cpuBudget (h : heap) (r : option ref) : option jsnum :=
  positiveInteger (field cpu_budget h r).

(** [xs?.length ?? 0] *)
Definition count (xs : option (list jsnum)) : jsnum :=
  match xs with Some l => of_nat (length l) | None => 0%float end.

Definition warmStartedRans (request : PolarRequest) : bool :=
  match solver request with
  | Some s => match warm_start s with Some true => true | _ => false end
              && negb (match force_transient s with Some true => true | _ => false end)
  | None => false
  end.

(** The independent cases: a warm-started RANS polar marches its angles one by one. *)
Definition caseCount (request : PolarRequest) : jsnum :=
  if warmStartedRans request
  then (Math_max 1 (count (speeds request)) * Math_max 1 (count (chord_lengths request)))%float
  else (count (angles request) * Math_max 1 (count (speeds request))
        * Math_max 1 (count (chord_lengths request)))%float.

Definition admissionCpuSlotsForRequest (h : heap) (request : PolarRequest) : jsnum :=
  let processes := solverProcesses h (resources request) in
  let cases := caseCount request in
  match caseConcurrency h (resources request) with
  | Some concurrency =>
      let effective := if (0 < cases)%js then Math_min concurrency cases else concurrency in
      Math_max 1 (processes * effective)%float
  | None =>
      match cpuBudget h (resources request) with
      | Some budget =>
          if (0 < cases)%js then Math_max 1 (Math_min budget (cases * processes)%float)
          else 1%float
      | None => 1%float
      end
  end.

(** ** Pinning the request to its weight *)

(** [{ ...resources, cpu_budget, case_concurrency }] *)
Definition pinned (o : ResourceParams) (slots concurrency : jsnum) : ResourceParams :=
  {| cpu_budget := Some slots; case_concurrency := Some concurrency;
     solver_processes := solver_processes o; other := other o |}.

Definition no_resources : ResourceParams :=
  {| cpu_budget := None; case_concurrency := None; solver_processes := None; other := [] |}.

Definition set_resources (request : PolarRequest) (r : ref) : PolarRequest :=
  {| resources := Some r; angles := angles request; speeds := speeds request;
     chord_lengths := chord_lengths request; solver := solver request |}.

(** [Object.assign(resources, pinnedResources)] on the shared object, or a new one. *)
Definition assign_pinned (h : heap) (request : PolarRequest) (slots concurrency : jsnum) :
    heap * PolarRequest :=
  match resources request with
  | Some r =>
      (match h !! r with Some o => <[r := pinned o slots concurrency]> h | None => h end,
       set_resources request r)
  | None => (h ++ [pinned no_resources slots concurrency], set_resources request (length h))
  end.

(** What the request may use: its weight, or the whole part of the limit. *)
Definition boundedSlots (naturalSlots maxCpuSlots : jsnum) : jsnum :=
  Math_min naturalSlots
    (if isFinite maxCpuSlots then Math_max 0 (Math_floor maxCpuSlots) else naturalSlots).

Definition explicit (x : option jsnum) : bool :=
  match x with Some _ => true | None => false end.

Definition pinAdmissionCpuSlotsForRequest (h : heap) (request : PolarRequest)
    (maxCpuSlots : jsnum) : heap * PolarRequest * jsnum :=
  if negb (explicit (cpuBudget h (resources request)))
     && negb (explicit (caseConcurrency h (resources request)))
  then (h, request, admissionCpuSlotsForRequest h request)
  else
    let processes := solverProcesses h (resources request) in
    let bounded := boundedSlots (admissionCpuSlotsForRequest h request) maxCpuSlots in
    if (bounded < processes)%js then (h, request, 0%float)
    else
      let concurrency := Math_max 1 (Math_floor (bounded / processes)%float) in
      let slots := (concurrency * processes)%float in
      (assign_pinned h request slots concurrency, slots).

(** ** The reservation of a running job *)

Record SchedulingMetadata := {
  resolved_case_concurrency : option jsnum;
  scheduled_processes : option jsnum;
}.

Record JobStatus := {
  total_cases : jsnum;
  completed_cases : jsnum;
  scheduling : option SchedulingMetadata;
}.

Definition safePositive (x : option jsnum) : bool :=
  match x with Some n => isSafeInteger n && negb (n < 1)%js | None => false end.

Definition sched (f : SchedulingMetadata -> option jsnum) (status : JobStatus) : option jsnum :=
  match scheduling status with Some s => f s | None => None end.

(** The counters and the resolved shape make sense. *)
Definition usable (currentSlots : jsnum) (status : JobStatus) : bool :=
  isSafeInteger currentSlots && negb (currentSlots < 1)%js
  && (isSafeInteger (total_cases status) && negb (total_cases status < 1)%js)
  && (isSafeInteger (completed_cases status) && negb (completed_cases status < 0)%js)
  && negb (total_cases status < completed_cases status)%js
  && safePositive (sched resolved_case_concurrency status)
  && safePositive (sched scheduled_processes status).

Definition remainingAdmissionCpuSlotsForStatus (currentSlots : jsnum) (status : JobStatus) : jsnum :=
  if negb (usable currentSlots status) then Math_max 1 currentSlots
  else
    let concurrency := default 0%float (sched resolved_case_concurrency status) in
    let processes := default 0%float (sched scheduled_processes status) in
    let unfinished := (total_cases status - completed_cases status)%float in
    let remaining := Math_max 1 (Math_min concurrency unfinished * processes)%float in
    Math_min currentSlots remaining.

(** ** The specification, on integers *)

Record shape := {
  processes : Z;
  concurrency : option Z;
  budget : option Z;
  cases : Z;
}.

Definition int (x : jsnum) : Z := default 0%Z (to_integer x).

Definition len (xs : option (list jsnum)) : Z :=
  match xs with Some l => Z.of_nat (length l) | None => 0 end.

Definition cases_of (request : PolarRequest) : Z :=
  (if warmStartedRans request then Z.max 1 (len (speeds request)) * Z.max 1 (len (chord_lengths request))
   else len (angles request) * Z.max 1 (len (speeds request)) * Z.max 1 (len (chord_lengths request)))%Z.

Definition shape_of (h : heap) (request : PolarRequest) : shape :=
  {| processes := int (solverProcesses h (resources request));
     concurrency := option_map int (caseConcurrency h (resources request));
     budget := option_map int (cpuBudget h (resources request));
     cases := cases_of request |}.

(** A job runs some cases at a time, each with its solver processes. *)
Definition slots_of (s : shape) : Z :=
  (match concurrency s, budget s with
   | Some c, _ => processes s * (if 0 <? cases s then Z.min c (cases s) else c)
   | None, Some b => if 0 <? cases s then Z.min b (cases s * processes s) else 1
   | None, None => 1
   end)%Z.

(** The sizes of the request are far from the limit of exact integers. *)
Definition fits (h : heap) (request : PolarRequest) : Prop :=
  (Z.max 1 (len (angles request)) * Z.max 1 (len (speeds request))
     * Z.max 1 (len (chord_lengths request)) * processes (shape_of h request) < 2 ^ 53
   /\ forall c, concurrency (shape_of h request) = Some c ->
      c * processes (shape_of h request) < 2 ^ 53)%Z.

(** ** The weight *)

Lemma int_some (x : jsnum) (a : Z) : to_integer x = Some a -> int x = a.
Proof. unfold int. by intros ->. Qed.

Lemma positiveInteger_some (x : option jsnum) (n : jsnum) :
  positiveInteger x = Some n -> to_integer n = Some (int n) /\ (0 < int n)%Z.
Proof.
  destruct x as [y|]; cbn; [|done]. destruct (isInteger y && (0 < y)%js) eqn:E; [|done].
  intros [= <-]. breflect. destruct E as [[a Ha]%isInteger_spec Hp].
  rewrite (ltb_integer _ _ _ _ to_integer_0 Ha), Z.ltb_lt in Hp.
  by rewrite (int_some _ _ Ha).
Qed.

Lemma positiveInteger_none (x : option jsnum) (n : jsnum) :
  positiveInteger x = None -> x = Some n -> to_integer n = None \/ (int n <= 0)%Z.
Proof.
  intros H ->. cbn in H. destruct (isInteger n && (0 < n)%js) eqn:E; [done|]. clear H.
  unfold isInteger in E. destruct (to_integer n) as [a|] eqn:Ha; [right|by left].
  cbn [andb] in E. rewrite (ltb_integer _ _ _ _ to_integer_0 Ha), Z.ltb_ge in E.
  by rewrite (int_some _ _ Ha).
Qed.

Lemma solverProcesses_int (h : heap) (r : option ref) :
  to_integer (solverProcesses h r) = Some (int (solverProcesses h r))
  /\ (1 <= int (solverProcesses h r))%Z.
Proof.
  unfold solverProcesses. destruct (positiveInteger _) as [n|] eqn:E; cbn [default from_option id].
  - apply positiveInteger_some in E as [E Hp]. split; [done|lia].
  - rewrite (int_some _ _ to_integer_1). split; [apply to_integer_1|lia].
Qed.

Lemma count_int (xs : option (list jsnum)) :
  (len xs <= 2 ^ 53)%Z -> to_integer (count xs) = Some (len xs).
Proof.
  destruct xs as [l|]; cbn [count len]; [|intros; apply to_integer_0].
  intros H. apply of_Z_integer. lia.
Qed.

Lemma len_nonneg (xs : option (list jsnum)) : (0 <= len xs)%Z.
Proof. destruct xs; cbn; lia. Qed.

Lemma factor_lt (x y m : Z) : (0 <= x -> 1 <= y -> x * y < m -> x < m)%Z.
Proof. nia. Qed.

(** The counts and the partial products of a request that fits. *)
Lemma fits_cases (h : heap) (request : PolarRequest) :
  fits h request -> to_integer (caseCount request) = Some (cases_of request) /\
  (0 <= cases_of request)%Z /\ (cases_of request * processes (shape_of h request) < 2 ^ 53)%Z.
Proof.
  intros [Hf _]. cbn [shape_of processes] in *.
  destruct (solverProcesses_int h (resources request)) as [_ Hp].
  set (p := int _) in *.
  pose proof (len_nonneg (angles request)). pose proof (len_nonneg (speeds request)).
  pose proof (len_nonneg (chord_lengths request)).
  unfold caseCount, cases_of.
  pose proof (count_int (angles request)) as Ca. pose proof (count_int (speeds request)) as Cs.
  pose proof (count_int (chord_lengths request)) as Cc.
  set (a := len (angles request)) in *. set (s := len (speeds request)) in *.
  set (c := len (chord_lengths request)) in *.
  assert (1 <= Z.max 1 a /\ 1 <= Z.max 1 s /\ 1 <= Z.max 1 c)%Z as (Pa & Ps & Pc) by lia.
  assert (Ha0 : (a <= Z.max 1 a)%Z) by lia.
  set (a' := Z.max 1 a) in *. set (s' := Z.max 1 s) in *. set (c' := Z.max 1 c) in *.
  pose proof (factor_lt (a' * s' * c') p (2 ^ 53) ltac:(nia) Hp Hf) as Hasc.
  pose proof (factor_lt (a' * s') c' (2 ^ 53) ltac:(nia) Pc Hasc) as Has.
  pose proof (factor_lt a' s' (2 ^ 53) ltac:(lia) Ps Has) as Ha.
  pose proof (factor_lt s' a' (2 ^ 53) ltac:(lia) Pa ltac:(lia)) as Hs.
  pose proof (factor_lt c' (a' * s') (2 ^ 53) ltac:(lia) ltac:(nia) ltac:(lia)) as Hc.
  pose proof (Math_max_integer _ _ _ _ to_integer_1 (Cs ltac:(lia))) as Ms.
  pose proof (Math_max_integer _ _ _ _ to_integer_1 (Cc ltac:(lia))) as Mc.
  fold s' c' in Ms, Mc.
  destruct (warmStartedRans request).
  - split; [|split; nia]. apply mul_integer; [done..|nia].
  - assert (a * s' * c' <= a' * s' * c')%Z by nia.
    split; [|split; [nia|]].
    + apply mul_integer; [apply mul_integer; [by apply Ca; lia|done|nia]|done|nia].
    + assert (a * s' * c' * p <= a' * s' * c' * p)%Z by nia. lia.
Qed.

(** [admissionCpuSlotsForRequest] computes the specification. *)
Lemma admission_slots_int (h : heap) (request : PolarRequest) :
  fits h request ->
  to_integer (admissionCpuSlotsForRequest h request) = Some (slots_of (shape_of h request)) /\
  (1 <= slots_of (shape_of h request))%Z.
Proof.
  intros Hf. destruct (fits_cases h request Hf) as (Hc & Hc0 & Hcp). destruct Hf as [_ Hcc].
  destruct (solverProcesses_int h (resources request)) as [Hp Hp1].
  unfold admissionCpuSlotsForRequest, slots_of.
  cbn [shape_of processes concurrency budget cases] in *.
  rewrite (ltb_integer _ _ _ _ to_integer_0 Hc). set (p := int (solverProcesses _ _)) in *.
  destruct (caseConcurrency h (resources request)) as [c|] eqn:Ec; cbn [option_map] in *.
  - apply positiveInteger_some in Ec as [Ec Hcpos]. specialize (Hcc _ eq_refl).
    destruct (Z.ltb_spec 0 (cases_of request)).
    + pose proof (Math_min_integer _ _ _ _ Ec Hc) as Hm.
      pose proof (mul_integer _ _ _ _ Hp Hm ltac:(nia)) as Hx.
      rewrite (Math_max_integer _ _ _ _ to_integer_1 Hx). split; [f_equal; nia|nia].
    + pose proof (mul_integer _ _ _ _ Hp Ec ltac:(nia)) as Hx.
      rewrite (Math_max_integer _ _ _ _ to_integer_1 Hx). split; [f_equal; nia|nia].
  - destruct (cpuBudget h (resources request)) as [b|] eqn:Eb; cbn [option_map];
      [|split; [apply to_integer_1|lia]].
    apply positiveInteger_some in Eb as [Eb Hbpos].
    destruct (Z.ltb_spec 0 (cases_of request)); [|split; [apply to_integer_1|lia]].
    pose proof (mul_integer _ _ _ _ Hc Hp ltac:(nia)) as Hx.
    pose proof (Math_min_integer _ _ _ _ Eb Hx) as Hm.
    rewrite (Math_max_integer _ _ _ _ to_integer_1 Hm). split; [f_equal; nia|nia].
Qed.

(** ** The pinned request *)

Definition constrained (s : shape) : bool :=
  match budget s, concurrency s with None, None => false | _, _ => true end.

(** The whole CPU slots that the caller offers, none below zero. *)
Definition bounded_of (s : shape) (maxCpuSlots : jsnum) : Z :=
  Z.min (slots_of s)
    (if isFinite maxCpuSlots then Z.max 0 (int (Math_floor maxCpuSlots)) else slots_of s).

(** The shape of a request that runs [c] cases at a time, and not more. *)
Definition running (s : shape) (c : Z) : shape :=
  {| processes := processes s; concurrency := Some c; budget := Some (c * processes s)%Z;
     cases := cases s |}.

(** References of a request point into the heap. *)
Definition valid_ref (h : heap) (request : PolarRequest) : Prop :=
  forall r, resources request = Some r -> exists o, h !! r = Some o.

Lemma slots_small (h : heap) (request : PolarRequest) :
  fits h request -> (slots_of (shape_of h request) < 2 ^ 53)%Z.
Proof.
  intros Hf. destruct (fits_cases h request Hf) as (_ & Hc0 & Hcp). destruct Hf as [_ Hcc].
  destruct (solverProcesses_int h (resources request)) as [_ Hp1].
  unfold slots_of. cbn [shape_of processes concurrency budget cases] in *.
  set (p := int (solverProcesses _ _)) in *.
  destruct (option_map int (caseConcurrency _ _)) as [c|].
  - specialize (Hcc _ eq_refl). destruct (0 <? cases_of request)%Z; nia.
  - destruct (option_map int (cpuBudget _ _)) as [b|]; [|lia].
    destruct (0 <? cases_of request)%Z; lia.
Qed.

Lemma boundedSlots_int (h : heap) (request : PolarRequest) (maxCpuSlots : jsnum) :
  fits h request ->
  to_integer (boundedSlots (admissionCpuSlotsForRequest h request) maxCpuSlots)
  = Some (bounded_of (shape_of h request) maxCpuSlots).
Proof.
  intros Hf. destruct (admission_slots_int h request Hf) as [Hs _].
  unfold boundedSlots, bounded_of. apply Math_min_integer; [done|].
  destruct (isFinite maxCpuSlots) eqn:Hfin; [|done].
  destruct (floor_spec maxCpuSlots Hfin) as (q & Hq & _). rewrite (int_some _ _ Hq).
  apply Math_max_integer; [apply to_integer_0|done].
Qed.

(** What [assign_pinned] leaves: the shape runs [c] cases at a time. *)
Lemma assign_pinned_shape (h h' : heap) (request request' : PolarRequest) (slots n : jsnum) (c : Z) :
  valid_ref h request -> assign_pinned h request slots n = (h', request') ->
  to_integer n = Some c -> (0 < c)%Z ->
  to_integer slots = Some (c * processes (shape_of h request))%Z ->
  shape_of h' request' = running (shape_of h request) c.
Proof.
  intros Hv Ha Hn Hc Hs. destruct (solverProcesses_int h (resources request)) as [_ Hp].
  assert (Hpos : forall x z, to_integer x = Some z -> (0 < z)%Z -> positiveInteger (Some x) = Some x).
  { intros x z Hx Hz. cbn. unfold isInteger. rewrite Hx. cbn [andb].
    rewrite (ltb_integer _ _ _ _ to_integer_0 Hx). by replace (0 <? z)%Z with true by lia. }
  cbn [shape_of processes] in Hs. set (p := int (solverProcesses _ _)) in *.
  pose proof (Hpos _ _ Hn Hc) as Pn. pose proof (Hpos _ _ Hs ltac:(nia)) as Ps.
  assert (Hread : forall i, resources request' = Some i ->
    h' !! i = Some (pinned (default no_resources (resources request ≫= (h !!.))) slots n)
    -> solverProcesses h' (resources request') = solverProcesses h (resources request)
    -> cases_of request' = cases_of request
    -> shape_of h' request' = running (shape_of h request) c).
  { intros i Hi Hh Hpr Hca. unfold shape_of, running. cbn [processes cases]. rewrite Hpr, Hca.
    unfold caseConcurrency, cpuBudget. rewrite Hi. unfold field. rewrite Hh.
    cbn [case_concurrency cpu_budget pinned]. rewrite Pn, Ps. cbn [option_map].
    by rewrite (int_some _ _ Hn), (int_some _ _ Hs). }
  unfold assign_pinned in Ha. destruct (resources request) as [r|] eqn:Er.
  - destruct (Hv r Er) as [o Ho]. rewrite Ho in Ha. injection Ha as <- <-.
    pose proof (lookup_lt_Some _ _ _ Ho) as Hlt.
    pose proof (list_lookup_insert_eq h r (pinned o slots n) Hlt) as Hnew.
    apply (Hread r); [done| | |done].
    + rewrite Hnew. cbn [mbind option_bind]. by rewrite Ho.
    + unfold solverProcesses, field. cbn [resources set_resources]. by rewrite Hnew, Ho.
  - injection Ha as <- <-.
    pose proof (list_lookup_middle h [] (pinned no_resources slots n) (length h) eq_refl) as Hnew.
    apply (Hread (length h)); [done|done| |done].
    unfold solverProcesses, field. cbn [resources set_resources]. by rewrite Hnew.
Qed.

Lemma assign_pinned_request (h h' : heap) (request request' : PolarRequest) (slots n : jsnum) :
  assign_pinned h request slots n = (h', request') -> exists r, request' = set_resources request r.
Proof. unfold assign_pinned. destruct (resources request); intros [= <- <-]; eauto. Qed.

(** The concurrency that fits into the bounded slots. *)
Lemma fitting_concurrency (bounded processes : jsnum) (b p : Z) :
  to_integer bounded = Some b -> to_integer processes = Some p -> (1 <= p)%Z ->
  (p <= b < 2 ^ 53)%Z ->
  let n := Math_max 1 (Math_floor (bounded / processes)%float) in
  to_integer n = Some (b / p)%Z /\ (1 <= b / p)%Z /\
  to_integer (n * processes)%float = Some (b / p * p)%Z /\
  (b / p * p <= b < (b / p + 1) * p)%Z.
Proof.
  intros Hb Hp Hp1 Hpb n.
  pose proof (Z.div_mod b p ltac:(lia)). pose proof (Z.mod_pos_bound b p ltac:(lia)).
  assert (Hq : (1 <= b / p)%Z) by (apply Z.div_le_lower_bound; lia).
  pose proof (floor_div_integer _ _ _ _ Hb Hp ltac:(lia) ltac:(lia)) as Hfl.
  pose proof (Math_max_integer _ _ _ _ to_integer_1 Hfl) as Hn.
  rewrite Z.max_r in Hn by lia. fold n in Hn. split_and!; [done..| |lia|lia].
  apply mul_integer; [done..|nia].
Qed.

Lemma constrained_explicit (h : heap) (request : PolarRequest) :
  negb (explicit (cpuBudget h (resources request)))
  && negb (explicit (caseConcurrency h (resources request)))
  = negb (constrained (shape_of h request)).
Proof.
  unfold constrained. cbn [shape_of budget concurrency].
  by destruct (cpuBudget _ _), (caseConcurrency _ _).
Qed.

(** Running fewer cases at a time never needs more than the weight allowed. *)
Lemma running_slots (s : shape) (c : Z) :
  (1 <= c)%Z -> (1 <= processes s)%Z -> constrained s = true ->
  (c * processes s <= slots_of s)%Z -> slots_of (running s c) = (c * processes s)%Z.
Proof.
  unfold slots_of, constrained. cbn [running processes concurrency budget cases].
  intros Hc Hp Hs. destruct (Z.ltb_spec 0 (cases s)) as [Hpos|]; [|lia].
  assert (forall z, (c * processes s <= z * processes s -> c <= z)%Z) as Hle by (intros; nia).
  rewrite (Z.mul_comm (processes s)).
  assert (Hend : (c <= cases s -> Z.min c (cases s) * processes s = c * processes s)%Z)
    by (intros; f_equal; lia).
  destruct (concurrency s) as [c0|].
  - rewrite (Z.mul_comm (processes s)). intros H%Hle. apply Hend. lia.
  - destruct (budget s) as [b|]; [|done]. intros H. apply Hend, Hle. lia.
Qed.

(** ** Properties *)

(** C26. What a request may reserve is what it is then told to use: when a whole group
    of solver processes fits into the smaller of its weight and the offered slots, the
    pinned request runs as many groups as fit, its weight is exactly the returned
    reservation, and the resources object that other parts of the payload captured is
    the one that was changed; when no group fits nothing changes and the result is 0. *)
Theorem pin_exact (h h' : heap) (request request' : PolarRequest) (maxCpuSlots slots : jsnum) :
  fits h request -> valid_ref h request -> constrained (shape_of h request) = true ->
  pinAdmissionCpuSlotsForRequest h request maxCpuSlots = (h', request', slots) ->
  let s := shape_of h request in
  let bounded := bounded_of s maxCpuSlots in
  (bounded < processes s /\ slots = 0%float /\ h' = h /\ request' = request)%Z \/
  (exists c, 1 <= c /\ to_integer slots = Some (c * processes s) /\
     c * processes s <= bounded < (c + 1) * processes s /\
     shape_of h' request' = running s c /\
     to_integer (admissionCpuSlotsForRequest h' request') = Some (c * processes s) /\
     forall r o, resources request = Some r -> h !! r = Some o ->
       request' = request /\
       exists n, to_integer n = Some c /\ h' = <[r := pinned o slots n]> h)%Z.
Proof.
  intros Hf Hv Hc Hpin s bounded.
  destruct (solverProcesses_int h (resources request)) as [Hp Hp1].
  pose proof (boundedSlots_int h request maxCpuSlots Hf) as Hb. fold s bounded in Hb.
  unfold pinAdmissionCpuSlotsForRequest in Hpin. rewrite constrained_explicit in Hpin.
  rewrite Hc in Hpin. cbn [negb] in Hpin.
  rewrite (ltb_integer _ _ _ _ Hb Hp) in Hpin.
  change (int (solverProcesses _ _)) with (processes s) in *.
  destruct (Z.ltb_spec bounded (processes s)) as [Hlt|Hge].
  - injection Hpin as <- <- <-. by left.
  - right. assert (Hsmall : (bounded <= slots_of s < 2 ^ 53)%Z)
      by (split; [apply Z.le_min_l | by apply slots_small]).
    destruct (fitting_concurrency _ _ _ _ Hb Hp Hp1 ltac:(lia)) as (Hn & Hq & Hs & Hfit).
    set (n := Math_max 1 _) in *. set (c := (bounded / processes s)%Z) in *.
    destruct (assign_pinned h request (n * solverProcesses h (resources request))%float n)
      as [h1 request1] eqn:Ea. injection Hpin as <- <- <-.
    pose proof (assign_pinned_shape _ _ _ _ _ _ c Hv Ea Hn ltac:(lia) Hs) as Hshape. fold s in Hshape.
    exists c. split_and!; [done|done|lia|lia|done| |].
    + rewrite <- (running_slots s c) by (done || lia). rewrite <- Hshape.
      apply admission_slots_int. destruct Hf as [Hsize _]. unfold fits. rewrite Hshape.
      destruct (assign_pinned_request _ _ _ _ _ _ Ea) as [r ->].
      cbn [running processes concurrency]. split; [exact Hsize|]. intros ? [= <-]. lia.
    + intros r o Hr Ho. unfold assign_pinned in Ea. rewrite Hr, Ho in Ea.
      injection Ea as <- <-. split; [destruct request; cbn in Hr; by subst|exists n; by rewrite Hr].
Qed.

(** A request without a budget and without an explicit concurrency is left alone. *)
Lemma pin_unconstrained (h : heap) (request : PolarRequest) (maxCpuSlots : jsnum) :
  constrained (shape_of h request) = false ->
  pinAdmissionCpuSlotsForRequest h request maxCpuSlots = (h, request, 1%float).
Proof.
  intros Hc. unfold pinAdmissionCpuSlotsForRequest. rewrite constrained_explicit, Hc. cbn [negb].
  unfold constrained in Hc. cbn [shape_of budget concurrency] in Hc.
  unfold admissionCpuSlotsForRequest. by destruct (cpuBudget _ _), (caseConcurrency _ _).
Qed.

(** Without any limit the result is still 0 when the budget of the request is smaller
    than one group of solver processes; a stored job needs at least one slot. *)
Lemma pin_zero_without_limit (h : heap) (request : PolarRequest) (b : Z) :
  fits h request -> (0 < cases (shape_of h request))%Z ->
  concurrency (shape_of h request) = None -> budget (shape_of h request) = Some b ->
  (b < processes (shape_of h request))%Z ->
  pinAdmissionCpuSlotsForRequest h request PrimFloat.infinity = (h, request, 0%float).
Proof.
  intros Hf Hn Hc Hb Hlt. destruct (solverProcesses_int h (resources request)) as [Hp Hp1].
  unfold pinAdmissionCpuSlotsForRequest. rewrite constrained_explicit.
  unfold constrained. rewrite Hb. cbn [negb].
  pose proof (boundedSlots_int h request PrimFloat.infinity Hf) as Hi.
  rewrite (ltb_integer _ _ _ _ Hi Hp).
  unfold bounded_of, slots_of. rewrite Hc, Hb.
  cbn [shape_of processes cases] in *. replace (0 <? cases_of request)%Z with true by lia.
  change (isFinite PrimFloat.infinity) with false. cbv iota. rewrite Z.min_id.
  by rewrite (proj2 (Z.ltb_lt _ _) (Z.le_lt_trans _ _ _ (Z.le_min_l _ _) Hlt)).
Qed.

(** ** The reservation of a running job *)

Definition safe (x : jsnum) (a : Z) : Prop := to_integer x = Some a /\ (Z.abs a <= 2 ^ 53 - 1)%Z.

(** A status whose counters and resolved shape make sense. *)
Record reported (status : JobStatus) (total completed c p : Z) : Prop := {
  rep_total : safe (total_cases status) total;
  rep_completed : safe (completed_cases status) completed;
  rep_concurrency : exists x, sched resolved_case_concurrency status = Some x /\ safe x c;
  rep_processes : exists x, sched scheduled_processes status = Some x /\ safe x p;
  rep_bounds : (1 <= total /\ 0 <= completed <= total /\ 1 <= c /\ 1 <= p)%Z;
}.

Lemma safe_check (x : jsnum) (b : jsnum) (z : Z) :
  to_integer b = Some z ->
  isSafeInteger x && negb (x < b)%js = true <-> exists a, safe x a /\ (z <= a)%Z.
Proof.
  intros Hb. rewrite andb_true_iff, negb_true_iff, isSafeInteger_spec. unfold safe. split.
  - intros [(a & Ha & Hs) Hx]. rewrite (ltb_integer _ _ _ _ Ha Hb) in Hx.
    exists a. split; [done|lia].
  - intros (a & [Ha Hs] & Hz). rewrite (ltb_integer _ _ _ _ Ha Hb). split; [eauto|lia].
Qed.

Lemma safe_eq (x : jsnum) (a b : Z) : safe x a -> safe x b -> a = b.
Proof. intros [Ha _] [Hb _]. congruence. Qed.

Lemma usable_spec (currentSlots : jsnum) (status : JobStatus) :
  usable currentSlots status = true <->
  (exists s, safe currentSlots s /\ (1 <= s)%Z) /\
  exists total completed c p, reported status total completed c p.
Proof.
  pose proof (safe_check currentSlots 1 1 to_integer_1) as H1.
  pose proof (safe_check (total_cases status) 1 1 to_integer_1) as H2.
  pose proof (safe_check (completed_cases status) 0 0 to_integer_0) as H3.
  assert (H4 : forall o, safePositive o = true <-> exists x, o = Some x /\ exists a, safe x a /\ (1 <= a)%Z).
  { intros [x|]; cbn [safePositive]; [rewrite (safe_check x 1 1 to_integer_1)|]; naive_solver. }
  unfold usable. rewrite !andb_true_iff in *. rewrite !H4. split.
  - intros [[[[[Hs Ht] Hc] Hle] (x & Hx & c & Hxc & Hc1)] (y & Hy & p & Hyp & Hp1)].
    apply H1 in Hs. apply H2 in Ht as (t & Ht & Ht1). apply H3 in Hc as (d & Hd & Hd0).
    split; [done|]. exists t, d, c, p.
    apply negb_true_iff in Hle. rewrite (ltb_integer _ _ _ _ (proj1 Ht) (proj1 Hd)) in Hle.
    split; [done..|eauto|eauto|lia].
  - intros [Hs (t & d & c & p & [Ht Hd (x & Hx & Hxc) (y & Hy & Hyp) Hb])].
    rewrite (ltb_integer _ _ _ _ (proj1 Ht) (proj1 Hd)).
    destruct (proj2 H1 Hs) as [? ?]. destruct (proj2 H2) as [? ?]; [exists t; split; [done|lia]|].
    destruct (proj2 H3) as [? ?]; [exists d; split; [done|lia]|].
    split_and!; [done..|lia| |].
    + exists x. split; [done|]. exists c. split; [done|lia].
    + exists y. split; [done|]. exists p. split; [done|lia].
Qed.

(** What a job with these counters may still hold of [s] slots. *)
Definition remaining_of (s total completed c p : Z) : Z :=
  Z.min s (Z.max 1 (Z.min c (total - completed) * p)).

Lemma remaining_int (currentSlots : jsnum) (status : JobStatus) (s total completed c p : Z) :
  safe currentSlots s -> (1 <= s)%Z -> reported status total completed c p -> (c * p < 2 ^ 53)%Z ->
  to_integer (remainingAdmissionCpuSlotsForStatus currentSlots status)
  = Some (remaining_of s total completed c p).
Proof.
  intros Hs Hs1 Hr Hcp.
  assert (Hu : usable currentSlots status = true) by (apply usable_spec; split; eauto 6).
  unfold remainingAdmissionCpuSlotsForStatus, remaining_of. rewrite Hu. cbn [negb].
  destruct Hr as [[Ht Ht'] [Hd Hd'] (x & -> & Hx & _) (y & -> & Hy & _) Hb].
  cbn [default from_option id].
  pose proof (sub_integer _ _ _ _ Ht Hd ltac:(lia)) as Hun.
  pose proof (Math_min_integer _ _ _ _ Hx Hun) as Hm.
  pose proof (mul_integer _ _ _ _ Hm Hy ltac:(nia)) as Hp.
  apply Math_min_integer; [apply Hs|]. by apply Math_max_integer; [apply to_integer_1|].
Qed.

Lemma remaining_unusable (currentSlots : jsnum) (status : JobStatus) (s : Z) :
  safe currentSlots s -> (1 <= s)%Z -> usable currentSlots status = false ->
  to_integer (remainingAdmissionCpuSlotsForStatus currentSlots status) = Some s.
Proof.
  intros [Hs _] Hs1 Hu. unfold remainingAdmissionCpuSlotsForStatus. rewrite Hu. cbn [negb].
  rewrite (Math_max_integer _ _ _ _ to_integer_1 Hs). f_equal. lia.
Qed.

Lemma min_mono (a b c : Z) : (b <= c -> Z.min a b <= Z.min a c)%Z.
Proof. lia. Qed.

(** A running job gives back only what it cannot use any more: the new reservation
    is positive and at most the old one, it is the old one while the unfinished cases
    fill the concurrency, it always covers the cases that can still run, and it only
    shrinks as more cases complete. *)
Theorem remaining_releases_tail (currentSlots : jsnum) (status : JobStatus)
    (s total completed c p : Z) :
  safe currentSlots s -> (1 <= s)%Z -> reported status total completed c p -> (c * p < 2 ^ 53)%Z ->
  exists r, to_integer (remainingAdmissionCpuSlotsForStatus currentSlots status) = Some r /\
    (1 <= r <= s /\
     (c <= total - completed -> s <= c * p -> r = s) /\
     Z.min s (Z.min c (total - completed) * p) <= r /\
     forall later completed', reported later total completed' c p -> completed <= completed' ->
       exists r', to_integer (remainingAdmissionCpuSlotsForStatus currentSlots later) = Some r'
         /\ r' <= r)%Z.
Proof.
  intros Hs Hs1 Hr Hcp. exists (remaining_of s total completed c p).
  split; [by apply remaining_int|]. pose proof (rep_bounds _ _ _ _ _ Hr) as Hb.
  unfold remaining_of. split_and!; [lia|lia| |lia|].
  - intros Hfull Hle. rewrite (Z.min_l c) by lia. lia.
  - intros later completed' Hl Hmore. exists (remaining_of s total completed' c p).
    split; [by apply remaining_int|]. apply min_mono, Z.max_le_compat_l.
    apply Z.mul_le_mono_nonneg_r; lia.
Qed.

Module Examples.
(** A cold polar of ten angles at two speeds, three processes for each case, and a
    budget of sixteen slots: five cases at a time. *)
Definition shared : ResourceParams :=
  {| cpu_budget := Some 16%float; case_concurrency := None; solver_processes := Some 3%float;
     other := [("policy", JStr "auto")] |}.

Definition request : PolarRequest :=
  {| resources := Some 0; angles := Some [-4; -3; -2; -1; 0; 1; 2; 3; 4; 5]%float;
     speeds := Some [20; 40]%float; chord_lengths := None;
     solver := Some {| warm_start := Some false; force_transient := None |} |}.

Example pin_ex :
  let '(h, r, slots) := pinAdmissionCpuSlotsForRequest [shared] request PrimFloat.infinity in
  (to_integer slots, option_map to_integer (field cpu_budget h (resources r)),
   option_map to_integer (field case_concurrency h (resources r)))
  = (Some 15%Z, Some (Some 15%Z), Some (Some 5%Z)).
Proof. vm_compute. reflexivity. Qed.

Example pin_limit_ex :
  List.map (fun limit => to_integer (snd (pinAdmissionCpuSlotsForRequest [shared] request limit)))
    [8.5; 2; -1]%float = [Some 6; Some 0; Some 0]%Z.
Proof. vm_compute. reflexivity. Qed.

Definition status : JobStatus :=
  {| total_cases := 20; completed_cases := 17;
     scheduling := Some {| resolved_case_concurrency := Some 5%float;
                           scheduled_processes := Some 3%float |} |}.

Lemma status_reported : reported status 20 17 5 3.
Proof.
  split; try by (split; [vm_compute; reflexivity|lia]).
  - exists 5%float. split; [done|split; [vm_compute; reflexivity|lia]].
  - exists 3%float. split; [done|split; [vm_compute; reflexivity|lia]].
  - lia.
Qed.

Lemma request_fits : fits [shared] request.
Proof. split; [vm_compute; reflexivity|]. intros c H. vm_compute in H. discriminate. Qed.

Lemma request_valid : valid_ref [shared] request.
Proof. intros r [= <-]. by exists shared. Qed.
End Examples.

Lemma pin_exact_witness :
  exists c, (c = 5)%Z /\
  match pinAdmissionCpuSlotsForRequest [Examples.shared] Examples.request PrimFloat.infinity with
  | (h', request', slots) => shape_of h' request' = running (shape_of [Examples.shared] Examples.request) c
  end.
Proof.
  destruct (pinAdmissionCpuSlotsForRequest [Examples.shared] Examples.request PrimFloat.infinity)
    as [[h' request'] slots] eqn:E.
  destruct (pin_exact _ _ _ _ _ _ Examples.request_fits Examples.request_valid
    ltac:(vm_compute; reflexivity) E) as [[H _]|(c & _ & _ & H & Hs & _)].
  - vm_compute in H. discriminate.
  - exists c. split; [|exact Hs].
    assert (Eb : bounded_of (shape_of [Examples.shared] Examples.request) PrimFloat.infinity = 16%Z)
      by (vm_compute; reflexivity).
    assert (Ep : processes (shape_of [Examples.shared] Examples.request) = 3%Z)
      by (vm_compute; reflexivity).
    rewrite Eb, Ep in H. lia.
Defined.

Lemma remaining_releases_tail_witness :
  exists r, to_integer (remainingAdmissionCpuSlotsForStatus 15 Examples.status) = Some r
    /\ (1 <= r <= 15)%Z.
Proof.
  destruct (remaining_releases_tail 15 Examples.status 15 20 17 5 3) as (r & Hr & Hb & _).
  - split; [vm_compute; reflexivity|lia].
  - lia.
  - exact Examples.status_reported.
  - lia.
  - exists r. split; [exact Hr|exact Hb].
Defined.
