(* ===== verification/Reconcile.v ===== *)
(** * The reconciler's decisions on running jobs

    From [apps/sweeper/src/reconcile.ts]: the limits of a reconcile pass, the order
    in which active jobs are polled, the pool of workers that polls them, the
    completeness of an observation of the engine, and the verdict that a job the
    engine reports as running is lost.

    The worker pool is a machine over the settlements of its operations: each worker
    holds one operation, and between two of them nothing else of the pool runs.
    Dates are parsed by the host ([Date.parse] is a parameter), and the queue's
    inspector fields are parsed JSON. *)

From Stdlib Require Import ZArith Lia Bool String Permutation Sorted.
From Stdlib Require Import Floats.
From stdpp Require Import base list sorting strings option numbers.
From S2P Require Import Prelude JsNumber JsString JsValue JsArray JsInteger Lifecycle EngineIdentity.

Local Open Scope string_scope.
Local Open Scope list_scope.

(** ** Limits of a pass *)

Definition DEFAULT_ACTIVE_RECONCILE_JOB_LIMIT : jsnum := 8%float.
Definition MAX_ACTIVE_RECONCILE_JOB_LIMIT : jsnum := 64%float.
Definition DEFAULT_ACTIVE_RECONCILE_CONCURRENCY : jsnum := 4%float.
Definition MAX_ACTIVE_RECONCILE_CONCURRENCY : jsnum := 16%float.

(** The common body of the two readers. *)
Definition limit_of (default_ maximum : jsnum) (raw : option string) : jsnum :=
  match raw with
  | None => default_
  | Some raw =>
      if String.eqb (trim raw) "" then default_
      else
        let parsed := string_to_number raw in
        if negb (isInteger parsed) || (parsed <= 0)%js then default_
        else Math_min parsed maximum
  end.

Definition activeReconcileJobLimit : option string -> jsnum :=
  limit_of DEFAULT_ACTIVE_RECONCILE_JOB_LIMIT MAX_ACTIVE_RECONCILE_JOB_LIMIT.

Definition activeReconcileConcurrency : option string -> jsnum :=
  limit_of DEFAULT_ACTIVE_RECONCILE_CONCURRENCY MAX_ACTIVE_RECONCILE_CONCURRENCY.

(** Whatever the environment says, a limit is a positive integer up to its maximum. *)
Lemma limit_of_range (default_ maximum : jsnum) (d m : Z) (raw : option string) :
  to_integer default_ = Some d -> to_integer maximum = Some m -> (1 <= d <= m)%Z ->
  exists n, to_integer (limit_of default_ maximum raw) = Some n /\ (1 <= n <= m)%Z.
Proof.
  intros Hd Hm Hr. assert (Hdef : exists n, to_integer default_ = Some n /\ (1 <= n <= m)%Z) by eauto.
  unfold limit_of. destruct raw as [raw|]; [|done]. destruct (String.eqb _ _); [done|].
  destruct (negb (isInteger (string_to_number raw)) || (string_to_number raw <= 0)%js) eqn:E; [done|].
  breflect. destruct E as [[a Ha]%isInteger_spec Hp].
  rewrite (leb_integer _ _ _ _ Ha to_integer_0), Z.leb_gt in Hp.
  exists (Z.min a m). split; [by apply Math_min_integer|lia].
Qed.

Lemma reconcile_limits (raw : option string) :
  (exists n, to_integer (activeReconcileJobLimit raw) = Some n /\ (1 <= n <= 64)%Z) /\
  (exists n, to_integer (activeReconcileConcurrency raw) = Some n /\ (1 <= n <= 16)%Z).
Proof.
  split; [apply (limit_of_range _ _ 8 64)|apply (limit_of_range _ _ 4 16)];
    (lia || (vm_compute; reflexivity)).
Qed.

(** ** The worker pool *)

Module WorkerPool.

(** [nextIndex] is shared by the workers; [running] holds the index that each worker
    at an [await] works on, in no order; [started] is the order of the calls of
    [operation]; [rejected] the operations that failed, first one first. *)
Record state := {
  nextIndex : nat;
  running : list nat;
  started : list nat;
  rejected : list nat;
}.

Definition workerCount (items : nat) (concurrency : jsnum) : nat :=
  let count := Math_min (of_nat items) (Math_max 1 (Math_floor concurrency)) in
  match to_integer count with Some n => Z.to_nat n | None => 0 end.

(** One turn of [for (;;)]: take an index, start it or return. *)
Definition turn (items : nat) (s : state) : state :=
  let index := nextIndex s in
  if Nat.leb items index
  then {| nextIndex := S index; running := running s; started := started s; rejected := rejected s |}
  else {| nextIndex := S index; running := running s ++ [index];
          started := started s ++ [index]; rejected := rejected s |}.

(** [Array.from({ length: workerCount }, worker)] runs each worker to its first [await]. *)
Definition start (items workers : nat) : state :=
  Nat.iter workers (turn items) {| nextIndex := 0; running := []; started := []; rejected := [] |}.

Inductive event := Fulfilled (index : nat) | Rejected (index : nat).

Definition remove (i : nat) (l : list nat) : list nat := List.filter (fun j => negb (Nat.eqb i j)) l.

Definition settle (i : nat) (failed : bool) (s : state) : state :=
  {| nextIndex := nextIndex s; running := remove i (running s); started := started s;
     rejected := if failed then rejected s ++ [i] else rejected s |}.

(** The operation of a worker settles: the worker goes on, or its promise rejects. *)
Definition step (items : nat) (s : state) (e : event) : option state :=
  match e with
  | Fulfilled i =>
      if List.existsb (Nat.eqb i) (running s) then Some (turn items (settle i false s)) else None
  | Rejected i =>
      if List.existsb (Nat.eqb i) (running s) then Some (settle i true s) else None
  end.

Fixpoint run (items : nat) (s : state) (es : list event) : option state :=
  match es with
  | [] => Some s
  | e :: es' => match step items s e with Some s' => run items s' es' | None => None end
  end.

(** The state of the promise that the caller awaits. *)
Inductive outcome := Pending | Resolved | Failed.

Definition promise (s : state) : outcome :=
  match rejected s, running s with
  | _ :: _, _ => Failed
  | [], [] => Resolved
  | [], _ => Pending
  end.

Definition runWithConcurrency (items : nat) (concurrency : jsnum) (es : list event) : option state :=
  run items (start items (workerCount items concurrency)) es.

Definition index_of (e : event) : nat := match e with Fulfilled i | Rejected i => i end.
Definition is_rejected (e : event) : bool := match e with Rejected _ => true | Fulfilled _ => false end.

(** Every worker is at an [await], has failed, or has returned; what was started is
    the first indices, in order, each running or settled. *)
Record inv (items workers : nat) (s : state) (es : list event) : Prop := {
  inv_workers : length (running s) + length (rejected s) + (nextIndex s - items) = workers;
  inv_started : started s = seq 0 (Nat.min (nextIndex s) items);
  inv_settled : Permutation (running s ++ List.map index_of es) (started s);
  inv_rejected : rejected s = List.map index_of (List.filter is_rejected es);
}.

Lemma workerCount_integer (items : nat) (concurrency : jsnum) (c : Z) :
  to_integer concurrency = Some c -> (Z.of_nat items <= 2 ^ 53)%Z ->
  workerCount items concurrency = Nat.min items (Z.to_nat (Z.max 1 c)).
Proof.
  intros Hc Hi. unfold workerCount.
  pose proof (Math_floor_integer _ _ Hc) as Hf.
  pose proof (Math_max_integer _ _ _ _ to_integer_1 Hf) as Hm.
  assert (Hn : to_integer (of_nat items) = Some (Z.of_nat items)) by (apply of_Z_integer; lia).
  rewrite (Math_min_integer _ _ _ _ Hn Hm). lia.
Qed.

Lemma remove_perm (i : nat) (l : list nat) :
  List.NoDup l -> In i l -> Permutation (i :: remove i l) l.
Proof.
  unfold remove. induction l as [|j l IH]; [done|]. intros [Hj Hn]%NoDup_cons_iff Hi.
  cbn [List.filter]. destruct (Nat.eqb_spec i j) as [<-|Hij]; cbn [negb].
  - constructor. rewrite filter_all; [done|]. apply List.Forall_forall. intros k Hk.
    apply negb_true_iff, Nat.eqb_neq. by intros <-.
  - destruct Hi as [->|Hi]; [done|]. rewrite <- (IH Hn Hi) at 2. apply perm_swap.
Qed.

Lemma running_nodup (items workers : nat) (s : state) (es : list event) :
  inv items workers s es -> List.NoDup (running s).
Proof.
  intros Hi. apply (NoDup_app_remove_r _ (List.map index_of es)).
  eapply Permutation_NoDup; [symmetry; apply Hi|]. rewrite (inv_started _ _ _ _ Hi).
  apply seq_NoDup.
Qed.

Lemma turn_inv (items workers : nat) (s : state) (es : list event) :
  inv items workers s es -> inv items (S workers) (turn items s) es.
Proof.
  intros [Hw Hs Hp Hr]. unfold turn. destruct (Nat.leb_spec items (nextIndex s)) as [Hle|Hlt];
    split; cbn [running rejected nextIndex started]; try done.
  - lia.
  - rewrite Hs. f_equal. lia.
  - rewrite length_app. cbn [length]. lia.
  - rewrite Hs, !Nat.min_l by lia. by rewrite seq_S.
  - rewrite <- Hp, <- !app_assoc. apply Permutation_app_head, Permutation_app_comm.
Qed.

Lemma pool_start_inv (items workers : nat) : inv items workers (start items workers) [].
Proof.
  unfold start. induction workers as [|w IH]; cbn [Nat.iter nat_rect]; [by split|].
  by apply turn_inv.
Qed.

Lemma pool_settle_inv (items workers : nat) (s : state) (es : list event) (e : event) :
  inv items (S workers) s es -> In (index_of e) (running s) ->
  inv items (if is_rejected e then S workers else workers)
    (settle (index_of e) (is_rejected e) s) (es ++ [e]).
Proof.
  intros Hi He. pose proof (remove_perm _ _ (running_nodup _ _ _ _ Hi) He) as Hrem.
  pose proof (Permutation_length Hrem) as Hlen. cbn [length] in Hlen.
  destruct Hi as [Hw Hs Hp Hr]. split; cbn [settle running rejected nextIndex started].
  - destruct (is_rejected e); [rewrite length_app; cbn [length]|]; lia.
  - done.
  - rewrite List.map_app.
    transitivity ((index_of e :: remove (index_of e) (running s)) ++ List.map index_of es);
      [|rewrite Hrem; exact Hp].
    cbn [List.map app]. rewrite app_assoc. symmetry. apply Permutation_cons_append.
  - rewrite List.filter_app, List.map_app, <- Hr. cbn [List.filter].
    destruct (is_rejected e); [done|]. by rewrite app_nil_r.
Qed.

Lemma pool_step_inv (items workers : nat) (s s' : state) (es : list event) (e : event) :
  inv items workers s es -> step items s e = Some s' -> inv items workers s' (es ++ [e]).
Proof.
  intros Hi Hs.
  assert (Hin : List.existsb (Nat.eqb (index_of e)) (running s) = true ->
    exists w, workers = S w /\ In (index_of e) (running s)).
  { intros (j & Hj & ->%Nat.eqb_eq)%existsb_exists. destruct workers as [|w]; [|eauto].
    pose proof (inv_workers _ _ _ _ Hi). destruct (running s); [done|cbn in *; lia]. }
  destruct e as [i|i]; cbn [step index_of] in *;
    destruct (List.existsb _ _); try done; injection Hs as <-;
    destruct (Hin eq_refl) as (w & -> & Hr).
  - apply turn_inv. apply (pool_settle_inv items w s es (Fulfilled i)); done.
  - apply (pool_settle_inv items w s es (Rejected i)); done.
Qed.

Lemma pool_run_snoc (items : nat) (es : list event) (e : event) : forall s,
  run items s (es ++ [e]) = match run items s es with Some s' => step items s' e | None => None end.
Proof.
  induction es as [|d es IH]; intros s; cbn; [by destruct (step items s e)|].
  destruct (step items s d); [apply IH|done].
Qed.

Lemma pool_inv (items workers : nat) (es : list event) : forall s,
  run items (start items workers) es = Some s -> inv items workers s es.
Proof.
  induction es as [|e es IH] using rev_ind; intros s.
  - intros [= <-]. apply pool_start_inv.
  - rewrite pool_run_snoc. destruct (run _ _ es) as [s1|] eqn:E; [|done].
    apply pool_step_inv. by apply IH.
Qed.

Lemma is_rejected_in (es : list event) :
  List.filter is_rejected es <> [] <-> exists i, In (Rejected i) es.
Proof.
  split.
  - destruct (List.filter is_rejected es) as [|e l] eqn:E; [done|intros _].
    assert (He : In e (List.filter is_rejected es)) by (rewrite E; by left).
    apply filter_In in He as [He Hr]. destruct e as [i|i]; [done|by exists i].
  - intros [i Hi] E. assert (H : In (Rejected i) (List.filter is_rejected es)) by (by apply filter_In).
    by rewrite E in H.
Qed.

(** C25. In every order in which the operations settle, the pool calls each item at most
    once and in order, with at most the given number in flight; it resolves only after
    every item has completed, rejects exactly when one failed, and as long as it is
    pending something is in flight, so it settles after at most one event per item. *)
Theorem pool_exactly_once (items : nat) (concurrency : jsnum) (c : Z) (es : list event) (s : state) :
  to_integer concurrency = Some c -> (Z.of_nat items <= 2 ^ 53)%Z ->
  runWithConcurrency items concurrency es = Some s ->
  length (running s) <= Nat.min items (Z.to_nat (Z.max 1 c)) /\
  started s = seq 0 (length (started s)) /\ length (started s) <= items /\
  Permutation (running s ++ List.map index_of es) (started s) /\
  length es <= items /\
  (promise s = Resolved -> Permutation (List.map index_of es) (seq 0 items)
     /\ forall i, ~ In (Rejected i) es) /\
  (promise s = Failed <-> exists i, In (Rejected i) es) /\
  (promise s = Pending -> exists e s', step items s e = Some s').
Proof.
  intros Hc Hn Hrun. pose proof (workerCount_integer _ _ _ Hc Hn) as Hw.
  unfold runWithConcurrency in Hrun. rewrite Hw in Hrun.
  set (w := Nat.min items _) in *. pose proof (pool_inv _ _ _ _ Hrun) as Hi.
  pose proof (inv_workers _ _ _ _ Hi) as Hcount. pose proof (inv_started _ _ _ _ Hi) as Hs.
  pose proof (inv_settled _ _ _ _ Hi) as Hp. pose proof (inv_rejected _ _ _ _ Hi) as Hr.
  pose proof (Permutation_length Hp) as Hlen. rewrite length_app, length_map in Hlen.
  assert (Hls : length (started s) = Nat.min (nextIndex s) items) by (by rewrite Hs, length_seq).
  assert (Hrej : rejected s = [] <-> ~ exists i, In (Rejected i) es).
  { rewrite <- is_rejected_in, Hr. destruct (List.filter is_rejected es); cbn; naive_solver. }
  split; [lia|]. split; [by rewrite Hls|]. split; [lia|]. split; [done|]. split; [lia|].
  unfold promise. split; [|split].
  - intros Hres. destruct (rejected s) as [|? ?] eqn:Er; [|done].
    destruct (running s) as [|? ?] eqn:Eu; [|done]. cbn [length app] in *. split; [|naive_solver].
    rewrite Hp, Hs. replace (Nat.min (nextIndex s) items) with items by lia. done.
  - destruct (rejected s) as [|x l] eqn:Er; [|split; [intros _|done]].
    + destruct (running s); naive_solver.
    + apply is_rejected_in. intros E. rewrite E in Hr. done.
  - intros Hpend. destruct (rejected s) as [|? ?]; [|done].
    destruct (running s) as [|i l] eqn:Eu; [done|]. exists (Fulfilled i).
    cbn [step]. rewrite Eu. cbn [List.existsb]. rewrite Nat.eqb_refl. cbn [orb]. eauto.
Qed.

(** A failure rejects the promise but does not stop the other workers: the third item
    is started after the caller has been told that the first one failed. *)
Example late_start :
  option_map (fun s => (promise s, started s, running s))
    (runWithConcurrency 3 2%float [Rejected 0; Fulfilled 1])
  = Some (Failed, [0; 1; 2], [2]).
Proof. vm_compute. reflexivity. Qed.

(** A concurrency that is not a number starts nothing, and the promise resolves. *)
Example nan_concurrency :
  option_map (fun s => (promise s, started s)) (runWithConcurrency 3 PrimFloat.nan [])
  = Some (Resolved, []).
Proof. vm_compute. reflexivity. Qed.

Lemma pool_exactly_once_witness :
  exists s, runWithConcurrency 3 2%float [Fulfilled 1; Fulfilled 2; Fulfilled 0] = Some s
    /\ promise s = Resolved /\ Permutation [1; 2; 0] (seq 0 3).
Proof.
  destruct (runWithConcurrency 3 2%float [Fulfilled 1; Fulfilled 2; Fulfilled 0]) as [s|] eqn:E.
  - exists s. split; [reflexivity|].
    assert (Hres : promise s = Resolved) by (vm_compute in E; injection E as <-; reflexivity).
    split; [exact Hres|].
    destruct (pool_exactly_once 3 2%float 2 _ s ltac:(vm_compute; reflexivity) ltac:(lia) E)
      as (_ & _ & _ & _ & _ & H & _).
    exact (proj1 (H Hres)).
  - vm_compute in E. discriminate.
Defined.

End WorkerPool.

(** ** The order in which active jobs are polled *)

Section Priorities.
Context {T : Type} (engineJobId_of : T -> option string).

(** [{ job, index, live }] *)
Record candidate := { job : T; index : nat; live : bool }.

Fixpoint candidates_from (queue : EngineQueueState) (i : nat) (jobs : list T) : list candidate :=
  match jobs with
  | [] => []
  | j :: jobs' =>
      {| job := j; index := i; live := engineQueueListsJob (Some queue) (engineJobId_of j) |}
      :: candidates_from queue (S i) jobs'
  end.

Definition by_liveness (l r : candidate) : jsnum :=
  if negb (Bool.eqb (live l) (live r)) then if live l then 1%float else (-1)%float
  else (of_nat (index l) - of_nat (index r))%float.

(** The limit is a positive integer (see [reconcile_limits]). *)
Definition prioritizeActiveReconcileJobs (candidates : list T) (queue : option EngineQueueState)
    (limit : nat) : list T :=
  match queue with
  | None => take limit candidates
  | Some q => List.map job (take limit (sort by_liveness (candidates_from q 0 candidates)))
  end.

(** ** A stable partition *)

Definition before_eq (l r : candidate) : Prop :=
  (live l = false /\ live r = true) \/ (live l = live r /\ index l <= index r).

Definition indexable (c : candidate) : Prop := (Z.of_nat (index c) <= 2 ^ 53)%Z.

Lemma by_liveness_spec (l r : candidate) :
  indexable l -> indexable r -> PrimFloat.ltb (by_liveness r l) 0 = false <-> before_eq l r.
Proof.
  unfold indexable, by_liveness, before_eq. intros Hl Hr.
  assert (Hi : forall n : nat, (Z.of_nat n <= 2 ^ 53)%Z -> to_integer (of_nat n) = Some (Z.of_nat n))
    by (intros; apply of_Z_integer; lia).
  destruct (live l), (live r); cbn [Bool.eqb negb].
  2: by (split; [vm_compute; discriminate|naive_solver]).
  2: by (split; [auto|reflexivity]).
  all: pose proof (proj1 (to_integer_spec _ _) (Hi _ Hl)) as [Fl _];
    pose proof (proj1 (to_integer_spec _ _) (Hi _ Hr)) as [Fr _];
    rewrite (sub_ltb_0 _ _ Fr Fl), (ltb_integer _ _ _ _ (Hi _ Hr) (Hi _ Hl)), Z.ltb_ge;
    split; [intros; right; split; [done|lia]|intros [[]|[]]; (done || lia)].
Qed.

Lemma candidates_index (queue : EngineQueueState) (jobs : list T) : forall i c,
  In c (candidates_from queue i jobs) -> i <= index c < i + length jobs.
Proof.
  induction jobs as [|j jobs IH]; cbn [candidates_from length In]; [done|].
  intros i c [<-|Hc]; [cbn; lia|]. apply IH in Hc. lia.
Qed.

Lemma candidates_sorted (queue : EngineQueueState) (p : candidate -> bool) (b : bool) (jobs : list T) :
  (forall c, p c = true -> live c = b) -> forall i,
  StronglySorted before_eq (List.filter p (candidates_from queue i jobs)).
Proof.
  intros Hp. induction jobs as [|j jobs IH]; intros i; cbn [candidates_from List.filter]; [constructor|].
  set (c := {| job := j; index := i; live := _ |}).
  destruct (p c) eqn:E; [|apply IH]. constructor; [apply IH|].
  apply List.Forall_forall. intros d [Hd Hpd]%filter_In. right.
  split; [by rewrite (Hp _ E), (Hp _ Hpd)|]. apply candidates_index in Hd. cbn. lia.
Qed.

(** The candidates that a test on the job selects. *)
Lemma candidates_filter (queue : EngineQueueState) (b : bool) (jobs : list T) : forall i,
  List.map job (List.filter (fun c => Bool.eqb (live c) b) (candidates_from queue i jobs))
  = List.filter (fun j => Bool.eqb (engineQueueListsJob (Some queue) (engineJobId_of j)) b) jobs.
Proof.
  induction jobs as [|j jobs IH]; intros i; [done|].
  cbn [candidates_from List.filter live].
  destruct (Bool.eqb _ b); cbn [List.map job]; by rewrite IH.
Qed.

Lemma candidates_unique (queue : EngineQueueState) (jobs : list T) : forall i c d,
  In c (candidates_from queue i jobs) -> In d (candidates_from queue i jobs) ->
  index c = index d -> c = d.
Proof.
  induction jobs as [|j jobs IH]; cbn [candidates_from In]; [done|].
  intros i c d [<-|Hc] [<-|Hd]; cbn [index]; intros E; [done| | |by apply (IH (S i))].
  - apply candidates_index in Hd. lia.
  - apply candidates_index in Hc. lia.
Qed.

Lemma by_liveness_partition (queue : EngineQueueState) (jobs : list T) :
  (Z.of_nat (length jobs) <= 2 ^ 53)%Z ->
  let l := candidates_from queue 0 jobs in
  sort by_liveness l = List.filter (fun c => Bool.eqb (live c) false) l
                       ++ List.filter (fun c => Bool.eqb (live c) true) l.
Proof.
  intros Hn l.
  assert (Hix : Forall indexable l).
  { apply List.Forall_forall. intros c Hc%candidates_index. unfold indexable. lia. }
  assert (Hpart : Permutation (List.filter (fun c => Bool.eqb (live c) false) l
    ++ List.filter (fun c => Bool.eqb (live c) true) l) l).
  { rewrite (List.filter_ext _ (fun c => negb (live c))) by (intros c; by destruct (live c)).
    rewrite (List.filter_ext (fun c => Bool.eqb (live c) true) live) by (intros c; by destruct (live c)).
    apply filter_partition. }
  apply (StronglySorted_unique_strong before_eq).
  - intros c d Hc%list_elem_of_In%in_sort Hd%list_elem_of_In.
    rewrite Hpart in Hd. unfold before_eq. intros H1 H2.
    apply (candidates_unique queue jobs 0); [done..|]. destruct (live c), (live d); naive_solver lia.
  - unfold sort. apply (sort_before_sorted _ indexable); [| | |done].
    + intros c d Hc Hd. by apply by_liveness_spec.
    + unfold before_eq. intros c d _ _. destruct (live c), (live d); (tauto || lia).
    + unfold before_eq. intros c d e _ _ _. destruct (live c), (live d), (live e); intuition (done || lia).
  - apply StronglySorted_app_2; [|by apply (candidates_sorted _ _ false); intros c ?%eqb_prop..
      |by apply (candidates_sorted _ _ true); intros c ?%eqb_prop].
    intros c d Hc%list_elem_of_In Hd%list_elem_of_In. apply filter_In in Hc as [_ Hc], Hd as [_ Hd].
    left. split; by apply eqb_prop.
  - rewrite Hpart. symmetry. apply sort_perm.
Qed.

(** The poll order: jobs that the engine's queue does not list come first, each
    group in its old order, and only then the list is cut. *)
Theorem prioritize_partition (candidates : list T) (queue : EngineQueueState) (limit : nat) :
  (Z.of_nat (length candidates) <= 2 ^ 53)%Z ->
  let listed j := engineQueueListsJob (Some queue) (engineJobId_of j) in
  prioritizeActiveReconcileJobs candidates (Some queue) limit
  = take limit (List.filter (fun j => negb (listed j)) candidates ++ List.filter listed candidates).
Proof.
  intros Hn listed. cbn [prioritizeActiveReconcileJobs].
  rewrite by_liveness_partition by done. rewrite <- firstn_map, List.map_app, !candidates_filter.
  f_equal. f_equal; apply List.filter_ext; intros j; fold (listed j); by destruct (listed j).
Qed.
End Priorities.

(** ** The engine's view of a job *)

Module Lost.

(** The fields of the engine's runtime summary that the reconciler reads. *)
Record JobRuntimeSummary := {
  job_id : string;
  exists_ : bool;
  process_count : jsnum;
  runtime_heartbeat_age_sec : option jsnum;
  runtime_error : option string;
  status_error : option string;
  result_error : option string;
  status_readable : bool;
  has_result : bool;
  result_readable : bool;
  runtime_last_progress_at : option string;
  status_last_progress_at : option string;
  status_updated_at : option string;
}.

(** The queue: its inventory, and the inspector's fields as received. *)
Record EngineQueueState := {
  inventory : Lifecycle.EngineQueueState;
  inspector : record;
}.

Record JobStatus := {
  state : string;
  last_progress_at : option string;
  updated_at : option string;
  phase_started_at : option string;
  started_at : option string;
  queued_at : option string;
}.

(** ** Complete observations *)

(** [Object.keys(v ?? {}).length > 0] *)
Definition has_own_keys (v : jsval) : bool :=
  match v with
  | JObj o => negb (Nat.eqb (length o) 0)
  | JArr l => negb (Nat.eqb (length l) 0)
  | JStr s => nonempty s
  | _ => false
  end.

(** The strings of a list of values that are all non-empty strings. *)
Fixpoint texts (l : list jsval) : option (list string) :=
  match l with
  | [] => Some []
  | JStr s :: l' => if nonempty s then option_map (cons s) (texts l') else None
  | _ => None
  end.

(** The workers with a binding: named, and each of them once. *)
Definition workersOf (queue : EngineQueueState) : option (list string) :=
  match get "worker_queues" (inspector queue) with
  | JArr (b :: bs) =>
      match texts (List.map (prop "worker") (b :: bs)) with
      | Some names =>
          if Nat.eqb (length (dedup_strings names)) (length (b :: bs)) then Some names else None
      | None => None
      end
  | _ => None
  end.

(** The inspection of one kind covers just the workers. *)
Definition covers (workers : list string) (inspected : jsval) : bool :=
  match inspected with
  | JArr l =>
      Nat.eqb (length l) (length workers) &&
      forallb (fun v => match v with JStr s => mem s workers | _ => false end) l &&
      match texts l with Some names => Nat.eqb (length (dedup_strings names)) (length workers) | None => false end
  | _ => false
  end.

Definition KINDS : list string := ["active"; "reserved"; "scheduled"].

Definition completeProgressiveObservation (runtime : option JobRuntimeSummary)
    (queue : option EngineQueueState) (engineJobId : string) : bool :=
  match runtime with
  | None => false
  | Some r =>
      if negb (String.eqb (job_id r) engineJobId) || negb (exists_ r)
         || negb (bool_decide (runtime_error r = None)) || negb (bool_decide (status_error r = None))
         || negb (bool_decide (result_error r = None)) || negb (status_readable r)
         || has_result r || result_readable r
         || negb (isSafeInteger (process_count r)) || (process_count r < 0)%js
         || match runtime_heartbeat_age_sec r with Some age => negb (isFinite age) | None => true end
      then false
      else
        match queue with
        | None => false
        | Some q =>
            if negb (nullish (get "worker_queues_error" (inspector q)))
               || negb (nullish (get "worker_runtime_error" (inspector q)))
               || has_own_keys (get "inspection_errors" (inspector q))
            then false
            else
              match workersOf q with
              | None => false
              | Some workers =>
                  forallb (fun kind => covers workers (prop kind (get "inspection_workers" (inspector q)))) KINDS
              end
        end
  end.

(** ** Lost jobs *)

Section Dates.
(** [new Date(value).getTime()] of the host, NaN for an invalid date. *)
Context (Date_parse : string -> jsnum).

Definition parseEngineDate (value : option string) : option jsnum :=
  match truthy_string value with
  | None => None
  | Some s => if isNaN (Date_parse s) then None else Some (Date_parse s)
  end.

(** [Number(process.env.SWEEPER_LOST_RUNNING_GRACE_MS ?? 30 * 60 * 1000)] *)
Definition LOST_RUNNING_GRACE_MS (raw : option string) : jsnum :=
  match raw with Some s => string_to_number s | None => (30 * 60 * 1000)%float end.

Definition progressTimes (status : JobStatus) (runtime : JobRuntimeSummary) : list jsnum :=
  omap parseEngineDate
    [last_progress_at status; updated_at status; phase_started_at status; started_at status;
     queued_at status; runtime_last_progress_at runtime; status_last_progress_at runtime;
     status_updated_at runtime].

Definition alive (runtime : JobRuntimeSummary) : bool :=
  match runtime_heartbeat_age_sec runtime with
  | Some age => isFinite age && (age <= 120)%js
  | None => false
  end.

Definition lostReason (quietMs : jsnum) : string :=
  "engine reports running but no OpenFOAM process exists, the worker heartbeat is stale, Celery does not list the task, and last progress was "
  +:+ Number_toString (Math_round (quietMs / 60000)%float)
  +:+ " min ago — task lost (worker process died, was hard-killed, or restarted mid-solve)".

Definition classifyLostRunning (grace : jsnum) (engineJobId : option string) (status : JobStatus)
    (runtime : option JobRuntimeSummary) (queue : option EngineQueueState) (now : jsnum) :
    option string :=
  if negb (String.eqb (state status) "running") then None
  else match runtime with
  | None => None
  | Some r =>
      if negb (exists_ r) || (process_count r > 0)%js then None
      else if alive r then None
      else match queue with
      | None => None
      | Some q =>
          if engineQueueListsJob (Some (inventory q)) engineJobId then None
          else
            match progressTimes status r with
            | [] => None
            | times =>
                let quietMs := (now - Math_max_all times)%float in
                if (quietMs < grace)%js then None else Some (lostReason quietMs)
            end
      end
  end.

(** The guard of the cancellation in [reconcileProgressiveCfdJob]. *)
Definition lostProgressiveReason (grace : jsnum) (engineJobId expectedPool : string)
    (expectedEngine : EngineIdentity) (status : JobStatus) (runtime : option JobRuntimeSummary)
    (queue : option EngineQueueState) (now : jsnum) : option string :=
  if String.eqb (state status) "running"
     && completeProgressiveObservation runtime queue engineJobId
     && liveWorkerConsumesExecutionPool (option_map inspector queue) expectedPool expectedEngine
  then classifyLostRunning grace (Some engineJobId) status runtime queue now
  else None.

(** ** What a lost job shows *)

Lemma texts_spec (l : list jsval) (names : list string) :
  texts l = Some names <-> l = List.map JStr names /\ Forall (fun s => nonempty s = true) names.
Proof.
  revert names. induction l as [|v l IH]; intros names; cbn [texts].
  - split; [intros [= <-]; by split|]. intros [H _]. by destruct names.
  - destruct v as [| | | |s| |]; try (split; [done|]; by intros [H _]; destruct names).
    destruct (nonempty s) eqn:Es.
    + destruct (texts l) as [ns|] eqn:E; cbn [option_map].
      * destruct (proj1 (IH ns) eq_refl) as [-> Hn]. split.
        -- intros [= <-]. split; [done|by constructor].
        -- intros [H Hf]. destruct names as [|t names]; [done|]. injection H as -> H.
           f_equal. f_equal. apply Forall_cons_iff in Hf as [_ Hf].
           assert (HH : Some ns = Some names) by (by apply IH). by injection HH.
      * split; [done|]. intros [H Hf]. destruct names as [|t names]; [done|]. injection H as -> H.
        apply Forall_cons_iff in Hf as [_ Hf]. by assert (None = Some names) by (by apply IH).
    + split; [done|]. intros [H Hf]. destruct names as [|t names]; [done|]. injection H as -> H.
      apply Forall_cons_iff in Hf as [Ht _]. congruence.
Qed.

Lemma distinct_strings (l : list string) (n : nat) :
  length l = n -> length (dedup_strings l) = n -> List.NoDup l.
Proof.
  intros Hn Hd. apply (List.NoDup_incl_NoDup (l := dedup_strings l)); [apply dedup_strings_nodup|lia|].
  intros x. apply in_dedup_strings.
Qed.

Lemma workersOf_spec (queue : EngineQueueState) (workers : list string) :
  workersOf queue = Some workers ->
  workers <> [] /\ List.NoDup workers /\ Forall (fun s => nonempty s = true) workers /\
  exists bindings, get "worker_queues" (inspector queue) = JArr bindings /\
    List.map (prop "worker") bindings = List.map JStr workers.
Proof.
  unfold workersOf. destruct (get _ _) as [| | | | |[|b bs]|]; try done.
  destruct (texts (List.map (prop "worker") (b :: bs))) as [names|] eqn:E; [|done].
  destruct (Nat.eqb_spec (length (dedup_strings names)) (length (b :: bs))) as [Hd|]; [|done].
  intros [= <-]. apply texts_spec in E as [E Hn].
  pose proof (f_equal (@length _) E) as Hl. rewrite !length_map in Hl.
  split_and!; [by destruct names|by apply (distinct_strings _ _ (eq_sym Hl))|done|eauto].
Qed.

Lemma covers_spec (workers : list string) (v : jsval) :
  List.NoDup workers -> covers workers v = true ->
  exists names, v = JArr (List.map JStr names) /\ Permutation names workers.
Proof.
  unfold covers. destruct v as [| | | | |l|]; try done. intros Hw H. breflect.
  destruct H as [[Hlen%Nat.eqb_eq Hall] Ht]. destruct (texts l) as [names|] eqn:E; [|done].
  apply texts_spec in E as [-> Hn]. rewrite length_map in Hlen. apply Nat.eqb_eq in Ht.
  exists names. split; [done|].
  pose proof (distinct_strings names _ Hlen Ht) as Hnd.
  apply Permutation.NoDup_Permutation_bis; [done|lia|].
  intros s Hs. rewrite forallb_forall in Hall. specialize (Hall (JStr s)).
  cbn in Hall. rewrite mem_in in Hall. apply Hall. by apply in_map.
Qed.

(** The most recent of the reported times. *)
Lemma max_all_integer (ts : list jsnum) :
  ts <> [] -> Forall (fun t => exists z, to_integer t = Some z) ts ->
  exists m, to_integer (Math_max_all ts) = Some m /\
    (exists t, In t ts /\ to_integer t = Some m) /\
    forall t z, In t ts -> to_integer t = Some z -> (z <= m)%Z.
Proof.
  assert (Hfold : forall l x a, to_integer x = Some a -> Forall (fun t => exists z, to_integer t = Some z) l ->
    exists m, to_integer (fold_left Math_max l x) = Some m /\
      (exists t, In t (x :: l) /\ to_integer t = Some m) /\
      forall t z, In t (x :: l) -> to_integer t = Some z -> (z <= m)%Z).
  { induction l as [|t l IH]; intros x a Hx Hl; cbn [fold_left].
    - exists a. split; [done|]. split; [exists x; split; [by left|done]|].
      intros t z [<-|[]] Hz. rewrite Hx in Hz. by injection Hz as ->.
    - apply Forall_cons_iff in Hl as [[z Hz] Hl].
      destruct (IH _ _ (Math_max_integer _ _ _ _ Hx Hz) Hl) as (m & Hm & (u & Hu & Hum) & Hle).
      pose proof (Hle _ _ (or_introl eq_refl) (Math_max_integer _ _ _ _ Hx Hz)) as Hmax.
      exists m. split; [done|]. split.
      + destruct Hu as [<-|Hu]; [|exists u; split; [by right; right|done]].
        rewrite (Math_max_integer _ _ _ _ Hx Hz) in Hum. injection Hum as Em.
        destruct (Z.max_spec a z) as [[_ E]|[_ E]]; rewrite E in Em; subst m.
        * exists t. split; [by right; left|done].
        * exists x. split; [by left|done].
      + intros t' z' [<-|[<-|Ht]] Hz'; [| |apply (Hle t'); [by right|done]].
        * rewrite Hx in Hz'. injection Hz' as <-. lia.
        * rewrite Hz in Hz'. injection Hz' as <-. lia. }
  destruct ts as [|t ts]; [done|]. intros _ [[z Hz] Hl]%Forall_cons_iff.
  unfold Math_max_all. cbn [fold_left].
  assert (Hfirst : Math_max PrimFloat.neg_infinity t = t).
  { apply to_integer_spec in Hz as [Hf _]. apply isFinite_ord in Hf as [Hn [Hlo _]].
    unfold Math_max. rewrite Hn. change (isNaN PrimFloat.neg_infinity) with false. cbn [orb].
    assert (Hlt : PrimFloat.ltb PrimFloat.neg_infinity t = true); [|by rewrite Hlt].
    apply ltb_ord. split; [done|]. split; [done|].
    change (ord PrimFloat.neg_infinity) with (- inf_ord)%Z. done. }
  rewrite Hfirst. by apply (Hfold ts t z).
Qed.

(** Every date that the status and the runtime report is a time of the engine's era. *)
Definition reported_times (status : JobStatus) (runtime : JobRuntimeSummary) (bound : Z) : Prop :=
  Forall (fun t => exists z, to_integer t = Some z /\ (Z.abs z <= bound)%Z)
    (progressTimes status runtime).

Lemma classifyLostRunning_silent (grace now : jsnum) (g n : Z) (engineJobId : option string)
    (status : JobStatus) (runtime : option JobRuntimeSummary) (queue : option EngineQueueState)
    (reason : string) :
  to_integer grace = Some g -> to_integer now = Some n -> (Z.abs n <= 2 ^ 52)%Z ->
  (forall r, runtime = Some r -> reported_times status r (2 ^ 52)) ->
  classifyLostRunning grace engineJobId status runtime queue now = Some reason ->
  state status = "running" /\
  exists r q, runtime = Some r /\ queue = Some q /\
    exists_ r = true /\ (process_count r > 0)%js = false /\ alive r = false /\
    engineQueueListsJob (Some (inventory q)) engineJobId = false /\
    progressTimes status r <> [] /\
    forall t z, In t (progressTimes status r) -> to_integer t = Some z -> (z + g <= n)%Z.
Proof.
  intros Hg Hn Hb Ht H. unfold classifyLostRunning in H.
  destruct (negb (String.eqb (state status) "running")) eqn:Es; [done|].
  apply negb_false_iff, String.eqb_eq in Es. split; [done|].
  destruct runtime as [r|]; [|done].
  destruct (negb (exists_ r) || (process_count r > 0)%js) eqn:Ep; [done|]. breflect.
  destruct Ep as [Ee Epc]. destruct (alive r) eqn:Ea; [done|].
  destruct queue as [q|]; [|done].
  destruct (engineQueueListsJob _ _) eqn:Eq; [done|].
  specialize (Ht r eq_refl). unfold reported_times in Ht.
  set (times := progressTimes status r) in *.
  assert (Hne : times <> []) by (by destruct times).
  exists r, q. split_and!; try done. intros t z Hin Hz. fold times in Hin.
  destruct (max_all_integer times Hne) as (m & Hm & (u & Hu & Hum) & Hle).
  { forall_impl Ht. intros u (v & Hv & _). by exists v. }
  assert (Hmb : (Z.abs m <= 2 ^ 52)%Z).
  { rewrite List.Forall_forall in Ht. destruct (Ht u Hu) as (v & Hv & Hvb).
    rewrite Hum in Hv. by injection Hv as ->. }
  pose proof (sub_integer _ _ _ _ Hn Hm ltac:(lia)) as Hq.
  destruct times as [|t0 ts]; [done|]. rewrite (ltb_integer _ _ _ _ Hq Hg) in H.
  destruct (Z.ltb_spec (n - m) g); [done|]. specialize (Hle t z Hin Hz). lia.
Qed.

(** A grace that is not a number lets no time pass at all. *)
Lemma nan_grace_is_none (raw : string) (engineJobId : option string) (status : JobStatus)
    (r : JobRuntimeSummary) (q : EngineQueueState) (now : jsnum) :
  isNaN (string_to_number raw) = true ->
  state status = "running" -> exists_ r = true -> (process_count r > 0)%js = false ->
  alive r = false -> engineQueueListsJob (Some (inventory q)) engineJobId = false ->
  progressTimes status r <> [] ->
  exists reason, classifyLostRunning (LOST_RUNNING_GRACE_MS (Some raw)) engineJobId status (Some r)
    (Some q) now = Some reason.
Proof.
  intros Hg Hs He Hp Ha Hq Ht. unfold classifyLostRunning. cbn [LOST_RUNNING_GRACE_MS].
  rewrite Hs, He, Hp, Ha, Hq. cbn [String.eqb Ascii.eqb Bool.eqb negb orb].
  destruct (progressTimes status r) as [|t ts]; [done|].
  assert (Hlt : forall x, PrimFloat.ltb x (string_to_number raw) = false).
  { intros x. destruct (PrimFloat.ltb x _) eqn:E; [|done]. apply ltb_ord in E. destruct E as (_ & E & _).
    congruence. }
  rewrite Hlt. eauto.
Qed.

(** C28. A progressive execution is cancelled as lost only on positive evidence of its
    absence: the engine reports it running; its readable runtime of exactly this job has no process, no
    result, no error and a stale heartbeat; an isolated worker of its pool is alive;
    the queue snapshots cover every worker exactly and do not list the job; and every
    recorded sign of progress is at least the grace old. *)
Theorem lost_progressive_sound (grace now : jsnum) (g n : Z) (engineJobId expectedPool reason : string)
    (expectedEngine : EngineIdentity) (status : JobStatus) (runtime : option JobRuntimeSummary)
    (queue : option EngineQueueState) :
  to_integer grace = Some g -> to_integer now = Some n -> (Z.abs n <= 2 ^ 52)%Z ->
  (forall r, runtime = Some r -> reported_times status r (2 ^ 52)) ->
  lostProgressiveReason grace engineJobId expectedPool expectedEngine status runtime queue now
    = Some reason ->
  state status = "running" /\
  exists r q workers, runtime = Some r /\ queue = Some q /\
    job_id r = engineJobId /\ exists_ r = true /\ to_integer (process_count r) = Some 0%Z /\
    has_result r = false /\ result_readable r = false /\ status_readable r = true /\
    runtime_error r = None /\ status_error r = None /\ result_error r = None /\
    (exists age, runtime_heartbeat_age_sec r = Some age /\ isFinite age = true /\ (age <= 120)%js = false) /\
    (exists bindings binding, get "worker_queues" (inspector q) = JArr bindings /\
       In binding bindings /\ isolated expectedPool expectedEngine binding /\
       List.map (prop "worker") bindings = List.map JStr workers) /\
    List.NoDup workers /\
    (forall kind, In kind KINDS -> exists inspected,
       prop kind (get "inspection_workers" (inspector q)) = JArr (List.map JStr inspected) /\
       Permutation inspected workers) /\
    engineQueueListsJob (Some (inventory q)) (Some engineJobId) = false /\
    progressTimes status r <> [] /\
    forall t z, In t (progressTimes status r) -> to_integer t = Some z -> (z + g <= n)%Z.
Proof.
  intros Hg Hn Hb Ht H. unfold lostProgressiveReason in H.
  destruct (_ && liveWorkerConsumesExecutionPool _ _ _) eqn:E; [|done]. breflect.
  destruct E as [[_ Hc] Hl].
  destruct (classifyLostRunning_silent _ _ _ _ _ _ _ _ _ Hg Hn Hb Ht H)
    as (Hrun & r & q & -> & -> & He & Hp & Ha & Hq & Hne & Hz).
  split; [done|]. cbn [option_map] in Hl. apply liveWorkerConsumesExecutionPool_spec in Hl as (_ & _ & bs & b & Hbs & Hin & Hiso).
  unfold completeProgressiveObservation in Hc.
  destruct (_ || match runtime_heartbeat_age_sec r with Some _ => _ | None => _ end) eqn:Er; [done|].
  destruct (_ || has_own_keys _) eqn:Eq; [done|].
  destruct (workersOf q) as [workers|] eqn:Ew; [|done].
  destruct (workersOf_spec q workers Ew) as (_ & Hnd & _ & bs' & Hbs' & Hw).
  rewrite Hbs in Hbs'. injection Hbs' as <-.
  exists r, q, workers. apply orb_false_iff in Er as [Er Hage]. breflect. destruct_and!.
  repeat match goal with Hd : bool_decide _ = true |- _ => apply bool_decide_eq_true in Hd end.
  assert (Hcount : to_integer (process_count r) = Some 0%Z).
  { match goal with Hs : isSafeInteger _ = true |- _ => apply isSafeInteger_spec in Hs as (c & Hc' & _) end.
    match goal with Hneg : (process_count r < 0)%js = false |- _ =>
      rewrite (ltb_integer _ _ _ _ Hc' to_integer_0), Z.ltb_ge in Hneg end.
    rewrite (ltb_integer _ _ _ _ to_integer_0 Hc'), Z.ltb_ge in Hp. rewrite Hc'. f_equal. lia. }
  split_and!; try done.
  - by apply String.eqb_eq.
  - unfold alive in Ha. destruct (runtime_heartbeat_age_sec r) as [age|]; [|done].
    apply negb_false_iff in Hage. rewrite Hage in Ha. by exists age.
  - by exists bs, b.
  - intros kind Hk. rewrite forallb_forall in Hc.
    destruct (covers_spec workers _ Hnd (Hc kind Hk)) as (names & -> & Hperm). by exists names.
Qed.
End Dates.

Module Examples.
Definition clock (s : string) : jsnum :=
  if String.eqb s "2026-01-01T00:00:00Z" then 1767225600000%float else PrimFloat.nan.

Definition engine_json : jsval :=
  JObj [("family", JStr "openfoam"); ("distribution", JStr "opencfd"); ("version", JStr "2406");
        ("numerics_revision", JStr "1"); ("adapter_contract_version", JNum 1);
        ("build_id", JStr "b7");
        ("binary_sha256", JStr "00112233445566778899aabbccddeeff00112233445566778899aabbccddeeff")].

Definition runtime : JobRuntimeSummary := {|
  job_id := "job-1"; exists_ := true; process_count := 0; runtime_heartbeat_age_sec := Some 900%float;
  runtime_error := None; status_error := None; result_error := None; status_readable := true;
  has_result := false; result_readable := false;
  runtime_last_progress_at := Some "2026-01-01T00:00:00Z"; status_last_progress_at := Some "soon";
  status_updated_at := None |}.

Definition queue : EngineQueueState := {|
  inventory := {| job_ids := ["job-2"]; active := [Some "job-2"]; reserved := []; scheduled := [] |};
  inspector := [
    ("worker_queues", JArr [JObj [("worker", JStr "w1"); ("queues", JArr [JStr "pool-a"]);
                                  ("execution_pool", JStr "pool-a"); ("engine", engine_json)];
                            JObj [("worker", JStr "w2"); ("queues", JArr [JStr "other"])]]);
    ("inspection_workers", JObj [("active", JArr [JStr "w2"; JStr "w1"]);
                                 ("reserved", JArr [JStr "w1"; JStr "w2"]);
                                 ("scheduled", JArr [JStr "w1"; JStr "w2"])])] |}.

Definition status : JobStatus := {|
  state := "running"; last_progress_at := None; updated_at := Some ""; phase_started_at := None;
  started_at := Some "2026-01-01T00:00:00Z"; queued_at := None |}.

Definition verdict_at (now : jsnum) : option string :=
  lostProgressiveReason clock (LOST_RUNNING_GRACE_MS None) "job-1" "pool-a" LEGACY_OPENCFD_2406_ENGINE
    status (Some runtime) (Some queue) now.

Example lost_ex :
  List.map (fun now => match verdict_at now with Some _ => true | None => false end)
    [1767225600000 + 1799999; 1767225600000 + 1800000]%float = [false; true].
Proof. vm_compute. reflexivity. Qed.

Lemma times_reported : reported_times clock status runtime (2 ^ 52).
Proof.
  unfold reported_times.
  assert (E : progressTimes clock status runtime = [1767225600000; 1767225600000]%float)
    by (vm_compute; reflexivity).
  rewrite E. repeat constructor; (exists 1767225600000%Z; split; [vm_compute; reflexivity|lia]).
Qed.
End Examples.

Lemma lost_progressive_sound_witness :
  exists reason, Examples.verdict_at 1767227400000 = Some reason /\
  engineQueueListsJob (Some (inventory Examples.queue)) (Some "job-1") = false.
Proof.
  destruct (Examples.verdict_at 1767227400000) as [reason|] eqn:E.
  - exists reason. split; [reflexivity|].
    destruct (lost_progressive_sound Examples.clock (LOST_RUNNING_GRACE_MS None) 1767227400000
      1800000 1767227400000 "job-1" "pool-a" reason LEGACY_OPENCFD_2406_ENGINE Examples.status
      (Some Examples.runtime) (Some Examples.queue))
      as (_ & r & q & workers & Hr & Hq & H).
    + vm_compute. reflexivity.
    + vm_compute. reflexivity.
    + lia.
    + intros r Hr. injection Hr as <-. exact Examples.times_reported.
    + exact E.
    + injection Hq as <-. exact (proj1 (proj2 (proj2 (proj2 (proj2 (proj2 (proj2 (proj2 (proj2 (proj2
        (proj2 (proj2 (proj2 (proj2 H)))))))))))))).
  - vm_compute in E. discriminate.
Defined.
End Lost.

Lemma prioritize_partition_witness :
  prioritizeActiveReconcileJobs (fun j => j) [Some "a"; Some "b"; None; Some "c"]
    (Some {| Lifecycle.job_ids := ["a"]; Lifecycle.active := [Some "c"]; Lifecycle.reserved := [];
             Lifecycle.scheduled := [] |}) 3
  = [Some "b"; None; Some "a"].
Proof.
  etransitivity.
  - apply (prioritize_partition (fun j => j)). cbn. lia.
  - vm_compute. reflexivity.
Defined.
