(* ===== verification/ProgressiveExecution.v ===== *)
(** * The scope of a progressive execution

    [packages/engine-client/src/progressive-execution.ts]: the check that a
    versioned owner scope and the solver request it is sent with describe the
    same bounded set of physical cases, with one identity, token and budget per
    unit, and that a continuation is bound to its saved case.  The request and
    the scope are parsed JSON. *)

From Stdlib Require Import ZArith Lia Bool Ascii String.
From Stdlib Require Import Floats.
From stdpp Require Import base list strings option numbers.
From S2P Require Import Prelude JsNumber JsString JsValue JsArray JsMap EngineIdentity SolverBudget.

Local Open Scope string_scope.
Local Open Scope list_scope.
Local Open Scope result_scope.

(** ** Data *)

Record ProgressiveExecutionUnit := {
  unitId : string;
  alpha : jsnum;
  token : string;
  activeBudgetSeconds : jsnum;
}.

Record ProgressiveExecutionContinuation := {
  extensionId : string;
  sourceResultAttemptId : string;
  engineJobId : string;
  engineCaseSlug : string;
  extensionSeconds : jsnum;
}.

(** [executionContract] is the constant "progressive-cfd-v1". *)
Record ProgressiveExecutionScope := {
  executionId : string;
  epochId : string;
  generationId : string;
  targetId : string;
  stage : jsnum;
  recipeId : string;
  tokens : list string;
  units : list ProgressiveExecutionUnit;
  continuation : option ProgressiveExecutionContinuation;
}.

(** ** Guards *)

Definition dash_at (i : nat) (s : string) : bool := String.eqb (substring i 1 s) "-".

(** [/^[0-9a-f]{8}-[0-9a-f]{4}-[0-9a-f]{4}-[0-9a-f]{4}-[0-9a-f]{12}$/] *)
Definition UUID (s : string) : bool :=
  Nat.eqb (String.length s) 36 && dash_at 8 s && dash_at 13 s && dash_at 18 s && dash_at 23 s &&
  hex_string 8 (substring 0 8 s) && hex_string 4 (substring 9 4 s) &&
  hex_string 4 (substring 14 4 s) && hex_string 4 (substring 19 4 s) &&
  hex_string 12 (substring 24 12 s).

(** [/^[0-9a-f]{64}$/] *)
Definition HASH (s : string) : bool := hex_string 64 s.

Definition identifier (value : jsval) (pattern : string -> bool) : bool :=
  match value with JStr s => pattern s | _ => false end.

(** The string and the number that a guard has narrowed. *)
Definition as_string (v : jsval) : string := match v with JStr s => s | _ => "" end.
Definition as_number (v : jsval) : jsnum := match v with JNum x => x | _ => PrimFloat.nan end.

(** [typeof v === "string" && v.trim()] *)
Definition nonblank (v : jsval) : bool :=
  match v with JStr s => nonempty (trim s) | _ => false end.

(** [Number.isSafeInteger(v) && v >= minimum] *)
Definition safe_at_least (v : jsval) (minimum : jsnum) : bool :=
  on_num (fun x => isSafeInteger x && negb (x < minimum)%js) v.

Definition positive_finite (v : jsval) : bool := on_num (fun x => isFinite x && (x > 0)%js) v.

(** [[2, 3].includes(v)] *)
Definition stage_ok (v : jsval) : bool := strict_eq_num v 2 || strict_eq_num v 3.

(** [v?.[0]] and [v?.length] of parsed JSON. *)
Definition item0 (v : jsval) : jsval :=
  match v with
  | JArr (x :: _) => x
  | JObj o => get "0" o
  | JStr (String c _) => JStr (String c EmptyString)
  | _ => JUndef
  end.
Definition js_length (v : jsval) : jsval :=
  match v with
  | JArr l => JNum (of_nat (length l))
  | JObj o => get "length" o
  | JStr s => JNum (of_nat (String.length s))
  | _ => JUndef
  end.

Definition SCOPE_KEYS : list string :=
  ["executionContract"; "executionId"; "epochId"; "generationId"; "targetId"; "stage";
   "recipeId"; "tokens"; "units"].
Definition CONTINUATION_KEYS : list string :=
  ["extensionId"; "sourceResultAttemptId"; "engineJobId"; "engineCaseSlug"; "extensionSeconds"].
Definition UNIT_KEYS : list string := ["unitId"; "alpha"; "token"; "activeBudgetSeconds"].

(** The owner scope has its exact shape. *)
Definition owner_scope (value : record) : bool :=
  let hasContinuation := has "continuation" value in
  hasExactKeys value (SCOPE_KEYS ++ if hasContinuation then ["continuation"] else []) &&
  is_str (get "executionContract" value) "progressive-cfd-v1" &&
  identifier (get "executionId" value) UUID && identifier (get "epochId" value) UUID &&
  identifier (get "generationId" value) UUID && identifier (get "targetId" value) HASH &&
  identifier (get "recipeId" value) HASH && stage_ok (get "stage" value).

(** The request names an engine, a pool and a mesh capability. *)
Definition request_capability (request : record) : bool :=
  isEngineIdentity (get "expected_engine" request) &&
  nonblank (get "expected_execution_pool" request) &&
  safe_at_least (get "expected_mesh_recovery_version" request) 0.

(** The continuation is bound to the saved case that the request continues. *)
Definition continuation_bound (request value candidate : record) : bool :=
  let from := get "continue_from" request in
  let solver := get "solver" request in
  hasExactKeys candidate CONTINUATION_KEYS &&
  identifier (get "extensionId" candidate) UUID &&
  identifier (get "sourceResultAttemptId" candidate) UUID &&
  identifier (get "engineJobId" candidate) UUID &&
  nonblank (get "engineCaseSlug" candidate) &&
  Nat.leb (String.length (as_string (get "engineCaseSlug" candidate))) 512 &&
  positive_finite (get "extensionSeconds" candidate) &&
  on_num (fun x => negb (x > 43200)%js) (get "extensionSeconds" candidate) &&
  stage_ok (get "stage" value) &&
  negb (nullish from) &&
  is_str (prop "engine_job_id" from) (as_string (get "engineJobId" candidate)) &&
  is_str (prop "case_slug" from) (as_string (get "engineCaseSlug" candidate)) &&
  strict_eq_num (get "budget_override_s" request) (as_number (get "extensionSeconds" candidate)) &&
  nullish (get "corrective_tail_periods" request) &&
  is_true (prop "force_transient" solver) &&
  is_str (prop "urans_fidelity" solver)
    (if strict_eq_num (get "stage" value) 2 then "precalc" else "full") &&
  safe_at_least (get "expected_urans_recovery_version" request) 2.

Definition continuationOf (candidate : record) : ProgressiveExecutionContinuation := {|
  extensionId := as_string (get "extensionId" candidate);
  sourceResultAttemptId := as_string (get "sourceResultAttemptId" candidate);
  engineJobId := as_string (get "engineJobId" candidate);
  engineCaseSlug := as_string (get "engineCaseSlug" candidate);
  extensionSeconds := as_number (get "extensionSeconds" candidate) |}.

Definition checkContinuation (request value : record) :
    result (option ProgressiveExecutionContinuation) :=
  if has "continuation" value then
    match get "continuation" value with
    | JObj candidate =>
        if continuation_bound request value candidate then Ok (Some (continuationOf candidate))
        else Throw "Progressive continuation is not bound to its exact saved URANS case"
    | _ => Throw "Progressive continuation is not bound to its exact saved URANS case"
    end
  else
    let* _ := throw_if
      (negb (nullish (get "continue_from" request)) ||
       negb (nullish (get "budget_override_s" request)) ||
       negb (nullish (get "corrective_tail_periods" request)))
      "Progressive execution cannot override its immutable case allocations" in
    Ok None.

Definition valid_unit (value unit : record) : bool :=
  hasExactKeys unit UNIT_KEYS &&
  identifier (get "unitId" unit) UUID && identifier (get "token" unit) UUID &&
  finite (get "alpha" unit) && positive_finite (get "activeBudgetSeconds" unit) &&
  on_num (fun x => negb (x > (if strict_eq_num (get "stage" value) 2 then 900 else 43200))%js)
    (get "activeBudgetSeconds" unit).

Definition parseUnit (value : record) (unit : jsval) : result ProgressiveExecutionUnit :=
  match unit with
  | JObj u =>
      if valid_unit value u then
        Ok {| unitId := as_string (get "unitId" u); alpha := as_number (get "alpha" u);
              token := as_string (get "token" u);
              activeBudgetSeconds := as_number (get "activeBudgetSeconds" u) |}
      else Throw "Progressive execution contains an invalid or unbounded unit"
  | _ => Throw "Progressive execution contains an invalid or unbounded unit"
  end.

(** Both lists of a bounded complete unit scope. *)
Definition boundedUnits (value : record) (continued : bool) : result (list jsval * list jsval) :=
  let message := "Progressive execution requires a bounded complete unit scope" in
  match get "units" value, get "tokens" value with
  | JArr us, JArr ts =>
      let* _ := throw_if
        (Nat.ltb (length us) 1 || Nat.ltb 512 (length us)
         || (continued && negb (Nat.eqb (length us) 1))
         || negb (Nat.eqb (length ts) (length us))) message in
      Ok (us, ts)
  | _, _ => Throw message
  end.

(** The identities are unique and complete.  [new Set(value.tokens).size] is read
    on strings: any other token fails the test that follows it in the same
    condition. *)
Definition unique_units (us : list ProgressiveExecutionUnit) (ts : list jsval) : bool :=
  let n := length us in
  let unitTokens := dedup_strings (List.map token us) in
  Nat.eqb (length (dedup_strings (List.map unitId us))) n &&
  Nat.eqb (length unitTokens) n &&
  Nat.eqb (length (dedup (List.map alpha us))) n &&
  Nat.eqb (length (dedup_strings (List.map as_string ts))) n &&
  forallb (fun t => identifier t UUID && mem (as_string t) unitTokens) ts.

(** The request has one chord, one speed and exactly the angles of the units; a
    set of angles is read on numbers, any other angle fails the last test. *)
Definition request_scope (request : record) (us : list ProgressiveExecutionUnit) : bool :=
  let angles := dedup (List.map alpha us) in
  strict_eq_num (js_length (get "chord_lengths" request)) 1 &&
  strict_eq_num (js_length (get "speeds" request)) 1 &&
  positive_finite (item0 (get "chord_lengths" request)) &&
  positive_finite (item0 (get "speeds" request)) &&
  match get "aoa" request with
  | JObj aoa =>
      hasExactKeys aoa ["angles"] &&
      match get "angles" aoa with
      | JArr l =>
          Nat.eqb (length l) (length us) &&
          Nat.eqb (length (dedup (List.map as_number l))) (length us) &&
          forallb (on_num (JsArray.includes angles)) l
      | _ => false
      end
  | _ => false
  end.

Definition unitCase (request : record) (u : ProgressiveExecutionUnit) : SolverBudgetCase :=
  {| chord := item0 (get "chord_lengths" request); speed := item0 (get "speeds" request);
     aoa_deg := JNum (alpha u) |}.

(** Every unit owns the allocation of its case. *)
Fixpoint checkAllocations (request : record) (allocations : allocation_map)
    (us : list ProgressiveExecutionUnit) : result unit :=
  match us with
  | [] => Ok tt
  | u :: us' =>
      let* key := solverBudgetCaseKey (unitCase request u) in
      let* _ := throw_if
        (negb match map_get key allocations with
              | Some x => (x === activeBudgetSeconds u)%js
              | None => false
              end) "Progressive request changed an owned case allocation" in
      checkAllocations request allocations us'
  end.

Definition validateProgressiveExecutionScope (request : record) (value : jsval) :
    result ProgressiveExecutionScope :=
  match value with
  | JObj value =>
      let* _ := throw_if (negb (owner_scope value))
        "Progressive execution requires an exact versioned owner scope" in
      let* _ := throw_if
        (negb (is_str (get "execution_id" request) (as_string (get "executionId" value))) ||
         negb (strict_eq_num (get "expected_solver_budget_version" request) 2))
        "Progressive request execution identity or budget version differs" in
      let* _ := throw_if (negb (request_capability request))
        "Progressive request requires an explicit engine, pool and mesh capability" in
      let* continuation := checkContinuation request value in
      let* _ := throw_if
        (negb (strict_eq_num (prop "case_concurrency" (get "resources" request)) 1) ||
         negb (is_true (prop "warm_start" (get "solver" request))))
        "Progressive execution must preserve its shared-mesh marched request" in
      let* lists := boundedUnits value (match continuation with Some _ => true | None => false end) in
      let* us := result_map (parseUnit value) (fst lists) in
      let* _ := throw_if (negb (unique_units us (snd lists)))
        "Progressive execution unit, angle and attempt identities must be unique and complete" in
      let* _ := throw_if (negb (request_scope request us))
        "Progressive request differs from its exact physical case scope" in
      let* allocations := resolveSolverCaseAllocations (get "resources" request)
        (List.map (unitCase request) us) (get "expected_solver_budget_version" request) in
      let* _ := checkAllocations request allocations us in
      Ok {| executionId := as_string (get "executionId" value);
            epochId := as_string (get "epochId" value);
            generationId := as_string (get "generationId" value);
            targetId := as_string (get "targetId" value);
            stage := as_number (get "stage" value);
            recipeId := as_string (get "recipeId" value);
            tokens := List.map as_string (snd lists);
            units := us;
            continuation := continuation |}
  | _ => Throw "Progressive execution requires an exact versioned owner scope"
  end.

(** ** Well-formed scopes *)

Definition budget_limit (s : jsnum) : jsnum := if (s === 2)%js then 900%float else 43200%float.

Record wf_unit (s : jsnum) (u : ProgressiveExecutionUnit) : Prop := {
  wf_unitId : UUID (unitId u) = true;
  wf_token : UUID (token u) = true;
  wf_alpha : isFinite (alpha u) = true;
  wf_budget : isFinite (activeBudgetSeconds u) = true /\
    PrimFloat.ltb 0 (activeBudgetSeconds u) = true /\
    PrimFloat.ltb (budget_limit s) (activeBudgetSeconds u) = false;
}.

(** What every accepted scope satisfies, whatever the request. *)
Record wf_scope (s : ProgressiveExecutionScope) : Prop := {
  wf_ids : UUID (executionId s) = true /\ UUID (epochId s) = true /\
    UUID (generationId s) = true /\ HASH (targetId s) = true /\ HASH (recipeId s) = true;
  wf_stage : (stage s === 2)%js = true \/ (stage s === 3)%js = true;
  wf_count : (1 <= length (units s) <= 512)%nat;
  wf_units : Forall (wf_unit (stage s)) (units s);
  wf_distinct : List.NoDup (List.map unitId (units s)) /\ List.NoDup (List.map token (units s)) /\
    List.NoDup (List.map ord (List.map alpha (units s)));
  wf_tokens : Permutation (tokens s) (List.map token (units s));
  wf_single : continuation s <> None -> length (units s) = 1%nat;
  wf_continuation : forall c, continuation s = Some c ->
    UUID (extensionId c) = true /\ UUID (sourceResultAttemptId c) = true /\
    UUID (engineJobId c) = true /\ nonempty (trim (engineCaseSlug c)) = true /\
    (String.length (engineCaseSlug c) <= 512)%nat /\
    isFinite (extensionSeconds c) = true /\ PrimFloat.ltb 0 (extensionSeconds c) = true /\
    PrimFloat.ltb 43200 (extensionSeconds c) = false;
}.

Lemma identifier_spec (v : jsval) (p : string -> bool) :
  identifier v p = true -> v = JStr (as_string v) /\ p (as_string v) = true.
Proof. by destruct v. Qed.

Lemma strict_eq_num_spec (v : jsval) (x : jsnum) :
  strict_eq_num v x = true -> v = JNum (as_number v) /\ (as_number v === x)%js = true.
Proof. by destruct v. Qed.

Lemma on_num_spec (p : jsnum -> bool) (v : jsval) :
  on_num p v = true -> v = JNum (as_number v) /\ p (as_number v) = true.
Proof. by destruct v. Qed.

Lemma finite_spec (v : jsval) :
  finite v = true -> v = JNum (as_number v) /\ isFinite (as_number v) = true.
Proof. by destruct v. Qed.

(** A set of numbers as large as the list has all of them. *)
Lemma dedup_full (xs : list jsnum) :
  Forall Finite xs -> length (dedup xs) = length xs -> List.NoDup (List.map ord xs).
Proof.
  intros Hf Hl. destruct (dedup_spec xs Hf) as (_ & Hn & Hi).
  apply (NoDup_incl_NoDup Hn); [by rewrite !length_map, Hl|].
  intros z Hz. by apply Hi.
Qed.

Lemma parseUnit_wf (value : record) (v : jsval) (u : ProgressiveExecutionUnit) :
  parseUnit value v = Ok u -> stage_ok (get "stage" value) = true ->
  wf_unit (as_number (get "stage" value)) u.
Proof.
  unfold parseUnit. destruct v as [| | | | | |o]; try done.
  destruct (valid_unit value o) eqn:E; [|done]. intros [= <-] Hs.
  unfold valid_unit in E. rewrite !andb_true_iff in E.
  destruct E as [[[[[_ H1] H2] H3] H4] H5].
  apply identifier_spec in H1 as [_ H1], H2 as [_ H2]. apply finite_spec in H3 as [_ H3].
  apply on_num_spec in H4 as [_ [H4 H4']%andb_true_iff], H5 as [_ H5%negb_true_iff].
  assert (E2 : strict_eq_num (get "stage" value) 2 = (as_number (get "stage" value) === 2)%js).
  { unfold stage_ok in Hs. by destruct (get "stage" value). }
  rewrite E2 in H5. by constructor.
Qed.

Lemma units_wf (value : record) (vs : list jsval) (us : list ProgressiveExecutionUnit) :
  result_map (parseUnit value) vs = Ok us -> stage_ok (get "stage" value) = true ->
  Forall (wf_unit (as_number (get "stage" value))) us /\ length us = length vs.
Proof.
  rewrite result_map_ok. intros H Hs. split; [|symmetry; by apply Forall2_length in H].
  induction H as [|v u vs us Hu _ IH]; constructor; [by eapply parseUnit_wf|done].
Qed.

Lemma alphas_finite (s : jsnum) (us : list ProgressiveExecutionUnit) :
  Forall (wf_unit s) us -> Forall Finite (List.map alpha us).
Proof. induction 1 as [|u us [_ _ ? _] _ IH]; cbn; by constructor. Qed.

Lemma unique_units_spec (s : jsnum) (us : list ProgressiveExecutionUnit) (ts : list jsval) :
  unique_units us ts = true -> Forall (wf_unit s) us -> length ts = length us ->
  List.NoDup (List.map unitId us) /\ List.NoDup (List.map token us) /\
  List.NoDup (List.map ord (List.map alpha us)) /\
  Permutation (List.map as_string ts) (List.map token us) /\
  ts = List.map (fun t => JStr (as_string t)) ts.
Proof.
  unfold unique_units. rewrite !andb_true_iff, !Nat.eqb_eq. intros H Hw Hlen.
  destruct H as [[[[H1 H2] H3] H4] H5].
  rewrite <- (length_map unitId us) in H1. apply dedup_strings_full in H1.
  rewrite <- (length_map token us) in H2. apply dedup_strings_full in H2.
  rewrite <- (length_map alpha us) in H3. apply dedup_full in H3; [|by eapply alphas_finite].
  rewrite <- Hlen in H4. rewrite <- (length_map as_string ts) in H4.
  apply dedup_strings_full in H4. rewrite forallb_forall in H5.
  assert (Ht : forall t, In t ts -> t = JStr (as_string t) /\
    In (as_string t) (List.map token us)).
  { intros t Hin. apply H5, andb_true_iff in Hin as [[Hi _]%identifier_spec Hm%mem_spec].
    split; [done|]. by apply in_dedup_strings. }
  split; [done|]. split; [done|]. split; [done|]. split.
  - apply NoDup_Permutation_bis; [done|rewrite !length_map; lia|].
    intros x (t & <- & Hin)%in_map_iff. by apply Ht.
  - clear -Ht. induction ts as [|t ts IH]; cbn; [done|]. f_equal; [apply Ht; by left|].
    apply IH. intros t' Hin. apply Ht. by right.
Qed.

(** ** The request and its scope *)

(** The request asks for exactly the cases, budgets and continuation of the scope. *)
Record bound_to (request : record) (s : ProgressiveExecutionScope) : Prop := {
  bound_execution : get "execution_id" request = JStr (executionId s);
  bound_version : strict_eq_num (get "expected_solver_budget_version" request) 2 = true;
  bound_capability : request_capability request = true;
  bound_marched : strict_eq_num (prop "case_concurrency" (get "resources" request)) 1 = true /\
    prop "warm_start" (get "solver" request) = JBool true;
  bound_case : strict_eq_num (js_length (get "chord_lengths" request)) 1 = true /\
    strict_eq_num (js_length (get "speeds" request)) 1 = true /\
    positive_finite (item0 (get "chord_lengths" request)) = true /\
    positive_finite (item0 (get "speeds" request)) = true;
  bound_angles : exists aoa l, get "aoa" request = JObj aoa /\
    get "angles" aoa = JArr (List.map JNum l) /\
    Permutation (List.map ord l) (List.map ord (List.map alpha (units s)));
  bound_budget : exists allocations,
    resolveSolverCaseAllocations (get "resources" request) (List.map (unitCase request) (units s))
      (get "expected_solver_budget_version" request) = Ok allocations /\
    Forall (fun u => exists key x, solverBudgetCaseKey (unitCase request u) = Ok key /\
      map_get key allocations = Some x /\ (x === activeBudgetSeconds u)%js = true) (units s);
  bound_tail : nullish (get "corrective_tail_periods" request) = true;
  bound_fresh : continuation s = None ->
    nullish (get "continue_from" request) = true /\
    nullish (get "budget_override_s" request) = true;
  bound_continuation : forall c, continuation s = Some c ->
    prop "engine_job_id" (get "continue_from" request) = JStr (engineJobId c) /\
    prop "case_slug" (get "continue_from" request) = JStr (engineCaseSlug c) /\
    strict_eq_num (get "budget_override_s" request) (extensionSeconds c) = true /\
    prop "force_transient" (get "solver" request) = JBool true /\
    prop "urans_fidelity" (get "solver" request) =
      JStr (if (stage s === 2)%js then "precalc" else "full") /\
    safe_at_least (get "expected_urans_recovery_version" request) 2 = true;
}.

Lemma includes_sets (xs : list jsnum) (x : jsnum) :
  Forall Finite xs -> JsArray.includes (dedup xs) x = true -> In (ord x) (List.map ord xs).
Proof.
  intros Hf. destruct (dedup_spec xs Hf) as (Hd & _ & Hi). unfold JsArray.includes.
  rewrite existsb_exists. intros (y & Hy & E). apply Hi. rewrite in_map_iff. exists y.
  split; [|done]. rewrite List.Forall_forall in Hd. specialize (Hd y Hy).
  unfold same_value_zero in E. apply orb_true_iff in E as [E|E].
  - apply eqb_ord in E. symmetry. tauto.
  - apply andb_true_iff in E as [_ E]. rewrite (isFinite_not_nan y Hd) in E. done.
Qed.

Lemma includes_finite_member (xs : list jsnum) (x : jsnum) :
  Forall Finite xs -> JsArray.includes (dedup xs) x = true -> isFinite x = true.
Proof.
  intros Hf. destruct (dedup_spec xs Hf) as (Hd & _ & _). unfold JsArray.includes.
  rewrite existsb_exists. intros (y & Hy & E). rewrite List.Forall_forall in Hd.
  specialize (Hd y Hy). unfold same_value_zero in E. apply orb_true_iff in E as [E|E].
  - apply eqb_ord in E as (Hn & _ & Ho). apply isFinite_ord. apply isFinite_ord in Hd.
    split; [done|]. rewrite Ho. tauto.
  - apply andb_true_iff in E as [_ E]. by rewrite (isFinite_not_nan y Hd) in E.
Qed.

Lemma request_scope_angles (request : record) (s : jsnum) (us : list ProgressiveExecutionUnit) :
  request_scope request us = true -> Forall (wf_unit s) us ->
  exists aoa l, get "aoa" request = JObj aoa /\ get "angles" aoa = JArr (List.map JNum l) /\
    Permutation (List.map ord l) (List.map ord (List.map alpha us)).
Proof.
  unfold request_scope. rewrite !andb_true_iff. intros [_ H] Hw.
  destruct (get "aoa" request) as [| | | | | |aoa]; try done. apply andb_true_iff in H as [_ H].
  destruct (get "angles" aoa) as [| | | | |l|] eqn:El; try done.
  rewrite !andb_true_iff, !Nat.eqb_eq, forallb_forall in H. destruct H as [[H1 H2] H3].
  pose proof (alphas_finite s us Hw) as Hf.
  assert (Hl : forall v, In v l -> v = JNum (as_number v) /\ isFinite (as_number v) = true /\
    In (ord (as_number v)) (List.map ord (List.map alpha us))).
  { intros v Hv. apply H3, on_num_spec in Hv as [E Hi]. split; [done|].
    split; [by eapply includes_finite_member|by apply includes_sets]. }
  exists aoa, (List.map as_number l). split; [done|]. split.
  - rewrite El. f_equal. clear -Hl. induction l as [|v l IH]; cbn; [done|].
    f_equal; [apply Hl; by left|]. apply IH. intros w Hw. apply Hl. by right.
  - assert (Hn : List.NoDup (List.map ord (List.map as_number l))).
    { apply dedup_full; [|by rewrite length_map, H1].
      rewrite List.Forall_forall. intros x (v & <- & Hv)%in_map_iff. by apply Hl. }
    apply NoDup_Permutation_bis; [done|rewrite !length_map; lia|].
    intros z (x & <- & (v & <- & Hv)%in_map_iff)%in_map_iff. by apply Hl.
Qed.

Lemma checkAllocations_ok (request : record) (allocations : allocation_map)
    (us : list ProgressiveExecutionUnit) (x : unit) :
  checkAllocations request allocations us = Ok x ->
  Forall (fun u => exists key x, solverBudgetCaseKey (unitCase request u) = Ok key /\
    map_get key allocations = Some x /\ (x === activeBudgetSeconds u)%js = true) us.
Proof.
  induction us as [|u us IH]; cbn [checkAllocations]; [by constructor|].
  rewrite bind_ok. intros (key & Hk & H). apply bind_throw_if in H as [Hg H].
  constructor; [|auto]. apply negb_false_iff in Hg.
  destruct (map_get key allocations) as [y|] eqn:E; [|done]. by exists key, y.
Qed.

Lemma checkContinuation_ok (request value : record) (c : option ProgressiveExecutionContinuation) :
  checkContinuation request value = Ok c ->
  match c with
  | None => nullish (get "continue_from" request) = true /\
      nullish (get "budget_override_s" request) = true /\
      nullish (get "corrective_tail_periods" request) = true
  | Some c => exists o, get "continuation" value = JObj o /\
      continuation_bound request value o = true /\ c = continuationOf o
  end.
Proof.
  unfold checkContinuation. destruct (has "continuation" value).
  - destruct (get "continuation" value) as [| | | | | |o]; try done.
    destruct (continuation_bound request value o) eqn:E; [|done]. intros [= <-]. by exists o.
  - intros [H [= <-]]%bind_throw_if. rewrite !orb_false_iff, !negb_false_iff in H. tauto.
Qed.

Lemma nonblank_spec (v : jsval) : nonblank v = true -> nonempty (trim (as_string v)) = true.
Proof. by destruct v. Qed.

Lemma continuation_bound_spec (request value o : record) :
  continuation_bound request value o = true ->
  let c := continuationOf o in
  (UUID (extensionId c) = true /\ UUID (sourceResultAttemptId c) = true /\
   UUID (engineJobId c) = true /\ nonempty (trim (engineCaseSlug c)) = true /\
   (String.length (engineCaseSlug c) <= 512)%nat /\
   isFinite (extensionSeconds c) = true /\ PrimFloat.ltb 0 (extensionSeconds c) = true /\
   PrimFloat.ltb 43200 (extensionSeconds c) = false) /\
  nullish (get "corrective_tail_periods" request) = true /\
  prop "engine_job_id" (get "continue_from" request) = JStr (engineJobId c) /\
  prop "case_slug" (get "continue_from" request) = JStr (engineCaseSlug c) /\
  strict_eq_num (get "budget_override_s" request) (extensionSeconds c) = true /\
  prop "force_transient" (get "solver" request) = JBool true /\
  prop "urans_fidelity" (get "solver" request) =
    JStr (if strict_eq_num (get "stage" value) 2 then "precalc" else "full") /\
  safe_at_least (get "expected_urans_recovery_version" request) 2 = true.
Proof.
  unfold continuation_bound. rewrite !andb_true_iff. intros H. cbn zeta.
  repeat match type of H with _ /\ _ => let H' := fresh in destruct H as [H H'] end.
  repeat match goal with
  | H : is_str _ _ = true |- _ => apply is_str_spec in H
  | H : is_true _ = true |- _ => apply is_true_spec in H
  | H : identifier _ _ = true |- _ => apply identifier_spec in H as [_ H]
  | H : nonblank _ = true |- _ => apply nonblank_spec in H
  | H : Nat.leb _ _ = true |- _ => apply Nat.leb_le in H
  | H : positive_finite _ = true |- _ =>
      apply on_num_spec in H as [_ H]; apply andb_true_iff in H as [? ?]
  | H : on_num _ _ = true |- _ => apply on_num_spec in H as [_ H]; apply negb_true_iff in H
  end.
  cbn [continuationOf engineJobId engineCaseSlug extensionSeconds extensionId sourceResultAttemptId].
  split_and!; assumption.
Qed.

Lemma boundedUnits_ok (value : record) (continued : bool) (us ts : list jsval) :
  boundedUnits value continued = Ok (us, ts) ->
  get "units" value = JArr us /\ get "tokens" value = JArr ts /\
  (1 <= length us <= 512)%nat /\ length ts = length us /\
  (continued = true -> length us = 1%nat).
Proof.
  unfold boundedUnits. destruct (get "units" value) as [| | | | |l|]; try done.
  destruct (get "tokens" value) as [| | | | |l'|]; try done.
  intros [H [= -> ->]]%bind_throw_if. apply orb_false_iff in H as [H H4%negb_false_iff%Nat.eqb_eq].
  apply orb_false_iff in H as [H H3]. apply orb_false_iff in H as [H1%Nat.ltb_ge H2%Nat.ltb_ge].
  split_and!; try done. intros ->. by apply negb_false_iff, Nat.eqb_eq in H3.
Qed.

Lemma owner_scope_spec (value : record) :
  owner_scope value = true ->
  UUID (as_string (get "executionId" value)) = true /\
  UUID (as_string (get "epochId" value)) = true /\
  UUID (as_string (get "generationId" value)) = true /\
  HASH (as_string (get "targetId" value)) = true /\
  HASH (as_string (get "recipeId" value)) = true /\ stage_ok (get "stage" value) = true.
Proof.
  unfold owner_scope. rewrite !andb_true_iff. intros H.
  repeat match type of H with _ /\ _ => let H' := fresh in destruct H as [H H'] end.
  repeat match goal with H : identifier _ _ = true |- _ => apply identifier_spec in H as [_ H] end.
  split_and!; assumption.
Qed.

Lemma scope_sound (request : record) (value : jsval) (s : ProgressiveExecutionScope) :
  validateProgressiveExecutionScope request value = Ok s -> wf_scope s /\ bound_to request s.
Proof.
  unfold validateProgressiveExecutionScope. destruct value as [| | | | | |value]; try done.
  intros [Ho%negb_false_iff H]%bind_throw_if. apply bind_throw_if in H as [Hid H].
  apply bind_throw_if in H as [Hcap%negb_false_iff H]. apply bind_ok in H as (c & Hc & H).
  apply bind_throw_if in H as [Hm H]. apply bind_ok in H as ([vs ts] & Hb & H).
  cbn [fst snd] in H. apply bind_ok in H as (us & Hus & H).
  apply bind_throw_if in H as [Hu%negb_false_iff H].
  apply bind_throw_if in H as [Hr%negb_false_iff H]. apply bind_ok in H as (m & Hres & H).
  apply bind_ok in H as (x & Hall & [= <-]).
  apply owner_scope_spec in Ho as (O1 & O2 & O3 & O4 & O5 & O6).
  apply boundedUnits_ok in Hb as (_ & _ & Hn & Hlen & Hone).
  destruct (units_wf value vs us Hus O6) as [Hw Hl]. rewrite <- Hl in Hn, Hlen, Hone.
  destruct (unique_units_spec _ us ts Hu Hw Hlen) as (U1 & U2 & U3 & U4 & _).
  apply checkContinuation_ok in Hc.
  apply orb_false_iff in Hid as [Hid%negb_false_iff%is_str_spec Hver%negb_false_iff].
  apply orb_false_iff in Hm as [Hm%negb_false_iff Hws%negb_false_iff%is_true_spec].
  split; constructor; cbn [executionId epochId generationId targetId recipeId stage units tokens
    continuation]; try done.
  - unfold stage_ok in O6. apply orb_true_iff in O6.
    destruct O6 as [[_ H]%strict_eq_num_spec|[_ H]%strict_eq_num_spec]; auto.
  - destruct c; [auto|done].
  - intros c' ->. destruct Hc as (o & _ & Hb & ->). exact (proj1 (continuation_bound_spec _ _ _ Hb)).
  - unfold request_scope in Hr. rewrite !andb_true_iff in Hr. tauto.
  - by eapply request_scope_angles.
  - exists m. split; [done|]. by eapply checkAllocations_ok.
  - destruct c as [c|]; [|tauto]. destruct Hc as (o & _ & Hb & _).
    exact (proj1 (proj2 (continuation_bound_spec _ _ _ Hb))).
  - intros ->. tauto.
  - intros c' ->. destruct Hc as (o & _ & Hb & ->). apply continuation_bound_spec in Hb.
    assert (E2 : strict_eq_num (get "stage" value) 2 = (as_number (get "stage" value) === 2)%js).
    { unfold stage_ok in O6. by destruct (get "stage" value). }
    rewrite E2 in Hb. tauto.
Qed.

(** C39. Every accepted progressive scope is well-formed and bound to its request:
    identities match their patterns, there are one to 512 units with distinct
    ids, tokens and angles, the token list is a permutation of the unit tokens
    and a continuation has a single unit; and the request carries the same
    execution id, budget version 2, an explicit engine, pool and mesh capability,
    one positive chord and speed, exactly the angles of the units, for every unit
    an allocation equal to its budget (positive, at most 900 s in stage 2 and
    43200 s in stage 3), no corrective tail, and either neither a continued case
    nor a budget override, or both: the very case of the continuation, its
    extension seconds (at most 43200) as override, and a forced transient of the
    stage's fidelity on an engine of recovery version 2 at least. *)
Theorem validateProgressiveExecutionScope_sound (request : record) (value : jsval)
    (s : ProgressiveExecutionScope) :
  validateProgressiveExecutionScope request value = Ok s -> wf_scope s /\ bound_to request s.
Proof. apply scope_sound. Qed.

(** ** Samples *)

Definition sample_uuid (c : ascii) : string :=
  repeat_char 8 c +:+ "-" +:+ repeat_char 4 c +:+ "-" +:+ repeat_char 4 c +:+ "-" +:+
  repeat_char 4 c +:+ "-" +:+ repeat_char 12 c.
Definition sample_hash : string := repeat_char 64 "a".

Definition sample_unit (c d : ascii) (a seconds : jsnum) : jsval :=
  JObj [("unitId", JStr (sample_uuid c)); ("alpha", JNum a); ("token", JStr (sample_uuid d));
        ("activeBudgetSeconds", JNum seconds)].

Definition sample_scope : jsval :=
  JObj [("executionContract", JStr "progressive-cfd-v1"); ("executionId", JStr (sample_uuid "0"));
        ("epochId", JStr (sample_uuid "1")); ("generationId", JStr (sample_uuid "2"));
        ("targetId", JStr sample_hash); ("stage", JNum 2); ("recipeId", JStr sample_hash);
        ("tokens", JArr [JStr (sample_uuid "6"); JStr (sample_uuid "5")]);
        ("units", JArr [sample_unit "3" "5" 0 900; sample_unit "4" "6" 2 60])].

Definition sample_request : record :=
  [("execution_id", JStr (sample_uuid "0")); ("expected_solver_budget_version", JNum 2);
   ("expected_engine", JObj [("family", JStr "openfoam"); ("distribution", JStr "opencfd");
      ("version", JStr "2606"); ("numerics_revision", JStr "1");
      ("adapter_contract_version", JNum 1)]);
   ("expected_execution_pool", JStr "pool"); ("expected_mesh_recovery_version", JNum 0);
   ("resources", JObj [("case_concurrency", JNum 1);
      ("case_solver_allocations", JArr [sample_allocation 2 60; sample_allocation 0 900])]);
   ("solver", JObj [("warm_start", JBool true)]);
   ("chord_lengths", JArr [JNum 1]); ("speeds", JArr [JNum 30]);
   ("aoa", JObj [("angles", JArr [JNum 2; JNum 0])])].

Definition sample_parsed : ProgressiveExecutionScope := {|
  executionId := sample_uuid "0"; epochId := sample_uuid "1"; generationId := sample_uuid "2";
  targetId := sample_hash; stage := 2; recipeId := sample_hash;
  tokens := [sample_uuid "6"; sample_uuid "5"];
  units := [Build_ProgressiveExecutionUnit (sample_uuid "3") 0 (sample_uuid "5") 900;
            Build_ProgressiveExecutionUnit (sample_uuid "4") 2 (sample_uuid "6") 60];
  continuation := None |}.

Example sample_scopes :
  validateProgressiveExecutionScope sample_request sample_scope = Ok sample_parsed /\
  throws (validateProgressiveExecutionScope (("continue_from", JObj []) :: sample_request)
    sample_scope) = true /\
  throws (validateProgressiveExecutionScope (("speeds", JArr [JNum 31]) :: sample_request)
    sample_scope) = true.
Proof. vm_compute. repeat split. Qed.

Lemma validateProgressiveExecutionScope_sound_witness :
  wf_scope sample_parsed /\ bound_to sample_request sample_parsed.
Proof.
  exact (validateProgressiveExecutionScope_sound sample_request sample_scope sample_parsed
    (proj1 sample_scopes)).
Defined.
