(* ===== verification/RemoteExecution.v ===== *)
(** * Sealed remote executions

    [packages/db/src/progressive-remote-execution.ts]: an assignment to a remote
    solver is sealed with the content signature of its canonical payload, and
    verified against the stored assignment by sealing it again.  The collation
    and SHA-256 are parameters, as in [CanonicalJson]. *)

From Stdlib Require Import ZArith Lia Bool Ascii String.
From Stdlib Require Import Floats.
From stdpp Require Import base list strings option numbers.
From S2P Require Import Prelude JsNumber JsString JsValue JsArray JsMap.
From S2P Require Import CanonicalJson EngineIdentity SolverBudget ProgressiveExecution.

Local Open Scope string_scope.
Local Open Scope list_scope.
Local Open Scope result_scope.

(** [version] is the constant 1. *)
Record ProgressiveRemoteExecutionEnvelope := {
  solverId : string;
  promiseId : string;
  scope : ProgressiveExecutionScope;
  request : jsval;
  contentSignature : string;
}.

(** ** The JSON forms *)

Definition unit_json (u : ProgressiveExecutionUnit) : jsval :=
  JObj [("unitId", JStr (unitId u)); ("alpha", JNum (alpha u)); ("token", JStr (token u));
        ("activeBudgetSeconds", JNum (activeBudgetSeconds u))].

Definition continuation_json (c : ProgressiveExecutionContinuation) : record :=
  [("extensionId", JStr (extensionId c)); ("sourceResultAttemptId", JStr (sourceResultAttemptId c));
   ("engineJobId", JStr (engineJobId c)); ("engineCaseSlug", JStr (engineCaseSlug c));
   ("extensionSeconds", JNum (extensionSeconds c))].

Definition scope_fields (s : ProgressiveExecutionScope) : record :=
  [("executionContract", JStr "progressive-cfd-v1"); ("executionId", JStr (executionId s));
   ("epochId", JStr (epochId s)); ("generationId", JStr (generationId s));
   ("targetId", JStr (targetId s)); ("stage", JNum (stage s)); ("recipeId", JStr (recipeId s));
   ("tokens", JArr (List.map JStr (tokens s))); ("units", JArr (List.map unit_json (units s)))] ++
  match continuation s with
  | Some c => [("continuation", JObj (continuation_json c))]
  | None => []
  end.

Definition payload_fields (solver promise : string) (s : ProgressiveExecutionScope)
    (request : jsval) : record :=
  [("version", JNum 1); ("solverId", JStr solver); ("promiseId", JStr promise);
   ("scope", JObj (scope_fields s)); ("request", request)].

Definition envelope_json (e : ProgressiveRemoteExecutionEnvelope) : jsval :=
  JObj (payload_fields (solverId e) (promiseId e) (scope e) (request e) ++
        [("contentSignature", JStr (contentSignature e))]).

Definition ENVELOPE_KEYS : list string :=
  ["version"; "solverId"; "promiseId"; "scope"; "request"; "contentSignature"].

(** What the stored assignment expects. *)
Record Expected := {
  expectedSolverId : string;
  expectedPromiseId : string;
  expectedExecutionId : string;
  expectedSignature : string;
}.

Definition requireUuid (value : jsval) : result unit :=
  throw_if (negb (identifier value UUID))
    "Remote execution requires an exact solver and promise identity".

Section Seal.
Context (localeCompare : string -> string -> jsnum) (sha256 : string -> string).

Definition sealProgressiveRemoteExecution (solver promise scopeValue : jsval) (request : record) :
    result ProgressiveRemoteExecutionEnvelope :=
  let* _ := requireUuid solver in
  let* _ := requireUuid promise in
  let* scope := validateProgressiveExecutionScope request scopeValue in
  let* request := parsed_canonical localeCompare (JObj request) in
  let* signature := analysisContentHash localeCompare sha256
    (JObj (payload_fields (as_string solver) (as_string promise) scope request)) in
  Ok {| solverId := as_string solver; promiseId := as_string promise; scope := scope;
        request := request; contentSignature := signature |}.

Definition verifyProgressiveRemoteExecution (envelope : jsval) (expected : Expected) :
    result ProgressiveRemoteExecutionEnvelope :=
  match envelope with
  | JObj value =>
      let* _ := throw_if
        (negb (hasExactKeys value ENVELOPE_KEYS) || negb (strict_eq_num (get "version" value) 1))
        "Remote execution envelope version or shape differs" in
      let* _ := throw_if
        (negb (is_str (get "solverId" value) (expectedSolverId expected)) ||
         negb (is_str (get "promiseId" value) (expectedPromiseId expected)) ||
         negb (hex_string 64 (expectedSignature expected)) ||
         negb (is_str (get "contentSignature" value) (expectedSignature expected)))
        "Remote execution does not match its stored assignment" in
      match get "request" value with
      | JObj request =>
          let* sealed := sealProgressiveRemoteExecution (get "solverId" value)
            (get "promiseId" value) (get "scope" value) request in
          let* _ := throw_if
            (negb (String.eqb (executionId (scope sealed)) (expectedExecutionId expected)) ||
             negb (String.eqb (contentSignature sealed) (expectedSignature expected)))
            "Remote execution content differs from its immutable assignment" in
          Ok sealed
      | _ => Throw "Remote execution request is missing"
      end
  | _ => Throw "Remote execution envelope is missing"
  end.
End Seal.

(** ** An accepted scope is accepted again *)

Lemma get_continuation_json (c : ProgressiveExecutionContinuation) :
  get "extensionId" (continuation_json c) = JStr (extensionId c) /\
  get "sourceResultAttemptId" (continuation_json c) = JStr (sourceResultAttemptId c) /\
  get "engineJobId" (continuation_json c) = JStr (engineJobId c) /\
  get "engineCaseSlug" (continuation_json c) = JStr (engineCaseSlug c) /\
  get "extensionSeconds" (continuation_json c) = JNum (extensionSeconds c).
Proof. by repeat split. Qed.

Lemma continuation_again (request value value' o : record) :
  get "stage" value' = get "stage" value ->
  continuation_bound request value o = true ->
  continuation_bound request value' (continuation_json (continuationOf o)) = true.
Proof.
  intros Hs. unfold continuation_bound. rewrite Hs. rewrite !andb_true_iff. intros H.
  repeat match type of H with _ /\ _ => let H' := fresh in destruct H as [H H'] end.
  assert (E1 : get "extensionId" o = JStr (as_string (get "extensionId" o)))
    by (by apply (identifier_spec _ UUID)).
  assert (E2 : get "sourceResultAttemptId" o = JStr (as_string (get "sourceResultAttemptId" o)))
    by (by apply (identifier_spec _ UUID)).
  assert (E3 : get "engineJobId" o = JStr (as_string (get "engineJobId" o)))
    by (by apply (identifier_spec _ UUID)).
  assert (E4 : get "engineCaseSlug" o = JStr (as_string (get "engineCaseSlug" o)))
    by (unfold nonblank in *; by destruct (get "engineCaseSlug" o)).
  assert (E5 : get "extensionSeconds" o = JNum (as_number (get "extensionSeconds" o)))
    by (unfold positive_finite in *; by destruct (get "extensionSeconds" o)).
  destruct (get_continuation_json (continuationOf o)) as (-> & -> & -> & -> & ->).
  cbn [continuationOf extensionId sourceResultAttemptId engineJobId engineCaseSlug
    extensionSeconds]. rewrite <- E1, <- E2, <- E3, <- E4, <- E5.
  split_and!; try assumption. reflexivity.
Qed.

Lemma parseUnit_again (value : record) (u : ProgressiveExecutionUnit) :
  stage_ok (get "stage" value) = true -> wf_unit (as_number (get "stage" value)) u ->
  parseUnit value (unit_json u) = Ok u.
Proof.
  intros Hs [H1 H2 H3 (H4 & H5 & H6)]. unfold parseUnit, unit_json.
  assert (E : valid_unit value
    [("unitId", JStr (unitId u)); ("alpha", JNum (alpha u)); ("token", JStr (token u));
     ("activeBudgetSeconds", JNum (activeBudgetSeconds u))] = true).
  { unfold valid_unit. cbn -[UUID].
    assert (E2 : strict_eq_num (get "stage" value) 2 = (as_number (get "stage" value) === 2)%js)
      by (unfold stage_ok in Hs; by destruct (get "stage" value)).
    unfold budget_limit in H6. rewrite H1, H2, H3, H4, H5, E2, H6. done. }
  rewrite E. destruct u. reflexivity.
Qed.

Lemma units_again (value : record) (us : list ProgressiveExecutionUnit) :
  stage_ok (get "stage" value) = true -> Forall (wf_unit (as_number (get "stage" value))) us ->
  result_map (parseUnit value) (List.map unit_json us) = Ok us.
Proof.
  intros Hs. induction 1 as [|u us Hu _ IH]; cbn [List.map result_map]; [done|].
  rewrite (parseUnit_again value u Hs Hu). cbn [bind_result]. by rewrite IH.
Qed.

Lemma get_scope_fields (s : ProgressiveExecutionScope) :
  let v := scope_fields s in
  get "executionContract" v = JStr "progressive-cfd-v1" /\
  get "executionId" v = JStr (executionId s) /\ get "epochId" v = JStr (epochId s) /\
  get "generationId" v = JStr (generationId s) /\ get "targetId" v = JStr (targetId s) /\
  get "stage" v = JNum (stage s) /\ get "recipeId" v = JStr (recipeId s) /\
  get "tokens" v = JArr (List.map JStr (tokens s)) /\
  get "units" v = JArr (List.map unit_json (units s)) /\
  has "continuation" v = match continuation s with Some _ => true | None => false end /\
  (forall c, continuation s = Some c -> get "continuation" v = JObj (continuation_json c)).
Proof. unfold scope_fields. destruct (continuation s); repeat split; by intros c' [= <-]. Qed.

Lemma owner_scope_again (s : ProgressiveExecutionScope) :
  wf_scope s -> owner_scope (scope_fields s) = true.
Proof.
  intros [(H1 & H2 & H3 & H4 & H5) Hs _ _ _ _ _]. unfold owner_scope.
  destruct (get_scope_fields s) as (-> & -> & -> & -> & -> & -> & -> & _ & _ & -> & _).
  cbn [identifier]. rewrite H1, H2, H3, H4, H5.
  assert (Ho : stage_ok (JNum (stage s)) = true).
  { unfold stage_ok. cbn. apply orb_true_iff. exact Hs. }
  rewrite Ho, !andb_true_r. unfold scope_fields. by destruct (continuation s).
Qed.

(** The JSON form of an accepted scope is accepted with the same request, as the
    same scope. *)
Lemma scope_again (request : record) (value : jsval) (s : ProgressiveExecutionScope) :
  validateProgressiveExecutionScope request value = Ok s ->
  validateProgressiveExecutionScope request (JObj (scope_fields s)) = Ok s.
Proof.
  intros H. destruct (scope_sound request value s H) as [Hwf _]. revert H.
  unfold validateProgressiveExecutionScope. rewrite (owner_scope_again s Hwf).
  destruct (get_scope_fields s) as (_ & G1 & G2 & G3 & G4 & G5 & G6 & G7 & G8 & G9 & G10).
  destruct value as [| | | | | |value]; try done. cbn [negb throw_if bind_result].
  intros [Ho%negb_false_iff H]%bind_throw_if. apply bind_throw_if in H as [Hid H].
  apply bind_throw_if in H as [Hcap H]. apply bind_ok in H as (c & Hc & H).
  apply bind_throw_if in H as [Hm H]. apply bind_ok in H as ([vs ts] & Hb & H).
  cbn [fst snd] in H. apply bind_ok in H as (us & Hus & H).
  apply bind_throw_if in H as [Hu H]. apply bind_throw_if in H as [Hr H].
  apply bind_ok in H as (m & Hres & H). apply bind_ok in H as (x & Hall & E).
  pose proof (owner_scope_spec value Ho) as (_ & _ & _ & _ & _ & O6).
  destruct (boundedUnits_ok _ _ _ _ Hb) as (_ & _ & Hn & Hlen & Hone).
  destruct (units_wf value vs us Hus O6) as [Hw Hl]. rewrite <- Hl in Hn, Hlen, Hone.
  destruct (unique_units_spec _ us ts (proj1 (negb_false_iff _) Hu) Hw Hlen) as (_ & _ & _ & _ & Hts).
  assert (Hst : get "stage" (scope_fields s) = get "stage" value).
  { rewrite G5. injection E as <-. cbn. unfold stage_ok in O6. by destruct (get "stage" value). }
  injection E as Es. rewrite G1, <- Es. cbn [executionId as_string]. rewrite Hid.
  cbn [throw_if bind_result]. rewrite Hcap. cbn [throw_if bind_result].
  rewrite Es.
  assert (Hc' : checkContinuation request (scope_fields s) = Ok c).
  { unfold checkContinuation. rewrite G9. rewrite <- Es. cbn [continuation].
    apply checkContinuation_ok in Hc. destruct c as [c|].
    - rewrite Es, (G10 c) by (by rewrite <- Es). destruct Hc as (o & _ & Hb' & ->).
      by rewrite (continuation_again request value (scope_fields s) o Hst Hb').
    - destruct Hc as (-> & -> & ->). done. }
  rewrite Hc'. cbn [bind_result]. rewrite Hm. cbn [throw_if bind_result].
  assert (Hb' : boundedUnits (scope_fields s) match c with Some _ => true | None => false end
    = Ok (List.map unit_json us, ts)).
  { unfold boundedUnits. rewrite G7, G8, <- Es. cbn [tokens units].
    rewrite length_map, !length_map, Hlen. destruct Hn as [Hn1 Hn2].
    rewrite (proj2 (Nat.ltb_ge _ _)), (proj2 (Nat.ltb_ge _ _)), Nat.eqb_refl by done.
    destruct c; [rewrite Hone by done|]; cbn; do 2 f_equal;
      (rewrite List.map_map; symmetry; exact Hts). }
  rewrite Hb'. cbn [bind_result fst snd].
  rewrite (units_again (scope_fields s) us) by (by rewrite Hst). cbn [bind_result].
  rewrite Hu. cbn [throw_if bind_result]. rewrite Hr. cbn [throw_if bind_result].
  rewrite Hres. cbn [bind_result]. rewrite Hall. cbn [bind_result].
  rewrite G2, G3, G4, G5, G6, <- Es. reflexivity.
Qed.

(** ** Sealing and verifying *)

Section Theory.
Context (localeCompare : string -> string -> jsnum) (sha256 : string -> string).
(** [digest("hex")] of SHA-256 is 64 lower-case hexadecimal digits. *)
Hypothesis Hhex : forall s, hex_string 64 (sha256 s) = true.

Abbreviation seal := (sealProgressiveRemoteExecution localeCompare sha256).
Abbreviation verify := (verifyProgressiveRemoteExecution localeCompare sha256).

(** What a sealed envelope is. *)
Lemma seal_spec (solver promise scopeValue : jsval) (r : record)
    (e : ProgressiveRemoteExecutionEnvelope) :
  seal solver promise scopeValue r = Ok e ->
  solver = JStr (solverId e) /\ UUID (solverId e) = true /\
  promise = JStr (promiseId e) /\ UUID (promiseId e) = true /\
  validateProgressiveExecutionScope r scopeValue = Ok (scope e) /\
  parsed_canonical localeCompare (JObj r) = Ok (request e) /\
  analysisContentHash localeCompare sha256
    (JObj (payload_fields (solverId e) (promiseId e) (scope e) (request e)))
  = Ok (contentSignature e).
Proof.
  unfold sealProgressiveRemoteExecution, requireUuid.
  intros [[-> Hs]%negb_false_iff%identifier_spec H]%bind_throw_if.
  apply bind_throw_if in H as [[-> Hp]%negb_false_iff%identifier_spec H].
  apply bind_ok in H as (s & Hsc & H). apply bind_ok in H as (q & Hq & H).
  apply bind_ok in H as (h & Hh & [= <-]). cbn. by split_and!.
Qed.

Lemma signature_hex (e : ProgressiveRemoteExecutionEnvelope) (v : jsval) :
  analysisContentHash localeCompare sha256 v = Ok (contentSignature e) ->
  hex_string 64 (contentSignature e) = true.
Proof. unfold analysisContentHash. rewrite bind_ok. intros (t & _ & [= <-]). apply Hhex. Qed.

Definition expected_of (e : ProgressiveRemoteExecutionEnvelope) : Expected := {|
  expectedSolverId := solverId e; expectedPromiseId := promiseId e;
  expectedExecutionId := executionId (scope e); expectedSignature := contentSignature e |}.

Lemma get_envelope (e : ProgressiveRemoteExecutionEnvelope) (v : record) :
  v = payload_fields (solverId e) (promiseId e) (scope e) (request e) ++
      [("contentSignature", JStr (contentSignature e))] ->
  hasExactKeys v ENVELOPE_KEYS = true /\
  get "version" v = JNum 1 /\ get "solverId" v = JStr (solverId e) /\
  get "promiseId" v = JStr (promiseId e) /\ get "scope" v = JObj (scope_fields (scope e)) /\
  get "request" v = request e /\ get "contentSignature" v = JStr (contentSignature e).
Proof. intros ->. repeat split. Qed.

Lemma seal_verify (solver promise scopeValue : jsval) (r : record)
    (e : ProgressiveRemoteExecutionEnvelope) :
  canonical_copy localeCompare (JObj r) = JObj r ->
  seal solver promise scopeValue r = Ok e -> verify (envelope_json e) (expected_of e) = Ok e.
Proof.
  intros Hr He. destruct (seal_spec _ _ _ _ _ He) as (_ & Us & _ & Up & Hv & Hq & Hh).
  assert (Hreq : request e = JObj r).
  { apply bind_ok in Hq as (t & _ & [= <-]). exact Hr. }
  unfold envelope_json, verifyProgressiveRemoteExecution.
  destruct (get_envelope e _ eq_refl) as (-> & -> & -> & -> & -> & -> & ->).
  cbn [strict_eq_num expected_of expectedSolverId expectedPromiseId expectedExecutionId
    expectedSignature is_str].
  rewrite !String.eqb_refl, (signature_hex e _ Hh). cbn [negb orb throw_if bind_result].
  assert (E : seal (JStr (solverId e)) (JStr (promiseId e)) (JObj (scope_fields (scope e))) r = Ok e).
  { unfold sealProgressiveRemoteExecution, requireUuid. cbn [identifier]. rewrite Us, Up.
    cbn [negb throw_if bind_result]. rewrite (scope_again r scopeValue (scope e) Hv).
    cbn [bind_result]. rewrite Hq. cbn [bind_result as_string]. rewrite Hh. by destruct e. }
  rewrite Hreq, E. cbn [bind_result]. by rewrite !String.eqb_refl.
Qed.

Lemma verify_sound (envelope : jsval) (expected : Expected)
    (e : ProgressiveRemoteExecutionEnvelope) :
  verify envelope expected = Ok e ->
  expected = expected_of e /\
  (exists r, prop "request" envelope = JObj r /\ bound_to r (scope e) /\
     parsed_canonical localeCompare (JObj r) = Ok (request e)) /\
  wf_scope (scope e) /\
  prop "solverId" envelope = JStr (solverId e) /\ prop "promiseId" envelope = JStr (promiseId e) /\
  analysisContentHash localeCompare sha256
    (JObj (payload_fields (solverId e) (promiseId e) (scope e) (request e)))
  = Ok (contentSignature e).
Proof.
  unfold verifyProgressiveRemoteExecution. destruct envelope as [| | | | | |value]; try done.
  intros [_ H]%bind_throw_if. apply bind_throw_if in H as [Hx H]. cbn [prop].
  apply orb_false_iff in Hx as [Hx _]. apply orb_false_iff in Hx as [Hx _].
  apply orb_false_iff in Hx as [H1%negb_false_iff%is_str_spec H2%negb_false_iff%is_str_spec].
  destruct (get "request" value) as [| | | | | |r] eqn:Er; try done.
  apply bind_ok in H as (e' & He & H). apply bind_throw_if in H as [Hy [= <-]].
  apply orb_false_iff in Hy as [Y1%negb_false_iff%String.eqb_eq Y2%negb_false_iff%String.eqb_eq].
  destruct (seal_spec _ _ _ _ _ He) as (E1 & _ & E2 & _ & Hv & Hq & Hh).
  destruct (scope_sound _ _ _ Hv) as [Hwf Hb].
  split_and!; try done; [|by exists r].
  rewrite E1 in H1. rewrite E2 in H2. injection H1 as H1. injection H2 as H2.
  destruct expected. cbn in *. unfold expected_of. by rewrite Y1, Y2, H1, H2.
Qed.
End Theory.

(** C37. A sealed assignment verifies: the JSON form of an envelope sealed from a
    request that is in canonical form passes the verification against its own solver, promise, execution and content
    signature, and verifies to the same envelope; in particular an accepted scope
    is accepted again from its JSON form. *)
Theorem seal_verify_roundtrip (localeCompare : string -> string -> jsnum)
    (sha256 : string -> string) (solver promise scopeValue : jsval) (r : record)
    (e : ProgressiveRemoteExecutionEnvelope) :
  (forall s, hex_string 64 (sha256 s) = true) ->
  canonical_copy localeCompare (JObj r) = JObj r ->
  sealProgressiveRemoteExecution localeCompare sha256 solver promise scopeValue r = Ok e ->
  verifyProgressiveRemoteExecution localeCompare sha256 (envelope_json e) (expected_of e) = Ok e.
Proof. intros Hh Hr He. by eapply seal_verify. Qed.

(** A verified assignment is the stored one: verification returns an envelope
    only when its solver, promise, execution id and content signature are those
    of the stored assignment, its signature is the hash of its own canonical
    payload, and its scope is well-formed and bound to the request it came with,
    of which it keeps the canonical copy. *)
Theorem verifyProgressiveRemoteExecution_sound (localeCompare : string -> string -> jsnum)
    (sha256 : string -> string) (envelope : jsval) (expected : Expected)
    (e : ProgressiveRemoteExecutionEnvelope) :
  verifyProgressiveRemoteExecution localeCompare sha256 envelope expected = Ok e ->
  expected = expected_of e /\
  (exists r, prop "request" envelope = JObj r /\ bound_to r (scope e) /\
     parsed_canonical localeCompare (JObj r) = Ok (request e)) /\
  wf_scope (scope e) /\
  prop "solverId" envelope = JStr (solverId e) /\ prop "promiseId" envelope = JStr (promiseId e) /\
  analysisContentHash localeCompare sha256
    (JObj (payload_fields (solverId e) (promiseId e) (scope e) (request e)))
  = Ok (contentSignature e).
Proof. apply verify_sound. Qed.

(** ** Samples *)

(** A stand-in for SHA-256 with its output format. *)
Definition constant_hash (s : string) : string := sample_hash.

Definition canonical_request : record :=
  match canonical_copy code_units (JObj sample_request) with JObj o => o | _ => [] end.

Definition sample_envelope : ProgressiveRemoteExecutionEnvelope := {|
  solverId := sample_uuid "7"; promiseId := sample_uuid "8"; scope := sample_parsed;
  request := JObj canonical_request; contentSignature := sample_hash |}.

Lemma sample_sealed :
  sealProgressiveRemoteExecution code_units constant_hash (JStr (sample_uuid "7"))
    (JStr (sample_uuid "8")) sample_scope canonical_request = Ok sample_envelope /\
  canonical_copy code_units (JObj canonical_request) = JObj canonical_request.
Proof. vm_compute. repeat split. Qed.

Lemma constant_hash_hex (s : string) : hex_string 64 (constant_hash s) = true.
Proof. vm_compute. reflexivity. Qed.

Lemma seal_verify_roundtrip_witness :
  verifyProgressiveRemoteExecution code_units constant_hash (envelope_json sample_envelope)
    (expected_of sample_envelope) = Ok sample_envelope.
Proof.
  exact (seal_verify_roundtrip code_units constant_hash _ _ _ _ sample_envelope constant_hash_hex
    (proj2 sample_sealed) (proj1 sample_sealed)).
Defined.

Lemma sample_verified :
  verifyProgressiveRemoteExecution code_units constant_hash (envelope_json sample_envelope)
    (expected_of sample_envelope) = Ok sample_envelope.
Proof. vm_compute. reflexivity. Qed.

Lemma verifyProgressiveRemoteExecution_sound_witness : wf_scope (scope sample_envelope).
Proof.
  exact (proj1 (proj2 (proj2 (verifyProgressiveRemoteExecution_sound code_units constant_hash _ _
    sample_envelope sample_verified)))).
Defined.
