(* ===== verification/RemoteReport.v ===== *)
(** * Reports of a remote execution

    [packages/db/src/progressive-remote-report.ts], with
    [validateProgressiveExecutionStopProof] of
    [packages/db/src/progressive-cfd-settlement.ts]: a report is checked against
    the assignment it belongs to, normalised, and accepted only in an order that
    never forgets completed work, never resumes a stopped execution and never
    changes final evidence.  Reports are parsed JSON.  The collation, SHA-256 and
    [Date.parse] are parameters. *)

From Stdlib Require Import ZArith Lia Bool Ascii String Sorting.Sorted.
From Stdlib Require Import Floats.
From stdpp Require Import base list strings option numbers.
From S2P Require Import Prelude JsNumber JsString JsValue JsArray JsMap.
From S2P Require Import CanonicalJson EngineIdentity SolverBudget ProgressiveExecution RemoteExecution.

Local Open Scope string_scope.
Local Open Scope list_scope.
Local Open Scope result_scope.

Definition is_false (v : jsval) : bool := match v with JBool b => negb b | _ => false end.
(** [typeof v === "number"] *)
Definition typeof_number (v : jsval) : bool := match v with JNum _ => true | _ => false end.
(** [strings.includes(v)] and [strings.includes(String(v))] *)
Definition one_of (ks : list string) (v : jsval) : bool :=
  match v with JStr s => mem s ks | _ => false end.
Definition text_one_of (ks : list string) (v : jsval) : bool := mem (to_string v) ks.

(** [v as unknown[]], and [(v as unknown[]) ?? []] *)
Definition items (v : jsval) : list jsval := match v with JArr l => l | _ => [] end.

Definition STATES : list string := ["pending"; "running"; "completed"; "failed"; "cancelled"].
Definition TERMINAL : list string := ["completed"; "failed"; "cancelled"].
Definition DISPOSITIONS : list string := ["deterministic_mesh"; "infrastructure"].

Definition hasPermanentContinuationFailure (value : jsval) : bool :=
  match value with
  | JObj o =>
      is_str (get "continuation_failure_kind" o) "permanent" ||
      match get "message" o with
      | JStr m => JsString.includes m "continuation_source_permanent:"
      | _ => false
      end
  | _ => false
  end.

Definition idle_case (item : jsval) : bool :=
  isRecord item && is_false (prop "solver_running" item) &&
  (to_number (prop "solver_active_seconds" item) === 0)%js.

Definition hasNoSolverProgress (value : jsval) : bool :=
  if nullish value then true
  else match prop "cases" value with JArr l => forallb idle_case l | _ => false end.

(** ** Order *)

Definition state_of (v : jsval) : jsval := prop "state" v.

Definition isFinalProgressiveRemoteReport (report : jsval) : bool :=
  let status := prop "status" report in
  let result := prop "result" report in
  let stopProof := prop "stopProof" report in
  negb (is_null stopProof) && one_of TERMINAL (state_of status) &&
  (is_str (prop "ownership_basis" stopProof) "never_started_cancellation_fence" ||
   (is_null result && is_str (state_of status) "failed" &&
    strict_eq_num (prop "total_cases" status) 0 &&
    strict_eq_num (prop "completed_cases" status) 0 &&
    (text_one_of DISPOSITIONS (prop "failure_disposition" status) ||
     hasPermanentContinuationFailure status)) ||
   (negb (is_null result) && one_of TERMINAL (state_of result))).

Definition isMeasuredCancelledProgressiveRemoteReport (report : jsval) : bool :=
  let stopProof := prop "stopProof" report in
  is_str (state_of (prop "status" report)) "cancelled" &&
  is_true (prop "execution_stopped" stopProof) &&
  negb (is_str (prop "ownership_basis" stopProof) "never_started_cancellation_fence").

(** [status.x] of a report whose counts are numbers. *)
Definition count_of (k : string) (report : jsval) : jsnum :=
  as_number (prop k (prop "status" report)).
Definition sequence_of (report : jsval) : jsnum := as_number (prop "sequence" report).

Definition solver_runs (report : jsval) : bool :=
  existsb (fun item => truthy (prop "solver_running" item))
    (items (prop "cases" (prop "solver_budget_progress" (prop "status" report)))).

Section Report.
Context (localeCompare : string -> string -> jsnum) (sha256 : string -> string)
  (Date_parse : string -> jsnum).

(** [canonicalAnalysisJson(a) !== canonicalAnalysisJson(b)]; both are stored
    canonical JSON, so neither throws. *)
Definition canonical_differs (a b : jsval) : result bool :=
  let* x := canonicalAnalysisJson localeCompare a in
  let* y := canonicalAnalysisJson localeCompare b in
  Ok (negb (String.eqb x y)).

Definition state_differs (a b : jsval) : bool :=
  match state_of (prop "status" a), state_of (prop "status" b) with
  | JStr s, JStr t => negb (String.eqb s t)
  | _, _ => true
  end.

(** Some final evidence of the previous report has changed. *)
Definition finalChanged (report previous : jsval) : result bool :=
  if negb (isFinalProgressiveRemoteReport report) then Ok true
  else
    let* differs := canonical_differs (prop "result" report) (prop "result" previous) in
    Ok (differs || state_differs report previous ||
        negb (count_of "total_cases" report === count_of "total_cases" previous)%js ||
        negb (count_of "completed_cases" report === count_of "completed_cases" previous)%js).

Definition validateProgressiveRemoteReportOrder (report : jsval) (previous : option jsval) :
    result unit :=
  let before := match previous with Some p => sequence_of p | None => 0%float end in
  let* _ := throw_if (negb (sequence_of report === (before + 1)%float)%js)
    "Remote reports must arrive in their durable publication order" in
  match previous with
  | None => Ok tt
  | Some previous =>
      let* _ := throw_if
        (count_of "completed_cases" report < count_of "completed_cases" previous)%js
        "Remote report cannot forget previously completed cases" in
      let* _ := throw_if
        (negb (is_null (prop "stopProof" previous)) &&
         (is_null (prop "stopProof" report) ||
          negb (one_of TERMINAL (state_of (prop "status" report))) || solver_runs report))
        "An acknowledged stopped remote execution cannot resume" in
      let* changed :=
        if isFinalProgressiveRemoteReport previous then finalChanged report previous
        else Ok false in
      throw_if changed "Final remote execution evidence cannot change after its stop fence"
  end.

(** ** The stop proof *)

Definition validateProgressiveExecutionStopProof (proof : jsval) : result unit :=
  let basis := prop "ownership_basis" proof in
  let fence := prop "fence" proof in
  throw_if
    (negb (truthy proof) || negb (strict_eq_num (prop "version" proof) 1) ||
     negb (match prop "job_id" proof with JStr s => nonempty s | _ => false end) ||
     negb (is_true (prop "execution_stopped" proof)) ||
     negb (is_true (prop "producer_stopped" proof)) ||
     negb (is_true (prop "namespace_verified" proof)) ||
     negb (match prop "remaining" proof with JArr [] => true | _ => false end) ||
     negb (is_null (prop "error" proof)) ||
     negb (one_of ["cancel_marker"; "terminal_result"] fence) ||
     (negb (nullish basis) &&
      negb (one_of ["recorded_execution_namespace"; "never_started_cancellation_fence"] basis)) ||
     (is_str basis "never_started_cancellation_fence" && negb (is_str fence "cancel_marker")) ||
     negb (match prop "observed_at" proof with
           | JStr s => isFinite (Date_parse s) | _ => false end))
    "Progressive CFD settlement requires an exact verified execution-stop proof".

(** ** Parts of the report check *)

Definition REPORT_KEYS : list string :=
  ["version"; "solverId"; "promiseId"; "executionId"; "assignmentSignature"; "sequence";
   "status"; "result"; "stopProof"].

Definition identifies (envelope : ProgressiveRemoteExecutionEnvelope) (value : record) : bool :=
  hasExactKeys value REPORT_KEYS && strict_eq_num (get "version" value) 1 &&
  is_str (get "solverId" value) (solverId envelope) &&
  is_str (get "promiseId" value) (promiseId envelope) &&
  is_str (get "executionId" value) (executionId (scope envelope)) &&
  is_str (get "assignmentSignature" value) (contentSignature envelope) &&
  safe_at_least (get "sequence" value) 1.

(** The execution ended before any case in the given state. *)
Definition endedBeforeCases (value : record) (state : string) (why : jsval -> bool) : bool :=
  let status := get "status" value in
  isRecord status && is_str (state_of status) state &&
  strict_eq_num (prop "total_cases" status) 0 && strict_eq_num (prop "completed_cases" status) 0 &&
  why status && isRecord (get "stopProof" value) &&
  (is_null (get "result" value) ||
   match prop "polars" (get "result" value) with JArr [] => true | _ => false end) &&
  hasNoSolverProgress (prop "solver_budget_progress" status).

Definition typed_failure (status : jsval) : bool :=
  text_one_of DISPOSITIONS (prop "failure_disposition" status).

Definition validProgress (envelope : ProgressiveRemoteExecutionEnvelope) (value : record) : bool :=
  let status := get "status" value in
  let n := of_nat (length (units (scope envelope))) in
  isRecord status && is_str (prop "job_id" status) (executionId (scope envelope)) &&
  one_of STATES (state_of status) &&
  (strict_eq_num (prop "total_cases" status) n ||
   endedBeforeCases value "failed" typed_failure ||
   endedBeforeCases value "cancelled" typed_failure ||
   endedBeforeCases value "failed" hasPermanentContinuationFailure ||
   (strict_eq_num (prop "total_cases" status) 0 && isRecord (get "stopProof" value) &&
    is_str (prop "ownership_basis" (get "stopProof" value)) "never_started_cancellation_fence")) &&
  safe_at_least (prop "completed_cases" status) 0 &&
  on_num (fun x => negb (x > n)%js) (prop "completed_cases" status).

(** [validateProvenance], for the engine and pool of the assigned request. *)
Definition same_engine (expectedEngine value : jsval) : bool :=
  match narrow expectedEngine with Some e => sameAs e value | None => false end.

Definition same_pool (expectedPool value : jsval) : bool :=
  match value, expectedPool with JStr s, JStr t => String.eqb s t | _, _ => false end.

Definition validateProvenance (expectedEngine expectedPool item : jsval) (required : bool) :
    result unit :=
  let engine := prop "engine" item in
  let pool := prop "execution_pool" item in
  let requestedPool := prop "requested_execution_pool" item in
  let requestedEngine := prop "requested_engine" item in
  let* _ := throw_if
    ((required || negb (nullish engine)) &&
     (negb (isEngineRuntimeIdentity engine) || negb (same_engine expectedEngine engine)))
    "Remote report lacks matching real runtime provenance" in
  let* _ := throw_if
    ((negb (nullish pool) && negb (same_pool expectedPool pool)) ||
     (negb (nullish requestedPool) && negb (same_pool expectedPool requestedPool)))
    "Remote report changed its assigned execution pool" in
  throw_if
    (negb (nullish requestedEngine) &&
     (negb (isEngineIdentity requestedEngine) || negb (same_engine expectedEngine requestedEngine)))
    "Remote report changed its requested engine identity".

(** [validateCase]: the case is allocated, its seconds are measured and a granted
    limit is the allocated one. *)
Definition validateCase (allocations : allocation_map) (physical : SolverBudgetCase)
    (seconds : jsval) (limit : option jsnum) : result unit :=
  let* _ := throw_if
    (negb (typeof_number (chord physical)) || negb (typeof_number (speed physical)) ||
     negb (typeof_number (aoa_deg physical)))
    "Remote report lacks exact physical case coordinates" in
  let* key := solverBudgetCaseKey physical in
  throw_if
    (negb match map_get key allocations with
          | None => false
          | Some allocated =>
              on_num (fun x => isFinite x && negb (x < 0)%js) seconds &&
              match limit with None => true | Some l => (l === allocated)%js end
          end)
    "Remote report changes an owned physical case or measured budget".

Definition liveCase (item : jsval) : SolverBudgetCase :=
  {| chord := prop "chord" item; speed := prop "speed" item; aoa_deg := prop "aoa_deg" item |}.

(** [JSON.stringify([item.chord, item.speed, item.aoa_deg])] of checked numbers. *)
Definition live_key (item : jsval) : string :=
  "[" +:+ join "," (List.map number_text [prop "chord" item; prop "speed" item;
                                          prop "aoa_deg" item]) +:+ "]".

Fixpoint liveLoop (allocations : allocation_map) (cases : list jsval) (seen : list string) :
    result unit :=
  match cases with
  | [] => Ok tt
  | item :: cases' =>
      let* _ := throw_if (negb (isRecord item) || negb (typeof_boolean (prop "solver_running" item)))
        "Remote solver activity is not measured" in
      let* _ := throw_if (negb (typeof_number (prop "limit_seconds" item)))
        "Remote solver accounting omitted its granted budget" in
      let* _ := validateCase allocations (liveCase item) (prop "solver_active_seconds" item)
        (Some (as_number (prop "limit_seconds" item))) in
      let* _ := throw_if (mem (live_key item) seen) "Remote report repeats a live physical case" in
      liveLoop allocations cases' (live_key item :: seen)
  end.

Definition checkLive (envelope : ProgressiveRemoteExecutionEnvelope) (allocations : allocation_map)
    (progress : jsval) : result unit :=
  if nullish progress then Ok tt
  else
    let* _ := throw_if
      (negb (isRecord progress) || negb (strict_eq_num (prop "version" progress) 1) ||
       negb (is_str (prop "job_id" progress) (executionId (scope envelope))) ||
       negb (match prop "observed_at" progress with
             | JStr s => isFinite (Date_parse s) | _ => false end) ||
       negb (match prop "cases" progress with
             | JArr l => Nat.leb (length l) (length (units (scope envelope))) | _ => false end))
      "Remote report has malformed live solver accounting" in
    liveLoop allocations (items (prop "cases" progress)) [].

(** ** Calculated evidence *)

Definition bad_coefficient (v : jsval) : bool := negb (nullish v) && negb (finite v).

Definition budget_guard (guard : jsval) : bool :=
  isRecord guard && strict_eq_num (prop "version" guard) 1 &&
  is_str (prop "scope" guard) "physical_case_v1" && typeof_boolean (prop "exhausted" guard) &&
  typeof_number (prop "limit_seconds" guard).

Section Evidence.
Context (allocations : allocation_map) (expectedEngine expectedPool chordV speedV : jsval).

Definition pointCase (point : jsval) : SolverBudgetCase :=
  {| chord := chordV; speed := speedV; aoa_deg := prop "aoa_deg" point |}.

Definition checkPoint (point : jsval) : result unit :=
  let* _ := throw_if (negb (isRecord point)) "Remote result contains malformed attempt evidence" in
  let* _ := throw_if
    (negb (typeof_boolean (prop "converged" point)) ||
     negb (typeof_boolean (prop "unsteady" point)))
    "Remote result must retain actual convergence and unsteadiness state" in
  let* _ := throw_if (existsb bad_coefficient [prop "cl" point; prop "cd" point; prop "cm" point])
    "Remote result contains a malformed coefficient" in
  let* _ := validateCase allocations (pointCase point) (prop "solver_active_seconds" point) None in
  let* _ := validateProvenance expectedEngine expectedPool point true in
  let guard := prop "solver_budget" point in
  if nullish guard then Ok tt
  else
    let* _ := throw_if (negb (budget_guard guard))
      "Remote result has malformed budget-guard evidence" in
    validateCase allocations (pointCase point) (prop "solver_active_seconds" point)
      (Some (as_number (prop "limit_seconds" guard))).

(** [for (const x of xs)] over a check that may throw. *)
Fixpoint each (check : jsval -> result unit) (xs : list jsval) : result unit :=
  match xs with
  | [] => Ok tt
  | x :: xs' => let* _ := check x in each check xs'
  end.

Definition checkPolar (n : nat) (polar : jsval) : result unit :=
  let attempts := prop "attempts" polar in
  let* _ := throw_if
    (negb (isRecord polar) || negb (on_num2 PrimFloat.eqb (prop "chord" polar) chordV) ||
     negb (on_num2 PrimFloat.eqb (prop "speed" polar) speedV) ||
     negb (match prop "points" polar with JArr l => Nat.leb (length l) n | _ => false end) ||
     (negb (nullish attempts) &&
      negb (match attempts with JArr l => Nat.leb (length l) 2048 | _ => false end)))
    "Remote result changes the assigned polar scope" in
  each checkPoint (items (prop "points" polar) ++ items attempts).

Definition checkResult (envelope : ProgressiveRemoteExecutionEnvelope) (result : jsval) :
    Prelude.result unit :=
  if is_null result then Ok tt
  else
    let* _ := throw_if
      (negb (isRecord result) ||
       negb (is_str (prop "job_id" result) (executionId (scope envelope))) ||
       negb (one_of STATES (state_of result)) ||
       negb (match prop "polars" result with JArr l => Nat.leb (length l) 1 | _ => false end))
      "Remote report has invalid result ownership" in
    let polars := items (prop "polars" result) in
    let* _ := validateProvenance expectedEngine expectedPool result (Nat.ltb 0 (length polars)) in
    each (checkPolar (length (units (scope envelope)))) polars.
End Evidence.

Definition checkStopProof (envelope : ProgressiveRemoteExecutionEnvelope) (value : record) :
    result unit :=
  let proof := get "stopProof" value in
  let status := get "status" value in
  if is_null proof then Ok tt
  else
    let* _ := throw_if
      (negb (isRecord proof) || negb (is_str (prop "job_id" proof) (executionId (scope envelope))) ||
       negb (text_one_of TERMINAL (state_of status)))
      "Remote physical-stop proof belongs to a different or nonterminal execution" in
    let* _ := validateProgressiveExecutionStopProof proof in
    throw_if
      (is_str (prop "ownership_basis" proof) "never_started_cancellation_fence" &&
       (negb (to_number (prop "completed_cases" status) === 0)%js ||
        (isRecord (get "result" value) &&
         Nat.ltb 0 (length (items (prop "polars" (get "result" value)))))))
      "A never-started remote execution cannot contain calculated evidence".

(** ** The whole check *)

Definition validateProgressiveRemoteReport (value : jsval)
    (assignment : ProgressiveRemoteExecutionEnvelope) : result (jsval * string) :=
  let* envelope := verifyProgressiveRemoteExecution localeCompare sha256
    (envelope_json assignment) (expected_of assignment) in
  match value with
  | JObj fields =>
      let* _ := throw_if (negb (identifies envelope fields))
        "Remote report does not identify its exact assigned execution and sequence" in
      let* _ := throw_if (negb (validProgress envelope fields))
        "Remote report has invalid execution progress" in
      let request := request envelope in
      let expectedEngine := prop "expected_engine" request in
      let expectedPool := prop "expected_execution_pool" request in
      let status := get "status" fields in
      let* _ := validateProvenance expectedEngine expectedPool status false in
      let chordV := item0 (prop "chord_lengths" request) in
      let speedV := item0 (prop "speeds" request) in
      let* allocations := resolveSolverCaseAllocations (prop "resources" request)
        (List.map (fun u => {| chord := chordV; speed := speedV; aoa_deg := JNum (alpha u) |})
                  (units (scope envelope))) (JNum 2) in
      let* _ := checkLive envelope allocations (prop "solver_budget_progress" status) in
      let* _ := checkResult allocations expectedEngine expectedPool chordV speedV envelope
        (get "result" fields) in
      let* _ := checkStopProof envelope fields in
      let* report := parsed_canonical localeCompare value in
      let* contentSignature := analysisContentHash localeCompare sha256 report in
      Ok (report, contentSignature)
  | _ => Throw "Remote report does not identify its exact assigned execution and sequence"
  end.
End Report.

(** ** A stream of accepted reports *)

Section Stream.
Context (localeCompare : string -> string -> jsnum).

Abbreviation order_ok := (fun r p => validateProgressiveRemoteReportOrder localeCompare r p = Ok tt).

(** The reports accepted one after the other, the newest first. *)
Inductive stream : list jsval -> Prop :=
  | stream_first r : order_ok r None -> stream [r]
  | stream_next r p rs : order_ok r (Some p) -> stream (p :: rs) -> stream (r :: p :: rs).

(** What a later report keeps of an earlier one. *)
Record keeps (later earlier : jsval) : Prop := {
  keeps_cases : (ord (count_of "completed_cases" earlier)
                 <= ord (count_of "completed_cases" later))%Z;
  keeps_stop : is_null (prop "stopProof" earlier) = false ->
    is_null (prop "stopProof" later) = false /\
    one_of TERMINAL (state_of (prop "status" later)) = true /\ solver_runs later = false;
  keeps_final : isFinalProgressiveRemoteReport earlier = true ->
    isFinalProgressiveRemoteReport later = true /\
    (exists s, canonicalAnalysisJson localeCompare (prop "result" later) = Ok s /\
               canonicalAnalysisJson localeCompare (prop "result" earlier) = Ok s) /\
    state_of (prop "status" later) = state_of (prop "status" earlier) /\
    ord (count_of "total_cases" later) = ord (count_of "total_cases" earlier) /\
    ord (count_of "completed_cases" later) = ord (count_of "completed_cases" earlier);
}.

(** The case counts of a validated report are numbers. *)
Definition counted (r : jsval) : Prop := isNaN (count_of "completed_cases" r) = false.

Lemma keeps_trans (a b c : jsval) : keeps a b -> keeps b c -> keeps a c.
Proof.
  intros [A1 A2 A3] [B1 B2 B3]. constructor.
  - lia.
  - intros Hc. destruct (B2 Hc) as (Hb & _ & _). auto.
  - intros Hc. destruct (B3 Hc) as (Hb & (s & Hs1 & Hs2) & Hst & Ht & Hcc).
    destruct (A3 Hb) as (Ha & (s' & Hs1' & Hs2') & Hst' & Ht' & Hcc').
    split; [done|]. split; [exists s; split; [congruence|done]|]. split; [congruence|].
    split; congruence.
Qed.

Lemma state_differs_false (a b : jsval) :
  state_differs a b = false -> state_of (prop "status" a) = state_of (prop "status" b).
Proof.
  unfold state_differs. destruct (state_of (prop "status" a)); try done.
  destruct (state_of (prop "status" b)); try done.
  intros H%negb_false_iff%String.eqb_eq. by subst.
Qed.

Lemma finalChanged_false (r p : jsval) :
  finalChanged localeCompare r p = Ok false ->
  isFinalProgressiveRemoteReport r = true /\
  (exists s, canonicalAnalysisJson localeCompare (prop "result" r) = Ok s /\
             canonicalAnalysisJson localeCompare (prop "result" p) = Ok s) /\
  state_of (prop "status" r) = state_of (prop "status" p) /\
  ord (count_of "total_cases" r) = ord (count_of "total_cases" p) /\
  ord (count_of "completed_cases" r) = ord (count_of "completed_cases" p).
Proof.
  unfold finalChanged. destruct (isFinalProgressiveRemoteReport r); cbn [negb]; [|done].
  rewrite bind_ok. intros (d & Hd & [= H]). rewrite !orb_false_iff, !negb_false_iff in H.
  destruct H as [[[-> Hs] Ht] Hc]. split; [done|].
  unfold canonical_differs in Hd. apply bind_ok in Hd as (x & Hx & Hd).
  apply bind_ok in Hd as (y & Hy & [= E%negb_false_iff%String.eqb_eq]). subst y.
  split; [by exists x|]. split; [by apply state_differs_false|].
  apply eqb_ord in Ht, Hc. tauto.
Qed.

Lemma order_keeps (r p : jsval) : counted r -> counted p -> order_ok r (Some p) -> keeps r p.
Proof.
  intros Hr Hp. unfold validateProgressiveRemoteReportOrder.
  intros [_ H]%bind_throw_if. apply bind_throw_if in H as [Hc H].
  apply bind_throw_if in H as [Hs H]. apply bind_ok in H as (changed & Hch & Hfin).
  apply throw_if_ok in Hfin as ->. constructor.
  - by apply ltb_false_ord.
  - intros Hn. rewrite Hn in Hs. cbn [negb andb] in Hs.
    apply orb_false_iff in Hs as [[? ?%negb_false_iff]%orb_false_iff ?]. done.
  - intros Hf. rewrite Hf in Hch. by apply finalChanged_false.
Qed.

Lemma order_sequence (r : jsval) (p : option jsval) :
  order_ok r p ->
  (sequence_of r === (match p with Some p => sequence_of p | None => 0%float end + 1)%float)%js
  = true.
Proof.
  unfold validateProgressiveRemoteReportOrder.
  intros [H _]%bind_throw_if. by apply negb_false_iff.
Qed.

Lemma stream_keeps (rs : list jsval) :
  stream rs -> Forall counted rs -> StronglySorted keeps rs.
Proof.
  induction 1 as [r _|r p rs Hr _ IH]; intros Hc; [by repeat constructor|].
  apply Forall_cons_iff in Hc as [Cr Hc]. specialize (IH Hc).
  assert (Hk : keeps r p).
  { apply order_keeps; [done| |done]. by apply Forall_cons_iff in Hc as [? _]. }
  constructor; [done|]. constructor; [done|]. inversion IH as [|? ? _ Hp]; subst.
  forall_impl Hp. intros x. by apply keeps_trans.
Qed.

Lemma eqb_integer_eq (x y : jsnum) (a : Z) :
  PrimFloat.eqb x y = true -> to_integer y = Some a -> to_integer x = Some a.
Proof.
  intros (Hn & _ & Ho)%eqb_ord. rewrite !to_integer_spec, !isFinite_ord.
  intros [[_ Hb] Hy]. rewrite Ho. by split.
Qed.

Lemma stream_sequence (rs : list jsval) :
  stream rs -> (Z.of_nat (length rs) <= 2 ^ 53)%Z ->
  to_integer (sequence_of (hd JUndef rs)) = Some (Z.of_nat (length rs)).
Proof.
  induction 1 as [r Hr%order_sequence|r p rs Hr%order_sequence _ IH]; cbn [hd length]; intros Hl.
  - eapply eqb_integer_eq; [exact Hr|]. apply (add_integer 0 1 0 1); [apply to_integer_0|apply to_integer_1|].
    vm_compute. discriminate.
  - specialize (IH ltac:(cbn [length] in *; lia)). cbn [hd length] in IH.
    eapply eqb_integer_eq; [exact Hr|].
    rewrite (add_integer _ _ _ 1 IH to_integer_1) by lia. f_equal. lia.
Qed.
End Stream.

(** C3. Reports form an irrevocable record: in every stream of reports accepted one
    after the other (the newest first) the newest has as sequence number the
    number of reports, and for any two of them the later one has at least the
    completed cases of the earlier; if the earlier had a stop proof, the later
    has one too, is terminal and runs no solver; and if the earlier was final,
    the later is final with the same canonical result, state and counts. *)
Theorem report_stream_irrevocable (localeCompare : string -> string -> jsnum) (rs : list jsval) :
  stream localeCompare rs -> Forall counted rs -> (Z.of_nat (length rs) <= 2 ^ 53)%Z ->
  to_integer (sequence_of (hd JUndef rs)) = Some (Z.of_nat (length rs)) /\
  StronglySorted (keeps localeCompare) rs.
Proof.
  intros Hs Hc Hl. split; [by eapply stream_sequence|by apply stream_keeps].
Qed.

(** ** What an accepted report contains *)

Section Accepted.
Context (localeCompare : string -> string -> jsnum) (sha256 : string -> string)
  (Date_parse : string -> jsnum).

Lemma each_ok (check : jsval -> result unit) (xs : list jsval) (u : unit) :
  each check xs = Ok u <-> u = tt /\ Forall (fun x => check x = Ok tt) xs.
Proof.
  induction xs as [|x xs IH]; cbn [each].
  - destruct u. split; [intros _; by split; [|constructor]|done].
  - rewrite bind_ok. split.
    + intros ([] & Hx & [-> Hxs]%IH). split; [done|]. by constructor.
    + intros [-> [Hx Hxs]%Forall_cons_iff]. exists tt. split; [done|]. by apply IH.
Qed.

(** A point of the assigned polar, on an allocated case, measured by the assigned
    engine. *)
Definition owned_point (e : ProgressiveRemoteExecutionEnvelope) (allocations : allocation_map)
    (point : jsval) : Prop :=
  (exists key seconds limit,
     solverBudgetCaseKey {| chord := item0 (prop "chord_lengths" (request e));
                            speed := item0 (prop "speeds" (request e));
                            aoa_deg := prop "aoa_deg" point |} = Ok key /\
     map_get key allocations = Some limit /\ prop "solver_active_seconds" point = JNum seconds /\
     isFinite seconds = true /\ PrimFloat.ltb seconds 0 = false) /\
  isEngineRuntimeIdentity (prop "engine" point) = true /\
  same_engine (prop "expected_engine" (request e)) (prop "engine" point) = true.

Lemma validateCase_ok (allocations : allocation_map) (c : SolverBudgetCase) (seconds : jsval)
    (limit : option jsnum) (u : unit) :
  validateCase allocations c seconds limit = Ok u ->
  exists key s allocated, solverBudgetCaseKey c = Ok key /\
    map_get key allocations = Some allocated /\ seconds = JNum s /\
    isFinite s = true /\ PrimFloat.ltb s 0 = false.
Proof.
  unfold validateCase. intros [_ H]%bind_throw_if. apply bind_ok in H as (key & Hk & H).
  apply throw_if_ok, negb_false_iff in H. destruct (map_get key allocations) as [a|] eqn:Ea; [|done].
  apply andb_true_iff in H as [H _]. destruct seconds as [| | |s| | |]; try done.
  cbn in H. apply andb_true_iff in H as [H1 H2%negb_true_iff]. by exists key, s, a.
Qed.

Lemma checkPoint_owned (e : ProgressiveRemoteExecutionEnvelope) (allocations : allocation_map)
    (pool point : jsval) :
  checkPoint allocations (prop "expected_engine" (request e)) pool
    (item0 (prop "chord_lengths" (request e))) (item0 (prop "speeds" (request e))) point = Ok tt ->
  owned_point e allocations point.
Proof.
  unfold checkPoint. intros [_ H]%bind_throw_if. apply bind_throw_if in H as [_ H].
  apply bind_throw_if in H as [_ H]. apply bind_ok in H as ([] & Hc & H).
  apply bind_ok in H as ([] & Hp & _). split.
  - apply validateCase_ok in Hc as (key & s & a & ?). exists key, s, a. tauto.
  - unfold validateProvenance in Hp. apply bind_throw_if in Hp as [Hp _].
    cbn [orb andb] in Hp. apply orb_false_iff in Hp as [?%negb_false_iff ?%negb_false_iff]. done.
Qed.

(** The points and attempts of a reported result. *)
Definition reported_points (result : jsval) : list jsval :=
  flat_map (fun polar => items (prop "points" polar) ++ items (prop "attempts" polar))
    (items (prop "polars" result)).

Lemma checkResult_owned (e : ProgressiveRemoteExecutionEnvelope) (allocations : allocation_map)
    (pool result : jsval) (u : unit) :
  checkResult allocations (prop "expected_engine" (request e)) pool
    (item0 (prop "chord_lengths" (request e))) (item0 (prop "speeds" (request e))) e result = Ok u ->
  Forall (owned_point e allocations) (reported_points result).
Proof.
  unfold checkResult, reported_points. destruct (is_null result) eqn:En.
  { by destruct result. }
  intros [_ H]%bind_throw_if. apply bind_ok in H as ([] & _ & [_ H]%each_ok).
  apply List.Forall_flat_map. forall_impl H. intros polar.
  unfold checkPolar. intros [_ [_ Hp]%each_ok]%bind_throw_if.
  forall_impl Hp. intros point. apply checkPoint_owned.
Qed.

(** The accepted report of an assignment, in terms of the verified envelope. *)
Record report_of (e : ProgressiveRemoteExecutionEnvelope) (value report : jsval)
    (signature : string) : Prop := {
  report_scope : wf_scope (scope e);
  report_identity : exact_keys REPORT_KEYS (match value with JObj o => o | _ => [] end) /\
    prop "solverId" value = JStr (solverId e) /\
    prop "promiseId" value = JStr (promiseId e) /\
    prop "executionId" value = JStr (executionId (scope e)) /\
    prop "assignmentSignature" value = JStr (contentSignature e) /\
    safe_at_least (prop "sequence" value) 1 = true;
  report_progress : prop "job_id" (prop "status" value) = JStr (executionId (scope e)) /\
    one_of STATES (state_of (prop "status" value)) = true /\
    safe_at_least (prop "completed_cases" (prop "status" value)) 0 = true /\
    PrimFloat.ltb (of_nat (length (units (scope e))))
      (as_number (prop "completed_cases" (prop "status" value))) = false;
  report_points : exists allocations,
    resolveSolverCaseAllocations (prop "resources" (request e))
      (List.map (fun u => {| chord := item0 (prop "chord_lengths" (request e));
                             speed := item0 (prop "speeds" (request e));
                             aoa_deg := JNum (alpha u) |}) (units (scope e))) (JNum 2)
      = Ok allocations /\
    Forall (owned_point e allocations) (reported_points (prop "result" value));
  report_stop : is_null (prop "stopProof" value) = false ->
    prop "job_id" (prop "stopProof" value) = JStr (executionId (scope e)) /\
    prop "execution_stopped" (prop "stopProof" value) = JBool true /\
    text_one_of TERMINAL (state_of (prop "status" value)) = true;
  report_copy : parsed_canonical localeCompare value = Ok report /\
    analysisContentHash localeCompare sha256 report = Ok signature;
}.

Lemma identifies_spec (e : ProgressiveRemoteExecutionEnvelope) (value : record) :
  identifies e value = true ->
  exact_keys REPORT_KEYS value /\
  get "solverId" value = JStr (solverId e) /\ get "promiseId" value = JStr (promiseId e) /\
  get "executionId" value = JStr (executionId (scope e)) /\
  get "assignmentSignature" value = JStr (contentSignature e) /\
  safe_at_least (get "sequence" value) 1 = true.
Proof.
  unfold identifies. rewrite !andb_true_iff, !is_str_spec. intros [[[[[[H1 _] H2] H3] H4] H5] H6].
  split_and!; try assumption. apply hasExactKeys_exact; [|done].
  unfold REPORT_KEYS. repeat (constructor; [cbn; intuition discriminate|]). constructor.
Qed.

Lemma validProgress_spec (e : ProgressiveRemoteExecutionEnvelope) (value : record) :
  validProgress e value = true ->
  prop "job_id" (get "status" value) = JStr (executionId (scope e)) /\
  one_of STATES (state_of (get "status" value)) = true /\
  safe_at_least (prop "completed_cases" (get "status" value)) 0 = true /\
  PrimFloat.ltb (of_nat (length (units (scope e))))
    (as_number (prop "completed_cases" (get "status" value))) = false.
Proof.
  unfold validProgress. rewrite !andb_true_iff, !is_str_spec. intros [[[[[_ H1] H2] _] H3] H4].
  apply on_num_spec in H4 as [_ H4%negb_true_iff]. by split_and!.
Qed.

Lemma checkStopProof_spec (e : ProgressiveRemoteExecutionEnvelope) (value : record) (u : unit) :
  checkStopProof Date_parse e value = Ok u -> is_null (get "stopProof" value) = false ->
  prop "job_id" (get "stopProof" value) = JStr (executionId (scope e)) /\
  prop "execution_stopped" (get "stopProof" value) = JBool true /\
  text_one_of TERMINAL (state_of (get "status" value)) = true.
Proof.
  unfold checkStopProof. intros H Hn. rewrite Hn in H. apply bind_throw_if in H as [H1 H].
  apply bind_ok in H as (u' & Hp & _).
  apply orb_false_iff in H1 as [H1 H2%negb_false_iff].
  apply orb_false_iff in H1 as [_ H1%negb_false_iff%is_str_spec].
  unfold validateProgressiveExecutionStopProof in Hp. apply throw_if_ok in Hp.
  rewrite !orb_false_iff, !negb_false_iff in Hp.
  repeat match type of Hp with _ /\ _ => let H' := fresh in destruct Hp as [Hp H'] end.
  split_and!; try done. by apply is_true_spec.
Qed.

Lemma report_bound (value report : jsval) (assignment : ProgressiveRemoteExecutionEnvelope)
    (signature : string) :
  validateProgressiveRemoteReport localeCompare sha256 Date_parse value assignment
    = Ok (report, signature) ->
  exists e, expected_of e = expected_of assignment /\ report_of e value report signature.
Proof.
  unfold validateProgressiveRemoteReport. rewrite bind_ok. intros (e & He & H).
  destruct value as [| | | | | |fields]; try done.
  destruct (verify_sound localeCompare sha256 _ _ e He) as (Eexp & _ & Hwf & _).
  apply bind_throw_if in H as [Hid%negb_false_iff%identifies_spec H].
  apply bind_throw_if in H as [Hpr%negb_false_iff%validProgress_spec H].
  apply bind_ok in H as ([] & _ & H). apply bind_ok in H as (m & Hm & H).
  apply bind_ok in H as ([] & _ & H). apply bind_ok in H as ([] & Hres & H).
  apply bind_ok in H as ([] & Hst & H). apply bind_ok in H as (r & Hr & H).
  apply bind_ok in H as (sg & Hs & [= <- <-]).
  exists e. split; [done|]. constructor; cbn [prop]; try done.
  - exists m. split; [done|]. by eapply checkResult_owned.
  - by eapply checkStopProof_spec.
Qed.
End Accepted.

(** An accepted report belongs to its assignment: its assignment verifies, the
    report has the exact shape and the solver, promise, execution id and
    signature of the assignment and a sequence number of at least 1, its progress
    is between zero and the number of assigned units, every reported point or
    attempt is on a physical case with an allocated budget, with finite measured
    seconds and a real runtime identity of the expected engine, a stop proof is
    one of this execution in a terminal state, and the stored report is the
    canonical copy whose hash is the returned signature. *)
Theorem validateProgressiveRemoteReport_bound (localeCompare : string -> string -> jsnum)
    (sha256 : string -> string) (Date_parse : string -> jsnum) (value report : jsval)
    (assignment : ProgressiveRemoteExecutionEnvelope) (signature : string) :
  validateProgressiveRemoteReport localeCompare sha256 Date_parse value assignment
    = Ok (report, signature) ->
  exists e, expected_of e = expected_of assignment /\
    report_of localeCompare sha256 e value report signature.
Proof. apply report_bound. Qed.

(** ** Samples *)

Definition sample_engine : jsval :=
  JObj [("family", JStr "openfoam"); ("distribution", JStr "opencfd"); ("version", JStr "2606");
        ("numerics_revision", JStr "1"); ("adapter_contract_version", JNum 1);
        ("build_id", JStr "b1"); ("binary_sha256", JStr sample_hash)].

Definition sample_point (a : jsnum) : jsval :=
  JObj [("aoa_deg", JNum a); ("converged", JBool true); ("unsteady", JBool false);
        ("cl", JNum 0.5); ("cd", JNum 0.01); ("cm", JNull); ("solver_active_seconds", JNum 12.5);
        ("engine", sample_engine)].

Definition sample_result (state : string) : jsval :=
  JObj [("job_id", JStr (sample_uuid "0")); ("state", JStr state); ("engine", sample_engine);
        ("polars", JArr [JObj [("chord", JNum 1); ("speed", JNum 30);
                               ("points", JArr [sample_point 0; sample_point 2])]])].

Definition sample_proof : jsval :=
  JObj [("version", JNum 1); ("job_id", JStr (sample_uuid "0")); ("execution_stopped", JBool true);
        ("producer_stopped", JBool true); ("namespace_verified", JBool true);
        ("remaining", JArr []); ("observed_at", JStr "2026-08-28T00:00:00Z"); ("error", JNull);
        ("fence", JStr "terminal_result")].

Definition sample_report (n : jsnum) (state : string) (completed : jsnum) (result proof : jsval) :
    jsval :=
  JObj [("version", JNum 1); ("solverId", JStr (sample_uuid "7"));
        ("promiseId", JStr (sample_uuid "8")); ("executionId", JStr (sample_uuid "0"));
        ("assignmentSignature", JStr sample_hash); ("sequence", JNum n);
        ("status", JObj [("job_id", JStr (sample_uuid "0")); ("state", JStr state);
           ("total_cases", JNum 2); ("completed_cases", JNum completed)]);
        ("result", result); ("stopProof", proof)].

Definition running_report : jsval := sample_report 1 "running" 1 JNull JNull.
Definition final_report (n : jsnum) : jsval :=
  sample_report n "completed" 2 (sample_result "completed") sample_proof.

(** A stand-in for [Date.parse]: every text is a date. *)
Definition any_date (s : string) : jsnum := 0%float.

Definition final_copy : jsval := canonical_copy code_units (final_report 2).

Lemma sample_accepted :
  validateProgressiveRemoteReport code_units constant_hash any_date (final_report 2) sample_envelope
  = Ok (final_copy, sample_hash).
Proof. vm_compute. reflexivity. Qed.

Example sample_rejected :
  throws (validateProgressiveRemoteReport code_units constant_hash any_date
    (sample_report 2 "completed" 3 JNull JNull) sample_envelope) = true /\
  throws (validateProgressiveRemoteReport code_units constant_hash any_date
    (sample_report 2 "running" 1 JNull sample_proof) sample_envelope) = true /\
  throws (validateProgressiveRemoteReportOrder code_units (sample_report 3 "running" 2 JNull JNull)
    (Some (final_report 2))) = true.
Proof. vm_compute. repeat split. Qed.

Lemma validateProgressiveRemoteReport_bound_witness :
  exists e, expected_of e = expected_of sample_envelope /\
    report_of code_units constant_hash e (final_report 2) final_copy sample_hash.
Proof.
  exact (validateProgressiveRemoteReport_bound code_units constant_hash any_date (final_report 2)
    final_copy sample_envelope sample_hash sample_accepted).
Defined.

Lemma sample_stream : stream code_units [final_report 3; final_report 2; running_report].
Proof.
  apply stream_next; [vm_compute; reflexivity|]. apply stream_next; [vm_compute; reflexivity|].
  apply stream_first. vm_compute. reflexivity.
Qed.

Lemma sample_counted : Forall counted [final_report 3; final_report 2; running_report].
Proof. unfold counted. repeat constructor. Qed.

Lemma report_stream_irrevocable_witness :
  StronglySorted (keeps code_units) [final_report 3; final_report 2; running_report].
Proof.
  assert (Hl : (Z.of_nat (length [final_report 3; final_report 2; running_report]) <= 2 ^ 53)%Z)
    by (vm_compute; discriminate).
  exact (proj2 (report_stream_irrevocable code_units _ sample_stream sample_counted Hl)).
Defined.
