(* ===== verification/ReportPoints.v ===== *)
(** * The points of a remote report

    [normalizeProgressiveRemoteReportJson], [progressiveReportedPointSources] and
    [resolveProgressiveReportedPoint] of [packages/db/src/progressive-remote-report.ts],
    [progressiveRemoteReportInventory] of [packages/db/src/progressive-remote-inventory.ts]
    and the pure decisions of [packages/db/src/progressive-remote-retention.ts].

    A report is normalised before it is stored; the points of its result are
    identified by the content they were computed from; a physical cell resolves to a
    point only when it is the only one; and a point counts as having no physical
    evidence only when it carries none.

    A result is a [JobResult]: [polars] is an array of objects, [points] and
    [attempts] are arrays of objects, as [RemoteReport.checkResult] has checked.  The
    collations and SHA-256 are parameters. *)

From Stdlib Require Import ZArith Lia Bool Ascii String Sorting.Permutation.
From Stdlib Require Import Floats.
From stdpp Require Import base list strings option numbers.
From S2P Require Import Prelude JsNumber JsString JsValue JsArray JsMap.
From S2P Require Import CanonicalJson EngineIdentity SolverBudget ProgressiveExecution RemoteExecution RemoteReport.

Local Open Scope string_scope.
Local Open Scope list_scope.
Local Open Scope result_scope.

(** ** Normalisation *)

Definition nul_char : ascii := "000".
Definition nul : string := String nul_char EmptyString.

(** [result[k] = v] on an object made from [{}]: the key "__proto__" sets the
    prototype and adds no property. *)
Definition assign (k : string) (v : jsval) (o : record) : record :=
  if String.eqb k "__proto__" then o else map_set k v o.

(** [current.map((item, index) => normalize(item, `${path}[${index}]`))] *)
Definition normalizeItems (normalize : jsval -> string -> result jsval) (path : string) :=
  fix go (l : list jsval) (index : nat) : result (list jsval) :=
    match l with
    | [] => Ok []
    | item :: l' =>
        let* v := normalize item (path +:+ "[" +:+ Number_toString (of_nat index) +:+ "]") in
        let* vs := go l' (S index) in Ok (v :: vs)
    end.

(** [for (const [key, item] of Object.entries(current)) ...] *)
Definition normalizeFields (normalize : jsval -> string -> result jsval) (path : string) :=
  fix go (o result : record) : Prelude.result record :=
    match o with
    | [] => Ok result
    | (key, item) :: o' =>
        let normalizedKey := replaceAll key nul "" in
        let* _ := throw_if (has normalizedKey result)
          ("Progressive report normalization would merge object keys at " +:+ path) in
        let* v := normalize item (path +:+ "." +:+ normalizedKey) in
        go o' (assign normalizedKey v result)
    end.

(** [normalize(current, path)] of the closure. *)
Fixpoint normalize (current : jsval) (path : string) : result jsval :=
  match current with
  | JStr s => Ok (JStr (replaceAll s nul ""))
  | JArr l => let* items := normalizeItems normalize path l 0 in Ok (JArr items)
  | JObj o => let* fields := normalizeFields normalize path o [] in Ok (JObj fields)
  | _ => Ok current
  end.

Definition normalizeProgressiveRemoteReportJson (value : jsval) : result jsval :=
  normalize value "$".

(** ** The points of a result *)

(** [v ?? null] *)
Definition or_null (v : jsval) : jsval := if nullish v then JNull else v.

Record PointSource := {
  point : jsval;
  polar : jsval;
  contentSignature : string;
}.

Section Points.
(** [localeCompare] with the locale "en", and with the default locale. *)
Context (localeCompare hostCompare : string -> string -> jsnum) (sha256 : string -> string).

Abbreviation contentHash := (analysisContentHash localeCompare sha256).

(** What the signature of a point is taken of. *)
Definition point_content (result polar point : jsval) : jsval :=
  JObj [("kind", JStr "progressive-reported-point-v1"); ("executionId", prop "job_id" result);
        ("chord", prop "chord" polar); ("speed", prop "speed" polar);
        ("reynolds", prop "reynolds" polar); ("mach", or_null (prop "mach" polar));
        ("point", point)].

(** Every point and attempt of every polar, in order. *)
Definition reported (result : jsval) : list (jsval * jsval) :=
  List.flat_map (fun polar =>
    List.map (pair polar) (items (prop "points" polar) ++ items (prop "attempts" polar)))
    (items (prop "polars" result)).

Definition point_source (result : jsval) (row : jsval * jsval) : Prelude.result PointSource :=
  let* h := contentHash (point_content result (fst row) (snd row)) in
  Ok {| point := snd row; polar := fst row; contentSignature := h |}.

(** [[...new Map(sources.map((source) => [source.contentSignature, source])).values()]] *)
Definition unique_sources (sources : list PointSource) : list PointSource :=
  List.map snd (map_of (List.map (fun source => (contentSignature source, source)) sources)).

Definition progressiveReportedPointSources (result : jsval) : Prelude.result (list PointSource) :=
  let* candidates := result_map (point_source result) (reported result) in
  Ok (unique_sources candidates).

Record Cell := {
  cell_alpha : jsnum;
  cell_speed : jsnum;
  cell_chord : jsnum;
  cell_slug : option string;
}.

Definition same_slug (slug : option string) (v : jsval) : bool :=
  match slug, or_null v with
  | None, JNull => true
  | Some s, JStr t => String.eqb t s
  | _, _ => false
  end.

Definition in_cell (input : Cell) (s : PointSource) : bool :=
  strict_eq_num (prop "chord" (polar s)) (cell_chord input) &&
  strict_eq_num (prop "speed" (polar s)) (cell_speed input) &&
  strict_eq_num (prop "aoa_deg" (point s)) (cell_alpha input) &&
  same_slug (cell_slug input) (prop "case_slug" (point s)).

Definition resolveProgressiveReportedPoint (result : jsval) (input : Cell) :
    Prelude.result PointSource :=
  let* _ := throw_if
    (negb (forallb isFinite [cell_alpha input; cell_speed input; cell_chord input]) ||
     (cell_chord input <= 0)%js || (cell_speed input < 0)%js)
    "Reported point requires an exact finite physical cell" in
  let* sources := progressiveReportedPointSources result in
  match unique_sources (List.filter (in_cell input) sources) with
  | [source] => Ok source
  | _ => Throw "Reported point is missing or has competing source generations"
  end.

(** ** The inventory of a report *)

Record InventorySource := {
  point_content_signature : string;
  aoa_deg : jsval;
  case_slug : jsval;
}.

Record Inventory := {
  reportContentSignature : string;
  inventory_sources : list InventorySource;
  inventorySignature : string;
}.

Definition inventory_source (s : PointSource) : InventorySource :=
  {| point_content_signature := contentSignature s; aoa_deg := prop "aoa_deg" (point s);
     case_slug := or_null (prop "case_slug" (point s)) |}.

Definition bySignature (left right : InventorySource) : jsnum :=
  hostCompare (point_content_signature left) (point_content_signature right).

Definition inventory_json (s : InventorySource) : jsval :=
  JObj [("point_content_signature", JStr (point_content_signature s)); ("aoa_deg", aoa_deg s);
        ("case_slug", case_slug s)].

Definition progressiveRemoteReportInventory (report : jsval) : Prelude.result Inventory :=
  let* sources :=
    if truthy (prop "result" report) then progressiveReportedPointSources (prop "result" report)
    else Ok [] in
  let sources := sort bySignature (List.map inventory_source sources) in
  let* signature := contentHash report in
  let* h := contentHash
    (JObj [("kind", JStr "progressive-remote-report-inventory-v1");
           ("executionId", prop "executionId" report); ("sequence", prop "sequence" report);
           ("reportContentSignature", JStr signature);
           ("sources", JArr (List.map inventory_json sources))]) in
  Ok {| reportContentSignature := signature; inventory_sources := sources;
        inventorySignature := h |}.

(** ** Retained evidence *)

(** [Object.keys(media).length > 0] on a value that is not null. *)
Definition has_keys (media : jsval) : bool :=
  match media with
  | JArr l => negb (Nat.eqb (length l) 0)
  | JObj o => negb (Nat.eqb (length o) 0)
  | JStr s => nonempty s
  | _ => false
  end.

Definition HISTORIES : list string :=
  ["force_history"; "steady_history"; "frame_track"; "urans_cycle_certificate";
   "aperiodic_mean_certificate"; "no_shedding_certificate"; "rans_hold_certificate"].
Definition MEDIA : list string := ["images"; "video"; "mean_images"].
Definition COEFFICIENTS : list string := ["cl"; "cd"; "cm"].

Definition progressivePointHasRetainedHistory (point : jsval) : bool :=
  existsb (fun k => negb (nullish (prop k point))) HISTORIES ||
  existsb (fun k => negb (nullish (prop k point)) && has_keys (prop k point)) MEDIA.

(** [v.length] *)
Definition length_of (v : jsval) : jsval :=
  match v with
  | JArr l => JNum (of_nat (length l))
  | JStr s => JNum (of_nat (String.length s))
  | JObj o => get "length" o
  | _ => JUndef
  end.

(** [(v?.length ?? 0) > 0] *)
Definition has_items (v : jsval) : bool :=
  js_lt (JNum 0) (if nullish (length_of v) then JNum 0 else length_of v).

(** [!v || v.length === 0] *)
Definition no_items (v : jsval) : bool := negb (truthy v) || strict_eq_num (length_of v) 0.

Definition has_coefficient (point : jsval) : bool :=
  existsb (fun k => negb (nullish (prop k point))) COEFFICIENTS.

Definition DIAGNOSTIC_KINDS : list string := ["material_domain"; "infrastructure"; "hard_solver"].

Definition progressiveReportedDiagnosticFailureKind (point : jsval) : option jsval :=
  if negb (text_one_of DIAGNOSTIC_KINDS (prop "failure_disposition" point))
     || negb (is_false (prop "converged" point)) || has_coefficient point
     || has_items (prop "evidence_artifacts" point) || progressivePointHasRetainedHistory point
  then None else Some (prop "failure_disposition" point).

(** [{ ...polar, points: [] }] *)
Definition without_points (polar : jsval) : jsval :=
  match polar with JObj o => JObj (map_set "points" (JArr []) o) | _ => JObj [("points", JArr [])] end.

(** [{ ...result, polars: result.polars.map(...) }] *)
Definition attempts_only (result : jsval) : jsval :=
  match result with
  | JObj o => JObj (map_set "polars" (JArr (List.map without_points (items (get "polars" o)))) o)
  | _ => result
  end.

(** A [Set] of signatures. *)
Definition signatures_where (f : jsval -> bool) (sources : list PointSource) : list string :=
  dedup_strings (List.map contentSignature (List.filter (fun s => f (point s)) sources)).

Definition is_diagnostic (point : jsval) : bool :=
  match progressiveReportedDiagnosticFailureKind point with Some _ => true | None => false end.

Definition diagnosticSignatures (report : jsval) : Prelude.result (list string) :=
  if negb (truthy (prop "result" report)) then Ok []
  else
    let* sources := progressiveReportedPointSources (attempts_only (prop "result" report)) in
    Ok (signatures_where is_diagnostic sources).

Definition unsuccessful (result : jsval) : bool :=
  truthy result && one_of ["failed"; "cancelled"] (state_of result).

(** The conditions of both functions on one attempt. *)
Definition no_physical_evidence (point : jsval) : bool :=
  negb (has_coefficient point) && no_items (prop "evidence_artifacts" point) &&
  (negb (nullish (prop "failure_disposition" point)) || negb (nullish (prop "error" point))) &&
  negb (progressivePointHasRetainedHistory point).

Definition terminalReportHasNoPhysicalEvidence (report : jsval) : bool :=
  let result := prop "result" report in
  if negb (unsuccessful result) then false
  else
    let polars := items (prop "polars" result) in
    let points := List.flat_map (fun polar => items (prop "points" polar)) polars in
    let attempts := List.flat_map (fun polar => items (prop "attempts" polar)) polars in
    Nat.eqb (length points) 0 && Nat.ltb 0 (length attempts) && forallb no_physical_evidence attempts.

Definition terminalReportNoPhysicalEvidenceSignatures (report : jsval) :
    Prelude.result (list string) :=
  let result := prop "result" report in
  if is_str (state_of result) "completed" && isFinalProgressiveRemoteReport report
  then diagnosticSignatures report
  else if negb (unsuccessful result) then Ok []
  else
    let* sources := progressiveReportedPointSources result in
    Ok (signatures_where no_physical_evidence sources).
End Points.

(** ** Normalisation strips every NUL *)

Fixpoint without_nul (s : string) : string :=
  match s with
  | EmptyString => EmptyString
  | String c s' => if Ascii.eqb c nul_char then without_nul s' else String c (without_nul s')
  end.

Lemma prefix_nul (c : ascii) (s : string) : String.prefix nul (String c s) = Ascii.eqb c nul_char.
Proof.
  unfold nul. cbn [String.prefix]. destruct (ascii_dec nul_char c) as [<-|H].
  - rewrite Ascii.eqb_refl. by destruct s.
  - symmetry. apply Ascii.eqb_neq. congruence.
Qed.

Lemma substring_full (s : string) : forall n, (String.length s <= n)%nat -> String.substring 0 n s = s.
Proof.
  induction s as [|c s IH]; intros [|n] Hn; cbn in *; try done; [lia|]. f_equal. apply IH. lia.
Qed.

Lemma replaceAll_nul (s : string) : replaceAll s nul "" = without_nul s.
Proof.
  unfold replaceAll.
  assert (H : forall n, (String.length s <= n)%nat -> replaceAll_fuel n s nul "" = without_nul s);
    [|by apply H].
  induction s as [|c s IH]; intros [|n] Hn; cbn [String.length] in Hn; try done; [lia|].
  cbn [replaceAll_fuel without_nul]. rewrite prefix_nul. destruct (Ascii.eqb c nul_char).
  - change (String.length nul) with 1%nat. cbn [String.substring String.length].
    rewrite substring_full by lia. apply IH. lia.
  - f_equal. apply IH. lia.
Qed.

Lemma without_nul_lacks (s : string) : lacks nul_char (without_nul s) = true.
Proof.
  induction s as [|c s IH]; cbn [without_nul]; [done|].
  destruct (Ascii.eqb c nul_char) eqn:E; [done|]. unfold lacks in *. cbn. by rewrite E, IH.
Qed.

Lemma without_nul_id (s : string) : lacks nul_char s = true -> without_nul s = s.
Proof.
  unfold lacks. induction s as [|c s IH]; cbn; [done|]. intros [H1%negb_true_iff H2]%andb_true_iff.
  rewrite H1. f_equal. by apply IH.
Qed.

(** The reference: the same value without a NUL in a string or key, and without the
    properties named "__proto__". *)
Definition proto_free (e : string * jsval) : bool := negb (String.eqb (fst e) "__proto__").

Fixpoint stripped (v : jsval) : jsval :=
  match v with
  | JStr s => JStr (without_nul s)
  | JArr l => JArr (List.map stripped l)
  | JObj o => JObj (List.filter proto_free
      (List.map (fun e => match e with (k, item) => (without_nul k, stripped item) end) o))
  | _ => v
  end.

Definition stripped_fields (o : record) : record :=
  List.filter proto_free
    (List.map (fun e => match e with (k, item) => (without_nul k, stripped item) end) o).

(** No two keys of an object become the same key. *)
Fixpoint unmerged (v : jsval) : bool :=
  match v with
  | JArr l => forallb unmerged l
  | JObj o =>
      bool_decide (NoDup (keys (stripped_fields o))) &&
      forallb (fun e => match e with (_, item) => unmerged item end) o
  | _ => true
  end.

Abbreviation normalizes v := (forall path,
  if unmerged v then normalize v path = Ok (stripped v) else exists m, normalize v path = Throw m).

Lemma normalizeItems_spec (path : string) (l : list jsval) :
  Forall (fun v => normalizes v) l -> forall index,
  if forallb unmerged l then normalizeItems normalize path l index = Ok (List.map stripped l)
  else exists m, normalizeItems normalize path l index = Throw m.
Proof.
  induction 1 as [|v l Hv _ IH]; intros index; cbn [forallb]; [done|].
  cbn [normalizeItems]. specialize (Hv (path +:+ "[" +:+ Number_toString (of_nat index) +:+ "]")).
  fold (normalizeItems normalize path). destruct (unmerged v); cbn [andb].
  - rewrite Hv. cbn [bind_result]. specialize (IH (S index)). destruct (forallb unmerged l).
    + rewrite IH. done.
    + destruct IH as [m ->]. by exists m.
  - destruct Hv as [m ->]. by exists m.
Qed.

Lemma has_not_in (k : string) (o : record) : has k o = false <-> ~ In k (keys o).
Proof.
  unfold has, mem. rewrite existsb_false, List.Forall_forall. split.
  - intros H Hin. specialize (H k Hin). by rewrite String.eqb_refl in H.
  - intros H x Hx. apply String.eqb_neq. by intros ->.
Qed.

Lemma stripped_fields_cons (k : string) (v : jsval) (o : record) :
  stripped_fields ((k, v) :: o) =
  if String.eqb (without_nul k) "__proto__" then stripped_fields o
  else (without_nul k, stripped v) :: stripped_fields o.
Proof.
  unfold stripped_fields, proto_free. cbn [List.map List.filter fst snd].
  by destruct (String.eqb (without_nul k) "__proto__").
Qed.

Lemma normalizeFields_spec (path : string) (o : record) :
  Forall (fun e => normalizes (snd e)) o -> forall acc,
  NoDup (keys acc) -> ~ In "__proto__" (keys acc) ->
  if bool_decide (NoDup (keys (acc ++ stripped_fields o))) && forallb (fun e => unmerged (snd e)) o
  then normalizeFields normalize path o acc = Ok (acc ++ stripped_fields o)
  else exists m, normalizeFields normalize path o acc = Throw m.
Proof.
  induction 1 as [|[k v] o Hv _ IH]; intros acc Hn Hp.
  - cbn. rewrite app_nil_r, bool_decide_true by done. done.
  - rewrite stripped_fields_cons. cbn [normalizeFields forallb snd] in *.
    fold (normalizeFields normalize path). rewrite replaceAll_nul.
    destruct (has (without_nul k) acc) eqn:Eh.
    + assert (Hk : In (without_nul k) (keys acc)).
      { destruct (in_dec string_dec (without_nul k) (keys acc)) as [|H]; [done|].
        apply has_not_in in H. congruence. }
      destruct (String.eqb_spec (without_nul k) "__proto__") as [Ek|_]; [by rewrite Ek in Hk|].
      rewrite bool_decide_false; [eexists; reflexivity|].
      unfold keys. rewrite map_app. intros Hd%NoDup_ListNoDup. apply List.NoDup_remove_2 in Hd.
      apply Hd, in_app_iff. by left.
    + cbn [throw_if bind_result]. apply has_not_in in Eh.
      specialize (Hv (path +:+ "." +:+ without_nul k)). destruct (unmerged v); cbn [andb].
      2: { destruct Hv as [m ->]. rewrite andb_false_r. by exists m. }
      rewrite Hv. cbn [bind_result]. unfold assign.
      destruct (String.eqb_spec (without_nul k) "__proto__") as [Ek|Ek]; [by apply IH|].
      rewrite map_set_fresh by (by apply map_has_not_in).
      replace (acc ++ (without_nul k, stripped v) :: stripped_fields o)
        with ((acc ++ [(without_nul k, stripped v)]) ++ stripped_fields o) by by rewrite <- app_assoc.
      apply IH.
      * unfold keys. rewrite map_app. apply NoDup_ListNoDup, List.NoDup_app;
          [by apply NoDup_ListNoDup|repeat constructor; auto|]. by intros x Hx [<-|[]].
      * unfold keys. rewrite map_app, in_app_iff. by intros [?|[?|[]]].
Qed.

Lemma normalize_spec (v : jsval) : normalizes v.
Proof.
  induction v as [| | | | |l IH|o IH] using jsval_nested_ind; intros path; try done.
  - cbn. by rewrite replaceAll_nul.
  - cbn [unmerged normalize stripped]. pose proof (normalizeItems_spec path l IH 0) as H.
    destruct (forallb unmerged l); [by rewrite H|]. destruct H as [m ->]. by exists m.
  - cbn [unmerged normalize stripped].
    pose proof (normalizeFields_spec path o IH [] NoDup_nil_2 (fun H => H)) as H.
    cbn [app] in H. 
    replace (forallb (fun e => match e with (_, item) => unmerged item end) o)
      with (forallb (fun e => unmerged (snd e)) o) by (clear; induction o as [|[] o IH]; cbn; congruence).
    destruct (_ && _); [by rewrite H|]. destruct H as [m ->]. by exists m.
Qed.

(** Nothing to strip. *)
Fixpoint normal (v : jsval) : bool :=
  match v with
  | JStr s => lacks nul_char s
  | JArr l => forallb normal l
  | JObj o => forallb (fun e => match e with (k, item) =>
      lacks nul_char k && negb (String.eqb k "__proto__") && normal item end) o
  | _ => true
  end.

Lemma forallb_Forall_iff {A} (f : A -> bool) (l : list A) :
  forallb f l = true <-> Forall (fun x => f x = true) l.
Proof. by rewrite forallb_forall, List.Forall_forall. Qed.

Lemma stripped_normal (v : jsval) : normal (stripped v) = true.
Proof.
  induction v as [| | | | |l IH|o IH] using jsval_nested_ind; cbn; try done.
  - apply without_nul_lacks.
  - induction IH as [|v l Hv _ IH']; cbn; [done|]. by rewrite Hv.
  - induction IH as [|[k v] o Hv _ IH']; cbn [List.map List.filter forallb]; [done|].
    unfold proto_free at 1. cbn [fst snd] in *.
    destruct (String.eqb (without_nul k) "__proto__") eqn:E; cbn [negb forallb]; [done|].
    by rewrite without_nul_lacks, E, Hv.
Qed.

Lemma normal_stripped (v : jsval) : normal v = true -> stripped v = v.
Proof.
  induction v as [| | | | |l IH|o IH] using jsval_nested_ind; cbn; try done.
  - intros H. by rewrite without_nul_id.
  - intros H. f_equal. induction IH as [|v l Hv _ IH']; cbn in *; [done|].
    apply andb_true_iff in H as [H1 H2]. by rewrite Hv, IH'.
  - intros H. f_equal. induction IH as [|[k v] o Hv _ IH']; cbn [List.map List.filter forallb] in *; [done|].
    apply andb_true_iff in H as [H1 H2]. apply andb_true_iff in H1 as [H1 H3].
    apply andb_true_iff in H1 as [H1 Hp]. cbn [snd] in Hv. unfold proto_free at 1. cbn [fst].
    rewrite without_nul_id, Hp, Hv by done. f_equal. by apply IH'.
Qed.

Lemma stripped_unmerged (v : jsval) : unmerged v = true -> unmerged (stripped v) = true.
Proof.
  induction v as [| | | | |l IH|o IH] using jsval_nested_ind; cbn [unmerged stripped]; try done.
  - intros H. induction IH as [|v l Hv _ IH']; cbn in *; [done|].
    apply andb_true_iff in H as [H1 H2]. by rewrite Hv, IH'.
  - intros [Hn H]%andb_true_iff. pose proof (stripped_normal (JObj o)) as Hc.
    apply normal_stripped in Hc. cbn [stripped] in Hc. injection Hc as Hc.
    apply andb_true_iff. split.
    + fold (stripped_fields o). unfold stripped_fields in *. by rewrite Hc.
    + clear Hn Hc. induction IH as [|[k v] o Hv _ IH']; cbn [List.map List.filter forallb] in *; [done|].
      apply andb_true_iff in H as [H1 H2]. destruct (proto_free _); cbn [forallb]; [|auto].
      cbn [snd] in Hv. by rewrite Hv, IH'.
Qed.

(** Normalising a report removes every NUL of a string or key, and fails exactly
    when that would merge two keys of an object; what it returns has nothing left to
    remove and normalises to itself; a report with nothing to remove is unchanged. *)
Theorem normalize_strips (v : jsval) :
  (forall w, normalizeProgressiveRemoteReportJson v = Ok w <-> unmerged v = true /\ w = stripped v) /\
  (forall w, normalizeProgressiveRemoteReportJson v = Ok w ->
     normal w = true /\ normalizeProgressiveRemoteReportJson w = Ok w) /\
  (unmerged v = true -> normal v = true -> normalizeProgressiveRemoteReportJson v = Ok v).
Proof.
  unfold normalizeProgressiveRemoteReportJson.
  assert (H : forall v w, normalize v "$" = Ok w <-> unmerged v = true /\ w = stripped v).
  { intros u w. pose proof (normalize_spec u "$") as H. destruct (unmerged u).
    - rewrite H. naive_solver.
    - destruct H as [m ->]. naive_solver. }
  split; [apply H|]. split.
  - intros w [Hu ->]%H. split; [apply stripped_normal|]. apply H.
    split; [by apply stripped_unmerged|]. symmetry. apply normal_stripped, stripped_normal.
  - intros Hu Hn. apply H. split; [done|]. symmetry. by apply normal_stripped.
Qed.

(** ** The sources of a result *)

Lemma map_of_from {A} (es : list (string * A)) : forall m,
  List.NoDup (map_keys m) ->
  let r := fold_left (fun m e => map_set (fst e) (snd e) m) es m in
  List.NoDup (map_keys r) /\
  (forall k, In k (map_keys r) <-> In k (map_keys m) \/ In k (map_keys es)) /\
  (forall k x, In (k, x) r -> In (k, x) m \/ In (k, x) es).
Proof.
  induction es as [|[k x] es IH]; intros m Hm; cbn [fold_left fst snd].
  - split; [done|]. cbn. split; [tauto|]. by left.
  - destruct (IH (map_set k x m)) as (H1 & H2 & H3); [by apply map_set_nodup|].
    split; [done|]. split.
    + intros j. rewrite H2, map_keys_set. cbn. destruct (map_has k m) eqn:E.
      * apply map_has_in in E. intuition congruence.
      * rewrite in_app_iff. cbn. tauto.
    + intros j y Hy. destruct (H3 j y Hy) as [Hin|Hin]; [|right; by right].
      destruct (String.eqb_spec j k) as [->|Hj].
      * apply in_map_get in Hin; [|by apply map_set_nodup].
        rewrite map_get_set, String.eqb_refl in Hin. injection Hin as <-. right. by left.
      * apply in_map_get in Hin; [|by apply map_set_nodup].
        rewrite map_get_set in Hin. rewrite (proj2 (String.eqb_neq j k) Hj) in Hin.
        left. by apply map_get_some.
Qed.

Lemma map_of_spec {A} (es : list (string * A)) :
  List.NoDup (map_keys (map_of es)) /\
  (forall k, In k (map_keys (map_of es)) <-> In k (map_keys es)) /\
  (forall k x, In (k, x) (map_of es) -> In (k, x) es).
Proof.
  destruct (map_of_from es []) as (H1 & H2 & H3); [constructor|]. fold (map_of es) in *.
  split; [done|]. split; [intros k; rewrite H2; cbn; tauto|].
  intros k x H. destruct (H3 k x H) as [[]|]. done.
Qed.

(** A map of distinct keys is made in the order of its entries. *)
Lemma map_of_nodup {A} (es : list (string * A)) : List.NoDup (map_keys es) -> map_of es = es.
Proof.
  unfold map_of. assert (H : forall m, List.NoDup (map_keys (m ++ es)) ->
    fold_left (fun m e => map_set (fst e) (snd e) m) es m = m ++ es); [|by apply (H [])].
  induction es as [|[k x] es IH]; intros m Hn; cbn [fold_left fst snd]; [by rewrite app_nil_r|].
  unfold map_keys in Hn. rewrite map_app in Hn. cbn in Hn.
  pose proof (List.NoDup_remove_2 _ _ _ Hn) as Hk. rewrite in_app_iff in Hk.
  rewrite map_set_fresh by (apply map_has_not_in; unfold map_keys; tauto).
  rewrite IH; [by rewrite <- app_assoc|]. unfold map_keys. rewrite <- app_assoc, map_app. done.
Qed.

Abbreviation signed := (List.map (fun s => (contentSignature s, s))).

Lemma signed_keys (l : list PointSource) : map_keys (signed l) = List.map contentSignature l.
Proof. unfold map_keys. by rewrite List.map_map. Qed.

Lemma unique_sources_spec (l : list PointSource) :
  List.NoDup (List.map contentSignature (unique_sources l)) /\
  (forall s, In s (unique_sources l) -> In s l) /\
  (forall s, In s l -> exists s', In s' (unique_sources l) /\ contentSignature s' = contentSignature s).
Proof.
  destruct (map_of_spec (signed l)) as (H1 & H2 & H3). unfold unique_sources.
  assert (Hs : forall e, In e (map_of (signed l)) -> fst e = contentSignature (snd e) /\ In (snd e) l).
  { intros [k x] He. apply H3, in_map_iff in He as (s & [= <- <-] & Hin). done. }
  assert (Ek : List.map contentSignature (List.map snd (map_of (signed l))) = map_keys (map_of (signed l))).
  { unfold map_keys. rewrite List.map_map. apply map_ext_in. intros e He. symmetry. by apply Hs. }
  rewrite Ek. split; [done|]. split.
  - intros s (e & <- & He)%in_map_iff. by apply Hs.
  - intros s Hin. assert (Hk : In (contentSignature s) (map_keys (map_of (signed l)))).
    { apply H2. rewrite signed_keys. by apply in_map. }
    rewrite <- Ek in Hk. apply in_map_iff in Hk as (s' & ? & ?). eauto.
Qed.

Lemma unique_sources_id (l : list PointSource) :
  List.NoDup (List.map contentSignature l) -> unique_sources l = l.
Proof.
  intros H. unfold unique_sources. rewrite map_of_nodup by by rewrite signed_keys.
  rewrite List.map_map. apply List.map_id.
Qed.

Section Sources.
Context (localeCompare hostCompare : string -> string -> jsnum) (sha256 : string -> string).

Abbreviation sources_of := (progressiveReportedPointSources localeCompare sha256).
Abbreviation source_of := (point_source localeCompare sha256).

Lemma point_source_row result row s :
  source_of result row = Ok s -> row = (polar s, point s).
Proof. unfold point_source. intros (h & _ & [= <-])%bind_ok. by destruct row. Qed.

Lemma sources_spec result sources :
  sources_of result = Ok sources ->
  List.NoDup (List.map contentSignature sources) /\
  (forall s, In s sources ->
     In (polar s, point s) (reported result) /\ source_of result (polar s, point s) = Ok s) /\
  (forall row, In row (reported result) ->
     exists r s, source_of result row = Ok r /\ In s sources /\ contentSignature s = contentSignature r).
Proof.
  unfold progressiveReportedPointSources. intros (cs & Hc & [= <-])%bind_ok.
  apply result_map_ok in Hc. destruct (unique_sources_spec cs) as (H1 & H2 & H3).
  split; [done|]. split.
  - intros s Hs%H2. apply (Forall2_in_r _ _ _ s Hc) in Hs as (row & Hrow & Hs).
    pose proof (point_source_row _ _ _ Hs) as ->. done.
  - intros row Hrow. apply (Forall2_in_l _ _ _ row Hc) in Hrow as (r & Hr & Es).
    destruct (H3 r Hr) as (s & ? & ?). eauto.
Qed.

(** The points of a result are identified once each by what they were computed
    from, none is lost, and a physical cell resolves to a point exactly when that
    point is the only one reported in the cell. *)
Theorem resolve_unique result input sources :
  sources_of result = Ok sources ->
  isFinite (cell_alpha input) = true -> isFinite (cell_speed input) = true ->
  isFinite (cell_chord input) = true -> (cell_chord input <= 0)%js = false ->
  (cell_speed input < 0)%js = false ->
  (forall row, In row (reported result) ->
     exists r s, source_of result row = Ok r /\ In s sources /\ contentSignature s = contentSignature r) /\
  forall s, resolveProgressiveReportedPoint localeCompare sha256 result input = Ok s <->
    In s sources /\ in_cell input s = true /\
    (forall s', In s' sources -> in_cell input s' = true -> s' = s).
Proof.
  intros Hsrc Ha Hv Hc Hc0 Hv0. pose proof (sources_spec _ _ Hsrc) as (Hn & _ & Hall).
  split; [exact Hall|]. intros s. unfold resolveProgressiveReportedPoint.
  cbn [forallb]. rewrite Ha, Hv, Hc, Hc0, Hv0, Hsrc. cbn [negb andb orb throw_if bind_result].
  rewrite unique_sources_id by by apply nodup_map_filter.
  assert (Hf : forall x, In x (List.filter (in_cell input) sources) <->
    In x sources /\ in_cell input x = true) by (intros; apply filter_In).
  apply (nodup_map_filter contentSignature (in_cell input)), (NoDup_map_inv _ _) in Hn.
  destruct (List.filter (in_cell input) sources) as [|a [|b l]].
  - split; [done|]. intros (H1 & H2 & _). by destruct (proj2 (Hf s) (conj H1 H2)).
  - split.
    + intros [= <-]. destruct (proj1 (Hf a) (or_introl eq_refl)). split; [done|]. split; [done|].
      intros x H1 H2. by destruct (proj2 (Hf x) (conj H1 H2)) as [|[]].
    + intros (H1 & H2 & _). by destruct (proj2 (Hf s) (conj H1 H2)) as [->|[]].
  - split; [done|]. intros (_ & _ & H).
    destruct (proj1 (Hf a)) as [A1 A2]; [by left|]. destruct (proj1 (Hf b)) as [B1 B2]; [right; by left|].
    apply NoDup_cons_iff in Hn as [Hab _]. destruct Hab. rewrite (H a A1 A2), (H b B1 B2). by left.
Qed.

(** ** A point without physical evidence *)

Record bare (p : jsval) : Prop := {
  bare_coefficients : forall k, In k COEFFICIENTS -> nullish (prop k p) = true;
  bare_artifacts : has_items (prop "evidence_artifacts" p) = false;
  bare_history : forall k, In k HISTORIES -> nullish (prop k p) = true;
  bare_media : forall k, In k MEDIA -> nullish (prop k p) = true \/ has_keys (prop k p) = false;
  bare_explained : nullish (prop "failure_disposition" p) = false \/ nullish (prop "error" p) = false;
}.

Lemma no_items_has_items (v : jsval) : no_items v = true -> has_items v = false.
Proof.
  unfold no_items, has_items. intros [H%negb_true_iff|H]%orb_true_iff.
  - destruct v as [| |b|x|s|l|o]; cbn in H |- *; try done; try discriminate.
    destruct s; [|done]. vm_compute. reflexivity.
  - destruct (length_of v) as [| |b|x|s|l|o]; cbn in H |- *; try done.
    unfold js_lt. cbn. apply eqb_ord in H as (Hx & _ & E).
    apply ltb_false_ord; [done..|]. lia.
Qed.

Lemma retained_false (p : jsval) :
  progressivePointHasRetainedHistory p = false ->
  (forall k, In k HISTORIES -> nullish (prop k p) = true) /\
  (forall k, In k MEDIA -> nullish (prop k p) = true \/ has_keys (prop k p) = false).
Proof.
  unfold progressivePointHasRetainedHistory.
  intros [H1 H2]%orb_false_iff. apply existsb_false in H1, H2.
  rewrite List.Forall_forall in H1, H2. split; intros k Hk.
  - specialize (H1 k Hk). by apply negb_false_iff in H1.
  - specialize (H2 k Hk). apply andb_false_iff in H2 as [H2%negb_false_iff|]; auto.
Qed.

Lemma no_coefficient (p : jsval) :
  has_coefficient p = false -> forall k, In k COEFFICIENTS -> nullish (prop k p) = true.
Proof.
  intros H%existsb_false k Hk. rewrite List.Forall_forall in H. specialize (H k Hk).
  by apply negb_false_iff in H.
Qed.

Lemma no_physical_evidence_bare (p : jsval) : no_physical_evidence p = true -> bare p.
Proof.
  unfold no_physical_evidence. intros [H Hh%negb_true_iff]%andb_true_iff.
  apply andb_true_iff in H as [H He]. apply andb_true_iff in H as [Hc%negb_true_iff Ha].
  apply retained_false in Hh as [? ?]. split; [by apply no_coefficient|by apply no_items_has_items|done|done|].
  apply orb_true_iff in He as [?%negb_true_iff|?%negb_true_iff]; auto.
Qed.

Lemma diagnostic_bare (p : jsval) : is_diagnostic p = true -> bare p.
Proof.
  unfold is_diagnostic, progressiveReportedDiagnosticFailureKind.
  destruct (_ || progressivePointHasRetainedHistory p) eqn:E; [done|]. intros _.
  apply orb_false_iff in E as [E Hh]. apply orb_false_iff in E as [E Ha].
  apply orb_false_iff in E as [E Hc]. apply orb_false_iff in E as [Hk%negb_false_iff _].
  apply retained_false in Hh as [? ?]. split; [by apply no_coefficient|done|done|done|].
  left. by destruct (prop "failure_disposition" p).
Qed.

(** ** Attempts only *)

Lemma get_map_set (k k' : string) (v : jsval) (o : record) :
  get k (map_set k' v o) = if String.eqb k k' then v else get k o.
Proof.
  induction o as [|[j w] o IH]; cbn; [done|].
  destruct (String.eqb_spec k' j) as [<-|Hj]; cbn.
  - by destruct (String.eqb k k').
  - rewrite IH. destruct (String.eqb_spec k j), (String.eqb_spec k k'); congruence.
Qed.

Lemma prop_without_points (k : string) (polar : jsval) :
  k <> "points" -> prop k (without_points polar) = prop k polar.
Proof.
  intros Hk%String.eqb_neq. destruct polar; cbn; try by rewrite Hk.
  by rewrite get_map_set, Hk.
Qed.

Lemma prop_attempts_only (k : string) (result : jsval) :
  k <> "polars" -> prop k (attempts_only result) = prop k result.
Proof.
  intros Hk%String.eqb_neq. destruct result; cbn; try done. by rewrite get_map_set, Hk.
Qed.

Lemma polars_attempts_only (result : jsval) :
  items (prop "polars" (attempts_only result)) = List.map without_points (items (prop "polars" result)).
Proof. destruct result; cbn; try done. by rewrite get_map_set. Qed.

Lemma items_without_points (polar : jsval) : items (prop "points" (without_points polar)) = [].
Proof. destruct polar; cbn; try done. by rewrite get_map_set. Qed.

(** An attempt keeps its content when the accepted points are left out. *)
Lemma reported_attempts_only (result polar point : jsval) :
  In (polar, point) (reported (attempts_only result)) ->
  exists polar', In (polar', point) (reported result) /\
    point_content (attempts_only result) polar point = point_content result polar' point.
Proof.
  unfold reported. rewrite polars_attempts_only.
  intros (w & Hw & Hin)%in_flat_map. apply in_map_iff in Hw as (p & <- & Hp).
  rewrite items_without_points, prop_without_points in Hin by done. cbn [app] in Hin.
  apply in_map_iff in Hin as (q & [= <- <-] & Hq). exists p. split.
  - apply in_flat_map. exists p. split; [done|]. apply in_map, in_app_iff. by right.
  - unfold point_content. by rewrite !prop_without_points, prop_attempts_only by done.
Qed.

Lemma in_signatures_where (f : jsval -> bool) (sources : list PointSource) (sig : string) :
  In sig (signatures_where f sources) <->
  exists s, In s sources /\ f (point s) = true /\ contentSignature s = sig.
Proof.
  unfold signatures_where. rewrite in_dedup_strings, in_map_iff. split.
  - intros (s & E & [? ?]%filter_In). eauto.
  - intros (s & ? & ? & E). exists s. split; [done|]. by apply filter_In.
Qed.

Lemma diagnosticSignatures_bare report sigs sig :
  diagnosticSignatures localeCompare sha256 report = Ok sigs -> In sig sigs ->
  exists row, In row (reported (prop "result" report)) /\ bare (snd row) /\
    analysisContentHash localeCompare sha256
      (point_content (prop "result" report) (fst row) (snd row)) = Ok sig.
Proof.
  unfold diagnosticSignatures. destruct (negb _); [by intros [= <-]|].
  intros (sources & Hs & [= <-])%bind_ok. intros (s & Hin & Hd & <-)%in_signatures_where.
  destruct (sources_spec _ _ Hs) as (_ & H & _). destruct (H s Hin) as [Hr Hp].
  apply reported_attempts_only in Hr as (polar' & Hr & Ec).
  exists (polar', point s). split; [done|]. split; [by apply diagnostic_bare|].
  unfold point_source in Hp. apply bind_ok in Hp as (h & Hh & Es). cbn [fst snd] in *.
  rewrite <- Ec, Hh. f_equal. by apply (f_equal (fun r => match r with Ok s => contentSignature s | _ => "" end)) in Es.
Qed.

(** Only points without physical evidence count as such: a signature that a
    terminal report gives up is that of a reported point with no coefficient, no
    artifact, no retained history and no media, and with a failure; and when a
    terminal report as a whole has no physical evidence, it reports at least one
    attempt and every point of it is of that kind. *)
Theorem no_physical_evidence_sound report :
  (forall sigs sig,
     terminalReportNoPhysicalEvidenceSignatures localeCompare sha256 report = Ok sigs ->
     In sig sigs ->
     exists row, In row (reported (prop "result" report)) /\ bare (snd row) /\
       analysisContentHash localeCompare sha256
         (point_content (prop "result" report) (fst row) (snd row)) = Ok sig) /\
  (terminalReportHasNoPhysicalEvidence report = true ->
     reported (prop "result" report) <> [] /\
     forall row, In row (reported (prop "result" report)) -> bare (snd row)).
Proof.
  split.
  - intros sigs sig. unfold terminalReportNoPhysicalEvidenceSignatures.
    destruct (_ && _); [apply diagnosticSignatures_bare|].
    destruct (negb _); [by intros [= <-]|].
    intros (sources & Hs & [= <-])%bind_ok. intros (s & Hin & Hd & <-)%in_signatures_where.
    destruct (sources_spec _ _ Hs) as (_ & H & _). destruct (H s Hin) as [Hr Hp].
    exists (polar s, point s). split; [done|]. split; [by apply no_physical_evidence_bare|].
    unfold point_source in Hp. apply bind_ok in Hp as (h & Hh & Es).
    rewrite Hh. f_equal. by apply (f_equal (fun r => match r with Ok s => contentSignature s | _ => "" end)) in Es.
  - unfold terminalReportHasNoPhysicalEvidence. destruct (negb _); [done|].
    intros [H Ha]%andb_true_iff. apply andb_true_iff in H as [Hp%Nat.eqb_eq Hl%Nat.ltb_lt].
    apply length_zero_iff_nil in Hp. set (polars := items _) in *.
    rewrite forallb_forall in Ha. unfold reported. fold polars.
    assert (Hpts : forall p, In p polars -> items (prop "points" p) = []).
    { intros p Hin. destruct (items (prop "points" p)) as [|x l] eqn:E; [done|].
      assert (Hx : In x (List.flat_map (fun polar => items (prop "points" polar)) polars)).
      { apply in_flat_map. exists p. split; [done|]. rewrite E. by left. }
      by rewrite Hp in Hx. }
    split.
    + intros E. destruct (List.flat_map (fun polar => items (prop "attempts" polar)) polars) as [|a l] eqn:Ef;
        [cbn in Hl; lia|].
      assert (Hin : In a (a :: l)) by by left. rewrite <- Ef in Hin.
      apply in_flat_map in Hin as (p & Hp' & Hin).
      match type of E with ?x = _ => assert (Hr : In (p, a) x) end.
      { apply in_flat_map. exists p. split; [done|]. apply in_map, in_app_iff. by right. }
      by rewrite E in Hr.
    + intros row (p & Hin & Hr)%in_flat_map. rewrite (Hpts p Hin) in Hr. cbn [app] in Hr.
      apply in_map_iff in Hr as (q & <- & Hq). apply no_physical_evidence_bare, Ha.
      apply in_flat_map. eauto.
Qed.
End Sources.

(** The inventory lists every source once, under its own signature. *)
Theorem inventory_spec localeCompare hostCompare sha256 report inventory :
  progressiveRemoteReportInventory localeCompare hostCompare sha256 report = Ok inventory ->
  truthy (prop "result" report) = true ->
  exists sources,
    progressiveReportedPointSources localeCompare sha256 (prop "result" report) = Ok sources /\
    Permutation (inventory_sources inventory) (List.map inventory_source sources) /\
    List.NoDup (List.map point_content_signature (inventory_sources inventory)) /\
    analysisContentHash localeCompare sha256 report = Ok (reportContentSignature inventory).
Proof.
  unfold progressiveRemoteReportInventory. intros H Ht. rewrite Ht in H.
  apply bind_ok in H as (sources & Hs & (signature & Hg & (h & _ & [= <-])%bind_ok)%bind_ok).
  cbn [inventory_sources reportContentSignature]. exists sources. split; [done|].
  assert (Hp : Permutation (sort (bySignature hostCompare) (List.map inventory_source sources))
    (List.map inventory_source sources)) by (symmetry; apply sort_perm).
  split; [done|]. split; [|done].
  eapply Permutation_NoDup; [symmetry; apply Permutation_map, Hp|].
  rewrite List.map_map. apply (sources_spec _ _ _ _ Hs).
Qed.

(** A property named "__proto__" is dropped, whatever it holds. *)
Lemma normalize_drops_proto (x : jsnum) :
  normalizeProgressiveRemoteReportJson (JObj [("__proto__", JNum x)]) = Ok (JObj []).
Proof. reflexivity. Qed.

Definition with_nul (s : string) : string := String "a" (String nul_char s).

Example normalize_ex :
  normalizeProgressiveRemoteReportJson (JObj [("k", JArr [JStr (with_nul "b"); JNull])]) =
    Ok (JObj [("k", JArr [JStr "ab"; JNull])]) /\
  normalizeProgressiveRemoteReportJson (JArr [JObj [(with_nul "b", JNull); ("ab", JNull)]]) =
    Throw "Progressive report normalization would merge object keys at $[0]".
Proof. split; vm_compute; reflexivity. Qed.

Definition failed_attempt (aoa : jsnum) : jsval :=
  JObj [("aoa_deg", JNum aoa); ("case_slug", JStr "case"); ("converged", JBool false);
        ("failure_disposition", JStr "hard_solver"); ("cl", JNull)].

Definition failed_result : jsval :=
  JObj [("job_id", JStr "job"); ("state", JStr "failed");
        ("polars", JArr [JObj [("chord", JNum 1); ("speed", JNum 10); ("reynolds", JNum 100000);
           ("points", JArr []);
           ("attempts", JArr [failed_attempt 1; failed_attempt 2; failed_attempt 2])]])].

Definition failed_report : jsval := JObj [("result", failed_result); ("stopProof", JNull)].

Definition failed_cell : Cell :=
  {| cell_alpha := 2; cell_speed := 10; cell_chord := 1; cell_slug := Some "case" |}.

(** The hash of the witnesses: the text itself. *)
Definition plain_hash (s : string) : string := s.

Lemma failed_sources :
  exists sources, progressiveReportedPointSources code_units plain_hash failed_result = Ok sources /\
    length sources = 2%nat.
Proof. eexists. split; vm_compute; reflexivity. Qed.

Lemma resolve_unique_witness :
  exists sources, progressiveReportedPointSources code_units plain_hash failed_result = Ok sources /\
    forall row, In row (reported failed_result) ->
      exists r s, point_source code_units plain_hash failed_result row = Ok r /\ In s sources /\
        contentSignature s = contentSignature r.
Proof.
  destruct failed_sources as (sources & Hs & _). exists sources. split; [exact Hs|].
  exact (proj1 (resolve_unique code_units plain_hash failed_result failed_cell sources Hs
    eq_refl eq_refl eq_refl eq_refl eq_refl)).
Defined.

Lemma no_physical_evidence_sound_witness :
  terminalReportHasNoPhysicalEvidence failed_report = true /\
  reported failed_result <> [].
Proof.
  split; [vm_compute; reflexivity|].
  exact (proj1 (proj2 (no_physical_evidence_sound code_units plain_hash failed_report) eq_refl)).
Defined.
