(* ===== verification/RefreshCache.v ===== *)
(** * The stale-while-refresh cache

    [StaleWhileRefreshCache] of [packages/db/src/campaign-summary-metrics.ts]:
    a polled read model returns its last value at once and refreshes it in the
    background.  Entries are objects that the pending refresh and the map share:
    an entry is a reference into [heap].  An event is a call ([get], [warm],
    [clear]) or the settlement of a load; loads settle in any order.  The clock
    is read where the code reads it: the readings are parts of the events.

    [log] is not in the code: the settlements in the order they happen.  The
    theorems say that one load at most runs per key, that every value served is
    that of the last successful load of its key, and that eviction is least
    recently used and spares entries that are being refreshed. *)

From Stdlib Require Import ZArith Lia Bool Ascii String Sorting.Permutation Sorting.Sorted.
From Stdlib Require Import Floats.
From stdpp Require Import base list strings option numbers functions.
From S2P Require Import Prelude JsNumber JsArray JsMap.

Local Open Scope string_scope.
Local Open Scope list_scope.

Section Cache.
Context {V : Type}.

Abbreviation ref := nat.
Abbreviation promise := nat.

(** [CacheEntry]; an absent value is [undefined]. *)
Record CacheEntry := {
  value : option V;
  asOfMs : option jsnum;
  lastAccessMs : jsnum;
  refreshPromise : option promise;
  lastError : option string;
}.

Record options := { ttlMs : jsnum; maxEntries : jsnum }.

(** The checks of the constructor. *)
Definition constructor (o : options) : result options :=
  (let* _ := throw_if (negb (isFinite (ttlMs o)) || (ttlMs o <= 0)%js)
               "cache ttlMs must be positive" in
   let* _ := throw_if (negb (isInteger (maxEntries o)) || (maxEntries o <= 0)%js)
               "cache maxEntries must be a positive integer" in
   Ok o)%result.

(** How a load settles: at which reading of the clock, or with which message. *)
Inductive settlement := Resolved (v : option V) (now : jsnum) | Rejected (message : string).

(** A call of [load] by [startRefresh]; [outcome] is empty while it is pending. *)
Record load := { load_key : string; load_entry : ref; outcome : option settlement }.

Record state := {
  entries : list (string * ref);
  heap : ref -> CacheEntry;
  next : ref;
  loads : list load;
  hits : nat;
  misses : nat;
  staleHits : nat;
  refreshes : nat;
  log : list (ref * settlement);
}.

Definition blank (now : jsnum) : CacheEntry :=
  {| value := None; asOfMs := None; lastAccessMs := now; refreshPromise := None;
     lastError := None |}.

Definition initial : state :=
  {| entries := []; heap := fun _ => blank 0; next := 0; loads := []; hits := 0; misses := 0;
     staleHits := 0; refreshes := 0; log := [] |}.

(** Assignments to the fields of an entry. *)
Definition touch (now : jsnum) (e : CacheEntry) : CacheEntry :=
  {| value := value e; asOfMs := asOfMs e; lastAccessMs := now;
     refreshPromise := refreshPromise e; lastError := lastError e |}.
Definition set_promise (p : option promise) (e : CacheEntry) : CacheEntry :=
  {| value := value e; asOfMs := asOfMs e; lastAccessMs := lastAccessMs e;
     refreshPromise := p; lastError := lastError e |}.
Definition refreshed (v : option V) (now : jsnum) (_ : CacheEntry) : CacheEntry :=
  {| value := v; asOfMs := Some now; lastAccessMs := now; refreshPromise := None;
     lastError := None |}.
Definition refresh_failed (message : string) (e : CacheEntry) : CacheEntry :=
  {| value := value e; asOfMs := asOfMs e; lastAccessMs := lastAccessMs e;
     refreshPromise := None; lastError := Some message |}.

Definition set_heap (f : (ref -> CacheEntry) -> ref -> CacheEntry) (s : state) : state :=
  {| entries := entries s; heap := f (heap s); next := next s; loads := loads s; hits := hits s;
     misses := misses s; staleHits := staleHits s; refreshes := refreshes s; log := log s |}.
Definition set_entries (m : list (string * ref)) (s : state) : state :=
  {| entries := m; heap := heap s; next := next s; loads := loads s; hits := hits s;
     misses := misses s; staleHits := staleHits s; refreshes := refreshes s; log := log s |}.
Definition count (h m st : nat) (s : state) : state :=
  {| entries := entries s; heap := heap s; next := next s; loads := loads s;
     hits := h + hits s; misses := m + misses s; staleHits := st + staleHits s;
     refreshes := refreshes s; log := log s |}.

(** An object literal: a new reference. *)
Definition alloc (e : CacheEntry) (s : state) : state :=
  {| entries := entries s; heap := <[next s := e]> (heap s); next := S (next s);
     loads := loads s; hits := hits s; misses := misses s; staleHits := staleHits s;
     refreshes := refreshes s; log := log s |}.

(** ** Eviction *)

Definition idle (h : ref -> CacheEntry) (r : ref) : bool :=
  match refreshPromise (h r) with Some _ => false | None => true end.

Definition evictable (h : ref -> CacheEntry) (protectedKey : string) (e : string * ref) : bool :=
  negb (String.eqb (fst e) protectedKey) && idle h (snd e).

Definition byAccess (h : ref -> CacheEntry) (a b : string * ref) : jsnum :=
  (lastAccessMs (h (snd a)) - lastAccessMs (h (snd b)))%float.

Definition eviction (h : ref -> CacheEntry) (protectedKey : string) (m : list (string * ref)) :
    option (string * ref) :=
  head (sort (byAccess h) (List.filter (evictable h protectedKey) m)).

(** The [while] loop; every round deletes an entry. *)
Fixpoint prune_from (fuel : nat) (o : options) (h : ref -> CacheEntry) (protectedKey : string)
    (m : list (string * ref)) : list (string * ref) :=
  match fuel with
  | O => m
  | S n =>
      if (of_nat (length m) > maxEntries o)%js then
        match eviction h protectedKey m with
        | Some candidate => prune_from n o h protectedKey (map_delete (fst candidate) m)
        | None => m
        end
      else m
  end.

Definition prune (o : options) (protectedKey : string) (s : state) : state :=
  set_entries (prune_from (length (entries s)) o (heap s) protectedKey (entries s)) s.

(** ** Operations *)

(** [this.entries.get(key) ?? { lastAccessMs: now, lastError: null }] *)
Definition locate (key : string) (now : jsnum) (s : state) : state * ref :=
  match map_get key (entries s) with
  | Some r => (s, r)
  | None => (alloc (blank now) s, next s)
  end.

(** The call of [load] for the entry [r], up to [return refreshPromise]. *)
Definition begin_load (o : options) (key : string) (r : ref) (s : state) : state :=
  prune o key
    {| entries := map_set key r (entries s);
       heap := alter (set_promise (Some (length (loads s)))) r (heap s); next := next s;
       loads := loads s ++ [{| load_key := key; load_entry := r; outcome := None |}];
       hits := hits s; misses := misses s; staleHits := staleHits s;
       refreshes := S (refreshes s); log := log s |}.

(** [startRefresh(key, load)], at the reading [now] of the clock: the state and
    the promise it returns. *)
Definition startRefresh (o : options) (key : string) (now : jsnum) (s : state) : state * promise :=
  let '(s, r) := locate key now s in
  let s := set_heap (alter (touch now) r) s in
  match refreshPromise (heap s r) with
  | Some p => (s, p)
  | None => (begin_load o key r s, length (loads s))
  end.

Record StaleWhileRefreshValue := {
  reply : option V;
  asOf : jsnum;
  stale : bool;
  refreshing : bool;
  reply_error : option string;
}.

(** [get] returns at once, or awaits a refresh. *)
Inductive get_result := Returned (v : StaleWhileRefreshValue) | Awaits (p : promise).

Definition is_stale (o : options) (now since : jsnum) : bool := (now - since >= ttlMs o)%js.

(** [get(key, load)]; the clock is read again by [startRefresh]. *)
Definition get (o : options) (key : string) (now now' : jsnum) (s : state) : state * get_result :=
  let miss := let '(s, p) := startRefresh o key now' (count 0 1 0 s) in (s, Awaits p) in
  match map_get key (entries s) with
  | Some r =>
      match value (heap s r), asOfMs (heap s r) with
      | Some _, Some since =>
          let s := set_heap (alter (touch now) r) (count 1 0 0 s) in
          let old := is_stale o now since in
          let s := if old then fst (startRefresh o key now' (count 0 0 1 s)) else s in
          (s, Returned {| reply := value (heap s r); asOf := since; stale := old;
                          refreshing := negb (idle (heap s) r);
                          reply_error := lastError (heap s r) |})
      | _, _ => miss
      end
  | None => miss
  end.

(** The continuation of a [get] that awaited [p], at the reading [now]. *)
Definition get_resumed (key : string) (p : promise) (now : jsnum) (s : state) :
    option (result StaleWhileRefreshValue) :=
  match loads s !! p with
  | Some l =>
      match outcome l with
      | Some (Resolved v _) =>
          let since := map_get key (entries s) ≫= fun r => asOfMs (heap s r) in
          Some (Ok {| reply := v; asOf := default now since; stale := false;
                      refreshing := false; reply_error := None |})
      | Some (Rejected m) => Some (Throw m)
      | None => None
      end
  | None => None
  end.

(** [warm(key, load)] up to its [await]. *)
Definition warm (o : options) (key : string) (now now' : jsnum) (s : state) : state :=
  let refresh := fst (startRefresh o key now' s) in
  match map_get key (entries s) with
  | Some r =>
      match value (heap s r), asOfMs (heap s r) with
      | Some _, Some since => if (now - since < ttlMs o)%js then s else refresh
      | _, _ => refresh
      end
  | None => refresh
  end.

(** The load [p] has settled with [x], and its callback assigns [f] to the entry. *)
Definition settled (p : promise) (key : string) (r : ref) (x : settlement)
    (f : CacheEntry -> CacheEntry) (s : state) : state :=
  {| entries := entries s; heap := alter f r (heap s); next := next s;
     loads := <[p := {| load_key := key; load_entry := r; outcome := Some x |}]> (loads s);
     hits := hits s; misses := misses s; staleHits := staleHits s;
     refreshes := refreshes s; log := log s ++ [(r, x)] |}.

(** The callbacks of the load's promise. *)
Definition settle (o : options) (p : promise) (x : settlement) (s : state) : option state :=
  match loads s !! p with
  | Some {| load_key := key; load_entry := r; outcome := None |} =>
      Some match x with
      | Resolved v now =>
          let s := settled p key r x (refreshed v now) s in
          prune o key (set_entries (map_set key r (entries s)) s)
      | Rejected m =>
          let s := settled p key r x (refresh_failed m) s in
          match value (heap s r) with
          | None => set_entries (map_delete key (entries s)) s
          | Some _ => s
          end
      end
  | _ => None
  end.

Definition has (key : string) (s : state) : bool :=
  match map_get key (entries s) with
  | Some r => match value (heap s r) with Some _ => true | None => false end
  | None => false
  end.

Definition clear (s : state) : state :=
  {| entries := []; heap := heap s; next := next s; loads := loads s; hits := 0; misses := 0;
     staleHits := 0; refreshes := 0; log := log s |}.

Record StaleWhileRefreshStats := {
  stat_hits : nat; stat_misses : nat; stat_staleHits : nat; stat_refreshes : nat; size : nat }.

Definition stats (s : state) : StaleWhileRefreshStats :=
  {| stat_hits := hits s; stat_misses := misses s; stat_staleHits := staleHits s;
     stat_refreshes := refreshes s; size := length (entries s) |}.

(** ** Runs *)

Inductive event :=
  | Get (key : string) (now now' : jsnum)
  | Warm (key : string) (now now' : jsnum)
  | Settle (p : promise) (x : settlement)
  | Clear.

Definition step (o : options) (s : state) (e : event) : option state :=
  match e with
  | Get key now now' => Some (fst (get o key now now' s))
  | Warm key now now' => Some (warm o key now now' s)
  | Settle p x => settle o p x s
  | Clear => Some (clear s)
  end.

Fixpoint run (o : options) (s : state) (es : list event) : option state :=
  match es with
  | [] => Some s
  | e :: es' => match step o s e with Some s' => run o s' es' | None => None end
  end.

(** ** Eviction, proved *)

Lemma eviction_some (h : ref -> CacheEntry) (pk : string) (m : list (string * ref)) c :
  eviction h pk m = Some c -> In c m /\ fst c <> pk /\ idle h (snd c) = true.
Proof.
  unfold eviction. intros H. assert (Hc : In c (sort (byAccess h) (List.filter (evictable h pk) m))).
  { destruct (sort _ _); [done|]. injection H as ->. by left. }
  apply in_sort, filter_In in Hc as [Hm He]. unfold evictable in He.
  apply andb_true_iff in He as [Hk%negb_true_iff%String.eqb_neq Hi]. done.
Qed.

Section Prune.
Context (o : options) (h : ref -> CacheEntry) (pk : string).

Lemma prune_from_nodup (fuel : nat) : forall m,
  List.NoDup (map_keys m) -> List.NoDup (map_keys (prune_from fuel o h pk m)).
Proof.
  induction fuel as [|n IH]; intros m Hm; cbn; [done|].
  destruct (PrimFloat.ltb _ _); [|done]. destruct (eviction h pk m); [|done]. by apply IH, map_delete_nodup.
Qed.

(** What is protected or being refreshed stays; nothing is added. *)
Lemma prune_from_get (fuel : nat) : forall m k r,
  List.NoDup (map_keys m) ->
  (map_get k (prune_from fuel o h pk m) = Some r -> map_get k m = Some r) /\
  (map_get k m = Some r -> k = pk \/ idle h r = false ->
   map_get k (prune_from fuel o h pk m) = Some r).
Proof.
  induction fuel as [|n IH]; intros m k r Hm; cbn; [done|].
  destruct (PrimFloat.ltb _ _); [|done]. destruct (eviction h pk m) as [[kc rc]|] eqn:E; [|done].
  apply eviction_some in E as (Hc & Hpk & Hi). cbn in *.
  destruct (IH (map_delete kc m) k r (map_delete_nodup kc m Hm)) as [IH1 IH2].
  rewrite map_get_delete in IH1, IH2. destruct (String.eqb_spec k kc) as [->|_]; [|done].
  split; [intros H%IH1; done|]. intros Hr [->|Hb]; [done|].
  rewrite (in_map_get _ _ _ Hm Hc) in Hr. injection Hr as ->. congruence.
Qed.
End Prune.

Lemma prune_keeps (o : options) (pk k : string) (s : state) (r : ref) :
  List.NoDup (map_keys (entries s)) -> map_get k (entries s) = Some r ->
  k = pk \/ idle (heap s) r = false -> map_get k (entries (prune o pk s)) = Some r.
Proof. intros Hn. by apply prune_from_get. Qed.

Lemma prune_sub (o : options) (pk k : string) (s : state) (r : ref) :
  List.NoDup (map_keys (entries s)) -> map_get k (entries (prune o pk s)) = Some r ->
  map_get k (entries s) = Some r.
Proof. intros Hn. by apply prune_from_get. Qed.

(** ** The state follows the settlements *)

(** The settlements of the loads of an entry. *)
Definition history (r : ref) (l : list (ref * settlement)) : list settlement :=
  List.map snd (List.filter (fun e => Nat.eqb (fst e) r) l).

Definition last_success (h : list settlement) : option (option V * jsnum) :=
  fold_left (fun acc x => match x with Resolved v t => Some (v, t) | Rejected _ => acc end) h None.

Definition last_failure (h : list settlement) : option string :=
  fold_left (fun _ x => match x with Resolved _ _ => None | Rejected m => Some m end) h None.

Record mirrors (e : CacheEntry) (h : list settlement) : Prop := {
  mirrors_value : value e = last_success h ≫= fst;
  mirrors_asOf : asOfMs e = snd <$> last_success h;
  mirrors_error : lastError e = last_failure h;
}.

Lemma history_snoc (r r' : ref) (l : list (ref * settlement)) (x : settlement) :
  history r (l ++ [(r', x)]) = if Nat.eqb r' r then history r l ++ [x] else history r l.
Proof.
  unfold history. rewrite List.filter_app. cbn. destruct (Nat.eqb r' r); cbn.
  - by rewrite map_app.
  - by rewrite app_nil_r.
Qed.

Lemma mirrors_refreshed (e : CacheEntry) (h : list settlement) (v : option V) (now : jsnum) :
  mirrors (refreshed v now e) (h ++ [Resolved v now]).
Proof. split; unfold last_success, last_failure; by rewrite fold_left_app. Qed.

Lemma mirrors_failed (e : CacheEntry) (h : list settlement) (m : string) :
  mirrors e h -> mirrors (refresh_failed m e) (h ++ [Rejected m]).
Proof.
  intros [Hv Ha _]. split; unfold last_success, last_failure in *; by rewrite fold_left_app.
Qed.

Lemma mirrors_same (e e' : CacheEntry) (h : list settlement) :
  value e' = value e -> asOfMs e' = asOfMs e -> lastError e' = lastError e ->
  mirrors e h -> mirrors e' h.
Proof. intros ? ? ? [? ? ?]. split; congruence. Qed.

(** The map, the heap and the loads fit together. *)
Record wf (s : state) : Prop := {
  wf_keys : List.NoDup (map_keys (entries s));
  wf_refs : forall k r, map_get k (entries s) = Some r ->
    exists p l, loads s !! p = Some l /\ load_entry l = r /\ load_key l = k;
  wf_loads : forall p l, loads s !! p = Some l -> (load_entry l < next s)%nat;
  wf_one_key : forall p q l l', loads s !! p = Some l -> loads s !! q = Some l' ->
    load_entry l = load_entry l' -> load_key l = load_key l';
  wf_log : forall r x, In (r, x) (log s) ->
    exists p l, loads s !! p = Some l /\ load_entry l = r /\ outcome l = Some x;
  wf_view : forall r, mirrors (heap s r) (history r (log s));
}.

(** One load at most per entry, and the map holds the entry of a pending load. *)
Record single (s : state) : Prop := {
  single_pending : forall p l, loads s !! p = Some l -> outcome l = None ->
    map_get (load_key l) (entries s) = Some (load_entry l) /\
    refreshPromise (heap s (load_entry l)) = Some p;
  single_owner : forall r p, refreshPromise (heap s r) = Some p ->
    exists l, loads s !! p = Some l /\ outcome l = None /\ load_entry l = r;
}.

Lemma history_unused (s : state) (r : ref) :
  wf s -> (forall p l, loads s !! p = Some l -> load_entry l <> r) -> history r (log s) = [].
Proof.
  intros Hs Hr. unfold history.
  destruct (List.filter _ (log s)) as [|[r' x] l] eqn:E; [done|].
  assert (H : In (r', x) ((r', x) :: l)) by (by left).
  rewrite <- E in H. apply filter_In in H as [H Hb]. cbn in Hb. apply Nat.eqb_eq in Hb as ->.
  destruct (wf_log s Hs _ _ H) as (p & l' & Hl & He & _). by destruct (Hr p l' Hl).
Qed.

(** What [locate] gives: the entry of the key, or one that no load uses yet. *)
Definition located (key : string) (r : ref) (s : state) : Prop :=
  (r < next s)%nat /\
  (map_get key (entries s) = Some r \/
   map_get key (entries s) = None /\ refreshPromise (heap s r) = None /\
   forall p l, loads s !! p = Some l -> load_entry l <> r).

Lemma located_next (key : string) (s : state) (r : ref) :
  wf s -> map_get key (entries s) = Some r -> (r < next s)%nat.
Proof. intros Hs Hr. destruct (wf_refs s Hs _ _ Hr) as (p & l & Hl & <- & _). by eapply wf_loads. Qed.

Lemma alloc_wf (now : jsnum) (s : state) : wf s -> wf (alloc (blank now) s).
Proof.
  intros Hs. pose proof (wf_loads s Hs) as Hl. split; cbn [entries heap loads log next alloc]; try apply Hs.
  - intros p l H. specialize (Hl p l H). lia.
  - intros r. destruct (decide (r = next s)) as [->|Hne].
    + rewrite fn_lookup_insert, (history_unused s); [by split|done|].
      intros p l H. specialize (Hl p l H). lia.
    + rewrite fn_lookup_insert_ne by done. apply Hs.
Qed.

Lemma alloc_single (now : jsnum) (s : state) : wf s -> single s -> single (alloc (blank now) s).
Proof.
  intros Hs [Hp Ho]. split; cbn.
  - intros p l Hl Hn. destruct (Hp p l Hl Hn) as [Hm He]. split; [done|].
    pose proof (wf_loads s Hs p l Hl). by rewrite fn_lookup_insert_ne by lia.
  - intros r p. destruct (decide (r = next s)) as [->|Hne].
    + by rewrite fn_lookup_insert.
    + rewrite fn_lookup_insert_ne by done. apply Ho.
Qed.

Lemma locate_spec (key : string) (now : jsnum) (s : state) :
  wf s ->
  let '(s', r) := locate key now s in
  wf s' /\ (single s -> single s') /\ located key r s' /\
  entries s' = entries s /\ loads s' = loads s /\ log s' = log s /\
  (map_get key (entries s) = Some r -> s' = s).
Proof.
  intros Hs. unfold locate. destruct (map_get key (entries s)) as [r|] eqn:E.
  - split; [done|]. split; [done|]. split; [split; [by eapply located_next|by left]|]. done.
  - split; [by apply alloc_wf|]. split; [by apply alloc_single|]. split; [|done].
    split; [cbn; lia|]. right. cbn. rewrite fn_lookup_insert. split; [done|]. split; [done|].
    intros p l H. pose proof (wf_loads s Hs p l H). lia.
Qed.

(** An assignment that keeps the fields the invariants read. *)
Section Assign.
Context (f : CacheEntry -> CacheEntry) (r : ref) (s : state).

Lemma assign_wf :
  (forall h, mirrors (heap s r) h -> mirrors (f (heap s r)) h) -> wf s ->
  wf (set_heap (alter f r) s).
Proof.
  intros Hf Hs. destruct Hs. split; try done. intros r'. cbn.
  destruct (decide (r' = r)) as [->|Hne].
  - rewrite fn_lookup_alter. auto.
  - by rewrite fn_lookup_alter_ne.
Qed.

Lemma assign_promise (r' : ref) :
  refreshPromise (f (heap s r)) = refreshPromise (heap s r) ->
  refreshPromise (heap (set_heap (alter f r) s) r') = refreshPromise (heap s r').
Proof.
  intros Hf. cbn. destruct (decide (r' = r)) as [->|Hne].
  - by rewrite fn_lookup_alter.
  - by rewrite fn_lookup_alter_ne.
Qed.

Lemma assign_single :
  refreshPromise (f (heap s r)) = refreshPromise (heap s r) -> single s ->
  single (set_heap (alter f r) s).
Proof.
  intros Hf [Hp Ho]. split.
  - intros p l. rewrite assign_promise by done. apply Hp.
  - intros r' p. rewrite assign_promise by done. apply Ho.
Qed.
End Assign.

Lemma touch_mirrors (now : jsnum) (e : CacheEntry) h : mirrors e h -> mirrors (touch now e) h.
Proof. by apply mirrors_same. Qed.

Lemma touch_wf (now : jsnum) (r : ref) (s : state) : wf s -> wf (set_heap (alter (touch now) r) s).
Proof. apply assign_wf. intros h. apply touch_mirrors. Qed.

Lemma touch_single (now : jsnum) (r : ref) (s : state) :
  single s -> single (set_heap (alter (touch now) r) s).
Proof. by apply assign_single. Qed.

Lemma count_wf (h m st : nat) (s : state) : wf s -> wf (count h m st s).
Proof. intros []. by split. Qed.

Lemma count_single (h m st : nat) (s : state) : single s -> single (count h m st s).
Proof. intros []. by split. Qed.

Lemma prune_wf (o : options) (pk : string) (s : state) : wf s -> wf (prune o pk s).
Proof.
  intros Hs. pose proof (wf_keys s Hs). split; try apply Hs.
  - by apply prune_from_nodup.
  - intros k r Hr%prune_sub; [|done]. by apply (wf_refs s Hs).
Qed.

Lemma prune_single (o : options) (pk : string) (s : state) :
  wf s -> single s -> single (prune o pk s).
Proof.
  intros Hs [Hp Ho]. split; [|done]. intros p l Hl Hn. destruct (Hp p l Hl Hn) as [Hm He].
  split; [|done]. apply prune_keeps; [apply Hs|done|]. right. unfold idle. cbn. by rewrite He.
Qed.

(** ** Starting a load *)

Section BeginLoad.
Context (o : options) (key : string) (r : ref) (s : state).
Context (Hs : wf s) (Hr : located key r s) (Hidle : refreshPromise (heap s r) = None).

Let started := begin_load o key r s.

Lemma begin_load_key (p : promise) (l : load) :
  loads s !! p = Some l -> load_entry l = r -> load_key l = key.
Proof.
  intros Hl He. destruct Hr as (_ & [Hm|(_ & _ & Hnone)]); [|by destruct (Hnone p l Hl)].
  destruct (wf_refs s Hs _ _ Hm) as (q & l' & Hl' & He' & <-).
  eapply (wf_one_key s Hs); [done|done|congruence].
Qed.

Lemma started_lookup (p : promise) (l : load) :
  loads started !! p = Some l <->
  loads s !! p = Some l \/
  p = length (loads s) /\ l = {| load_key := key; load_entry := r; outcome := None |}.
Proof.
  cbn. destruct (decide (p = length (loads s))) as [->|Hne].
  - rewrite list_lookup_middle by done. rewrite lookup_ge_None_2 by lia. naive_solver.
  - destruct (decide (p < length (loads s))%nat).
    + rewrite lookup_app_l by done. naive_solver.
    + rewrite !lookup_ge_None_2 by (rewrite ?length_app; cbn; lia). naive_solver.
Qed.

Lemma begin_load_wf : wf started.
Proof.
  apply prune_wf. split; cbn [entries heap loads log next].
  - apply map_set_nodup, Hs.
  - intros k r'. rewrite map_get_set. destruct (String.eqb_spec k key) as [->|_].
    + intros [= <-]. eexists _, _. split; [apply started_lookup; by right|done].
    + intros H. destruct (wf_refs s Hs _ _ H) as (p & l & Hl & ?).
      exists p, l. split; [apply started_lookup; by left|done].
  - intros p l [H|[-> ->]]%started_lookup; [by apply (wf_loads s Hs p)|apply Hr].
  - intros p q l l' [H|[-> ->]]%started_lookup [H'|[-> ->]]%started_lookup; cbn; intros E.
    + by eapply (wf_one_key s Hs p q).
    + by eapply begin_load_key.
    + symmetry. by eapply begin_load_key.
    + done.
  - intros r' x H. destruct (wf_log s Hs _ _ H) as (p & l & Hl & ?).
    exists p, l. split; [apply started_lookup; by left|done].
  - intros r'. refine (wf_view _ (assign_wf (set_promise (Some (length (loads s)))) r s _ Hs) r').
    intros h. by apply mirrors_same.
Qed.

Lemma begin_load_single : single s -> single started.
Proof.
  intros Hg. pose proof begin_load_wf as Hwf. destruct Hg as [Hp Ho]. split.
  - intros p l [H|[-> ->]]%started_lookup Hn.
    + destruct (Hp p l H Hn) as [Hm He].
      assert (load_entry l <> r) by congruence.
      assert (Hne : load_key l <> key).
      { intros <-. destruct Hr as (_ & [Hk|(Hk & _)]); congruence. }
      split.
      * apply prune_keeps; cbn [entries heap]; [apply map_set_nodup, Hs| |].
        -- rewrite map_get_set. by destruct (String.eqb_spec (load_key l) key).
        -- right. unfold idle. by rewrite fn_lookup_alter_ne, He.
      * cbn. by rewrite fn_lookup_alter_ne.
    + split.
      * apply prune_keeps; cbn [entries heap]; [apply map_set_nodup, Hs| |by left].
        cbn. by rewrite map_get_set, String.eqb_refl.
      * cbn. by rewrite fn_lookup_alter.
  - intros r' p. cbn [heap started begin_load prune set_entries]. destruct (decide (r' = r)) as [->|Hne].
    + rewrite fn_lookup_alter. cbn. intros [= <-]. eexists.
      split; [apply started_lookup; by right|done].
    + rewrite fn_lookup_alter_ne by done. intros H. destruct (Ho _ _ H) as (l & Hl & ?).
      exists l. split; [apply started_lookup; by left|done].
Qed.
End BeginLoad.

(** What [startRefresh] promises: its promise is the pending load of the key. *)
Lemma startRefresh_spec (o : options) (key : string) (now : jsnum) (s : state) :
  wf s ->
  let '(s', p) := startRefresh o key now s in
  wf s' /\ log s' = log s /\
  (single s -> single s' /\
     exists l, loads s' !! p = Some l /\ outcome l = None /\ load_key l = key) /\
  (loads s' = loads s \/
   exists r, loads s' = loads s ++ [{| load_key := key; load_entry := r; outcome := None |}] /\
     (single s -> forall p' l, loads s !! p' = Some l -> load_key l = key -> outcome l <> None)).
Proof.
  intros Hs. unfold startRefresh. pose proof (locate_spec key now s Hs) as Hloc.
  destruct (locate key now s) as [s1 r]. destruct Hloc as (H1 & Hsingle & Hr & He & Hl & Hg & _).
  set (s2 := set_heap (alter (touch now) r) s1).
  assert (H2 : wf s2) by (by apply touch_wf).
  assert (Hr2 : located key r s2).
  { destruct Hr as (? & [?|(? & ? & ?)]); split; [done|by left|done|]. right.
    split; [done|]. split; [|done]. unfold s2. by rewrite assign_promise. }
  assert (Hp : refreshPromise (heap s2 r) = refreshPromise (heap s1 r)) by (by apply assign_promise).
  destruct (refreshPromise (heap s2 r)) as [p|] eqn:E.
  - split; [done|]. split; [done|]. split; [|by left]. intros Hsg. apply Hsingle in Hsg.
    split; [by apply touch_single|].
    destruct (single_owner s1 Hsg r p) as (l & Hpl & Ho & Hre); [congruence|].
    exists l. split; [done|]. split; [done|].
    destruct Hr as (_ & [Hm|(_ & Hnone & _)]); [|congruence].
    destruct (wf_refs s1 H1 _ _ Hm) as (q & l' & Hl' & He' & <-).
    eapply (wf_one_key s1 H1); [done|done|congruence].
  - split; [by apply begin_load_wf|]. split; [done|]. split.
    + intros Hsg. apply Hsingle in Hsg. split.
      * apply begin_load_single; [done..|]. by apply touch_single.
      * eexists. split; [apply started_lookup; by right|done].
    + right. exists r. split; [cbn; by rewrite Hl|]. intros Hsg p' l Hpl Hkey Hn.
      destruct (single_pending s Hsg p' l Hpl Hn) as [Hm Hpr].
      apply Hsingle in Hsg. destruct (single_pending s1 Hsg p' l) as [Hm1 Hp1]; [congruence|done|].
      destruct Hr as (_ & [Hk|(Hk & _)]); congruence.
Qed.

(** ** Settling a load *)

Lemma set_entry_wf (key : string) (r : ref) (s : state) :
  (exists p l, loads s !! p = Some l /\ load_entry l = r /\ load_key l = key) -> wf s ->
  wf (set_entries (map_set key r (entries s)) s).
Proof.
  intros Hr Hs. split; try apply Hs; cbn [entries loads set_entries].
  - apply map_set_nodup, Hs.
  - intros k r'. rewrite map_get_set. destruct (String.eqb_spec k key) as [->|_].
    + by intros [= <-].
    + apply Hs.
Qed.

Lemma delete_entry_wf (key : string) (s : state) :
  wf s -> wf (set_entries (map_delete key (entries s)) s).
Proof.
  intros Hs. split; try apply Hs; cbn [entries loads set_entries].
  - apply map_delete_nodup, Hs.
  - intros k r'. rewrite map_get_delete. destruct (String.eqb_spec k key); [done|]. apply Hs.
Qed.

Section Settle.
Context (p : promise) (key : string) (r : ref) (x : settlement) (s : state).
Context (Hs : wf s)
  (Hp : loads s !! p = Some {| load_key := key; load_entry := r; outcome := None |}).
Context (f : CacheEntry -> CacheEntry).
Context (Hf : forall e h, mirrors e h -> mirrors (f e) (h ++ [x])).
Context (Hdone : forall e, refreshPromise (f e) = None).

Abbreviation after := (settled p key r x f s).

Lemma settled_lookup (q : promise) (l : load) :
  loads after !! q = Some l <->
  q = p /\ l = {| load_key := key; load_entry := r; outcome := Some x |} \/
  q <> p /\ loads s !! q = Some l.
Proof.
  cbn. destruct (decide (q = p)) as [->|Hne].
  - rewrite list_lookup_insert_eq by (by apply lookup_lt_Some in Hp). naive_solver.
  - rewrite list_lookup_insert_ne by done. naive_solver.
Qed.

(** The settlement changes neither the key nor the entry of a load. *)
Lemma settled_same (q : promise) (l : load) :
  loads after !! q = Some l ->
  exists l', loads s !! q = Some l' /\ load_entry l' = load_entry l /\ load_key l' = load_key l.
Proof. intros [[-> ->]|[_ H]]%settled_lookup; eauto. Qed.

Lemma settled_kept (q : promise) (l : load) :
  loads s !! q = Some l ->
  exists l', loads after !! q = Some l' /\ load_entry l' = load_entry l /\
    load_key l' = load_key l /\ (forall y, outcome l = Some y -> outcome l' = Some y).
Proof.
  intros H. destruct (decide (q = p)) as [->|Hne].
  - rewrite Hp in H. injection H as <-. eexists. split; [apply settled_lookup; by left|].
    done.
  - exists l. split; [apply settled_lookup; by right|done].
Qed.

Lemma settled_wf : wf after.
Proof.
  split; cbn [entries heap next log settled].
  - apply Hs.
  - intros k r' H. destruct (wf_refs s Hs _ _ H) as (q & l & Hl & <- & <-).
    destruct (settled_kept q l Hl) as (l' & ? & ? & ? & _). eauto.
  - intros q l (l' & Hl & <- & _)%settled_same. by eapply wf_loads.
  - intros q q' l l' (m & Hm & <- & <-)%settled_same (m' & Hm' & <- & <-)%settled_same.
    by eapply (wf_one_key s Hs).
  - intros r' y [H|[[= <- <-]|[]]]%in_app_iff.
    + destruct (wf_log s Hs _ _ H) as (q & l & Hl & <- & Ho).
      destruct (settled_kept q l Hl) as (l' & ? & ? & _ & Hy). exists q, l'. auto.
    + eexists p, _. split; [apply settled_lookup; by left|done].
  - intros r'. rewrite history_snoc. destruct (Nat.eqb_spec r r') as [<-|Hne].
    + rewrite fn_lookup_alter. apply Hf, Hs.
    + rewrite fn_lookup_alter_ne by done. apply Hs.
Qed.

Context (Hg : single s).

Lemma settled_owner_entry : refreshPromise (heap s r) = Some p.
Proof. by destruct (single_pending s Hg p _ Hp). Qed.

(** The other pending loads are of other keys. *)
Lemma settled_other (q : promise) (l : load) :
  loads after !! q = Some l -> outcome l = None ->
  loads s !! q = Some l /\ load_entry l <> r /\ load_key l <> key.
Proof.
  intros [[-> ->]|[Hq H]]%settled_lookup; [done|]. intros Hn.
  destruct (single_pending s Hg q l H Hn) as [Hm He].
  destruct (single_pending s Hg p _ Hp eq_refl) as [Hm' He']. cbn in Hm', He'.
  split; [done|]. split; [|intros Hk; rewrite Hk in Hm]; intros; congruence.
Qed.

Lemma settled_single (m : list (string * ref)) :
  (forall k, k <> key -> map_get k m = map_get k (entries s)) -> single (set_entries m after).
Proof.
  intros Hm. split; cbn [entries heap loads set_entries settled].
  - intros q l Hl Hn. destruct (settled_other q l Hl Hn) as (H & He & Hk).
    rewrite Hm, fn_lookup_alter_ne by done. by apply Hg.
  - intros r' q. destruct (decide (r' = r)) as [->|Hne].
    + by rewrite fn_lookup_alter, Hdone.
    + rewrite fn_lookup_alter_ne by done. intros H.
      destruct (single_owner s Hg _ _ H) as (l & Hl & Ho & Hr).
      exists l. split; [|done]. apply settled_lookup. right. split; [|done]. intros ->.
      rewrite Hp in Hl. injection Hl as <-. done.
Qed.
End Settle.

Lemma settle_inv (o : options) (p : promise) (x : settlement) (s s' : state) :
  settle o p x s = Some s' -> wf s -> wf s' /\ (single s -> single s').
Proof.
  unfold settle. destruct (loads s !! p) as [[key r [|]]|] eqn:Hp; [done| |done].
  intros [= <-] Hs. destruct x as [v now|m].
  - set (s1 := settled p key r (Resolved v now) (refreshed v now) s).
    assert (H1 : wf s1) by (apply (settled_wf _ _ _ _ _ Hs Hp); intros e h _; apply mirrors_refreshed).
    assert (H2 : wf (set_entries (map_set key r (entries s1)) s1)).
    { apply set_entry_wf; [|done]. exists p, {| load_key := key; load_entry := r; outcome := Some (Resolved v now) |}.
      split; [|done]. apply settled_lookup; [done|]. by left. }
    split; [by apply prune_wf|]. intros Hg. apply prune_single; [done|].
    apply settled_single; [done..|]. intros k Hk. rewrite map_get_set.
    by destruct (String.eqb_spec k key).
  - set (s1 := settled p key r (Rejected m) (refresh_failed m) s).
    assert (H1 : wf s1) by (apply (settled_wf _ _ _ _ _ Hs Hp); intros e h; apply mirrors_failed).
    destruct (value (alter (refresh_failed m) r (heap s) r)).
    + split; [exact H1|]. intros Hg. by apply (settled_single p key r (Rejected m) s Hp (refresh_failed m) (fun _ => eq_refl) Hg (entries s)).
    + split; [exact (delete_entry_wf key s1 H1)|]. intros Hg. apply settled_single; [done..|].
      intros k Hk. rewrite map_get_delete. by destruct (String.eqb_spec k key).
Qed.

(** ** The operations keep the invariants *)

Lemma startRefresh_key (o : options) (key : string) (now : jsnum) (s : state) (r : ref) :
  wf s -> map_get key (entries s) = Some r ->
  map_get key (entries (fst (startRefresh o key now s))) = Some r.
Proof.
  intros Hs Hr. unfold startRefresh, locate. rewrite Hr. cbv zeta beta iota.
  destruct (refreshPromise _); cbn [fst]; [exact Hr|]. apply prune_keeps; [apply map_set_nodup, Hs| |by left].
  cbn. by rewrite map_get_set, String.eqb_refl.
Qed.

Lemma startRefresh_inv (o : options) (key : string) (now : jsnum) (s : state) :
  wf s -> wf (fst (startRefresh o key now s)) /\
  (single s -> single (fst (startRefresh o key now s))).
Proof.
  intros Hs. pose proof (startRefresh_spec o key now s Hs) as H.
  destruct (startRefresh o key now s) as [s' p]. destruct H as (? & _ & H & _).
  split; [done|]. intros Hg. by destruct (H Hg).
Qed.

Lemma get_inv (o : options) (key : string) (t t' : jsnum) (s : state) :
  wf s -> wf (fst (get o key t t' s)) /\ (single s -> single (fst (get o key t t' s))).
Proof.
  intros Hs. unfold get.
  assert (Hmiss : let s' := fst (let '(s, p) := startRefresh o key t' (count 0 1 0 s) in
                                 (s, Awaits p)) in wf s' /\ (single s -> single s')).
  { destruct (startRefresh_inv o key t' (count 0 1 0 s) (count_wf _ _ _ s Hs)) as [H1 H2].
    destruct (startRefresh _ _ _ _). split; [done|]. intros Hg. by apply H2, count_single. }
  destruct (map_get key (entries s)) as [r|]; [|exact Hmiss].
  destruct (value (heap s r)), (asOfMs (heap s r)); [|exact Hmiss..]. cbn [fst].
  set (s1 := set_heap _ _). assert (H1 : wf s1) by (by apply touch_wf, count_wf).
  assert (Hg1 : single s -> single s1) by (intros; by apply touch_single, count_single).
  destruct (is_stale _ _ _); [|done].
  destruct (startRefresh_inv o key t' (count 0 0 1 s1) (count_wf _ _ _ s1 H1)) as [H2 H3].
  split; [done|]. intros Hg. by apply H3, count_single, Hg1.
Qed.

Lemma warm_inv (o : options) (key : string) (t t' : jsnum) (s : state) :
  wf s -> wf (warm o key t t' s) /\ (single s -> single (warm o key t t' s)).
Proof.
  intros Hs. pose proof (startRefresh_inv o key t' s Hs) as H. unfold warm.
  destruct (map_get key (entries s)) as [r|]; [|done].
  destruct (value (heap s r)), (asOfMs (heap s r)); [|done..]. by destruct (PrimFloat.ltb _ _).
Qed.

Lemma clear_wf (s : state) : wf s -> wf (clear s).
Proof. intros Hs. split; [constructor|done|apply Hs..]. Qed.

Definition clears (e : event) : bool := match e with Clear => true | _ => false end.

Lemma step_inv (o : options) (s s' : state) (e : event) :
  step o s e = Some s' -> wf s -> wf s' /\ (clears e = false -> single s -> single s').
Proof.
  destruct e; cbn [step clears].
  - intros [= <-] Hs. destruct (get_inv o key now now' s Hs). auto.
  - intros [= <-] Hs. destruct (warm_inv o key now now' s Hs). auto.
  - intros H Hs. destruct (settle_inv o p x s s' H Hs). auto.
  - intros [= <-] Hs. by split; [apply clear_wf|].
Qed.

Lemma initial_wf : wf initial.
Proof. split; try done. constructor. Qed.

Lemma initial_single : single initial.
Proof. by split. Qed.

Lemma run_inv (o : options) (es : list event) : forall s s',
  run o s es = Some s' -> wf s ->
  wf s' /\ (Forall (fun e => clears e = false) es -> single s -> single s').
Proof.
  induction es as [|e es IH]; cbn [run]; intros s s'.
  - by intros [= <-].
  - destruct (step o s e) as [s1|] eqn:E; [|done]. intros H Hs.
    destruct (step_inv o s s1 e E Hs) as [H1 Hg1]. destruct (IH s1 s' H H1) as [H2 Hg2].
    split; [done|]. intros [? ?]%Forall_cons_iff ?. auto.
Qed.

(** ** Single flight *)

Definition pending (s : state) (key : string) (p : promise) : Prop :=
  exists l, loads s !! p = Some l /\ load_key l = key /\ outcome l = None.

Lemma single_pending_unique (s : state) (key : string) (p q : promise) :
  single s -> pending s key p -> pending s key q -> p = q.
Proof.
  intros Hg (l & Hl & Hk & Ho) (l' & Hl' & Hk' & Ho').
  destruct (single_pending s Hg p l Hl Ho) as [Hm He].
  destruct (single_pending s Hg q l' Hl' Ho') as [Hm' He'].
  rewrite Hk in Hm. rewrite Hk' in Hm'. congruence.
Qed.

(** [startRefresh] loads once: it joins the pending load of the key. *)
Lemma startRefresh_loads (o : options) (key : string) (now : jsnum) (s : state) :
  wf s -> single s ->
  let '(s', p) := startRefresh o key now s in
  pending s' key p /\ (loads s' = loads s \/
    (forall q, ~ pending s key q) /\ exists l, loads s' = loads s ++ [l]).
Proof.
  intros Hs Hg. pose proof (startRefresh_spec o key now s Hs) as H.
  destruct (startRefresh o key now s) as [s' p].
  destruct H as (_ & _ & (_ & l & Hl & Ho & Hk)%(fun f => f Hg) & Hloads).
  split; [by exists l|]. destruct Hloads as [H|(r & H & Hn)]; [by left|]. right.
  split; [|by eexists]. intros q (l' & Hl' & Hk' & Ho'). by apply (Hn Hg q l').
Qed.

(** What a [get] starts. *)
Definition get_starts (o : options) (key : string) (now : jsnum) (s s' : state)
    (res : get_result) : Prop :=
  match res with
  | Returned v =>
      stale v = is_stale o now (asOf v) /\
      (if stale v
       then refreshing v = true /\ exists p, pending s' key p
       else loads s' = loads s)
  | Awaits p => pending s' key p
  end /\
  (loads s' = loads s \/ (forall q, ~ pending s key q) /\ exists l, loads s' = loads s ++ [l]).

Lemma get_starts_spec (o : options) (key : string) (t t' : jsnum) (s : state) :
  wf s -> single s -> let '(s', res) := get o key t t' s in get_starts o key t s s' res.
Proof.
  intros Hs Hg. unfold get, get_starts.
  assert (Hmiss : let '(s', p) := startRefresh o key t' (count 0 1 0 s) in
    pending s' key p /\ (loads s' = loads s \/
      (forall q, ~ pending s key q) /\ exists l, loads s' = loads s ++ [l])).
  { pose proof (startRefresh_loads o key t' (count 0 1 0 s) (count_wf _ _ _ s Hs)
      (count_single _ _ _ s Hg)) as H. by destruct (startRefresh _ _ _ _). }
  destruct (map_get key (entries s)) as [r|] eqn:Hr;
    [|by destruct (startRefresh _ _ _ _)].
  destruct (value (heap s r)), (asOfMs (heap s r)) as [since|]; [|by destruct (startRefresh _ _ _ _)..].
  cbn [stale asOf refreshing]. set (s1 := count 0 0 1 _).
  assert (H1 : wf s1) by (by apply count_wf, touch_wf, count_wf).
  assert (Hg1 : single s1) by (by apply count_single, touch_single, count_single).
  destruct (is_stale o t since); [|split; [done|by left]].
  pose proof (startRefresh_loads o key t' s1 H1 Hg1) as H.
  pose proof (startRefresh_key o key t' s1 r H1 Hr) as Hr2.
  destruct (startRefresh_inv o key t' s1 H1) as [H2 Hg2]. specialize (Hg2 Hg1).
  destruct (startRefresh o key t' s1) as [s2 p]. cbn [fst] in *. destruct H as [Hp Hl].
  split; [|exact Hl]. split; [done|]. split; [|by exists p].
  destruct Hp as (l & Hpl & Hk & Ho). destruct (single_pending s2 Hg2 p l Hpl Ho) as [Hm He].
  rewrite Hk, Hr2 in Hm. injection Hm as ->. unfold idle. by rewrite He.
Qed.

(** ** Truth *)

(** The reply of a [get] that does not wait, from the settlements of one entry. *)
Lemma get_truth (o : options) (key : string) (t t' : jsnum) (s s' : state) v :
  wf s -> get o key t t' s = (s', Returned v) ->
  exists r, map_get key (entries s) = Some r /\
    last_success (history r (log s)) = Some (reply v, asOf v) /\ reply v <> None /\
    reply_error v = last_failure (history r (log s)).
Proof.
  intros Hs. unfold get. destruct (map_get key (entries s)) as [r|]; [|by destruct (startRefresh _ _ _ _)].
  destruct (wf_view s Hs r) as [Hv Ha _].
  destruct (value (heap s r)) as [x|], (asOfMs (heap s r)) as [since|];
    [|by destruct (startRefresh _ _ _ _)..].
  set (s1 := count 0 0 1 _).
  assert (H1 : wf s1) by (by apply count_wf, touch_wf, count_wf).
  pose proof (startRefresh_spec o key t' s1 H1) as H.
  destruct (startRefresh o key t' s1) as [s2 p]. destruct H as (H2 & Hlog & _).
  intros [= <- <-]. cbn [asOf reply reply_error]. exists r. split; [done|].
  destruct (last_success (history r (log s))) as [[y u]|] eqn:El; [|done].
  cbn in Hv, Ha. injection Ha as <-.
  destruct (is_stale o t since); cbn [fst].
  - destruct (wf_view s2 H2 r) as [Hv2 _ He2]. rewrite Hlog in Hv2, He2.
    change (log s1) with (log s) in *. rewrite El in Hv2. rewrite Hv2, He2. cbn. by rewrite <- Hv.
  - destruct (wf_view s1 H1 r) as [Hv2 _ He2]. change (log s1) with (log s) in *.
    change (heap s1) with (heap (set_heap (alter (touch t) r) (count 1 0 0 s))) in *.
    rewrite El in Hv2. rewrite Hv2, He2. cbn. by rewrite <- Hv.
Qed.

(** A settlement that belongs to a load of the key. *)
Definition settled_for (s : state) (key : string) (x : settlement) : Prop :=
  exists p l, loads s !! p = Some l /\ load_key l = key /\ outcome l = Some x.

Lemma history_settled (s : state) (key : string) (r : ref) (x : settlement) :
  wf s -> map_get key (entries s) = Some r -> In x (history r (log s)) -> settled_for s key x.
Proof.
  intros Hs Hr. unfold history. rewrite in_map_iff. intros ([r' y] & <- & H).
  apply filter_In in H as [H Hb]. cbn in Hb. apply Nat.eqb_eq in Hb as ->.
  destruct (wf_log s Hs _ _ H) as (p & l & Hl & He & Ho). exists p, l. split; [done|].
  destruct (wf_refs s Hs _ _ Hr) as (q & l' & Hl' & He' & <-). split; [|done].
  eapply (wf_one_key s Hs); [done|done|congruence].
Qed.

(** ** Eviction is least recently used *)

Section Lru.
Context (o : options) (h : ref -> CacheEntry) (pk : string) (n : Z).
Context (Hn : to_integer (maxEntries o) = Some n).

Abbreviation access e := (lastAccessMs (h (snd e))).
Abbreviation Timed := (fun e : string * ref => isFinite (access e) = true).

Lemma eviction_least (m : list (string * ref)) c :
  Forall Timed m -> eviction h pk m = Some c ->
  forall e, In e m -> evictable h pk e = true -> (ord (access c) <= ord (access e))%Z.
Proof.
  intros Hm Hc e He Hev.
  assert (Hf : Forall Timed (List.filter (evictable h pk) m)).
  { apply List.Forall_forall. intros x [Hx _]%filter_In. rewrite List.Forall_forall in Hm. auto. }
  destruct (sort_before_head (fun y x => PrimFloat.ltb (byAccess h y x) 0) Timed
    (fun x y => (ord (access x) <= ord (access y))%Z)) with
    (l := List.filter (evictable h pk) m) (m := c) as [_ Hall]; [| | |done|done|].
  - intros x y Hx Hy. unfold byAccess. rewrite sub_ltb_0 by done. by apply ltb_finite_false.
  - intros. lia.
  - intros. lia.
  - rewrite List.Forall_forall in Hall. apply Hall. by apply filter_In.
Qed.

Lemma eviction_none (m : list (string * ref)) e :
  eviction h pk m = None -> In e m -> evictable h pk e = false.
Proof.
  unfold eviction. intros H He. destruct (evictable h pk e) eqn:E; [|done]. exfalso.
  assert (Hin : In e (sort (byAccess h) (List.filter (evictable h pk) m))).
  { apply in_sort, filter_In. done. }
  by destruct (sort _ _).
Qed.

Lemma over_limit (m : list (string * ref)) :
  (Z.of_nat (length m) <= 2 ^ 53)%Z ->
  PrimFloat.ltb (maxEntries o) (of_nat (length m)) = (n <? Z.of_nat (length m))%Z.
Proof. intros Hl. apply ltb_integer; [done|]. apply of_Z_integer. lia. Qed.

(** What [prune] guarantees of the entries [m'] it leaves. *)
Record pruned (m m' : list (string * ref)) : Prop := {
  pruned_incl : forall e, In e m' -> In e m;
  pruned_enough : (Z.of_nat (length m') <= n)%Z \/ forall e, In e m' -> evictable h pk e = false;
  pruned_minimal : m' = m \/ (n <= Z.of_nat (length m'))%Z;
  pruned_lru : forall e, In e m -> ~ In e m' -> evictable h pk e = true /\
    forall e', In e' m' -> evictable h pk e' = true -> (ord (access e) <= ord (access e'))%Z;
}.

Lemma prune_from_pruned (fuel : nat) : forall m,
  (length m <= fuel)%nat -> (Z.of_nat (length m) <= 2 ^ 53)%Z ->
  List.NoDup (map_keys m) -> Forall Timed m -> pruned m (prune_from fuel o h pk m).
Proof.
  induction fuel as [|f IH]; intros m Hf Hl Hd Ht; cbn [prune_from].
  - destruct m; [|cbn in Hf; lia]. split; cbn; try done; [right; by intros|by left].
  - rewrite over_limit by done. destruct (Z.ltb_spec n (Z.of_nat (length m))) as [Hover|Hunder];
      [|split; [done|by left|by left|done]].
    destruct (eviction h pk m) as [c|] eqn:E;
      [|split; [done|right; intros e; by apply eviction_none|by left|done]].
    destruct (eviction_some h pk m c E) as (Hc & Hk & Hi).
    assert (Hlen : length m = S (length (map_delete (fst c) m))).
    { apply map_delete_length; [done|]. unfold map_has. destruct c as [k r]. cbn [fst].
      by rewrite (in_map_get _ _ _ Hd Hc). }
    destruct (IH (map_delete (fst c) m)) as [I1 I2 I3 I4]; [lia|lia|by apply map_delete_nodup| |].
    { apply List.Forall_forall. intros x [Hx _]%in_map_delete. rewrite List.Forall_forall in Ht. auto. }
    split; [|done| |].
    + intros e He%I1. by apply in_map_delete in He as [? _].
    + right. destruct I3 as [->|?]; [|done]. rewrite Hlen in Hover. lia.
    + intros e He Hne. destruct (decide (fst e = fst c)) as [Hec|Hec].
      * assert (e = c) as ->.
        { destruct e as [k r], c as [k' r']. cbn in Hec. subst k'.
          apply (in_map_get _ _ _ Hd) in He, Hc. congruence. }
        split.
        -- unfold evictable. apply andb_true_iff. split; [|done]. by apply negb_true_iff, String.eqb_neq.
        -- intros e' He' Hev. apply (eviction_least m); [done..| |done].
           apply I1, in_map_delete in He' as [? _]. done.
      * apply I4; [by apply in_map_delete|done].
Qed.
End Lru.
End Cache.

Arguments state V : clear implicits.
Arguments event V : clear implicits.

(** C29. In every run of calls and settlements without a [clear] (which the code calls
    only to reset tests, and which [clear_breaks_single_flight] below shows cannot be
    allowed), in any order, at most one load runs per key, whatever the number of polls:
    a [get] never starts a second one.  A fresh value starts nothing; a stale value is
    served at once while exactly one load of its key runs; and a [get] without a value
    awaits the one load of its key. *)
Theorem refresh_single_flight {V : Type} (o : options) (es : list (event V)) (s : state V)
    (key : string) (t t' : jsnum) :
  run o initial es = Some s -> Forall (fun e => clears e = false) es ->
  (forall k p q, pending s k p -> pending s k q -> p = q) /\
  (let '(s', res) := get o key t t' s in get_starts o key t s s' res).
Proof.
  intros Hrun Hes. destruct (run_inv o es initial s Hrun initial_wf) as [Hs Hg].
  specialize (Hg Hes initial_single).
  split; [intros k p q; by apply single_pending_unique|by apply get_starts_spec].
Qed.

(** The cache tells the truth, through every interleaving, evictions and
    [clear] included: a value served without waiting is the one of the last
    successful load among the settled loads of its entry, all loads of that key,
    with the time of that load; a failed load never replaces it, and its message
    is reported until the next success. *)
Theorem refresh_truthful {V : Type} (o : options) (es : list (event V)) (s s' : state V)
    (key : string) (t t' : jsnum) v :
  run o initial es = Some s -> get o key t t' s = (s', Returned v) ->
  exists h, Forall (settled_for s key) h /\ last_success h = Some (reply v, asOf v) /\
    reply v <> None /\ reply_error v = last_failure h.
Proof.
  intros Hrun Hget. destruct (run_inv o es initial s Hrun initial_wf) as [Hs _].
  destruct (get_truth o key t t' s s' v Hs Hget) as (r & Hr & H).
  exists (history r (log s)). split; [|exact H]. apply List.Forall_forall.
  intros x. by apply history_settled.
Qed.

(** Eviction is least recently used: it removes only idle entries other than
    the one in use, never one that was accessed after an idle entry it keeps, and
    no more than needed; afterwards the map is within its limit or nothing idle is
    left to remove. *)
Theorem prune_lru {V : Type} (o : options) (pk : string) (s : state V) (n : Z) :
  wf s -> to_integer (maxEntries o) = Some n -> (Z.of_nat (length (entries s)) <= 2 ^ 53)%Z ->
  Forall (fun e => isFinite (lastAccessMs (heap s (snd e))) = true) (entries s) ->
  pruned (heap s) pk n (entries s) (entries (prune o pk s)).
Proof. intros Hs Hn Hl Ht. apply prune_from_pruned; [done..|apply Hs|done]. Qed.

(** ** Concrete runs *)

Definition sample_options : options := {| ttlMs := 1000; maxEntries := 2 |}.

Definition sample_events : list (event nat) :=
  [Get "a" 0 0; Get "a" 1 1; Warm "b" 2 2; Settle 0 (Resolved (Some 7) 10);
   Get "a" 20 20; Settle 1 (Rejected "timeout"); Get "a" 2000 2001;
   Settle 2 (Rejected "offline")].

Definition sample_state : state nat := default initial (run sample_options initial sample_events).

Lemma run_default {V : Type} (o : options) (es : list (event V)) :
  bool_decide (is_Some (run o initial es)) = true ->
  run o initial es = Some (default initial (run o initial es)).
Proof. intros H%bool_decide_eq_true. by destruct (run o initial es), H. Qed.

Lemma sample_run : run sample_options initial sample_events = Some sample_state.
Proof. apply run_default. vm_compute. reflexivity. Qed.

(** The failed refresh left the value and its time, and says why. *)
Example sample_get :
  snd (get sample_options "a" 3000 3000 sample_state) =
  Returned {| reply := Some 7; asOf := 10; stale := true; refreshing := true;
              reply_error := Some "offline" |}.
Proof. vm_compute. reflexivity. Qed.

Lemma sample_get_pair :
  get sample_options "a" 3000 3000 sample_state =
  (fst (get sample_options "a" 3000 3000 sample_state),
   Returned {| reply := Some 7; asOf := 10; stale := true; refreshing := true;
               reply_error := Some "offline" |}).
Proof. rewrite <- sample_get. apply surjective_pairing. Qed.

Lemma refresh_single_flight_witness :
  let '(s', res) := get sample_options "a" 3000 3000 sample_state in
  get_starts sample_options "a" 3000 sample_state s' res.
Proof.
  exact (proj2 (refresh_single_flight sample_options sample_events sample_state "a" 3000 3000
    sample_run ltac:(repeat constructor))).
Defined.

Lemma refresh_truthful_witness :
  exists h, Forall (settled_for sample_state "a") h /\
    last_success h = Some (Some 7, 10%float) /\ Some 7 <> None /\
    Some "offline" = last_failure h.
Proof.
  exact (refresh_truthful sample_options sample_events sample_state
    (fst (get sample_options "a" 3000 3000 sample_state)) "a" 3000 3000
    {| reply := Some 7; asOf := 10; stale := true; refreshing := true;
       reply_error := Some "offline" |} sample_run sample_get_pair).
Defined.

(** Three loads of three keys settle; the limit is two. *)
Definition crowded_options : options := {| ttlMs := 1000; maxEntries := 3 |}.
Definition crowded_events : list (event nat) :=
  [Get "a" 1 1; Get "b" 2 2; Get "c" 3 3; Settle 0 (Resolved (Some 1) 4);
   Settle 1 (Resolved (Some 2) 5); Settle 2 (Resolved (Some 3) 6); Get "a" 7 7].
Definition crowded : state nat := default initial (run crowded_options initial crowded_events).

Lemma crowded_wf : wf crowded.
Proof.
  apply (run_inv crowded_options crowded_events initial); [|apply initial_wf].
  apply run_default. vm_compute. reflexivity.
Qed.

Lemma crowded_timed :
  Forall (fun e => isFinite (lastAccessMs (heap crowded (snd e))) = true) (entries crowded).
Proof.
  apply List.Forall_forall, forallb_forall. vm_compute. reflexivity.
Qed.

Lemma prune_lru_witness :
  map_keys (entries (prune sample_options "c" crowded)) = ["a"; "c"] /\
  pruned (heap crowded) "c" 2 (entries crowded) (entries (prune sample_options "c" crowded)).
Proof.
  split; [vm_compute; reflexivity|].
  exact (prune_lru sample_options "c" crowded 2 crowded_wf ltac:(vm_compute; reflexivity)
    ltac:(vm_compute; discriminate) crowded_timed).
Defined.

(** [clear] forgets the entries but not their loads: a load that settles after it
    puts its old entry back over the new one, whose load is still running, and the
    next stale [get] starts another one. *)
Definition clear_events : list (event nat) :=
  [Get "a" 0 0; Clear; Get "a" 1 1; Settle 0 (Resolved (Some 7) 10); Get "a" 2000 2000].

Lemma clear_breaks_single_flight : exists s,
  run sample_options initial clear_events = Some s /\ pending s "a" 1 /\ pending s "a" 2.
Proof.
  eexists. split; [apply run_default; vm_compute; reflexivity|]. unfold pending.
  split; eexists; (split; [vm_compute; reflexivity|]); done.
Qed.
