(* ===== verification/EvidenceManifest.v ===== *)
(** * The manifest of an evidence archive

    [packages/db/src/evidence-archive-manifest.ts]: the members of an evidence
    archive with their hashes and sizes, as the engine wrote them.  Member paths
    come from outside and name files below a base directory; the parser accepts
    safe exact relative paths only.  The identity of a member set is the hash of
    its lines in UTF-8 order, which Python and PostgreSQL compute as well.

    [JSON.parse] of the bytes, SHA-256 and [localeCompare] are parameters. *)

From Stdlib Require Import ZArith Lia Bool Ascii String Sorting.Permutation Sorting.Sorted.
From Stdlib Require Import Floats.
From stdpp Require Import base list strings option numbers.
From S2P Require Import Prelude JsNumber JsString JsValue JsArray JsMap CanonicalJson.

Local Open Scope string_scope.
Local Open Scope list_scope.
Local Open Scope result_scope.

Record EvidenceManifestEntry := {
  path : string;
  sha256 : string;
  byteSize : jsnum;
  role : option string;
}.

Record ParsedEvidenceManifest := {
  bundled : list EvidenceManifestEntry;
  excluded : list EvidenceManifestEntry;
  bundleExcludes : list string;
  memberSet : list EvidenceManifestEntry;
}.

Definition NUL : string := String "000" EmptyString.
Definition NEWLINE : string := String "010" EmptyString.

(** [/^[0-9a-f]{64}$/] *)
Definition SHA256 (s : string) : bool := hex_string 64 s.

(** A segment that would name no file or climb. *)
Definition bad_segment (part : string) : bool :=
  negb (nonempty part) || String.eqb part "." || String.eqb part "..".

Definition exactSafeRelative (value : jsval) (label : string) : result string :=
  let unsafe := Throw (label +:+ " must be a safe exact relative path") in
  match value with
  | JStr s =>
      if negb (nonempty s) || negb (String.eqb (trim s) s) || String.prefix "/" s
         || JsString.includes s "\" || JsString.includes s NUL
      then unsafe
      else if existsb bad_segment (split_on "/" s) then unsafe
      else Ok s
  | _ => unsafe
  end.

Definition object (value : jsval) (label : string) : result record :=
  match value with
  | JObj o => Ok o
  | _ => Throw (label +:+ " must be an object")
  end.

(** [/^[a-z][a-z0-9_]{0,63}$/] *)
Definition lower_letter (c : ascii) : bool := Nat.leb 97 (code c) && Nat.leb (code c) 122.
Definition role_char (c : ascii) : bool :=
  lower_letter c || (Nat.leb 48 (code c) && Nat.leb (code c) 57) || Ascii.eqb c "_".
Definition role_name (s : string) : bool :=
  match s with
  | EmptyString => false
  | String c s' => lower_letter c && Nat.leb (String.length s') 63 && all_chars role_char s'
  end.

Definition optionalRole (value : jsval) (label : string) : result (option string) :=
  match value with
  | JUndef => Ok None
  | JStr s => if role_name s then Ok (Some s)
              else Throw (label +:+ " must be a lower-snake-case evidence role")
  | _ => Throw (label +:+ " must be a lower-snake-case evidence role")
  end.

(** The loop over [bundleExcludes]; [roots] is the set so far. *)
Fixpoint exclusionLoop (raw : list jsval) (index : nat) (roots : list string) :
    result (list string) :=
  match raw with
  | [] => Ok roots
  | value :: raw' =>
      let* root := exactSafeRelative value
                     ("evidence manifest bundleExcludes " +:+ string_of_nat index) in
      let* _ := throw_if (JsString.includes root "/") "bundleExcludes entries must be top-level names" in
      let* _ := throw_if (mem root roots) ("duplicate evidence bundle exclusion " +:+ root) in
      exclusionLoop raw' (S index) (roots ++ [root])
  end.

Definition bad_size (value : jsval) : bool :=
  match value with
  | JNum n => negb (isSafeInteger n) || (n < 0)%js
  | _ => true
  end.

Definition bad_hash (value : jsval) : bool :=
  match value with JStr s => negb (SHA256 s) | _ => true end.

Definition text_of (value : jsval) : string := match value with JStr s => s | _ => "" end.
Definition size_of (value : jsval) : jsnum := match value with JNum n => n | _ => 0%float end.

(** One round of the loop over [files]. *)
Definition fileEntry (raw : jsval) (index : nat) (entries : list (string * EvidenceManifestEntry)) :
    result EvidenceManifestEntry :=
  let file := "evidence manifest file " +:+ string_of_nat index in
  let* entry := object raw file in
  let* p := exactSafeRelative (get "path" entry) (file +:+ " path") in
  let* _ := throw_if (map_has p entries)
              ("evidence manifest contains duplicate member path " +:+ p) in
  let* _ := throw_if (bad_hash (get "sha256" entry)) (file +:+ " sha256 is malformed") in
  let* _ := throw_if (bad_size (get "byteSize" entry))
              (file +:+ " byteSize must be a non-negative safe integer") in
  let* r := optionalRole (get "role" entry) (file +:+ " role") in
  Ok {| path := p; sha256 := text_of (get "sha256" entry);
        byteSize := size_of (get "byteSize" entry); role := r |}.

Fixpoint fileLoop (files : list jsval) (index : nat)
    (entries : list (string * EvidenceManifestEntry)) :
    result (list (string * EvidenceManifestEntry)) :=
  match files with
  | [] => Ok entries
  | raw :: files' =>
      let* entry := fileEntry raw index entries in
      fileLoop files' (S index) (map_set (path entry) entry entries)
  end.

(** [entry.path.split("/", 1)[0]] *)
Definition top_level (p : string) : string := hd "" (split_on "/" p).

Section Manifest.
Context (localeCompare : string -> string -> jsnum) (digest : string -> string).

Definition byPath (a b : EvidenceManifestEntry) : jsnum := localeCompare (path a) (path b).

(** The result, from the set of exclusions and the map of entries. *)
Definition assemble (roots : list string) (entries : list EvidenceManifestEntry)
    (manifestBytes : string) : ParsedEvidenceManifest :=
  let ordered := sort byPath entries in
  let inside e := mem (top_level (path e)) roots in
  let bundled := List.filter (fun e => negb (inside e)) ordered in
  let manifestEntry := {| path := "evidence_manifest.json"; sha256 := digest manifestBytes;
                          byteSize := of_nat (String.length manifestBytes); role := None |} in
  {| bundled := bundled; excluded := List.filter inside ordered;
     bundleExcludes := sort code_units roots;
     memberSet := sort byPath (manifestEntry :: bundled) |}.

(** [parseEvidenceManifest(manifestBytes)], where [decoded] is the outcome of
    [JSON.parse] on the text. *)
Definition parseEvidenceManifest (decoded : result jsval) (manifestBytes : string) :
    result ParsedEvidenceManifest :=
  match decoded with
  | Throw error => Throw ("evidence manifest is invalid JSON: " +:+ error)
  | Ok decoded =>
      let* manifest := object decoded "evidence manifest" in
      match get "files" manifest with
      | JArr files =>
          let rawExcludes := if nullish (get "bundleExcludes" manifest) then JArr []
                             else get "bundleExcludes" manifest in
          match rawExcludes with
          | JArr raw =>
              let* roots := exclusionLoop raw 0 [] in
              let* entries := fileLoop files 0 [] in
              Ok (assemble roots (List.map snd entries) manifestBytes)
          | _ => Throw "evidence manifest bundleExcludes must be an array"
          end
      | _ => Throw "evidence manifest files must be an array"
      end
  end.

(** ** Identities *)

(** [Buffer.compare] of the UTF-8 bytes of the paths. *)
Definition compareUtf8Paths (left right : EvidenceManifestEntry) : jsnum :=
  code_units (utf8 (path left)) (utf8 (path right)).

(** The updates of the hash, in order; [update] appends the UTF-8 bytes. *)
Definition hash_updates (updates : list string) : string := digest (join "" (List.map utf8 updates)).

Definition member_updates (entry : EvidenceManifestEntry) : list string :=
  [path entry; NUL; sha256 entry; NUL; Number_toString (byteSize entry); NEWLINE].

Definition manifestMemberSetSha256 (entries : list EvidenceManifestEntry) : string :=
  hash_updates (List.flat_map member_updates (sort compareUtf8Paths entries)).

(** An entry with the identifier of its artifact. *)
Definition association_updates (e : EvidenceManifestEntry * string) : list string :=
  [path (fst e); NUL; snd e; NUL; sha256 (fst e); NUL; Number_toString (byteSize (fst e)); NEWLINE].

Definition databaseMemberAssociationsSha256 (entries : list (EvidenceManifestEntry * string)) :
    string :=
  hash_updates (List.flat_map association_updates
    (sort (fun a b => compareUtf8Paths (fst a) (fst b)) entries)).
End Manifest.

(** ** Safe paths *)

Definition good_segment (part : string) : Prop := part <> "" /\ part <> "." /\ part <> "..".

Definition safe_path (p : string) : Prop :=
  trim p = p /\ JsString.includes p "\" = false /\ JsString.includes p NUL = false /\
  Forall good_segment (split_on "/" p).

Lemma nonempty_spec (s : string) : nonempty s = true <-> s <> "".
Proof. by destruct s. Qed.

Lemma bad_segment_false (part : string) : bad_segment part = false <-> good_segment part.
Proof.
  unfold bad_segment, good_segment.
  rewrite !orb_false_iff, negb_false_iff, nonempty_spec, !String.eqb_neq. tauto.
Qed.

Lemma safe_path_relative (p : string) : safe_path p -> p <> "" /\ String.prefix "/" p = false.
Proof.
  intros (_ & _ & _ & H). destruct p as [|c p]; [apply Forall_cons_iff in H as [[H _] _]; done|].
  split; [done|].
  change (String.prefix "/" (String c p)) with
    (if ascii_dec "/" c then String.prefix "" p else false).
  destruct (ascii_dec "/" c) as [<-|Hc]; [|done].
  cbn in H. apply Forall_cons_iff in H as [[H _] _]. done.
Qed.

Lemma exactSafeRelative_ok (value : jsval) (label p : string) :
  exactSafeRelative value label = Ok p <-> value = JStr p /\ safe_path p.
Proof.
  unfold exactSafeRelative. destruct value as [| | | |s| |]; try (split; [done|by intros [? _]]).
  destruct (_ || JsString.includes s NUL) eqn:E.
  - split; [done|]. intros [[= ->] Hp]. destruct (safe_path_relative p Hp) as [Hn Hs].
    destruct Hp as (Ht & Hb & H0 & _). exfalso.
    rewrite Hs, Hb, H0, (proj2 (nonempty_spec p) Hn), Ht, String.eqb_refl in E. done.
  - rewrite !orb_false_iff, !negb_false_iff, String.eqb_eq in E.
    destruct E as ((((Hn & Ht) & Hs) & Hb) & H0). destruct (existsb _ _) eqn:Ex.
    + split; [done|]. intros [[= ->] (_ & _ & _ & Hp)].
      assert (existsb bad_segment (split_on "/" p) = false); [|congruence].
      apply existsb_false. forall_impl Hp. apply bad_segment_false.
    + apply existsb_false in Ex. split; [|by intros [[= ->] _]]. intros [= <-].
      split; [done|]. split; [done|]. split; [done|]. split; [done|].
      forall_impl Ex. apply bad_segment_false.
Qed.

(** Resolution of a path against a directory, as a file system does it. *)
Fixpoint resolve (base : list string) (segments : list string) : list string :=
  match segments with
  | [] => base
  | seg :: rest =>
      if negb (nonempty seg) || String.eqb seg "." then resolve base rest
      else if String.eqb seg ".." then resolve (removelast base) rest
      else resolve (base ++ [seg]) rest
  end.

Lemma resolve_safe (segments : list string) : forall base,
  Forall good_segment segments -> resolve base segments = base ++ segments.
Proof.
  induction segments as [|seg rest IH]; intros base H; cbn [resolve]; [by rewrite app_nil_r|].
  apply Forall_cons_iff in H as [(Hn & H1 & H2) H].
  rewrite (proj2 (nonempty_spec seg) Hn), (proj2 (String.eqb_neq seg ".") H1),
    (proj2 (String.eqb_neq seg "..") H2). cbn. rewrite IH by done. by rewrite <- app_assoc.
Qed.

(** ** What the parser accepts *)

(** The JSON form of an entry; other keys are ignored. *)
Definition describes (raw : jsval) (e : EvidenceManifestEntry) : Prop :=
  exists o, raw = JObj o /\ get "path" o = JStr (path e) /\ get "sha256" o = JStr (sha256 e) /\
    get "byteSize" o = JNum (byteSize e) /\
    get "role" o = match role e with Some r => JStr r | None => JUndef end.

Definition valid_entry (e : EvidenceManifestEntry) : Prop :=
  safe_path (path e) /\ SHA256 (sha256 e) = true /\
  (exists n, to_integer (byteSize e) = Some n /\ (0 <= n <= 2 ^ 53 - 1)%Z) /\
  match role e with Some r => role_name r = true | None => True end.

Lemma bad_size_false (v : jsval) :
  bad_size v = false <->
  exists x, v = JNum x /\ exists n, to_integer x = Some n /\ (0 <= n <= 2 ^ 53 - 1)%Z.
Proof.
  destruct v as [| | |x| | |]; cbn [bad_size]; try (split; [done|by intros (? & ? & _)]).
  rewrite orb_false_iff, negb_false_iff, isSafeInteger_spec. split.
  - intros [(n & Hn & Hb) Hx]. exists x. split; [done|]. exists n. split; [done|].
    rewrite (ltb_integer x 0 n 0 Hn to_integer_0) in Hx. apply Z.ltb_ge in Hx. lia.
  - intros (? & [= <-] & n & Hn & Hb). split; [exists n; split; [done|lia]|].
    rewrite (ltb_integer x 0 n 0 Hn to_integer_0). apply Z.ltb_ge. lia.
Qed.

Lemma bad_hash_false (v : jsval) : bad_hash v = false <-> exists s, v = JStr s /\ SHA256 s = true.
Proof. destruct v; cbn; rewrite ?negb_false_iff; naive_solver. Qed.

Lemma optionalRole_ok (v : jsval) (label : string) (r : option string) :
  optionalRole v label = Ok r <->
  v = match r with Some r => JStr r | None => JUndef end /\
  match r with Some r => role_name r = true | None => True end.
Proof.
  destruct v as [| | | |s| |]; cbn; try (destruct r; naive_solver).
  destruct (role_name s) eqn:E; destruct r; naive_solver congruence.
Qed.

Lemma object_ok (v : jsval) (label : string) (o : record) :
  object v label = Ok o <-> v = JObj o.
Proof. destruct v; cbn; naive_solver. Qed.

Lemma fileEntry_ok (raw : jsval) (i : nat) (m : list (string * EvidenceManifestEntry)) e :
  fileEntry raw i m = Ok e <-> describes raw e /\ valid_entry e /\ map_has (path e) m = false.
Proof.
  unfold fileEntry, describes, valid_entry. split.
  - intros (o & ->%object_ok & H)%bind_ok. apply bind_ok in H as (p & [Hp Hsafe]%exactSafeRelative_ok & H).
    apply bind_throw_if in H as [Hm H]. apply bind_throw_if in H as [(s & Hs & Hh)%bad_hash_false H].
    apply bind_throw_if in H as [(x & Hx & Hn)%bad_size_false H].
    apply bind_ok in H as (r & [Hr Hrole]%optionalRole_ok & [= <-]).
    cbn. rewrite Hs, Hx. cbn. split; [|done]. exists o. rewrite Hr. done.
  - intros ((o & -> & Hp & Hs & Hx & Hr) & (Hsafe & Hh & Hn & Hrole) & Hm).
    apply bind_ok. exists o. split; [done|]. apply bind_ok. exists (path e).
    split; [by apply exactSafeRelative_ok|]. apply bind_throw_if. split; [done|].
    apply bind_throw_if. split; [apply bad_hash_false; eauto|].
    apply bind_throw_if. split; [apply bad_size_false; eauto|].
    apply bind_ok. exists (role e). split; [by apply optionalRole_ok|].
    rewrite Hs, Hx. by destruct e.
Qed.

Lemma fileLoop_ok (files : list jsval) : forall i m m',
  fileLoop files i m = Ok m' <-> exists es,
    Forall2 (fun raw e => describes raw e /\ valid_entry e) files es /\
    m' = m ++ List.map (fun e => (path e, e)) es /\
    List.NoDup (List.map path es) /\ forall e, In e es -> ~ In (path e) (map_keys m).
Proof.
  induction files as [|raw files IH]; intros i m m'; cbn [fileLoop].
  - split.
    + intros [= <-]. exists []. cbn. rewrite app_nil_r. split_and!; [constructor|done|constructor|done].
    + intros (es & H & -> & _). inversion H. cbn. by rewrite app_nil_r.
  - rewrite bind_ok. split.
    + intros (e & (Hd & Hv & Hm)%fileEntry_ok & H). apply IH in H as (es & H2 & -> & Hn & Hk).
      rewrite (map_set_fresh _ _ _ Hm) in *. exists (e :: es). cbn. rewrite <- app_assoc.
      split; [by constructor|]. split; [done|]. unfold map_keys in *. rewrite map_app in Hk. split.
      * constructor; [|done]. rewrite in_map_iff. intros (e' & He' & Hin).
        apply (Hk e' Hin). rewrite He', in_app_iff. right. by left.
      * intros e' [<-|Hin]; [by apply map_has_not_in in Hm|].
        intros Hk'. apply (Hk e' Hin). rewrite in_app_iff. by left.
    + intros (es & H & -> & Hn & Hk). inversion H as [|? e ? es' [Hd Hv] H2]; subst.
      cbn in Hn. apply NoDup_cons_iff in Hn as [He Hn].
      assert (Hm : map_has (path e) m = false) by (apply map_has_not_in, Hk; by left).
      exists e. split; [by apply fileEntry_ok|]. apply IH. exists es'.
      rewrite (map_set_fresh _ _ _ Hm), <- app_assoc. split_and!; [done..|].
      intros e' Hin. unfold map_keys. rewrite map_app, in_app_iff. intros [Hm'|[E|[]]].
      * apply (Hk e'); [by right|done].
      * apply He. cbn in E. rewrite E. by apply in_map.
Qed.

(** A top-level name. *)
Definition top_name (root : string) : Prop := safe_path root /\ JsString.includes root "/" = false.

Lemma exclusionLoop_ok (raw : list jsval) : forall i roots roots',
  exclusionLoop raw i roots = Ok roots' <-> exists new,
    raw = List.map JStr new /\ roots' = roots ++ new /\ Forall top_name new /\
    List.NoDup new /\ forall r, In r new -> ~ In r roots.
Proof.
  induction raw as [|v raw IH]; intros i roots roots'; cbn [exclusionLoop].
  - split.
    + intros [= <-]. exists []. rewrite app_nil_r. split_and!; [done|done|constructor|constructor|done].
    + intros (new & H & -> & _). destruct new; [|done]. by rewrite app_nil_r.
  - rewrite bind_ok. split.
    + intros (r & [-> Hs]%exactSafeRelative_ok & H). apply bind_throw_if in H as [Hslash H].
      apply bind_throw_if in H as [Hr H]. apply IH in H as (new & -> & -> & Ht & Hn & Hd).
      assert (Hr' : ~ In r roots) by (rewrite <- mem_spec; congruence).
      exists (r :: new). rewrite <- app_assoc. split_and!; [done|done|by constructor| |].
      * constructor; [|done]. intros Hin. apply (Hd r Hin). rewrite in_app_iff. right. by left.
      * intros r' [<-|Hin]; [done|]. intros H. apply (Hd r' Hin). rewrite in_app_iff. by left.
    + intros (new & H & -> & Ht & Hn & Hd). destruct new as [|r new]; [done|].
      injection H as -> ->. apply Forall_cons_iff in Ht as [[Hs Hslash] Ht].
      apply NoDup_cons_iff in Hn as [Hr Hn]. exists r.
      split; [by apply exactSafeRelative_ok|]. apply bind_throw_if. split; [done|].
      apply bind_throw_if. split.
      { destruct (mem r roots) eqn:E; [|done]. apply mem_spec in E. by destruct (Hd r (or_introl eq_refl)). }
      apply IH. exists new. rewrite <- app_assoc. split_and!; [done..|].
      intros r' Hin. rewrite in_app_iff. intros [H|[<-|[]]]; [|done].
      by apply (Hd r'); [right|].
Qed.

(** ** The parser's contract *)

Lemma excludes_array (v : jsval) (raw : list jsval) :
  (if nullish v then JArr [] else v) = JArr raw <->
  v = JArr raw \/ nullish v = true /\ raw = [].
Proof. destruct v; cbn; naive_solver. Qed.

Lemma parse_ok localeCompare digest (v : jsval) (bytes : string) (P : ParsedEvidenceManifest) :
  parseEvidenceManifest localeCompare digest (Ok v) bytes = Ok P <->
  exists o files roots es,
    v = JObj o /\ get "files" o = JArr files /\
    Forall2 (fun raw e => describes raw e /\ valid_entry e) files es /\
    List.NoDup (List.map path es) /\
    (get "bundleExcludes" o = JArr (List.map JStr roots) \/
     nullish (get "bundleExcludes" o) = true /\ roots = []) /\
    Forall top_name roots /\ List.NoDup roots /\
    P = assemble localeCompare digest roots es bytes.
Proof.
  unfold parseEvidenceManifest. rewrite bind_ok. split.
  - intros (o & ->%object_ok & H). destruct (get "files" o) as [| | | | |files|] eqn:Ef; try done.
    destruct (if nullish _ then _ else _) as [| | | | |raw|] eqn:Er; try done.
    apply excludes_array in Er. apply bind_ok in H as (roots & Hroots & H).
    apply exclusionLoop_ok in Hroots as (new & -> & -> & Ht & Hn & _).
    apply bind_ok in H as (m & Hm & [= <-]).
    apply fileLoop_ok in Hm as (es & H2 & -> & Hp & _).
    exists o, files, new, es. split_and!; try done.
    + destruct Er as [Er|[Er E]]; [by left|right]. split; [done|]. by destruct new.
    + cbn. by rewrite map_map, map_id.
  - intros (o & files & roots & es & -> & Ef & H2 & Hp & Hx & Ht & Hn & ->).
    exists o. split; [done|]. rewrite Ef.
    assert (Er : (if nullish (get "bundleExcludes" o) then JArr []
                  else get "bundleExcludes" o) = JArr (List.map JStr roots)).
    { apply excludes_array. destruct Hx as [Hx|[Hx ->]]; [by left|by right]. }
    rewrite Er. apply bind_ok. exists roots. split.
    { apply exclusionLoop_ok. exists roots. split_and!; try done. by intros r _ []. }
    apply bind_ok. exists (List.map (fun e => (path e, e)) es). split.
    { apply fileLoop_ok. exists es. split_and!; try done. by intros e _ []. }
    by rewrite map_map, map_id.
Qed.

Lemma sort_code_units (l : list string) :
  Permutation l (sort code_units l) /\
  StronglySorted (fun a b => str_ltb b a = false) (sort code_units l).
Proof.
  split; [apply sort_before_perm|].
  apply (sort_before_sorted _ (fun _ => True)); [| | |by apply List.Forall_forall].
  - intros x y _ _. by rewrite code_units_ltb.
  - intros x y _ _. destruct (str_ltb_total x y); auto.
  - intros x y z _ _ _. apply str_ltb_trans.
Qed.

(** ** The lines of an identity *)

Fixpoint line (fields : list string) (rest : string) : string :=
  match fields with
  | [] => rest
  | [f] => f +:+ String "010" rest
  | f :: fields' => f +:+ String "000" (line fields' rest)
  end.

(** The fields can be told apart in the line. *)
Fixpoint separable_fields (fields : list string) : Prop :=
  match fields with
  | [] => True
  | [f] => lacks "010" f = true
  | f :: fields' => lacks "000" f = true /\ separable_fields fields'
  end.

Lemma line_inj (fs : list string) : forall fs' r r',
  length fs = length fs' -> separable_fields fs -> separable_fields fs' ->
  line fs r = line fs' r' -> fs = fs' /\ r = r'.
Proof.
  induction fs as [|f [|g fs] IH]; intros [|f' [|g' fs']] r r' Hl Hs Hs'; try done.
  - cbn in *. by intros [-> ->]%separator_inj.
  - destruct Hs as [Hf Hs], Hs' as [Hf' Hs'].
    change (f +:+ String "000" (line (g :: fs) r) = f' +:+ String "000" (line (g' :: fs') r') ->
      f :: g :: fs = f' :: g' :: fs' /\ r = r').
    intros [-> H]%separator_inj; [|done..]. by destruct (IH (g' :: fs') r r') as [-> ->]; [cbn in Hl |- *; lia|done..|].
Qed.

Lemma line_nonempty (f : string) (fs : list string) (r : string) : line (f :: fs) r <> "".
Proof. destruct fs; cbn [line]; by destruct f. Qed.

Lemma join_empty_cons (p : string) (ps : list string) : join "" (p :: ps) = p +:+ join "" ps.
Proof.
  destruct ps as [|q ps]; [|done]. cbn. induction p as [|c p IH]; [done|].
  by rewrite append_cons, <- IH.
Qed.

Lemma join_utf8 (us : list string) : join "" (List.map utf8 us) = utf8 (join "" us).
Proof.
  induction us as [|u us IH]; [done|]. cbn [List.map]. by rewrite !join_empty_cons, utf8_app, IH.
Qed.

(** ** Identities tell member sets apart *)

Section Identity.
Context {A : Type} (fields updates : A -> list string) (f0 : A -> string) (frest : A -> list string).
Hypothesis Hfields : forall a, fields a = f0 a :: frest a.
Hypothesis Hlen : forall a b, length (fields a) = length (fields b).
Hypothesis Hupdates : forall a us, join "" (updates a ++ us) = line (fields a) (join "" us).

(** The text whose UTF-8 bytes are hashed. *)
Definition text (l : list A) : string := join "" (List.flat_map updates l).

Lemma text_cons (a : A) (l : list A) : text (a :: l) = line (fields a) (text l).
Proof. apply Hupdates. Qed.

Lemma text_inj (l : list A) : forall l',
  Forall (fun a => separable_fields (fields a)) l ->
  Forall (fun a => separable_fields (fields a)) l' ->
  text l = text l' -> List.map fields l = List.map fields l'.
Proof.
  induction l as [|a l IH]; intros [|b l'] Hl Hl'; rewrite ?text_cons; [done| | |].
  - intros H. symmetry in H. rewrite Hfields in H. by apply line_nonempty in H.
  - intros H. rewrite Hfields in H. by apply line_nonempty in H.
  - apply Forall_cons_iff in Hl as [Ha Hl], Hl' as [Hb Hl'].
    intros [Hf H]%line_inj; [|done..]. cbn. by rewrite Hf, (IH l' Hl Hl' H).
Qed.

Lemma hash_updates_text (digest : string -> string) (l : list A) :
  hash_updates digest (List.flat_map updates l) = digest (utf8 (text l)).
Proof. unfold hash_updates. by rewrite join_utf8. Qed.

(** Equal identities, equal member sets, or a collision of the digest. *)
Lemma identity_inj (digest : string -> string) (cmp : A -> A -> jsnum) (l l' : list A) :
  Forall (fun a => separable_fields (fields a)) l ->
  Forall (fun a => separable_fields (fields a)) l' ->
  hash_updates digest (List.flat_map updates (sort cmp l)) =
  hash_updates digest (List.flat_map updates (sort cmp l')) ->
  Permutation (List.map fields l) (List.map fields l') \/
  let b := utf8 (text (sort cmp l)) in let b' := utf8 (text (sort cmp l')) in
  b <> b' /\ digest b = digest b'.
Proof.
  intros Hl Hl'. rewrite !hash_updates_text. intros H.
  destruct (decide (text (sort cmp l) = text (sort cmp l'))) as [E|E].
  - left. apply text_inj in E.
    + rewrite (sort_perm cmp l), (sort_perm cmp l'). by rewrite E.
    + rewrite List.Forall_forall in *. intros a Ha%in_sort. auto.
    + rewrite List.Forall_forall in *. intros a Ha%in_sort. auto.
  - right. split; [|done]. intros E'. by apply utf8_inj in E'.
Qed.
End Identity.

Definition member_fields (e : EvidenceManifestEntry) : list string :=
  [path e; sha256 e; Number_toString (byteSize e)].
Definition association_fields (e : EvidenceManifestEntry * string) : list string :=
  [path (fst e); snd e; sha256 (fst e); Number_toString (byteSize (fst e))].

Lemma NUL_append (s : string) : NUL +:+ s = String "000" s.
Proof. reflexivity. Qed.
Lemma NEWLINE_append (s : string) : NEWLINE +:+ s = String "010" s.
Proof. reflexivity. Qed.

Lemma member_updates_line (e : EvidenceManifestEntry) (us : list string) :
  join "" (member_updates e ++ us) = line (member_fields e) (join "" us).
Proof.
  unfold member_updates. cbn [app]. by rewrite !join_empty_cons, !NUL_append, NEWLINE_append.
Qed.

Lemma association_updates_line (e : EvidenceManifestEntry * string) (us : list string) :
  join "" (association_updates e ++ us) = line (association_fields e) (join "" us).
Proof.
  unfold association_updates. cbn [app]. by rewrite !join_empty_cons, !NUL_append, NEWLINE_append.
Qed.

Lemma prefix_empty (s : string) : String.prefix "" s = true.
Proof. by destruct s. Qed.

Lemma includes_lacks (c : ascii) (s : string) :
  JsString.includes s (String c "") = false -> lacks c s = true.
Proof.
  unfold lacks. induction s as [|x s IH]; [done|]. cbn [JsString.includes all_chars].
  rewrite orb_false_iff. intros [Hp H]. rewrite IH, andb_true_r by done.
  apply negb_true_iff, Ascii.eqb_neq. intros ->. cbn [String.prefix] in Hp.
  destruct (ascii_dec c c); [|done]. by rewrite prefix_empty in Hp.
Qed.

Lemma hex_lacks (s : string) (c : ascii) : hex_char c = false -> SHA256 s = true -> lacks c s = true.
Proof.
  intros Hc [_ Hs]%andb_true_iff. eapply all_chars_impl; [|exact Hs]. intros y Hy.
  apply negb_true_iff, Ascii.eqb_neq. congruence.
Qed.

Lemma valid_entry_separable (e : EvidenceManifestEntry) :
  valid_entry e -> lacks "000" (path e) = true /\ lacks "000" (sha256 e) = true /\
  lacks "010" (Number_toString (byteSize e)) = true.
Proof.
  intros ((_ & _ & Hp & _) & Hs & _). split; [by apply includes_lacks|].
  split; [by apply hex_lacks|by apply number_lacks].
Qed.

Lemma utf8_order {A} (p : A -> string) (cmp : A -> A -> jsnum) (l l' : list A) :
  (forall a b, cmp a b = code_units (utf8 (p a)) (utf8 (p b))) ->
  Permutation l l' -> List.NoDup (List.map p l) -> sort cmp l = sort cmp l'.
Proof.
  intros Hcmp Hp Hn. apply sort_perm_eq; [| |done|].
  - intros x y. rewrite !Hcmp, !code_units_ltb. apply str_ltb_total.
  - intros x y z. rewrite !Hcmp, !code_units_ltb. apply str_ltb_trans.
  - intros x y Hx Hy. rewrite !Hcmp, !code_units_ltb. intros H1 H2.
    assert (E : p x = p y) by (by apply utf8_inj, str_ltb_anti).
    by apply (nodup_map_inj p l).
Qed.

(** ** Theorems *)

Lemma assemble_members localeCompare digest roots es bytes :
  let P := assemble localeCompare digest roots es bytes in
  Permutation (bundled P ++ excluded P) es /\
  Permutation (bundleExcludes P) roots /\
  Forall (fun e => ~ In (top_level (path e)) roots) (bundled P) /\
  Forall (fun e => In (top_level (path e)) roots) (excluded P).
Proof.
  cbn. split; [by rewrite filter_partition, <- sort_perm|].
  split; [by rewrite <- sort_perm|]. split; apply List.Forall_forall; intros e [_ He]%filter_In.
  - rewrite negb_true_iff in He. rewrite <- mem_spec. congruence.
  - by apply mem_spec.
Qed.

(** The parser accepts exactly the manifests whose files are valid entries
    with distinct safe paths and whose exclusions are distinct top-level names,
    and returns their division; every other manifest is refused. *)
Theorem parseEvidenceManifest_contract localeCompare digest (v : jsval) (bytes : string)
    (P : ParsedEvidenceManifest) :
  parseEvidenceManifest localeCompare digest (Ok v) bytes = Ok P <->
  exists o files roots es,
    v = JObj o /\ get "files" o = JArr files /\
    Forall2 (fun raw e => describes raw e /\ valid_entry e) files es /\
    List.NoDup (List.map path es) /\
    (get "bundleExcludes" o = JArr (List.map JStr roots) \/
     nullish (get "bundleExcludes" o) = true /\ roots = []) /\
    Forall top_name roots /\ List.NoDup roots /\
    P = assemble localeCompare digest roots es bytes.
Proof. apply parse_ok. Qed.

(** No member of an accepted manifest escapes the directory it is resolved
    against: every path resolves to itself below any base.  The members are
    distinct, each is bundled exactly when its top-level name is not excluded, the
    exclusions are listed once in code-unit order, and the member set is the
    manifest itself with the bundled members. *)
Theorem manifest_members_safe localeCompare digest (decoded : result jsval) (bytes : string)
    (P : ParsedEvidenceManifest) :
  parseEvidenceManifest localeCompare digest decoded bytes = Ok P ->
  (forall e, In e (bundled P ++ excluded P) -> valid_entry e /\
     (forall base, resolve base (split_on "/" (path e)) = base ++ split_on "/" (path e)) /\
     (In e (bundled P) <-> ~ In (top_level (path e)) (bundleExcludes P))) /\
  List.NoDup (List.map path (bundled P ++ excluded P)) /\
  List.NoDup (bundleExcludes P) /\
  StronglySorted (fun a b => str_ltb b a = false) (bundleExcludes P) /\
  Permutation (memberSet P)
    ({| path := "evidence_manifest.json"; sha256 := digest bytes;
        byteSize := of_nat (String.length bytes); role := None |} :: bundled P).
Proof.
  destruct decoded as [v|]; [|done].
  intros (o & files & roots & es & _ & _ & H2 & Hp & _ & _ & Hn & ->)%parse_ok.
  destruct (assemble_members localeCompare digest roots es bytes) as (Hm & Hr & Hb & Hx).
  set (P := assemble _ _ _ _ _) in *.
  assert (Hv : Forall valid_entry es).
  { clear -H2. induction H2 as [|raw e files es [_ He] _ IH]; by constructor. }
  rewrite List.Forall_forall in Hv, Hb, Hx. split_and!.
  - intros e He. assert (Hve : valid_entry e) by (apply Hv; by rewrite <- Hm).
    split; [done|]. split; [intros base; apply resolve_safe; apply Hve|]. rewrite Hr. split; [apply Hb|].
    intros Hnot. apply in_app_iff in He as [He|He]; [done|]. by apply Hx in He.
  - by rewrite Hm.
  - by rewrite Hr.
  - apply sort_code_units.
  - symmetry. apply sort_perm.
Qed.

(** The member-set identity does not depend on the order of the members, and
    tells member sets apart: equal identities mean the same paths, hashes and
    printed sizes, unless the two texts are a collision of the digest. *)
Theorem manifestMemberSetSha256_identity (digest : string -> string)
    (es es' : list EvidenceManifestEntry) :
  Forall valid_entry es -> Forall valid_entry es' -> List.NoDup (List.map path es) ->
  (Permutation es es' -> manifestMemberSetSha256 digest es = manifestMemberSetSha256 digest es') /\
  (manifestMemberSetSha256 digest es = manifestMemberSetSha256 digest es' ->
   Permutation (List.map member_fields es) (List.map member_fields es') \/
   exists b b', b <> b' /\ digest b = digest b' /\
     digest b = manifestMemberSetSha256 digest es).
Proof.
  intros Hv Hv' Hn. unfold manifestMemberSetSha256. split.
  - intros Hp. by rewrite (utf8_order path compareUtf8Paths es es').
  - assert (Hs : forall l, Forall valid_entry l ->
      Forall (fun e => separable_fields (member_fields e)) l).
    { intros l Hl. forall_impl Hl. intros e He. destruct (valid_entry_separable e He) as (? & ? & ?).
      done. }
    intros H. eapply (identity_inj member_fields) in H as [H|[Hb Hd]];
      [by left| |done|done|apply member_updates_line|by apply Hs..].
    right. eexists _, _. split; [exact Hb|]. split; [exact Hd|]. symmetry.
    apply (hash_updates_text member_updates).
Qed.

(** The database identity also covers the artifact of every member. *)
Theorem databaseMemberAssociationsSha256_identity (digest : string -> string)
    (es es' : list (EvidenceManifestEntry * string)) :
  Forall (fun e => valid_entry (fst e) /\ lacks "000" (snd e) = true) (es ++ es') ->
  List.NoDup (List.map (fun e => path (fst e)) es) ->
  (Permutation es es' ->
   databaseMemberAssociationsSha256 digest es = databaseMemberAssociationsSha256 digest es') /\
  (databaseMemberAssociationsSha256 digest es = databaseMemberAssociationsSha256 digest es' ->
   Permutation (List.map association_fields es) (List.map association_fields es') \/
   exists b b', b <> b' /\ digest b = digest b' /\
     digest b = databaseMemberAssociationsSha256 digest es).
Proof.
  intros [Hv Hv']%List.Forall_app Hn. unfold databaseMemberAssociationsSha256. split.
  - intros Hp. by rewrite (utf8_order (fun e => path (fst e)) _ es es').
  - assert (Hs : forall l, Forall (fun e => valid_entry (fst e) /\ lacks "000" (snd e) = true) l ->
      Forall (fun e => separable_fields (association_fields e)) l).
    { intros l Hl. forall_impl Hl. intros e [He Ha].
      destruct (valid_entry_separable (fst e) He) as (? & ? & ?). done. }
    intros H. eapply (identity_inj association_fields) in H as [H|[Hb Hd]];
      [by left| |done|done|apply association_updates_line|by apply Hs..].
    right. eexists _, _. split; [exact Hb|]. split; [exact Hd|]. symmetry.
    apply (hash_updates_text association_updates).
Qed.

(** ** A concrete manifest *)

Definition zeros64 : string := repeat_char 64 "0".

Definition sample_file (p : string) (n : jsnum) : jsval :=
  JObj [("path", JStr p); ("sha256", JStr zeros64); ("byteSize", JNum n)].

Definition sample_manifest : jsval :=
  JObj [("files", JArr [sample_file "fields/U.vtk" 12; sample_file "restart/0/p" 7;
                        sample_file "case.json" 3]);
        ("bundleExcludes", JArr [JStr "restart"])].

Definition sample_parsed : ParsedEvidenceManifest :=
  match parseEvidenceManifest code_units (fun _ => zeros64) (Ok sample_manifest) "bytes" with
  | Ok P => P
  | Throw _ => {| bundled := []; excluded := []; bundleExcludes := []; memberSet := [] |}
  end.

Lemma sample_manifest_parse :
  parseEvidenceManifest code_units (fun _ => zeros64) (Ok sample_manifest) "bytes" = Ok sample_parsed.
Proof. vm_compute. reflexivity. Qed.

Example sample_division :
  List.map path (bundled sample_parsed) = ["case.json"; "fields/U.vtk"] /\
  List.map path (excluded sample_parsed) = ["restart/0/p"] /\
  List.map path (memberSet sample_parsed) =
    ["case.json"; "evidence_manifest.json"; "fields/U.vtk"].
Proof. vm_compute. done. Qed.

(** A path that climbs is refused. *)
Example climbing_path :
  exactSafeRelative (JStr "fields/../../etc/passwd") "path" =
  Throw "path must be a safe exact relative path".
Proof. reflexivity. Qed.

Lemma manifest_members_safe_witness :
  List.NoDup (List.map path (bundled sample_parsed ++ excluded sample_parsed)).
Proof.
  exact (proj1 (proj2 (manifest_members_safe code_units (fun _ => zeros64) (Ok sample_manifest)
    "bytes" sample_parsed sample_manifest_parse))).
Defined.

Definition entry_of (p : string) (n : jsnum) : EvidenceManifestEntry :=
  {| path := p; sha256 := zeros64; byteSize := n; role := None |}.

Definition two_members : list EvidenceManifestEntry := [entry_of "a/b" 12; entry_of "c" 0].

Lemma two_members_valid : Forall valid_entry two_members.
Proof.
  repeat constructor; try done; eexists; (split; [vm_compute; reflexivity|]); lia.
Qed.

Lemma two_members_paths : List.NoDup (List.map path two_members).
Proof. repeat constructor; cbn; [by intros [?|[]]|by intros []]. Qed.

Lemma manifestMemberSetSha256_identity_witness :
  manifestMemberSetSha256 (fun b => b) two_members =
  manifestMemberSetSha256 (fun b => b) (rev two_members).
Proof.
  exact (proj1 (manifestMemberSetSha256_identity (fun b => b) two_members (rev two_members)
    two_members_valid (Forall_rev two_members_valid) two_members_paths)
    (Permutation_rev two_members)).
Defined.

Definition two_associations : list (EvidenceManifestEntry * string) :=
  [(entry_of "a/b" 12, "artifact-1"); (entry_of "c" 0, "artifact-2")].

Lemma two_associations_valid :
  Forall (fun e => valid_entry (fst e) /\ lacks "000" (snd e) = true)
    (two_associations ++ rev two_associations).
Proof.
  repeat constructor; try done; eexists; (split; [vm_compute; reflexivity|]); lia.
Qed.

Lemma databaseMemberAssociationsSha256_identity_witness :
  databaseMemberAssociationsSha256 (fun b => b) two_associations =
  databaseMemberAssociationsSha256 (fun b => b) (rev two_associations).
Proof.
  exact (proj1 (databaseMemberAssociationsSha256_identity (fun b => b) two_associations
    (rev two_associations) two_associations_valid two_members_paths)
    (Permutation_rev two_associations)).
Defined.
