(* ===== verification/FitRequest.v ===== *)
(** * The joint fit request of a progressive polar

    [apps/sweeper/src/progressive-fitting.ts], with
    [packages/db/src/progressive-evidence-geometry.ts]: the evidence of a target
    becomes the observations and histories of one request to the fitting service.
    Every piece of evidence is admitted, reduced to a history window, or excluded
    with a reason; evidence of one lineage is counted once, newest first; and the
    request is bounded.

    Payloads and predictions are parsed JSON.  [Math.hypot], the collations (the
    host's and "en") and SHA-256 are parameters. *)

From Stdlib Require Import ZArith Lia Bool Ascii String Sorting.Permutation Sorting.Sorted.
From Stdlib Require Import Floats.
From stdpp Require Import base list strings option numbers.
From S2P Require Import Prelude JsNumber JsString JsValue JsArray CanonicalJson.

Local Open Scope string_scope.
Local Open Scope list_scope.
Local Open Scope result_scope.

(** ** Data *)

Abbreviation vector3 := (list jsnum).

Inductive Stage := Fast | Precise.
Inductive CfdMethod := openfoam_fast | openfoam_precise.

#[export] Instance stage_eq_dec : EqDecision Stage.
Proof. solve_decision. Defined.

Record ProgressiveFitEvidence := {
  resultAttemptId : string;
  resultId : string;
  lineageId : string;
  alpha : jsnum;
  stage : Stage;
  payload : record;
  classification : option (string * list string); (* state and reasons *)
  verdict : option string;                        (* review.verdict *)
  interpretation : option (string * option jsnum); (* id and maxIatSeconds *)
  createdAt : string;
}.

(** The physical target; [condition] is all of it but the airfoil and geometry. *)
Record AnalysisPhysical := {
  geometry : list (list jsnum);
  branch : string;
  mach : option jsnum;
  reynolds : jsnum;
  referenceLengthM : jsnum;
  speedMps : jsnum;
  condition : jsval;
}.

Record ProgressiveFitLease := {
  token : string;
  predictionId : string;
  targetId : string;
  epochId : string;
  physical : AnalysisPhysical;
  prediction : record;
  evidence_list : list ProgressiveFitEvidence;
}.

Record ProgressiveBiasApplicability := {
  physicalIdentity : string;
  numericalIdentity : string;
  angleScope : jsnum * jsnum;
}.

Record Observation := {
  observation_id : string;
  result_id : string;
  attempt_id : string;
  lineage_id : string;
  target_signature : string;
  obs_branch : string;
  method : CfdMethod;
  obs_alpha : jsnum;
  coefficients : option vector3;
  standard_error : option vector3;
  eligible : bool;
  numerical_convergence : string;
  statistical_certification : string;
  exclusion_reason : option string;
  identities : option ProgressiveBiasApplicability; (* physical_identity, numerical_identity *)
  accepted_cfd : option bool;
}.

Inductive CoordinateKind := physical_time | iteration.

Record History := {
  observation_of : Observation;
  artifact_sha256 : string;
  coordinate_kind : CoordinateKind;
  coordinate : list jsnum;
  history_coefficients : list vector3;
  informative_start : jsnum;
  correlation_time : option jsnum;
  correlation_evidence_id : option string;
}.

Record Candidate := {
  evidence : ProgressiveFitEvidence;
  observation : Observation;
  history : option History;
}.

(** ** Constants *)

Definition NON_PHYSICAL_COEFFICIENT_LIMIT : jsnum := 5%float.
Definition SOURCE_GEOMETRY_MESH_VERSION : jsnum := 3%float.

Definition minimumUncertifiedConvectiveTransits : jsnum := 1%float.
Definition priorLiftStd : jsnum := 0.3%float.
Definition priorMomentStd : jsnum := 0.1%float.
Definition priorDragStdFloor : jsnum := 0.002%float.
Definition priorDragRelativeStd : jsnum := 0.5%float.
Definition historyNoiseFloor : vector3 := [0.01; 0.001; 0.002]%float.

Definition nums (xs : list jsnum) : jsval := JArr (List.map JNum xs).

Definition model_policy : record :=
  [("fast_discrepancy_std", nums [0.4; 0.4; 0.1]%float);
   ("precise_discrepancy_std", nums [0.15; 0.15; 0.03]%float);
   ("slope_std", nums [0.5; 0.3; 0.1]%float);
   ("local_std", nums [0.15; 0.2; 0.03]%float);
   ("fast_noise_floor", nums [0.03; 0.03; 0.005]%float);
   ("precise_noise_floor", nums [0.01; 0.01; 0.001]%float);
   ("correlation_length_deg", JNum 2);
   ("lineage_correlation", JNum 0.8);
   ("calibration_status", JStr "unvalidated");
   ("validation_id", JNull)].

Definition noise_floor (s : Stage) : jsnum * jsnum * jsnum :=
  match s with
  | Fast => (0.03, 0.03, 0.005)%float
  | Precise => (0.01, 0.01, 0.001)%float
  end.

Definition assumptions_version : string := "progressive-fit-assumptions-v9".

Definition ASSUMPTIONS : jsval :=
  JObj [("version", JStr assumptions_version);
        ("sourceGeometryMeshVersion", JNum SOURCE_GEOMETRY_MESH_VERSION);
        ("historyOrigin", JStr "recorded-source-before-windowing-v1");
        ("informativeWindow", JStr "post-startup-suffix-v1");
        ("minimumUncertifiedConvectiveTransits", JNum minimumUncertifiedConvectiveTransits);
        ("acquisition", JStr "fixed-posterior-coverage-v1");
        ("priorLiftStd", JNum priorLiftStd);
        ("priorMomentStd", JNum priorMomentStd);
        ("priorDragStdFloor", JNum priorDragStdFloor);
        ("priorDragRelativeStd", JNum priorDragRelativeStd);
        ("historyNoiseFloor", nums historyNoiseFloor);
        ("model", JObj model_policy)].

Definition HISTORY_BIAS_STD : vector3 := [0.3; 0.5; 0.1]%float.
Definition HISTORY_BIAS_ANGLE_SCOPE : jsnum * jsnum := ((-5)%float, 20%float).
Definition HISTORY_BIAS_MACHES : list jsnum :=
  [0.08814658492111002; 0.26443975476333004; 0.48774443656347544]%float.
Definition HISTORY_BIAS_REYNOLDS : list jsnum :=
  [102280; 204560; 306840; 613679; 1022799; 3068397; 4091196; 565949; 1131898; 11318975;
   22637950]%float.
Definition HISTORY_BIAS_ENGINE : record :=
  [("adapter_contract_version", JNum 1);
   ("application_source_sha256",
    JStr "000c67ccc21bc286cd189ff82c063c0ca497fee3bb2d99790d4d848e71708f6e");
   ("binary_sha256", JStr "36b5e8b213ab5b968cd94bbbf464ea9681619192fe71550cfbd4bdb678108f6e");
   ("build_id", JStr "progressive-7f2af74-20260919");
   ("distribution", JStr "opencfd");
   ("family", JStr "openfoam");
   ("numerics_revision", JStr "1");
   ("package_sha256", JStr "aa20712a33e41ad7cbe5ee895355aedd7fcbdaf456ae1d4f33db3135827bc07d");
   ("source_revision", JStr "481094fdf34f11ed6d0d603ee59a858a0124236d");
   ("version", JStr "2606")].

(** ** Guards *)

(** [record(value)]: a plain object or null. *)
Definition record_of (v : jsval) : option record := match v with JObj o => Some o | _ => None end.

(** [o?.k], where [o] is a record or null. *)
Definition opt_get (k : string) (o : option record) : jsval :=
  match o with Some o => get k o | None => JUndef end.

(** [finite(value)] with the number. *)
Definition finite_num (v : jsval) : option jsnum :=
  match v with JNum x => if isFinite x then Some x else None | _ => None end.

Fixpoint all_some {A} (l : list (option A)) : option (list A) :=
  match l with
  | [] => Some []
  | Some x :: l' => match all_some l' with Some xs => Some (x :: xs) | None => None end
  | None :: _ => None
  end.

(** [values.every(finite)] with the numbers. *)
Definition finite_all (vs : list jsval) : option (list jsnum) := all_some (List.map finite_num vs).

(** [physicalCoefficients(values)] with the vector. *)
Definition physicalCoefficients (values : list jsval) : option vector3 :=
  match values with
  | [_; _; _] =>
      match finite_all values with
      | Some [l; d; m] =>
          if (d > 0)%js && (PrimFloat.abs l <= NON_PHYSICAL_COEFFICIENT_LIMIT)%js
             && (PrimFloat.abs m <= NON_PHYSICAL_COEFFICIENT_LIMIT)%js
          then Some [l; d; m] else None
      | _ => None
      end
  | _ => None
  end.

(** [raw.length]-like reads of the last element inside bounds. *)
Definition last_num (xs : list jsnum) : jsnum := List.last xs PrimFloat.nan.

(** ** A fatal solver message

    [/(?:^|\n)\s*(?:FOAM FATAL ERROR\b|...)/i] *)
Definition word_char (c : ascii) : bool :=
  let n := code c in
  (Nat.leb 48 n && Nat.leb n 57) || (Nat.leb 65 n && Nat.leb n 90) || Nat.eqb n 95
  || (Nat.leb 97 n && Nat.leb n 122).

(** [literal] at the start of [s], any case; the rest. *)
Fixpoint strip_literal (literal s : string) : option string :=
  match literal, s with
  | EmptyString, _ => Some s
  | String c l', String x s' =>
      if Ascii.eqb (lower_char x) c then strip_literal l' s' else None
  | String _ _, EmptyString => None
  end.

Definition word_end (rest : string) : bool :=
  match rest with EmptyString => true | String c _ => negb (word_char c) end.

Definition fatal_at (s : string) : bool :=
  let word l := match strip_literal l s with Some rest => word_end rest | None => false end in
  word "foam fatal error" || word "floating point exception"
  || match strip_literal "divergence guard:" s with Some _ => true | None => false end
  || word "solver diverged".

Fixpoint fatal_after_newline (s : string) : bool :=
  match s with
  | EmptyString => false
  | String c s' => (Nat.eqb (code c) 10 && fatal_at (trim_start s')) || fatal_after_newline s'
  end.

Definition fatal_message (s : string) : bool := fatal_at (trim_start s) || fatal_after_newline s.

Example fatal_message_ex :
  List.map fatal_message
    ["FOAM FATAL ERROR: x"; "note: FOAM FATAL ERROR"; "foam fatal errors";
     String "t" (String "010" "  Solver diverged."); "Divergence guard:"]
  = [true; false; false; true; true].
Proof. vm_compute. reflexivity. Qed.

(** ** Source geometry *)

Section Fit.
Context (hypot : jsnum -> jsnum -> jsnum).
Context (localeCompare hostCompare : string -> string -> jsnum) (sha256 : string -> string).

Abbreviation contentHash := (analysisContentHash localeCompare sha256).

Definition malformed_point (point : list jsnum) : bool :=
  negb (Nat.eqb (length point) 2) || negb (forallb isFinite point).

Definition coordinate_at (i : nat) (point : list jsnum) : jsnum := nth i point PrimFloat.nan.

Definition geometryRequiresPreservation (points : list (list jsnum)) : result bool :=
  let* _ := throw_if (Nat.ltb (length points) 3 || existsb malformed_point points)
              "A polar requires finite source geometry" in
  let x := coordinate_at 0 in
  let y := coordinate_at 1 in
  let first := hd [] points in
  let last := List.last points [] in
  let leading := fold_left (fun previous point => if (x point < x previous)%js then point
                                                  else previous) (tl points) first in
  let chord := hypot ((x first + x last) / 2 - x leading)%float
                     ((y first + y last) / 2 - y leading)%float in
  let* _ := throw_if (negb (chord > 0)%js) "Source geometry has no chord length" in
  Ok (hypot (x first - x last)%float (y first - y last)%float > chord * 1e-10)%js.

Definition recovered_mesh (version : jsval) : bool :=
  match version with
  | JNum v => isSafeInteger v && (v >= SOURCE_GEOMETRY_MESH_VERSION)%js && (v <= 2147483647)%js
  | _ => false
  end.

Definition progressiveEvidencePreservesGeometry (points : list (list jsnum)) (o : record) :
    result bool :=
  let* required := geometryRequiresPreservation points in
  Ok (negb required || recovered_mesh (get "mesh_recovery_version" o)).

(** ** Applicability of the history bias *)

(** [identity[key] === expected] for the constants of the engine. *)
Definition same_constant (expected v : jsval) : bool :=
  match expected, v with
  | JStr s, JStr t => String.eqb s t
  | JNum x, JNum y => (x === y)%js
  | _, _ => false
  end.

Definition engineIdentity (value : jsval) : option jsval :=
  match record_of value with
  | None => None
  | Some engine =>
      if forallb (fun e => same_constant (snd e) (get (fst e) engine)) HISTORY_BIAS_ENGINE
      then Some (JObj (List.map (fun e => (fst e, get (fst e) engine)) HISTORY_BIAS_ENGINE))
      else None
  end.

Definition numericalIdentity_of (o : record) : result (option string) :=
  match engineIdentity (get "engine" o) with
  | None => Ok None
  | Some engine =>
      let methodKey := get "method_key" o in
      let fidelity := get "fidelity" o in
      if (negb (is_str methodKey "openfoam.rans") && negb (is_str methodKey "openfoam.urans"))
         || (negb (is_str fidelity "trans") && negb (is_str fidelity "urans_precalc"))
      then Ok None
      else
        let* h := contentHash (JObj [("engine", engine); ("fidelity", fidelity);
                                     ("methodKey", methodKey);
                                     ("version", JStr "history-bias-numerical-v1")]) in
        Ok (Some h)
  end.

Definition Math_min_all (xs : list jsnum) : jsnum := fold_left Math_min xs PrimFloat.infinity.

(** [source.prediction.alpha] when it is an array of at least two numbers, all
    finite and in the scope; reading the length of nothing throws. *)
Definition bias_angles (v : jsval) : result bool :=
  match v with
  | JUndef => Throw "Cannot read properties of undefined (reading 'length')"
  | JNull => Throw "Cannot read properties of null (reading 'length')"
  | JArr vs =>
      Ok match finite_all vs with
         | Some xs =>
             Nat.leb 2 (length xs)
             && negb (Math_min_all xs < fst HISTORY_BIAS_ANGLE_SCOPE)%js
             && negb (Math_max_all xs > snd HISTORY_BIAS_ANGLE_SCOPE)%js
         | None => false
         end
  | _ => Ok false
  end.

Definition bias_condition (source : ProgressiveFitLease) : bool :=
  let p := physical source in
  String.eqb (branch p) "increasing"
  && match mach p with
     | None => false
     | Some m => existsb (fun candidate => (PrimFloat.abs (m - candidate)%float < 1e-12)%js)
                   HISTORY_BIAS_MACHES
     end
  && isFinite (reynolds p) && JsArray.includes HISTORY_BIAS_REYNOLDS (Math_round (reynolds p)).

Definition all_fast (evidence : list ProgressiveFitEvidence) : bool :=
  negb (Nat.eqb (length evidence) 0) && forallb (fun e => bool_decide (stage e = Fast)) evidence.

Definition progressiveBiasApplicability (source : ProgressiveFitLease) :
    result (option ProgressiveBiasApplicability) :=
  if negb (bias_condition source) then Ok None
  else
    let* angles := bias_angles (get "alpha" (prediction source)) in
    if negb angles || negb (all_fast (evidence_list source)) then Ok None
    else
      let* numerical := result_map (fun e => numericalIdentity_of (payload e))
                          (evidence_list source) in
      match numerical with
      | Some first :: _ =>
          if negb (nonempty first) || existsb (fun i => negb (bool_decide (i = Some first))) numerical
          then Ok None
          else
            let* h := contentHash (JObj [("condition", condition (physical source));
                                         ("version", JStr "history-bias-physical-v1")]) in
            Ok (Some {| physicalIdentity := h; numericalIdentity := first;
                         angleScope := HISTORY_BIAS_ANGLE_SCOPE |})
      | _ => Ok None
      end.

(** ** One piece of evidence *)

Definition with_result (o : Observation) (c se : option vector3) (ok : bool) (why : option string)
    (certification : string) : Observation :=
  {| observation_id := observation_id o; result_id := result_id o; attempt_id := attempt_id o;
     lineage_id := lineage_id o; target_signature := target_signature o;
     obs_branch := obs_branch o; method := method o; obs_alpha := obs_alpha o;
     coefficients := c; standard_error := se; eligible := ok;
     numerical_convergence := numerical_convergence o; statistical_certification := certification;
     exclusion_reason := why; identities := identities o; accepted_cfd := accepted_cfd o |}.

Definition excluded (candidate : Candidate) (reason : string) : Candidate :=
  {| evidence := evidence candidate;
     observation := with_result (observation candidate) None None false (Some reason)
                      (statistical_certification (observation candidate));
     history := None |}.

Definition initialObservation (lease : ProgressiveFitLease) (e : ProgressiveFitEvidence)
    (applicability : option ProgressiveBiasApplicability) : Observation :=
  {| observation_id := "attempt-" +:+ resultAttemptId e; result_id := resultId e;
     attempt_id := resultAttemptId e; lineage_id := lineageId e;
     target_signature := targetId lease; obs_branch := branch (physical lease);
     method := match stage e with Fast => openfoam_fast | Precise => openfoam_precise end;
     obs_alpha := alpha e; coefficients := None; standard_error := None; eligible := true;
     numerical_convergence :=
       if is_true (get "converged" (payload e)) then "converged" else "unconverged";
     statistical_certification := "informative_uncertified"; exclusion_reason := None;
     identities := applicability; accepted_cfd := None |}.

Definition classified_as (e : ProgressiveFitEvidence) (state : string) : bool :=
  match classification e with Some (s, _) => String.eqb s state | None => false end.

(** The exclusions before the history is read, in the order of the code. *)
Definition earlyExclusion (lease : ProgressiveFitLease) (e : ProgressiveFitEvidence) :
    result (option string) :=
  let p := payload e in
  let v := default "" (verdict e) in
  let disposition := to_string (get "failure_disposition" p) in
  if mem v ["exclude"; "defer"] then Ok (Some ("review_" +:+ v))
  else if classified_as e "superseded_by_urans" then Ok (Some "superseded_by_urans")
  else if mem disposition ["infrastructure"; "deterministic_mesh"; "material_domain"]
  then Ok (Some ("failure_" +:+ disposition))
  else if match classification e with
          | Some (_, reasons) =>
              existsb (fun r => mem r ["non-physical-coefficients"; "non-positive-drag"]) reasons
          | None => false
          end
  then Ok (Some "nonphysical_coefficients")
  else if match get "error" p with JStr s => fatal_message s | _ => false end
  then Ok (Some "divergent_or_fatal_solver_evidence")
  else
    let* preserved := progressiveEvidencePreservesGeometry (geometry (physical lease)) p in
    Ok (if preserved then None else Some "unverified_source_geometry").

Fixpoint increasing (xs : list jsnum) : bool :=
  match xs with
  | a :: ((b :: _) as rest) => negb (b <= a)%js && increasing rest
  | _ => true
  end.

(** A recorded history with its rows, or the reason it is refused. *)
Definition historyRows (coordinate_value : jsval) (channels : list jsval) :
    string + (list jsnum * list vector3) :=
  match coordinate_value with
  | JArr cs =>
      match finite_all cs with
      | Some xs =>
          if Nat.ltb (length xs) 4 || negb (increasing xs)
             || existsb (fun channel => match channel with
                                        | JArr l => negb (Nat.eqb (length l) (length xs))
                                        | _ => true
                                        end) channels
          then inl "malformed_or_insufficient_history"
          else
            let row i := List.map (fun channel =>
                           match channel with JArr l => nth i l JUndef | _ => JUndef end) channels in
            match all_some (List.map (fun i => physicalCoefficients (row i)) (seq 0 (length xs))) with
            | Some rows => inr (xs, rows)
            | None => inl "nonphysical_history_coefficients"
            end
      | None => inl "malformed_or_insufficient_history"
      end
  | _ => inl "malformed_or_insufficient_history"
  end.

(** [a ?? b] *)
Definition or_else (a b : jsval) : jsval := if nullish a then b else a.

(** The start of the informative window, or the reason there is none. *)
Definition informativeStart (lease : ProgressiveFitLease) (e : ProgressiveFitEvidence)
    (transient : bool) (raw : record) (xs : list jsnum) : string + jsnum :=
  let first := hd PrimFloat.nan xs in
  let start_value :=
    if transient
    then or_else (get "window_start" raw)
           (opt_get "t_start" (record_of (opt_get "window" (record_of (get "frame_track" (payload e))))))
    else opt_get "start_iter" (record_of (get "window" raw)) in
  match finite_num start_value with
  | None => inl "missing_informative_window"
  | Some start =>
      if (start < first)%js || (start > last_num xs)%js then inl "missing_informative_window"
      else
        match finite_num (if transient then or_else (get "source_start_time" raw) (JNum first)
                          else JNum first) with
        | None => inl "invalid_history_origin"
        | Some origin =>
            if (origin > first)%js then inl "invalid_history_origin"
            else if transient && negb (classified_as e "accepted") then
              let length := referenceLengthM (physical lease) in
              let speed := speedMps (physical lease) in
              if negb (isFinite length) || (length <= 0)%js || negb (isFinite speed) || (speed <= 0)%js
              then inl "missing_physical_history_scale"
              else
                let informative :=
                  Math_max start (origin + (minimumUncertifiedConvectiveTransits * length) / speed)%float in
                if (informative >= last_num xs)%js then inl "startup_only_history" else inr informative
            else inr start
        end
  end.

(** [transient && finite(iat) && iat > 0 ? iat : null] with the evidence's identifier. *)
Definition correlation (e : ProgressiveFitEvidence) (transient : bool) : option (jsnum * string) :=
  match interpretation e with
  | Some (id, Some iat) => if transient && isFinite iat && (iat > 0)%js then Some (iat, id) else None
  | _ => None
  end.

Definition historyCandidate (lease : ProgressiveFitLease) (e : ProgressiveFitEvidence)
    (candidate : Candidate) (transient : bool) (raw : record) : result Candidate :=
  match historyRows (get (if transient then "t" else "iterations") raw)
          [get "cl" raw; get "cd" raw; get "cm" raw] with
  | inl reason => Ok (excluded candidate reason)
  | inr (xs, rows) =>
      match informativeStart lease e transient raw xs with
      | inl reason => Ok (excluded candidate reason)
      | inr start =>
          let* h := contentHash (JObj raw) in
          Ok {| evidence := e; observation := observation candidate;
                history := Some
                  {| observation_of := observation candidate; artifact_sha256 := h;
                     coordinate_kind := if transient then physical_time else iteration;
                     coordinate := xs; history_coefficients := rows; informative_start := start;
                     correlation_time := fst <$> correlation e transient;
                     correlation_evidence_id := snd <$> correlation e transient |} |}
      end
  end.

Definition steadyCandidate (e : ProgressiveFitEvidence) (candidate : Candidate) : Candidate :=
  let p := payload e in
  let values := physicalCoefficients [get "cl" p; get "cd" p; get "cm" p] in
  match values with
  | Some [l; d; m] =>
      if negb (is_true (get "converged" p)) || is_true (get "unsteady" p)
         || is_true (get "stalled" p) || truthy (get "error" p)
      then excluded candidate "insufficient_informative_evidence"
      else
        let '(fl, fd, fm) := noise_floor (stage e) in
        {| evidence := e;
           observation := with_result (observation candidate) (Some [l; d; m])
             (Some [fl; Math_max 1e-12 (d * fd)%float; fm]) true None
             (if classified_as e "accepted" then "steady" else "informative_uncertified");
           history := None |}
  | _ => excluded candidate "insufficient_informative_evidence"
  end.

Definition candidateFor (lease : ProgressiveFitLease)
    (applicability : option ProgressiveBiasApplicability) (e : ProgressiveFitEvidence) :
    result Candidate :=
  let candidate := {| evidence := e; observation := initialObservation lease e applicability;
                      history := None |} in
  let* early := earlyExclusion lease e in
  match early with
  | Some reason => Ok (excluded candidate reason)
  | None =>
      match record_of (get "force_history" (payload e)), record_of (get "steady_history" (payload e)) with
      | Some raw, _ => historyCandidate lease e candidate true raw
      | None, Some raw => historyCandidate lease e candidate false raw
      | None, None => Ok (steadyCandidate e candidate)
      end
  end.

(** ** The request *)

Definition overlaps (left right : Candidate) : bool :=
  if negb (String.eqb (lineageId (evidence left)) (lineageId (evidence right))) then false
  else
    match history left, history right with
    | Some l, Some r =>
        match coordinate_kind l, coordinate_kind r with
        | physical_time, physical_time =>
            (Math_min (last_num (coordinate l)) (last_num (coordinate r)) >
             Math_max (informative_start l) (informative_start r))%js
        | _, _ => true
        end
    | _, _ => true
    end.

(** Newest first, then by attempt. *)
Definition newestFirst (left right : Candidate) : jsnum :=
  js_or (hostCompare (createdAt (evidence right)) (createdAt (evidence left)))
        (hostCompare (resultAttemptId (evidence right)) (resultAttemptId (evidence left))).

(** [ordered.map(...)] with the array [accepted] that the callback appends to. *)
Fixpoint admit_from (accepted : list Candidate) (ordered : list Candidate) : list Candidate :=
  match ordered with
  | [] => []
  | candidate :: rest =>
      if negb (eligible (observation candidate)) then candidate :: admit_from accepted rest
      else if existsb (overlaps candidate) accepted
      then excluded candidate "overlapping_lineage_evidence" :: admit_from accepted rest
      else candidate :: admit_from (accepted ++ [candidate]) rest
  end.

Definition candidates_of (ordered : list Candidate) : list Candidate := admit_from [] ordered.

Definition histories_of (candidates : list Candidate) : list History :=
  List.flat_map (fun c => match history c with Some h => [h] | None => [] end) candidates.

Definition observations_of (candidates : list Candidate) : list Observation :=
  List.map observation
    (List.filter (fun c => match history c with Some _ => false | None => true end) candidates).

Definition directCount (observations : list Observation) : nat :=
  length (List.filter eligible observations).

Definition blocksPerHistory (direct histories : nat) : jsnum :=
  Math_min 3 (Math_floor ((128 - of_nat direct) / Math_max 1 (of_nat histories))%float).

Definition total_samples (histories : list History) : nat :=
  fold_left (fun sum h => sum + length (coordinate h))%nat histories 0%nat.

Definition block_span (histories : list History) : jsnum :=
  fold_left Math_max
    (List.map (fun h => (last_num (coordinate h) - informative_start h)%float)
       (List.filter (fun h => match coordinate_kind h with physical_time => true | iteration => false end)
          histories))
    1e-12%float.

Record HistoryPolicy := {
  block_duration : jsnum;
  minimum_samples : jsnum;
  maximum_blocks : jsnum;
  history_noise : vector3;
}.

Record ProgressivePolarFitRequest := {
  epoch_id : string;
  lease_token : string;
  prior_prediction : string;
  prior_target : string;
  prior_branch : string;
  prior_alpha : list jsval;
  prior_coefficients : list vector3;
  prior_deviation : list vector3;
  prior_provenance : record;
  prior_bias : option ProgressiveBiasApplicability; (* in the provenance *)
  observations : list Observation;
  histories : list History;
  history_policy : option HistoryPolicy;
  policy_id : string;
  policy_model : record;
  policy_bias_std : option vector3;
}.

(** [`${version}-${analysisContentHash(ASSUMPTIONS)}`] and its source-bound variant. *)
Definition PROGRESSIVE_FIT_POLICY_ID : result string :=
  let* h := contentHash ASSUMPTIONS in Ok (assumptions_version +:+ "-" +:+ h).

Definition PROGRESSIVE_FIT_BIAS_POLICY_ID : result string :=
  let* h := contentHash
    (JObj [("angleScope", nums [fst HISTORY_BIAS_ANGLE_SCOPE; snd HISTORY_BIAS_ANGLE_SCOPE]);
           ("engine", JObj HISTORY_BIAS_ENGINE); ("mach", nums HISTORY_BIAS_MACHES);
           ("multipliers", nums [1; 1; 1]%float);
           ("reynolds", nums (sort ascending HISTORY_BIAS_REYNOLDS))]) in
  Ok (assumptions_version +:+ "-source-bound-bias-v1-" +:+ h).

Definition prior_std (row : vector3) : vector3 :=
  [priorLiftStd;
   Math_max priorDragStdFloor (nth 1 row PrimFloat.nan * priorDragRelativeStd)%float;
   priorMomentStd].

(** [physicalCoefficients] on a stored row of any type. *)
Definition priorRow (row : jsval) : result (option vector3) :=
  match row with
  | JArr values => Ok (physicalCoefficients values)
  | JUndef => Throw "Cannot read properties of undefined (reading 'length')"
  | JNull => Throw "Cannot read properties of null (reading 'length')"
  | JStr s => if Nat.eqb (String.length s) 3 then Throw "values.every is not a function" else Ok None
  | JObj o => if strict_eq_num (get "length" o) 3 then Throw "values.every is not a function"
              else Ok None
  | _ => Ok None
  end.

(** [coefficients.every(physicalCoefficients)] with the rows. *)
Fixpoint priorRows (rows : list jsval) : result (option (list vector3)) :=
  match rows with
  | [] => Ok (Some [])
  | row :: rest =>
      let* v := priorRow row in
      match v with
      | None => Ok None
      | Some x => let* xs := priorRows rest in Ok (cons x <$> xs)
      end
  end.

(** The stored prior: angles and physical coefficient rows of the same number. *)
Definition prior_of (p : record) : result (list jsval * list vector3) :=
  let malformed := Throw "Stored NeuralFoil prior is malformed" in
  match get "alpha" p, get "coefficients" p with
  | JArr angles, JArr rows =>
      if negb (Nat.eqb (length angles) (length rows)) then malformed
      else
        let* vs := priorRows rows in
        match vs with Some vs => Ok (angles, vs) | None => malformed end
  | _, _ => malformed
  end.

Definition buildProgressiveFitRequest (lease : ProgressiveFitLease) :
    result ProgressivePolarFitRequest :=
  let* applicability := progressiveBiasApplicability lease in
  let* prior := prior_of (prediction lease) in
  let* mapped := result_map (candidateFor lease applicability) (evidence_list lease) in
  let candidates := candidates_of (sort newestFirst mapped) in
  let hs := histories_of candidates in
  let obs := observations_of candidates in
  let blocks := blocksPerHistory (directCount obs) (length hs) in
  let* _ := throw_if ((blocks < 1)%js || Nat.ltb 64 (length hs)
                        || (32768 <? Z.of_nat (total_samples hs))%Z)
              "Joint fit requires a larger bounded history reduction batch" in
  let* id := match applicability with
             | Some _ => PROGRESSIVE_FIT_BIAS_POLICY_ID
             | None => PROGRESSIVE_FIT_POLICY_ID
             end in
  Ok {| epoch_id := epochId lease; lease_token := token lease;
        prior_prediction := predictionId lease; prior_target := targetId lease;
        prior_branch := branch (physical lease); prior_alpha := fst prior;
        prior_coefficients := snd prior; prior_deviation := List.map prior_std (snd prior);
        prior_provenance :=
          List.map (fun k => (k, get k (prediction lease)))
            ["model"; "geometry_fit"; "geometry_provenance"];
        prior_bias := applicability; observations := obs; histories := hs;
        history_policy :=
          match hs with
          | [] => None
          | _ => Some {| block_duration := (block_span hs / blocks)%float; minimum_samples := 4;
                         maximum_blocks := blocks; history_noise := historyNoiseFloor |}
          end;
        policy_id := id; policy_model := model_policy;
        policy_bias_std := match applicability with Some _ => Some HISTORY_BIAS_STD | None => None end |}.
End Fit.

(** ** One batch

    [runProgressiveFitBatch]: the outcomes of the claim, of the fitting service
    and of the two writes are arguments, and [describe] is [String(error)] of the
    exception with a message; the calls are the writes made. *)
Inductive call :=
  | Stored (request : ProgressivePolarFitRequest)
  | Failed (message : string).

Definition runProgressiveFitBatch (build : ProgressiveFitLease -> result ProgressivePolarFitRequest)
    (describe : string -> string) (lease : option ProgressiveFitLease)
    (fit : ProgressivePolarFitRequest -> result unit) (store : result unit) (fail : result unit) :
    list call * result (nat * nat * list string) :=
  match lease with
  | None => ([], Ok (0, 0, []))
  | Some lease =>
      let failed m :=
        ([Failed (describe m)], bind_result fail (fun _ => Ok (1, 0, [describe m]))) in
      match build lease with
      | Throw m => failed m
      | Ok request =>
          match fit request with
          | Throw m => failed m
          | Ok _ =>
              match store with
              | Ok _ => ([Stored request], Ok (1, 1, []))
              | Throw m => let '(cs, r) := failed m in (Stored request :: cs, r)
              end
          end
      end
  end%nat.

(** ** The rows of a request *)

Definition physical_row (row : vector3) : Prop :=
  exists l d m, row = [l; d; m] /\ Forall (fun x => isFinite x = true) row /\
    (0 < ord d)%Z /\ (Z.abs (ord l) <= ord 5%float)%Z /\ (Z.abs (ord m) <= ord 5%float)%Z.

Lemma all_some_spec {A} (l : list (option A)) (xs : list A) :
  all_some l = Some xs <-> l = List.map Some xs.
Proof.
  split.
  - revert xs. induction l as [|[x|] l IH]; intros xs; cbn; [by intros [= <-]| |done].
    destruct (all_some l) as [ys|]; [|done]. intros [= <-]. cbn. f_equal. by apply IH.
  - intros ->. induction xs as [|x xs IH]; cbn; [done|]. by rewrite IH.
Qed.

Lemma finite_num_spec (v : jsval) (x : jsnum) :
  finite_num v = Some x <-> v = JNum x /\ isFinite x = true.
Proof.
  destruct v as [| | |y| | |]; cbn; try (split; [done|by intros [? _]]).
  destruct (isFinite y) eqn:E; (split; [by intros [= <-]|]); intros [[= <-] H]; congruence.
Qed.

Lemma finite_all_spec (vs : list jsval) (xs : list jsnum) :
  finite_all vs = Some xs <-> vs = List.map JNum xs /\ Forall (fun x => isFinite x = true) xs.
Proof.
  unfold finite_all. rewrite all_some_spec. revert xs. induction vs as [|v vs IH]; intros xs; cbn.
  - destruct xs; naive_solver.
  - destruct xs as [|x xs]; [naive_solver|]. cbn. split.
    + intros [= Hv H]. apply finite_num_spec in Hv as [-> Hx]. apply IH in H as [-> H].
      split; [done|by constructor].
    + intros [[= -> ->] [Hx H]%Forall_cons_iff]. f_equal; [by apply finite_num_spec|]. by apply IH.
Qed.

Lemma physicalCoefficients_spec (vs : list jsval) (row : vector3) :
  physicalCoefficients vs = Some row -> vs = List.map JNum row /\ physical_row row.
Proof.
  unfold physicalCoefficients.
  destruct vs as [|v1 [|v2 [|v3 [|]]]]; try done.
  destruct (finite_all [v1; v2; v3]) as [[|l [|d [|m [|]]]]|] eqn:E; try done.
  apply finite_all_spec in E as [E Hf]. destruct (_ && _) eqn:B; [|done]. intros [= <-].
  split; [done|]. apply andb_true_iff in B as [B Bm]. apply andb_true_iff in B as [Bd Bl].
  exists l, d, m. split; [done|]. split; [done|].
  apply Forall_cons_iff in Hf as [Hl Hf]. apply Forall_cons_iff in Hf as [Hd _].
  apply ltb_true_lt in Bd. apply leb_true_le in Bl, Bm.
  rewrite ord_0 in Bd. rewrite ord_abs in Bl, Bm. done.
Qed.

(** A strictly increasing recording. *)
Lemma increasing_sorted (xs : list jsnum) :
  Forall (fun x => isFinite x = true) xs -> increasing xs = true ->
  StronglySorted (fun x y => ord x < ord y)%Z xs.
Proof.
  intros Hf H. apply Sorted_StronglySorted; [intros x y z; lia|].
  induction xs as [|x xs IH]; [constructor|]. apply Forall_cons_iff in Hf as [Hx Hf].
  destruct xs as [|y xs]; [repeat constructor|].
  change (negb (y <= x)%js && increasing (y :: xs) = true) in H.
  apply andb_true_iff in H as [Hxy H]. apply negb_true_iff in Hxy.
  constructor; [by apply IH|]. constructor.
  apply Forall_cons_iff in Hf as [Hy _]. by apply leb_finite_false in Hxy.
Qed.

(** ** Histories *)

(** The recorded window and rows of a history of [e]. *)
Record good_history (lease : ProgressiveFitLease) (e : ProgressiveFitEvidence) (h : History) : Prop := {
  good_samples : (4 <= length (coordinate h))%nat;
  good_finite : Forall (fun x => isFinite x = true) (coordinate h);
  good_increasing : StronglySorted (fun x y => ord x < ord y)%Z (coordinate h);
  good_rows : length (history_coefficients h) = length (coordinate h) /\
    Forall physical_row (history_coefficients h);
  good_window : isNaN (informative_start h) = false /\
    (ord (hd PrimFloat.nan (coordinate h)) <= ord (informative_start h) <=
     ord (last_num (coordinate h)))%Z;
  good_startup : coordinate_kind h = physical_time -> classified_as e "accepted" = false ->
    (ord (informative_start h) < ord (last_num (coordinate h)))%Z /\
    exists origin, isFinite origin = true /\ (ord origin <= ord (hd PrimFloat.nan (coordinate h)))%Z /\
      (ord (origin + 1 * referenceLengthM (physical lease) / speedMps (physical lease))%float <=
       ord (informative_start h))%Z;
}.

Lemma historyRows_ok (cv : jsval) (channels : list jsval) xs rows :
  historyRows cv channels = inr (xs, rows) ->
  (4 <= length xs)%nat /\ Forall (fun x => isFinite x = true) xs /\
  StronglySorted (fun x y => ord x < ord y)%Z xs /\
  length rows = length xs /\ Forall physical_row rows.
Proof.
  unfold historyRows. destruct cv as [| | | | |cs|]; try done.
  destruct (finite_all cs) as [ys|] eqn:E; [|done]. apply finite_all_spec in E as [-> Hf].
  destruct (_ || existsb _ channels) eqn:B; [done|].
  apply orb_false_iff in B as [B _]. apply orb_false_iff in B as [Hl Hi%negb_false_iff].
  destruct (all_some _) as [rs|] eqn:Er; [|done]. intros [= <- <-].
  apply all_some_spec in Er. split; [by apply Nat.ltb_ge|]. split; [done|].
  split; [by apply increasing_sorted|]. split.
  - apply (f_equal length) in Er. rewrite !length_map, length_seq in Er. done.
  - apply List.Forall_forall. intros row Hrow. apply (in_map Some) in Hrow. rewrite <- Er in Hrow.
    apply in_map_iff in Hrow as (i & Hi' & _). by apply physicalCoefficients_spec in Hi' as [_ ?].
Qed.

Lemma last_finite (xs : list jsnum) :
  xs <> [] -> Forall (fun x => isFinite x = true) xs -> isFinite (last_num xs) = true.
Proof.
  intros Hn Hf. unfold last_num. rewrite List.Forall_forall in Hf. apply Hf.
  destruct (exists_last Hn) as (l & x & ->). rewrite last_last. apply in_app_iff. right. by left.
Qed.

Lemma hd_finite (xs : list jsnum) :
  xs <> [] -> Forall (fun x => isFinite x = true) xs -> isFinite (hd PrimFloat.nan xs) = true.
Proof. destruct xs; [done|]. by intros _ [? _]%Forall_cons_iff. Qed.

Lemma informativeStart_ok lease e transient raw xs start :
  xs <> [] -> Forall (fun x => isFinite x = true) xs ->
  informativeStart lease e transient raw xs = inr start ->
  isNaN start = false /\ (ord (hd PrimFloat.nan xs) <= ord start <= ord (last_num xs))%Z /\
  (transient = true -> classified_as e "accepted" = false ->
   (ord start < ord (last_num xs))%Z /\
   exists origin, isFinite origin = true /\ (ord origin <= ord (hd PrimFloat.nan xs))%Z /\
     (ord (origin + 1 * referenceLengthM (physical lease) / speedMps (physical lease))%float <=
      ord start)%Z).
Proof.
  intros Hn Hf. pose proof (last_finite xs Hn Hf) as Fl. pose proof (hd_finite xs Hn Hf) as Fh.
  unfold informativeStart. destruct (finite_num _) as [s0|] eqn:Es; [|done].
  apply finite_num_spec in Es as [_ Fs]. destruct (_ || _) eqn:B; [done|].
  apply orb_false_iff in B as [B1 B2]. apply ltb_finite_false in B1, B2; [|done..].
  destruct (finite_num _) as [origin|] eqn:Eo; [|done]. apply finite_num_spec in Eo as [_ Fo].
  destruct (origin > _)%js eqn:Bo; [done|]. apply ltb_finite_false in Bo; [|done..].
  destruct transient; cbn [andb]; [|intros [= <-]; split; [auto with js|]; done].
  destruct (classified_as e "accepted"); cbn [negb]; [intros [= <-]; split; [auto with js|]; split; [lia|done]|].
  destruct (_ || (_ <= 0)%js) eqn:Bs; [done|].
  apply orb_false_iff in Bs as [Bs Hv]. apply orb_false_iff in Bs as [Bs Fv%negb_false_iff].
  apply orb_false_iff in Bs as [FL%negb_false_iff HL].
  apply leb_finite_false in Hv; [|done..]. rewrite ord_0 in Hv.
  set (y := (origin + _)%float). assert (Ny : isNaN y = false).
  { apply add_not_nan; [done|]. apply div_not_nan_finite; [by apply mul_not_nan|done|lia]. }
  destruct (Math_max_ord s0 y) as [Nm Om]; [auto with js|done|].
  destruct (Math_max s0 y >= last_num xs)%js eqn:Bm; [done|]. intros [= <-].
  apply leb_false_ord in Bm; [|auto with js|done]. split; [done|]. rewrite Om in *.
  split; [lia|]. intros _ _. split; [lia|]. exists origin.
  split; [done|]. split; [done|]. change (ord y <= Z.max (ord s0) (ord y))%Z. lia.
Qed.

(** ** Candidates *)

(** The row is about the evidence it is made from. *)
Definition row_of_evidence (lease : ProgressiveFitLease) (e : ProgressiveFitEvidence)
    (o : Observation) : Prop :=
  attempt_id o = resultAttemptId e /\ result_id o = resultId e /\ lineage_id o = lineageId e /\
  obs_alpha o = alpha e /\ target_signature o = targetId lease /\
  method o = match stage e with Fast => openfoam_fast | Precise => openfoam_precise end.

(** An eligible row carries physical coefficients or a good history, an excluded
    one carries nothing but its reason. *)
Record sound (lease : ProgressiveFitLease) (c : Candidate) : Prop := {
  sound_row : row_of_evidence lease (evidence c) (observation c);
  sound_eligible : eligible (observation c) = true -> exclusion_reason (observation c) = None /\
    match history c with
    | Some h => observation_of h = observation c /\ coefficients (observation c) = None /\
                good_history lease (evidence c) h
    | None => exists row, coefficients (observation c) = Some row /\ physical_row row /\
                is_Some (standard_error (observation c))
    end;
  sound_excluded : eligible (observation c) = false ->
    history c = None /\ coefficients (observation c) = None /\
    standard_error (observation c) = None /\ is_Some (exclusion_reason (observation c));
}.

Lemma excluded_sound lease c reason :
  row_of_evidence lease (evidence c) (observation c) -> sound lease (excluded c reason).
Proof. intros H. split; [exact H|done|]. intros _. by split_and!. Qed.

Section Rows.
Context (hypot : jsnum -> jsnum -> jsnum).
Context (localeCompare hostCompare : string -> string -> jsnum) (sha256 : string -> string).

Lemma initial_row lease e applicability :
  row_of_evidence lease e (initialObservation lease e applicability).
Proof. by split_and!. Qed.

Lemma historyCandidate_sound lease e o transient raw c :
  row_of_evidence lease e o -> eligible o = true -> coefficients o = None ->
  exclusion_reason o = None ->
  historyCandidate localeCompare sha256 lease e
    {| evidence := e; observation := o; history := None |} transient raw = Ok c ->
  evidence c = e /\ sound lease c.
Proof.
  intros Ho He Hc Hx. unfold historyCandidate.
  destruct (historyRows _ _) as [reason|[xs rows]] eqn:Er.
  { intros [= <-]. split; [done|]. by apply excluded_sound. }
  apply historyRows_ok in Er as (Hl & Hf & Hs & Hrl & Hr).
  assert (Hn : xs <> []) by (intros ->; cbn in Hl; lia).
  destruct (informativeStart _ _ _ _ _) as [reason|start] eqn:Ei.
  { intros [= <-]. split; [done|]. by apply excluded_sound. }
  apply informativeStart_ok in Ei as (Nn & Hw & Hu); [|done..].
  intros (h & _ & [= <-])%bind_ok. split; [done|]. split; [exact Ho| |cbn; by rewrite He].
  intros _. split; [exact Hx|]. cbn. split; [done|]. split; [done|].
  split; [done|done|done|by split|done|]. cbn. destruct transient; [intros _; by apply Hu|done].
Qed.

Lemma steadyCandidate_sound lease e o :
  row_of_evidence lease e o ->
  let c := steadyCandidate e {| evidence := e; observation := o; history := None |} in
  evidence c = e /\ sound lease c.
Proof.
  intros Ho. unfold steadyCandidate.
  set (base := {| evidence := e; observation := o; history := None |}).
  assert (Hex : forall r, evidence (excluded base r) = e /\ sound lease (excluded base r)).
  { intros r. split; [done|]. by apply excluded_sound. }
  destruct (physicalCoefficients _) as [row|] eqn:Ep; [|apply Hex].
  apply physicalCoefficients_spec in Ep as [_ Hp].
  destruct row as [|l [|d [|m [|]]]]; try apply Hex.
  destruct (_ || truthy _); [apply Hex|]. destruct (noise_floor (stage e)) as [[fl fd] fm].
  split; [done|]. split; [exact Ho| |done]. intros _. split; [done|]. cbn. eauto.
Qed.

Lemma candidateFor_sound lease applicability e c :
  candidateFor hypot localeCompare sha256 lease applicability e = Ok c ->
  evidence c = e /\ sound lease c.
Proof.
  unfold candidateFor. intros (early & _ & H)%bind_ok.
  pose proof (initial_row lease e applicability) as Hi.
  destruct early as [reason|].
  { injection H as <-. split; [done|]. by apply excluded_sound. }
  destruct (record_of (get "force_history" (payload e))) as [raw|].
  { by apply historyCandidate_sound in H. }
  destruct (record_of (get "steady_history" (payload e))) as [raw|].
  { by apply historyCandidate_sound in H. }
  injection H as <-. by apply steadyCandidate_sound.
Qed.

Lemma mapped_sound lease applicability es cs :
  result_map (candidateFor hypot localeCompare sha256 lease applicability) es = Ok cs ->
  List.map evidence cs = es /\ Forall (sound lease) cs.
Proof.
  intros H%result_map_ok. induction H as [|e c es cs Hc _ [IH1 IH2]]; [done|].
  apply candidateFor_sound in Hc as [He Hs]. cbn. rewrite He, IH1. split; [done|by constructor].
Qed.
End Rows.

(** ** Admission by lineage *)

Lemma admit_from_evidence (l : list Candidate) : forall acc,
  List.map evidence (admit_from acc l) = List.map evidence l.
Proof.
  induction l as [|c l IH]; intros acc; cbn [admit_from]; [done|].
  destruct (negb _); [|destruct (existsb _ _)]; cbn; by rewrite IH.
Qed.

Lemma admit_from_sound lease (l : list Candidate) : forall acc,
  Forall (sound lease) l -> Forall (sound lease) (admit_from acc l).
Proof.
  induction l as [|c l IH]; intros acc; cbn [admit_from]; [done|]. intros [Hc Hl]%Forall_cons_iff.
  destruct (negb _); [constructor; auto|]. destruct (existsb _ _); constructor; auto.
  apply excluded_sound, Hc.
Qed.

Abbreviation Eligible := (fun c => eligible (observation c)).

(** No admitted candidate overlaps one admitted before it. *)
Lemma admit_from_disjoint (l : list Candidate) : forall acc,
  Forall (fun c => Forall (fun a => overlaps c a = false) acc) (List.filter Eligible (admit_from acc l)) /\
  ForallOrdPairs (fun a c => overlaps c a = false) (List.filter Eligible (admit_from acc l)).
Proof.
  induction l as [|c l IH]; intros acc; cbn [admit_from]; [by split; constructor|].
  destruct (eligible (observation c)) eqn:E; cbn [negb].
  - destruct (existsb (overlaps c) acc) eqn:Eo; cbn [List.filter excluded observation eligible with_result].
    + apply IH.
    + rewrite E. destruct (IH (acc ++ [c])) as [H1 H2]. apply existsb_false in Eo. split.
      * constructor; [done|]. forall_impl H1. intros d [Hd _]%List.Forall_app. done.
      * constructor; [|done]. forall_impl H1. intros d [_ [Hd _]%Forall_cons_iff]%List.Forall_app. done.
  - cbn [List.filter]. rewrite E. apply IH.
Qed.

(** What is refused as overlapping overlaps an earlier admitted candidate. *)
Lemma admit_from_earlier (l : list Candidate) : forall acc i c c',
  l !! i = Some c -> eligible (observation c) = true -> admit_from acc l !! i = Some c' ->
  c' = c \/
  c' = excluded c "overlapping_lineage_evidence" /\
  exists a, overlaps c a = true /\
    (In a acc \/ exists j, (j < i)%nat /\ l !! j = Some a /\ admit_from acc l !! j = Some a /\
       eligible (observation a) = true).
Proof.
  induction l as [|d l IH]; intros acc i c c' Hi He; [done|]. cbn [admit_from].
  destruct i as [|i]; cbn in Hi.
  - injection Hi as ->. rewrite He. cbn [negb]. destruct (existsb (overlaps c) acc) eqn:Eo.
    + intros [= <-]. right. split; [done|]. apply existsb_exists in Eo as (a & Ha & Hov).
      exists a. split; [done|by left].
    + intros [= <-]. by left.
  - destruct (eligible (observation d)) eqn:Ed; cbn [negb].
    + destruct (existsb (overlaps d) acc); cbn; intros H.
      * destruct (IH acc i c c' Hi He H) as [->|(-> & a & Ha & [Hin|(j & Hj & ? & ? & ?)])]; [by left|..];
          right; (split; [done|]); exists a; (split; [done|]); [by left|right].
        exists (S j). split; [lia|done].
      * destruct (IH (acc ++ [d]) i c c' Hi He H) as [->|(-> & a & Ha & [Hin|(j & Hj & ? & ? & ?)])]; [by left|..];
          right; (split; [done|]); exists a; (split; [done|]).
        -- apply in_app_iff in Hin as [Hin|[<-|[]]]; [by left|right]. exists 0%nat. split; [lia|done].
        -- right. exists (S j). split; [lia|done].
    + cbn. intros H.
      destruct (IH acc i c c' Hi He H) as [->|(-> & a & Ha & [Hin|(j & Hj & ? & ? & ?)])]; [by left|..];
        right; (split; [done|]); exists a; (split; [done|]); [by left|right].
      exists (S j). split; [lia|done].
Qed.

(** ** The bound of a request *)

Definition blocks_ok (d h : nat) : bool :=
  let b := blocksPerHistory d h in
  let hit x z := PrimFloat.eqb b x && (Z.of_nat d + z * Z.of_nat h <=? 128)%Z in
  PrimFloat.ltb b 1 || hit 1%float 1%Z || hit 2%float 2%Z || hit 3%float 3%Z.

Lemma eqb_to_integer (x y : jsnum) (z : Z) :
  PrimFloat.eqb x y = true -> to_integer y = Some z -> to_integer x = Some z.
Proof.
  intros (Nx & Ny & E)%eqb_ord [Fy Oy]%to_integer_spec. apply to_integer_spec.
  split; [|lia]. apply isFinite_ord. apply isFinite_ord in Fy as [_ Fy]. rewrite E. done.
Qed.

(** Fewer than 128 direct rows and at most 64 histories: every case is checked. *)
Lemma blocks_table (d h : nat) : (d < 128)%nat -> (h <= 64)%nat -> blocks_ok d h = true.
Proof.
  intros Hd Hh.
  assert (H : forallb (fun d => forallb (blocks_ok d) (seq 0 65)) (seq 0 128) = true)
    by (vm_compute; reflexivity).
  rewrite forallb_forall in H. specialize (H d ltac:(apply in_seq; lia)).
  rewrite forallb_forall in H. apply H, in_seq. lia.
Qed.

(** With 128 direct rows or more there is no room for a block. *)
Lemma blocks_exhausted (d h : nat) :
  (128 <= d)%nat -> (Z.of_nat d <= 2 ^ 32)%Z -> (h <= 64)%nat ->
  PrimFloat.ltb (blocksPerHistory d h) 1 = true.
Proof.
  intros Hd Hd' Hh.
  assert (Hi : to_integer (128 - of_nat d)%float = Some (128 - Z.of_nat d)%Z).
  { apply sub_integer; [vm_compute; reflexivity|apply of_Z_integer; lia|lia]. }
  assert (Hm : to_integer (Math_max 1 (of_nat h)) = Some (Z.max 1 (Z.of_nat h))).
  { assert (H : forallb (fun h => bool_decide (to_integer (Math_max 1 (of_nat h)) =
      Some (Z.max 1 (Z.of_nat h)))) (seq 0 65) = true) by (vm_compute; reflexivity).
    rewrite forallb_forall in H. specialize (H h ltac:(apply in_seq; lia)).
    by apply bool_decide_eq_true in H. }
  apply to_integer_spec in Hi as [Fi Oi], Hm as [Fm Om]. pose proof one_ord_pos.
  assert (Oi' : (ord (128 - of_nat d)%float <= 0)%Z) by (rewrite Oi; nia).
  assert (Om' : (0 < ord (Math_max 1 (of_nat h)))%Z) by (rewrite Om; nia).
  destruct (Math_floor_nonpos ((128 - of_nat d) / Math_max 1 (of_nat h))%float) as [Nf Of].
  { apply div_not_nan; [done..|lia]. }
  { by apply div_nonpos. }
  unfold blocksPerHistory. set (f := Math_floor _) in *.
  destruct (Math_min_ord 3%float f) as [Nm Omin]; [done|done|].
  apply ltb_ord. split; [done|]. split; [done|]. rewrite Omin.
  assert (0 < ord 1%float)%Z by (vm_compute; reflexivity). lia.
Qed.

Lemma blocks_bounded (d h : nat) :
  (Z.of_nat d <= 2 ^ 32)%Z -> (h <= 64)%nat -> PrimFloat.ltb (blocksPerHistory d h) 1 = false ->
  exists b, to_integer (blocksPerHistory d h) = Some b /\ (1 <= b <= 3)%Z /\
    (Z.of_nat d + b * Z.of_nat h <= 128)%Z.
Proof.
  intros Hd Hh Hb. destruct (decide (d < 128)%nat) as [Hlt|Hge].
  - pose proof (blocks_table d h Hlt Hh) as Ht. unfold blocks_ok in Ht. rewrite Hb in Ht.
    rewrite !orb_true_iff, !andb_true_iff, !Z.leb_le in Ht.
    destruct Ht as [[[?|[E H]]|[E H]]|[E H]]; [done|eexists..];
      (split; [eapply eqb_to_integer; [exact E|vm_compute; reflexivity]|lia]).
  - rewrite blocks_exhausted in Hb; [done|lia|done|done].
Qed.

Lemma total_samples_from (hs : list History) : forall n,
  fold_left (fun sum h => sum + length (coordinate h))%nat hs n =
  (n + total_samples hs)%nat.
Proof.
  unfold total_samples. induction hs as [|h hs IH]; intros n; cbn [fold_left]; [lia|].
  rewrite IH, (IH (0 + length (coordinate h))%nat). lia.
Qed.

(** ** The rows of a request, as one list *)

Definition request_rows (r : ProgressivePolarFitRequest) : list (Observation * option History) :=
  List.map (fun o => (o, None)) (observations r) ++
  List.map (fun h => (observation_of h, Some h)) (histories r).

Definition candidate_row (c : Candidate) : Observation * option History := (observation c, history c).

Lemma sound_history lease c h :
  sound lease c -> history c = Some h ->
  eligible (observation c) = true /\ observation_of h = observation c /\
  good_history lease (evidence c) h.
Proof.
  intros Hs Hh. destruct (eligible (observation c)) eqn:E.
  - destruct (sound_eligible _ _ Hs E) as [_ H]. rewrite Hh in H. naive_solver.
  - destruct (sound_excluded _ _ Hs E) as [H _]. congruence.
Qed.

Lemma rows_permutation lease (cs : list Candidate) :
  Forall (sound lease) cs ->
  Permutation (List.map candidate_row cs)
    (List.map (fun o => (o, None)) (observations_of cs) ++
     List.map (fun h => (observation_of h, Some h)) (histories_of cs)).
Proof.
  unfold observations_of, histories_of, candidate_row.
  induction 1 as [|c cs Hc _ IH]; cbn [List.map List.filter List.flat_map]; [done|].
  rewrite map_app. destruct (history c) as [h|] eqn:Eh; cbn.
  - destruct (sound_history lease c h Hc Eh) as (_ & Ho & _).
    rewrite Ho, <- Permutation_middle. by constructor.
  - by constructor.
Qed.

(** Two rows of one lineage are disjoint physical-time windows. *)
Definition disjoint_rows (a b : Observation * option History) : Prop :=
  lineage_id (fst a) = lineage_id (fst b) ->
  match snd a, snd b with
  | Some h, Some h' =>
      coordinate_kind h = physical_time /\ coordinate_kind h' = physical_time /\
      ((ord (last_num (coordinate h)) <= ord (informative_start h'))%Z \/
       (ord (last_num (coordinate h')) <= ord (informative_start h))%Z \/
       (* a window of a single instant *)
       (ord (last_num (coordinate h)) <= ord (informative_start h))%Z \/
       (ord (last_num (coordinate h')) <= ord (informative_start h'))%Z)
  | _, _ => False
  end.

Lemma disjoint_rows_sym a b : disjoint_rows a b -> disjoint_rows b a.
Proof.
  unfold disjoint_rows. intros H E. specialize (H (eq_sym E)).
  destruct (snd a), (snd b); tauto.
Qed.

Lemma overlaps_disjoint lease a c :
  sound lease a -> sound lease c -> overlaps c a = false ->
  disjoint_rows (candidate_row a) (candidate_row c).
Proof.
  intros Ha Hc. unfold overlaps, disjoint_rows, candidate_row. cbn [fst snd].
  destruct (sound_row _ _ Ha) as (_ & _ & La & _), (sound_row _ _ Hc) as (_ & _ & Lc & _).
  rewrite La, Lc. intros H E. rewrite <- E, String.eqb_refl in H. cbn [negb] in H.
  destruct (history c) as [hc|] eqn:Ec; [|done]. destruct (history a) as [ha|] eqn:Ea; [|done].
  destruct (sound_history _ _ _ Ha Ea) as (_ & _ & Ga), (sound_history _ _ _ Hc Ec) as (_ & _ & Gc).
  destruct (coordinate_kind hc) eqn:Kc, (coordinate_kind ha) eqn:Ka; try done.
  split; [done|]. split; [done|].
  destruct (good_window _ _ _ Ga) as [Na _], (good_window _ _ _ Gc) as [Nc _].
  assert (Fl : forall e h, good_history lease e h -> isNaN (last_num (coordinate h)) = false).
  { intros e h G. apply isFinite_not_nan, last_finite; [|apply G].
    pose proof (good_samples _ _ _ G). by destruct (coordinate h); [cbn in *; lia|]. }
  destruct (Math_max_ord (informative_start hc) (informative_start ha)) as [Nm Om]; [done|done|].
  destruct (Math_min_ord (last_num (coordinate hc)) (last_num (coordinate ha))) as [Nn On];
    [by eapply Fl|by eapply Fl|].
  apply ltb_false_ord in H; [|done..]. rewrite Om, On in H. lia.
Qed.

Lemma ordpairs_permutation {A} (R : A -> A -> Prop) (l l' : list A) :
  (forall a b, R a b -> R b a) -> Permutation l l' -> ForallOrdPairs R l -> ForallOrdPairs R l'.
Proof.
  intros Hs Hp. induction Hp as [|x l l' Hp IH|x y l|l1 l2 l3 _ IH1 _ IH2]; intros H; auto.
  - inversion H as [|? ? Hx Hl]; subst. constructor; [|auto]. by rewrite <- Hp.
  - inversion H as [|? ? Hy Hl]; subst. apply Forall_cons_iff in Hy as [Hyx Hy].
    inversion Hl as [|? ? Hx Hl']; subst. constructor; [|by constructor].
    constructor; [auto|done].
Qed.

(** ** The order of admission

    A collation: the comparator of a total preorder on strings, as [localeCompare] is. *)
Record collation (compare : string -> string -> jsnum) : Prop := {
  collation_number : forall s t, isNaN (compare s t) = false;
  collation_sign : forall s t, PrimFloat.ltb 0 (compare s t) = PrimFloat.ltb (compare t s) 0;
  collation_trans : forall s t u, PrimFloat.ltb (compare t s) 0 = false ->
    PrimFloat.ltb (compare u t) 0 = false -> PrimFloat.ltb (compare u s) 0 = false;
}.

Section Newest.
Context (compare : string -> string -> jsnum) (Hc : collation compare).

(** [c] is not newer than [a]. *)
Definition not_newer (a c : Candidate) : Prop :=
  PrimFloat.ltb (newestFirst compare c a) 0 = false.

Lemma newestFirst_lt (x y : Candidate) :
  PrimFloat.ltb (newestFirst compare x y) 0 =
  PrimFloat.ltb (compare (createdAt (evidence y)) (createdAt (evidence x))) 0
  || negb (PrimFloat.ltb (compare (createdAt (evidence x)) (createdAt (evidence y))) 0)
     && PrimFloat.ltb (compare (resultAttemptId (evidence y)) (resultAttemptId (evidence x))) 0.
Proof.
  unfold newestFirst, js_or.
  rewrite (collation_number _ Hc), <- (collation_sign _ Hc (createdAt (evidence y))). cbn [orb].
  set (v := compare _ _). assert (Nv : isNaN v = false) by apply Hc.
  destruct (PrimFloat.eqb v 0) eqn:E.
  - apply eqb_ord in E as (_ & _ & E).
    assert (H1 : PrimFloat.ltb v 0 = false) by (apply ltb_false_ord; [done..|lia]).
    assert (H2 : PrimFloat.ltb 0 v = false) by (apply ltb_false_ord; [done..|lia]).
    by rewrite H1, H2.
  - destruct (PrimFloat.ltb v 0) eqn:E1; [done|].
    destruct (PrimFloat.ltb 0 v) eqn:E2; [done|].
    apply ltb_false_ord in E1; [|done..]. apply ltb_false_ord in E2; [|done..].
    assert (E3 : PrimFloat.eqb v 0 = true) by (apply eqb_ord; split_and!; [done..|lia]). congruence.
Qed.

Lemma collation_total (s t : string) :
  PrimFloat.ltb (compare s t) 0 = true -> PrimFloat.ltb (compare t s) 0 = false.
Proof.
  intros H. rewrite <- (collation_sign _ Hc). apply ltb_false_ord; [done|apply Hc|].
  apply ltb_ord in H as (_ & _ & H). lia.
Qed.

Lemma newest_total (x y : Candidate) : not_newer x y \/ not_newer y x.
Proof.
  unfold not_newer. rewrite !newestFirst_lt.
  set (a := createdAt (evidence x)). set (b := createdAt (evidence y)).
  set (i := resultAttemptId (evidence x)). set (j := resultAttemptId (evidence y)).
  pose proof (collation_total a b). pose proof (collation_total i j).
  destruct (PrimFloat.ltb (compare a b) 0), (PrimFloat.ltb (compare b a) 0),
    (PrimFloat.ltb (compare i j) 0), (PrimFloat.ltb (compare j i) 0); naive_solver.
Qed.

Lemma newest_trans (x y z : Candidate) : not_newer x y -> not_newer y z -> not_newer x z.
Proof.
  unfold not_newer. rewrite !newestFirst_lt.
  set (a := createdAt (evidence x)). set (b := createdAt (evidence y)). set (c := createdAt (evidence z)).
  set (i := resultAttemptId (evidence x)). set (j := resultAttemptId (evidence y)).
  set (k := resultAttemptId (evidence z)).
  pose proof (collation_trans _ Hc) as T.
  pose proof (T c b a). pose proof (T a b c). pose proof (T b c a). pose proof (T a c b).
  pose proof (T c a b). pose proof (T b a c). pose proof (T k j i).
  destruct (PrimFloat.ltb (compare a b) 0), (PrimFloat.ltb (compare b a) 0),
    (PrimFloat.ltb (compare b c) 0), (PrimFloat.ltb (compare c b) 0),
    (PrimFloat.ltb (compare a c) 0), (PrimFloat.ltb (compare c a) 0),
    (PrimFloat.ltb (compare j i) 0), (PrimFloat.ltb (compare k j) 0); naive_solver.
Qed.

Lemma newest_sorted (cs : list Candidate) :
  StronglySorted not_newer (sort (newestFirst compare) cs).
Proof.
  apply (sort_before_sorted _ (fun _ => True)); [done| | |by apply List.Forall_forall].
  - intros x y _ _. apply newest_total.
  - intros x y z _ _ _. apply newest_trans.
Qed.
End Newest.

(** ** The request *)

Section Request.
Context (hypot : jsnum -> jsnum -> jsnum).
Context (localeCompare hostCompare : string -> string -> jsnum) (sha256 : string -> string).

Abbreviation build := (buildProgressiveFitRequest hypot localeCompare hostCompare sha256).
Abbreviation mapped_of lease applicability :=
  (result_map (candidateFor hypot localeCompare sha256 lease applicability) (evidence_list lease)).

Lemma build_rows lease r :
  build lease = Ok r ->
  exists applicability mapped, mapped_of lease applicability = Ok mapped /\
    let cs := candidates_of (sort (newestFirst hostCompare) mapped) in
    observations r = observations_of cs /\ histories r = histories_of cs /\
    PrimFloat.ltb (blocksPerHistory (directCount (observations r)) (length (histories r))) 1 = false /\
    (length (histories r) <= 64)%nat /\ (Z.of_nat (total_samples (histories r)) <= 32768)%Z /\
    (histories r = [] /\ history_policy r = None \/
     exists p, history_policy r = Some p /\
       maximum_blocks p = blocksPerHistory (directCount (observations r)) (length (histories r))).
Proof.
  unfold buildProgressiveFitRequest.
  intros (app & _ & (prior & _ & (mapped & Hm & H)%bind_ok)%bind_ok)%bind_ok.
  apply bind_throw_if in H as [G (id & _ & [= <-])%bind_ok].
  apply orb_false_iff in G as [G Gs]. apply orb_false_iff in G as [Gb Gh].
  apply Nat.ltb_ge in Gh. apply Z.ltb_ge in Gs.
  exists app, mapped. split; [done|]. cbn. split_and!; try done.
  destruct (histories_of _); [by left|]. right. eexists. by split.
Qed.

Lemma candidates_sound lease applicability mapped :
  mapped_of lease applicability = Ok mapped ->
  let cs := candidates_of (sort (newestFirst hostCompare) mapped) in
  Permutation (List.map evidence cs) (evidence_list lease) /\ Forall (sound lease) cs.
Proof.
  intros [He Hs]%mapped_sound. unfold candidates_of. cbn zeta.
  rewrite admit_from_evidence. split.
  { rewrite <- He. apply Permutation_map. symmetry. apply sort_perm. }
  apply admit_from_sound. rewrite List.Forall_forall in *. intros c Hin.
  apply Hs. by apply in_sort in Hin.
Qed.

Lemma request_rows_of lease r :
  build lease = Ok r ->
  exists cs, Permutation (List.map evidence cs) (evidence_list lease) /\
    Permutation (List.map candidate_row cs) (request_rows r) /\ Forall (sound lease) cs /\
    ForallOrdPairs (fun a c => overlaps c a = false) (List.filter Eligible cs).
Proof.
  intros (app & mapped & Hm & Ho & Hh & _)%build_rows.
  destruct (candidates_sound lease app mapped Hm) as [Hp Hs].
  eexists. split; [exact Hp|]. split; [|split; [done|apply (admit_from_disjoint _ [])]].
  unfold request_rows. rewrite Ho, Hh. by eapply rows_permutation.
Qed.

Lemma filter_rows (cs : list Candidate) :
  List.filter (fun row => eligible (fst row)) (List.map candidate_row cs) =
  List.map candidate_row (List.filter Eligible cs).
Proof.
  induction cs as [|c cs IH]; cbn; [done|]. rewrite IH. by destruct (eligible (observation c)).
Qed.

Lemma filter_permutation {A} (f : A -> bool) (l l' : list A) :
  Permutation l l' -> Permutation (List.filter f l) (List.filter f l').
Proof.
  induction 1 as [|x l l' _ IH|x y l|l1 l2 l3 _ IH1 _ IH2]; cbn; [done| | |by transitivity (List.filter f l2)].
  - by destruct (f x); [constructor|].
  - destruct (f x), (f y); auto using perm_swap, Permutation_refl.
Qed.

Lemma sorted_lookup {A} (R : A -> A -> Prop) (l : list A) (j i : nat) (a c : A) :
  StronglySorted R l -> (j < i)%nat -> l !! j = Some a -> l !! i = Some c -> R a c.
Proof.
  intros Hs. revert j i. induction Hs as [|x l Hs IH Hx]; intros [|j] [|i] Hlt; try done; try lia.
  - cbn. intros [= ->] Hi. rewrite List.Forall_forall in Hx. apply Hx.
    by eapply list_elem_of_In, list_elem_of_lookup_2.
  - cbn. apply IH. lia.
Qed.

Lemma ordpairs_map {A B} (f : A -> B) (R : A -> A -> Prop) (S : B -> B -> Prop) (l : list A) :
  (forall a b, In a l -> In b l -> R a b -> S (f a) (f b)) ->
  ForallOrdPairs R l -> ForallOrdPairs S (List.map f l).
Proof.
  intros H Hl. induction Hl as [|x l Hx Hl IH]; cbn; constructor.
  - rewrite List.Forall_forall in *. intros y (z & <- & Hz)%in_map_iff.
    apply H; cbn; auto.
  - apply IH. intros a b Ha Hb. apply H; cbn; auto.
Qed.

(** C32. Evidence of one lineage is counted once: of two eligible rows of a request
    that share a lineage, both are physical-time histories and their informative
    windows do not overlap. *)
Theorem fit_counts_lineage_once lease r :
  build lease = Ok r ->
  ForallOrdPairs disjoint_rows (List.filter (fun row => eligible (fst row)) (request_rows r)).
Proof.
  intros (cs & _ & Hp & Hs & Ho)%request_rows_of.
  eapply ordpairs_permutation; [apply disjoint_rows_sym|apply filter_permutation, Hp|].
  rewrite filter_rows. eapply ordpairs_map; [|exact Ho]. rewrite List.Forall_forall in Hs.
  intros a b [Ha _]%filter_In [Hb _]%filter_In. by apply (overlaps_disjoint lease); auto.
Qed.

(** Every piece of evidence is one row of the request, about that evidence; an
    eligible row carries physical coefficients with their deviation, or a history of
    at least four increasing samples with physical rows and an informative window
    inside it, past the start-up transit where the evidence is not certified; an
    excluded row carries nothing but its reason. *)
Theorem fit_rows_sound lease r :
  build lease = Ok r ->
  exists cs, Permutation (List.map evidence cs) (evidence_list lease) /\
    Permutation (List.map candidate_row cs) (request_rows r) /\ Forall (sound lease) cs.
Proof. intros (cs & H1 & H2 & H3 & _)%request_rows_of. by exists cs. Qed.

(** A request is bounded: at most 64 histories of 32768 samples in all, cut into
    one to three blocks each, with at most 128 reduced observations; for any number
    of pieces of evidence an array can hold. *)
Theorem fit_request_bounded lease r :
  (Z.of_nat (length (evidence_list lease)) <= 2 ^ 32)%Z ->
  build lease = Ok r ->
  (length (histories r) <= 64)%nat /\ (Z.of_nat (total_samples (histories r)) <= 32768)%Z /\
  exists b, (1 <= b <= 3)%Z /\
    (Z.of_nat (directCount (observations r)) + b * Z.of_nat (length (histories r)) <= 128)%Z /\
    (forall p, history_policy r = Some p -> to_integer (maximum_blocks p) = Some b).
Proof.
  intros Hlen Hr. pose proof Hr as (cs & He & Hp & _)%request_rows_of.
  apply build_rows in Hr as (app & mapped & _ & _ & _ & Hb & Hh & Hs & Hpol).
  split; [done|]. split; [done|].
  destruct (blocks_bounded (directCount (observations r)) (length (histories r)))
    as (b & Hi & Hb' & Hsum); [|done|done|].
  { apply Permutation_length in He, Hp. unfold request_rows in Hp.
    rewrite length_app, !length_map in Hp. rewrite length_map in He.
    pose proof (List.filter_length_le eligible (observations r)). unfold directCount. lia. }
  exists b. split; [done|]. split; [done|]. intros p Hp'.
  destruct Hpol as [[_ Hn]|(p' & Hp'' & Hmax)]; [congruence|].
  rewrite Hp'' in Hp'. injection Hp' as <-. by rewrite Hmax.
Qed.

(** Evidence left out as overlapping lost to admitted evidence that is not older. *)
Lemma admitted_newest (mapped : list Candidate) c :
  collation hostCompare -> In c mapped -> eligible (observation c) = true ->
  let cs := candidates_of (sort (newestFirst hostCompare) mapped) in
  In c cs \/
  In (excluded c "overlapping_lineage_evidence") cs /\
  exists a, In a cs /\ eligible (observation a) = true /\ overlaps c a = true /\
    not_newer hostCompare a c.
Proof.
  intros Hc Hin He. cbn zeta. unfold candidates_of.
  pose proof (newest_sorted hostCompare Hc mapped) as Hsorted.
  apply in_sort with (cmp := newestFirst hostCompare) in Hin.
  set (l := sort _ mapped) in *.
  apply list_elem_of_In, list_elem_of_lookup in Hin as [i Hi].
  assert (Hlt : (i < length (admit_from [] l))%nat).
  { apply lookup_lt_Some in Hi. rewrite <- (length_map evidence (admit_from [] l)),
      admit_from_evidence, length_map. done. }
  apply lookup_lt_is_Some in Hlt as [c' Hc'].
  assert (Hin' : In c' (admit_from [] l)) by (by eapply list_elem_of_In, list_elem_of_lookup_2).
  destruct (admit_from_earlier l [] i c c' Hi He Hc')
    as [->|(-> & a & Hov & [[]|(j & Hj & Ha & Ha' & Ea)])]; [by left|].
  right. split; [done|]. exists a.
  split; [by eapply list_elem_of_In, list_elem_of_lookup_2|]. split; [done|]. split; [done|].
  by apply (sorted_lookup _ l j i).
Qed.

(** The newest evidence wins: evidence that could be used and is left out of a
    request is left out for evidence it overlaps, that is in the request and is not
    older. *)
Theorem fit_newest_wins lease r :
  collation hostCompare -> build lease = Ok r ->
  exists applicability mapped, mapped_of lease applicability = Ok mapped /\
    List.map evidence mapped = evidence_list lease /\
    forall c, In c mapped -> eligible (observation c) = true ->
      In (candidate_row c) (request_rows r) \/
      In (candidate_row (excluded c "overlapping_lineage_evidence")) (request_rows r) /\
      exists a, In (candidate_row a) (request_rows r) /\ eligible (observation a) = true /\
        overlaps c a = true /\ not_newer hostCompare a c.
Proof.
  intros Hc (app & mapped & Hm & Ho & Hh & _)%build_rows. exists app, mapped. split; [done|].
  destruct (candidates_sound lease app mapped Hm) as [_ Hs]. pose proof Hm as [He _]%mapped_sound.
  split; [exact He|].
  apply rows_permutation in Hs. rewrite <- Ho, <- Hh in Hs. fold (request_rows r) in Hs.
  assert (Hrow : forall a, In a (candidates_of (sort (newestFirst hostCompare) mapped)) ->
    In (candidate_row a) (request_rows r)).
  { intros a Ha. rewrite <- Hs. by apply in_map. }
  intros c Hin Hel. destruct (admitted_newest mapped c Hc Hin Hel) as [?|(? & a & ? & ? & ? & ?)]; eauto 10.
Qed.
End Request.

(** A batch settles its lease at most once: no lease, no write; a lease is either
    stored, or failed with the message that is reported, and a failed store is failed too. *)
Theorem fit_batch_settles build describe lease fit store fail :
  let '(calls, outcome) := runProgressiveFitBatch build describe lease fit store fail in
  match lease with
  | None => calls = [] /\ outcome = Ok (0, 0, [])
  | Some l =>
      (exists r, calls = [Stored r] /\ build l = Ok r /\ fit r = Ok tt /\ store = Ok tt /\
         outcome = Ok (1, 1, [])) \/
      (exists m, calls = [Failed (describe m)] /\ (build l = Throw m \/ exists r, build l = Ok r /\ fit r = Throw m) /\
         outcome = bind_result fail (fun _ => Ok (1, 0, [describe m]))) \/
      (exists r m, calls = [Stored r; Failed (describe m)] /\ build l = Ok r /\ store = Throw m /\
         outcome = bind_result fail (fun _ => Ok (1, 0, [describe m])))
  end%nat.
Proof.
  unfold runProgressiveFitBatch. destruct lease as [l|]; [|done].
  destruct (build l) as [r|m] eqn:Eb; [|naive_solver].
  destruct (fit r) as [[]|m] eqn:Ef; [|naive_solver].
  destruct store as [[]|m]; naive_solver.
Qed.

(** ** A concrete request *)

Module Examples.
Definition hypot (x y : jsnum) : jsnum := PrimFloat.sqrt (x * x + y * y)%float.

Definition no_hash (s : string) : string := "h".

Definition steady_evidence (id lineage : string) : ProgressiveFitEvidence :=
  {| resultAttemptId := id; resultId := "r-" +:+ id; lineageId := lineage; alpha := 2; stage := Fast;
     payload := [("converged", JBool true); ("cl", JNum 0.5); ("cd", JNum 0.01); ("cm", JNum 0)];
     classification := None; verdict := None; interpretation := None; createdAt := "2026-01-01" |}.

Definition transient_evidence (id created : string) (window : jsnum) : ProgressiveFitEvidence :=
  {| resultAttemptId := id; resultId := "r-" +:+ id; lineageId := "lineage"; alpha := 2; stage := Fast;
     payload :=
       [("force_history",
         JObj [("t", nums [1; 2; 3; 4]%float); ("cl", nums [0.5; 0.5; 0.5; 0.5]%float);
               ("cd", nums [0.01; 0.01; 0.01; 0.01]%float); ("cm", nums [0; 0; 0; 0]%float);
               ("window_start", JNum window)])];
     classification := Some ("accepted", []); verdict := None; interpretation := None;
     createdAt := created |}.

Definition target : AnalysisPhysical :=
  {| geometry := [[1; 0]; [0; 0.1]; [1; 0]]%float; branch := "increasing"; mach := None;
     reynolds := 100000; referenceLengthM := 1; speedMps := 10; condition := JObj [] |}.

Definition lease : ProgressiveFitLease :=
  {| token := "token"; predictionId := "prediction"; targetId := "target"; epochId := "epoch";
     physical := target;
     prediction := [("alpha", nums [0; 2]%float);
                    ("coefficients", JArr [nums [0; 0.01; 0]%float; nums [0.2; 0.01; 0]%float])];
     evidence_list := [transient_evidence "a" "2026-01-01" 2; transient_evidence "b" "2026-01-02" 3;
                       steady_evidence "c" "other"] |}.

Definition request : result ProgressivePolarFitRequest :=
  buildProgressiveFitRequest hypot code_units code_units no_hash lease.

(** The newer window is kept, the older one overlaps it. *)
Lemma request_ok :
  exists r, request = Ok r /\
    List.map (fun row => (attempt_id (fst row), eligible (fst row))) (request_rows r) =
    [("c", true); ("a", false); ("b", true)].
Proof. eexists. split; vm_compute; reflexivity. Qed.

Lemma code_units_collation : collation code_units.
Proof.
  split.
  - intros s t. unfold code_units. destruct (str_ltb s t), (str_ltb t s); done.
  - intros s t. rewrite code_units_ltb. unfold code_units.
    destruct (str_ltb_total s t) as [H|H]; rewrite H; [by destruct (str_ltb t s)|].
    by destruct (str_ltb s t).
  - intros s t u. rewrite !code_units_ltb. apply str_ltb_trans.
Qed.
End Examples.

Lemma fit_counts_lineage_once_witness :
  exists r, Examples.request = Ok r /\
    ForallOrdPairs disjoint_rows (List.filter (fun row => eligible (fst row)) (request_rows r)).
Proof.
  destruct Examples.request_ok as (r & Hr & _). exists r. split; [exact Hr|].
  exact (fit_counts_lineage_once _ _ _ _ _ _ Hr).
Defined.

Lemma fit_rows_sound_witness :
  exists r, Examples.request = Ok r /\
    exists cs, Permutation (List.map evidence cs) (evidence_list Examples.lease) /\
      Permutation (List.map candidate_row cs) (request_rows r) /\ Forall (sound Examples.lease) cs.
Proof.
  destruct Examples.request_ok as (r & Hr & _). exists r. split; [exact Hr|].
  exact (fit_rows_sound _ _ _ _ _ _ Hr).
Defined.

Lemma fit_request_bounded_witness :
  exists r, Examples.request = Ok r /\ (length (histories r) <= 64)%nat.
Proof.
  destruct Examples.request_ok as (r & Hr & _). exists r. split; [exact Hr|].
  assert (Hl : (Z.of_nat (length (evidence_list Examples.lease)) <= 2 ^ 32)%Z) by (vm_compute; done).
  exact (proj1 (fit_request_bounded _ _ _ _ _ _ Hl Hr)).
Defined.

Lemma fit_newest_wins_witness :
  exists r, Examples.request = Ok r /\
    exists applicability mapped,
      result_map (candidateFor Examples.hypot code_units Examples.no_hash Examples.lease applicability)
        (evidence_list Examples.lease) = Ok mapped.
Proof.
  destruct Examples.request_ok as (r & Hr & _). exists r. split; [exact Hr|].
  destruct (fit_newest_wins _ _ _ _ _ _ Examples.code_units_collation Hr) as (app & mapped & Hm & _).
  exists app, mapped. exact Hm.
Defined.
