(* ===== verification/FitStore.v ===== *)
(** * The delivery of a fitted polar

    The validators of [packages/db/src/progressive-polar-cache.ts]
    ([exactObservation], [validateFitInput], [validateFitOutput]) with
    [packages/db/src/progressive-polar-conflicts.ts]: before a fit is stored, its
    request is compared with the evidence it was leased from, and the response of
    the fitting service with the request.

    The request is the one of [FitRequest]; the response is parsed JSON.  A property
    read of a malformed response that throws in the code is a refusal here as well,
    possibly with another message.  [Math.log], [**], [Math.hypot], the collations
    and SHA-256 are parameters. *)

From Stdlib Require Import ZArith Lia Bool Ascii String Sorting.Permutation.
From Stdlib Require Import Floats.
From stdpp Require Import base list strings option numbers.
From S2P Require Import Prelude JsNumber JsString JsValue JsArray JsMap CanonicalJson FitRequest.

Local Open Scope string_scope.
Local Open Scope list_scope.
Local Open Scope result_scope.

(** [v[i]] *)
Definition elem (i : nat) (v : jsval) : jsval :=
  match v with
  | JArr l => nth i l JUndef
  | JObj o => get (Number_toString (of_nat i)) o
  | _ => JUndef
  end.

Definition method_name (m : CfdMethod) : string :=
  match m with openfoam_fast => "openfoam_fast" | openfoam_precise => "openfoam_precise" end.

Definition method_of (s : Stage) : CfdMethod :=
  match s with Fast => openfoam_fast | Precise => openfoam_precise end.

#[export] Instance method_eq_dec : EqDecision CfdMethod.
Proof. solve_decision. Defined.

Definition optional_vector (v : option vector3) : jsval :=
  match v with Some v => nums v | None => JNull end.

(** [request.policy.k] beside [policy_id] and the bias. *)
Definition policy (k : string) (r : ProgressivePolarFitRequest) : jsval := get k (policy_model r).

(** The provenance of the prior, with the applicability of the bias when there is one. *)
Definition provenance (r : ProgressivePolarFitRequest) : record :=
  prior_provenance r ++
  match prior_bias r with
  | Some b =>
      [("bias_applicability",
        JObj [("physicalIdentity", JStr (physicalIdentity b));
              ("numericalIdentity", JStr (numericalIdentity b));
              ("angleScope", nums [fst (angleScope b); snd (angleScope b)])])]
  | None => []
  end.

(** Every observation, of the rows and of the histories. *)
Definition all_observations (r : ProgressivePolarFitRequest) : list Observation :=
  observations r ++ List.map observation_of (histories r).

Section Store.
Context (hypot : jsnum -> jsnum -> jsnum).
Context (localeCompare : string -> string -> jsnum) (sha256 : string -> string).

Definition sameJson (left right : jsval) : result bool :=
  let* a := canonicalAnalysisJson localeCompare left in
  let* b := canonicalAnalysisJson localeCompare right in
  Ok (String.eqb a b).

(** ** The request against its source *)

Definition find_evidence (source : ProgressiveFitLease) (attempt : string) :
    option ProgressiveFitEvidence :=
  List.find (fun item => String.eqb (resultAttemptId item) attempt) (evidence_list source).

(** The eligible observation rests on evidence that the code refuses. *)
Definition overstates (source : ProgressiveFitLease) (o : Observation) (row : ProgressiveFitEvidence) :
    result bool :=
  if match exclusion_reason o with Some s => nonempty s | None => false end then Ok true
  else
    let* preserved := progressiveEvidencePreservesGeometry hypot (geometry (physical source)) (payload row) in
    Ok (negb preserved || mem (default "" (verdict row)) ["exclude"; "defer"]
        || classified_as row "superseded_by_urans"
        || match classification row with
           | Some (_, reasons) =>
               existsb (fun r => mem r ["non-physical-coefficients"; "non-positive-drag"]) reasons
           | None => false
           end
        || mem (to_string (get "failure_disposition" (payload row)))
             ["infrastructure"; "deterministic_mesh"; "material_domain"]
        || (String.eqb (numerical_convergence o) "converged"
            && negb (is_true (get "converged" (payload row))))).

Definition exactObservation (source : ProgressiveFitLease) (o : Observation) :
    result ProgressiveFitEvidence :=
  match find_evidence source (attempt_id o) with
  | None => Throw "Polar observation differs from its exact physical evidence source"
  | Some row =>
      let* _ := throw_if
        (negb (String.eqb (result_id o) (resultId row))
         || negb (String.eqb (lineage_id o) (lineageId row))
         || negb (String.eqb (target_signature o) (targetId source))
         || negb (String.eqb (obs_branch o) (branch (physical source)))
         || negb (obs_alpha o === alpha row)%js
         || negb (bool_decide (method o = method_of (stage row))))
        "Polar observation differs from its exact physical evidence source" in
      let* over := if eligible o then overstates source o row else Ok false in
      let* _ := throw_if over "Polar observation overstates its evidence eligibility" in
      let* _ := throw_if
        match accepted_cfd o with
        | Some b => negb (Bool.eqb b (classified_as row "accepted"))
        | None => false
        end
        "Polar observation changes its recorded CFD acceptance" in
      Ok row
  end.

(** An eligible row has the coefficients of its payload. *)
Definition checkObservation (source : ProgressiveFitLease) (o : Observation) : result unit :=
  let* e := exactObservation source o in
  let p := payload e in
  let* same :=
    if eligible o
    then sameJson (optional_vector (coefficients o)) (JArr [get "cl" p; get "cd" p; get "cm" p])
    else Ok true in
  throw_if (negb same) "Polar point values differ from their immutable evidence".

Definition transient_kind (k : CoordinateKind) : bool :=
  match k with physical_time => true | iteration => false end.

(** [payload?.x], where a payload that is an array has none of them. *)
Definition stored_history (h : History) (e : ProgressiveFitEvidence) : jsval :=
  get (if transient_kind (coordinate_kind h) then "force_history" else "steady_history") (payload e).

Definition same_correlation (h : History) (e : ProgressiveFitEvidence) : bool :=
  match correlation_time h with
  | None => true
  | Some t =>
      match interpretation e with
      | Some (id, Some iat) =>
          (t === iat)%js &&
          match correlation_evidence_id h with Some i => String.eqb i id | None => false end
      | _ => false
      end
  end.

Definition checkHistory (source : ProgressiveFitLease) (h : History) : result unit :=
  let* e := exactObservation source (observation_of h) in
  let* _ := throw_if (negb (same_correlation h e))
    "History correlation time has no matching stored interpretation evidence" in
  let stored := stored_history h e in
  let channels := [prop "cl" stored; prop "cd" stored; prop "cm" stored] in
  match prop (if transient_kind (coordinate_kind h) then "t" else "iterations") stored with
  | JArr samples =>
      let* _ := throw_if
        (existsb (fun channel => match channel with
                                 | JArr l => negb (Nat.eqb (length l) (length samples))
                                 | _ => true
                                 end) channels)
        "Polar history has no exact stored coefficient samples" in
      let rows := List.map (fun i => JArr (List.map (elem i) channels)) (seq 0 (length samples)) in
      let changed := "Polar history samples differ from their immutable source" in
      let* hash := analysisContentHash localeCompare sha256 stored in
      if negb (String.eqb (artifact_sha256 h) hash) then Throw changed
      else
        let* same := sameJson (nums (coordinate h)) (JArr samples) in
        if negb same then Throw changed
        else
          let* same := sameJson (JArr (List.map nums (history_coefficients h))) (JArr rows) in
          throw_if (negb same) changed
  | _ => Throw "Polar history has no exact stored coefficient samples"
  end.

(** [for (const x of xs) check(x)] *)
Fixpoint for_each {A} (check : A -> result unit) (xs : list A) : result unit :=
  match xs with
  | [] => Ok tt
  | x :: xs' => let* _ := check x in for_each check xs'
  end.

(** The tests of one [if]: the first that holds, or throws, decides. *)
Fixpoint any (tests : list (result bool)) : result bool :=
  match tests with
  | [] => Ok false
  | t :: ts => let* b := t in if b then Ok true else any ts
  end.

Definition differs (left right : jsval) : result bool :=
  let* b := sameJson left right in Ok (negb b).

Definition validateFitInput (source : ProgressiveFitLease) (request : ProgressivePolarFitRequest) :
    result unit :=
  let* _ := throw_if
    (match policy_bias_std request with Some _ => true | None => false end &&
     existsb (fun o => eligible o && match accepted_cfd o with Some _ => false | None => true end)
       (all_observations request))
    "Bias policy requires exact source acceptance metadata" in
  let accounted := List.map attempt_id (all_observations request) in
  let* _ := throw_if
    (existsb (fun row => negb (mem (resultAttemptId row) accounted)) (evidence_list source))
    "Polar fit must account for every source attempt or explain its exclusion" in
  let p := prediction source in
  let* changed := any
    [Ok (negb (String.eqb (prior_prediction request) (predictionId source))
         || negb (String.eqb (prior_target request) (targetId source))
         || negb (String.eqb (prior_branch request) (branch (physical source))));
     differs (JArr (prior_alpha request)) (get "alpha" p);
     differs (JArr (List.map nums (prior_coefficients request))) (get "coefficients" p);
     differs (JObj (provenance request))
       (JObj [("model", get "model" p); ("geometry_fit", get "geometry_fit" p);
              ("geometry_provenance", get "geometry_provenance" p)])] in
  let* _ := throw_if changed "Polar fit prior differs from the stored NeuralFoil prediction" in
  let* _ := for_each (checkObservation source) (observations request) in
  for_each (checkHistory source) (histories request).

(** ** Conflict diagnostics *)

Context (Math_log : jsnum -> jsnum) (pow : jsnum -> jsnum -> jsnum).

(** A value that the code uses as a number. *)
Definition num (v : jsval) : jsnum := match v with JNum x => x | _ => PrimFloat.nan end.

Definition sameNumber (actual : jsval) (expected : jsnum) : bool :=
  on_num (fun x => isFinite x &&
    (PrimFloat.abs (x - expected)%float <= 1e-8 * Math_max 1 (PrimFloat.abs expected))%js) actual.

Definition length_is (n : jsnum) (v : jsval) : bool :=
  match v with JArr l => (of_nat (length l) === n)%js | _ => false end.

Definition array_items (v : jsval) : list jsval := match v with JArr l => l | _ => [] end.
Definition is_array (v : jsval) : bool := match v with JArr _ => true | _ => false end.

(** [v === s] for a value that may be a string. *)
Definition named (s : string) (v : jsval) : bool := is_str v s.

Definition estimate_contributors (estimate : jsval) : list jsval :=
  array_items (prop "contributors" estimate).

(** The row of the request that a conflicting observation stands for. *)
Definition original_of (request : ProgressivePolarFitRequest) (contributor : jsval)
    (observationId : jsval) : option Observation :=
  match List.find (fun row => named (observation_id row) observationId) (observations request) with
  | Some o => Some o
  | None =>
      observation_of <$>
        List.find (fun h =>
          named (attempt_id (observation_of h)) (prop "attempt_id" contributor) &&
          named (method_name (method (observation_of h))) (prop "method" contributor))
        (histories request)
  end.

(** [===] of values that are not objects. *)
Definition strict_eq (v w : jsval) : bool :=
  match v, w with
  | JUndef, JUndef | JNull, JNull => true
  | JBool a, JBool b => Bool.eqb a b
  | JNum x, JNum y => (x === y)%js
  | JStr s, JStr t => String.eqb s t
  | _, _ => false
  end.

(** The observations of a group, in order; [seen] are those of the groups before. *)
Fixpoint conflictMembers (request : ProgressivePolarFitRequest) (contributors : list jsval)
    (group : jsval) (ids : list jsval) (index : nat) (seen : list jsval) : option (list jsval) :=
  match ids with
  | [] => Some seen
  | id :: ids' =>
      match List.find (fun row => strict_eq (prop "observation_id" row) id) contributors with
      | None => None
      | Some contributor =>
          match original_of request contributor id with
          | Some original =>
              if negb (existsb (strict_eq id) seen) && eligible original
                 && named (lineage_id original) (prop "lineage_id" group)
                 && named (method_name (method original)) (prop "method" group)
                 && strict_eq_num (elem index (prop "alpha" group)) (obs_alpha original)
              then conflictMembers request contributors group ids' (S index) (seen ++ [id])
              else None
          | None => None
          end
      end
  end.

Definition COEFFICIENT_NAMES : list string := ["cl"; "log_cd"; "cm"].

Definition cutoff (perTest dimension : jsnum) : jsnum :=
  (dimension + 2 * PrimFloat.sqrt (dimension * (- Math_log perTest)) - 2 * Math_log perTest)%float.

Definition scores (channel : jsval) : list jsval :=
  List.map (fun k => prop k channel)
    ["mean_score"; "contrast_score"; "total_score"; "variance_multiplier"; "shared_variance";
     "independent_variance"].

(** [value ** 2 * excess] when the score is above its cutoff. *)
Definition excess (score dimension scale : jsnum) : jsnum :=
  (Math_max 0 (score / dimension - 1)%float * pow scale 2)%float.

Definition validChannel (perTest dimension contrast scale : jsnum) (name : string) (channel : jsval) :
    bool :=
  let has_contrast := negb (contrast === 0)%js in
  let mean_score := num (prop "mean_score" channel) in
  let contrast_score := num (prop "contrast_score" channel) in
  let mean_cutoff := num (prop "mean_cutoff" channel) in
  let contrast_cutoff := num (prop "contrast_cutoff" channel) in
  let shared :=
    if (mean_score > mean_cutoff)%js then excess mean_score dimension scale else 0%float in
  let independent :=
    if has_contrast && (contrast_score > contrast_cutoff)%js
    then excess contrast_score contrast scale else 0%float in
  let multiplier :=
    Math_max (Math_max 0 (mean_score / mean_cutoff - 1)%float)
      (if has_contrast then (contrast_score / contrast_cutoff - 1)%float else 0%float) in
  is_str (prop "coefficient" channel) name &&
  strict_eq_num (prop "mean_dimension" channel) dimension &&
  strict_eq_num (prop "contrast_dimension" channel) contrast &&
  sameNumber (prop "mean_cutoff" channel) (cutoff perTest dimension) &&
  (if has_contrast then sameNumber (prop "contrast_cutoff" channel) (cutoff perTest contrast)
   else is_null (prop "contrast_cutoff" channel)) &&
  forallb (on_num (fun x => isFinite x && negb (x < 0)%js)) (scores channel) &&
  (has_contrast || strict_eq_num (prop "contrast_score" channel) 0) &&
  sameNumber (prop "total_score" channel) (mean_score + contrast_score)%float &&
  sameNumber (prop "shared_variance" channel) shared &&
  sameNumber (prop "independent_variance" channel) independent &&
  sameNumber (prop "variance_multiplier" channel) multiplier.

(** [new Set(values).size] of numbers. *)
Definition distinct_numbers (values : list jsval) : jsnum :=
  of_nat (length (dedup_from [] (List.map num values))).

Definition group_key (group : jsval) : jsval * jsval := (prop "method" group, prop "lineage_id" group).

(** [JSON.stringify([method, lineage_id])] is equal for equal strings only. *)
Definition same_key (k k' : jsval * jsval) : bool :=
  strict_eq (fst k) (fst k') && strict_eq (snd k) (snd k').

Definition discrepancy (request : ProgressivePolarFitRequest) (group : jsval) (index : nat) : jsnum :=
  num (elem index (policy (if is_str (prop "method" group) "openfoam_fast"
                           then "fast_discrepancy_std" else "precise_discrepancy_std") request)).

Definition validGroup (request : ProgressivePolarFitRequest) (perTest : jsnum) (group : jsval) : bool :=
  let count := num (prop "window_count" group) in
  let dimension := distinct_numbers (array_items (prop "alpha" group)) in
  let contrast := (count - dimension)%float in
  is_array (prop "observation_ids" group) && is_array (prop "alpha" group) &&
  on_num (fun n => length_is n (prop "observation_ids" group) && length_is n (prop "alpha" group) &&
                   negb (n < 1)%js && negb (n > 128)%js) (prop "window_count" group) &&
  match prop "coefficients" group with
  | JArr [cl; cd; cm] =>
      validChannel perTest dimension contrast (discrepancy request group 0) "cl" cl &&
      validChannel perTest dimension contrast (discrepancy request group 1) "log_cd" cd &&
      validChannel perTest dimension contrast (discrepancy request group 2) "cm" cm
  | _ => false
  end.

(** [for (const group of diagnostic.groups)], with the keys and observations seen. *)
Fixpoint conflictGroups (request : ProgressivePolarFitRequest) (contributors : list jsval)
    (perTest : jsnum) (groups : list jsval) (keys : list (jsval * jsval)) (seen : list jsval) :
    option (list jsval) :=
  match groups with
  | [] => Some seen
  | group :: rest =>
      if negb (existsb (same_key (group_key group)) keys) && validGroup request perTest group
      then
        match conflictMembers request contributors group
                (array_items (prop "observation_ids" group)) 0 seen with
        | Some seen => conflictGroups request contributors perTest rest (group_key group :: keys) seen
        | None => None
        end
      else None
  end.

Definition validatePolarConflictDiagnostics (request : ProgressivePolarFitRequest) (estimate : jsval) :
    result unit :=
  let diagnostic := prop "conflict_diagnostics" estimate in
  let invalid := Throw "Polar conflict diagnostics differ from their source or policy" in
  let probability := policy "lineage_conflict_probability" request in
  if nullish probability then
    throw_if (match diagnostic with JUndef => false | _ => true end)
      "Unrequested polar conflict diagnostics"
  else
    match probability, prop "groups" diagnostic with
    | JNum p, JArr groups =>
        let perTest := (p / (6 * Math_max 1 (of_nat (length groups))))%float in
        if isFinite p && negb (p <= 0)%js && negb (p > 0.05)%js
           && is_str (policy "calibration_status" request) "unvalidated"
           && is_str (prop "version" diagnostic) "conditional-lineage-subspaces-v1"
           && is_str (prop "interpretation" diagnostic) "fixed_gaussian_model_not_physical_validation"
           && strict_eq_num (prop "model_family_tail_probability" diagnostic) p
           && Nat.leb (length groups) 128 && is_array (prop "contributors" estimate)
           && sameNumber (prop "per_test_tail_probability" diagnostic) perTest
        then
          match conflictGroups request (estimate_contributors estimate) perTest groups [] [] with
          | Some seen =>
              throw_if (negb (Nat.eqb (length seen) (length (estimate_contributors estimate))))
                "Polar conflict diagnostics differ from their source or policy"
          | None => invalid
          end
        else invalid
    | _, _ => invalid
    end.

(** ** The response against the request *)

(** [[a-f0-9]{64}] of [String(v)] *)
Definition signature_ok (v : jsval) : bool := hex_string 64 (to_string v).

Definition estimate_version (r : ProgressivePolarFitRequest) : string :=
  if negb (nullish (policy "lineage_conflict_probability" r)) then "progressive-polar-gp-v4"
  else match policy_bias_std r with
       | None => "progressive-polar-gp-v2"
       | Some _ => "progressive-polar-gp-v3"
       end.

Definition responds (r : ProgressivePolarFitRequest) (response : jsval) : result bool :=
  let estimate := prop "estimate" response in
  any
    [Ok (negb (named (epoch_id r) (prop "epoch_id" response))
         || negb (named (lease_token r) (prop "lease_token" response))
         || negb (signature_ok (prop "request_signature" response))
         || negb (signature_ok (prop "signature" estimate))
         || negb (named (estimate_version r) (prop "version" estimate))
         || negb (is_str (prop "kind" estimate) "estimate")
         || negb (named (prior_target r) (prop "target_signature" estimate))
         || negb (named (prior_branch r) (prop "branch" estimate))
         || negb (named (prior_prediction r) (prop "prior_prediction_id" estimate))
         || negb (named (policy_id r) (prop "policy_id" estimate))
         || negb (strict_eq (prop "calibration_status" estimate) (policy "calibration_status" r))
         || negb (strict_eq (prop "validation_id" estimate)
                    (or_else (policy "validation_id" r) JNull)));
     differs (prop "alpha" estimate) (JArr (prior_alpha r));
     Ok (negb (is_str (prop "interpretation" (prop "interval" estimate)) "conditional_model_uncertainty")
         || negb (strict_eq_num (prop "probability" (prop "interval" estimate)) 0.95))].

(** A history that a contributor may be a block of. *)
Definition contributes (contributor : jsval) (row : History) : bool :=
  let window := prop "window" contributor in
  named (attempt_id (observation_of row)) (prop "attempt_id" contributor) &&
  named (method_name (method (observation_of row))) (prop "method" contributor) &&
  match coordinate_kind row with
  | iteration => nullish window
  | physical_time =>
      on_num (fun a => (a >= informative_start row)%js && JsArray.includes (coordinate row) a) (elem 0 window) &&
      on_num (fun b => JsArray.includes (coordinate row) b) (elem 1 window) &&
      on_num2 (fun a b => (b > a)%js) (elem 0 window) (elem 1 window)
  end.

Definition direct_row (r : ProgressivePolarFitRequest) (contributor : jsval) : option Observation :=
  List.find (fun row => named (observation_id row) (prop "observation_id" contributor)) (observations r).

Definition history_row (r : ProgressivePolarFitRequest) (contributor : jsval) : option History :=
  List.find (contributes contributor) (histories r).

(** [direct ?? history?.observation] *)
Definition original_row (r : ProgressivePolarFitRequest) (contributor : jsval) : option Observation :=
  match direct_row r contributor with
  | Some o => Some o
  | None => observation_of <$> history_row r contributor
  end.

Definition certification_of (r : ProgressivePolarFitRequest) (contributor : jsval) (o : Observation) :
    string :=
  match history_row r contributor with
  | Some h => if transient_kind (coordinate_kind h) then statistical_certification o
              else "numerical_iterations_only"
  | None => statistical_certification o
  end.

Definition sourced (r : ProgressivePolarFitRequest) (contributor : jsval) (o : Observation) : bool :=
  eligible o && named (result_id o) (prop "result_id" contributor)
  && named (attempt_id o) (prop "attempt_id" contributor)
  && named (method_name (method o)) (prop "method" contributor)
  && named (numerical_convergence o) (prop "numerical_convergence" contributor)
  && named (certification_of r contributor o) (prop "statistical_certification" contributor).

(** [for (const contributor of estimate.contributors)]: the angles observed. *)
Fixpoint checkContributors (r : ProgressivePolarFitRequest) (contributors : list jsval)
    (ids : list jsval) (angles : list jsnum) : result (list jsnum) :=
  match contributors with
  | [] => Ok angles
  | c :: rest =>
      let id := prop "observation_id" c in
      let* _ := throw_if (existsb (strict_eq id) ids) "Fitted polar contains duplicate contributors" in
      match original_row r c with
      | Some o =>
          let* _ := throw_if (negb (sourced r c o))
            "Fitted polar contributor has no exact eligible source" in
          checkContributors r rest (id :: ids) (angles ++ [obs_alpha o])
      | None => Throw "Fitted polar contributor has no exact eligible source"
      end
  end.

Definition unobserved (angles : list jsnum) (alpha : jsval) : bool :=
  match alpha with JNum x => negb (JsArray.includes angles x) | _ => true end.

Definition noise_ok (r : ProgressivePolarFitRequest) (v : jsval) : bool :=
  match v with
  | JArr [a; b; c] =>
      forallb (fun p => on_num2 (fun x floor => isFinite x && negb (x < floor)%js) (fst p) (snd p))
        [(a, elem 0 (policy "fast_noise_floor" r)); (b, elem 1 (policy "fast_noise_floor" r));
         (c, elem 2 (policy "fast_noise_floor" r))]
  | _ => false
  end.

(** The acquisition plan covers the angles without CFD. *)
Definition acquisitionDiffers (r : ProgressivePolarFitRequest) (estimate : jsval)
    (angles : list jsnum) : result bool :=
  let acquisition := prop "acquisition" estimate in
  let hasEvidence := negb (Nat.eqb (length (estimate_contributors estimate)) 0) in
  any
    [Ok (negb (truthy acquisition)
         || negb (is_str (prop "version" acquisition) "fixed-posterior-coverage-v1")
         || negb (is_str (prop "method" acquisition) "openfoam_fast")
         || negb (is_str (prop "noise_assumption" acquisition) "policy_floor_or_median_fast_observation")
         || negb (is_str (prop "status" acquisition)
                    (if hasEvidence then "available" else "no_eligible_cfd"))
         || negb (is_array (prop "candidates" acquisition)));
     differs (JArr (List.map (prop "alpha") (array_items (prop "candidates" acquisition))))
       (JArr (if hasEvidence
              then List.filter (unobserved angles) (array_items (prop "alpha" estimate)) else []));
     Ok (if hasEvidence then negb (noise_ok r (prop "prospective_noise_std" acquisition))
         else negb (is_null (prop "prospective_noise_std" acquisition)))].

(** Three fractions. *)
Definition fractions (v : jsval) : option vector3 :=
  match v with
  | JArr [JNum a; JNum b; JNum c] =>
      if forallb (fun x => isFinite x && negb (x < 0)%js && negb (x > 1)%js) [a; b; c]
      then Some [a; b; c] else None
  | _ => None
  end.

Definition checkCandidate (candidate : jsval) : result unit :=
  let score := prop "integrated_variance_reduction_fraction" candidate in
  match fractions (prop "covariance_reduction_fraction" candidate),
        fractions (prop "coverage_reduction_fraction" candidate) with
  | Some covariance, Some coverage =>
      let* _ := throw_if (negb (finite score))
        "Fitted polar has invalid acquisition uncertainty reductions" in
      let sums := zip_with (fun x y => (x + y)%float) covariance coverage in
      let total := fold_left (fun total value => (total + value)%float) sums 0%float in
      throw_if
        (existsb (fun value => (value > 1 + 1e-8)%js) sums
         || (PrimFloat.abs (num score - total / 3)%float > 1e-8)%js)
        "Acquisition score does not match its whole-curve components"
  | _, _ => Throw "Fitted polar has invalid acquisition uncertainty reductions"
  end.

(** [new Set(estimate.contributors.map((row) => row.method))] of method names. *)
Definition methods_of (estimate : jsval) : list string :=
  dedup_strings (List.map (fun row => to_string (prop "method" row)) (estimate_contributors estimate)).

Definition best_of (methods : list string) : string :=
  if mem "openfoam_precise" methods then "openfoam_precise"
  else if mem "openfoam_fast" methods then "openfoam_fast" else "neuralfoil".

Definition neuralfoilFallback (estimate : jsval) : bool :=
  let publication := prop "publication" estimate in
  is_str (prop "primary_method" publication) "neuralfoil" &&
  is_str (prop "status" publication) "preliminary" &&
  is_str (prop "reason" publication) "conflicting_sparse_fast_cfd_trend" &&
  match prop "matched_full_polar_reference" publication with JBool b => negb b | _ => false end.

Definition methodsOverstated (estimate : jsval) : result bool :=
  let curves := prop "curves" estimate in
  let methods := methods_of estimate in
  any
    [Ok ((negb (is_str (prop "best_method" estimate) (best_of methods)) && negb (neuralfoilFallback estimate))
         || negb (truthy (prop "composite" curves)));
     differs
       (JArr (List.map JStr (sort code_units match curves with JObj o => keys o | _ => [] end)))
       (JArr (List.map JStr (sort code_units ("composite" :: methods))))].

(** A row of three finite coefficients with a positive drag. *)
Definition matrix_row (row : jsval) : option vector3 :=
  match row with
  | JArr [JNum l; JNum d; JNum m] =>
      if forallb isFinite [l; d; m] && negb (d <= 0)%js then Some [l; d; m] else None
  | _ => None
  end.

(** The matrix with its rows, one for every angle. *)
Definition matrix (n : nat) (v : jsval) : option (list vector3) :=
  match v with
  | JArr rows => if Nat.eqb (length rows) n then all_some (List.map matrix_row rows) else None
  | _ => None
  end.

Definition outside (lower value upper : vector3) : bool :=
  existsb (fun i => (nth i lower PrimFloat.nan > nth i value PrimFloat.nan)%js
                    || (nth i upper PrimFloat.nan < nth i value PrimFloat.nan)%js) (seq 0 3).

Definition checkCurve (n : nat) (curve : jsval) : result unit :=
  match matrix n (prop "coefficients" curve), matrix n (prop "lower" curve), matrix n (prop "upper" curve) with
  | Some values, Some lower, Some upper =>
      throw_if
        (existsb (fun i => outside (nth i lower []) (nth i values []) (nth i upper [])) (seq 0 n))
        "Fitted polar uncertainty does not contain its central curve"
  | _, _, _ => Throw "Fitted polar contains invalid coefficients or uncertainty bounds"
  end.

Definition validateFitOutput (request : ProgressivePolarFitRequest) (response : jsval) : result unit :=
  let estimate := prop "estimate" response in
  let* changed := responds request response in
  let* _ := throw_if changed "Fitted polar response differs from its exact request" in
  let* _ := throw_if (negb (is_array (prop "contributors" estimate)))
    "estimate.contributors is not iterable" in
  let* angles := checkContributors request (estimate_contributors estimate) [] [] in
  let* _ := validatePolarConflictDiagnostics request estimate in
  let* changed := acquisitionDiffers request estimate angles in
  let* _ := throw_if changed
    "Fitted polar has an incompatible acquisition scope or noise policy" in
  let* _ := for_each checkCandidate (array_items (prop "candidates" (prop "acquisition" estimate))) in
  let* over := methodsOverstated estimate in
  let* _ := throw_if over "Fitted polar overstates its contributing methods" in
  for_each (checkCurve (length (array_items (prop "alpha" estimate))))
    match prop "curves" estimate with JObj o => List.map snd o | _ => [] end.

(** The checks of [storeProgressivePolarFit] before its transaction. *)
Definition validateDelivery (source : ProgressiveFitLease) (request : ProgressivePolarFitRequest)
    (response : jsval) : result unit :=
  let* _ := throw_if
    (negb (String.eqb (epoch_id request) (epochId source))
     || negb (String.eqb (lease_token request) (token source)))
    "Fitted polar delivery changed its lease identity" in
  let* _ := validateFitInput source request in
  validateFitOutput request response.
End Store.

(** ** Equal JSON *)

Section Built.
Context (hypot : jsnum -> jsnum -> jsnum).
Context (localeCompare hostCompare : string -> string -> jsnum) (sha256 : string -> string).

Abbreviation build := (buildProgressiveFitRequest hypot localeCompare hostCompare sha256).
Abbreviation json := (canonicalAnalysisJson localeCompare).
Abbreviation same := (sameJson localeCompare).

Lemma sameJson_refl (v : jsval) (s : string) : json v = Ok s -> same v v = Ok true.
Proof. intros H. unfold sameJson. rewrite H. cbn. by rewrite String.eqb_refl. Qed.

Lemma json_items (l : list jsval) :
  Forall (fun v => exists s, json v = Ok s) l -> exists s, json (JArr l) = Ok s.
Proof.
  intros H. cbn. assert (Hm : exists ss, result_map json l = Ok ss).
  { induction H as [|v l [s Hs] _ [ss IH]]; [by exists []|]. exists (s :: ss). cbn. by rewrite Hs, IH. }
  destruct Hm as [ss ->]. by eexists.
Qed.

Lemma json_nums (xs : list jsnum) :
  Forall (fun x => isFinite x = true) xs -> exists s, json (nums xs) = Ok s.
Proof.
  intros H. apply json_items. induction H as [|x xs Hx _ IH]; cbn; constructor; [|done].
  exists (Number_toString x). cbn. by rewrite Hx.
Qed.

Lemma physical_row_finite (row : vector3) :
  physical_row row -> Forall (fun x => isFinite x = true) row.
Proof. by intros (l & d & m & _ & H & _). Qed.

Lemma same_nums (xs : list jsnum) :
  Forall (fun x => isFinite x = true) xs -> same (nums xs) (nums xs) = Ok true.
Proof. intros [s H]%json_nums. by apply (sameJson_refl _ s). Qed.

Lemma same_rows (rows : list vector3) :
  Forall physical_row rows ->
  same (JArr (List.map nums rows)) (JArr (List.map nums rows)) = Ok true.
Proof.
  intros H. destruct (json_items (List.map nums rows)) as [s Hs]; [|by apply (sameJson_refl _ s)].
  induction H as [|row rows Hr _ IH]; cbn; constructor; [|done].
  by apply json_nums, physical_row_finite.
Qed.

(** ** An observation of the request *)

(** What [candidateFor] writes in every observation. *)
Record written (lease : ProgressiveFitLease) (e : ProgressiveFitEvidence) (o : Observation) : Prop := {
  written_row : row_of_evidence lease e o;
  written_branch : obs_branch o = branch (physical lease);
  written_convergence :
    numerical_convergence o = if is_true (get "converged" (payload e)) then "converged" else "unconverged";
  written_acceptance : accepted_cfd o = None;
  written_eligible : eligible o = true ->
    exclusion_reason o = None /\ earlyExclusion hypot lease e = Ok None;
}.

Lemma find_evidence_unique lease e :
  List.NoDup (List.map resultAttemptId (evidence_list lease)) -> In e (evidence_list lease) ->
  find_evidence lease (resultAttemptId e) = Some e.
Proof.
  unfold find_evidence. induction (evidence_list lease) as [|x l IH]; [done|].
  intros [Hx Hn]%NoDup_cons_iff [->|Hin]; cbn [List.find]; [by rewrite String.eqb_refl|].
  destruct (String.eqb_spec (resultAttemptId x) (resultAttemptId e)) as [E|_]; [|auto].
  destruct Hx. rewrite E. by apply in_map.
Qed.

Lemma not_overstated lease e o :
  written lease e o -> eligible o = true -> overstates hypot lease o e = Ok false.
Proof.
  intros Hw He. destruct (written_eligible _ _ _ Hw He) as [Hx Hearly].
  unfold overstates. rewrite Hx, (written_convergence _ _ _ Hw). unfold earlyExclusion in Hearly.
  destruct (mem (default "" (verdict e)) _) eqn:E1; [done|].
  destruct (classified_as e "superseded_by_urans") eqn:E2; [done|].
  destruct (mem (to_string _) _) eqn:E3; [done|].
  destruct (match classification e with Some (_, reasons) => _ | None => false end) eqn:E4; [done|].
  destruct (match get "error" (payload e) with JStr s => fatal_message s | _ => false end); [done|].
  apply bind_ok in Hearly as (b & Hb & Hp). destruct b; [|done].
  rewrite Hb. cbn [bind_result negb orb].
  by destruct (is_true (get "converged" (payload e))).
Qed.

Lemma written_exact lease e o :
  List.NoDup (List.map resultAttemptId (evidence_list lease)) -> In e (evidence_list lease) ->
  isNaN (alpha e) = false -> written lease e o -> exactObservation hypot lease o = Ok e.
Proof.
  intros Hn Hin Ha Hw. destruct (written_row _ _ _ Hw) as (Ea & Er & El & Eal & Et & Em).
  unfold exactObservation. rewrite Ea, find_evidence_unique by done.
  rewrite Er, El, Et, Eal, Em, (written_branch _ _ _ Hw), !String.eqb_refl.
  assert (Hrefl : PrimFloat.eqb (alpha e) (alpha e) = true) by (by apply eqb_ord).
  rewrite Hrefl, bool_decide_true by (by destruct (stage e)). cbn [negb orb throw_if bind_result].
  rewrite (written_acceptance _ _ _ Hw).
  destruct (eligible o) eqn:He; [rewrite (not_overstated lease e o) by done|]; done.
Qed.

(** ** A candidate is deliverable *)

(** The check that its row, or its history, passes. *)
Definition deliverable (lease : ProgressiveFitLease) (c : Candidate) : Prop :=
  written lease (evidence c) (observation c) /\
  match history c with
  | None => eligible (observation c) = true ->
      exists row, coefficients (observation c) = Some row /\ physical_row row /\
        [get "cl" (payload (evidence c)); get "cd" (payload (evidence c)); get "cm" (payload (evidence c))]
        = List.map JNum row
  | Some h =>
      observation_of h = observation c /\ same_correlation h (evidence c) = true /\
      exists raw,
        stored_history h (evidence c) = JObj raw /\
        analysisContentHash localeCompare sha256 (JObj raw) = Ok (artifact_sha256 h) /\
        historyRows (get (if transient_kind (coordinate_kind h) then "t" else "iterations") raw)
          [get "cl" raw; get "cd" raw; get "cm" raw] = inr (coordinate h, history_coefficients h)
  end.

Lemma excluded_deliverable lease c reason :
  written lease (evidence c) (observation c) -> deliverable lease (excluded c reason).
Proof.
  intros Hw. split; [|done]. destruct Hw as [Hr Hb Hc Ha _]. split; try done.
Qed.

Lemma correlation_same e transient h :
  correlation_time h = fst <$> correlation e transient ->
  correlation_evidence_id h = snd <$> correlation e transient -> same_correlation h e = true.
Proof.
  unfold same_correlation, correlation. intros -> ->.
  destruct (interpretation e) as [[id [iat|]]|]; try done.
  destruct (transient && isFinite iat && (iat > 0)%js) eqn:E; [|done]. cbn.
  rewrite String.eqb_refl, andb_true_r. apply eqb_ord.
  apply andb_true_iff in E as [E _]. apply andb_true_iff in E as [_ E].
  apply isFinite_not_nan in E. done.
Qed.

Lemma historyCandidate_deliverable lease e o (transient : bool) raw c :
  written lease e o ->
  get (if transient then "force_history" else "steady_history") (payload e) = JObj raw ->
  historyCandidate localeCompare sha256 lease e
    {| evidence := e; observation := o; history := None |} transient raw = Ok c ->
  evidence c = e /\ deliverable lease c.
Proof.
  intros Hw Hraw. unfold historyCandidate.
  destruct (historyRows _ _) as [reason|[xs rows]] eqn:Er.
  { intros [= <-]. split; [done|]. by apply excluded_deliverable. }
  destruct (informativeStart _ _ _ _ _) as [reason|start].
  { intros [= <-]. split; [done|]. by apply excluded_deliverable. }
  intros (h & Hh & [= <-])%bind_ok. split; [done|]. split; [done|]. cbn [history]. split; [done|].
  split; [by eapply correlation_same|]. exists raw. unfold stored_history. cbn.
  destruct transient; cbn; done.
Qed.

Lemma steadyCandidate_deliverable lease e o :
  written lease e o -> earlyExclusion hypot lease e = Ok None ->
  let c := steadyCandidate e {| evidence := e; observation := o; history := None |} in
  evidence c = e /\ deliverable lease c.
Proof.
  intros Hw Hearly. unfold steadyCandidate.
  set (base := {| evidence := e; observation := o; history := None |}).
  assert (Hex : forall r, evidence (excluded base r) = e /\ deliverable lease (excluded base r)).
  { intros r. split; [done|]. by apply excluded_deliverable. }
  destruct (physicalCoefficients _) as [row|] eqn:Ep; [|apply Hex].
  apply physicalCoefficients_spec in Ep as [Ev Hp].
  destruct row as [|l [|d [|m [|]]]]; try apply Hex.
  destruct (_ || truthy _); [apply Hex|]. destruct (noise_floor (stage e)) as [[fl fd] fm].
  split; [done|]. split; [|cbn; eauto]. destruct Hw as [Hr Hb Hc Ha _]. by split.
Qed.

Lemma initial_written lease e applicability :
  earlyExclusion hypot lease e = Ok None ->
  written lease e (initialObservation lease e applicability).
Proof. intros H. by split. Qed.

Lemma record_of_some (v : jsval) (o : record) : record_of v = Some o -> v = JObj o.
Proof. destruct v; cbn; congruence. Qed.

Lemma candidateFor_deliverable lease applicability e c :
  candidateFor hypot localeCompare sha256 lease applicability e = Ok c ->
  evidence c = e /\ deliverable lease c.
Proof.
  unfold candidateFor. intros (early & He & H)%bind_ok. destruct early as [reason|].
  - injection H as <-. split; [done|]. split; [by split|done].
  - pose proof (initial_written lease e applicability He) as Hw.
    destruct (record_of (get "force_history" (payload e))) as [raw|] eqn:Ef.
    { apply record_of_some in Ef. by apply (historyCandidate_deliverable lease e _ true raw) in H. }
    destruct (record_of (get "steady_history" (payload e))) as [raw|] eqn:Es.
    { apply record_of_some in Es. by apply (historyCandidate_deliverable lease e _ false raw) in H. }
    injection H as <-. by apply steadyCandidate_deliverable.
Qed.

Lemma admit_from_deliverable lease (l : list Candidate) : forall acc,
  Forall (deliverable lease) l -> Forall (deliverable lease) (admit_from acc l).
Proof.
  induction l as [|c l IH]; intros acc; cbn [admit_from]; [done|]. intros [Hc Hl]%Forall_cons_iff.
  destruct (negb _); [constructor; auto|]. destruct (existsb _ _); constructor; auto.
  apply excluded_deliverable, Hc.
Qed.

(** ** The checks of a built request *)

Lemma checkObservation_ok lease c :
  List.NoDup (List.map resultAttemptId (evidence_list lease)) -> In (evidence c) (evidence_list lease) ->
  isNaN (alpha (evidence c)) = false -> deliverable lease c -> history c = None ->
  checkObservation hypot localeCompare lease (observation c) = Ok tt.
Proof.
  intros Hn Hin Ha [Hw Hd] Hh. rewrite Hh in Hd. unfold checkObservation.
  rewrite (written_exact lease (evidence c)) by done. cbn [bind_result].
  destruct (eligible (observation c)); [|done].
  destruct (Hd eq_refl) as (row & -> & Hp & ->). cbn [optional_vector].
  change (JArr (List.map JNum row)) with (nums row).
  rewrite same_nums by by apply physical_row_finite. done.
Qed.

Lemma history_rows_elem (channels : list jsval) (ks : list nat) (rows : list vector3) :
  forallb is_array channels = true ->
  all_some (List.map (fun i => physicalCoefficients (List.map (fun channel =>
    match channel with JArr l => nth i l JUndef | _ => JUndef end) channels)) ks) = Some rows ->
  List.map (fun i => JArr (List.map (elem i) channels)) ks = List.map nums rows.
Proof.
  intros Hc H%all_some_spec. revert rows H.
  induction ks as [|i ks IH]; intros [|row rows]; cbn; try done. intros [= Hi H].
  rewrite (IH rows H). f_equal. apply physicalCoefficients_spec in Hi as [Hi _].
  unfold nums. rewrite <- Hi. f_equal. apply List.map_ext_in. intros channel Hin.
  rewrite forallb_forall in Hc. specialize (Hc channel Hin). by destruct channel.
Qed.

Lemma historyRows_elem cv channels xs rows :
  historyRows cv channels = inr (xs, rows) ->
  cv = JArr (List.map JNum xs) /\
  existsb (fun channel => match channel with
                          | JArr l => negb (Nat.eqb (length l) (length xs))
                          | _ => true
                          end) channels = false /\
  List.map (fun i => JArr (List.map (elem i) channels)) (seq 0 (length xs)) = List.map nums rows.
Proof.
  unfold historyRows. destruct cv as [| | | | |cs|]; try done.
  destruct (finite_all cs) as [ys|] eqn:E; [|done]. apply finite_all_spec in E as [-> Hf].
  destruct (_ || existsb _ channels) eqn:B; [done|].
  apply orb_false_iff in B as [_ Hc]. destruct (all_some _) as [rs|] eqn:Er; [|done].
  intros [= <- <-]. split; [done|]. split; [done|]. apply history_rows_elem; [|done].
  apply forallb_forall. intros channel Hin. apply existsb_false in Hc.
  rewrite List.Forall_forall in Hc. specialize (Hc channel Hin). by destruct channel.
Qed.

Lemma checkHistory_ok lease c h :
  List.NoDup (List.map resultAttemptId (evidence_list lease)) -> In (evidence c) (evidence_list lease) ->
  isNaN (alpha (evidence c)) = false -> deliverable lease c -> history c = Some h ->
  checkHistory hypot localeCompare sha256 lease h = Ok tt.
Proof.
  intros Hn Hin Ha [Hw Hd] Hh. rewrite Hh in Hd.
  destruct Hd as (Ho & Hcorr & raw & Hst & Hhash & Hrows). unfold checkHistory.
  rewrite Ho, (written_exact lease (evidence c)) by done. cbn [bind_result].
  rewrite Hcorr, Hst. cbn [negb throw_if bind_result prop].
  pose proof (historyRows_ok _ _ _ _ Hrows) as (_ & Hf & _ & _ & Hp).
  apply historyRows_elem in Hrows as (-> & Hc & Hr).
  rewrite length_map, Hc, Hhash, Hr. cbn [throw_if bind_result].
  rewrite String.eqb_refl. cbn [negb].
  change (JArr (List.map JNum (coordinate h))) with (nums (coordinate h)).
  rewrite same_nums, same_rows by done. done.
Qed.

(** ** A built request passes the check of the store *)

Lemma priorRows_spec (rows : list jsval) : forall vs,
  priorRows rows = Ok (Some vs) -> rows = List.map nums vs /\ Forall physical_row vs.
Proof.
  induction rows as [|row rows IH]; intros vs; cbn [priorRows]; [by intros [= <-]|].
  intros (v & Hv & H)%bind_ok. destruct v as [x|]; [|done].
  apply bind_ok in H as (xs & Hxs & H). destruct xs as [xs|]; [|done]. injection H as <-.
  destruct (IH xs Hxs) as [-> Hp]. unfold priorRow in Hv.
  destruct row as [| | | |s|values|o]; try done; [by destruct (Nat.eqb _ _) in Hv| |by destruct (strict_eq_num _ _) in Hv].
  injection Hv as Hv. apply physicalCoefficients_spec in Hv as [-> Hx]. split; [done|by constructor].
Qed.

Lemma prior_of_spec (p : record) angles rows :
  prior_of p = Ok (angles, rows) ->
  get "alpha" p = JArr angles /\ get "coefficients" p = JArr (List.map nums rows) /\
  Forall physical_row rows.
Proof.
  unfold prior_of. destruct (get "alpha" p) as [| | | | |as_|]; try done.
  destruct (get "coefficients" p) as [| | | | |cs|]; try done.
  destruct (negb _); [done|]. intros (vs & Hvs & H)%bind_ok. destruct vs as [vs|]; [|done].
  injection H as -> ->. by apply priorRows_spec in Hvs as [-> ?].
Qed.

(** What a built request takes from its lease. *)
Record leased (lease : ProgressiveFitLease) (r : ProgressivePolarFitRequest) : Prop := {
  leased_identity : epoch_id r = epochId lease /\ lease_token r = token lease;
  leased_prior : prior_prediction r = predictionId lease /\ prior_target r = targetId lease /\
    prior_branch r = branch (physical lease);
  leased_alpha : get "alpha" (prediction lease) = JArr (prior_alpha r);
  leased_coefficients : get "coefficients" (prediction lease) = JArr (List.map nums (prior_coefficients r)) /\
    Forall physical_row (prior_coefficients r);
  leased_provenance : prior_provenance r =
    [("model", get "model" (prediction lease)); ("geometry_fit", get "geometry_fit" (prediction lease));
     ("geometry_provenance", get "geometry_provenance" (prediction lease))];
  leased_bias : policy_bias_std r = match prior_bias r with Some _ => Some HISTORY_BIAS_STD | None => None end;
}.

Lemma build_leased lease r :
  build lease = Ok r ->
  leased lease r /\
  exists cs, Permutation (List.map evidence cs) (evidence_list lease) /\ Forall (deliverable lease) cs /\
    observations r = observations_of cs /\ histories r = histories_of cs.
Proof.
  unfold buildProgressiveFitRequest.
  intros (app & _ & (prior & Hp & (mapped & Hm & H)%bind_ok)%bind_ok)%bind_ok.
  apply bind_throw_if in H as [_ (id & _ & [= <-])%bind_ok]. destruct prior as [angles rows].
  apply prior_of_spec in Hp as (Ha & Hr & Hf). split; [by split|].
  exists (candidates_of (sort (newestFirst hostCompare) mapped)).
  destruct (candidates_sound _ _ hostCompare _ _ _ _ Hm) as [Hp _].
  split; [done|]. split; [|done]. apply admit_from_deliverable.
  assert (Hd : Forall (deliverable lease) mapped).
  { apply result_map_ok in Hm. clear -Hm. induction Hm as [|e c es cs Hc _ IH]; constructor; [|done].
    by apply candidateFor_deliverable in Hc as [_ ?]. }
  rewrite List.Forall_forall in *. intros c Hin. apply Hd. by apply in_sort in Hin.
Qed.

Lemma for_each_ok {A} (check : A -> result unit) (xs : list A) :
  (forall x, In x xs -> check x = Ok tt) -> for_each check xs = Ok tt.
Proof.
  induction xs as [|x xs IH]; intros H; cbn [for_each]; [done|].
  rewrite H by by left. cbn. apply IH. intros y Hy. apply H. by right.
Qed.

Lemma in_observations_of (cs : list Candidate) (o : Observation) :
  In o (observations_of cs) -> exists c, In c cs /\ history c = None /\ observation c = o.
Proof.
  unfold observations_of. intros (c & <- & [Hin Hh]%filter_In)%in_map_iff. exists c.
  by destruct (history c).
Qed.

Lemma in_histories_of (cs : list Candidate) (h : History) :
  In h (histories_of cs) -> exists c, In c cs /\ history c = Some h.
Proof.
  unfold histories_of. intros (c & Hin & Hh)%in_flat_map. exists c.
  destruct (history c); [|done]. destruct Hh as [->|[]]. done.
Qed.

Lemma candidate_observed (cs : list Candidate) lease c :
  Forall (deliverable lease) cs -> In c cs ->
  In (observation c) (observations_of cs ++ List.map observation_of (histories_of cs)).
Proof.
  intros Hd Hin. rewrite List.Forall_forall in Hd. destruct (Hd c Hin) as [_ Hh].
  apply in_app_iff. destruct (history c) as [h|] eqn:E.
  - right. destruct Hh as (<- & _). apply in_map, in_flat_map. exists c. rewrite E. split; [done|by left].
  - left. apply in_map, filter_In. by rewrite E.
Qed.

(** Hypotheses about what the lease was read from: attempts are identified, angles are
    numbers, and the stored prediction is JSON. *)
Record wf_lease (lease : ProgressiveFitLease) : Prop := {
  lease_attempts : List.NoDup (List.map resultAttemptId (evidence_list lease));
  lease_angles : Forall (fun e => isNaN (alpha e) = false) (evidence_list lease);
  lease_alpha_json : exists s, json (get "alpha" (prediction lease)) = Ok s;
  lease_provenance_json : exists s, json
    (JObj [("model", get "model" (prediction lease)); ("geometry_fit", get "geometry_fit" (prediction lease));
           ("geometry_provenance", get "geometry_provenance" (prediction lease))]) = Ok s;
}.

Lemma built_accepted lease r :
  wf_lease lease -> build lease = Ok r -> prior_bias r = None ->
  validateFitInput hypot localeCompare sha256 lease r = Ok tt.
Proof.
  intros [Hn Ha [sa Hsa] [sp Hsp]] Hb Hbias.
  apply build_leased in Hb as [Hl (cs & Hp & Hd & Ho & Hh)].
  destruct Hl as [_ (Ep & Et & Eb) Ealpha [Ec Hrows] Eprov Estd]. rewrite Hbias in Estd.
  assert (Hin : forall c, In c cs -> In (evidence c) (evidence_list lease)).
  { intros c Hc. rewrite <- Hp. by apply in_map. }
  rewrite List.Forall_forall in Ha, Hd.
  unfold validateFitInput. rewrite Estd. cbn [andb throw_if bind_result].
  replace (existsb _ (evidence_list lease)) with false.
  2: { symmetry. apply existsb_false, List.Forall_forall. intros e He. rewrite <- Hp in He.
       apply in_map_iff in He as (c & <- & Hc). apply negb_false_iff, existsb_exists.
       exists (attempt_id (observation c)). split.
       - apply in_map. unfold all_observations. rewrite Ho, Hh.
         apply (candidate_observed cs lease); [by apply List.Forall_forall|done].
       - apply String.eqb_eq. symmetry. apply (written_row _ _ _ (proj1 (Hd c Hc))). }
  cbn [throw_if bind_result]. unfold provenance. rewrite Ep, Et, Eb, Eprov, Hbias, !String.eqb_refl, app_nil_r.
  cbn [any negb orb bind_result]. unfold differs. rewrite <- Ealpha, Ec.
  rewrite (sameJson_refl _ _ Hsa), (same_rows _ Hrows), (sameJson_refl _ _ Hsp).
  cbn [bind_result negb any throw_if].
  rewrite (for_each_ok (checkObservation _ _ _)).
  2: { intros o. rewrite Ho. intros (c & Hc & Hnone & <-)%in_observations_of.
       apply checkObservation_ok; auto. }
  cbn [bind_result]. apply for_each_ok. intros h. rewrite Hh. intros (c & Hc & Hsome)%in_histories_of.
  apply (checkHistory_ok lease c); auto.
Qed.

Lemma biased_refused lease source r :
  build lease = Ok r -> prior_bias r <> None -> existsb eligible (all_observations r) = true ->
  validateFitInput hypot localeCompare sha256 source r =
    Throw "Bias policy requires exact source acceptance metadata".
Proof.
  intros Hb Hbias He. apply build_leased in Hb as [Hl (cs & _ & Hd & Ho & Hh)].
  unfold validateFitInput. rewrite (leased_bias _ _ Hl). destruct (prior_bias r); [|done]. cbn [andb].
  replace (existsb _ (all_observations r)) with true; [done|]. symmetry.
  apply existsb_exists in He as (o & Hin & He). apply existsb_exists. exists o. split; [done|].
  rewrite He. unfold all_observations in Hin. rewrite Ho, Hh in Hin. rewrite List.Forall_forall in Hd.
  assert (Hw : exists c, In c cs /\ observation c = o).
  { apply in_app_iff in Hin as [(c & Hc & _ & <-)%in_observations_of|Hin]; [eauto|].
    apply in_map_iff in Hin as (h & <- & (c & Hc & Hs)%in_histories_of). exists c. split; [done|].
    destruct (Hd c Hc) as [_ Hx]. rewrite Hs in Hx. destruct Hx as (<- & _). done. }
  destruct Hw as (c & Hc & <-). by rewrite (written_acceptance _ _ _ (proj1 (Hd c Hc))).
Qed.

(** C31. The two ends of a fit agree: a request built from a lease without a bias policy
    is accepted by the check against the source it was leased from, at claim time and
    again when the result is stored. *)
Theorem built_request_accepted lease r :
  wf_lease lease -> build lease = Ok r -> prior_bias r = None ->
  validateFitInput hypot localeCompare sha256 lease r = Ok tt.
Proof. apply built_accepted. Qed.

(** They do not agree on the bias policy: a request built with one is refused by
    every source as soon as one of its observations may be used, because the builder
    records no acceptance of the evidence. *)
Theorem biased_request_refused lease source r :
  build lease = Ok r -> prior_bias r <> None -> existsb eligible (all_observations r) = true ->
  validateFitInput hypot localeCompare sha256 source r =
    Throw "Bias policy requires exact source acceptance metadata".
Proof. apply biased_refused. Qed.
End Built.

(** ** An accepted response *)

Section Response.
Context (localeCompare : string -> string -> jsnum).
Context (Math_log : jsnum -> jsnum) (pow : jsnum -> jsnum -> jsnum).

Lemma named_spec (s : string) (v : jsval) : named s v = true <-> v = JStr s.
Proof.
  unfold named. destruct v; cbn; try (split; [done|discriminate]).
  rewrite String.eqb_eq. split; congruence.
Qed.

(** A contributor stands for an eligible row of the request. *)
Definition backed (r : ProgressivePolarFitRequest) (c : jsval) (o : Observation) : Prop :=
  In o (all_observations r) /\ eligible o = true /\
  prop "result_id" c = JStr (result_id o) /\ prop "attempt_id" c = JStr (attempt_id o) /\
  prop "method" c = JStr (method_name (method o)) /\
  prop "numerical_convergence" c = JStr (numerical_convergence o).

Lemma original_row_in r c o : original_row r c = Some o -> In o (all_observations r).
Proof.
  unfold original_row, all_observations. rewrite in_app_iff.
  destruct (direct_row r c) as [d|] eqn:E.
  - intros [= <-]. left. by apply find_some in E as [? _].
  - destruct (history_row r c) as [h|] eqn:Eh; [|done]. intros [= <-]. right.
    apply in_map. by apply find_some in Eh as [? _].
Qed.

Lemma sourced_backed r c o : original_row r c = Some o -> sourced r c o = true -> backed r c o.
Proof.
  intros Ho%original_row_in. unfold sourced. rewrite !andb_true_iff, !named_spec.
  intros (((((He & Hr) & Ha) & Hm) & Hn) & _). by split_and!.
Qed.

Abbreviation id_of := (prop "observation_id").

Lemma checkContributors_sound r (cs : list jsval) : forall ids angles out,
  checkContributors r cs ids angles = Ok out ->
  exists os, Forall2 (backed r) cs os /\ out = angles ++ List.map obs_alpha os /\
    Forall (fun c => existsb (strict_eq (id_of c)) ids = false) cs /\
    ForallOrdPairs (fun c c' => strict_eq (id_of c') (id_of c) = false) cs.
Proof.
  induction cs as [|c cs IH]; intros ids angles out; cbn [checkContributors].
  - intros [= <-]. exists []. rewrite app_nil_r. split; [constructor|]. split; [done|].
    split; constructor.
  - intros [Hd H]%bind_throw_if. destruct (original_row r c) as [o|] eqn:Eo; [|done].
    apply bind_throw_if in H as [Hs%negb_false_iff H].
    destruct (IH _ _ _ H) as (os & Hb & -> & Hi & Hp). exists (o :: os).
    split; [constructor; [by apply sourced_backed|done]|]. cbn [List.map].
    split; [by rewrite <- app_assoc|].
    assert (Hi' : Forall (fun x => strict_eq (id_of x) (id_of c) = false /\
      existsb (strict_eq (id_of x)) ids = false) cs).
    { forall_impl Hi. cbn. intros x [??]%orb_false_iff. done. }
    split.
    + constructor; [done|]. forall_impl Hi'; naive_solver.
    + constructor; [|done]. forall_impl Hi'; naive_solver.
Qed.

(** Three finite numbers, the middle one positive. *)
Definition bound_row (row : vector3) : Prop :=
  exists l d m, row = [l; d; m] /\ Forall (fun x => isFinite x = true) row /\ (0 < ord d)%Z.

Lemma matrix_row_spec (v : jsval) (row : vector3) :
  matrix_row v = Some row -> v = nums row /\ bound_row row.
Proof.
  unfold matrix_row. destruct v as [| | | | |l|]; try done.
  destruct l as [|[| | |x| | |] [|[| | |y| | |] [|[| | |z| | |] [|]]]]; try done.
  destruct (forallb isFinite [x; y; z] && negb (y <= 0)%js) eqn:E; [|done]. intros [= <-].
  apply andb_true_iff in E as [Hf Hy%negb_true_iff]. cbn in Hf. rewrite !andb_true_iff in Hf.
  destruct Hf as (Hx & Hyf & Hz & _). split; [done|]. exists x, y, z. split; [done|].
  split; [by repeat constructor|].
  apply leb_finite_false in Hy; [|done..]. by rewrite ord_0 in Hy.
Qed.

Lemma matrix_spec (n : nat) (v : jsval) (rows : list vector3) :
  matrix n v = Some rows -> v = JArr (List.map nums rows) /\ length rows = n /\ Forall bound_row rows.
Proof.
  destruct v as [| | | | |vs|]; try done. cbn. destruct (Nat.eqb_spec (length vs) n) as [<-|]; [|done].
  intros H%all_some_spec. revert rows H.
  induction vs as [|v vs IH]; intros [|row rows]; cbn; try done.
  intros [= Hv H]. destruct (IH rows H) as ([= ->] & Hl & Hf). apply matrix_row_spec in Hv as [-> Hr].
  split; [done|]. split; [by rewrite Hl|by constructor].
Qed.

(** The band of a curve: [lower <= value <= upper] in every coefficient. *)
Definition inside (lower value upper : vector3) : Prop :=
  forall i, (i < 3)%nat ->
    (ord (nth i lower PrimFloat.nan) <= ord (nth i value PrimFloat.nan) <=
     ord (nth i upper PrimFloat.nan))%Z.

Lemma bound_row_nth (row : vector3) (i : nat) :
  bound_row row -> (i < 3)%nat -> isFinite (nth i row PrimFloat.nan) = true.
Proof.
  intros (l & d & m & -> & Hf & _) Hi. rewrite List.Forall_forall in Hf. apply Hf, nth_In. cbn. lia.
Qed.

Lemma outside_false (lower value upper : vector3) :
  bound_row lower -> bound_row value -> bound_row upper -> outside lower value upper = false ->
  inside lower value upper.
Proof.
  intros Hl Hv Hu H%existsb_false i Hi. rewrite List.Forall_forall in H.
  specialize (H i ltac:(apply in_seq; lia)). apply orb_false_iff in H as [H1 H2].
  apply ltb_finite_false in H1; [|by apply bound_row_nth..].
  apply ltb_finite_false in H2; [|by apply bound_row_nth..]. lia.
Qed.

(** A curve over [n] angles with its uncertainty band. *)
Definition good_curve (n : nat) (curve : jsval) : Prop :=
  exists values lower upper,
    prop "coefficients" curve = JArr (List.map nums values) /\
    prop "lower" curve = JArr (List.map nums lower) /\
    prop "upper" curve = JArr (List.map nums upper) /\
    length values = n /\ length lower = n /\ length upper = n /\
    Forall bound_row values /\ Forall bound_row lower /\ Forall bound_row upper /\
    forall i, (i < n)%nat -> inside (nth i lower []) (nth i values []) (nth i upper []).

Lemma checkCurve_good (n : nat) (curve : jsval) : checkCurve n curve = Ok tt -> good_curve n curve.
Proof.
  unfold checkCurve. destruct (matrix n (prop "coefficients" curve)) as [values|] eqn:Ev; [|done].
  destruct (matrix n (prop "lower" curve)) as [lower|] eqn:El; [|done].
  destruct (matrix n (prop "upper" curve)) as [upper|] eqn:Eu; [|done].
  intros H%throw_if_ok. apply matrix_spec in Ev as (Ev & Hv & Fv), El as (El & Hl & Fl), Eu as (Eu & Hu & Fu).
  exists values, lower, upper. do 9 (split; [done|]). intros i Hi.
  apply existsb_false in H. rewrite List.Forall_forall in H. specialize (H i ltac:(apply in_seq; lia)).
  rewrite List.Forall_forall in Fv, Fl, Fu.
  apply outside_false; [apply Fl|apply Fv|apply Fu|done]; apply nth_In; lia.
Qed.

Lemma for_each_inv {A} (check : A -> result unit) (xs : list A) :
  for_each check xs = Ok tt -> Forall (fun x => check x = Ok tt) xs.
Proof.
  induction xs as [|x xs IH]; cbn [for_each]; [by constructor|].
  intros ([] & Hx & H)%bind_ok. constructor; auto.
Qed.

(** The curves of an estimate. *)
Definition curves_of (estimate : jsval) : record := match prop "curves" estimate with JObj o => o | _ => [] end.

Lemma any_false (tests : list (result bool)) :
  any tests = Ok false -> Forall (fun t => t = Ok false) tests.
Proof.
  induction tests as [|t ts IH]; cbn [any]; [by constructor|].
  intros (b & Hb & H)%bind_ok. destruct b; [done|]. constructor; auto.
Qed.

(** An accepted response rests on its request: its contributors are distinct and
    each stands for an eligible row of the request, with that row's identity; every
    curve has one row per angle, finite and with positive drag, inside its uncertainty
    band; and the best method is one that contributed, unless the response falls back
    to the prior. *)
Theorem validateFitOutput_sound r response :
  validateFitOutput localeCompare Math_log pow r response = Ok tt ->
  let estimate := prop "estimate" response in
  (exists os, Forall2 (backed r) (estimate_contributors estimate) os) /\
  ForallOrdPairs (fun c c' => strict_eq (id_of c') (id_of c) = false) (estimate_contributors estimate) /\
  Forall (fun e => good_curve (length (array_items (prop "alpha" estimate))) (snd e)) (curves_of estimate) /\
  (prop "best_method" estimate = JStr (best_of (methods_of estimate)) \/ neuralfoilFallback estimate = true).
Proof.
  unfold validateFitOutput. intros (b & _ & [_ [_ H]%bind_throw_if]%bind_throw_if)%bind_ok.
  apply bind_ok in H as (angles & Hc & H). apply bind_ok in H as (u & _ & H).
  apply bind_ok in H as (d & _ & H). apply bind_throw_if in H as [_ H].
  apply bind_ok in H as ([] & _ & H). apply bind_ok in H as (over & Ho & H).
  apply bind_throw_if in H as [-> H].
  apply checkContributors_sound in Hc as (os & Hb & _ & _ & Hd). cbn zeta.
  split; [by exists os|]. split; [done|]. split.
  - unfold curves_of. destruct (prop "curves" (prop "estimate" response)) as [| | | | | |o]; try by constructor.
    apply for_each_inv, List.Forall_map in H. forall_impl H. intros e. apply checkCurve_good.
  - unfold methodsOverstated in Ho. apply any_false, Forall_cons_iff in Ho as [Ho _].
    injection Ho as Ho. apply orb_false_iff in Ho as [Ho _].
    apply andb_false_iff in Ho as [Ho%negb_false_iff|Ho%negb_false_iff]; [left|by right].
    by apply (named_spec _ _).
Qed.
End Response.

(** ** Concrete deliveries *)

Module Deliveries.
Definition with_prediction (lease : ProgressiveFitLease) (p : AnalysisPhysical)
    (evidence : list ProgressiveFitEvidence) : ProgressiveFitLease :=
  {| token := token lease; predictionId := predictionId lease; targetId := targetId lease;
     epochId := epochId lease; physical := p;
     prediction := prediction lease ++
       [("model", JStr "neuralfoil"); ("geometry_fit", JNull); ("geometry_provenance", JNull)];
     evidence_list := evidence |}.

Definition lease : ProgressiveFitLease :=
  with_prediction Examples.lease Examples.target (evidence_list Examples.lease).

Definition build : ProgressiveFitLease -> result ProgressivePolarFitRequest :=
  buildProgressiveFitRequest Examples.hypot code_units code_units Examples.no_hash.

(** Evidence of the engine that the bias was measured with. *)
Definition biased_evidence : ProgressiveFitEvidence :=
  let e := Examples.steady_evidence "c" "other" in
  {| resultAttemptId := resultAttemptId e; resultId := resultId e; lineageId := lineageId e;
     alpha := alpha e; stage := Fast;
     payload := payload e ++ [("engine", JObj HISTORY_BIAS_ENGINE); ("method_key", JStr "openfoam.rans");
                              ("fidelity", JStr "trans")];
     classification := None; verdict := None; interpretation := None; createdAt := createdAt e |}.

Definition biased_target : AnalysisPhysical :=
  {| geometry := geometry Examples.target; branch := "increasing";
     mach := Some 0.08814658492111002%float; reynolds := 102280; referenceLengthM := 1; speedMps := 10;
     condition := JObj [] |}.

Definition biased_lease : ProgressiveFitLease :=
  with_prediction Examples.lease biased_target [biased_evidence].

Lemma lease_wf : wf_lease code_units lease.
Proof.
  split.
  - repeat constructor; cbn; intuition discriminate.
  - repeat constructor.
  - eexists. vm_compute. reflexivity.
  - eexists. vm_compute. reflexivity.
Qed.

Lemma lease_built : exists r, build lease = Ok r /\ prior_bias r = None.
Proof. eexists. split; vm_compute; reflexivity. Qed.

Lemma biased_built :
  exists r, build biased_lease = Ok r /\ is_Some (prior_bias r) /\
    existsb eligible (all_observations r) = true.
Proof. eexists. split; [vm_compute; reflexivity|]. split; [eexists|]; vm_compute; reflexivity. Qed.

Fixpoint zeros (n : nat) : string := match n with O => "" | S n' => String "0" (zeros n') end.

Definition two_rows (l d m : jsnum) : jsval := JArr [nums [l; d; m]; nums [l; d; m]].

Definition curve : jsval :=
  JObj [("coefficients", two_rows 0.5 0.02 0); ("lower", two_rows 0.4 0.01 (-0.1));
        ("upper", two_rows 0.6 0.03 0.1)].

Definition fractions_of (x : jsnum) : jsval := nums [x; x; x].

Definition response : jsval :=
  JObj [("epoch_id", JStr "epoch"); ("lease_token", JStr "token");
        ("request_signature", JStr (zeros 64));
        ("estimate", JObj
          [("version", JStr "progressive-polar-gp-v2"); ("signature", JStr (zeros 64));
           ("kind", JStr "estimate"); ("target_signature", JStr "target");
           ("branch", JStr "increasing"); ("alpha", nums [0; 2]%float);
           ("prior_prediction_id", JStr "prediction");
           ("policy_id", JStr (assumptions_version +:+ "-h"));
           ("calibration_status", JStr "unvalidated"); ("validation_id", JNull);
           ("interval", JObj [("probability", JNum 0.95);
                              ("interpretation", JStr "conditional_model_uncertainty")]);
           ("curves", JObj [("composite", curve); ("openfoam_fast", curve)]);
           ("best_method", JStr "openfoam_fast");
           ("contributors", JArr [JObj
              [("observation_id", JStr "attempt-c"); ("result_id", JStr "r-c"); ("attempt_id", JStr "c");
               ("method", JStr "openfoam_fast"); ("numerical_convergence", JStr "converged");
               ("statistical_certification", JStr "informative_uncertified")]]);
           ("acquisition", JObj
              [("version", JStr "fixed-posterior-coverage-v1"); ("method", JStr "openfoam_fast");
               ("status", JStr "available");
               ("noise_assumption", JStr "policy_floor_or_median_fast_observation");
               ("prospective_noise_std", nums [0.03; 0.03; 0.005]%float);
               ("candidates", JArr [JObj
                  [("alpha", JNum 0); ("integrated_variance_reduction_fraction", JNum 0.5);
                   ("covariance_reduction_fraction", fractions_of 0.25);
                   ("coverage_reduction_fraction", fractions_of 0.25)]])])])].

Definition log_of (x : jsnum) : jsnum := (x - 1)%float.
Definition square (x n : jsnum) : jsnum := (x * x)%float.

Lemma response_accepted :
  exists r, build lease = Ok r /\
    validateDelivery Examples.hypot code_units Examples.no_hash log_of square lease r response = Ok tt /\
    validateFitOutput code_units log_of square r response = Ok tt.
Proof. eexists. split; [vm_compute; reflexivity|]. split; vm_compute; reflexivity. Qed.
End Deliveries.

Lemma built_request_accepted_witness :
  exists r, Deliveries.build Deliveries.lease = Ok r /\
    validateFitInput Examples.hypot code_units Examples.no_hash Deliveries.lease r = Ok tt.
Proof.
  destruct Deliveries.lease_built as (r & Hr & Hb). exists r. split; [exact Hr|].
  exact (built_request_accepted _ _ _ _ _ _ Deliveries.lease_wf Hr Hb).
Defined.

Lemma biased_request_refused_witness :
  exists r, Deliveries.build Deliveries.biased_lease = Ok r /\
    validateFitInput Examples.hypot code_units Examples.no_hash Deliveries.biased_lease r =
      Throw "Bias policy requires exact source acceptance metadata".
Proof.
  destruct Deliveries.biased_built as (r & Hr & [b Hb] & He). exists r. split; [exact Hr|].
  refine (biased_request_refused _ _ _ _ _ _ _ Hr _ He). rewrite Hb. discriminate.
Defined.

Lemma validateFitOutput_sound_witness :
  exists r, Deliveries.build Deliveries.lease = Ok r /\
    Forall (fun e => good_curve 2 (snd e)) (curves_of (prop "estimate" Deliveries.response)).
Proof.
  destruct Deliveries.response_accepted as (r & Hr & _ & Ho). exists r. split; [exact Hr|].
  exact (proj1 (proj2 (proj2 (validateFitOutput_sound _ _ _ _ _ Ho)))).
Defined.
