(* ===== verification/CampaignPlan.v ===== *)
(** * Campaign plans

    The plan document of [packages/db/src/campaigns.ts]: its normalisation with the
    issue list, the expansion into conditions and angle sets and the point
    arithmetic; and the mirror of that arithmetic in the wizard,
    [apps/web/components/admin/campaigns/plan-model.ts].

    A plan input is JSON whose fields may be missing.  [push] appends to the list of
    issues, which is returned beside every value; an exception that is not caught is
    [Throw].  The expansion of an angle grid takes the fuel of [Canonical], so a
    result is [None] only when the fuel was not enough.  The host's collation is a
    parameter. *)

From Stdlib Require Import ZArith Lia Bool Ascii String Sorting.Permutation.
From Stdlib Require Import Floats.
From stdpp Require Import base list strings option numbers.
From S2P Require Import Prelude JsNumber JsString JsValue JsArray Canonical.

Local Open Scope string_scope.
Local Open Scope list_scope.
Local Open Scope result_scope.

(** ** Data *)

Record CampaignObjectivePlan := {
  objective_enabled : bool;
  objective_toleranceDeg : string;
  objective_maxRounds : jsnum;
}.

Record CampaignBaseSweep := {
  sweep_fromDeg : option string;
  sweep_toDeg : option string;
  sweep_stepDeg : option string;
  sweep_listDeg : option (list string);
}.

Abbreviation ambient := (string * string)%type.
Abbreviation exclusion := (string * string * string * string)%type.

Record CampaignPlan := {
  mediumId : string;
  ambients : list ambient;
  speedsMps : list string;
  chordsM : list string;
  plan_spanM : string;
  areaMode : string;
  plan_areaM2 : option string;
  excludedConditions : list exclusion;
  baseSweep : CampaignBaseSweep;
  ldMax : CampaignObjectivePlan;
  clZero : CampaignObjectivePlan;
  clMax : CampaignObjectivePlan;
  boundaryProfileId : jsval;
  meshProfileId : jsval;
  uransMeshProfileId : option string;
  uransPrecalcMeshProfileId : option string;
  solverProfileId : jsval;
  outputProfileId : jsval;
}.

Record ObjectiveInput := {
  in_enabled : jsval;
  in_toleranceDeg : jsval;
  in_maxRounds : jsval;
}.

Record SweepInput := {
  in_fromDeg : jsval;
  in_toDeg : jsval;
  in_stepDeg : jsval;
  in_listDeg : option (list jsval);
}.

Record CampaignPlanInput := {
  in_mediumId : jsval;
  in_ambients : option (list (jsval * jsval));
  in_speedsMps : option (list jsval);
  in_chordsM : option (list jsval);
  in_spanM : jsval;
  in_areaMode : option string;
  in_areaM2 : jsval;
  in_excludedConditions : option (list (jsval * jsval * jsval * jsval));
  in_baseSweep : option SweepInput;
  in_ldMax : option ObjectiveInput;
  in_clZero : option ObjectiveInput;
  in_clMax : option ObjectiveInput;
  in_numerics : record;
}.

Record CampaignPlanIssue := { path : string; message : string }.

Definition issue (p m : string) : CampaignPlanIssue := {| path := p; message := m |}.
Definition push_if (b : bool) (p m : string) : list CampaignPlanIssue := if b then [issue p m] else [].

Definition CAMPAIGN_MAX_VALUES_PER_AXIS : nat := 25.
Definition CAMPAIGN_MAX_CONDITIONS : Z := 2000.

(** [num(v)] for a number or a string. *)
Definition num (v : jsval) : jsnum := to_number v.

(** [Number.isFinite(n) && n > 0] *)
Definition positive (n : jsnum) : bool := isFinite n && (n > 0)%js.

(** ** Axes *)

Fixpoint dedup_from {A} (key : A -> string) (seen : list string) (items : list A) : list A :=
  match items with
  | [] => []
  | item :: rest =>
      if mem (key item) seen then dedup_from key seen rest
      else item :: dedup_from key (key item :: seen) rest
  end.

Definition dedupeSorted {A} (items : list A) (key : A -> string) (cmp : A -> A -> jsnum) : list A :=
  sort cmp (dedup_from key [] items).

Definition ambient_key (a : ambient) : string := fst a +:+ "|" +:+ snd a.

Definition exclusion_key (x : exclusion) : string :=
  match x with (t, p, s, c) => join "|" [t; p; s; c] end.

Definition by_number (a b : string) : jsnum := (string_to_number a - string_to_number b)%float.

Definition by_ambient (a b : ambient) : jsnum := js_or (by_number (fst a) (fst b)) (by_number (snd a) (snd b)).

(** Issues beside a value. *)
Abbreviation checked A := (list CampaignPlanIssue * A)%type.

Definition ambientPair (tp : jsval * jsval) : result (checked ambient) :=
  let t := num (fst tp) in
  let p := num (snd tp) in
  let* ts := canonicalSiString temperatureK t in
  let* ps := canonicalSiString pressurePa p in
  Ok (push_if (negb (positive t)) "ambients"
        ("temperature must be > 0 K (got " +:+ to_string (fst tp) +:+ ")") ++
      push_if (negb (positive p)) "ambients"
        ("pressure must be > 0 Pa (got " +:+ to_string (snd tp) +:+ ")"), (ts, ps)).

Definition normalizeAmbients (input : list (jsval * jsval)) : result (checked (list ambient)) :=
  let* rows := result_map ambientPair input in
  let out := dedupeSorted (List.map snd rows) ambient_key by_ambient in
  Ok (List.flat_map fst rows ++
      push_if (Nat.eqb (length out) 0) "ambients" "at least one ambient (T, P) is required" ++
      push_if (Nat.ltb CAMPAIGN_MAX_VALUES_PER_AXIS (length out)) "ambients" "at most 25 ambients", out).

Definition axisValue (field : string) (kind : CanonicalSiKind) (v : jsval) : result (checked string) :=
  let n := num v in
  let* s := canonicalSiString kind (if positive n then n else 1%float) in
  Ok (push_if (negb (positive n)) field
        ("values must be finite and > 0 (got " +:+ to_string v +:+ ")"), s).

Definition canonicalAxis (field : string) (kind : CanonicalSiKind) (values : list jsval) :
    result (checked (list string)) :=
  let* rows := result_map (axisValue field kind) values in
  let out := dedupeSorted (List.map snd rows) id by_number in
  Ok (List.flat_map fst rows ++
      push_if (Nat.eqb (length out) 0) field "at least one value is required" ++
      push_if (Nat.ltb CAMPAIGN_MAX_VALUES_PER_AXIS (length out)) field "at most 25 values per axis", out).

(** ** Span and reference area *)

Definition normalizeSpan (v : jsval) : result (checked string) :=
  let n := num v in
  let* s := canonicalSiString spanM (if positive n then n else 1%float) in
  Ok (push_if (negb (positive n)) "spanM" "span must be > 0 m", s).

Definition nan_if_nullish (v : jsval) : jsval := if nullish v then JNum PrimFloat.nan else v.

Definition normalizeArea (mode : string) (v : jsval) (chords : list string) :
    result (checked (option string)) :=
  if String.eqb mode "explicit" then
    let single := push_if (Nat.ltb 1 (length chords)) "areaMode"
      "explicit reference area is only allowed while a single chord is selected" in
    let n := num (nan_if_nullish v) in
    if positive n then let* s := canonicalSiString areaM2 n in Ok (single, Some s)
    else Ok (single ++ [issue "areaM2" "explicit area mode requires areaM2 > 0"], None)
  else Ok (push_if (negb (nullish v)) "areaM2"
             ("areaM2 must be null while areaMode is " +:+ quoted "derived"), None).

(** ** Exclusions *)

Definition exclusionOf (x : jsval * jsval * jsval * jsval) : result exclusion :=
  match x with (t, p, s, c) =>
    let* t := canonicalSiString temperatureK (num t) in
    let* p := canonicalSiString pressurePa (num p) in
    let* s := canonicalSiString speedMps (num s) in
    let* c := canonicalSiString chordM (num c) in
    Ok (t, p, s, c)
  end.

Definition applies (ambients : list ambient) (speeds chords : list string) (x : exclusion) : bool :=
  match x with (t, p, s, c) =>
    mem (t +:+ "|" +:+ p) (List.map ambient_key ambients) && mem s speeds && mem c chords
  end.

Definition countApplicableExclusions (ambients : list ambient) (speeds chords : list string)
    (excluded : list exclusion) : nat :=
  length (List.filter (applies ambients speeds chords) excluded).

(** ** The base sweep *)

Definition empty_sweep : CampaignBaseSweep :=
  {| sweep_fromDeg := None; sweep_toDeg := None; sweep_stepDeg := None; sweep_listDeg := Some [] |}.

Definition canonicalAoaString (v : jsval) : result string :=
  let* a := canonicalAoa (num v) in Ok (toFixed a 4).

Definition zero_if_nullish (v : jsval) : jsval := if nullish v then JNum 0 else v.

(** The issues, the sweep and [angleCount]; [catch] turns an exception into an issue. *)
Definition sweep_failed (issues : list CampaignPlanIssue) (m : string) (angleCount : nat) :
    checked (CampaignBaseSweep * nat) :=
  (issues ++ [issue "baseSweep" m], (empty_sweep, angleCount)).

Definition normalizeSweep (fuel : nat) (input : option SweepInput) :
    option (checked (CampaignBaseSweep * nat)) :=
  let raw := default {| in_fromDeg := JUndef; in_toDeg := JUndef; in_stepDeg := JUndef;
                        in_listDeg := None |} input in
  match in_listDeg raw with
  | Some l =>
      match expandAngleGrid fuel {| fromDeg := None; toDeg := None; stepDeg := None;
                                    listDeg := Some (List.map num l) |} with
      | None => None
      | Some (Throw m) => Some (sweep_failed [] m 0)
      | Some (Ok angles) =>
          Some (push_if (Nat.eqb (length angles) 0) "baseSweep.listDeg"
                  "angle list must contain at least one angle",
                ({| sweep_fromDeg := None; sweep_toDeg := None; sweep_stepDeg := None;
                    sweep_listDeg := Some (List.map (fun a => toFixed a 4) angles) |}, length angles))
      end
  | None =>
      match expandAngleGrid fuel
              {| fromDeg := Some (num (nan_if_nullish (in_fromDeg raw)));
                 toDeg := Some (num (nan_if_nullish (in_toDeg raw)));
                 stepDeg := Some (num (nan_if_nullish (in_stepDeg raw))); listDeg := None |} with
      | None => None
      | Some (Throw m) => Some (sweep_failed [] m 0)
      | Some (Ok angles) =>
          let issues := push_if (Nat.eqb (length angles) 0) "baseSweep"
                          "base sweep expands to zero angles" in
          Some match
            (let* f := canonicalAoaString (zero_if_nullish (in_fromDeg raw)) in
             let* t := canonicalAoaString (zero_if_nullish (in_toDeg raw)) in
             let* s := canonicalAoaString (zero_if_nullish (in_stepDeg raw)) in
             Ok {| sweep_fromDeg := Some f; sweep_toDeg := Some t; sweep_stepDeg := Some s;
                   sweep_listDeg := None |}) with
          | Ok sweep => (issues, (sweep, length angles))
          | Throw m => sweep_failed issues m (length angles)
          end
      end
  end.

(** ** Objectives *)

Definition DISABLED_CLMAX_OBJECTIVE : CampaignObjectivePlan :=
  {| objective_enabled := false; objective_toleranceDeg := "0.10"; objective_maxRounds := 8 |}.

Definition toleranceString (v : jsval) : result string :=
  let n := num v in
  if positive n then Ok (toFixed n 2)
  else Throw ("objective tolerance must be > 0 (got " +:+ to_string v +:+ ")").

Definition normalizeObjective (input : option ObjectiveInput) (p : string) :
    checked CampaignObjectivePlan :=
  match input with
  | None => ([issue p "objective block is required (enabled=false is fine)"],
             {| objective_enabled := false; objective_toleranceDeg := "0.10"; objective_maxRounds := 8 |})
  | Some input =>
      let '(issues, tolerance) :=
        match toleranceString (in_toleranceDeg input) with
        | Ok s => ([], s)
        | Throw m => ([issue (p +:+ ".toleranceDeg") m], "0.10")
        end in
      let maxRounds := num (in_maxRounds input) in
      (issues ++
       push_if (negb (isInteger maxRounds && (maxRounds >= 1)%js && (maxRounds <= 50)%js))
         (p +:+ ".maxRounds") "maxRounds must be an integer 1..50",
       {| objective_enabled := truthy (in_enabled input); objective_toleranceDeg := tolerance;
          objective_maxRounds := if isInteger maxRounds then maxRounds else 8%float |})
  end.

(** ** Numerics *)

Definition REQUIRED_SLOTS : list string :=
  ["boundaryProfileId"; "meshProfileId"; "solverProfileId"; "outputProfileId"].

Definition requiredNumerics (numerics : record) : list CampaignPlanIssue :=
  List.flat_map (fun slot => push_if (negb (truthy (get slot numerics))) ("numerics." +:+ slot)
                               "numerics profile is required") REQUIRED_SLOTS.

Definition optionalNumericProfileId (numerics : record) (slot : string) : checked (option string) :=
  match get slot numerics with
  | JUndef | JNull => ([], None)
  | JStr s =>
      if Nat.eqb (String.length (trim s)) 0
      then ([issue ("numerics." +:+ slot)
               "optional numerics profile id must be a non-empty string when set"], None)
      else ([], Some s)
  | _ => ([issue ("numerics." +:+ slot)
             "optional numerics profile id must be a non-empty string when set"], None)
  end.

(** ** The plan *)

Inductive outcome :=
  | Normalized (plan : CampaignPlan)
  | Invalid (issues : list CampaignPlanIssue). (* CampaignError("validation") *)

Section Plan.
Context (hostCompare : string -> string -> jsnum).

Definition by_exclusion (a b : exclusion) : jsnum := hostCompare (exclusion_key a) (exclusion_key b).

Definition normalizeExclusions (input : list (jsval * jsval * jsval * jsval)) : result (list exclusion) :=
  let* rows := result_map exclusionOf input in
  Ok (dedupeSorted rows exclusion_key by_exclusion).

Definition combo_count (ambients : list ambient) (speeds chords : list string)
    (excluded : list exclusion) : Z :=
  (Z.of_nat (length ambients) * Z.of_nat (length speeds) * Z.of_nat (length chords) -
   Z.of_nat (countApplicableExclusions ambients speeds chords excluded))%Z.

Definition refines (objectives : list CampaignObjectivePlan) : bool :=
  existsb objective_enabled objectives.

Definition normalizeCampaignPlan (fuel : nat) (input : CampaignPlanInput) : option (result outcome) :=
  let medium := match in_mediumId input with JStr s => s | _ => "" end in
  match normalizeSweep fuel (in_baseSweep input) with
  | None => None
  | Some (sweep_issues, (sweep, angleCount)) =>
      Some (
        let* ambients := normalizeAmbients (default [] (in_ambients input)) in
        let* speeds := canonicalAxis "speedsMps" speedMps (default [] (in_speedsMps input)) in
        let* chords := canonicalAxis "chordsM" chordM (default [] (in_chordsM input)) in
        let* span := normalizeSpan (in_spanM input) in
        let mode := default "derived" (in_areaMode input) in
        let* area := normalizeArea mode (in_areaM2 input) (snd chords) in
        let* excluded := normalizeExclusions (default [] (in_excludedConditions input)) in
        let ld := normalizeObjective (in_ldMax input) "objectives.ldMax" in
        let zero := normalizeObjective (in_clZero input) "objectives.clZero" in
        let cl := match in_clMax input with
                  | Some o => normalizeObjective (Some o) "objectives.clMax"
                  | None => ([], DISABLED_CLMAX_OBJECTIVE)
                  end in
        let numerics := in_numerics input in
        let urans := optionalNumericProfileId numerics "uransMeshProfileId" in
        let precalc := optionalNumericProfileId numerics "uransPrecalcMeshProfileId" in
        let comboCount := combo_count (snd ambients) (snd speeds) (snd chords) excluded in
        let issues :=
          push_if (negb (nonempty medium)) "mediumId" "medium is required" ++
          fst ambients ++ fst speeds ++ fst chords ++ fst span ++ fst area ++ sweep_issues ++
          fst ld ++ fst zero ++ fst cl ++
          push_if (refines [snd ld; snd zero; snd cl] && Nat.ltb angleCount 3) "objectives"
            "refinement objectives require a base sweep of at least 3 angles" ++
          requiredNumerics numerics ++ fst urans ++ fst precalc ++
          push_if (comboCount <=? 0)%Z "excludedConditions"
            "every condition combination is excluded — nothing to run" ++
          push_if (CAMPAIGN_MAX_CONDITIONS <? comboCount)%Z "conditions"
            ("plan expands to " +:+ string_of_Z comboCount +:+ " conditions (max 2000)") in
        match issues with
        | _ :: _ => Ok (Invalid issues)
        | [] =>
            Ok (Normalized
              {| mediumId := medium; ambients := snd ambients; speedsMps := snd speeds;
                 chordsM := snd chords; plan_spanM := snd span; areaMode := mode;
                 plan_areaM2 := snd area; excludedConditions := excluded; baseSweep := sweep;
                 ldMax := snd ld; clZero := snd zero; clMax := snd cl;
                 boundaryProfileId := get "boundaryProfileId" numerics;
                 meshProfileId := get "meshProfileId" numerics;
                 uransMeshProfileId := snd urans; uransPrecalcMeshProfileId := snd precalc;
                 solverProfileId := get "solverProfileId" numerics;
                 outputProfileId := get "outputProfileId" numerics |})
        end)
  end.
End Plan.

(** ** Conditions *)

Record CampaignConditionCombo := {
  combo_ord : nat;
  combo_temperatureK : string;
  combo_pressurePa : string;
  combo_speedMps : string;
  combo_chordM : string;
  combo_spanM : string;
  combo_areaM2 : option string;
  comboKey : string;
}.

Definition campaignComboKey (t p speed chord : string) : string := join "|" [t; p; speed; chord].

(** The grid in the order of the three loops. *)
Definition grid (ambients : list ambient) (speeds chords : list string) : list exclusion :=
  List.flat_map (fun a =>
    List.flat_map (fun speed => List.map (fun chord => (fst a, snd a, speed, chord)) chords) speeds)
    ambients.

Fixpoint combosFrom (plan : CampaignPlan) (excluded : list string) (n : nat) (cells : list exclusion) :
    list CampaignConditionCombo :=
  match cells with
  | [] => []
  | (t, p, speed, chord) :: rest =>
      let key := campaignComboKey t p speed chord in
      if mem key excluded then combosFrom plan excluded n rest
      else
        {| combo_ord := n; combo_temperatureK := t; combo_pressurePa := p; combo_speedMps := speed;
           combo_chordM := chord; combo_spanM := plan_spanM plan;
           combo_areaM2 := if String.eqb (areaMode plan) "explicit" then plan_areaM2 plan else None;
           comboKey := key |} :: combosFrom plan excluded (S n) rest
  end.

Definition conditionCombosFromPlan (plan : CampaignPlan) : list CampaignConditionCombo :=
  combosFrom plan (List.map exclusion_key (excludedConditions plan)) 0
    (grid (ambients plan) (speedsMps plan) (chordsM plan)).

(** ** Angle sets *)

Record CampaignAngleSets := {
  angles : list jsnum;
  negativeAngles : list jsnum;
  symmetricSolverAngles : list jsnum;
}.

Definition angleSetsFromAngles (input : list jsnum) : result CampaignAngleSets :=
  let* rounded := result_map canonicalAoa input in
  let canonical := sort ascending (dedup rounded) in
  let* mirrored := result_map (fun a => canonicalAoa (PrimFloat.abs a)) canonical in
  Ok {| angles := canonical; negativeAngles := List.filter (fun a => (a < 0)%js) canonical;
        symmetricSolverAngles := sort ascending (dedup mirrored) |}.

Definition campaignAngleSets (fuel : nat) (plan : CampaignPlan) : option (result CampaignAngleSets) :=
  let s := baseSweep plan in
  option_map (fun r => let* angles := r in angleSetsFromAngles angles)
    (expandAngleGrid fuel
      {| fromDeg := string_to_number <$> sweep_fromDeg s; toDeg := string_to_number <$> sweep_toDeg s;
         stepDeg := string_to_number <$> sweep_stepDeg s;
         listDeg := List.map string_to_number <$> sweep_listDeg s |}).

Record PointArithmetic := { points : Z; solverRuns : Z; derivedPoints : Z }.

(** Counts are small integers, exact in binary64. *)
Definition campaignPointArithmetic (sets : CampaignAngleSets) (asymmetric symmetric : Z) : PointArithmetic :=
  let n {A} (l : list A) := Z.of_nat (length l) in
  let extraMirrored :=
    n (List.filter (fun a => negb (JsArray.includes (angles sets) a)) (symmetricSolverAngles sets)) in
  {| points := (asymmetric + symmetric) * n (angles sets) + symmetric * extraMirrored;
     solverRuns := asymmetric * n (angles sets) + symmetric * n (symmetricSolverAngles sets);
     derivedPoints := symmetric * n (negativeAngles sets) |}.

(** ** The wizard's preview

    [plan-model.ts] keeps the valid values of an axis and flags every cell of the grid. *)
Module PlanModel.
Definition canonicalAxisValues (kind : CanonicalSiKind) (values : list jsval) : result (list string) :=
  let* canon := result_map (canonicalSiString kind) (List.filter positive (List.map num values)) in
  Ok (dedupeSorted canon id by_number).

Definition canonicalAmbients (pairs : list (jsval * jsval)) : result (list ambient) :=
  let numbers := List.map (fun tp => (to_number (fst tp), to_number (snd tp))) pairs in
  let* canon := result_map (fun tp =>
      let* t := canonicalSiString temperatureK (fst tp) in
      let* p := canonicalSiString pressurePa (snd tp) in Ok (t, p))
    (List.filter (fun tp => positive (fst tp) && positive (snd tp)) numbers) in
  Ok (dedupeSorted canon ambient_key by_ambient).

Record PlanCombo := {
  preview_ord : nat;
  preview_cell : exclusion;
  preview_key : string;
  excluded : bool;
}.

Fixpoint combosFrom (excluded : list string) (n : nat) (cells : list exclusion) : list PlanCombo :=
  match cells with
  | [] => []
  | (t, p, speed, chord) :: rest =>
      let key := campaignComboKey t p speed chord in
      {| preview_ord := n; preview_cell := (t, p, speed, chord); preview_key := key;
         excluded := mem key excluded |} :: combosFrom excluded (S n) rest
  end.

Definition planCombos (ambients : list ambient) (speeds chords : list string)
    (excludedConditions : list exclusion) : list PlanCombo :=
  combosFrom (List.map exclusion_key excludedConditions) 0 (grid ambients speeds chords).

Definition applicableExclusions (ambients : list ambient) (speeds chords : list string)
    (excludedConditions : list exclusion) : list exclusion :=
  List.filter (applies ambients speeds chords) excludedConditions.
End PlanModel.

(** ** Editing a plan, and completion *)

Record AxisDiff := { added : list string; removed : list string }.

Definition axisDiff (oldValues newValues : list string) : AxisDiff :=
  {| added := List.filter (fun v => negb (mem v oldValues)) newValues;
     removed := List.filter (fun v => negb (mem v newValues)) oldValues |}.

Record CampaignProgressTotals := {
  requested : jsnum; solved : jsnum; failed : jsnum; running : jsnum; superseded : jsnum;
  derived : jsnum; rejected : jsnum; blocked : jsnum; remaining : jsnum;
}.

Inductive Completion := active | attention | completed.

Definition deriveCampaignCompletion (totals : CampaignProgressTotals) : Completion :=
  if (requested totals > 0)%js && (remaining totals <= 0)%js
  then if (failed totals > 0)%js || (rejected totals > 0)%js || (blocked totals > 0)%js
       then attention else completed
  else active.

(** ** Canonical strings hold no separator *)

Abbreviation clean s := (lacks "|" s = true).

Lemma number_char_clean (s : string) : all_chars number_char s = true -> clean s.
Proof.
  apply all_chars_impl. intros c Hc. apply negb_true_iff, Ascii.eqb_neq. intros ->.
  vm_compute in Hc. discriminate.
Qed.

Lemma all_chars_slices (p : ascii -> bool) (s : string) : forall n,
  all_chars p s = true -> all_chars p (slice_to n s) = true /\ all_chars p (slice_from n s) = true.
Proof.
  induction s as [|c s IH]; intros [|n] H; cbn in *; try done.
  apply andb_true_iff in H as [H1 H2]. rewrite H1. by apply IH.
Qed.

Lemma all_chars_repeat (p : ascii -> bool) (c : ascii) (n : nat) :
  p c = true -> all_chars p (repeat_char n c) = true.
Proof. intros H. induction n as [|n IH]; cbn; [done|]. by rewrite H. Qed.

Lemma strip_zeros_chars (p : ascii -> bool) (s : string) :
  all_chars p s = true -> all_chars p (strip_zeros s) = true.
Proof.
  induction s as [|c s IH]; [done|]. intros H. cbn [strip_zeros].
  destruct s as [|d s]; [done|]. destruct (_ && _); [|done]. apply IH.
  cbn [all_chars] in *. by apply andb_true_iff in H as [_ H].
Qed.

Lemma increment_carry_clean (s : string) :
  all_chars number_char s = true -> clean (snd (increment_carry s)).
Proof.
  induction s as [|c s IH]; [done|]. cbn [all_chars increment_carry].
  intros [Hc Hs]%andb_true_iff. specialize (IH Hs).
  destruct (increment_carry s) as [carry out]. cbn [snd] in IH.
  assert (Hlt : (43 <= code c <= 122)%nat).
  { unfold number_char in Hc. apply andb_true_iff in Hc as [H1 H2].
    apply Nat.leb_le in H1, H2. lia. }
  unfold lacks in *. destruct carry; [destruct (Ascii.eqb c "9")|]; cbn [snd all_chars]; rewrite IH, andb_true_r.
  - done.
  - apply negb_true_iff, Ascii.eqb_neq. intros E. apply (f_equal code) in E.
    rewrite code_ascii in E by lia. change (code "|") with 124%nat in E. lia.
  - apply negb_true_iff, Ascii.eqb_neq. intros ->. change (code "|") with 124%nat in Hlt. lia.
Qed.

Lemma clean_app (a b : string) : clean a -> clean b -> clean (a +:+ b).
Proof. unfold lacks. intros Ha Hb. by rewrite all_chars_app, Ha, Hb. Qed.

Lemma decimalDigits_chars (x : jsnum) :
  all_chars number_char (int (decimalDigits x)) = true /\
  all_chars number_char (frac (decimalDigits x)) = true.
Proof.
  unfold decimalDigits. pose proof (Number_toString_chars (PrimFloat.abs x)) as H.
  set (s0 := Number_toString _) in *. clearbody s0.
  assert (Hz : number_char "0" = true) by done.
  assert (Hs : exists s e, match indexOf "e" s0 with
    | Some eIdx => (slice_to eIdx s0, exponent_of (slice_from (S eIdx) s0))
    | None => (s0, 0%Z) end = (s, e) /\ all_chars number_char s = true).
  { destruct (indexOf "e" s0) as [i|]; do 2 eexists; (split; [reflexivity|]); [|done].
    by apply all_chars_slices. }
  destruct Hs as (s & e & -> & Hs). clear H.
  assert (Hif : exists i f, match indexOf "." s with
    | Some dot => (slice_to dot s, slice_from (S dot) s)
    | None => (s, "") end = (i, f) /\ all_chars number_char i = true /\ all_chars number_char f = true).
  { destruct (indexOf "." s) as [i|]; do 2 eexists; (split; [reflexivity|]); [|done].
    split; by apply all_chars_slices. }
  destruct Hif as (i & f & -> & Hi & Hf).
  assert (Hout : forall a b, all_chars number_char a = true -> all_chars number_char b = true ->
    all_chars number_char (int {| neg := (x < 0)%js; int := strip_zeros a; frac := b |}) = true /\
    all_chars number_char (frac {| neg := (x < 0)%js; int := strip_zeros a; frac := b |}) = true).
  { intros a b Ha Hb. split; [by apply strip_zeros_chars|done]. }
  assert (Hrep : forall n, all_chars number_char (repeat_char n "0") = true)
    by (intros; by apply all_chars_repeat).
  pose proof (fun n => proj1 (all_chars_slices number_char i n Hi)) as P1.
  pose proof (fun n => proj2 (all_chars_slices number_char i n Hi)) as P2.
  pose proof (fun n => proj1 (all_chars_slices number_char f n Hf)) as P3.
  pose proof (fun n => proj2 (all_chars_slices number_char f n Hf)) as P4.
  unfold padEnd, padStart.
  destruct (0 <? e)%Z; [destruct (Nat.leb _ _)|destruct (e <? 0)%Z; [destruct (Nat.leb _ _)|]];
    apply Hout; by rewrite ?all_chars_app, ?Hrep, ?Hi, ?Hf, ?P1, ?P2, ?P3, ?P4.
Qed.

Lemma roundHalfEvenFixed_clean (x : jsnum) (decimals : nat) (s : string) :
  roundHalfEvenFixed x decimals = Ok s -> clean s.
Proof.
  unfold roundHalfEvenFixed. destruct (negb _); [done|]. intros [= <-].
  destruct (decimalDigits_chars x) as [Hi Hf].
  set (d := decimalDigits x) in *.
  assert (Hd : clean (roundDigits (int d) (frac d) decimals)).
  { unfold roundDigits.
    assert (Hk : all_chars number_char (int d +:+ padEnd (slice_to decimals (frac d)) decimals "0") = true).
    { unfold padEnd. rewrite !all_chars_app, Hi, all_chars_repeat by done.
      by rewrite (proj1 (all_chars_slices number_char (frac d) decimals Hf)). }
    set (digits := int d +:+ _) in *.
    assert (Hinc : clean (incrementDigits digits)).
    { unfold incrementDigits. pose proof (increment_carry_clean digits Hk).
      destruct (increment_carry digits) as [[|] out]; [by apply clean_app|done]. }
    apply number_char_clean in Hk.
    by repeat match goal with |- context [if ?b then _ else _] => destruct b end. }
  set (r := roundDigits _ _ _) in *. unfold layoutFixed.
  unfold lacks in *. set (p := fun x => _) in *.
  pose proof (all_chars_slices p r (String.length r - decimals) Hd) as [H1 H2].
  apply strip_zeros_chars in H1.
  rewrite !all_chars_app. repeat (apply andb_true_iff; split).
  - by destruct (_ && _).
  - by destruct (nonempty _).
  - destruct (Nat.eqb decimals 0); [done|]. by rewrite all_chars_app, H2.
Qed.

(** ** Deduplicated lists *)

Lemma dedup_by_key_spec {A} (key : A -> string) (l : list A) : forall seen,
  List.NoDup (List.map key (dedup_from key seen l)) /\
  (forall x, In x (dedup_from key seen l) -> In x l /\ ~ In (key x) seen).
Proof.
  induction l as [|x l IH]; intros seen; cbn [dedup_from]; [by split; [constructor|]|].
  unfold mem. destruct (existsb (String.eqb (key x)) seen) eqn:E.
  - destruct (IH seen) as [H1 H2]. split; [done|]. intros y [Hy Hn]%H2. split; [by right|done].
  - destruct (IH (key x :: seen)) as [H1 H2]. cbn [List.map]. split.
    + constructor; [|done]. intros (y & Ey & [_ Hn]%H2)%in_map_iff. apply Hn. left. congruence.
    + intros y [<-|[Hy Hn]%H2].
      * split; [by left|]. apply existsb_false in E. rewrite List.Forall_forall in E.
        intros Hin. specialize (E _ Hin). by rewrite String.eqb_refl in E.
      * split; [by right|]. intros Hin. apply Hn. by right.
Qed.

Lemma dedupeSorted_spec {A} (items : list A) (key : A -> string) (cmp : A -> A -> jsnum) :
  List.NoDup (List.map key (dedupeSorted items key cmp)) /\
  (forall x, In x (dedupeSorted items key cmp) -> In x items).
Proof.
  unfold dedupeSorted. destruct (dedup_by_key_spec key items []) as [H1 H2]. split.
  - eapply Permutation_NoDup; [|exact H1]. apply Permutation_map, sort_perm.
  - intros x [Hx _]%in_sort%H2. done.
Qed.

(** ** The axes of an accepted plan *)

Definition clean_ambient (a : ambient) : Prop := clean (fst a) /\ clean (snd a).
Definition clean_cell (x : exclusion) : Prop :=
  match x with (t, p, s, c) => clean t /\ clean p /\ clean s /\ clean c end.

Lemma Forall2_snd {A B} (R : A -> B -> Prop) (P : B -> Prop) (l : list A) (l' : list B) :
  Forall2 R l l' -> (forall x y, R x y -> P y) -> Forall P l'.
Proof. intros H HP. induction H; constructor; eauto. Qed.

Lemma canonicalAxis_axis field kind values issues out :
  canonicalAxis field kind values = Ok (issues, out) ->
  List.NoDup out /\ Forall (fun s => clean s) out.
Proof.
  unfold canonicalAxis. intros (rows & Hr & [= _ <-])%bind_ok.
  destruct (dedupeSorted_spec (List.map snd rows) id by_number) as [H1 H2].
  rewrite List.map_id in H1. split; [done|]. rewrite List.Forall_forall. intros s [row [<- Hin]]%H2%in_map_iff.
  apply result_map_ok in Hr. assert (Hall : Forall (fun r => clean (snd r)) rows).
  { eapply Forall2_snd; [exact Hr|]. intros v r. unfold axisValue. intros (x & Hx & [= <-])%bind_ok.
    by apply roundHalfEvenFixed_clean in Hx. }
  rewrite List.Forall_forall in Hall. auto.
Qed.

Lemma normalizeAmbients_axis input issues out :
  normalizeAmbients input = Ok (issues, out) ->
  List.NoDup (List.map ambient_key out) /\ Forall clean_ambient out.
Proof.
  unfold normalizeAmbients. intros (rows & Hr & [= _ <-])%bind_ok.
  destruct (dedupeSorted_spec (List.map snd rows) ambient_key by_ambient) as [H1 H2].
  split; [done|]. rewrite List.Forall_forall. intros s [row [<- Hin]]%H2%in_map_iff.
  apply result_map_ok in Hr. assert (Hall : Forall (fun r => clean_ambient (snd r)) rows).
  { eapply Forall2_snd; [exact Hr|]. intros v r. unfold ambientPair.
    intros (x & Hx & (y & Hy & [= <-])%bind_ok)%bind_ok. split; by eapply roundHalfEvenFixed_clean. }
  rewrite List.Forall_forall in Hall. auto.
Qed.

Lemma normalizeExclusions_cells hostCompare input out :
  normalizeExclusions hostCompare input = Ok out ->
  List.NoDup (List.map exclusion_key out) /\ Forall clean_cell out.
Proof.
  unfold normalizeExclusions. intros (rows & Hr & [= <-])%bind_ok.
  destruct (dedupeSorted_spec rows exclusion_key (by_exclusion hostCompare)) as [H1 H2].
  split; [done|]. rewrite List.Forall_forall. intros x Hin%H2.
  apply result_map_ok in Hr. assert (Hall : Forall clean_cell rows).
  { eapply Forall2_snd; [exact Hr|]. intros [[[t p] s] c] r. unfold exclusionOf.
    intros (t' & Ht & (p' & Hp & (s' & Hs & (c' & Hc & [= <-])%bind_ok)%bind_ok)%bind_ok)%bind_ok.
    split_and!; by eapply roundHalfEvenFixed_clean. }
  rewrite List.Forall_forall in Hall. auto.
Qed.

(** ** Keys tell cells apart *)

Lemma ambient_key_inj (a b : ambient) :
  clean_ambient a -> clean_ambient b -> ambient_key a = ambient_key b -> a = b.
Proof.
  intros [Ha _] [Hb _] E. destruct a as [t p], b as [t' p']. cbn in *.
  by destruct (separator_inj "|" t t' p p' Ha Hb E) as [-> ->].
Qed.

Lemma exclusion_key_inj (x y : exclusion) :
  clean_cell x -> clean_cell y -> exclusion_key x = exclusion_key y -> x = y.
Proof.
  destruct x as [[[t p] s] c], y as [[[t' p'] s'] c']. intros (Ht & Hp & Hs & _) (Ht' & Hp' & Hs' & _) E.
  cbn in E. destruct (separator_inj "|" t t' _ _ Ht Ht' E) as [-> E1].
  destruct (separator_inj "|" p p' _ _ Hp Hp' E1) as [-> E2].
  by destruct (separator_inj "|" s s' _ _ Hs Hs' E2) as [-> ->].
Qed.

(** ** The grid *)

Lemma in_grid ambients speeds chords t p s c :
  In (t, p, s, c) (grid ambients speeds chords) <->
  In (t, p) ambients /\ In s speeds /\ In c chords.
Proof.
  unfold grid. rewrite in_flat_map. split.
  - intros ([t' p'] & Ha & (s' & Hs & (c' & [= <- <- <- <-] & Hc)%in_map_iff)%in_flat_map). done.
  - intros (Ha & Hs & Hc). exists (t, p). split; [done|]. apply in_flat_map. exists s. split; [done|].
    apply in_map_iff. by exists c.
Qed.

Lemma grid_nodup ambients speeds chords :
  List.NoDup ambients -> List.NoDup speeds -> List.NoDup chords ->
  List.NoDup (grid ambients speeds chords).
Proof.
  intros Ha Hs Hc. unfold grid. apply nodup_flat_map; [done| |].
  - intros a _. apply nodup_flat_map; [done| |].
    + intros s _. apply NoDup_map_NoDup_ForallPairs; [|done]. by intros c c' _ _ [= ->].
    + intros s s' z _ _ (c & <- & _)%in_map_iff (c' & [= -> _] & _)%in_map_iff. done.
  - intros a a' z _ _ (s & _ & (c & <- & _)%in_map_iff)%in_flat_map
      (s' & _ & (c' & [= E1 E2 _ _] & _)%in_map_iff)%in_flat_map.
    destruct a, a'. cbn in *. congruence.
Qed.

Lemma grid_length ambients speeds chords :
  length (grid ambients speeds chords) = (length ambients * (length speeds * length chords))%nat.
Proof.
  unfold grid. rewrite (flat_map_constant_length (c := (length speeds * length chords)%nat)); [done|].
  intros a _. rewrite (flat_map_constant_length (c := length chords)); [done|].
  intros s _. apply length_map.
Qed.

Lemma grid_clean ambients speeds chords x :
  Forall clean_ambient ambients -> Forall (fun s => clean s) speeds -> Forall (fun s => clean s) chords ->
  In x (grid ambients speeds chords) -> clean_cell x.
Proof.
  rewrite !List.Forall_forall. destruct x as [[[t p] s] c]. intros Ha Hs Hc (H1 & H2 & H3)%in_grid.
  destruct (Ha _ H1). split_and!; auto.
Qed.

Lemma applies_grid ambients speeds chords x :
  Forall clean_ambient ambients -> clean_cell x ->
  applies ambients speeds chords x = true <-> In x (grid ambients speeds chords).
Proof.
  intros Ha Hx. destruct x as [[[t p] s] c]. rewrite in_grid. unfold applies.
  rewrite !andb_true_iff, !mem_in. destruct Hx as (Ht & Hp & _).
  assert (Hk : In (t +:+ "|" +:+ p) (List.map ambient_key ambients) <-> In (t, p) ambients).
  { rewrite in_map_iff. split.
    - intros (a & E & Hin). rewrite List.Forall_forall in Ha.
      by rewrite <- (ambient_key_inj a (t, p) (Ha a Hin) (conj Ht Hp) E).
    - intros Hin. by exists (t, p). }
  rewrite Hk. tauto.
Qed.

(** The cells that are excluded are as many as the exclusions that apply. *)
Lemma excluded_cells_count ambients speeds chords excluded :
  List.NoDup (List.map ambient_key ambients) -> Forall clean_ambient ambients ->
  List.NoDup speeds -> Forall (fun s => clean s) speeds ->
  List.NoDup chords -> Forall (fun s => clean s) chords ->
  List.NoDup (List.map exclusion_key excluded) -> Forall clean_cell excluded ->
  length (List.filter (fun x => mem (exclusion_key x) (List.map exclusion_key excluded))
            (grid ambients speeds chords)) =
  countApplicableExclusions ambients speeds chords excluded.
Proof.
  intros Na Ca Ns Cs Nc Cc Ne Ce. unfold countApplicableExclusions.
  apply Permutation_length, Permutation.NoDup_Permutation.
  - apply List.NoDup_filter, grid_nodup; [by apply NoDup_map_inv in Na|done|done].
  - apply List.NoDup_filter. by apply NoDup_map_inv in Ne.
  - intros x. rewrite !filter_In, mem_in, in_map_iff. rewrite List.Forall_forall in Ce. split.
    + intros (Hg & y & E & Hy). pose proof (grid_clean _ _ _ x Ca Cs Cc Hg) as Hx.
      rewrite <- (exclusion_key_inj y x (Ce y Hy) Hx E) in *. split; [done|]. apply applies_grid; auto.
    + intros [Hin Ha]. apply applies_grid in Ha; [|done|auto]. split; [done|]. by exists x.
Qed.

(** ** What an accepted plan has passed *)

Lemma push_if_nil (b : bool) (p m : string) : push_if b p m = [] -> b = false.
Proof. by destruct b. Qed.

(** Every check of an accepted plan reported no issue, and the plan holds the checked
    values. *)
Lemma normalized_inv hostCompare fuel input plan :
  normalizeCampaignPlan hostCompare fuel input = Some (Ok (Normalized plan)) ->
  (exists angleCount,
     normalizeSweep fuel (in_baseSweep input) = Some ([], (baseSweep plan, angleCount)) /\
     (refines [ldMax plan; clZero plan; clMax plan] = true -> (3 <= angleCount)%nat)) /\
  normalizeAmbients (default [] (in_ambients input)) = Ok ([], ambients plan) /\
  canonicalAxis "speedsMps" speedMps (default [] (in_speedsMps input)) = Ok ([], speedsMps plan) /\
  canonicalAxis "chordsM" chordM (default [] (in_chordsM input)) = Ok ([], chordsM plan) /\
  normalizeSpan (in_spanM input) = Ok ([], plan_spanM plan) /\
  normalizeArea (areaMode plan) (in_areaM2 input) (chordsM plan) = Ok ([], plan_areaM2 plan) /\
  normalizeExclusions hostCompare (default [] (in_excludedConditions input)) =
    Ok (excludedConditions plan) /\
  normalizeObjective (in_ldMax input) "objectives.ldMax" = ([], ldMax plan) /\
  normalizeObjective (in_clZero input) "objectives.clZero" = ([], clZero plan) /\
  (1 <= combo_count (ambients plan) (speedsMps plan) (chordsM plan) (excludedConditions plan) <=
     CAMPAIGN_MAX_CONDITIONS)%Z.
Proof.
  unfold normalizeCampaignPlan.
  destruct (normalizeSweep _ _) as [[si [sw n]]|]; [|done]. intros [= H]. revert H.
  intros ([ia am] & Ha & H)%bind_ok. apply bind_ok in H as ([is_ sp] & Hs & H).
  apply bind_ok in H as ([ic ch] & Hc & H). apply bind_ok in H as ([ip span] & Hp & H).
  apply bind_ok in H as ([ir area] & Hr & H). apply bind_ok in H as (ex & Hx & H).
  cbn [fst snd] in *. destruct (normalizeObjective (in_ldMax _) _) as [il ld].
  destruct (normalizeObjective (in_clZero _) _) as [iz zero].
  destruct (match in_clMax input with Some _ => _ | None => _ end) as [im clmax].
  cbn [fst snd] in *.
  match type of H with context [match ?l with [] => _ | _ :: _ => _ end] => destruct l eqn:E end; [|done].
  repeat match type of E with _ ++ _ = [] => apply app_eq_nil in E as [? E] end.
  injection H as <-. cbn. subst.
  repeat match goal with H : push_if _ _ _ = [] |- _ => apply push_if_nil in H end.
  apply Z.ltb_ge in E.
  match goal with H : (_ <=? 0)%Z = false |- _ => apply Z.leb_gt in H as Hpos end.
  split_and!; try done; [|lia].
  exists n. split; [done|]. intros Href.
  match goal with H : _ && Nat.ltb n 3 = false |- _ => rename H into H3 end.
  unfold refines in Href. cbn [existsb objective_enabled] in *. unfold refines in H3.
  cbn [existsb] in H3. rewrite Href, andb_true_l in H3. by apply Nat.ltb_ge in H3.
Qed.

(** ** The conditions of a plan *)

Lemma combosFrom_keys plan excluded cells : forall n,
  List.map comboKey (combosFrom plan excluded n cells) =
    List.map exclusion_key (List.filter (fun x => negb (mem (exclusion_key x) excluded)) cells) /\
  List.map combo_ord (combosFrom plan excluded n cells) =
    seq n (length (List.filter (fun x => negb (mem (exclusion_key x) excluded)) cells)).
Proof.
  induction cells as [|[[[t p] s] c] cells IH]; intros n; [done|].
  cbn [combosFrom List.filter]. change (campaignComboKey t p s c) with (exclusion_key (t, p, s, c)).
  destruct (mem _ excluded); cbn [negb]; [apply IH|].
  cbn [List.map length seq comboKey combo_ord]. destruct (IH (S n)) as [-> ->]. done.
Qed.

(** Every condition is a cell of the grid that is not excluded, with the plan's span. *)
Definition condition_cell (c : CampaignConditionCombo) : exclusion :=
  (combo_temperatureK c, combo_pressurePa c, combo_speedMps c, combo_chordM c).

Lemma combosFrom_cells plan excluded cells : forall n,
  List.map condition_cell (combosFrom plan excluded n cells) =
    List.filter (fun x => negb (mem (exclusion_key x) excluded)) cells /\
  Forall (fun c => comboKey c = exclusion_key (condition_cell c) /\
                   combo_spanM c = plan_spanM plan) (combosFrom plan excluded n cells).
Proof.
  induction cells as [|[[[t p] s] c] cells IH]; intros n; [by split|].
  cbn [combosFrom List.filter]. change (campaignComboKey t p s c) with (exclusion_key (t, p, s, c)).
  destruct (mem _ excluded); cbn [negb]; [apply IH|].
  destruct (IH (S n)) as [IH1 IH2]. cbn [List.map]. rewrite IH1. split; [done|]. by constructor.
Qed.

Lemma nodup_keys (cells : list exclusion) :
  List.NoDup cells -> Forall clean_cell cells -> List.NoDup (List.map exclusion_key cells).
Proof.
  intros Hn Hc. apply NoDup_map_NoDup_ForallPairs; [|done]. intros x y Hx Hy E.
  rewrite List.Forall_forall in Hc. apply exclusion_key_inj; auto.
Qed.

(** The number of conditions is the count the validation bounded. *)
Lemma conditions_of_axes plan :
  List.NoDup (List.map ambient_key (ambients plan)) -> Forall clean_ambient (ambients plan) ->
  List.NoDup (speedsMps plan) -> Forall (fun s => clean s) (speedsMps plan) ->
  List.NoDup (chordsM plan) -> Forall (fun s => clean s) (chordsM plan) ->
  List.NoDup (List.map exclusion_key (excludedConditions plan)) ->
  Forall clean_cell (excludedConditions plan) ->
  List.NoDup (List.map comboKey (conditionCombosFromPlan plan)) /\
  Z.of_nat (length (conditionCombosFromPlan plan)) =
    combo_count (ambients plan) (speedsMps plan) (chordsM plan) (excludedConditions plan).
Proof.
  intros Na Ca Ns Cs Nc Cc Ne Ce. unfold conditionCombosFromPlan.
  set (keys := List.map exclusion_key (excludedConditions plan)).
  set (cells := grid (ambients plan) (speedsMps plan) (chordsM plan)).
  destruct (combosFrom_keys plan keys cells 0) as [Hk Ho]. split.
  - rewrite Hk. apply nodup_keys.
    + apply List.NoDup_filter, grid_nodup; [by apply NoDup_map_inv in Na|done|done].
    + rewrite List.Forall_forall. intros x [Hx _]%filter_In. eapply grid_clean; [..|exact Hx]; done.
  - apply (f_equal length) in Ho. rewrite length_map, length_seq in Ho. rewrite Ho.
    pose proof (filter_length_split (fun x => mem (exclusion_key x) keys) cells) as Hsplit.
    unfold combo_count, keys, cells in *.
    rewrite excluded_cells_count in Hsplit by done. rewrite grid_length in Hsplit. lia.
Qed.

(** C30. The conditions an accepted plan expands to are exactly the cells of its grid that
    its exclusions leave, in the order of the axes, each once: numbered from zero, with
    pairwise distinct keys, and between 1 and 2000 of them, which is the count the
    validation computed from the lengths of the axes and the exclusions that apply. *)
Theorem plan_conditions hostCompare fuel input plan :
  normalizeCampaignPlan hostCompare fuel input = Some (Ok (Normalized plan)) ->
  let combos := conditionCombosFromPlan plan in
  List.map condition_cell combos =
    List.filter (fun x => negb (mem (exclusion_key x) (List.map exclusion_key (excludedConditions plan))))
      (grid (ambients plan) (speedsMps plan) (chordsM plan)) /\
  List.map combo_ord combos = seq 0 (length combos) /\
  List.NoDup (List.map comboKey combos) /\
  Z.of_nat (length combos) =
    combo_count (ambients plan) (speedsMps plan) (chordsM plan) (excludedConditions plan) /\
  (1 <= Z.of_nat (length combos) <= CAMPAIGN_MAX_CONDITIONS)%Z.
Proof.
  intros (_ & Ha & Hs & Hc & _ & _ & Hx & _ & _ & Hb)%normalized_inv combos.
  apply normalizeAmbients_axis in Ha as [Na Ca]. apply canonicalAxis_axis in Hs as [Ns Cs], Hc as [Nc Cc].
  apply normalizeExclusions_cells in Hx as [Ne Ce].
  destruct (conditions_of_axes plan Na Ca Ns Cs Nc Cc Ne Ce) as [Hn Hl]. fold combos in Hn, Hl.
  split_and!; [apply combosFrom_cells| |done|done|lia|lia].
  unfold combos, conditionCombosFromPlan.
  destruct (combosFrom_keys plan (List.map exclusion_key (excludedConditions plan))
              (grid (ambients plan) (speedsMps plan) (chordsM plan)) 0) as [_ E].
  rewrite E at 1. f_equal. apply (f_equal length) in E. by rewrite length_map, length_seq in E.
Qed.

(** ** Points, solver runs and derived cells *)

(** A finite angle whose mirror is canonical, and an angle that rounds to one ([Set]
    stores [-0] as [+0]). *)
Definition canonical_angle (a : jsnum) : bool :=
  isFinite a && match canonicalAoa (PrimFloat.abs a) with
                | Ok b => isFinite b && (b === PrimFloat.abs a)%js
                | Throw _ => false
                end.

Definition canonicalizes (a : jsnum) : bool :=
  match canonicalAoa a with Ok b => canonical_angle (norm0 b) | Throw _ => false end.

Lemma increasing_nodup (l : list jsnum) : increasing l -> List.NoDup (List.map ord l).
Proof.
  induction 1 as [|x l Hl IH Hx]; cbn; [constructor|]. constructor; [|done].
  intros (y & E & Hy)%in_map_iff. rewrite List.Forall_forall in Hx. specialize (Hx y Hy). lia.
Qed.

Lemma dedup_in (xs : list jsnum) (y : jsnum) :
  In y (dedup xs) -> exists x, In x xs /\ y = norm0 x.
Proof.
  unfold dedup. generalize (@nil jsnum). induction xs as [|x xs IH]; intros seen; [done|].
  cbn [JsArray.dedup_from]. destruct (includes _ x).
  - intros (z & Hz & E)%IH. exists z. split; [by right|done].
  - intros [<-|(z & Hz & E)%IH]; [by exists x; split; [left|]|]. exists z. split; [by right|done].
Qed.

(** Rounding the mirrors of canonical angles changes no value. *)
Lemma mirrored_values (canonical mirrored : list jsnum) :
  Forall2 (fun a b => canonicalAoa (PrimFloat.abs a) = Ok b) canonical mirrored ->
  Forall (fun a => canonical_angle a = true) canonical ->
  Forall Finite mirrored /\ List.map ord mirrored = List.map (fun a => Z.abs (ord a)) canonical.
Proof.
  induction 1 as [|a b l l' Hab _ IH]; [by split|]. intros [Ha Hl]%Forall_cons_iff.
  destruct (IH Hl) as [IH1 IH2]. unfold canonical_angle in Ha. rewrite Hab in Ha.
  apply andb_true_iff in Ha as [_ [Hb E]%andb_true_iff]. apply eqb_ord in E as (_ & _ & E).
  rewrite ord_abs in E. split; [by constructor|]. cbn [List.map]. by rewrite IH2, E.
Qed.

Lemma angleSets_spec input sets :
  angleSetsFromAngles input = Ok sets -> forallb canonicalizes input = true ->
  Forall Finite (angles sets) /\ increasing (angles sets) /\
  negativeAngles sets = List.filter (fun a => (a < 0)%js) (angles sets) /\
  Forall Finite (symmetricSolverAngles sets) /\ increasing (symmetricSolverAngles sets) /\
  (forall z, In z (List.map ord (symmetricSolverAngles sets)) <->
             In z (List.map (fun a => Z.abs (ord a)) (angles sets))).
Proof.
  unfold angleSetsFromAngles. intros (rounded & Hr & (mirrored & Hm & [= <-])%bind_ok)%bind_ok Hc.
  cbn [angles negativeAngles symmetricSolverAngles].
  apply result_map_ok in Hr, Hm. rewrite forallb_forall, <- List.Forall_forall in Hc.
  assert (Hround : Forall (fun b => canonical_angle (norm0 b) = true) rounded).
  { eapply Forall2_image; [exact Hr|exact Hc|]. intros a b Hab Ha. unfold canonicalizes in Ha.
    by rewrite Hab in Ha. }
  assert (Hfin : Forall Finite rounded).
  { eapply List.Forall_impl; [|exact Hround]. intros b [H _]%andb_true_iff.
    by rewrite isFinite_norm0 in H. }
  destruct (sort_dedup_spec rounded Hfin) as (H1 & H2 & _).
  set (canonical := sort ascending (dedup rounded)) in *.
  assert (Hcan : Forall (fun a => canonical_angle a = true) canonical).
  { rewrite List.Forall_forall in *. intros a Ha. unfold canonical in Ha. apply in_sort in Ha.
    apply dedup_in in Ha as (b & Hb & ->). by apply Hround. }
  destruct (mirrored_values canonical mirrored Hm Hcan) as [Hmf Hmv].
  destruct (sort_dedup_spec mirrored Hmf) as (H4 & H5 & H6). rewrite Hmv in H6. done.
Qed.

(** The solver angles of a symmetric airfoil that the grid already has are the grid's
    non-negative angles. *)
Lemma shared_solver_angles (A S : list jsnum) :
  Forall Finite A -> increasing A -> Forall Finite S -> increasing S ->
  (forall z, In z (List.map ord S) <-> In z (List.map (fun a => Z.abs (ord a)) A)) ->
  length (List.filter (includes A) S) = length (List.filter (fun a => negb (a < 0)%js) A).
Proof.
  intros FA IA FS IS HS. rewrite <- (length_map ord (List.filter (includes A) S)),
    <- (length_map ord (List.filter _ A)).
  apply Permutation_length, Permutation.NoDup_Permutation;
    [by apply nodup_map_filter, increasing_nodup..|].
  assert (Hneg : forall a, In a A -> negb (a < 0)%js = true <-> (0 <= ord a)%Z).
  { intros a Ha. rewrite List.Forall_forall in FA. rewrite negb_true_iff.
    rewrite ltb_finite_false by (done || by apply FA). by rewrite ord_0. }
  rewrite List.Forall_forall in FS. intros z. rewrite !in_map_filter. split.
  - intros (s & <- & Hs & Hin). apply includes_finite in Hin; [|done|by apply FS].
    apply in_map_iff in Hin as (a & E & Ha). exists a. split; [done|]. split; [done|].
    apply Hneg; [done|]. assert (Hz : In (ord s) (List.map ord S)) by by apply in_map.
    apply HS, in_map_iff in Hz as (a' & E' & _). lia.
  - intros (a & <- & Ha & Hn). apply Hneg in Hn; [|done].
    assert (Hz : In (ord a) (List.map ord S)).
    { apply HS, in_map_iff. exists a. split; [lia|done]. }
    apply in_map_iff in Hz as (s & E & Hs). exists s. split; [done|]. split; [done|].
    apply includes_finite; [done|by apply FS|]. rewrite E. by apply in_map.
Qed.

(** Points are accounted for: for any numbers of asymmetric and symmetric airfoils,
    the obligations of a condition are exactly the runs of the solver and the derived
    cells, and every derived cell (a negative angle of a symmetric airfoil) has the run
    at its mirror among the solver angles. *)
Theorem plan_points_accounted input sets asymmetric symmetric :
  angleSetsFromAngles input = Ok sets -> forallb canonicalizes input = true ->
  let p := campaignPointArithmetic sets asymmetric symmetric in
  points p = (solverRuns p + derivedPoints p)%Z /\
  (forall a, In a (negativeAngles sets) ->
     In (Z.abs (ord a)) (List.map ord (symmetricSolverAngles sets))).
Proof.
  intros Hs Hc p. destruct (angleSets_spec input sets Hs Hc) as (FA & IA & EN & FS & IS & HS).
  split.
  - unfold p, campaignPointArithmetic. cbn [points solverRuns derivedPoints]. rewrite EN.
    pose proof (shared_solver_angles _ _ FA IA FS IS HS) as E.
    pose proof (filter_length_split (includes (angles sets)) (symmetricSolverAngles sets)) as E1.
    pose proof (filter_length_split (fun a => (a < 0)%js) (angles sets)) as E2.
    nia.
  - intros a Ha. rewrite EN in Ha. apply filter_In in Ha as [Ha _]. apply HS, in_map_iff. by exists a.
Qed.


(** ** The wizard's preview agrees *)

Lemma flat_map_issues_nil {A B} (f : A -> list B) (l : list A) :
  List.flat_map f l = [] -> Forall (fun x => f x = []) l.
Proof.
  induction l as [|x l IH]; cbn; [constructor|]. intros [Hx Hl]%app_eq_nil. constructor; auto.
Qed.

Lemma Forall2_map_snd {A B C} (R : A -> B * C -> Prop) (S : A -> C -> Prop)
    (l : list A) (l' : list (B * C)) (P : B * C -> Prop) :
  Forall2 R l l' -> Forall P l' -> (forall x y, R x y -> P y -> S x (snd y)) ->
  Forall2 S l (List.map snd l').
Proof.
  intros H HP HS. induction H; cbn; [constructor|]. apply Forall_cons_iff in HP as [? ?].
  constructor; auto.
Qed.

Lemma axis_preview field kind values out :
  canonicalAxis field kind values = Ok ([], out) -> PlanModel.canonicalAxisValues kind values = Ok out.
Proof.
  unfold canonicalAxis, PlanModel.canonicalAxisValues. intros (rows & Hr & [= E <-])%bind_ok.
  apply app_eq_nil in E as [E%flat_map_issues_nil _]. apply result_map_ok in Hr.
  assert (H : Forall2 (fun v s => positive (num v) = true /\ canonicalSiString kind (num v) = Ok s)
                values (List.map snd rows)).
  { eapply Forall2_map_snd; [exact Hr|exact E|]. intros v [i s]. unfold axisValue.
    intros (s' & Hs & [= <- <-])%bind_ok Hi. cbn in Hi. apply push_if_nil in Hi.
    apply negb_false_iff in Hi. rewrite Hi in Hs. done. }
  apply bind_ok. exists (List.map snd rows). split; [|done]. apply result_map_ok.
  clear Hr E. induction H as [|v s l l' [Hv Hs] H IH]; cbn; [constructor|]. rewrite Hv. by constructor.
Qed.

Lemma ambients_preview values out :
  normalizeAmbients values = Ok ([], out) -> PlanModel.canonicalAmbients values = Ok out.
Proof.
  unfold normalizeAmbients, PlanModel.canonicalAmbients. intros (rows & Hr & [= E <-])%bind_ok.
  apply app_eq_nil in E as [E%flat_map_issues_nil _]. apply result_map_ok in Hr.
  assert (H : Forall2 (fun v a => positive (num (fst v)) && positive (num (snd v)) = true /\
                canonicalSiString temperatureK (num (fst v)) = Ok (fst a) /\
                canonicalSiString pressurePa (num (snd v)) = Ok (snd a)) values (List.map snd rows)).
  { eapply Forall2_map_snd; [exact Hr|exact E|]. intros v [i [t p]]. unfold ambientPair.
    intros (t' & Ht & (p' & Hp & [= <- <- <-])%bind_ok)%bind_ok Hi. cbn [fst snd] in *.
    apply app_eq_nil in Hi as [H1%push_if_nil H2%push_if_nil].
    apply negb_false_iff in H1, H2. by rewrite H1, H2. }
  apply bind_ok. exists (List.map snd rows). split; [|done]. apply result_map_ok.
  clear Hr E. induction H as [|v [t p] l l' (Hv & Ht & Hp) H IH]; cbn [List.map List.filter fst snd]; [constructor|].
  unfold num in *. cbn [fst snd]. rewrite Hv. constructor; [|done]. cbn [fst snd]. by rewrite Ht, Hp.
Qed.

Lemma preview_cells excluded cells : forall n,
  List.map (fun c => (PlanModel.preview_cell c, PlanModel.preview_key c))
    (List.filter (fun c => negb (PlanModel.excluded c)) (PlanModel.combosFrom excluded n cells)) =
  List.map (fun x => (x, exclusion_key x))
    (List.filter (fun x => negb (mem (exclusion_key x) excluded)) cells).
Proof.
  induction cells as [|[[[t p] s] c] cells IH]; intros n; [done|].
  cbn [PlanModel.combosFrom List.filter PlanModel.excluded].
  change (campaignComboKey t p s c) with (exclusion_key (t, p, s, c)).
  destruct (mem _ excluded); cbn [negb]; [apply IH|]. cbn [List.map]. by rewrite IH.
Qed.

(** The wizard previews what the server will run: for every plan the server accepts,
    the wizard canonicalises the same speeds, chords and ambients, and the cells of its
    preview that are not flagged as excluded are the conditions the server creates, with
    the same keys, in the same order. *)
Theorem preview_agrees hostCompare fuel input plan :
  normalizeCampaignPlan hostCompare fuel input = Some (Ok (Normalized plan)) ->
  PlanModel.canonicalAmbients (default [] (in_ambients input)) = Ok (ambients plan) /\
  PlanModel.canonicalAxisValues speedMps (default [] (in_speedsMps input)) = Ok (speedsMps plan) /\
  PlanModel.canonicalAxisValues chordM (default [] (in_chordsM input)) = Ok (chordsM plan) /\
  List.map (fun c => (PlanModel.preview_cell c, PlanModel.preview_key c))
    (List.filter (fun c => negb (PlanModel.excluded c))
       (PlanModel.planCombos (ambients plan) (speedsMps plan) (chordsM plan) (excludedConditions plan))) =
  List.map (fun c => (condition_cell c, comboKey c)) (conditionCombosFromPlan plan).
Proof.
  intros (_ & Ha & Hs & Hc & _)%normalized_inv.
  split_and!; [by apply ambients_preview|by eapply axis_preview|by eapply axis_preview|].
  unfold PlanModel.planCombos, conditionCombosFromPlan. rewrite preview_cells.
  set (keys := List.map exclusion_key _). set (cells := grid _ _ _).
  destruct (combosFrom_cells plan keys cells 0) as [<- Hk]. rewrite List.map_map.
  apply List.map_ext_in. intros c Hin. rewrite List.Forall_forall in Hk. by rewrite (proj1 (Hk c Hin)).
Qed.

(** ** Where the validation is not what it says *)

(** An ambient that is not finite leaves the validation with the bare error of the
    canonical string, and not with the list of issues. *)
Lemma nonfinite_ambient_throws tp rest :
  isFinite (num (fst tp)) = false ->
  normalizeAmbients (tp :: rest) =
    Throw ("cannot canonicalize non-finite value: " +:+ Number_toString (num (fst tp))).
Proof.
  intros H. unfold normalizeAmbients. cbn [result_map]. unfold ambientPair at 1.
  unfold canonicalSiString, roundHalfEvenFixed. by rewrite H.
Qed.

(** A positive value below the canonical precision passes the check and becomes zero. *)
Lemma rounded_to_zero :
  axisValue "speedsMps" speedMps (JNum 0.0001) = Ok ([], "0.000") /\
  toleranceString (JNum 0.001) = Ok "0.00".
Proof. split; vm_compute; reflexivity. Qed.

(** ** A concrete plan *)
Module Examples.
Definition objective : ObjectiveInput :=
  {| in_enabled := JBool true; in_toleranceDeg := JNum 0.1; in_maxRounds := JNum 8 |}.

Definition numerics : record :=
  [("boundaryProfileId", JStr "b"); ("meshProfileId", JStr "m");
   ("solverProfileId", JStr "s"); ("outputProfileId", JStr "o")].

Definition input : CampaignPlanInput :=
  {| in_mediumId := JStr "air";
     in_ambients := Some [(JNum 288.15, JStr "101325"); (JNum 280, JNum 90000)];
     in_speedsMps := Some [JNum 20; JStr "10"; JNum 20]; in_chordsM := Some [JNum 0.25];
     in_spanM := JNum 1; in_areaMode := None; in_areaM2 := JUndef;
     in_excludedConditions := Some [(JNum 280, JNum 90000, JNum 20, JNum 0.25); (JNum 1, JNum 1, JNum 1, JNum 1)];
     in_baseSweep := Some {| in_fromDeg := JNum (-2); in_toDeg := JNum 4; in_stepDeg := JNum 2; in_listDeg := None |};
     in_ldMax := Some objective; in_clZero := Some objective; in_clMax := None;
     in_numerics := numerics |}.

(** Collation by code units. *)
Definition compare (a b : string) : jsnum :=
  match String.compare a b with Lt => -1 | Eq => 0 | Gt => 1 end%float.

Definition plan : CampaignPlan :=
  match normalizeCampaignPlan compare 10 input with
  | Some (Ok (Normalized p)) => p
  | _ => {| mediumId := ""; ambients := []; speedsMps := []; chordsM := []; plan_spanM := "";
            areaMode := ""; plan_areaM2 := None; excludedConditions := []; baseSweep := empty_sweep;
            ldMax := DISABLED_CLMAX_OBJECTIVE; clZero := DISABLED_CLMAX_OBJECTIVE;
            clMax := DISABLED_CLMAX_OBJECTIVE; boundaryProfileId := JNull; meshProfileId := JNull;
            uransMeshProfileId := None; uransPrecalcMeshProfileId := None;
            solverProfileId := JNull; outputProfileId := JNull |}
  end.

Example plan_ok :
  normalizeCampaignPlan compare 10 input = Some (Ok (Normalized plan)) /\
  List.map comboKey (conditionCombosFromPlan plan) =
    ["280.00|90000|10.000|0.2500"; "288.15|101325|10.000|0.2500"; "288.15|101325|20.000|0.2500"].
Proof. split; vm_compute; reflexivity. Qed.

Definition sets : CampaignAngleSets :=
  {| angles := [-2; 0; 1; 4]; negativeAngles := [-2]; symmetricSolverAngles := [0; 1; 2; 4] |}%float.
End Examples.

Lemma plan_conditions_witness :
  length (conditionCombosFromPlan Examples.plan) = 3%nat /\
  List.NoDup (List.map comboKey (conditionCombosFromPlan Examples.plan)).
Proof.
  split; [vm_compute; reflexivity|].
  refine (proj1 (proj2 (proj2 (plan_conditions Examples.compare 10 Examples.input Examples.plan _)))).
  vm_compute; reflexivity.
Defined.

Lemma plan_points_accounted_witness :
  points (campaignPointArithmetic Examples.sets 3 2) =
    (solverRuns (campaignPointArithmetic Examples.sets 3 2) +
     derivedPoints (campaignPointArithmetic Examples.sets 3 2))%Z.
Proof.
  refine (proj1 (plan_points_accounted [4; -2; 0; 1; 0]%float Examples.sets 3 2 _ _));
    vm_compute; reflexivity.
Defined.

Lemma preview_agrees_witness :
  PlanModel.canonicalAxisValues speedMps [JNum 20; JStr "10"; JNum 20] = Ok (speedsMps Examples.plan).
Proof.
  refine (proj1 (proj2 (preview_agrees Examples.compare 10 Examples.input Examples.plan _))).
  vm_compute; reflexivity.
Defined.
