(* ===== verification/ResultInterpretation.v ===== *)
(** * Interpretations of a result

    The reducer of [apps/sweeper/src/result-interpretations.ts]: what a solved point
    may claim from the proof its engine transported (a steady hold, an observation
    without shedding, or a clean suffix of cycles), how an archive reduction is staged,
    and when a staged reduction may be selected as the canonical value of its result.

    A point is the property list of the engine's JSON, because the reducer tells a
    missing key (legacy evidence) from an explicit [null] (a proof that failed).  An
    accepted certificate is read back with the types of its contract.  Rows of the
    database are records: the selection takes the rows it reads and the row that its
    update meets, which a concurrent worker may have changed in between.  An
    interpretation or attempt that belongs to another result is read as absent.

    Proved: an accepted draft rests on a valid certificate (whose means it publishes, except
    for periodic results, where the code does not compare them), any other draft withholds its coefficients with a reason, the selection of an archive
    reduction repeats the proof, reducer and selector agree, and a selection never
    retargets a row that has changed. *)

From Stdlib Require Import ZArith Lia Bool Ascii String Sorting.Permutation Sorting.Sorted.
From Stdlib Require Import Floats.
From stdpp Require Import base list strings option numbers.
From S2P Require Import Prelude JsNumber JsString JsValue JsArray Numeric Fidelity UransCyclePolicy.
From S2P Require NoShedding RansHold UransCycle.

Local Open Scope string_scope.
Local Open Scope list_scope.

#[local] Existing Instances RansHold.repr_channel RansHold.repr_certificate
  RansHold.valid_certificate NoShedding.repr_certificate NoShedding.valid_certificate
  UransCycle.repr_cycle UransCycle.repr_certificate UransCycle.valid_certificate
  UransCycle.disposition_eq_dec.

(** ** Typed reads of an accepted certificate *)

Definition number_of (v : jsval) : jsnum := match v with JNum x => x | _ => PrimFloat.nan end.
Definition string_of (v : jsval) : string := match v with JStr s => s | _ => "" end.
Definition items (v : jsval) : list jsval := match v with JArr l => l | _ => [] end.
Definition num_at (k : string) (v : jsval) : jsnum := number_of (prop k v).

Definition noShedding_of (v : jsval) : NoShedding.NoSheddingCertificate :=
  let n k := num_at k v in
  {| NoShedding.required_observation_s := n "required_observation_s";
     NoShedding.observation_start_time := n "observation_start_time";
     NoShedding.observation_end_time := n "observation_end_time";
     NoShedding.observed_observation_s := n "observed_observation_s";
     NoShedding.source_sample_count := n "source_sample_count";
     NoShedding.transport_sample_count := n "transport_sample_count";
     NoShedding.relative_tolerance := n "relative_tolerance";
     NoShedding.absolute_floor := n "absolute_floor";
     NoShedding.cl_mean := n "cl_mean"; NoShedding.cd_mean := n "cd_mean";
     NoShedding.cm_mean := n "cm_mean"; NoShedding.cl_rms := n "cl_rms";
     NoShedding.cd_rms := n "cd_rms"; NoShedding.cm_rms := n "cm_rms";
     NoShedding.transport_cl_mean := n "transport_cl_mean";
     NoShedding.transport_cd_mean := n "transport_cd_mean";
     NoShedding.transport_cm_mean := n "transport_cm_mean";
     NoShedding.transport_cl_rms := n "transport_cl_rms";
     NoShedding.transport_cd_rms := n "transport_cd_rms";
     NoShedding.transport_cm_rms := n "transport_cm_rms" |}.

Definition holdChannel_of (v : jsval) : RansHold.RansHoldChannel :=
  let n k := num_at k v in
  {| RansHold.mean := n "mean"; RansHold.min_value := n "min_value";
     RansHold.max_value := n "max_value"; RansHold.peak_to_peak := n "peak_to_peak";
     RansHold.relative_spread := n "relative_spread" |}.

Definition ransHold_of (v : jsval) : RansHold.RansHoldCertificate :=
  let n k := num_at k v in
  {| RansHold.sample_count := n "sample_count";
     RansHold.required_sample_count := n "required_sample_count";
     RansHold.start_iteration := n "start_iteration"; RansHold.end_iteration := n "end_iteration";
     RansHold.relative_tolerance := n "relative_tolerance";
     RansHold.absolute_floor := n "absolute_floor";
     RansHold.cl := holdChannel_of (prop "cl" v); RansHold.cd := holdChannel_of (prop "cd" v);
     RansHold.cm := holdChannel_of (prop "cm" v) |}.

(** The disposition of an accepted cycle is one of the seven labels. *)
Definition disposition_of (v : jsval) : UransCycle.UransCycleDisposition :=
  default UransCycle.startup
    (List.find (fun d => is_str v (UransCycle.disposition_label d))
       [UransCycle.selected; UransCycle.startup; UransCycle.hard_corrupt;
        UransCycle.settling_outlier; UransCycle.cadence_unresolved;
        UransCycle.numerically_noisy; UransCycle.insufficient_frames]).

Definition cycle_of (v : jsval) : UransCycle.UransCycleCertificateCycle :=
  let n k := num_at k v in
  {| UransCycle.index := n "index"; UransCycle.t_start := n "t_start"; UransCycle.t_end := n "t_end";
     UransCycle.coefficient_samples := n "coefficient_samples";
     UransCycle.field_frames := n "field_frames"; UransCycle.phase_max_gap := n "phase_max_gap";
     UransCycle.phase_shift_bins := n "phase_shift_bins";
     UransCycle.cl_mean := n "cl_mean"; UransCycle.cd_mean := n "cd_mean";
     UransCycle.cm_mean := n "cm_mean"; UransCycle.cl_shape_error := n "cl_shape_error";
     UransCycle.cd_shape_error := n "cd_shape_error"; UransCycle.cm_shape_error := n "cm_shape_error";
     UransCycle.cl_amplitude_deviation := n "cl_amplitude_deviation";
     UransCycle.cd_amplitude_deviation := n "cd_amplitude_deviation";
     UransCycle.cm_amplitude_deviation := n "cm_amplitude_deviation";
     UransCycle.cl_high_frequency := n "cl_high_frequency";
     UransCycle.cd_high_frequency := n "cd_high_frequency";
     UransCycle.cm_high_frequency := n "cm_high_frequency";
     UransCycle.disposition := disposition_of (prop "disposition" v);
     UransCycle.reasons := List.map string_of (items (prop "reasons" v)) |}.

Definition uransCycle_of (v : jsval) : UransCycle.UransCycleCertificate :=
  let n k := num_at k v in
  {| UransCycle.reducer_version := string_of (prop "reducer_version" v);
     UransCycle.period_s := n "period_s"; UransCycle.phase_samples := n "phase_samples";
     UransCycle.required_clean_cycles := n "required_clean_cycles";
     UransCycle.terminal_clean_cycles := n "terminal_clean_cycles";
     UransCycle.selected_cycle_start_index :=
       match prop "selected_cycle_start_index" v with JNum x => Some x | _ => None end;
     UransCycle.certified := is_true (prop "certified" v);
     UransCycle.cadence_adjusted := is_true (prop "cadence_adjusted" v);
     UransCycle.cycles := List.map cycle_of (items (prop "cycles" v)) |}.

(** ** Data *)

Inductive InterpretationState :=
  | accepted_state | continuation_required | terminal_failure | legacy_uncertified.

Inductive InterpretationRegime :=
  | legacy_engine_reported | rans_hold | steady_equivalent | periodic | broadband_stationary
  | trending_unresolved.

#[export] Instance interpretation_state_eq_dec : EqDecision InterpretationState.
Proof. solve_decision. Defined.

#[export] Instance interpretation_regime_eq_dec : EqDecision InterpretationRegime.
Proof. solve_decision. Defined.

Definition state_label (s : InterpretationState) : string :=
  match s with
  | accepted_state => "accepted" | continuation_required => "continuation_required"
  | terminal_failure => "terminal_failure" | legacy_uncertified => "legacy_uncertified"
  end.

Definition regime_label (r : InterpretationRegime) : string :=
  match r with
  | legacy_engine_reported => "legacy_engine_reported" | rans_hold => "rans_hold"
  | steady_equivalent => "steady_equivalent" | periodic => "periodic"
  | broadband_stationary => "broadband_stationary" | trending_unresolved => "trending_unresolved"
  end.

Inductive UncertaintyBasis :=
  | paired_cycles | paired_blocks | stability_envelope | numerical_plateau
  | basis_legacy_engine_reported | not_available.

Record InterpretationDraft := {
  state : InterpretationState;
  regime : InterpretationRegime;
  continuationReason : option string;
  terminalReason : option string;
  selectedWindow : record;
  statistics : record;
  diagnostics : record;
  cl : option jsnum;
  cd : option jsnum;
  cm : option jsnum;
  clCd : option jsnum;
  clWaveformRms : option jsnum;
  cdWaveformRms : option jsnum;
  cmWaveformRms : option jsnum;
  uncertaintyBasis : UncertaintyBasis;
  effectiveBlocks : option nat;
}.

Definition finite_or_null (v : jsval) : option jsnum :=
  match v with JNum x => if isFinite x then Some x else None | _ => None end.

Definition coalesce (v w : jsval) : jsval := if nullish v then w else v.

(** A draft without coefficients. *)
Definition withheld (s : InterpretationState) (continuation terminal : option string)
    (window diagnostics : record) : InterpretationDraft :=
  {| state := s; regime := trending_unresolved; continuationReason := continuation;
     terminalReason := terminal; selectedWindow := window; statistics := [];
     diagnostics := diagnostics; cl := None; cd := None; cm := None; clCd := None;
     clWaveformRms := None; cdWaveformRms := None; cmWaveformRms := None;
     uncertaintyBasis := not_available; effectiveBlocks := None |}.

Definition legacyDraft (point : record) (reason : string) : InterpretationDraft :=
  let n k := finite_or_null (get k point) in
  {| state := legacy_uncertified; regime := legacy_engine_reported; continuationReason := None;
     terminalReason := None; selectedWindow := []; statistics := [];
     diagnostics := [("reason", JStr reason)];
     cl := n "cl"; cd := n "cd"; cm := n "cm"; clCd := n "cl_cd"; clWaveformRms := n "cl_std";
     cdWaveformRms := n "cd_std"; cmWaveformRms := n "cm_std";
     uncertaintyBasis := basis_legacy_engine_reported; effectiveBlocks := None |}.

Definition ransHoldContinuationDraft (reason : string) (diagnostics : record) : InterpretationDraft :=
  withheld continuation_required (Some reason) None [] diagnostics.

(** ** Predicates of a point *)

Definition minimumCleanCyclesFor (fidelity : PointFidelity) : option nat :=
  match fidelity with UransPrecalc => Some 3%nat | UransFull => Some 5%nat | Rans => None end.

Definition isUransFidelity (fidelity : PointFidelity) : bool :=
  match fidelity with Rans => false | _ => true end.

Definition acceptedCoefficients (point : record) : bool :=
  finite (get "cl" point) && finite (get "cd" point) && finite (get "cm" point) &&
  on_num (fun x => x > 0)%js (get "cd" point).

Definition sameCertifiedMean (actual expected : jsnum) : bool :=
  (PrimFloat.abs (actual - expected)
   <= 1e-12 * Math_max (Math_max 1 (PrimFloat.abs actual)) (PrimFloat.abs expected))%js.

Definition same_mean (v : jsval) (expected : jsnum) : bool :=
  on_num (fun x => sameCertifiedMean x expected) v.

(** ** The bounded force history *)

Record TimeWeightedTransportStatistics := { transport_mean : jsnum; transport_rms : jsnum }.

(** The trapezoid loop over [f] of the values at both ends of every step; [None] when a
    time step is not positive.  (The code's second loop runs over the same steps and
    does not test them again.) *)
Fixpoint integrate (f : jsnum -> jsnum -> jsnum) (t0 v0 : jsnum) (times values : list jsnum)
    (acc : jsnum) : option jsnum :=
  match times, values with
  | t :: times, v :: values =>
      let dt := (t - t0)%float in
      if negb (isFinite dt) || (dt <= 0)%js then None
      else integrate f t v times values (acc + f v0 v * dt)%float
  | _, _ => Some acc
  end.

(** The first and the last element of a list, which the code has checked to exist. *)
Definition first_of (l : list jsnum) : jsnum := match l with x :: _ => x | [] => PrimFloat.nan end.
Definition last_of (l : list jsnum) : jsnum := List.last l PrimFloat.nan.

Definition timeWeightedTransportStatistics (times values : list jsnum) :
    option TimeWeightedTransportStatistics :=
  if Nat.ltb (length times) 2 || negb (Nat.eqb (length values) (length times)) then None
  else
    let span := (last_of times - first_of times)%float in
    if negb (isFinite span) || (span <= 0)%js then None
    else
      let integral f := integrate f (first_of times) (first_of values) (tail times) (tail values) 0%float in
      match integral (fun a b => 0.5 * (a + b))%float with
      | None => None
      | Some sum =>
          let mean := (sum / span)%float in
          if negb (isFinite mean) then None
          else
            match integral (fun a b => 0.5 * ((a - mean) * (a - mean) + (b - mean) * (b - mean)))%float with
            | None => None
            | Some variance =>
                let rms := PrimFloat.sqrt (Math_max (variance / span) 0) in
                if isFinite rms then Some {| transport_mean := mean; transport_rms := rms |} else None
            end
      end.

Example transport_ex :
  timeWeightedTransportStatistics [0; 1; 3]%float [1; 1; 1]%float =
    Some {| transport_mean := 1; transport_rms := 0 |} /\
  timeWeightedTransportStatistics [0; 1; 2]%float [0; 2; 4]%float =
    Some {| transport_mean := 2; transport_rms := PrimFloat.sqrt 2 |} /\
  timeWeightedTransportStatistics [0; 1; 1; 2]%float [1; 1; 1; 1]%float = None.
Proof. vm_compute. repeat split; reflexivity. Qed.

Fixpoint not_increasing (previous : jsnum) (times : list jsnum) : bool :=
  match times with
  | t :: rest => (t <= previous)%js || not_increasing t rest
  | [] => false
  end.

(** [times.some((value, index) => index > 0 && value <= times[index - 1])] *)
Definition notStrictlyIncreasing (times : list jsnum) : bool :=
  match times with t :: rest => not_increasing t rest | [] => false end.

Definition is_array_of (n : nat) (v : jsval) : bool :=
  match v with JArr l => Nat.eqb (length l) n | _ => false end.

Definition numbers_at (k : string) (history : jsval) : list jsnum :=
  List.map number_of (items (prop k history)).

(** The transport of one channel against its stamped statistics. *)
Definition transportDiffers (history : jsval) (entry : string * jsnum * jsnum) : bool :=
  let '(channel, expectedMean, expectedRms) := entry in
  match timeWeightedTransportStatistics (numbers_at "t" history) (numbers_at channel history) with
  | None => true
  | Some s =>
      negb (sameCertifiedMean (transport_mean s) expectedMean) ||
      negb (sameCertifiedMean (transport_rms s) expectedRms)
  end.

Definition transports (c : NoShedding.NoSheddingCertificate) : list (string * jsnum * jsnum) :=
  [("cl", NoShedding.transport_cl_mean c, NoShedding.transport_cl_rms c);
   ("cd", NoShedding.transport_cd_mean c, NoShedding.transport_cd_rms c);
   ("cm", NoShedding.transport_cm_mean c, NoShedding.transport_cm_rms c)].

Definition meansDiffer (point : record) (cl cd cm : jsnum) : bool :=
  negb (acceptedCoefficients point) || negb (same_mean (get "cl" point) cl) ||
  negb (same_mean (get "cd" point) cd) || negb (same_mean (get "cm" point) cm).

Definition noSheddingHistoryContractReason (point : record) (c : NoShedding.NoSheddingCertificate) :
    option string :=
  let history := get "force_history" point in
  if nullish history then Some "no-shedding proof has no retained force-history transport"
  else
    let channels := [prop "t" history; prop "cl" history; prop "cd" history; prop "cm" history] in
    let count := length (items (prop "t" history)) in
    let times := numbers_at "t" history in
    if Nat.ltb count 2 || existsb (fun v => negb (is_array_of count v)) channels
    then Some "no-shedding force-history channels are incomplete"
    else if negb (of_nat count === NoShedding.transport_sample_count c)%js ||
            (NoShedding.source_sample_count c < of_nat count)%js
    then Some "no-shedding force-history sample counts do not match the certificate"
    else if existsb (fun channel => existsb (fun v => negb (finite v)) (items channel)) channels
    then Some "no-shedding force history contains non-finite values"
    else if notStrictlyIncreasing times
    then Some "no-shedding force-history times are not strictly increasing"
    else if negb (sameCertifiedMean (first_of times) (NoShedding.observation_start_time c)) ||
            negb (sameCertifiedMean (last_of times) (NoShedding.observation_end_time c))
    then Some "no-shedding force-history endpoints do not match the certificate"
    else
      match List.find (transportDiffers history) (transports c) with
      | Some (channel, _, _) =>
          Some ("no-shedding " +:+ channel +:+
                " force-history transport does not match the certificate")
      | None =>
          if meansDiffer point (NoShedding.cl_mean c) (NoShedding.cd_mean c) (NoShedding.cm_mean c)
          then Some "published URANS coefficients do not equal the no-shedding observation means"
          else None
      end.

(** ** The three proofs *)

Inductive NoSheddingUransProof :=
  | proof_accepted (certificate : jsval)
  | not_candidate
  | proof_legacy
  | proof_missing (reason : string)
  | proof_invalid (reason : string) (errors : option (list string)).

Definition candidate (point : record) (fidelity : PointFidelity) : bool :=
  isUransFidelity fidelity &&
  match get "unsteady" point with JBool b => negb b | _ => false end &&
  is_true (get "converged" point) && negb (truthy (get "error" point)) &&
  is_null (get "frame_track" point) && is_null (get "urans_cycle_certificate" point).

Definition is_undef (v : jsval) : bool := match v with JUndef => true | _ => false end.

Definition noSheddingUransProof (point : record) (fidelity : PointFidelity) : NoSheddingUransProof :=
  if negb (candidate point fidelity) then not_candidate
  else
    match get "no_shedding_certificate" point with
    | JUndef =>
        if is_undef (get "frame_track" point) && is_undef (get "urans_cycle_certificate" point)
        then proof_legacy
        else proof_missing "current no-shedding URANS result has no physical observation certificate"
    | JNull =>
        proof_missing "current no-shedding URANS result could not certify its physical observation"
    | v =>
        match NoShedding.parseNoSheddingCertificate v with
        | Rejected errors =>
            proof_invalid "current no-shedding URANS certificate is malformed" (Some errors)
        | Parsed value =>
            match noSheddingHistoryContractReason point (noShedding_of value) with
            | Some reason => proof_invalid reason None
            | None => proof_accepted value
            end
        end
    end.

Definition strings (l : list string) : jsval := JArr (List.map JStr l).

Definition ransHoldDraft (point : record) : InterpretationDraft :=
  match get "rans_hold_certificate" point with
  | JUndef =>
      legacyDraft point "steady result predates the dedicated all-channel RANS hold reducer"
  | JNull =>
      ransHoldContinuationDraft
        "current steady RANS has no exact all-channel final-window proof; route this angle to FAST URANS"
        [("ransHoldCertificate", JStr "missing")]
  | v =>
      match RansHold.parseRansHoldCertificate v with
      | Rejected errors =>
          ransHoldContinuationDraft
            "current steady RANS hold proof is malformed; route this angle to FAST URANS"
            [("ransHoldCertificate", JStr "invalid"); ("contractErrors", strings errors)]
      | Parsed value =>
          let c := ransHold_of value in
          if negb (acceptedCoefficients point) then
            ransHoldContinuationDraft
              "current steady RANS hold proof has unusable published coefficients; route this angle to FAST URANS"
              [("ransHoldCertificate", value); ("coefficientState", JStr "unusable")]
          else if negb (same_mean (get "cl" point) (RansHold.mean (RansHold.cl c))) ||
                  negb (same_mean (get "cd" point) (RansHold.mean (RansHold.cd c))) ||
                  negb (same_mean (get "cm" point) (RansHold.mean (RansHold.cm c))) then
            ransHoldContinuationDraft
              "published RANS coefficients do not equal the certified raw final-window means; route this angle to FAST URANS"
              [("ransHoldCertificate", value); ("coefficientState", JStr "proof-mismatch")]
          else
            {| state := accepted_state; regime := rans_hold; continuationReason := None;
               terminalReason := None;
               selectedWindow :=
                 [("reducerVersion", prop "reducer_version" value);
                  ("sampleCount", JNum (RansHold.sample_count c));
                  ("requiredSampleCount", JNum (RansHold.required_sample_count c));
                  ("startIteration", JNum (RansHold.start_iteration c));
                  ("endIteration", JNum (RansHold.end_iteration c))];
               statistics := [("cl", prop "cl" value); ("cd", prop "cd" value); ("cm", prop "cm" value)];
               diagnostics := [("ransHoldCertificate", value)];
               cl := Some (RansHold.mean (RansHold.cl c)); cd := Some (RansHold.mean (RansHold.cd c));
               cm := Some (RansHold.mean (RansHold.cm c));
               clCd := Some (RansHold.mean (RansHold.cl c) / RansHold.mean (RansHold.cd c))%float;
               clWaveformRms := None; cdWaveformRms := None; cmWaveformRms := None;
               uncertaintyBasis := numerical_plateau; effectiveBlocks := Some 1%nat |}
      end
  end.

(** ** The clean-cycle contract *)

Definition is_selected (c : UransCycle.UransCycleCertificateCycle) : bool :=
  bool_decide (UransCycle.disposition c = UransCycle.selected).

Definition selectedCertificateCycles (c : UransCycle.UransCycleCertificate) :
    list UransCycle.UransCycleCertificateCycle :=
  List.filter is_selected (UransCycle.cycles c).

Definition selectedCertificateCycleQualityReasons (c : UransCycle.UransCycleCertificate) : list string :=
  List.flat_map (fun cycle => selectedCleanCycleQualityReasons (UransCycle.cycleQuality cycle))
    (selectedCertificateCycles c).

(** [every((x, index) => index === 0 || x === xs[index - 1] + 1)] *)
Fixpoint contiguous_from (previous : jsnum) (xs : list jsnum) : bool :=
  match xs with
  | x :: rest => (x === (previous + 1)%float)%js && contiguous_from x rest
  | [] => true
  end.

Definition contiguous (xs : list jsnum) : bool :=
  match xs with x :: rest => contiguous_from x rest | [] => true end.

Definition URANS_CLEAN_CYCLE_CERTIFICATE_VERSION : string := "clean-cycle-v3".

(** [xs.at(-1)?.index] *)
Definition last_index (cycles : list UransCycle.UransCycleCertificateCycle) : option jsnum :=
  match rev cycles with c :: _ => Some (UransCycle.index c) | [] => None end.

(** [a !== b] of two numbers that may be absent. *)
Definition number_differs (a b : option jsnum) : bool :=
  match a, b with
  | Some x, Some y => negb (x === y)%js
  | None, None => false
  | _, _ => true
  end.

Definition certifiedContractReason (c : UransCycle.UransCycleCertificate) (minimum : nat) :
    option string :=
  let selected := selectedCertificateCycles c in
  if (UransCycle.terminal_clean_cycles c < of_nat minimum)%js
  then Some "certificate marks certified despite an insufficient terminal clean suffix"
  else if negb (Nat.eqb (length selected) minimum)
  then Some "certificate marks certified without exactly the fidelity-required selected publication cycles"
  else if match UransCycle.selected_cycle_start_index c with
          | None => true
          | Some s => negb (existsb (fun cycle => (UransCycle.index cycle === s)%js) selected)
          end
  then Some "certificate marks certified without a selected terminal-start cycle"
  else if negb (contiguous (List.map UransCycle.index selected))
  then Some "certificate selected cycles are not a contiguous suffix"
  else if match last_index (UransCycle.cycles c) with
          | None => true
          | Some final => number_differs (last_index selected) (Some final)
          end
  then Some "certificate selected cycles are not the terminal publication suffix"
  else
    match selectedCertificateCycleQualityReasons c with
    | [] => None
    | reasons =>
        Some ("certificate selects cycles that violate clean-cycle policy (" +:+
              join ", " reasons +:+ ")")
    end.

Definition certificateContractReason (c : UransCycle.UransCycleCertificate) (fidelity : PointFidelity) :
    option string :=
  match minimumCleanCyclesFor fidelity with
  | None => Some "URANS certificate supplied for a non-URANS fidelity"
  | Some minimum =>
      if negb (String.eqb (UransCycle.reducer_version c) URANS_CLEAN_CYCLE_CERTIFICATE_VERSION)
      then Some ("unsupported URANS reducer " +:+ UransCycle.reducer_version c)
      else if negb (UransCycle.required_clean_cycles c === of_nat minimum)%js
      then Some ("certificate requires " +:+ Number_toString (UransCycle.required_clean_cycles c) +:+
                 " clean cycles; " +:+ fidelity_literal fidelity +:+ " requires " +:+
                 string_of_nat minimum)
      else if UransCycle.certified c then certifiedContractReason c minimum
      else None
  end.

(** ** The reducer *)

Definition or_null (o : option jsnum) : jsval := match o with Some x => JNum x | None => JNull end.

Definition cycleWindow (c : UransCycle.UransCycleCertificate) : record :=
  [("periodS", JNum (UransCycle.period_s c)); ("phaseSamples", JNum (UransCycle.phase_samples c));
   ("requiredCleanCycles", JNum (UransCycle.required_clean_cycles c));
   ("terminalCleanCycles", JNum (UransCycle.terminal_clean_cycles c));
   ("selectedCycleStartIndex", or_null (UransCycle.selected_cycle_start_index c));
   ("selectedCycleIndexes",
     JArr (List.map (fun cycle => JNum (UransCycle.index cycle)) (selectedCertificateCycles c)));
   ("cadenceAdjusted", JBool (UransCycle.cadence_adjusted c))].

Definition cycleDiagnostics (c : UransCycle.UransCycleCertificate) : record :=
  [("reducerVersion", JStr (UransCycle.reducer_version c)); ("certified", JBool (UransCycle.certified c));
   ("cycleCount", JNum (of_nat (length (UransCycle.cycles c))))].

Definition mean_rms (mean rms : jsnum) : jsval := JObj [("mean", JNum mean); ("rms", JNum rms)].

Definition steadyEquivalentDraft (value : jsval) : InterpretationDraft :=
  let c := noShedding_of value in
  {| state := accepted_state; regime := steady_equivalent; continuationReason := None;
     terminalReason := None;
     selectedWindow :=
       [("kind", JStr "steady_equivalent"); ("reducerVersion", prop "reducer_version" value);
        ("observationStartTime", JNum (NoShedding.observation_start_time c));
        ("observationEndTime", JNum (NoShedding.observation_end_time c));
        ("requiredObservationS", JNum (NoShedding.required_observation_s c));
        ("observedObservationS", JNum (NoShedding.observed_observation_s c));
        ("sourceSampleCount", JNum (NoShedding.source_sample_count c));
        ("transportSampleCount", JNum (NoShedding.transport_sample_count c))];
     statistics :=
       [("cl", mean_rms (NoShedding.cl_mean c) (NoShedding.cl_rms c));
        ("cd", mean_rms (NoShedding.cd_mean c) (NoShedding.cd_rms c));
        ("cm", mean_rms (NoShedding.cm_mean c) (NoShedding.cm_rms c))];
     diagnostics := [("noSheddingCertificate", value)];
     cl := Some (NoShedding.cl_mean c); cd := Some (NoShedding.cd_mean c);
     cm := Some (NoShedding.cm_mean c);
     clCd := Some (NoShedding.cl_mean c / NoShedding.cd_mean c)%float;
     clWaveformRms := Some (NoShedding.cl_rms c); cdWaveformRms := Some (NoShedding.cd_rms c);
     cmWaveformRms := Some (NoShedding.cm_rms c);
     uncertaintyBasis := numerical_plateau; effectiveBlocks := None |}.

Definition periodicDraft (point : record) (c : UransCycle.UransCycleCertificate) : InterpretationDraft :=
  let n k := number_of (get k point) in
  {| state := accepted_state; regime := periodic; continuationReason := None; terminalReason := None;
     selectedWindow := cycleWindow c;
     statistics := [("frameTrack", coalesce (get "frame_track" point) JNull)];
     diagnostics := cycleDiagnostics c;
     cl := Some (n "cl"); cd := Some (n "cd"); cm := Some (n "cm");
     clCd := Some (n "cl" / n "cd")%float;
     clWaveformRms := finite_or_null (get "cl_std" point);
     cdWaveformRms := finite_or_null (get "cd_std" point);
     cmWaveformRms := finite_or_null (get "cm_std" point);
     uncertaintyBasis := paired_cycles;
     effectiveBlocks := Some (length (selectedCertificateCycles c)) |}.

Definition cycleDraft (point : record) (fidelity : PointFidelity)
    (c : UransCycle.UransCycleCertificate) : InterpretationDraft :=
  match certificateContractReason c fidelity with
  | Some reason =>
      withheld terminal_failure None (Some ("URANS cycle certificate invalid: " +:+ reason))
        (cycleWindow c) (cycleDiagnostics c)
  | None =>
      if negb (UransCycle.certified c) || negb (acceptedCoefficients point) ||
         negb (is_true (get "converged" point))
      then
        withheld continuation_required
          (Some (if negb (UransCycle.certified c) then
                   "terminal clean suffix " +:+ Number_toString (UransCycle.terminal_clean_cycles c) +:+
                   "/" +:+ Number_toString (UransCycle.required_clean_cycles c) +:+ " is not certified"
                 else if negb (acceptedCoefficients point) then
                   "certified URANS certificate has unusable coefficient values"
                 else "certified clean-cycle suffix has no stationary statistics window; continue the exact case"))
          None (cycleWindow c) (cycleDiagnostics c)
      else periodicDraft point c
  end.

(** The draft and the certificate whose cycles are stored beside it. *)
Definition draftResultInterpretationForPoint (point : record) (fidelity : PointFidelity) :
    InterpretationDraft * option UransCycle.UransCycleCertificate :=
  match noSheddingUransProof point fidelity with
  | proof_accepted value => (steadyEquivalentDraft value, None)
  | proof_missing reason =>
      (ransHoldContinuationDraft (reason +:+ "; route this angle to FAST URANS")
         [("noSheddingCertificate", JStr "missing"); ("contractErrors", JArr [])], None)
  | proof_invalid reason errors =>
      (ransHoldContinuationDraft (reason +:+ "; route this angle to FAST URANS")
         [("noSheddingCertificate", JStr "invalid"); ("contractErrors", strings (default [] errors))],
       None)
  | not_candidate | proof_legacy =>
      if bool_decide (fidelity = Rans) then (ransHoldDraft point, None)
      else if negb (truthy (get "unsteady" point)) then
        if is_undef (get "frame_track" point) && is_undef (get "urans_cycle_certificate" point) then
          (legacyDraft point
             "URANS result predates the explicit no-shedding/cycle-certificate transport", None)
        else
          (ransHoldContinuationDraft
             "current URANS result is neither an explicit no-shedding result nor certified periodic evidence; route this angle to FAST URANS"
             [("frameTrack", coalesce (get "frame_track" point) (JStr "missing"));
              ("uransCycleCertificate", coalesce (get "urans_cycle_certificate" point) (JStr "missing"))],
           None)
      else
        match get "urans_cycle_certificate" point with
        | JUndef =>
            (legacyDraft point "URANS result predates the clean-cycle certification reducer", None)
        | JNull =>
            (ransHoldContinuationDraft
               "current shedding URANS has no clean-cycle certificate; route this angle to FAST URANS"
               [("uransCycleCertificate", JStr "missing")], None)
        | v =>
            match UransCycle.parseUransCycleCertificate v with
            | Rejected errors =>
                (withheld terminal_failure None
                   (Some ("URANS cycle certificate contract drift: " +:+ join "; " errors))
                   [] [("contractErrors", strings errors)], None)
            | Parsed value =>
                let c := uransCycle_of value in (cycleDraft point fidelity c, Some c)
            end
        end
  end.

(** ** Staging an archive reduction *)

(** The rows of [results], [resultInterpretations], [resultAttempts], ... that the
    selection reads; times are milliseconds. *)
Record ArchiveSelectionAttempt := {
  attempt_status : string;
  attempt_source : string;
  attempt_regime : option string;
  attempt_unsteady : bool;
  attempt_error : option string;
  attempt_fidelity : jsval;
}.

Record ArchiveSelectionInterpretation := {
  interpretation_id : string;
  interpretation_state : string;
  interpretation_source : string;
  interpretation_regime : string;
  sourceArchiveId : option string;
  inputEvidenceSignature : string;
  interpretation_cl : option jsnum;
  interpretation_cd : option jsnum;
  interpretation_cm : option jsnum;
  interpretation_clCd : option jsnum;
  interpretation_window : record;
  interpretation_statistics : record;
  interpretation_diagnostics : record;
}.

Record ArchiveSelectionCycle := {
  cycleIndex : jsnum;
  cycle_disposition : string;
  coefficientSampleCount : jsnum;
  fieldFrameCount : jsnum;
  phaseMaxGapFraction : option jsnum;
  metrics : record;
}.

Record ArchiveSelectionArchive := {
  archive_id : string;
  archive_state : string;
  backend : string;
  compression : string;
  mimeType : string;
  bucket : option string;
  generation : option string;
  verifiedAt : option jsnum;
}.

Definition exhaustionReason (diagnostics : record) : string :=
  match get "reason" diagnostics with
  | JStr s => if nonempty (trim s) then trim s else "clean-cycle recovery exhausted"
  | _ => "clean-cycle recovery exhausted"
  end.

Definition effectiveDraft (archive_diagnostics : record) (draft : InterpretationDraft) :
    InterpretationDraft :=
  if is_str (get "recoveryState" archive_diagnostics) "exhausted" then
    {| state := terminal_failure; regime := trending_unresolved; continuationReason := None;
       terminalReason := Some ("URANS " +:+ exhaustionReason archive_diagnostics);
       selectedWindow := selectedWindow draft; statistics := statistics draft;
       diagnostics := diagnostics draft; cl := None; cd := None; cm := None; clCd := None;
       clWaveformRms := None; cdWaveformRms := None; cmWaveformRms := None;
       uncertaintyBasis := not_available; effectiveBlocks := None |}
  else draft.

(** [{ ...o, [k]: v }]: a present key keeps its place. *)
Definition spread (o : record) (k : string) (v : jsval) : record :=
  if has k o then List.map (fun e => if String.eqb (fst e) k then (k, v) else e) o
  else o ++ [(k, v)].

Definition metric (mean shape amplitude high : jsnum) : jsval :=
  JObj [("mean", JNum mean); ("shapeError", JNum shape); ("amplitudeDeviation", JNum amplitude);
        ("highFrequency", JNum high)].

Definition cycleRow (c : UransCycle.UransCycleCertificateCycle) : ArchiveSelectionCycle :=
  {| cycleIndex := UransCycle.index c;
     cycle_disposition := UransCycle.disposition_label (UransCycle.disposition c);
     coefficientSampleCount := UransCycle.coefficient_samples c;
     fieldFrameCount := UransCycle.field_frames c;
     phaseMaxGapFraction := Some (UransCycle.phase_max_gap c);
     metrics :=
       [("phaseShiftBins", JNum (UransCycle.phase_shift_bins c));
        ("cl", metric (UransCycle.cl_mean c) (UransCycle.cl_shape_error c)
                 (UransCycle.cl_amplitude_deviation c) (UransCycle.cl_high_frequency c));
        ("cd", metric (UransCycle.cd_mean c) (UransCycle.cd_shape_error c)
                 (UransCycle.cd_amplitude_deviation c) (UransCycle.cd_high_frequency c));
        ("cm", metric (UransCycle.cm_mean c) (UransCycle.cm_shape_error c)
                 (UransCycle.cm_amplitude_deviation c) (UransCycle.cm_high_frequency c));
        ("reasons", strings (UransCycle.reasons c))] |}.

(** The row and the cycle rows that [stageArchiveResultInterpretation] inserts under a
    fresh id; [Throw] for a malformed signature or archive id. *)
Definition stageArchiveResultInterpretation (id archiveId signature : string) (point : record)
    (fidelity : PointFidelity) (archive_diagnostics : record) :
    result (ArchiveSelectionInterpretation * list ArchiveSelectionCycle) :=
  if negb (hex_string 64 signature)
  then Throw "archive interpretation requires a SHA-256 raw-evidence signature"
  else if negb (nonempty archiveId)
  then Throw "archive interpretation requires one exact source archive"
  else
    let '(draft, certificate) := draftResultInterpretationForPoint point fidelity in
    let d := effectiveDraft archive_diagnostics draft in
    Ok ({| interpretation_id := id; interpretation_state := state_label (state d);
           interpretation_source := "archive_backfill";
           interpretation_regime := regime_label (regime d); sourceArchiveId := Some archiveId;
           inputEvidenceSignature := signature; interpretation_cl := cl d; interpretation_cd := cd d;
           interpretation_cm := cm d; interpretation_clCd := clCd d;
           interpretation_window := selectedWindow d; interpretation_statistics := statistics d;
           interpretation_diagnostics :=
             spread (diagnostics d) "archiveBackfill" (JObj archive_diagnostics) |},
        match certificate with
        | Some c => List.map cycleRow (UransCycle.cycles c)
        | None => []
        end).

(** ** The selection policy *)

Definition archiveAttemptMayPromotePointerlessResult (currentAttemptId currentInterpretationId
    currentCanonicalSelectionId : option string) (resultStatus : string)
    (resultSimJobId attemptSimJobId : option string) : bool :=
  bool_decide (currentAttemptId = None) && bool_decide (currentInterpretationId = None) &&
  bool_decide (currentCanonicalSelectionId = None) && String.eqb resultStatus "failed" &&
  bool_decide (resultSimJobId = attemptSimJobId).

Fixpoint matches (classes : list (ascii -> bool)) (s : string) : bool :=
  match classes, s with
  | [], EmptyString => true
  | p :: classes, String c s => p c && matches classes s
  | _, _ => false
  end.

Definition between (lo hi : ascii) (c : ascii) : bool :=
  Nat.leb (code lo) (code c) && Nat.leb (code c) (code hi).
Definition hex_any (c : ascii) : bool := between "0" "9" c || between "a" "f" c || between "A" "F" c.
Definition dash (c : ascii) : bool := Ascii.eqb c "-".

(** The classes of [UUID_TEXT], which ignores case. *)
Definition UUID_TEXT : list (ascii -> bool) :=
  repeat hex_any 8 ++ [dash] ++ repeat hex_any 4 ++ [dash] ++ [between "1" "8"] ++ repeat hex_any 3 ++
  [dash] ++ [fun c => existsb (Ascii.eqb c) ["8"; "9"; "a"; "b"; "A"; "B"]%char] ++ repeat hex_any 3 ++
  [dash] ++ repeat hex_any 12.

(** [/^[1-9][0-9]{0,19}$/] *)
Definition GCS_GENERATION_TEXT (s : string) : bool :=
  match s with
  | String c s => between "1" "9" c && all_chars (between "0" "9") s && Nat.leb (String.length s) 19
  | EmptyString => false
  end.

Definition archiveFidelityCleanCycleRequirement (value : jsval) : option nat :=
  if is_str value "urans_precalc" then Some 3%nat
  else if is_str value "urans_full" then Some 5%nat else None.

Definition asRecord (v : jsval) : record := match v with JObj o => o | _ => [] end.

Definition channelInput (v : jsval) : ChannelQualityInput :=
  let o := asRecord v in
  {| shapeError := get "shapeError" o; amplitudeDeviation := get "amplitudeDeviation" o;
     highFrequency := get "highFrequency" o |}.

Definition archiveCycleQuality (c : ArchiveSelectionCycle) : SelectedCleanCycleQualityInput :=
  let m := metrics c in
  {| coefficientSamples := JNum (coefficientSampleCount c); fieldFrames := JNum (fieldFrameCount c);
     phaseMaxGap := or_null (phaseMaxGapFraction c); phaseShiftBins := get "phaseShiftBins" m;
     UransCyclePolicy.cl := channelInput (get "cl" m); UransCyclePolicy.cd := channelInput (get "cd" m);
     UransCyclePolicy.cm := channelInput (get "cm" m); reasons := get "reasons" m |}.

Definition archiveSelectedCycleQualityReasons (c : ArchiveSelectionCycle) : list string :=
  selectedCleanCycleQualityReasons (archiveCycleQuality c).

Definition exactPositiveCoefficientSet (i : ArchiveSelectionInterpretation) : bool :=
  match interpretation_cl i, interpretation_cd i, interpretation_cm i, interpretation_clCd i with
  | Some cl, Some cd, Some cm, Some clCd =>
      isFinite cl && isFinite cd && isFinite cm && isFinite clCd && negb (cd <= 0)%js &&
      sameCertifiedMean clCd (cl / cd)%float
  | _, _, _, _ => false
  end.

Definition hasVerifiedCurrentGcsArchive (archive : option ArchiveSelectionArchive)
    (expectedSourceArchiveId : string) : bool :=
  match archive with
  | None => false
  | Some a =>
      String.eqb (archive_id a) expectedSourceArchiveId && String.eqb (archive_state a) "current" &&
      String.eqb (backend a) "gcs" && String.eqb (compression a) "zstd" &&
      String.eqb (mimeType a) "application/zstd" &&
      match bucket a with Some b => nonempty (trim b) | None => false end &&
      match generation a with Some g => GCS_GENERATION_TEXT g | None => false end &&
      match verifiedAt a with Some t => isFinite t | None => false end
  end.

Definition archiveNoSheddingCertificate (i : ArchiveSelectionInterpretation) :
    option NoShedding.NoSheddingCertificate :=
  match NoShedding.parseNoSheddingCertificate (get "noSheddingCertificate" (interpretation_diagnostics i)) with
  | Parsed value => Some (noShedding_of value)
  | Rejected _ => None
  end.

Definition exactNoSheddingWindow (i : ArchiveSelectionInterpretation)
    (c : NoShedding.NoSheddingCertificate) : bool :=
  let w := interpretation_window i in
  let same k expected := finite (get k w) && same_mean (get k w) expected in
  is_str (get "kind" w) "steady_equivalent" &&
  is_str (get "reducerVersion" w) NoShedding.NO_SHEDDING_CERTIFICATE_VERSION &&
  same "observationStartTime" (NoShedding.observation_start_time c) &&
  same "observationEndTime" (NoShedding.observation_end_time c) &&
  same "requiredObservationS" (NoShedding.required_observation_s c) &&
  same "observedObservationS" (NoShedding.observed_observation_s c) &&
  strict_eq_num (get "sourceSampleCount" w) (NoShedding.source_sample_count c) &&
  strict_eq_num (get "transportSampleCount" w) (NoShedding.transport_sample_count c).

Definition channelMatches (value : jsval) (mean rms : jsnum) : bool :=
  let channel := asRecord value in
  finite (get "mean" channel) && finite (get "rms" channel) &&
  same_mean (get "mean" channel) mean && same_mean (get "rms" channel) rms.

Definition same_coefficient (x : option jsnum) (expected : jsnum) : bool :=
  match x with Some x => isFinite x && sameCertifiedMean x expected | None => false end.

Definition exactNoSheddingStatistics (i : ArchiveSelectionInterpretation)
    (c : NoShedding.NoSheddingCertificate) : bool :=
  let s := interpretation_statistics i in
  channelMatches (get "cl" s) (NoShedding.cl_mean c) (NoShedding.cl_rms c) &&
  channelMatches (get "cd" s) (NoShedding.cd_mean c) (NoShedding.cd_rms c) &&
  channelMatches (get "cm" s) (NoShedding.cm_mean c) (NoShedding.cm_rms c) &&
  same_coefficient (interpretation_cl i) (NoShedding.cl_mean c) &&
  same_coefficient (interpretation_cd i) (NoShedding.cd_mean c) &&
  same_coefficient (interpretation_cm i) (NoShedding.cm_mean c).

Definition is_label (o : option string) (s : string) : bool :=
  match o with Some t => String.eqb t s | None => false end.

Definition isExactArchiveSteadyEquivalent (i : ArchiveSelectionInterpretation)
    (attempt : ArchiveSelectionAttempt) (cycles : list ArchiveSelectionCycle) : bool :=
  let archiveBackfill := asRecord (get "archiveBackfill" (interpretation_diagnostics i)) in
  if negb (String.eqb (interpretation_regime i) "steady_equivalent") || attempt_unsteady attempt ||
     negb (is_true (get "unsteadyEvidence" archiveBackfill)) ||
     (negb (is_label (attempt_regime attempt) "urans") && negb (is_label (attempt_regime attempt) "rans")) ||
     negb (Nat.eqb (length cycles) 0)
  then false
  else
    match archiveNoSheddingCertificate i with
    | Some c => exactNoSheddingWindow i c && exactNoSheddingStatistics i c
    | None => false
    end.

Definition by_cycleIndex (left_ right_ : ArchiveSelectionCycle) : jsnum :=
  (cycleIndex left_ - cycleIndex right_)%float.

Definition cycle_selected (c : ArchiveSelectionCycle) : bool := String.eqb (cycle_disposition c) "selected".

Definition exactPeriodicCycles (required : nat) (rows : list ArchiveSelectionCycle) : bool :=
  let cycles := sort by_cycleIndex rows in
  let indexes := List.map cycleIndex cycles in
  if existsb (fun x => negb (isInteger x) || (x < 0)%js) indexes || negb (contiguous indexes)
  then false
  else
    let selected := List.filter cycle_selected cycles in
    if negb (Nat.eqb (length selected) required) then false
    else
      let selectedStart := (length cycles - required)%nat in
      if existsb cycle_selected (firstn selectedStart cycles) ||
         existsb (fun c => negb (cycle_selected c)) (skipn selectedStart cycles)
      then false
      else forallb (fun c => Nat.eqb (length (archiveSelectedCycleQualityReasons c)) 0) selected.

Definition canSelectAcceptedArchiveInterpretation (i : ArchiveSelectionInterpretation)
    (expectedSourceArchiveId : string) (archive : option ArchiveSelectionArchive)
    (attempt : ArchiveSelectionAttempt) (cycles : list ArchiveSelectionCycle) : bool :=
  if negb (String.eqb (interpretation_state i) "accepted") ||
     negb (String.eqb (interpretation_source i) "archive_backfill") ||
     negb (matches UUID_TEXT (interpretation_id i)) ||
     negb (matches UUID_TEXT expectedSourceArchiveId) ||
     negb (is_label (sourceArchiveId i) expectedSourceArchiveId) ||
     negb (hex_string 64 (inputEvidenceSignature i)) ||
     negb (hasVerifiedCurrentGcsArchive archive expectedSourceArchiveId) ||
     negb (String.eqb (attempt_status attempt) "done") ||
     negb (String.eqb (attempt_source attempt) "solved") ||
     match attempt_error attempt with Some e => nonempty (trim e) | None => false end ||
     negb (exactPositiveCoefficientSet i)
  then false
  else
    match archiveFidelityCleanCycleRequirement (attempt_fidelity attempt) with
    | None => false
    | Some required =>
        if isExactArchiveSteadyEquivalent i attempt cycles then true
        else if negb (String.eqb (interpretation_regime i) "periodic") ||
                negb (is_label (attempt_regime attempt) "urans") ||
                negb (attempt_unsteady attempt) || Nat.ltb (length cycles) required
        then false
        else exactPeriodicCycles required cycles
    end.

Definition canSelectImmediateEngineInterpretation (state source regime : string) : bool :=
  String.eqb state "accepted" && String.eqb source "engine_reported" && String.eqb regime "rans_hold".

(** ** Selecting

    The row of the result that a selection reads and later updates; [cell] is its
    airfoil, condition, revision and angle.  The other columns that a promotion sets copy
    the attempt (spreads, residuals, runtime, media) and are left out. *)
Record ResultRow := {
  cell : string * string * string * jsnum;
  currentAttemptId : option string;
  currentInterpretationId : option string;
  currentCanonicalSelectionId : option string;
  row_status : string;
  row_simJobId : option string;
  row_cl : option jsnum;
  row_cd : option jsnum;
  row_cm : option jsnum;
  row_clCd : option jsnum;
}.

Record AttemptRow := {
  attempt_id : string;
  attempt_cell : string * string * string * jsnum;
  attempt_simJobId : option string;
  attempt_row : ArchiveSelectionAttempt;
}.

Inductive ArchiveInterpretationSelectionOutcome :=
  | outcome_selected | already_selected | stale_attempt | not_eligible.

Definition same_cell (a b : string * string * string * jsnum) : bool :=
  match a, b with
  | (x, y, z, r), (x', y', z', r') =>
      String.eqb x x' && String.eqb y y' && String.eqb z z' && (r === r')%js
  end.

(** The decision from the rows read ([None] for an absent row): an outcome, or whether
    the update may promote the terminal attempt of a result without pointers. *)
Definition selectionDecision (resultAttemptId sourceArchive : string)
    (interpretation : option ArchiveSelectionInterpretation) (current : option ResultRow)
    (attempt : option AttemptRow) (archive : option ArchiveSelectionArchive)
    (cycles : list ArchiveSelectionCycle) :
    ArchiveInterpretationSelectionOutcome + (ArchiveSelectionInterpretation * ResultRow * AttemptRow * bool) :=
  match interpretation with
  | None => inl not_eligible
  | Some i =>
      match current with
      | None => inl stale_attempt
      | Some r =>
          if is_label (currentInterpretationId r) (interpretation_id i) &&
             match currentCanonicalSelectionId r with Some s => nonempty s | None => false end
          then inl already_selected
          else
            match attempt with
            | None => inl not_eligible
            | Some a =>
                if negb (same_cell (attempt_cell a) (cell r)) ||
                   negb (canSelectAcceptedArchiveInterpretation i sourceArchive archive (attempt_row a) cycles)
                then inl not_eligible
                else
                  let promotes := archiveAttemptMayPromotePointerlessResult (currentAttemptId r)
                    (currentInterpretationId r) (currentCanonicalSelectionId r) (row_status r)
                    (row_simJobId r) (attempt_simJobId a) in
                  if negb (is_label (currentAttemptId r) resultAttemptId) && negb promotes
                  then inl stale_attempt
                  else inr (i, r, a, promotes)
            end
      end
  end.

(** [where]: the row that the update meets, [now], against the row that was read. *)
Definition unchanged (resultAttemptId : string) (promotes : bool) (attempt : AttemptRow)
    (read now : ResultRow) : bool :=
  (if promotes then
     bool_decide (currentAttemptId now = None) && String.eqb (row_status now) "failed" &&
     bool_decide (row_simJobId now = attempt_simJobId attempt)
   else is_label (currentAttemptId now) resultAttemptId) &&
  bool_decide (currentInterpretationId now = currentInterpretationId read) &&
  bool_decide (currentCanonicalSelectionId now = currentCanonicalSelectionId read).

Definition projected (selectionId : string) (i : ArchiveSelectionInterpretation) (a : AttemptRow)
    (promotes : bool) (now : ResultRow) : ResultRow :=
  {| cell := cell now;
     currentAttemptId := if promotes then Some (attempt_id a) else currentAttemptId now;
     currentInterpretationId := Some (interpretation_id i);
     currentCanonicalSelectionId := Some selectionId;
     row_status := if promotes then attempt_status (attempt_row a) else row_status now;
     row_simJobId := if promotes then attempt_simJobId a else row_simJobId now;
     row_cl := if promotes then interpretation_cl i else row_cl now;
     row_cd := if promotes then interpretation_cd i else row_cd now;
     row_cm := if promotes then interpretation_cm i else row_cm now;
     row_clCd := if promotes then interpretation_clCd i else row_clCd now |}.

(** The selection with the rows it reads and the row [now] that its update meets. *)
Definition selectAcceptedArchiveInterpretation (resultAttemptId sourceArchive selectionId : string)
    (interpretation : option ArchiveSelectionInterpretation) (read : option ResultRow)
    (attempt : option AttemptRow) (archive : option ArchiveSelectionArchive)
    (cycles : list ArchiveSelectionCycle) (now : ResultRow) :
    ArchiveInterpretationSelectionOutcome * ResultRow :=
  match selectionDecision resultAttemptId sourceArchive interpretation read attempt archive cycles with
  | inl o => (o, now)
  | inr (i, r, a, promotes) =>
      if unchanged resultAttemptId promotes a r now
      then (outcome_selected, projected selectionId i a promotes now)
      else (stale_attempt, now)
  end.

(** ** Typed reads return the represented certificate *)

Lemma num_at_get (k : string) (o : record) (x : jsnum) :
  get k o = JNum x -> num_at k (JObj o) = x.
Proof. unfold num_at. cbn [prop]. by intros ->. Qed.

Lemma noShedding_of_repr (c : NoShedding.NoSheddingCertificate) (v : jsval) :
  represents c v -> noShedding_of v = c.
Proof.
  intros (o & -> & _ & _ & _ & H). unfold represents, repr_num in H. destruct_and! H.
  destruct c. cbn in *. unfold noShedding_of. f_equal; by apply num_at_get.
Qed.

Lemma holdChannel_of_repr (c : RansHold.RansHoldChannel) (v : jsval) :
  represents c v -> holdChannel_of v = c.
Proof.
  intros (o & -> & _ & H). unfold represents, repr_num in H. destruct_and! H.
  destruct c. cbn in *. unfold holdChannel_of. f_equal; by apply num_at_get.
Qed.

Lemma ransHold_of_repr (c : RansHold.RansHoldCertificate) (v : jsval) :
  represents c v -> ransHold_of v = c.
Proof.
  intros (o & -> & _ & _ & _ & H). destruct c. cbn [RansHold.sample_count
    RansHold.required_sample_count RansHold.start_iteration RansHold.end_iteration
    RansHold.relative_tolerance RansHold.absolute_floor RansHold.cl RansHold.cd RansHold.cm] in H.
  destruct_and! H. unfold ransHold_of. cbn [prop]. f_equal;
    first [by apply num_at_get|by apply holdChannel_of_repr].
Qed.

Lemma disposition_of_label (d : UransCycle.UransCycleDisposition) :
  disposition_of (JStr (UransCycle.disposition_label d)) = d.
Proof. destruct d; vm_compute; reflexivity. Qed.

Lemma strings_of (l : list string) : List.map string_of (items (strings l)) = l.
Proof. cbn. rewrite List.map_map. apply List.map_id. Qed.

Lemma cycle_of_repr (c : UransCycle.UransCycleCertificateCycle) (v : jsval) :
  represents c v -> cycle_of v = c.
Proof.
  intros (o & -> & _ & H). destruct_and! H. destruct c. cbn in *. unfold cycle_of. f_equal;
    try (by apply num_at_get); cbn [prop].
  - match goal with H : get "disposition" o = _ |- _ => rewrite H end. apply disposition_of_label.
  - match goal with H : get "reasons" o = _ |- _ => rewrite H end. apply strings_of.
Qed.

Lemma uransCycle_of_repr (c : UransCycle.UransCycleCertificate) (v : jsval) :
  represents c v -> uransCycle_of v = c.
Proof.
  intros (o & -> & _ & H). destruct_and! H. destruct c. cbn in *.
  assert (Hc : List.map cycle_of (items (get "cycles" o)) = cycles).
  { match goal with H : represents cycles _ |- _ => destruct H as (vs & -> & Hl) end. cbn.
    clear -Hl. induction Hl as [|c v l l' Hc _ IH]; cbn; [done|]. by rewrite (cycle_of_repr c v), IH. }
  unfold uransCycle_of. f_equal; try (by apply num_at_get); cbn [prop]; rewrite_gets;
    try done.
  match goal with H : represents selected_cycle_start_index _ |- _ => revert H end.
  unfold represents, repr_option. destruct selected_cycle_start_index; by intros ->.
Qed.

(** ** What a parser's verdict gives *)

Lemma noShedding_parsed (v value : jsval) :
  NoShedding.parseNoSheddingCertificate v = Parsed value ->
  value = v /\ conforms NoShedding.NoSheddingCertificate v.
Proof.
  intros H. assert (Ha : accepted (NoShedding.parseNoSheddingCertificate v) = true) by by rewrite H.
  apply NoShedding.noShedding_accepted in Ha. split; [|done].
  destruct v; try discriminate. cbn [NoShedding.parseNoSheddingCertificate] in H. unfold verdict in H.
  destruct (NoShedding.noSheddingErrors _); congruence.
Qed.

Lemma ransHold_parsed (v value : jsval) :
  RansHold.parseRansHoldCertificate v = Parsed value ->
  value = v /\ conforms RansHold.RansHoldCertificate v.
Proof.
  intros H. assert (Ha : accepted (RansHold.parseRansHoldCertificate v) = true) by by rewrite H.
  apply RansHold.ransHold_accepted in Ha. split; [|done].
  destruct v; try discriminate. cbn [RansHold.parseRansHoldCertificate] in H. unfold verdict in H.
  destruct (RansHold.ransHoldErrors _); congruence.
Qed.

Lemma uransCycle_parsed (v value : jsval) :
  UransCycle.parseUransCycleCertificate v = Parsed value ->
  value = v /\ conforms UransCycle.UransCycleCertificate v.
Proof.
  intros H. destruct v as [| |b|n|s|l|o]; try discriminate.
  cbn [UransCycle.parseUransCycleCertificate] in H. unfold verdict in H.
  destruct (UransCycle.uransCycleErrors o) eqn:E; [|discriminate]. injection H as <-.
  split; [done|]. by apply UransCycle.uransCycleErrors_spec.
Qed.

(** ** Accepted drafts are proved *)

(** The published coefficient is a finite number within the proof's tolerance. *)
Definition published (point : record) (k : string) (certified_mean : jsnum) : Prop :=
  exists x, get k point = JNum x /\ isFinite x = true /\ sameCertifiedMean x certified_mean = true.

Definition coefficients (d : InterpretationDraft) (x y z : jsnum) : Prop :=
  cl d = Some x /\ cd d = Some y /\ cm d = Some z /\ clCd d = Some (x / y)%float.

Lemma finite_num (v : jsval) : finite v = true -> exists x, v = JNum x /\ isFinite x = true.
Proof. destruct v; cbn; try discriminate. eauto. Qed.

Lemma meansDiffer_false (point : record) (x y z : jsnum) :
  meansDiffer point x y z = false ->
  published point "cl" x /\ published point "cd" y /\ published point "cm" z /\
  acceptedCoefficients point = true.
Proof.
  unfold meansDiffer. breflect. intros [[[Ha H1] H2] H3]. pose proof Ha as Hacc.
  unfold acceptedCoefficients in Ha. breflect. destruct Ha as [[[F1 F2] F3] _].
  apply finite_num in F1 as (a & Ea & Fa), F2 as (b & Eb & Fb), F3 as (c & Ec & Fc).
  rewrite Ea in H1. rewrite Eb in H2. rewrite Ec in H3. unfold published.
  split_and!; [by exists a|by exists b|by exists c|done].
Qed.

Definition hold_proved (point : record) (d : InterpretationDraft) : Prop :=
  exists c : RansHold.RansHoldCertificate,
    represents c (get "rans_hold_certificate" point) /\ valid c /\
    coefficients d (RansHold.mean (RansHold.cl c)) (RansHold.mean (RansHold.cd c))
      (RansHold.mean (RansHold.cm c)) /\
    published point "cl" (RansHold.mean (RansHold.cl c)) /\
    published point "cd" (RansHold.mean (RansHold.cd c)) /\
    published point "cm" (RansHold.mean (RansHold.cm c)).

Lemma ransHoldDraft_accepted (point : record) :
  state (ransHoldDraft point) = accepted_state ->
  regime (ransHoldDraft point) = rans_hold /\ hold_proved point (ransHoldDraft point).
Proof.
  unfold ransHoldDraft, hold_proved. set (v := get "rans_hold_certificate" point).
  assert (Hp : forall value, RansHold.parseRansHoldCertificate v = Parsed value ->
    value = v /\ conforms RansHold.RansHoldCertificate v) by apply ransHold_parsed.
  destruct v as [| |b|n|s|l|o]; try (intros H; discriminate H).
  all: destruct (RansHold.parseRansHoldCertificate _) as [value|]; [|intros H; discriminate H].
  all: destruct (Hp value eq_refl) as [-> (c & Hr & Hv)]; rewrite (ransHold_of_repr c _ Hr).
  all: destruct (negb (acceptedCoefficients point)) eqn:Ha; [intros H; discriminate H|].
  all: destruct (negb _ || negb _ || negb _) eqn:Hm; [intros H; discriminate H|intros _].
  all: split; [done|]; exists c; split; [done|]; split; [done|]; split; [by repeat split|].
  all: destruct (meansDiffer_false point (RansHold.mean (RansHold.cl c)) (RansHold.mean (RansHold.cd c))
         (RansHold.mean (RansHold.cm c))) as (P1 & P2 & P3 & _); [|done].
  all: unfold meansDiffer; rewrite Ha; exact Hm.
Qed.

(** The retained history carries the stamped samples, in strictly increasing time, from
    the start to the end of the observation, with the stamped statistics. *)
Definition history_bound (point : record) (c : NoShedding.NoSheddingCertificate) : Prop :=
  let history := get "force_history" point in
  let times := numbers_at "t" history in
  (2 <= length times)%nat /\
  (of_nat (length times) === NoShedding.transport_sample_count c)%js = true /\
  notStrictlyIncreasing times = false /\
  sameCertifiedMean (first_of times) (NoShedding.observation_start_time c) = true /\
  sameCertifiedMean (last_of times) (NoShedding.observation_end_time c) = true /\
  Forall (fun e => transportDiffers history e = false) (transports c) /\
  published point "cl" (NoShedding.cl_mean c) /\ published point "cd" (NoShedding.cd_mean c) /\
  published point "cm" (NoShedding.cm_mean c).

Lemma find_none_forall {A} (f : A -> bool) (l : list A) :
  List.find f l = None -> Forall (fun x => f x = false) l.
Proof. intros H. rewrite List.Forall_forall. intros x Hx. by eapply List.find_none. Qed.

(** Walk down a chain of early returns that all give a reason. *)
Ltac if_none H :=
  repeat match type of H with (if ?b then _ else _) = None =>
    let E := fresh "E" in destruct b eqn:E; [discriminate H|] end.

Lemma historyContract_none (point : record) (c : NoShedding.NoSheddingCertificate) :
  noSheddingHistoryContractReason point c = None -> history_bound point c.
Proof.
  unfold noSheddingHistoryContractReason, history_bound. set (h := get "force_history" point).
  intros H. cbv zeta in H.
  if_none H.
  destruct (List.find _ _) as [[[ch m] r]|] eqn:Ef; [discriminate H|].
  destruct (meansDiffer _ _ _ _) eqn:Em; [discriminate H|]. clear H.
  apply orb_false_iff in E0 as [E0%Nat.ltb_ge _]. breflect. destruct E1 as [E1 _], E4 as [E4 E4'].
  apply find_none_forall in Ef. apply meansDiffer_false in Em as (P1 & P2 & P3 & _).
  assert (El : length (numbers_at "t" h) = length (items (prop "t" h))) by apply length_map.
  cbv zeta. rewrite El. split_and!; try done; lia.
Qed.

Definition observation_proved (point : record) (d : InterpretationDraft) : Prop :=
  exists c : NoShedding.NoSheddingCertificate,
    represents c (get "no_shedding_certificate" point) /\ valid c /\
    coefficients d (NoShedding.cl_mean c) (NoShedding.cd_mean c) (NoShedding.cm_mean c) /\
    history_bound point c.

(** A solver that converged without an error and recorded no periodic evidence. *)
Definition steady_transient (point : record) (fidelity : PointFidelity) : Prop :=
  isUransFidelity fidelity = true /\ get "unsteady" point = JBool false /\
  get "converged" point = JBool true /\ truthy (get "error" point) = false /\
  get "frame_track" point = JNull /\ get "urans_cycle_certificate" point = JNull.

Lemma is_null_spec (v : jsval) : is_null v = true <-> v = JNull.
Proof. destruct v; cbn; naive_solver. Qed.

Lemma candidate_spec (point : record) (fidelity : PointFidelity) :
  candidate point fidelity = true <-> steady_transient point fidelity.
Proof.
  unfold candidate, steady_transient. rewrite !andb_true_iff, negb_true_iff, is_true_spec, !is_null_spec.
  destruct (get "unsteady" point) as [| |[]| | | |]; cbn; naive_solver.
Qed.

(** No candidate is legacy evidence: the code's legacy branch is not reached. *)
Lemma noShedding_never_legacy (point : record) (fidelity : PointFidelity) :
  noSheddingUransProof point fidelity <> proof_legacy.
Proof.
  unfold noSheddingUransProof. destruct (candidate point fidelity) eqn:E; [|done]. cbn [negb].
  apply candidate_spec in E as (_ & _ & _ & _ & Ef & _). rewrite Ef. cbn [is_undef andb].
  destruct (get "no_shedding_certificate" point); try done;
    destruct (NoShedding.parseNoSheddingCertificate _); try done;
    by destruct (noSheddingHistoryContractReason _ _).
Qed.

Lemma proof_accepted_spec (point : record) (fidelity : PointFidelity) (value : jsval) :
  noSheddingUransProof point fidelity = proof_accepted value ->
  steady_transient point fidelity /\ value = get "no_shedding_certificate" point /\
  observation_proved point (steadyEquivalentDraft value).
Proof.
  unfold noSheddingUransProof. destruct (candidate point fidelity) eqn:E; [|done]. cbn [negb].
  apply candidate_spec in E. set (v := get "no_shedding_certificate" point).
  assert (Hp : forall w, NoShedding.parseNoSheddingCertificate v = Parsed w ->
    w = v /\ conforms NoShedding.NoSheddingCertificate v) by apply noShedding_parsed.
  assert (Hgoal : forall w, NoShedding.parseNoSheddingCertificate v = Parsed w ->
    noSheddingHistoryContractReason point (noShedding_of w) = None ->
    w = v /\ observation_proved point (steadyEquivalentDraft w)).
  { intros w Hw Hh. destruct (Hp w Hw) as [-> (c & Hr & Hv)]. split; [done|]. exists c.
    unfold steadyEquivalentDraft. rewrite (noShedding_of_repr c v Hr) in *.
    split_and!; [done|done|by repeat split|by apply historyContract_none]. }
  destruct v as [| |b|n|s|l|o]; [by destruct (_ && _)|done|..];
    (destruct (NoShedding.parseNoSheddingCertificate _) as [w|] eqn:Ew; [|done];
     destruct (noSheddingHistoryContractReason _ _) eqn:Eh; [done|];
     intros [= <-]; by destruct (Hgoal w eq_refl Eh)).
Qed.

(** The selected cycles end with the last cycle of the certificate. *)
Definition terminal_suffix (c : UransCycle.UransCycleCertificate) : Prop :=
  exists final, last_index (UransCycle.cycles c) = Some final /\
    number_differs (last_index (selectedCertificateCycles c)) (Some final) = false.

(** A certified certificate of the fidelity's policy. *)
Definition policy_certificate (fidelity : PointFidelity) (c : UransCycle.UransCycleCertificate) : Prop :=
  exists minimum, minimumCleanCyclesFor fidelity = Some minimum /\
    UransCycle.reducer_version c = URANS_CLEAN_CYCLE_CERTIFICATE_VERSION /\
    (UransCycle.required_clean_cycles c === of_nat minimum)%js = true /\
    UransCycle.certified c = true /\
    length (selectedCertificateCycles c) = minimum /\
    contiguous (List.map UransCycle.index (selectedCertificateCycles c)) = true /\
    Forall (fun x => clean_cycle (UransCycle.cycleQuality x)) (selectedCertificateCycles c) /\
    terminal_suffix c.

Lemma contractReason_none (c : UransCycle.UransCycleCertificate) (fidelity : PointFidelity) :
  certificateContractReason c fidelity = None -> UransCycle.certified c = true ->
  policy_certificate fidelity c.
Proof.
  unfold certificateContractReason, policy_certificate.
  destruct (minimumCleanCyclesFor fidelity) as [m|]; [|done].
  destruct (String.eqb _ _) eqn:E1; cbn [negb]; [|done]. apply String.eqb_eq in E1.
  destruct (negb _) eqn:E2; [done|]. apply negb_false_iff in E2.
  intros H Hc. rewrite Hc in H. exists m. unfold certifiedContractReason in H.
  if_none H. apply negb_false_iff, Nat.eqb_eq in E0. apply negb_false_iff in E4.
  destruct (selectedCertificateCycleQualityReasons c) eqn:Eq; [|done].
  unfold selectedCertificateCycleQualityReasons in Eq. rewrite JsValue.flat_map_nil in Eq.
  split_and!; try done.
  - forall_impl Eq. intros x Hx. by apply selectedCleanCycleQualityReasons_spec.
  - unfold terminal_suffix. destruct (last_index (UransCycle.cycles c)) as [final|]; [by exists final|done].
Qed.

(** A periodic draft publishes the point's own coefficients, finite and with positive drag,
    under the window and the number of clean cycles of a certified certificate of the
    policy.  The code compares none of the coefficients with the certified cycles. *)
Definition periodic_proved (point : record) (fidelity : PointFidelity) (d : InterpretationDraft)
    (certificate : option UransCycle.UransCycleCertificate) : Prop :=
  exists (c : UransCycle.UransCycleCertificate) (x y z : jsnum),
    certificate = Some c /\ represents c (get "urans_cycle_certificate" point) /\ valid c /\
    policy_certificate fidelity c /\
    get "cl" point = JNum x /\ get "cd" point = JNum y /\ get "cm" point = JNum z /\
    isFinite x = true /\ isFinite y = true /\ isFinite z = true /\ (y > 0)%js = true /\
    coefficients d x y z /\
    selectedWindow d = cycleWindow c /\ uncertaintyBasis d = paired_cycles /\
    effectiveBlocks d = minimumCleanCyclesFor fidelity.

Lemma cycleDraft_accepted (point : record) (fidelity : PointFidelity)
    (c : UransCycle.UransCycleCertificate) :
  state (cycleDraft point fidelity c) = accepted_state ->
  cycleDraft point fidelity c = periodicDraft point c /\ policy_certificate fidelity c /\
  acceptedCoefficients point = true /\ get "converged" point = JBool true.
Proof.
  unfold cycleDraft. destruct (certificateContractReason c fidelity) eqn:E; [done|].
  destruct (negb _ || _ || _) eqn:E1; [done|]. intros _. breflect. destruct E1 as [[E1 E2] E3].
  apply is_true_spec in E3. by pose proof (contractReason_none c fidelity E E1).
Qed.

Lemma periodicDraft_proved (point : record) (fidelity : PointFidelity)
    (c : UransCycle.UransCycleCertificate) :
  represents c (get "urans_cycle_certificate" point) -> valid c -> policy_certificate fidelity c ->
  acceptedCoefficients point = true ->
  periodic_proved point fidelity (periodicDraft point c) (Some c).
Proof.
  intros Hr Hv Hp Ha. unfold acceptedCoefficients in Ha. breflect. destruct Ha as [[[F1 F2] F3] F4].
  apply finite_num in F1 as (x & Ex & Fx), F2 as (y & Ey & Fy), F3 as (z & Ez & Fz).
  rewrite Ey in F4. exists c, x, y, z.
  assert (Hb : effectiveBlocks (periodicDraft point c) = minimumCleanCyclesFor fidelity).
  { destruct Hp as (m & -> & _ & _ & _ & Hl & _). cbn. by rewrite Hl. }
  unfold coefficients. cbn [periodicDraft cl cd cm clCd selectedWindow uncertaintyBasis].
  rewrite Ex, Ey, Ez. by split_and!.
Qed.

Lemma ransHoldContinuation_state (reason : string) (o : record) :
  state (ransHoldContinuationDraft reason o) = continuation_required.
Proof. done. Qed.

(** The accepted drafts, route by route. *)
Lemma accepted_routes (point : record) (fidelity : PointFidelity) :
  state (fst (draftResultInterpretationForPoint point fidelity)) = accepted_state ->
  let '(d, certificate) := draftResultInterpretationForPoint point fidelity in
  (regime d = rans_hold /\ fidelity = Rans /\ certificate = None /\ hold_proved point d) \/
  (d = steadyEquivalentDraft (get "no_shedding_certificate" point) /\ steady_transient point fidelity /\
   certificate = None /\ observation_proved point d) \/
  (regime d = periodic /\ isUransFidelity fidelity = true /\ truthy (get "unsteady" point) = true /\
   get "converged" point = JBool true /\ periodic_proved point fidelity d certificate).
Proof.
  unfold draftResultInterpretationForPoint.
  pose proof (noShedding_never_legacy point fidelity) as Hleg.
  destruct (noSheddingUransProof point fidelity) as [value| | |reason|reason errors] eqn:Ens;
    [|clear Hleg|done|discriminate|discriminate].
  { intros _. apply proof_accepted_spec in Ens as (Hs & -> & Ho). right. left. done. }
  case_bool_decide as Ef.
  { intros H. apply ransHoldDraft_accepted in H as [H1 H2]. by left. }
  assert (Hf : isUransFidelity fidelity = true) by by destruct fidelity.
  destruct (truthy (get "unsteady" point)) eqn:Eu; cbn [negb]; [|by destruct (_ && _)].
  set (v := get "urans_cycle_certificate" point).
  assert (Hp : forall w, UransCycle.parseUransCycleCertificate v = Parsed w ->
    w = v /\ conforms UransCycle.UransCycleCertificate v) by apply uransCycle_parsed.
  assert (Hgoal : forall w, UransCycle.parseUransCycleCertificate v = Parsed w ->
    state (cycleDraft point fidelity (uransCycle_of w)) = accepted_state ->
    regime (cycleDraft point fidelity (uransCycle_of w)) = periodic /\
    get "converged" point = JBool true /\
    periodic_proved point fidelity (cycleDraft point fidelity (uransCycle_of w)) (Some (uransCycle_of w))).
  { intros w Hw Hs. destruct (Hp w Hw) as [-> (c & Hr & Hv)].
    rewrite (uransCycle_of_repr c v Hr) in *.
    apply cycleDraft_accepted in Hs as (-> & Hpol & Ha & Hc).
    split_and!; [done|done|by apply periodicDraft_proved]. }
  destruct v as [| |b|n|s|l|o]; [done|done|..];
    (destruct (UransCycle.parseUransCycleCertificate _) as [w|]; [|done]; cbn [fst];
     intros Hs; destruct (Hgoal w eq_refl Hs) as (H1 & H2 & H3); right; right; done).
Qed.

(** C5. Only a proof makes a result acceptable.  An accepted draft is one of three: a
    steady result with a valid hold certificate whose means are the published
    coefficients; a converged transient without periodic evidence, whose valid
    no-shedding certificate is bound to the retained force history; or a converged
    unsteady result with a valid certified clean-cycle certificate of exactly the
    fidelity's policy, whose selected cycles are clean, contiguous and its last ones.  The
    coefficients of the first two are the certified means.  Those of the third are the
    point's own, finite and with positive drag, under the certificate's window and its
    number of cycles: the code does not compare them with the certified cycles (see
    [periodic_not_compared]). *)
Theorem accepted_draft_certified (point : record) (fidelity : PointFidelity) :
  state (fst (draftResultInterpretationForPoint point fidelity)) = accepted_state ->
  let '(d, certificate) := draftResultInterpretationForPoint point fidelity in
  (regime d = rans_hold /\ fidelity = Rans /\ certificate = None /\ hold_proved point d) \/
  (regime d = steady_equivalent /\ steady_transient point fidelity /\ certificate = None /\
   observation_proved point d) \/
  (regime d = periodic /\ isUransFidelity fidelity = true /\ truthy (get "unsteady" point) = true /\
   get "converged" point = JBool true /\ periodic_proved point fidelity d certificate).
Proof.
  intros H. pose proof (accepted_routes point fidelity H) as Hr.
  destruct (draftResultInterpretationForPoint point fidelity) as [d certificate].
  destruct Hr as [Hr|[(-> & Hs & Hc & Ho)|Hr]]; [by left| |by right; right].
  right. left. done.
Qed.

(** ** Drafts that withhold their coefficients *)

Definition withholds (d : InterpretationDraft) : Prop :=
  cl d = None /\ cd d = None /\ cm d = None /\ clCd d = None /\ clWaveformRms d = None /\
  cdWaveformRms d = None /\ cmWaveformRms d = None /\ uncertaintyBasis d = not_available /\
  effectiveBlocks d = None.

(** A reason of the kind that the state calls for. *)
Definition explained (d : InterpretationDraft) : Prop :=
  match state d with
  | continuation_required => continuationReason d <> None /\ terminalReason d = None
  | terminal_failure => continuationReason d = None /\ terminalReason d <> None
  | _ => continuationReason d = None /\ terminalReason d = None
  end.

Lemma ransHoldDraft_explained (point : record) :
  explained (ransHoldDraft point) /\
  (state (ransHoldDraft point) = continuation_required -> withholds (ransHoldDraft point)) /\
  state (ransHoldDraft point) <> terminal_failure.
Proof.
  unfold ransHoldDraft. destruct (get "rans_hold_certificate" point); try (by split_and!);
    (destruct (RansHold.parseRansHoldCertificate _); [|by split_and!];
     destruct (negb (acceptedCoefficients point)); [by split_and!|];
     by destruct (negb _ || negb _ || negb _); split_and!).
Qed.

Lemma cycleDraft_explained (point : record) (fidelity : PointFidelity)
    (c : UransCycle.UransCycleCertificate) :
  explained (cycleDraft point fidelity c) /\
  (state (cycleDraft point fidelity c) <> accepted_state -> withholds (cycleDraft point fidelity c)) /\
  state (cycleDraft point fidelity c) <> legacy_uncertified.
Proof.
  unfold cycleDraft. destruct (certificateContractReason c fidelity); [by split_and!|].
  by destruct (negb _ || _ || _); split_and!.
Qed.

(** A draft that is neither accepted nor legacy carries no coefficient, no spread and
    no uncertainty, and says why: a continuation reason when the solve may continue, a
    terminal reason when it may not, and exactly one of them. *)
Theorem unproved_draft_withholds (point : record) (fidelity : PointFidelity) :
  let d := fst (draftResultInterpretationForPoint point fidelity) in
  explained d /\ (state d = continuation_required \/ state d = terminal_failure -> withholds d).
Proof.
  unfold draftResultInterpretationForPoint.
  destruct (ransHoldDraft_explained point) as (Hr & Hw & Hn).
  assert (Hrans : explained (ransHoldDraft point) /\
    (state (ransHoldDraft point) = continuation_required \/ state (ransHoldDraft point) = terminal_failure ->
     withholds (ransHoldDraft point))) by (split; [done|intros [?|?]; auto; done]).
  assert (Hcycle : forall c, explained (cycleDraft point fidelity c) /\
    (state (cycleDraft point fidelity c) = continuation_required \/
     state (cycleDraft point fidelity c) = terminal_failure -> withholds (cycleDraft point fidelity c))).
  { intros c. destruct (cycleDraft_explained point fidelity c) as (H1 & H2 & _). split; [done|].
    intros [E|E]; apply H2; by rewrite E. }
  assert (Hleg : forall r, explained (legacyDraft point r) /\
    (state (legacyDraft point r) = continuation_required \/ state (legacyDraft point r) = terminal_failure ->
     withholds (legacyDraft point r))) by (intros r; split; [done|by intros [?|?]]).
  destruct (noSheddingUransProof point fidelity);
    try (case_bool_decide; [exact Hrans|]; destruct (negb _);
         [destruct (_ && _); [apply Hleg|by split]|];
         destruct (get "urans_cycle_certificate" point); try apply Hleg; try (by split);
         destruct (UransCycle.parseUransCycleCertificate _); [apply Hcycle|by split]);
    by split; [|try intros [?|?]].
Qed.

(** ** A certified mean equals itself *)

Lemma sameCertifiedMean_refl (x : jsnum) : isFinite x = true -> sameCertifiedMean x x = true.
Proof.
  intros Hx. unfold sameCertifiedMean.
  set (m := Math_max (Math_max 1 (PrimFloat.abs x)) (PrimFloat.abs x)).
  pose proof (proj1 (isFinite_ord x) Hx) as [Hn Hlt].
  assert (Na : isNaN (PrimFloat.abs x) = false) by by rewrite isNaN_abs.
  destruct (Math_max_ord 1%float (PrimFloat.abs x) eq_refl Na) as [N1 O1].
  destruct (Math_max_ord (Math_max 1 (PrimFloat.abs x)) (PrimFloat.abs x) N1 Na) as [N2 O2].
  fold m in N2, O2. rewrite O1, ord_abs in O2.
  assert (Hm : isFinite m = true /\ (0 < ord m)%Z).
  { pose proof (one_ord_lt_inf 1). pose proof one_ord_pos.
    change (ord 1%float) with one_ord in O2. rewrite isFinite_ord. split; [split; [done|lia]|lia]. }
  destruct Hm as [Fm Pm]. assert (Fe : isFinite 1e-12%float = true) by (vm_compute; reflexivity).
  apply leb_ord. rewrite isNaN_abs, ord_abs.
  pose proof (sub_eqb_0 x x Hx Hx) as E. rewrite (proj2 (eqb_finite x x Hx Hx) eq_refl) in E.
  apply eqb_ord in E as (-> & _ & ->). split; [done|]. split; [by apply mul_not_nan|].
  rewrite ord_0. pose proof (mul_weak 1e-12%float m Fe Fm) as Hw.
  rewrite (sign_of_pos m Pm) in Hw. by apply (weakly_signed_ord _ false) in Hw.
Qed.

Lemma same_mean_refl (x : jsnum) : isFinite x = true -> same_mean (JNum x) x = true.
Proof. apply sameCertifiedMean_refl. Qed.

Lemma eqb_self (x : jsnum) : isFinite x = true -> PrimFloat.eqb x x = true.
Proof. intros Hx. by apply eqb_finite. Qed.

(** ** What the selection accepts is proved *)

Definition archive_verified (archive : option ArchiveSelectionArchive) (id : string) : Prop :=
  exists a, archive = Some a /\ archive_id a = id /\ archive_state a = "current" /\
    backend a = "gcs" /\ (exists g, generation a = Some g /\ GCS_GENERATION_TEXT g = true) /\
    (exists t, verifiedAt a = Some t /\ isFinite t = true).

Definition exact_coefficients (i : ArchiveSelectionInterpretation) : Prop :=
  exists x y z r, interpretation_cl i = Some x /\ interpretation_cd i = Some y /\
    interpretation_cm i = Some z /\ interpretation_clCd i = Some r /\
    isFinite x = true /\ isFinite y = true /\ isFinite z = true /\ isFinite r = true /\
    (y <= 0)%js = false /\ sameCertifiedMean r (x / y)%float = true.

(** The rows are, in the order of their indexes, cycles that were not selected and then
    exactly [required] selected clean ones, without a gap. *)
Definition clean_suffix (required : nat) (rows : list ArchiveSelectionCycle) : Prop :=
  exists pre suf, Permutation rows (pre ++ suf) /\ length suf = required /\
    contiguous (List.map cycleIndex (pre ++ suf)) = true /\
    Forall (fun c => cycle_selected c = false) pre /\
    Forall (fun c => cycle_selected c = true /\ clean_cycle (archiveCycleQuality c)) suf.

Lemma exactPeriodicCycles_sound (required : nat) (rows : list ArchiveSelectionCycle) :
  (required <= length rows)%nat -> exactPeriodicCycles required rows = true -> clean_suffix required rows.
Proof.
  unfold exactPeriodicCycles. set (cycles := sort by_cycleIndex rows). intros Hlen.
  assert (Hl : length cycles = length rows) by apply length_sort.
  destruct (existsb _ _ || _) eqn:E1; [done|]. apply orb_false_iff in E1 as [_ E1%negb_false_iff].
  destruct (negb (Nat.eqb _ _)) eqn:E2; [done|].
  destruct (existsb cycle_selected _ || _) eqn:E3; [done|].
  apply orb_false_iff in E3 as [E3%existsb_false E4%existsb_false]. intros Hq.
  exists (firstn (length cycles - required) cycles), (skipn (length cycles - required) cycles).
  rewrite List.firstn_skipn. split_and!; [apply sort_perm|rewrite length_skipn; lia|done|done|].
  rewrite forallb_forall in Hq. rewrite List.Forall_forall in *. intros c Hc.
  specialize (E4 c Hc). apply negb_false_iff in E4. split; [done|].
  assert (Hin : In c cycles).
  { rewrite <- (List.firstn_skipn (length cycles - required) cycles). apply in_or_app. by right. }
  specialize (Hq c (proj2 (filter_In _ _ _) (conj Hin E4))). apply Nat.eqb_eq, length_zero_iff_nil in Hq.
  by apply selectedCleanCycleQualityReasons_spec.
Qed.

Definition steady_selectable (i : ArchiveSelectionInterpretation) (attempt : ArchiveSelectionAttempt)
    (rows : list ArchiveSelectionCycle) : Prop :=
  interpretation_regime i = "steady_equivalent" /\ attempt_unsteady attempt = false /\ rows = [] /\
  exists c : NoShedding.NoSheddingCertificate,
    represents c (get "noSheddingCertificate" (interpretation_diagnostics i)) /\ valid c /\
    exactNoSheddingWindow i c = true /\ exactNoSheddingStatistics i c = true.

Lemma steadyEquivalent_sound (i : ArchiveSelectionInterpretation) (attempt : ArchiveSelectionAttempt)
    (rows : list ArchiveSelectionCycle) :
  isExactArchiveSteadyEquivalent i attempt rows = true -> steady_selectable i attempt rows.
Proof.
  unfold isExactArchiveSteadyEquivalent, archiveNoSheddingCertificate.
  destruct (_ || negb (Nat.eqb (length rows) 0)) eqn:E; [done|]. breflect.
  destruct E as [[[[E1 E2] _] _] E3]. apply String.eqb_eq in E1. apply Nat.eqb_eq, length_zero_iff_nil in E3.
  destruct (NoShedding.parseNoSheddingCertificate _) as [w|] eqn:Ep; [|done].
  apply noShedding_parsed in Ep as [-> (c & Hr & Hv)]. rewrite (noShedding_of_repr c _ Hr).
  intros [H1 H2]%andb_true_iff. split_and!; [done..|]. by exists c.
Qed.

Lemma verified_sound (archive : option ArchiveSelectionArchive) (id : string) :
  hasVerifiedCurrentGcsArchive archive id = true -> archive_verified archive id.
Proof.
  unfold hasVerifiedCurrentGcsArchive, archive_verified. destruct archive as [a|]; [|done]. breflect.
  intros [[[[[[[H1 H2] H3] H4] H5] H6] H7] H8]. apply String.eqb_eq in H1, H2, H3.
  exists a. destruct (generation a) as [g|], (verifiedAt a) as [t|]; try done. naive_solver.
Qed.

Lemma exactPositive_sound (i : ArchiveSelectionInterpretation) :
  exactPositiveCoefficientSet i = true -> exact_coefficients i.
Proof.
  unfold exactPositiveCoefficientSet, exact_coefficients.
  destruct (interpretation_cl i) as [x|], (interpretation_cd i) as [y|], (interpretation_cm i) as [z|],
    (interpretation_clCd i) as [r|]; try done. breflect. intros [[[[[H1 H2] H3] H4] H5] H6].
  exists x, y, z, r. by split_and!.
Qed.

Lemma label_spec (o : option string) (s : string) : is_label o s = true <-> o = Some s.
Proof. destruct o as [t|]; cbn; [rewrite String.eqb_eq|]; naive_solver. Qed.

(** What every selected interpretation has. *)
Definition selectable_core (i : ArchiveSelectionInterpretation) (id : string)
    (archive : option ArchiveSelectionArchive) (attempt : ArchiveSelectionAttempt) : Prop :=
  interpretation_state i = "accepted" /\ interpretation_source i = "archive_backfill" /\
  sourceArchiveId i = Some id /\ hex_string 64 (inputEvidenceSignature i) = true /\
  archive_verified archive id /\ attempt_status attempt = "done" /\ attempt_source attempt = "solved" /\
  exact_coefficients i.

(** C6. The selection trusts no row for its label.  An interpretation it accepts belongs
    to a verified current archive of the object store and to a solved attempt without an
    error; its coefficients are finite, with positive drag and the exact ratio; and it
    either carries a valid no-shedding certificate that its window, statistics and
    coefficients repeat, with no cycle rows, or its cycle rows end in exactly the
    selected clean suffix that the fidelity requires, three cycles or five. *)
Theorem archive_selection_sound i id archive attempt rows :
  canSelectAcceptedArchiveInterpretation i id archive attempt rows = true ->
  selectable_core i id archive attempt /\
  exists required, archiveFidelityCleanCycleRequirement (attempt_fidelity attempt) = Some required /\
    (steady_selectable i attempt rows \/
     (interpretation_regime i = "periodic" /\ attempt_regime attempt = Some "urans" /\
      attempt_unsteady attempt = true /\ clean_suffix required rows)).
Proof.
  unfold canSelectAcceptedArchiveInterpretation.
  destruct (_ || negb (exactPositiveCoefficientSet i)) eqn:E; [done|]. breflect.
  destruct E as [[[[[[[[[[E1 E2] _] _] E5] E6] E7] E8] E9] _] E11].
  apply String.eqb_eq in E1, E2, E8, E9. apply label_spec in E5.
  destruct (archiveFidelityCleanCycleRequirement _) as [r|]; [|done]. intros H. split.
  { split_and!; try done; [by apply verified_sound|by apply exactPositive_sound]. }
  exists r. split; [done|]. destruct (isExactArchiveSteadyEquivalent _ _ _) eqn:Es.
  { left. by apply steadyEquivalent_sound. }
  destruct (_ || Nat.ltb (length rows) r) eqn:Ep; [done|]. apply orb_false_iff in Ep as [Ep Hl%Nat.ltb_ge].
  breflect. destruct Ep as [[P1 P2] P3]. apply String.eqb_eq in P1. apply label_spec in P2.
  right. split_and!; [done..|]. by apply exactPeriodicCycles_sound.
Qed.

(** ** An accepted reduction can be selected *)

(** The sort keeps a list that no comparison moves. *)
Lemma sort_sorted_id {A} (cmp : A -> A -> jsnum) (l : list A) :
  StronglySorted (fun x y => PrimFloat.ltb (cmp y x) 0 = false) l -> sort cmp l = l.
Proof.
  induction 1 as [|x l _ IH Hx]; [done|].
  change (sort cmp (x :: l)) with (insert_by (fun y x => PrimFloat.ltb (cmp y x) 0) x (sort cmp l)).
  rewrite IH. destruct l as [|y l]; cbn [insert_by]; [done|]. apply Forall_cons_iff in Hx as [-> _]. done.
Qed.

Lemma archiveCycleQuality_row (c : UransCycle.UransCycleCertificateCycle) :
  archiveCycleQuality (cycleRow c) = UransCycle.cycleQuality c.
Proof. done. Qed.

Lemma cycle_selected_row (c : UransCycle.UransCycleCertificateCycle) :
  cycle_selected (cycleRow c) = is_selected c.
Proof. unfold is_selected. by destruct c as [? ? ? ? ? ? ? ? ? ? ? ? ? ? ? ? ? ? ? []]. Qed.

Lemma filter_selected_rows (cs : list UransCycle.UransCycleCertificateCycle) :
  List.filter cycle_selected (List.map cycleRow cs) = List.map cycleRow (List.filter is_selected cs).
Proof.
  induction cs as [|c cs IH]; cbn [List.map List.filter]; [done|]. rewrite cycle_selected_row.
  destruct (is_selected c); cbn; by rewrite IH.
Qed.

(** Consecutive indexes: the rows are sorted, integers and contiguous. *)
Lemma indexes_sorted (cs : list UransCycle.UransCycleCertificateCycle) : forall z0,
  Forall2 UransCycle.has_index cs (seqZ z0 (Z.of_nat (length cs))) ->
  StronglySorted (fun x y => PrimFloat.ltb (by_cycleIndex y x) 0 = false) (List.map cycleRow cs).
Proof.
  induction cs as [|c cs IH]; intros z0 H; [constructor|].
  cbn [length] in H. rewrite Nat2Z.inj_succ, seqZ_cons in H by lia. inversion H as [|? ? ? ? Hc Hcs]; subst.
  rewrite Z.pred_succ in Hcs. cbn [List.map]. constructor; [by eapply IH|].
  rewrite List.Forall_forall. intros r (d & <- & Hd)%in_map_iff.
  destruct (Forall2_in_l _ _ _ d Hcs Hd) as (z & Hz & Hdz).
  apply list_elem_of_In, elem_of_seqZ in Hz. unfold UransCycle.has_index in Hc, Hdz.
  unfold by_cycleIndex. cbn [cycleIndex cycleRow].
  rewrite sub_ltb_0 by (eapply isInteger_finite, isInteger_spec; eauto).
  rewrite (ltb_integer _ _ _ _ Hdz Hc). lia.
Qed.

Lemma indexes_contiguous (cs : list UransCycle.UransCycleCertificateCycle) (p : jsnum) : forall z0,
  to_integer p = Some z0 -> (Z.abs z0 + Z.of_nat (length cs) <= 2 ^ 53)%Z ->
  Forall2 UransCycle.has_index cs (seqZ (z0 + 1) (Z.of_nat (length cs))) ->
  contiguous_from p (List.map UransCycle.index cs) = true.
Proof.
  revert p. induction cs as [|c cs IH]; intros p z0 Hp Hl H; [done|].
  cbn [length] in *. rewrite Nat2Z.inj_succ, seqZ_cons in H by lia. inversion H as [|? ? ? ? Hc Hcs]; subst.
  rewrite Z.pred_succ in Hcs. cbn [List.map contiguous_from]. unfold UransCycle.has_index in Hc.
  rewrite (eqb_integer _ _ _ _ Hc (add_integer _ _ _ _ Hp to_integer_1 ltac:(lia))), Z.eqb_refl.
  apply (IH _ (z0 + 1)%Z); [done|lia|]. by replace (z0 + 1 + 1)%Z with (Z.succ (z0 + 1)) by lia.
Qed.

Lemma contiguous_indexes (cs : list UransCycle.UransCycleCertificateCycle) (z0 : Z) :
  (0 <= z0)%Z -> (z0 + Z.of_nat (length cs) <= 2 ^ 53)%Z ->
  Forall2 UransCycle.has_index cs (seqZ z0 (Z.of_nat (length cs))) ->
  contiguous (List.map UransCycle.index cs) = true.
Proof.
  destruct cs as [|c cs]; intros Hz Hl H; [done|].
  cbn [length] in *. rewrite Nat2Z.inj_succ, seqZ_cons in H by lia. inversion H as [|? ? ? ? Hc Hcs]; subst.
  rewrite Z.pred_succ in Hcs. cbn [List.map contiguous]. apply (indexes_contiguous _ _ z0); [done|lia|].
  by replace (z0 + 1)%Z with (Z.succ z0) by lia.
Qed.

Lemma indexes_nonnegative (cs : list UransCycle.UransCycleCertificateCycle) (z0 : Z) :
  (0 <= z0)%Z -> Forall2 UransCycle.has_index cs (seqZ z0 (Z.of_nat (length cs))) ->
  existsb (fun x => negb (isInteger x) || (x < 0)%js) (List.map UransCycle.index cs) = false.
Proof.
  intros Hz H. apply existsb_false. rewrite List.Forall_forall. intros x (c & <- & Hc)%in_map_iff.
  destruct (Forall2_in_l _ _ _ c H Hc) as (z & Hin & Hcz).
  apply list_elem_of_In, elem_of_seqZ in Hin. unfold UransCycle.has_index in Hcz.
  rewrite (proj2 (isInteger_spec _) (ex_intro _ z Hcz)). cbn [negb orb].
  rewrite (ltb_integer _ _ _ _ Hcz to_integer_0). lia.
Qed.

Lemma filter_suffix {A} (f : A -> bool) (pre suf : list A) :
  Forall (fun x => f x = false) pre -> Forall (fun x => f x = true) suf ->
  List.filter f (pre ++ suf) = suf.
Proof.
  intros Hp Hs. rewrite List.filter_app. replace (List.filter f pre) with (@nil A).
  { by apply filter_all. }
  symmetry. induction Hp as [|x l Hx _ IH]; cbn; [done|]. by rewrite Hx.
Qed.

Lemma is_selected_spec (c : UransCycle.UransCycleCertificateCycle) :
  is_selected c = true <-> UransCycle.disposition c = UransCycle.selected.
Proof. unfold is_selected. apply bool_decide_eq_true. Qed.

Lemma existsb_map {A B} (f : A -> B) (p : B -> bool) (l : list A) :
  existsb p (List.map f l) = existsb (fun x => p (f x)) l.
Proof. induction l as [|x l IH]; cbn; [done|]. by rewrite IH. Qed.

Lemma existsb_all_false {A} (p : A -> bool) (l : list A) :
  Forall (fun x => p x = false) l -> existsb p l = false.
Proof. apply existsb_false. Qed.

Lemma suffix_rows_selectable (pre suf : list UransCycle.UransCycleCertificateCycle) (m : nat) (z0 : Z) :
  (0 <= z0)%Z -> (z0 + Z.of_nat (length (pre ++ suf)) <= 2 ^ 53)%Z ->
  Forall2 UransCycle.has_index (pre ++ suf) (seqZ z0 (Z.of_nat (length (pre ++ suf)))) ->
  Forall (fun x => is_selected x = false) pre -> Forall (fun x => is_selected x = true) suf ->
  Forall (fun x => clean_cycle (UransCycle.cycleQuality x)) suf -> length suf = m ->
  exactPeriodicCycles m (List.map cycleRow (pre ++ suf)) = true.
Proof.
  intros Hz Hlim Hidx Hp Hs Hq Hm. unfold exactPeriodicCycles.
  rewrite (sort_sorted_id _ _ (indexes_sorted _ _ Hidx)). rewrite List.map_map.
  change (fun x => cycleIndex (cycleRow x)) with UransCycle.index.
  rewrite (indexes_nonnegative _ z0 Hz Hidx), (contiguous_indexes _ z0 Hz Hlim Hidx). cbn [orb negb].
  rewrite filter_selected_rows, (filter_suffix _ _ _ Hp Hs), !length_map, Hm, Nat.eqb_refl. cbn [negb].
  rewrite length_app, Hm. replace (length pre + m - m)%nat with (length (List.map cycleRow pre))
    by (rewrite length_map; lia).
  rewrite List.map_app, List.firstn_app, List.skipn_app, Nat.sub_diag, List.firstn_all, List.skipn_all.
  rewrite take_0, drop_0, app_nil_r. cbn [app]. rewrite !existsb_map.
  rewrite !existsb_all_false; cbn [orb].
  - apply forallb_forall. intros r (c & <- & Hc)%in_map_iff. rewrite List.Forall_forall in Hq.
    unfold archiveSelectedCycleQualityReasons. rewrite archiveCycleQuality_row.
    by rewrite (proj2 (selectedCleanCycleQualityReasons_spec _) (Hq c Hc)).
  - forall_impl Hs. intros c Hc. by rewrite cycle_selected_row, Hc.
  - forall_impl Hp. intros c Hc. by rewrite cycle_selected_row.
Qed.

(** Safe indexes end below [2^53]. *)
Lemma index_limit (cs : list UransCycle.UransCycleCertificateCycle) (z0 : Z) :
  cs <> [] -> Forall2 UransCycle.has_index cs (seqZ z0 (Z.of_nat (length cs))) ->
  Forall (fun x => isSafeInteger (UransCycle.index x) = true) cs ->
  (z0 + Z.of_nat (length cs) <= 2 ^ 53)%Z.
Proof.
  intros Hne Hidx Hsafe. destruct (cs !! pred (length cs)) as [c|] eqn:Hl.
  - pose proof (UransCycle.lookup_index _ _ Hidx _ _ Hl) as Hc.
    pose proof (Forall_lookup_1 _ _ _ _ Hsafe Hl) as Hs. cbn beta in Hs.
    apply isSafeInteger_spec in Hs as (a & Ha & Hmax). unfold UransCycle.has_index in Hc.
    rewrite Hc in Ha. injection Ha as <-. destruct cs; [done|]. cbn [length pred] in *. lia.
  - apply lookup_ge_None in Hl. destruct cs; [done|]. cbn [length pred] in Hl. lia.
Qed.

(** The rows of a policy certificate with safe indexes pass the check of the selection. *)
Lemma policy_rows_selectable (fidelity : PointFidelity) (c : UransCycle.UransCycleCertificate) :
  valid c -> policy_certificate fidelity c ->
  Forall (fun x => isSafeInteger (UransCycle.index x) = true) (UransCycle.cycles c) ->
  exists minimum, minimumCleanCyclesFor fidelity = Some minimum /\
    (minimum <= length (UransCycle.cycles c))%nat /\
    exactPeriodicCycles minimum (List.map cycleRow (UransCycle.cycles c)) = true.
Proof.
  intros Hv (m & Hm & _ & _ & Hc & Hn & _ & Hq & _) Hsafe. exists m. split; [done|].
  destruct (UransCycle.certified_publishes c Hv Hc Hsafe) as (pre & suf & _ & _ & _ & E & _ & Hsuf & Hpre & _).
  assert (Hch : UransCycle.chronology UransCycle.initial (UransCycle.cycles c))
    by (unfold valid, UransCycle.valid_certificate in Hv; tauto).
  destruct (UransCycle.chronology_indexes _ Hch Hsafe) as (z0 & Hz0 & Hidx).
  assert (Hp : Forall (fun x => is_selected x = false) pre).
  { forall_impl Hpre. intros x Hx. apply not_true_iff_false'. by rewrite is_selected_spec. }
  assert (Hs : Forall (fun x => is_selected x = true) suf).
  { forall_impl Hsuf. intros x [Hx _]. by apply is_selected_spec. }
  unfold selectedCertificateCycles in Hn, Hq. rewrite E in *. rewrite (filter_suffix _ pre suf Hp Hs) in Hn, Hq.
  split; [rewrite length_app; lia|].
  assert (Hne : pre ++ suf <> []).
  { intros [_ ->]%app_eq_nil. cbn in Hn. destruct fidelity; cbn in Hm; simplify_eq. }
  pose proof (index_limit _ _ Hne Hidx Hsafe). by eapply suffix_rows_selectable.
Qed.

Definition matching_attempt (point : record) (fidelity : PointFidelity) (a : ArchiveSelectionAttempt) : Prop :=
  attempt_status a = "done" /\ attempt_source a = "solved" /\ attempt_error a = None /\
  attempt_regime a = Some "urans" /\ attempt_unsteady a = truthy (get "unsteady" point) /\
  attempt_fidelity a = JStr (fidelity_literal fidelity).

Definition usable_ratio (d : InterpretationDraft) : Prop :=
  exists y r, cd d = Some y /\ (y <= 0)%js = false /\ clCd d = Some r /\ isFinite r = true.

Definition staged_row (id archiveId signature : string) (archive_diagnostics : record)
    (d : InterpretationDraft) : ArchiveSelectionInterpretation :=
  {| interpretation_id := id; interpretation_state := state_label (state d);
     interpretation_source := "archive_backfill"; interpretation_regime := regime_label (regime d);
     sourceArchiveId := Some archiveId; inputEvidenceSignature := signature;
     interpretation_cl := cl d; interpretation_cd := cd d; interpretation_cm := cm d;
     interpretation_clCd := clCd d; interpretation_window := selectedWindow d;
     interpretation_statistics := statistics d;
     interpretation_diagnostics := spread (diagnostics d) "archiveBackfill" (JObj archive_diagnostics) |}.

Lemma staged_coefficients id archiveId signature diag (d : InterpretationDraft) (x y z : jsnum) :
  coefficients d x y z -> usable_ratio d ->
  isFinite x = true -> isFinite y = true -> isFinite z = true ->
  exactPositiveCoefficientSet (staged_row id archiveId signature diag d) = true.
Proof.
  intros (E1 & E2 & E3 & E4) (y' & r & E5 & Hy & E6 & Hr) Fx Fy Fz.
  rewrite E2 in E5. rewrite E4 in E6. injection E5 as <-. injection E6 as <-.
  unfold exactPositiveCoefficientSet, staged_row.
  cbn [interpretation_cl interpretation_cd interpretation_cm interpretation_clCd].
  rewrite E1, E2, E3, E4, Fx, Fy, Fz, Hr, Hy. cbn [andb negb]. by apply sameCertifiedMean_refl.
Qed.

Lemma staged_steady id archiveId signature diag attempt (c : NoShedding.NoSheddingCertificate) (v : jsval) :
  represents c v -> valid c -> attempt_unsteady attempt = false -> attempt_regime attempt = Some "urans" ->
  is_true (get "unsteadyEvidence" diag) = true ->
  isExactArchiveSteadyEquivalent (staged_row id archiveId signature diag (steadyEquivalentDraft v)) attempt [] = true.
Proof.
  intros Hr Hv Hu Hg He. unfold isExactArchiveSteadyEquivalent.
  change (get "archiveBackfill" _) with (JObj diag). cbn [asRecord]. rewrite Hu, Hg, He.
  change (interpretation_regime _) with "steady_equivalent". cbn [is_label String.eqb Ascii.eqb Bool.eqb negb orb andb length Nat.eqb].
  unfold archiveNoSheddingCertificate. change (get "noSheddingCertificate" _) with v.
  assert (Hp : NoShedding.parseNoSheddingCertificate v = Parsed v).
  { assert (Ha : accepted (NoShedding.parseNoSheddingCertificate v) = true)
      by (apply NoShedding.noShedding_accepted; by exists c).
    destruct (NoShedding.parseNoSheddingCertificate v) eqn:E; [|done].
    by apply noShedding_parsed in E as [-> _]. }
  rewrite Hp, (noShedding_of_repr c v Hr).
  assert (Hver : prop "reducer_version" v = JStr NoShedding.NO_SHEDDING_CERTIFICATE_VERSION)
    by (destruct Hr as (o & -> & _ & Hver & _); exact Hver).
  unfold valid, NoShedding.valid_certificate, NoShedding.positive, NoShedding.nonnegative,
    NoShedding.sample_count, NoShedding.steady_channel, NoShedding.nonnegative in Hv.
  destruct_and! Hv. int_finite.
  apply andb_true_iff. split.
  - unfold exactNoSheddingWindow, staged_row, steadyEquivalentDraft.
    cbn [interpretation_window selectedWindow get String.eqb Ascii.eqb Bool.eqb].
    rewrite (noShedding_of_repr c v Hr), Hver. cbn [finite is_str].
    rewrite !same_mean_refl by done. cbn [strict_eq_num]. rewrite !eqb_self by done.
    repeat match goal with H : isFinite _ = true |- _ => rewrite H; clear H end. done.
  - unfold exactNoSheddingStatistics, staged_row, steadyEquivalentDraft, channelMatches, mean_rms, same_coefficient.
    cbn [interpretation_statistics statistics interpretation_cl interpretation_cd interpretation_cm
         cl cd cm get String.eqb Ascii.eqb Bool.eqb asRecord finite].
    rewrite (noShedding_of_repr c v Hr). rewrite !same_mean_refl by done.
    rewrite !sameCertifiedMean_refl by done.
    repeat match goal with H : isFinite _ = true |- _ => rewrite H; clear H end. done.
Qed.

Lemma staged_guard id archiveId signature diag (d : InterpretationDraft) archive attempt point fidelity rows :
  state d = accepted_state -> hex_string 64 signature = true -> matches UUID_TEXT id = true ->
  matches UUID_TEXT archiveId = true -> hasVerifiedCurrentGcsArchive archive archiveId = true ->
  matching_attempt point fidelity attempt ->
  exactPositiveCoefficientSet (staged_row id archiveId signature diag d) = true ->
  canSelectAcceptedArchiveInterpretation (staged_row id archiveId signature diag d) archiveId archive attempt rows =
    match minimumCleanCyclesFor fidelity with
    | None => false
    | Some required =>
        isExactArchiveSteadyEquivalent (staged_row id archiveId signature diag d) attempt rows ||
        (String.eqb (regime_label (regime d)) "periodic" && truthy (get "unsteady" point) &&
         negb (Nat.ltb (length rows) required) && exactPeriodicCycles required rows)
    end.
Proof.
  intros Hs Hsig Hid Haid Hv (A1 & A2 & A3 & A4 & A5 & A6) Hc.
  unfold canSelectAcceptedArchiveInterpretation. rewrite Hc, Hv, A1, A2, A3, A4, A5, A6.
  cbn [staged_row interpretation_state interpretation_source interpretation_id sourceArchiveId
       inputEvidenceSignature interpretation_regime is_label].
  rewrite Hs, Hsig, Hid, Haid, !String.eqb_refl.
  change (String.eqb (state_label accepted_state) "accepted") with true. cbn [negb orb].
  replace (archiveFidelityCleanCycleRequirement (JStr (fidelity_literal fidelity)))
    with (minimumCleanCyclesFor fidelity) by by destruct fidelity.
  destruct (minimumCleanCyclesFor fidelity) as [r|]; [|done].
  destruct (isExactArchiveSteadyEquivalent _ _ _); [done|].
  destruct (String.eqb (regime_label _) _), (truthy _), (Nat.ltb _ r); done.
Qed.

(** The evidence an archive reduction of the point needs beside the proof: the URANS
    marker of the manifest for a steady equivalent, and safe cycle indexes. *)
Definition archive_evidence (point : record) (fidelity : PointFidelity) (diag : record) : Prop :=
  let '(d, certificate) := draftResultInterpretationForPoint point fidelity in
  (regime d = steady_equivalent -> is_true (get "unsteadyEvidence" diag) = true) /\
  match certificate with
  | Some c => Forall (fun x => isSafeInteger (UransCycle.index x) = true) (UransCycle.cycles c)
  | None => True
  end.

Lemma staged_shape id archiveId signature point fidelity diag i rows :
  stageArchiveResultInterpretation id archiveId signature point fidelity diag = Ok (i, rows) ->
  hex_string 64 signature = true /\
  let '(d, certificate) := draftResultInterpretationForPoint point fidelity in
  i = staged_row id archiveId signature diag (effectiveDraft diag d) /\
  rows = match certificate with Some c => List.map cycleRow (UransCycle.cycles c) | None => [] end.
Proof.
  unfold stageArchiveResultInterpretation. destruct (hex_string 64 signature); [|done].
  destruct (nonempty archiveId); [|done]. cbn [negb].
  destruct (draftResultInterpretationForPoint point fidelity) as [d c]. by intros [= <- <-].
Qed.

(** Reducer and selector agree.  A URANS point whose draft is accepted, staged from a
    verified archive beside its solved attempt, is selected, unless the archive reducer
    declares its recovery exhausted, and then it is not. *)
Theorem staged_archive_selectable id archiveId signature point fidelity diag archive attempt i rows :
  stageArchiveResultInterpretation id archiveId signature point fidelity diag = Ok (i, rows) ->
  state (fst (draftResultInterpretationForPoint point fidelity)) = accepted_state ->
  fidelity <> Rans -> usable_ratio (fst (draftResultInterpretationForPoint point fidelity)) ->
  archive_evidence point fidelity diag ->
  matches UUID_TEXT id = true -> matches UUID_TEXT archiveId = true ->
  hasVerifiedCurrentGcsArchive archive archiveId = true -> matching_attempt point fidelity attempt ->
  canSelectAcceptedArchiveInterpretation i archiveId archive attempt rows =
    negb (is_str (get "recoveryState" diag) "exhausted").
Proof.
  intros (Hsig & Hst)%staged_shape Hacc Hf Hu Hev Hid Haid Hv Ha.
  pose proof (accepted_routes point fidelity Hacc) as Hroute. unfold archive_evidence in Hev.
  destruct (draftResultInterpretationForPoint point fidelity) as [d certificate]. cbn [fst] in *.
  destruct Hst as [-> ->]. unfold effectiveDraft.
  destruct (is_str (get "recoveryState" diag) "exhausted"); [done|]. cbn [negb].
  destruct Hev as [Hmark Hsafe].
  destruct Hroute as [(_ & Hr & _)|[(-> & Hs & -> & Ho)|(Hreg & Hfid & Hun & _ & Hp)]]; [done|..].
  - destruct Ho as (c & Hr & Hc & Hco & _). destruct Hs as (Hfid & Hun & _).
    assert (Hfin : isFinite (NoShedding.cl_mean c) = true /\ isFinite (NoShedding.cd_mean c) = true /\
      isFinite (NoShedding.cm_mean c) = true).
    { unfold valid, NoShedding.valid_certificate, NoShedding.steady_channel in Hc. tauto. }
    destruct Hfin as (F1 & F2 & F3). pose proof Ha as (_ & _ & _ & Hreg & Huns & _).
    rewrite Hun in Huns. erewrite staged_guard; [|done..|by eapply staged_coefficients].
    rewrite (staged_steady _ _ _ _ _ c) by auto. by destruct fidelity.
  - destruct Hp as (c & x & y & z & -> & Hr & Hc & Hpol & _ & _ & _ & F1 & F2 & F3 & _ & Hco & _).
    destruct (policy_rows_selectable fidelity c Hc Hpol Hsafe) as (m & Hm & Hlen & Hrows).
    erewrite staged_guard; [|done..|by eapply staged_coefficients].
    rewrite Hm, Hreg, Hun, Hrows, length_map, (proj2 (Nat.ltb_ge _ _) Hlen). cbn. by rewrite orb_true_r.
Qed.

(** ** Selections do not retarget *)

(** C7. A selection never retargets newer work.  Whatever row the update meets, it changes
    it only when the pointers are those that were read and the current attempt is the
    selected one, or the result is still failed and without any pointer; the row then
    points to the interpretation, which the policy accepts, and otherwise it is left as
    it was met. *)
Theorem selection_never_retargets attemptId sourceArchive selectionId interpretation read attempt
    archive rows now o after :
  selectAcceptedArchiveInterpretation attemptId sourceArchive selectionId interpretation read attempt
    archive rows now = (o, after) ->
  (o <> outcome_selected /\ after = now) \/
  (o = outcome_selected /\
   exists i r a, interpretation = Some i /\ read = Some r /\ attempt = Some a /\
     canSelectAcceptedArchiveInterpretation i sourceArchive archive (attempt_row a) rows = true /\
     same_cell (attempt_cell a) (cell r) = true /\
     currentInterpretationId now = currentInterpretationId r /\
     currentCanonicalSelectionId now = currentCanonicalSelectionId r /\
     (currentAttemptId now = Some attemptId \/
      (currentAttemptId now = None /\ row_status now = "failed" /\
       row_simJobId now = attempt_simJobId a /\ currentAttemptId r = None /\
       currentInterpretationId r = None /\ currentCanonicalSelectionId r = None)) /\
     currentInterpretationId after = Some (interpretation_id i) /\
     currentCanonicalSelectionId after = Some selectionId /\ cell after = cell now).
Proof.
  unfold selectAcceptedArchiveInterpretation, selectionDecision.
  destruct interpretation as [i|]; [|intros [= <- <-]; by left].
  destruct read as [r|]; [|intros [= <- <-]; by left].
  destruct (is_label (currentInterpretationId r) _ && _); [intros [= <- <-]; by left|].
  destruct attempt as [a|]; [|intros [= <- <-]; by left].
  destruct (negb _ || negb _) eqn:E1; [intros [= <- <-]; by left|].
  set (promotes := archiveAttemptMayPromotePointerlessResult _ _ _ _ _ _).
  destruct (negb _ && negb _) eqn:E2; [intros [= <- <-]; by left|].
  destruct (unchanged _ _ _ _ _) eqn:E3; [|intros [= <- <-]; by left].
  intros [= <- <-]. right. split; [done|]. exists i, r, a. breflect. destruct E1 as [E1 E1'].
  unfold unchanged in E3. apply andb_true_iff in E3 as [[E3 E4]%andb_true_iff E5].
  apply bool_decide_eq_true in E4, E5. split_and!; try done.
  destruct promotes eqn:Ep; [|left; by apply label_spec].
  unfold promotes, archiveAttemptMayPromotePointerlessResult in Ep.
  rewrite !andb_true_iff, !bool_decide_eq_true, String.eqb_eq in E3.
  rewrite !andb_true_iff, !bool_decide_eq_true, String.eqb_eq in Ep.
  destruct E3 as [[? ?] ?], Ep as [[[[? ?] ?] ?] ?]. right. by split_and!.
Qed.

(** Only a steady hold is published at once.  When the live path may select the
    engine's own interpretation of a point, the fidelity is RANS and the point carries a
    valid hold certificate whose means it publishes: no URANS reduction is published
    before its archive is verified. *)
Theorem immediate_selection_is_hold (point : record) (fidelity : PointFidelity) (source : string) :
  let d := fst (draftResultInterpretationForPoint point fidelity) in
  canSelectImmediateEngineInterpretation (state_label (state d)) source (regime_label (regime d)) = true ->
  source = "engine_reported" /\ fidelity = Rans /\ hold_proved point d.
Proof.
  intros d. unfold canSelectImmediateEngineInterpretation.
  intros [[Hs Hsrc%String.eqb_eq]%andb_true_iff Hr]%andb_true_iff.
  assert (Hacc : state d = accepted_state) by (destruct (state d); first [reflexivity|discriminate Hs]).
  pose proof (accepted_routes point fidelity Hacc) as Hroute. unfold d in *.
  destruct (draftResultInterpretationForPoint point fidelity) as [d' certificate]. cbn [fst] in *.
  destruct Hroute as [(_ & Hf & _ & Hh)|[(-> & _)|(Hreg & _)]]; [done|discriminate Hr|].
  rewrite Hreg in Hr. discriminate Hr.
Qed.

(** ** Concrete points *)
Module Examples.
Definition num_fields (l : list (string * jsnum)) : record := List.map (fun e => (fst e, JNum (snd e))) l.

Definition hold_point : record :=
  [("unsteady", JBool false); ("converged", JBool true);
   ("rans_hold_certificate", RansHold.sample_certificate)] ++
  num_fields [("cl", 0.5); ("cd", 0.5); ("cm", -0.5)]%float.

Definition no_shedding_certificate : jsval :=
  JObj ([("reducer_version", JStr "no-shedding-v1"); ("certified", JBool true)] ++
    num_fields [("required_observation_s", 4); ("observation_start_time", 0);
      ("observation_end_time", 4.75); ("observed_observation_s", 4.75); ("source_sample_count", 40);
      ("transport_sample_count", 20); ("relative_tolerance", 0.01); ("absolute_floor", 0.001);
      ("cl_mean", 0.5); ("cd_mean", 0.125); ("cm_mean", -0.25); ("cl_rms", 0); ("cd_rms", 0);
      ("cm_rms", 0); ("transport_cl_mean", 0.5); ("transport_cd_mean", 0.125);
      ("transport_cm_mean", -0.25); ("transport_cl_rms", 0); ("transport_cd_rms", 0);
      ("transport_cm_rms", 0)]%float).

Definition flat (x : jsnum) : jsval := JArr (repeat (JNum x) 20).

Definition steady_point : record :=
  [("unsteady", JBool false); ("converged", JBool true); ("frame_track", JNull);
   ("urans_cycle_certificate", JNull); ("no_shedding_certificate", no_shedding_certificate);
   ("force_history",
     JObj [("t", JArr (List.map (fun n => JNum (of_nat n * 0.25)%float) (seq 0 20)));
           ("cl", flat 0.5); ("cd", flat 0.125); ("cm", flat (-0.25))])] ++
  num_fields [("cl", 0.5); ("cd", 0.125); ("cm", -0.25)]%float.

Definition cycle_certificate : jsval :=
  JObj [("reducer_version", JStr "clean-cycle-v3"); ("period_s", JNum 0.5);
        ("phase_samples", JNum 64); ("required_clean_cycles", JNum 3);
        ("terminal_clean_cycles", JNum 3); ("selected_cycle_start_index", JNum 4);
        ("certified", JBool true); ("cadence_adjusted", JBool false);
        ("cycles", JArr [UransCycle.sample_cycle 3 0 0.5 "startup";
                         UransCycle.sample_cycle 4 0.5 1 "selected";
                         UransCycle.sample_cycle 5 1 1.5 "selected";
                         UransCycle.sample_cycle 6 1.5 2 "selected"])]%float.

Definition periodic_point : record :=
  [("unsteady", JBool true); ("converged", JBool true); ("urans_cycle_certificate", cycle_certificate)] ++
  num_fields [("cl", 0.5); ("cd", 0.125); ("cm", -0.25)]%float.

Definition id : string := "00000000-0000-4000-8000-000000000001".
Definition archiveId : string := "00000000-0000-4000-8000-00000000000A".
Definition signature : string := String.concat "" (repeat "0" 64).

Definition archive : ArchiveSelectionArchive :=
  {| archive_id := archiveId; archive_state := "current"; backend := "gcs"; compression := "zstd";
     mimeType := "application/zstd"; bucket := Some "evidence"; generation := Some "17";
     verifiedAt := Some 1e12%float |}.

Definition attempt_of (unsteady : bool) : ArchiveSelectionAttempt :=
  {| attempt_status := "done"; attempt_source := "solved"; attempt_regime := Some "urans";
     attempt_unsteady := unsteady; attempt_error := None; attempt_fidelity := JStr "urans_precalc" |}.

Definition manifest : record := [("unsteadyEvidence", JBool true)].

Definition staged (point : record) (diag : record) :
    ArchiveSelectionInterpretation * list ArchiveSelectionCycle :=
  match stageArchiveResultInterpretation id archiveId signature point UransPrecalc diag with
  | Ok r => r
  | Throw _ => (staged_row "" "" "" [] (legacyDraft [] ""), [])
  end.

Example drafts_ok :
  state (fst (draftResultInterpretationForPoint hold_point Rans)) = accepted_state /\
  state (fst (draftResultInterpretationForPoint steady_point UransPrecalc)) = accepted_state /\
  state (fst (draftResultInterpretationForPoint periodic_point UransPrecalc)) = accepted_state /\
  state (fst (draftResultInterpretationForPoint periodic_point UransFull)) = terminal_failure /\
  length (snd (staged periodic_point manifest)) = 4%nat.
Proof. split_and!; vm_compute; reflexivity. Qed.

(** The same certificate beside other coefficients: both drafts are accepted, and each
    publishes its point's own lift. *)
Definition other_periodic_point : record :=
  [("unsteady", JBool true); ("converged", JBool true); ("urans_cycle_certificate", cycle_certificate)] ++
  num_fields [("cl", 7); ("cd", 0.125); ("cm", -0.25)]%float.

Example periodic_not_compared :
  let draft point := fst (draftResultInterpretationForPoint point UransPrecalc) in
  get "urans_cycle_certificate" other_periodic_point = get "urans_cycle_certificate" periodic_point /\
  state (draft periodic_point) = accepted_state /\ cl (draft periodic_point) = Some 0.5%float /\
  state (draft other_periodic_point) = accepted_state /\ cl (draft other_periodic_point) = Some 7%float.
Proof. split_and!; vm_compute; reflexivity. Qed.
End Examples.

(** The stamped policy asks for 200 samples of the final window; the reducer accepts a
    hold of 50. *)
Lemma hold_below_policy :
  state (fst (draftResultInterpretationForPoint Examples.hold_point Rans)) = accepted_state /\
  RansHold.sample_count (ransHold_of (get "rans_hold_certificate" Examples.hold_point)) = 50%float.
Proof. split; vm_compute; reflexivity. Qed.

Lemma accepted_draft_certified_witness :
  exists c, periodic_proved Examples.periodic_point UransPrecalc
    (fst (draftResultInterpretationForPoint Examples.periodic_point UransPrecalc)) (Some c).
Proof.
  assert (H : state (fst (draftResultInterpretationForPoint Examples.periodic_point UransPrecalc)) =
    accepted_state) by (vm_compute; reflexivity).
  pose proof (accepted_draft_certified Examples.periodic_point UransPrecalc H) as Hr.
  destruct (draftResultInterpretationForPoint Examples.periodic_point UransPrecalc) as [d certificate] eqn:E.
  cbn [fst]. destruct Hr as [(_ & Hf & _)|[(_ & (_ & Hu & _) & _)|(_ & _ & _ & _ & Hp)]];
    [discriminate Hf|discriminate Hu|].
  destruct certificate as [c|]; [by exists c|]. by destruct Hp as (c & x & y & z & Hc & _).
Defined.

Lemma archive_selection_sound_witness :
  clean_suffix 3 (snd (Examples.staged Examples.periodic_point Examples.manifest)).
Proof.
  assert (H : canSelectAcceptedArchiveInterpretation
    (fst (Examples.staged Examples.periodic_point Examples.manifest)) Examples.archiveId
    (Some Examples.archive) (Examples.attempt_of true)
    (snd (Examples.staged Examples.periodic_point Examples.manifest)) = true) by (vm_compute; reflexivity).
  destruct (archive_selection_sound _ _ _ _ _ H) as (_ & r & Hr & [(_ & Hu & _)|(_ & _ & _ & Hs)]);
    [discriminate Hu|]. vm_compute in Hr. injection Hr as <-. exact Hs.
Defined.

Lemma staged_archive_selectable_witness :
  canSelectAcceptedArchiveInterpretation
    (fst (Examples.staged Examples.steady_point Examples.manifest)) Examples.archiveId
    (Some Examples.archive) (Examples.attempt_of false)
    (snd (Examples.staged Examples.steady_point Examples.manifest)) = true.
Proof.
  refine (staged_archive_selectable Examples.id Examples.archiveId Examples.signature
    Examples.steady_point UransPrecalc Examples.manifest (Some Examples.archive)
    (Examples.attempt_of false) _ _ _ _ _ _ _ _ _ _ _); try (vm_compute; reflexivity).
  - discriminate.
  - exists 0.125%float, 4%float. split_and!; vm_compute; reflexivity.
  - vm_compute. by split.
  - split_and!; vm_compute; reflexivity.
Defined.

Definition example_row : ResultRow :=
  {| cell := ("a", "b", "r", 2%float); currentAttemptId := None; currentInterpretationId := None;
     currentCanonicalSelectionId := None; row_status := "failed"; row_simJobId := Some "job";
     row_cl := None; row_cd := None; row_cm := None; row_clCd := None |}.

Definition example_attempt : AttemptRow :=
  {| attempt_id := "attempt"; attempt_cell := ("a", "b", "r", 2%float);
     attempt_simJobId := Some "job"; attempt_row := Examples.attempt_of true |}.

Definition example_staged : ArchiveSelectionInterpretation * list ArchiveSelectionCycle :=
  Eval vm_compute in Examples.staged Examples.periodic_point Examples.manifest.

Lemma selection_never_retargets_witness :
  same_cell (attempt_cell example_attempt) (cell example_row) = true /\
  currentInterpretationId (projected "selection" (fst example_staged) example_attempt true example_row) =
    Some Examples.id.
Proof.
  assert (H : selectAcceptedArchiveInterpretation "attempt" Examples.archiveId "selection"
      (Some (fst example_staged)) (Some example_row) (Some example_attempt) (Some Examples.archive)
      (snd example_staged) example_row =
    (outcome_selected, projected "selection" (fst example_staged) example_attempt true example_row))
    by (vm_compute; reflexivity).
  destruct (selection_never_retargets _ _ _ _ _ _ _ _ _ _ _ H) as [[Hn _]|(_ & i & r & a & Hi & Hr & Ha & Hrest)];
    [by destruct Hn|].
  injection Hi as <-. injection Hr as <-. injection Ha as <-.
  destruct Hrest as (_ & Hc & _ & _ & _ & Hcur & _). split; [exact Hc|exact Hcur].
Defined.

Lemma immediate_selection_is_hold_witness :
  hold_proved Examples.hold_point (fst (draftResultInterpretationForPoint Examples.hold_point Rans)).
Proof.
  refine (proj2 (proj2 (immediate_selection_is_hold Examples.hold_point Rans "engine_reported" _))).
  vm_compute; reflexivity.
Defined.
