(* ===== verification/PolarCompatibility.v ===== *)
(** * One polar from compatible results

    From [packages/db/src/polar-compatibility-cache.ts]: the quality gate of a result,
    its rank, the choice of one result per angle among the repeated solves of compatible
    revisions, and the evidence that [refreshPolarCompatibilityCache] hands to the fit;
    from [packages/core/src/symmetry.ts] the mirrored evidence of symmetric airfoils.

    Dates are their milliseconds. The host's collation is a parameter. The SQL reads
    and writes of the refresh, the fit itself and its signature are not modelled. *)

From Stdlib Require Import ZArith Lia Bool Ascii String Permutation Sorted.
From Stdlib Require Import Floats.
From stdpp Require Import base list sorting strings option numbers.
From S2P Require Import Prelude JsNumber JsString JsValue JsArray JsGroup Lifecycle EvidenceGate Classifier CanonicalJson Canonical SetupIdentity.

Local Open Scope string_scope.
Local Open Scope list_scope.
Local Open Scope result_scope.

Definition POLAR_COMPATIBILITY_VERSION : string := "polar-compat-v6".

Inductive PolarCompatibilityMemberRole := Selected | Shadowed | Conflict.

#[export] Instance role_eq_dec : EqDecision PolarCompatibilityMemberRole.
Proof. solve_decision. Defined.

Definition polarCompatibilitySeriesId (compatibilityHash : string) : string :=
  POLAR_COMPATIBILITY_VERSION +:+ ":" +:+ compatibilityHash.

(** ** Hashes of a stored revision *)

Section StoredHashes.
Context (localeCompare : string -> string -> jsnum) (sha256 : string -> string).

(** [try { ... } catch { return null; }] *)
Definition or_null {A} (r : result A) : option A := match r with Ok x => Some x | Throw _ => None end.

Definition physicsHashFromStoredSnapshot (s : SimulationSetupSnapshot) : option string :=
  or_null (physicsHashForSnapshot localeCompare sha256 s).

Definition LEGACY_UNKNOWN_SOLVER_IMPLEMENTATION_ID : string := "2f8bc764-09ae-4ff3-8fd2-000000000000".

Definition methodCompatibilityHashFromStoredSnapshot (s : SimulationSetupSnapshot)
    (solverImplementationId : string) : option string :=
  let snapshotImplementationId :=
    match engine s with Some e => get "implementationId" e | None => JUndef end in
  if negb (nullish snapshotImplementationId) && negb (is_str snapshotImplementationId solverImplementationId)
  then None
  else if nullish snapshotImplementationId
          && negb (String.eqb solverImplementationId LEGACY_UNKNOWN_SOLVER_IMPLEMENTATION_ID)
  then None
  else or_null (methodCompatibilityHashForSnapshot localeCompare sha256 s).
End StoredHashes.

(** ** Rows and their gate *)

Record CompatibilityEvidenceRow := {
  resultId : string;
  resultAttemptId : string;
  simulationPresetRevisionId : string;
  aoaDeg : jsnum;
  state : ResultClassificationState;
  region : ResultClassificationRegion;
  reasons : list string;
  confidence : jsnum;
  regime : option ResultRegime;
  fidelity : option string;
  cl : option jsnum;
  cd : option jsnum;
  cm : option jsnum;
  clCd : option jsnum;
  clStd : option jsnum;
  cdStd : option jsnum;
  cmStd : option jsnum;
  status : string;
  source : string;
  converged : bool;
  stalled : bool;
  unsteady : bool;
  error : option string;
  finalResidual : option jsnum;
  iterations : option jsnum;
  firstOrderFallback : bool;
  resultUpdatedAt : jsnum;
  solvedAt : option jsnum;
  qualityWarnings : option (list string);
}.

Definition compatibilityClassificationWithQualityGate (row : CompatibilityEvidenceRow)
    (sourceGeometryCompatible : option bool) :
    ResultClassificationState * ResultClassificationRegion * list string :=
  if flag_is sourceGeometryCompatible false then
    (rejected, unknown, dedup_strings (reasons row ++ ["unverified-source-geometry"]))
  else
    let incompleteUrans :=
      bool_decide (regime row = Some urans) && hasIncompleteUransIntegrationWarning (qualityWarnings row) in
    if incompleteUrans
    then (rejected, unknown, dedup_strings (reasons row ++ [INCOMPLETE_URANS_INTEGRATION_REASON]))
    else (state row, region row, reasons row).

(** [{ ...row, simulationPresetRevisionId, ...gated }] *)
Definition gatedRow (row : CompatibilityEvidenceRow) (revision : string)
    (gated : ResultClassificationState * ResultClassificationRegion * list string) :
    CompatibilityEvidenceRow :=
  {| resultId := resultId row; resultAttemptId := resultAttemptId row;
     simulationPresetRevisionId := revision; aoaDeg := aoaDeg row;
     state := fst (fst gated); region := snd (fst gated); reasons := snd gated;
     confidence := confidence row; regime := regime row; fidelity := fidelity row;
     cl := cl row; cd := cd row; cm := cm row; clCd := clCd row; clStd := clStd row;
     cdStd := cdStd row; cmStd := cmStd row; status := status row; source := source row;
     converged := converged row; stalled := stalled row; unsteady := unsteady row;
     error := error row; finalResidual := finalResidual row; iterations := iterations row;
     firstOrderFallback := firstOrderFallback row; resultUpdatedAt := resultUpdatedAt row;
     solvedAt := solvedAt row; qualityWarnings := qualityWarnings row |}.

(** ** Candidates *)

(** A row whose coefficients are present, with its rank. *)
Record CompatibilityCandidate := {
  row : CompatibilityEvidenceRow;
  candidate_cl : jsnum;
  candidate_cd : jsnum;
  selectionRank : jsnum;
}.

Record CompatibilityMember := {
  member : CompatibilityCandidate;
  role : PolarCompatibilityMemberRole;
  selectionReason : string;
}.

Definition polarCompatibilitySelectionRank (r : CompatibilityEvidenceRow) : jsnum :=
  let classification := match state r with accepted => 200 | needs_urans => 100 | _ => 0 end%float in
  let named (s : string) := bool_decide (fidelity r = Some s) in
  let fidelity_ :=
    if named "urans_full" then 30%float
    else if named "urans_precalc" then 20%float
    else if named "rans" || bool_decide (regime r = Some rans) then 10%float
    else if bool_decide (regime r = Some urans) then 20%float else 0%float in
  (classification + fidelity_)%float.

Definition asCandidate (r : CompatibilityEvidenceRow) : option CompatibilityCandidate :=
  if negb (bool_decide (state r = accepted)) && negb (bool_decide (state r = needs_urans)) then None
  else
    match cl r, cd r with
    | Some x, Some y =>
        if negb (isFinite x) || negb (isFinite y) || (y <= 0)%js then None
        else Some {| row := r; candidate_cl := x; candidate_cd := y;
                     selectionRank := polarCompatibilitySelectionRank r |}
    | _, _ => None
    end.

Definition withinRepeatability (a b absoluteTolerance relativeTolerance : jsnum) : bool :=
  (PrimFloat.abs (a - b) <=
   Math_max absoluteTolerance (relativeTolerance * Math_max (PrimFloat.abs a) (PrimFloat.abs b)))%js.

Definition repeatMeasurementsAgree (a b : CompatibilityCandidate) : bool :=
  let cmAgrees :=
    match cm (row a), cm (row b) with
    | Some x, Some y => withinRepeatability x y 0.01%float 0.05%float
    | _, _ => true
    end in
  withinRepeatability (candidate_cl a) (candidate_cl b) 0.02%float 0.03%float
  && withinRepeatability (candidate_cd a) (candidate_cd b) 0.002%float 0.05%float && cmAgrees.

(** ** One result per angle *)

Record Resolution := {
  members : list CompatibilityMember;
  selected : list CompatibilityCandidate;
  conflictAoas : list jsnum;
}.

Definition as_member (r : PolarCompatibilityMemberRole) (reason : string) (c : CompatibilityCandidate) :
    CompatibilityMember := {| member := c; role := r; selectionReason := reason |}.

Section Resolve.
Context (localeCompare : string -> string -> jsnum).

Definition deterministicCandidateOrder (a b : CompatibilityCandidate) : jsnum :=
  let solved := (default 0 (solvedAt (row b)) - default 0 (solvedAt (row a)))%float in
  if negb (solved === 0)%js then solved
  else
    let updated := (resultUpdatedAt (row b) - resultUpdatedAt (row a))%float in
    if negb (updated === 0)%js then updated
    else localeCompare (resultId (row a)) (resultId (row b)).

Definition maxRank (bucket : list CompatibilityCandidate) : jsnum :=
  Math_max_all (List.map selectionRank bucket).

Definition topOf (bucket : list CompatibilityCandidate) : list CompatibilityCandidate :=
  sort deterministicCandidateOrder
    (List.filter (fun c => (selectionRank c === maxRank bucket)%js) bucket).

Definition lowerOf (bucket : list CompatibilityCandidate) : list CompatibilityCandidate :=
  List.filter (fun c => negb (selectionRank c === maxRank bucket)%js) bucket.

(** The equal-ranked candidates disagree. *)
Definition conflicting (bucket : list CompatibilityCandidate) : bool :=
  match topOf bucket with
  | winner :: rest => Nat.ltb 1 (length (topOf bucket))
                      && negb (forallb (repeatMeasurementsAgree winner) (topOf bucket))
  | [] => false
  end.

(** The members of one angle, and its winner. Ranks are numbers, so that some candidate
    has the largest one. *)
Definition bucketMembers (bucket : list CompatibilityCandidate) : list CompatibilityMember :=
  if conflicting bucket then
    List.map (as_member Conflict
      "equal-ranked compatible evidence has differing coefficients; angle excluded from aggregate fit")
      (topOf bucket)
    ++ List.map (as_member Shadowed "lower-ranked evidence at a conflicting angle") (lowerOf bucket)
  else
    match topOf bucket with
    | winner :: rest =>
        as_member Selected
          (if Nat.ltb 1 (length (topOf bucket))
           then "deterministic winner among repeatable top-ranked evidence"
           else "highest-ranked compatible evidence") winner
        :: List.map (as_member Shadowed "repeat measurement agrees with selected top-ranked evidence") rest
    | [] => []
    end
    ++ List.map (as_member Shadowed "lower-ranked compatible evidence") (lowerOf bucket).

Definition winnerOf (bucket : list CompatibilityCandidate) : list CompatibilityCandidate :=
  if conflicting bucket then [] else take 1 (topOf bucket).

Definition keyed (candidates : list CompatibilityCandidate) : result (list (jsnum * CompatibilityCandidate)) :=
  result_map (fun c => let* aoa := canonicalAoa (aoaDeg (row c)) in Ok (aoa, c)) candidates.

Definition resolvePolarCompatibilityMembers (candidates : list CompatibilityCandidate) : result Resolution :=
  let* pairs := keyed candidates in
  let byAoa := sortedEntries pairs in
  Ok {| members := List.flat_map (fun e => bucketMembers (snd e)) byAoa;
        selected := List.flat_map (fun e => winnerOf (snd e)) byAoa;
        conflictAoas := List.map fst (List.filter (fun e => conflicting (snd e)) byAoa) |}.
End Resolve.

(** ** The evidence of a refresh *)

(** An object of the classifier, with its evidence. *)
Record Classification := {
  evidence_id : string;
  evidence : PolarEvidencePoint;
  evidence_state : ResultClassificationState;
  evidence_region : ResultClassificationRegion;
  evidence_confidence : jsnum;
  evidence_reasons : list string;
}.

(** The fields that the evidence does not carry are undefined. *)
Definition asClassification (c : CompatibilityCandidate) : Classification :=
  let r := row c in
  {| evidence_id := resultId r;
     evidence :=
       {| EvidenceGate.a := aoaDeg r; EvidenceGate.cl := Some (candidate_cl c);
          EvidenceGate.cd := Some (candidate_cd c); EvidenceGate.cm := cm r; EvidenceGate.ld := clCd r;
          EvidenceGate.status := status r; EvidenceGate.source := source r;
          EvidenceGate.regime := regime r; EvidenceGate.converged := converged r;
          EvidenceGate.stalled := stalled r; EvidenceGate.unsteady := Some (unsteady r);
          EvidenceGate.error := error r; EvidenceGate.failureDisposition := None;
          EvidenceGate.finalResidual := finalResidual r; EvidenceGate.iterations := iterations r;
          EvidenceGate.sourceGeometryCompatible := None; EvidenceGate.hasForceHistory := None;
          EvidenceGate.hasVideo := None; EvidenceGate.frameTrack := JUndef;
          EvidenceGate.uransCycleCertificate := JUndef; EvidenceGate.noSheddingCertificate := JUndef;
          EvidenceGate.aperiodicMeanCertificate := JUndef; EvidenceGate.ransHoldCertificate := JUndef;
          EvidenceGate.fidelity := fidelity r; EvidenceGate.steadyHistory := JUndef;
          EvidenceGate.qualityWarnings := None; EvidenceGate.selectedArchiveInterpretation := JUndef |};
     evidence_state := state r; evidence_region := region r; evidence_confidence := confidence r;
     evidence_reasons := reasons r |}.

(** [v == null || v === 0 ? v : -v] *)
Definition mirrorValue (v : jsnum) : jsnum := if (v === 0)%js then v else PrimFloat.opp v.

Definition mirrored (c : Classification) : Classification :=
  let e := evidence c in
  {| evidence_id := evidence_id c;
     evidence :=
       {| EvidenceGate.a := PrimFloat.opp (EvidenceGate.a e);
          EvidenceGate.cl := option_map mirrorValue (EvidenceGate.cl e);
          EvidenceGate.cd := EvidenceGate.cd e;
          EvidenceGate.cm := option_map mirrorValue (EvidenceGate.cm e);
          EvidenceGate.ld := option_map mirrorValue (EvidenceGate.ld e);
          EvidenceGate.status := EvidenceGate.status e; EvidenceGate.source := EvidenceGate.source e;
          EvidenceGate.regime := EvidenceGate.regime e; EvidenceGate.converged := EvidenceGate.converged e;
          EvidenceGate.stalled := EvidenceGate.stalled e; EvidenceGate.unsteady := EvidenceGate.unsteady e;
          EvidenceGate.error := EvidenceGate.error e;
          EvidenceGate.failureDisposition := EvidenceGate.failureDisposition e;
          EvidenceGate.finalResidual := EvidenceGate.finalResidual e;
          EvidenceGate.iterations := EvidenceGate.iterations e;
          EvidenceGate.sourceGeometryCompatible := EvidenceGate.sourceGeometryCompatible e;
          EvidenceGate.hasForceHistory := EvidenceGate.hasForceHistory e;
          EvidenceGate.hasVideo := EvidenceGate.hasVideo e; EvidenceGate.frameTrack := EvidenceGate.frameTrack e;
          EvidenceGate.uransCycleCertificate := EvidenceGate.uransCycleCertificate e;
          EvidenceGate.noSheddingCertificate := EvidenceGate.noSheddingCertificate e;
          EvidenceGate.aperiodicMeanCertificate := EvidenceGate.aperiodicMeanCertificate e;
          EvidenceGate.ransHoldCertificate := EvidenceGate.ransHoldCertificate e;
          EvidenceGate.fidelity := EvidenceGate.fidelity e;
          EvidenceGate.steadyHistory := EvidenceGate.steadyHistory e;
          EvidenceGate.qualityWarnings := EvidenceGate.qualityWarnings e;
          EvidenceGate.selectedArchiveInterpretation := EvidenceGate.selectedArchiveInterpretation e |};
     evidence_state := evidence_state c; evidence_region := evidence_region c;
     evidence_confidence := evidence_confidence c; evidence_reasons := evidence_reasons c |}.

(** [derivedFromAoaDeg] of a mirrored object is the angle of the object it mirrors. *)
Definition mirrorClassifiedEvidence (points : list Classification) : list Classification :=
  sort (fun x y => ascending (EvidenceGate.a (evidence x)) (EvidenceGate.a (evidence y)))
    (List.map mirrored
      (List.filter (fun c => negb (EvidenceGate.a (evidence c) <= 0)%js
                             && (bool_decide (evidence_state c = accepted)
                                 || bool_decide (evidence_state c = needs_urans))) points)).

(** A row as joined: its revision may be missing. *)
Record RawRow := { raw_revision : option string; raw_row : CompatibilityEvidenceRow }.

Definition is_excluded (verdict : option string) : bool := bool_decide (verdict = Some "exclude").

(** The rows of the refresh, from the verdict of each result and the geometry of each attempt. *)
Definition gatedRows (verdicts : string -> option string) (geometry : string -> option bool)
    (raws : list RawRow) : list CompatibilityEvidenceRow :=
  omap (fun r =>
    match truthy_string (raw_revision r) with
    | None => None
    | Some revision =>
        if is_excluded (verdicts (resultId (raw_row r))) then None
        else Some (gatedRow (raw_row r) revision
          (compatibilityClassificationWithQualityGate (raw_row r)
             (Some (flag (geometry (resultAttemptId (raw_row r)))))))
    end) raws.

(** The fit's input: the selected evidence, and its mirror images at new angles. *)
Definition withMirrored (symmetric : bool) (fitInput : list Classification) : result (list Classification) :=
  if symmetric then
    let* realAoas := result_map (fun c => canonicalAoa (EvidenceGate.a (evidence c))) fitInput in
    let* fresh := result_map (fun c => let* a := canonicalAoa (EvidenceGate.a (evidence c)) in
                                       Ok (negb (includes (dedup realAoas) a), c))
                    (mirrorClassifiedEvidence fitInput) in
    Ok (fitInput ++ List.map snd (List.filter fst fresh))
  else Ok fitInput.

Record Refresh := {
  rows : list CompatibilityEvidenceRow;
  resolved : Resolution;
  fitInput : list Classification;
  acceptedPointCount : nat;
  provisionalPointCount : nat;
  rejectedPointCount : nat;
  conflictPointCount : nat;
  selectedResultIds : list string;
}.

Definition count_state (p : ResultClassificationState -> bool) (xs : list ResultClassificationState) : nat :=
  length (List.filter p xs).

Definition refreshPolarCompatibilityCache (localeCompare : string -> string -> jsnum)
    (verdicts : string -> option string) (geometry : string -> option bool) (symmetric : bool)
    (rawRows : list RawRow) : result Refresh :=
  let rows_ := gatedRows verdicts geometry rawRows in
  let* resolved_ := resolvePolarCompatibilityMembers localeCompare (omap asCandidate rows_) in
  let* input := withMirrored symmetric (List.map asClassification (selected resolved_)) in
  let states := List.map (fun c => state (row c)) (selected resolved_) in
  Ok {| rows := rows_; resolved := resolved_; fitInput := input;
        acceptedPointCount := count_state (fun s => bool_decide (s = accepted)) states;
        provisionalPointCount := count_state (fun s => bool_decide (s = needs_urans)) states;
        rejectedPointCount := count_state (fun s => bool_decide (s = rejected)
                                || bool_decide (s = superseded_by_urans)) (List.map state rows_);
        conflictPointCount := length (conflictAoas resolved_);
        selectedResultIds := List.map (fun c => resultId (row c)) (selected resolved_) |}.

(** ** The largest rank *)

Lemma max_from_spec (xs : list jsnum) : forall acc,
  isNaN acc = false -> Forall (fun x => isFinite x = true) xs ->
  isNaN (fold_left Math_max xs acc) = false /\ (ord acc <= ord (fold_left Math_max xs acc))%Z /\
  Forall (fun x => (ord x <= ord (fold_left Math_max xs acc))%Z) xs /\
  (ord (fold_left Math_max xs acc) = ord acc \/ In (ord (fold_left Math_max xs acc)) (List.map ord xs)).
Proof.
  induction xs as [|x xs IH]; intros acc Ha Hx; cbn [fold_left].
  - split_and!; [done|lia|constructor|by left].
  - apply Forall_cons_iff in Hx as [Hx Hxs].
    destruct (Math_max_ord acc x Ha (isFinite_not_nan x Hx)) as [Hn Ho].
    destruct (IH (Math_max acc x) Hn Hxs) as (H1 & H2 & H3 & H4). split_and!; [done|lia| |].
    + constructor; [lia|done].
    + destruct H4 as [H4|H4]; [|right; by right]. rewrite H4, Ho.
      destruct (Z.max_spec (ord acc) (ord x)) as [[_ ->]|[_ ->]]; [right; by left|by left].
Qed.

Lemma max_all_spec (xs : list jsnum) :
  xs <> [] -> Forall (fun x => isFinite x = true) xs ->
  isFinite (Math_max_all xs) = true /\ Forall (fun x => (ord x <= ord (Math_max_all xs))%Z) xs /\
  In (ord (Math_max_all xs)) (List.map ord xs).
Proof.
  intros Hne Hf. unfold Math_max_all.
  destruct (max_from_spec xs PrimFloat.neg_infinity eq_refl Hf) as (H1 & H2 & H3 & H4).
  set (m := fold_left Math_max xs PrimFloat.neg_infinity) in *.
  assert (Hin : In (ord m) (List.map ord xs)).
  { destruct H4 as [H4|]; [|done]. destruct xs as [|x xs]; [done|]. exfalso.
    apply Forall_cons_iff in Hf as [Hx _], H3 as [H3 _]. apply isFinite_ord in Hx as [_ Hx].
    change (ord PrimFloat.neg_infinity) with (- inf_ord)%Z in *. lia. }
  split_and!; [|done|done]. apply in_map_iff in Hin as (x & E & Hx).
  rewrite List.Forall_forall in Hf. apply isFinite_ord. rewrite <- E. split; [done|].
  by apply isFinite_ord, Hf.
Qed.

(** Dates and rank of a candidate are numbers. *)
Record candidate_ok (c : CompatibilityCandidate) : Prop := {
  ok_rank : isFinite (selectionRank c) = true;
  ok_solved : isFinite (default 0%float (solvedAt (row c))) = true;
  ok_updated : isFinite (resultUpdatedAt (row c)) = true;
}.

(** Later evidence first, then by identifier. *)
Definition precedes (localeCompare : string -> string -> jsnum) (x y : CompatibilityCandidate) : Prop :=
  let solved c := ord (default 0%float (solvedAt (row c))) in
  let updated c := ord (resultUpdatedAt (row c)) in
  (solved y < solved x)%Z \/
  (solved y = solved x /\ ((updated y < updated x)%Z \/
    (updated y = updated x /\
     PrimFloat.ltb (localeCompare (resultId (row y)) (resultId (row x))) 0 = false))).

Section Order.
Context (localeCompare : string -> string -> jsnum) `{!Collation localeCompare}.

Abbreviation order := (deterministicCandidateOrder localeCompare).

Lemma order_spec (x y : CompatibilityCandidate) :
  candidate_ok x -> candidate_ok y -> PrimFloat.ltb (order y x) 0 = false <-> precedes localeCompare x y.
Proof.
  intros [_ Sx Ux] [_ Sy Uy]. unfold deterministicCandidateOrder, precedes.
  rewrite sub_eqb_0 by done.
  destruct (PrimFloat.eqb (default 0%float (solvedAt (row x))) (default 0%float (solvedAt (row y)))) eqn:E; cbn [negb].
  - apply eqb_finite in E; [|done..]. rewrite E, sub_eqb_0 by done.
    destruct (PrimFloat.eqb (resultUpdatedAt (row x)) (resultUpdatedAt (row y))) eqn:E'; cbn [negb].
    + apply eqb_finite in E'; [|done..]. rewrite E'. split.
      * intros H. right. split; [done|]. right. by split.
      * intros [H|[_ [H|[_ H]]]]; [by apply Z.lt_irrefl in H..|exact H].
    + rewrite sub_ltb_0, ltb_finite_false by done.
      assert (ord (resultUpdatedAt (row x)) <> ord (resultUpdatedAt (row y)))
        by (intros H; apply eqb_finite in H; [congruence|done..]).
      split; [intros; right; split; [done|left; lia]|intros [|[_ [|[]]]]; lia].
  - rewrite sub_ltb_0, ltb_finite_false by done.
    assert (ord (default 0%float (solvedAt (row x))) <> ord (default 0%float (solvedAt (row y))))
      by (intros H; apply eqb_finite in H; [congruence|done..]).
    split; [intros; left; lia|intros [|[]]; lia].
Qed.

Lemma precedes_total (x y : CompatibilityCandidate) : precedes localeCompare x y \/ precedes localeCompare y x.
Proof.
  unfold precedes. set (sx := ord (default _ (solvedAt (row x)))). set (sy := ord (default _ (solvedAt (row y)))).
  destruct (Z.lt_trichotomy sx sy) as [|[E|]]; [right; by left| |left; by left]. rewrite E.
  destruct (Z.lt_trichotomy (ord (resultUpdatedAt (row x))) (ord (resultUpdatedAt (row y)))) as [|[->|]];
    [right; right; split; [done|by left]| |left; right; split; [done|by left]].
  destruct (collation_total (resultId (row y)) (resultId (row x))); [left|right];
    (right; split; [done|]; right; by split).
Qed.

Lemma precedes_trans (x y z : CompatibilityCandidate) :
  precedes localeCompare x y -> precedes localeCompare y z -> precedes localeCompare x z.
Proof.
  unfold precedes. intros [H|[H [H'|[H' Hc]]]] [K|[K [K'|[K' Kc]]]]; try (left; lia);
    right; (split; [lia|]); try (left; lia). right. split; [lia|]. by eapply collation_trans.
Qed.

Lemma order_sorted (l : list CompatibilityCandidate) :
  Forall candidate_ok l -> StronglySorted (precedes localeCompare) (sort order l).
Proof.
  intros Hl. unfold sort. apply (sort_before_sorted _ candidate_ok); [| | |done].
  - intros x y Hx Hy. by apply order_spec.
  - intros x y _ _. apply precedes_total.
  - intros x y z _ _ _. apply precedes_trans.
Qed.

(** ** Buckets *)

Section Bucket.
Context (bucket : list CompatibilityCandidate).
Hypothesis Hne : bucket <> [].
Hypothesis Hok : Forall candidate_ok bucket.

Lemma bucket_max : isFinite (maxRank bucket) = true /\
  (forall c, In c bucket -> (ord (selectionRank c) <= ord (maxRank bucket))%Z) /\
  exists c, In c bucket /\ ord (selectionRank c) = ord (maxRank bucket).
Proof.
  rewrite List.Forall_forall in Hok.
  destruct (max_all_spec (List.map selectionRank bucket)) as (H1 & H2 & H3).
  - by destruct bucket.
  - apply List.Forall_map, List.Forall_forall. intros c Hc. by apply Hok.
  - split; [done|]. rewrite List.Forall_map, List.Forall_forall in H2. split; [done|].
    apply in_map_iff in H3 as (r & E & (c & <- & Hc)%in_map_iff). eauto.
Qed.

Lemma in_top (c : CompatibilityCandidate) :
  In c (topOf localeCompare bucket) <-> In c bucket /\ ord (selectionRank c) = ord (maxRank bucket).
Proof.
  unfold topOf. rewrite in_sort, filter_In. destruct bucket_max as [Hm _].
  rewrite List.Forall_forall in Hok.
  split; intros [Hc E]; (split; [done|]); apply eqb_finite in E || apply eqb_finite; try done; by apply Hok.
Qed.

Lemma top_cons : exists winner rest, topOf localeCompare bucket = winner :: rest.
Proof.
  destruct bucket_max as (_ & _ & c & Hc). apply in_top in Hc.
  destruct (topOf localeCompare bucket) as [|w r]; [done|eauto].
Qed.

Lemma top_lower : Permutation (topOf localeCompare bucket ++ lowerOf bucket) bucket.
Proof.
  unfold topOf, lowerOf. rewrite <- sort_perm, Permutation_app_comm. apply filter_partition.
Qed.

(** Everything of the bucket is a member, once. *)
Lemma bucket_members :
  Permutation (List.map member (bucketMembers localeCompare bucket)) bucket.
Proof.
  assert (Hmap : forall r s l, List.map member (List.map (as_member r s) l) = l).
  { intros r s l. rewrite List.map_map. apply List.map_id. }
  rewrite <- top_lower at 2. unfold bucketMembers. destruct (conflicting _ _).
  - by rewrite List.map_app, !Hmap.
  - destruct top_cons as (w & r & ->). rewrite List.map_app. cbn [List.map member as_member].
    by rewrite !Hmap.
Qed.

Definition is_selected (m : CompatibilityMember) : bool := bool_decide (role m = Selected).

Lemma bucket_winner :
  List.map member (List.filter is_selected (bucketMembers localeCompare bucket))
  = winnerOf localeCompare bucket.
Proof.
  assert (Hnone : forall r s l, r <> Selected -> List.filter is_selected (List.map (as_member r s) l) = []).
  { intros r s l Hr. apply filter_none. intros m (c & <- & _)%in_map_iff. unfold is_selected.
    by apply bool_decide_eq_false. }
  unfold bucketMembers, winnerOf. destruct (conflicting _ _).
  - by rewrite List.filter_app, !Hnone.
  - destruct top_cons as (w & r & ->). by rewrite List.filter_app, Hnone; cbn; rewrite ?Hnone.
Qed.

(** The winner is a latest one among the best, which all agree with it. *)
Lemma winner_best (w : CompatibilityCandidate) :
  In w (winnerOf localeCompare bucket) ->
  In w bucket /\ winnerOf localeCompare bucket = [w] /\ conflicting localeCompare bucket = false /\
  forall c, In c bucket -> (ord (selectionRank c) <= ord (selectionRank w))%Z /\
    (ord (selectionRank c) = ord (selectionRank w) ->
     c = w \/ (precedes localeCompare w c /\ repeatMeasurementsAgree w c = true)).
Proof.
  unfold winnerOf. destruct (conflicting localeCompare bucket) eqn:Ec; [done|].
  destruct top_cons as (w' & rest & Et). rewrite Et. intros [<-|[]].
  destruct (proj1 (in_top w')) as [Hw Er]; [rewrite Et; by left|].
  split; [done|]. split; [done|]. split; [done|]. intros c Hc.
  destruct bucket_max as (_ & Hmax & _). specialize (Hmax c Hc). split; [lia|]. intros E.
  assert (Hin : In c (topOf localeCompare bucket)) by (apply in_top; split; [done|lia]).
  assert (Hs : StronglySorted (precedes localeCompare) (topOf localeCompare bucket)).
  { apply order_sorted. rewrite List.Forall_forall in *. intros x [Hx _]%filter_In. auto. }
  unfold conflicting in Ec. rewrite Et in Hin, Hs, Ec. destruct Hin as [->|Hin]; [by left|]. right.
  apply StronglySorted_inv in Hs as [_ Hs]. rewrite List.Forall_forall in Hs. split; [auto|].
  destruct rest as [|c' rest]; [done|]. cbn [length Nat.ltb Nat.leb andb] in Ec.
  apply negb_false_iff in Ec. rewrite forallb_forall in Ec. apply Ec. by right.
Qed.

(** Without a winner two of the best disagree. *)
Lemma conflict_witnessed :
  conflicting localeCompare bucket = true ->
  exists x y, In x bucket /\ In y bucket /\ repeatMeasurementsAgree x y = false /\
    forall c, In c bucket -> (ord (selectionRank c) <= ord (selectionRank x))%Z /\
      ord (selectionRank x) = ord (selectionRank y).
Proof.
  destruct top_cons as (w & rest & Et). unfold conflicting. rewrite Et.
  intros [_ H%negb_true_iff]%andb_true_iff. rewrite <- Et in H.
  assert (Hex : exists y, In y (topOf localeCompare bucket) /\ repeatMeasurementsAgree w y = false).
  { clear Et. induction (topOf localeCompare bucket) as [|y l IH]; [done|]. cbn in H.
    destruct (repeatMeasurementsAgree w y) eqn:E; [|exists y; split; [by left|done]].
    destruct (IH H) as (z & Hz & Ez). exists z. split; [by right|done]. }
  destruct Hex as (y & Hy & Ey). exists w, y.
  destruct (proj1 (in_top w)) as [Hw Ew]; [rewrite Et; by left|]. apply in_top in Hy as [Hy Ey'].
  split_and!; [done..|]. intros c Hc. destruct bucket_max as (_ & Hmax & _).
  specialize (Hmax c Hc). lia.
Qed.
End Bucket.
End Order.

(** ** The resolution of all angles *)

(** The candidate belongs to the angle [k] of the map. *)
Definition at_angle (k : jsnum) (c : CompatibilityCandidate) : Prop :=
  exists a, canonicalAoa (aoaDeg (row c)) = Ok a /\ norm0 a = k.

Definition angle_ok (c : CompatibilityCandidate) : Prop :=
  exists a, canonicalAoa (aoaDeg (row c)) = Ok a /\ isFinite a = true.

Lemma keyed_spec (cs : list CompatibilityCandidate) (pairs : list (jsnum * CompatibilityCandidate)) :
  keyed cs = Ok pairs ->
  List.map snd pairs = cs /\ Forall (fun p => canonicalAoa (aoaDeg (row (snd p))) = Ok (fst p)) pairs.
Proof.
  unfold keyed. rewrite result_map_ok. induction 1 as [|c p cs ps H _ [IH1 IH2]]; [by split|].
  apply bind_ok in H as (a & Ha & [= <-]). cbn [List.map snd fst]. split; [by rewrite IH1|]. by constructor.
Qed.

Lemma keyed_finite (cs : list CompatibilityCandidate) (pairs : list (jsnum * CompatibilityCandidate)) :
  keyed cs = Ok pairs -> Forall angle_ok cs -> finite_keys pairs.
Proof.
  intros [<- Hp]%keyed_spec Ha. unfold finite_keys. apply List.Forall_forall. intros p Hin.
  rewrite List.Forall_map, List.Forall_forall in Ha. rewrite List.Forall_forall in Hp. destruct (Ha p Hin) as (a & E & F).
  rewrite (Hp p Hin) in E. injection E as ->. done.
Qed.

Lemma in_group_of (cs : list CompatibilityCandidate) (pairs : list (jsnum * CompatibilityCandidate))
    (k : jsnum) (c : CompatibilityCandidate) :
  keyed cs = Ok pairs -> finite_keys pairs -> isFinite k = true -> norm0 k = k ->
  In c (group_of k pairs) <-> In c cs /\ at_angle k c.
Proof.
  intros [<- Hp]%keyed_spec Hf Fk Nk. unfold finite_keys in Hf. rewrite List.Forall_forall in Hp, Hf.
  unfold group_of, at_angle. rewrite in_map_filter, in_map_iff. split.
  - intros ([a c'] & <- & Hin & Hs). cbn [snd fst] in *.
    split; [by exists (a, c')|]. exists a.
    split; [exact (Hp _ Hin)|]. assert (Fa : isFinite a = true) by exact (Hf (a, c') Hin).
    by apply same_map_key in Hs.
  - intros ([[a c'] [<- Hin]] & b & Eb & Nb). exists (a, c'). cbn [snd fst] in *.
    pose proof (Hp (a, c') Hin) as Ea. cbn [snd fst] in Ea. rewrite Ea in Eb. injection Eb as <-.
    split_and!; [done..|].
    assert (Fa : isFinite a = true) by exact (Hf (a, c') Hin). by apply same_map_key.
Qed.

Section Resolved.
Context (localeCompare : string -> string -> jsnum) `{!Collation localeCompare}.
Context (cs : list CompatibilityCandidate) (pairs : list (jsnum * CompatibilityCandidate)).
Hypothesis Hkeyed : keyed cs = Ok pairs.
Hypothesis Hok : Forall candidate_ok cs.
Hypothesis Hangle : Forall angle_ok cs.

Lemma entry_spec (k : jsnum) (bucket : list CompatibilityCandidate) :
  In (k, bucket) (sortedEntries pairs) ->
  bucket <> [] /\ Forall candidate_ok bucket /\ (forall c, In c bucket <-> In c cs /\ at_angle k c).
Proof.
  intros He. pose proof (keyed_finite cs pairs Hkeyed Hangle) as Hf.
  destruct (entries_in pairs k bucket Hf He) as (Fk & Nk & -> & Hne). split; [done|].
  assert (Hin : forall c, In c (group_of k pairs) <-> In c cs /\ at_angle k c)
    by (intros c; by apply in_group_of).
  split; [|done]. apply List.Forall_forall. intros c [Hc _]%Hin. rewrite List.Forall_forall in Hok. auto.
Qed.

Lemma entry_of (c : CompatibilityCandidate) :
  In c cs -> exists k bucket, In (k, bucket) (sortedEntries pairs) /\ In c bucket /\ at_angle k c.
Proof.
  intros Hc. pose proof (keyed_finite cs pairs Hkeyed Hangle) as Hf.
  destruct (keyed_spec cs pairs Hkeyed) as [E Hp]. rewrite <- E in Hc.
  apply in_map_iff in Hc as ([a c'] & <- & Hin). rewrite List.Forall_forall in Hp.
  exists (norm0 a), (group_of (norm0 a) pairs). pose proof (entries_key pairs (a, c') Hf Hin) as He.
  assert (Hat : at_angle (norm0 a) c') by (exists a; split; [by apply (Hp (a, c'))|done]).
  split; [done|]. split; [|done]. apply (entry_spec _ _ He). split; [|done].
  rewrite <- E. by apply (in_map snd) in Hin.
Qed.

(** An angle has one entry. *)
Lemma entry_unique (k : jsnum) (b b' : list CompatibilityCandidate) :
  In (k, b) (sortedEntries pairs) -> In (k, b') (sortedEntries pairs) -> b = b'.
Proof.
  intros H H'. pose proof (keyed_finite cs pairs Hkeyed Hangle) as Hf.
  destruct (entries_in pairs k b Hf H) as (_ & _ & -> & _).
  by destruct (entries_in pairs k b' Hf H') as (_ & _ & -> & _).
Qed.

Lemma at_angle_unique (k k' : jsnum) (c : CompatibilityCandidate) : at_angle k c -> at_angle k' c -> k = k'.
Proof. intros (a & Ea & <-) (b & Eb & <-). rewrite Ea in Eb. by injection Eb as <-. Qed.

Lemma members_all :
  Permutation (List.map member (List.flat_map (fun e => bucketMembers localeCompare (snd e)) (sortedEntries pairs)))
    cs.
Proof.
  destruct (keyed_spec cs pairs Hkeyed) as [E _]. rewrite <- E at 1. rewrite <- entries_elements.
  assert (H : forall e, In e (sortedEntries pairs) ->
    Permutation (List.map member (bucketMembers localeCompare (snd e))) (snd e)).
  { intros [k b] He. destruct (entry_spec k b He) as (Hne & Hb & _). by apply bucket_members. }
  induction (sortedEntries pairs) as [|e l IH]; [done|]. cbn [List.flat_map].
  rewrite List.map_app. apply Permutation_app; [apply H; by left|apply IH; intros; apply H; by right].
Qed.

Lemma selected_role :
  List.flat_map (fun e => winnerOf localeCompare (snd e)) (sortedEntries pairs)
  = List.map member (List.filter is_selected
      (List.flat_map (fun e => bucketMembers localeCompare (snd e)) (sortedEntries pairs))).
Proof.
  assert (H : forall e, In e (sortedEntries pairs) ->
    List.map member (List.filter is_selected (bucketMembers localeCompare (snd e)))
    = winnerOf localeCompare (snd e)).
  { intros [k b] He. destruct (entry_spec k b He) as (Hne & Hb & _). by apply bucket_winner. }
  induction (sortedEntries pairs) as [|e l IH]; [done|]. cbn [List.flat_map].
  rewrite List.filter_app, List.map_app, H by (by left). f_equal. apply IH. intros; apply H; by right.
Qed.

Lemma selected_from (w : CompatibilityCandidate) :
  In w (List.flat_map (fun e => winnerOf localeCompare (snd e)) (sortedEntries pairs)) ->
  exists k bucket, In (k, bucket) (sortedEntries pairs) /\ In w (winnerOf localeCompare bucket) /\
    In w cs /\ at_angle k w.
Proof.
  intros ([k b] & He & Hw)%in_flat_map. exists k, b. destruct (entry_spec k b He) as (Hne & Hb & Hin).
  split; [done|]. split; [done|]. apply Hin. by apply (winner_best localeCompare b Hne Hb).
Qed.

Lemma conflict_from (k : jsnum) :
  In k (List.map fst (List.filter (fun e => conflicting localeCompare (snd e)) (sortedEntries pairs))) <->
  exists bucket, In (k, bucket) (sortedEntries pairs) /\ conflicting localeCompare bucket = true.
Proof.
  rewrite in_map_filter. split.
  - intros ([k' b] & <- & He & Hc). eauto.
  - intros (b & He & Hc). by exists (k, b).
Qed.

Lemma best_of_angle (w c : CompatibilityCandidate) (k : jsnum) (b : list CompatibilityCandidate) :
  In (k, b) (sortedEntries pairs) -> In w (winnerOf localeCompare b) -> In c cs -> at_angle k c ->
  (ord (selectionRank c) <= ord (selectionRank w))%Z /\
  (ord (selectionRank c) = ord (selectionRank w) ->
   c = w \/ (precedes localeCompare w c /\ repeatMeasurementsAgree w c = true)).
Proof.
  intros He Hw Hc Hk. destruct (entry_spec k b He) as (Hne & Hb & Hin).
  apply (winner_best localeCompare b Hne Hb w Hw). by apply Hin.
Qed.

Lemma same_angle_winner (w c : CompatibilityCandidate) (k : jsnum) (b : list CompatibilityCandidate) :
  In (k, b) (sortedEntries pairs) -> In w (winnerOf localeCompare b) -> at_angle k c ->
  In c (List.flat_map (fun e => winnerOf localeCompare (snd e)) (sortedEntries pairs)) -> c = w.
Proof.
  intros He Hw Hk (k' & b' & He' & Hc & _ & Hk')%selected_from.
  assert (k' = k) as -> by (by eapply at_angle_unique). rewrite (entry_unique k b' b He' He) in Hc.
  destruct (entry_spec k b He) as (Hne & Hb & _).
  destruct (winner_best localeCompare b Hne Hb w Hw) as (_ & E & _). rewrite E in Hc. by destruct Hc.
Qed.
End Resolved.

(** C19. One result per angle. Every candidate becomes a member once; a selected one has
    the highest rank of its angle, no other is selected there, and the candidates of
    equal rank agree with it and do not precede it; an angle in conflict has two best
    candidates that disagree and no selected one; and every angle has one or the other. *)
Theorem one_per_angle (localeCompare : string -> string -> jsnum) (cs : list CompatibilityCandidate)
    (r : Resolution) :
  Collation localeCompare -> Forall candidate_ok cs -> Forall angle_ok cs ->
  resolvePolarCompatibilityMembers localeCompare cs = Ok r ->
  Permutation (List.map member (members r)) cs /\
  selected r = List.map member (List.filter is_selected (members r)) /\
  (forall w, In w (selected r) -> exists k, at_angle k w /\ ~ In k (conflictAoas r) /\
     forall c, In c cs -> at_angle k c ->
       (ord (selectionRank c) <= ord (selectionRank w))%Z /\
       (ord (selectionRank c) = ord (selectionRank w) ->
        c = w \/ (precedes localeCompare w c /\ repeatMeasurementsAgree w c = true)) /\
       (In c (selected r) -> c = w)) /\
  (forall k, In k (conflictAoas r) ->
     (exists x y, In x cs /\ In y cs /\ at_angle k x /\ at_angle k y /\ repeatMeasurementsAgree x y = false /\
        forall c, In c cs -> at_angle k c -> (ord (selectionRank c) <= ord (selectionRank x))%Z /\
          ord (selectionRank x) = ord (selectionRank y)) /\
     forall w, In w (selected r) -> ~ at_angle k w) /\
  (forall c, In c cs -> exists k, at_angle k c /\
     (In k (conflictAoas r) \/ exists w, In w (selected r) /\ at_angle k w)).
Proof.
  intros Hl Hok Ha. unfold resolvePolarCompatibilityMembers. rewrite bind_ok.
  intros (pairs & Hk & [= <-]). cbn [members selected conflictAoas].
  split; [by apply members_all|]. split; [by eapply selected_role|]. split; [|split].
  - intros w Hw. destruct (selected_from localeCompare cs pairs Hk Hok Ha w Hw) as (k & b & He & Hwin & Hw' & Hat).
    exists k. split; [done|]. split.
    + rewrite conflict_from. intros (b' & He' & Hc). rewrite (entry_unique cs pairs Hk Ha k b' b He' He) in Hc.
      destruct (entry_spec cs pairs Hk Hok Ha k b He) as (Hne & Hb & _).
      destruct (winner_best localeCompare b Hne Hb w Hwin) as (_ & _ & H & _). congruence.
    + intros c Hc Hkc. destruct (best_of_angle localeCompare cs pairs Hk Hok Ha w c k b He Hwin Hc Hkc).
      split_and!; [done..|]. by apply (same_angle_winner localeCompare cs pairs Hk Hok Ha w c k b).
  - intros k (b & He & Hc)%conflict_from. destruct (entry_spec cs pairs Hk Hok Ha k b He) as (Hne & Hb & Hin).
    split.
    + destruct (conflict_witnessed localeCompare b Hne Hb Hc) as (x & y & Hx & Hy & Hxy & Hmax).
      apply Hin in Hx as [Hx Kx], Hy as [Hy Ky]. exists x, y. split_and!; [done..|].
      intros c Hcs Hck. apply Hmax. by apply Hin.
    + intros w Hw Hat. destruct (selected_from localeCompare cs pairs Hk Hok Ha w Hw) as (k' & b' & He' & Hw' & _ & Hat').
      assert (k' = k) as -> by (by eapply at_angle_unique).
      rewrite (entry_unique cs pairs Hk Ha k b' b He' He) in Hw'. unfold winnerOf in Hw'. by rewrite Hc in Hw'.
  - intros c Hc. destruct (entry_of cs pairs Hk Hok Ha c Hc) as (k & b & He & Hcb & Hat).
    exists k. split; [done|]. destruct (entry_spec cs pairs Hk Hok Ha k b He) as (Hne & Hb & Hin).
    destruct (conflicting localeCompare b) eqn:Ec; [left; apply conflict_from; eauto|right].
    destruct (top_cons localeCompare b Hne Hb) as (w & rest & Et).
    assert (Hw : In w (winnerOf localeCompare b)) by (unfold winnerOf; rewrite Ec, Et; by left).
    exists w. split; [apply in_flat_map; by exists (k, b)|]. apply Hin.
    by apply (winner_best localeCompare b Hne Hb).
Qed.

(** ** The order of the rows does not matter *)

Definition angle_key (c : CompatibilityCandidate) : jsnum :=
  match canonicalAoa (aoaDeg (row c)) with Ok a => a | Throw _ => 0%float end.

Lemma keyed_map (cs : list CompatibilityCandidate) :
  Forall angle_ok cs -> keyed cs = Ok (List.map (fun c => (angle_key c, c)) cs).
Proof.
  intros H. unfold keyed. apply result_map_ok.
  induction H as [|c cs (a & Ea & _) _ IH]; constructor; [|done]. unfold angle_key. by rewrite Ea.
Qed.

(** Distinct candidates have results that the collation tells apart. *)
Definition distinct_results (localeCompare : string -> string -> jsnum) (cs : list CompatibilityCandidate) :
    Prop :=
  forall x y, In x cs -> In y cs ->
    PrimFloat.ltb (localeCompare (resultId (row x)) (resultId (row y))) 0 = false ->
    PrimFloat.ltb (localeCompare (resultId (row y)) (resultId (row x))) 0 = false -> x = y.

Section Permuted.
Context (localeCompare : string -> string -> jsnum) `{!Collation localeCompare}.
Context (b b' : list CompatibilityCandidate).
Hypothesis Hperm : Permutation b b'.
Hypothesis Hne : b <> [].
Hypothesis Hok : Forall candidate_ok b.
Hypothesis Hdist : distinct_results localeCompare b.

Lemma max_perm : ord (maxRank b) = ord (maxRank b').
Proof.
  assert (Hne' : b' <> []) by (intros ->; by apply Permutation_sym, Permutation_nil in Hperm).
  assert (Hok' : Forall candidate_ok b') by (by rewrite <- Hperm).
  destruct (bucket_max b Hne Hok) as (_ & H1 & c & Hc & E).
  destruct (bucket_max b' Hne' Hok') as (_ & H1' & c' & Hc' & E').
  rewrite Hperm in Hc. rewrite <- Hperm in Hc'. specialize (H1 c' Hc'). specialize (H1' c Hc). lia.
Qed.

Lemma top_perm : topOf localeCompare b = topOf localeCompare b'.
Proof.
  assert (Hne' : b' <> []) by (intros ->; by apply Permutation_sym, Permutation_nil in Hperm).
  assert (Hok' : Forall candidate_ok b') by (by rewrite <- Hperm).
  assert (Hp : Permutation (topOf localeCompare b) (topOf localeCompare b')).
  { unfold topOf. rewrite <- !sort_perm. rewrite (filter_perm _ _ _ Hperm).
    rewrite (List.filter_ext_in _ (fun c => (selectionRank c === maxRank b')%js)); [done|].
    intros c Hc. destruct (bucket_max b Hne Hok) as [F _], (bucket_max b' Hne' Hok') as [F' _].
    rewrite List.Forall_forall in Hok'. pose proof (ok_rank c (Hok' c Hc)) as Fc. apply bool_iff_eq.
    by rewrite (eqb_finite _ _ Fc F), (eqb_finite _ _ Fc F'), max_perm. }
  assert (Hs : forall l, Forall candidate_ok l -> StronglySorted (precedes localeCompare) (topOf localeCompare l)).
  { intros l Hl. apply (order_sorted localeCompare). apply List.Forall_forall. intros x [Hx _]%filter_In.
    rewrite List.Forall_forall in Hl. auto. }
  eapply StronglySorted_unique_strong; [|by apply Hs..|exact Hp].
  intros x y Hx%list_elem_of_In Hy%list_elem_of_In Hxy Hyx. rewrite <- Hp in Hy.
  unfold topOf in Hx, Hy. apply in_sort, filter_In in Hx as [Hx _], Hy as [Hy _].
  unfold precedes in Hxy, Hyx. cbn zeta beta in Hxy, Hyx.
  destruct Hxy as [|[? [|[? Hxy]]]], Hyx as [|[? [|[? Hyx]]]]; try lia. by apply Hdist.
Qed.

Lemma conflicting_perm : conflicting localeCompare b = conflicting localeCompare b'.
Proof. unfold conflicting. by rewrite top_perm. Qed.

Lemma winner_perm : winnerOf localeCompare b = winnerOf localeCompare b'.
Proof. unfold winnerOf. by rewrite conflicting_perm, top_perm. Qed.
End Permuted.

(** C20. The selection is a function of the set of candidates: when the collation tells
    their results apart, another order of the rows selects the same candidates in the
    same order and reports the same conflicts. *)
Theorem resolution_order_free (localeCompare : string -> string -> jsnum)
    (cs cs' : list CompatibilityCandidate) :
  Collation localeCompare -> Forall candidate_ok cs -> Forall angle_ok cs ->
  distinct_results localeCompare cs -> Permutation cs cs' ->
  exists r r', resolvePolarCompatibilityMembers localeCompare cs = Ok r /\
    resolvePolarCompatibilityMembers localeCompare cs' = Ok r' /\
    selected r = selected r' /\ conflictAoas r = conflictAoas r'.
Proof.
  intros Hl Hok Ha Hd Hp. assert (Ha' : Forall angle_ok cs') by (by rewrite <- Hp).
  unfold resolvePolarCompatibilityMembers. rewrite (keyed_map cs Ha), (keyed_map cs' Ha'). cbn [bind_result].
  set (ps := List.map _ cs). set (ps' := List.map _ cs').
  do 2 eexists. split; [done|]. split; [done|]. cbn [selected conflictAoas].
  assert (Hps : Permutation ps ps') by (by apply Permutation_map).
  pose proof (keyed_finite cs ps (keyed_map cs Ha) Ha) as Hf.
  assert (Hf' : finite_keys ps') by (unfold finite_keys in *; by rewrite <- Hps).
  assert (He : forall qs : list (jsnum * CompatibilityCandidate), finite_keys qs ->
    sortedEntries qs = List.map (fun k => (k, group_of k qs)) (List.map fst (sortedEntries qs))).
  { intros qs Hqs. rewrite List.map_map. rewrite <- (List.map_id (sortedEntries qs)) at 1.
    apply map_ext_in. intros [k b] Hin. cbn [fst].
    by destruct (entries_in qs k b Hqs Hin) as (_ & _ & -> & _). }
  rewrite (He ps Hf), (He ps' Hf'), <- (entries_keys_perm ps ps' Hf Hps).
  assert (Hb : forall k, In k (List.map fst (sortedEntries ps)) ->
    winnerOf localeCompare (group_of k ps) = winnerOf localeCompare (group_of k ps') /\
    conflicting localeCompare (group_of k ps) = conflicting localeCompare (group_of k ps')).
  { intros k ([k' b] & <- & Hin)%in_map_iff. cbn [fst].
    destruct (entries_in ps k' b Hf Hin) as (_ & _ & -> & _).
    destruct (entry_spec cs ps (keyed_map cs Ha) Hok Ha _ _ Hin) as (Hne & Hbok & Hbin).
    assert (Hbd : distinct_results localeCompare (group_of k' ps))
      by (intros x y [Hx _]%Hbin [Hy _]%Hbin; by apply Hd).
    pose proof (group_of_perm k' ps ps' Hps) as Hgp.
    split; [by apply winner_perm|by apply conflicting_perm]. }
  induction (List.map fst (sortedEntries ps)) as [|k l IH]; [done|].
  destruct (Hb k (or_introl eq_refl)) as [Hw Hc].
  destruct IH as [IH1 IH2]; [intros k' Hk'; apply Hb; by right|].
  cbn [List.map List.flat_map List.filter snd]. rewrite Hw, Hc, IH1.
  split; [done|].
  destruct (conflicting localeCompare (group_of k ps')); [|exact IH2].
  cbn [List.map fst]. f_equal. exact IH2.
Qed.

(** ** What a refresh publishes *)

Lemma selected_incl (localeCompare : string -> string -> jsnum) (cs : list CompatibilityCandidate)
    (r : Resolution) :
  resolvePolarCompatibilityMembers localeCompare cs = Ok r -> incl (selected r) cs.
Proof.
  unfold resolvePolarCompatibilityMembers. rewrite bind_ok. intros (pairs & Hk & [= <-]) c.
  cbn [selected]. intros ([k b] & He & Hc)%in_flat_map. cbn [snd] in Hc.
  destruct (keyed_spec cs pairs Hk) as [<- _]. rewrite <- entries_elements. apply in_flat_map.
  exists (k, b). split; [done|]. cbn [snd]. unfold winnerOf in Hc.
  destruct (conflicting _ _); [done|]. unfold topOf in Hc.
  destruct (sort _ _) as [|w rest] eqn:E; [done|]. destruct Hc as [<-|[]].
  assert (Hin : In w (w :: rest)) by (by left). rewrite <- E in Hin. by apply in_sort, filter_In in Hin as [Hin _].
Qed.

Lemma asCandidate_spec (r : CompatibilityEvidenceRow) (c : CompatibilityCandidate) :
  asCandidate r = Some c ->
  row c = r /\ (state r = accepted \/ state r = needs_urans) /\
  cl r = Some (candidate_cl c) /\ isFinite (candidate_cl c) = true /\
  cd r = Some (candidate_cd c) /\ isFinite (candidate_cd c) = true /\ (0 < ord (candidate_cd c))%Z.
Proof.
  unfold asCandidate. destruct (negb _ && negb _) eqn:Es; [done|].
  destruct (cl r) as [x|] eqn:Ex; [|done]. destruct (cd r) as [y|] eqn:Ey; [|done].
  destruct (negb (isFinite x) || negb (isFinite y) || (y <= 0)%js) eqn:Ef; [done|].
  intros [= <-]. cbn [row candidate_cl candidate_cd]. breflect. destruct Ef as [[Fx Fy] Hy].
  split; [done|]. split.
  - destruct Es as [E|E]; apply bool_decide_eq_true in E; tauto.
  - split_and!; [done..|]. apply leb_finite_false in Hy; [by rewrite ord_0 in Hy|done|exact isFinite_0].
Qed.

(** A row that may be published: verified, not excluded, complete. *)
Record publishable (verdicts : string -> option string) (geometry : string -> option bool)
    (raw : RawRow) (c : CompatibilityCandidate) : Prop := {
  pub_revision : exists revision, raw_revision raw = Some revision /\ revision <> "" /\
    row c = gatedRow (raw_row raw) revision
      (state (raw_row raw), region (raw_row raw), reasons (raw_row raw));
  pub_verdict : verdicts (resultId (raw_row raw)) <> Some "exclude";
  pub_geometry : geometry (resultAttemptId (raw_row raw)) = Some true;
  pub_state : state (raw_row raw) = accepted \/ state (raw_row raw) = needs_urans;
  pub_cl : cl (raw_row raw) = Some (candidate_cl c) /\ isFinite (candidate_cl c) = true;
  pub_cd : cd (raw_row raw) = Some (candidate_cd c) /\ isFinite (candidate_cd c) = true /\
    (0 < ord (candidate_cd c))%Z;
  pub_complete : regime (raw_row raw) = Some urans ->
    hasIncompleteUransIntegrationWarning (qualityWarnings (raw_row raw)) = false;
}.

Lemma gated_publishable (verdicts : string -> option string) (geometry : string -> option bool)
    (raws : list RawRow) (c : CompatibilityCandidate) :
  In c (omap asCandidate (gatedRows verdicts geometry raws)) ->
  exists raw, In raw raws /\ publishable verdicts geometry raw c.
Proof.
  rewrite <- list_elem_of_In, list_elem_of_omap.
  intros (r & (raw & Hraw & Hr)%list_elem_of_omap & (Er & Hs & Hcl & Fcl & Hcd & Fcd & Pcd)%asCandidate_spec).
  exists raw. split; [by apply list_elem_of_In|].
  destruct (raw_revision raw) as [rev|] eqn:Erev; [|done]. cbn [truthy_string] in Hr.
  destruct (nonempty rev) eqn:En; [|done].
  unfold is_excluded in Hr. destruct (bool_decide _) eqn:Ev; [done|].
  apply bool_decide_eq_false in Ev. injection Hr as <-.
  unfold compatibilityClassificationWithQualityGate in *. cbn [flag_is] in *.
  destruct (flag (geometry (resultAttemptId (raw_row raw)))) eqn:Eg; cbn [Bool.eqb] in *;
    [|by destruct Hs as [Hs|Hs]; cbn in Hs].
  destruct (bool_decide (regime (raw_row raw) = Some urans)) eqn:Eu; cbn [andb] in *.
  - destruct (hasIncompleteUransIntegrationWarning _) eqn:Ew; [by destruct Hs as [Hs|Hs]; cbn in Hs|].
    split; try done. + exists rev. split_and!; [done|by intros ->|done].
    + unfold flag, flag_is in Eg. by destruct (geometry _) as [[]|].
  - apply bool_decide_eq_false in Eu. split; try done. + exists rev. split_and!; [done|by intros ->|done].
    + unfold flag, flag_is in Eg. by destruct (geometry _) as [[]|].
Qed.

Definition canonical_finite (x : jsnum) : Prop := exists a, canonicalAoa x = Ok a /\ isFinite a = true.

Lemma withMirrored_spec (symmetric : bool) (input out : list Classification) :
  withMirrored symmetric input = Ok out ->
  exists extra, out = input ++ extra /\ (symmetric = false -> extra = []) /\
    forall e, In e extra -> exists c, In c input /\ e = mirrored c /\
      PrimFloat.leb (EvidenceGate.a (evidence c)) 0 = false /\
      exists a, canonicalAoa (EvidenceGate.a (evidence e)) = Ok a /\
        (isFinite a = true -> Forall (fun c' => canonical_finite (EvidenceGate.a (evidence c'))) input ->
         forall c' a', In c' input -> canonicalAoa (EvidenceGate.a (evidence c')) = Ok a' -> ord a' <> ord a).
Proof.
  unfold withMirrored. destruct symmetric; [|intros [= <-]; exists []; by rewrite List.app_nil_r].
  rewrite bind_ok. intros (real & Hreal & (fresh & Hfresh & [= <-])%bind_ok).
  eexists. split; [done|]. split; [done|]. intros e ([b e'] & <- & Hin & Hb)%in_map_filter. cbn [fst snd] in *.
  apply result_map_ok in Hreal, Hfresh. destruct (Forall2_in_r _ _ _ _ Hfresh Hin) as (c0 & Hc0 & E).
  apply bind_ok in E as (a & Ea & [= Eb ->]).
  unfold mirrorClassifiedEvidence in Hc0. rewrite in_sort, in_map_filter in Hc0.
  destruct Hc0 as (c & <- & Hc & [Ha _]%andb_true_iff). exists c. split; [done|]. split; [done|].
  split; [by apply negb_true_iff|]. exists a. split; [done|]. intros Fa Hfin c' a' Hc' Ea' Eo.
  assert (Hf : Forall (fun x => isFinite x = true) real).
  { apply List.Forall_forall. intros x Hx. destruct (Forall2_in_r _ _ _ _ Hreal Hx) as (d & Hd & Ed).
    rewrite List.Forall_forall in Hfin. destruct (Hfin d Hd) as (y & Ey & Fy). rewrite Ed in Ey. by injection Ey as ->. }
  destruct (dedup_spec real Hf) as (Hdf & _ & Hdi). rewrite <- Eb in Hb. apply negb_true_iff in Hb.
  enough (includes (dedup real) a = true) by congruence. apply includes_finite; [done|done|].
  rewrite Hdi, <- Eo. destruct (Forall2_in_l _ _ _ _ Hreal Hc') as (x & Hx & Ex).
  rewrite Ea' in Ex. injection Ex as <-. by apply in_map.
Qed.

(** C21. A refresh publishes verified evidence only: a selected result has a revision,
    is not excluded by its reviewer, was solved on the verified geometry, was accepted
    or needs URANS as classified, has finite coefficients with a positive drag, and no
    warning of an incomplete URANS integration; what the fit gets beyond the selected
    results are mirror images of selected results at positive angles, for symmetric
    airfoils only, at angles where no result was selected. (Results may exist there that
    were rejected or are in conflict: [conflict_angle_mirrored] below.) *)
Theorem refresh_publishable (localeCompare : string -> string -> jsnum)
    (verdicts : string -> option string) (geometry : string -> option bool) (symmetric : bool)
    (raws : list RawRow) (f : Refresh) :
  refreshPolarCompatibilityCache localeCompare verdicts geometry symmetric raws = Ok f ->
  (forall c, In c (selected (resolved f)) -> exists raw, In raw raws /\ publishable verdicts geometry raw c) /\
  (exists extra, fitInput f = List.map asClassification (selected (resolved f)) ++ extra /\
    (symmetric = false -> extra = []) /\
    forall e, In e extra -> exists c, In c (selected (resolved f)) /\ e = mirrored (asClassification c) /\
      PrimFloat.leb (aoaDeg (row c)) 0 = false /\
      exists a, canonicalAoa (PrimFloat.opp (aoaDeg (row c))) = Ok a /\
        (isFinite a = true -> Forall (fun d => canonical_finite (aoaDeg (row d))) (selected (resolved f)) ->
         forall d a', In d (selected (resolved f)) -> canonicalAoa (aoaDeg (row d)) = Ok a' ->
           ord a' <> ord a)) /\
  length (selected (resolved f)) = (acceptedPointCount f + provisionalPointCount f)%nat.
Proof.
  unfold refreshPolarCompatibilityCache. rewrite bind_ok. intros (r & Hr & (input & Hi & [= <-])%bind_ok).
  cbn [resolved fitInput acceptedPointCount provisionalPointCount].
  assert (Hpub : forall c, In c (selected r) -> exists raw, In raw raws /\ publishable verdicts geometry raw c)
    by (intros c Hc; apply gated_publishable; by apply (selected_incl localeCompare _ r Hr)).
  split; [done|]. split.
  - apply withMirrored_spec in Hi as (extra & -> & Hs & He). exists extra. split; [done|]. split; [done|].
    intros e Hin. destruct (He e Hin) as (c & (d & <- & Hd)%in_map_iff & -> & Hle & a & Ea & Hnew).
    exists d. split; [done|]. split; [done|]. split; [exact Hle|]. exists a. split; [exact Ea|].
    intros Fa Hf d' a' Hd' Ea'. apply (Hnew Fa) with (c' := asClassification d'); [|by apply in_map|done].
    apply List.Forall_map. exact Hf.
  - unfold count_state. clear Hi. induction (selected r) as [|c l IH]; [done|].
    cbn [List.map List.filter length]. destruct (Hpub c (or_introl eq_refl)) as (raw & _ & Hp).
    destruct (pub_revision _ _ _ _ Hp) as (rev & _ & _ & Erow). rewrite Erow. cbn [gatedRow state fst].
    rewrite IH by (intros d Hd; apply Hpub; by right).
    destruct (pub_state _ _ _ _ Hp) as [-> | ->].
    + change (bool_decide (accepted = accepted)) with true. change (bool_decide (accepted = needs_urans)) with false.
      cbn [length]. lia.
    + change (bool_decide (needs_urans = accepted)) with false.
      change (bool_decide (needs_urans = needs_urans)) with true. cbn [length]. lia.
Qed.

(** ** Samples *)

Module Examples.
Definition row_of (id : string) (angle : jsnum) (fid : string) (x : jsnum) (solved : jsnum) :
    CompatibilityEvidenceRow := {|
  resultId := id; resultAttemptId := id; simulationPresetRevisionId := ""; aoaDeg := angle;
  state := accepted; region := attached; reasons := []; confidence := 1; regime := Some rans;
  fidelity := Some fid; cl := Some x; cd := Some 0.01%float; cm := None; clCd := None; clStd := None;
  cdStd := None; cmStd := None; status := "done"; source := "solved"; converged := true;
  stalled := false; unsteady := false; error := None; finalResidual := None; iterations := None;
  firstOrderFallback := false; resultUpdatedAt := solved; solvedAt := Some solved;
  qualityWarnings := None |}.

Definition raws : list RawRow :=
  [{| raw_revision := Some "v1"; raw_row := row_of "a" 2 "rans" 0.5 10 |};
   {| raw_revision := Some "v2"; raw_row := row_of "b" 2 "rans" 0.505 20 |};
   {| raw_revision := Some "v1"; raw_row := row_of "c" 4 "rans" 0.7 10 |};
   {| raw_revision := Some "v2"; raw_row := row_of "d" 4 "rans" 0.9 20 |};
   {| raw_revision := Some "v1"; raw_row := row_of "e" 0 "rans" 0 10 |};
   {| raw_revision := Some "v1"; raw_row := row_of "f" 6 "rans" 0.8 10 |}].

Definition verdicts (id : string) : option string := if String.eqb id "f" then Some "exclude" else None.
Definition geometry (id : string) : option bool := Some true.

Definition candidates : list CompatibilityCandidate := omap asCandidate (gatedRows verdicts geometry raws).

Definition resolution : Resolution := Eval vm_compute in
  match resolvePolarCompatibilityMembers code_units candidates with
  | Ok r => r | Throw _ => {| members := []; selected := []; conflictAoas := [] |} end.

(** The later of two agreeing solves wins at 2, two solves disagree at 4, and the
    excluded one at 6 is not there. *)
Example resolution_selected :
  List.map (fun c => resultId (row c)) (selected resolution) = ["e"; "b"] /\
  conflictAoas resolution = [4%float].
Proof. split; vm_compute; reflexivity. Qed.

Definition refreshed : option Refresh := Eval vm_compute in
  match refreshPolarCompatibilityCache code_units verdicts geometry true raws with
  | Ok f => Some f | Throw _ => None end.

(** The symmetric airfoil gets the mirror image of 2, not of 0. *)
Example refreshed_angles :
  option_map (fun f => List.map (fun c => EvidenceGate.a (evidence c)) (fitInput f)) refreshed
  = Some [0; 2; -2]%float.
Proof. vm_compute. reflexivity. Qed.

(** Two solves disagree at -2, and one is selected at 2: the mirror image of the latter
    fills the angle that the members call excluded from the aggregate fit. *)
Definition conflict_raws : list RawRow :=
  [{| raw_revision := Some "v1"; raw_row := row_of "a" 2 "rans" 0.5 10 |};
   {| raw_revision := Some "v1"; raw_row := row_of "b" (-2) "rans" (-0.5) 10 |};
   {| raw_revision := Some "v2"; raw_row := row_of "c" (-2) "rans" (-0.9) 20 |}].

Example conflict_angle_mirrored :
  match refreshPolarCompatibilityCache code_units verdicts geometry true conflict_raws with
  | Ok f => conflictAoas (resolved f) = [(-2)%float] /\
      List.map (fun m => selectionReason m) (List.filter (fun m => bool_decide (role m = Conflict)) (members (resolved f)))
        = List.repeat "equal-ranked compatible evidence has differing coefficients; angle excluded from aggregate fit" 2 /\
      List.map (fun c => EvidenceGate.a (evidence c)) (fitInput f) = [2; -2]%float
  | Throw _ => False
  end.
Proof. vm_compute. by split_and!. Qed.

Lemma candidates_ok : Forall candidate_ok candidates.
Proof. vm_compute. repeat constructor. Qed.

Lemma angles_ok : Forall angle_ok candidates.
Proof.
  assert (H : forallb (fun c => match canonicalAoa (aoaDeg (row c)) with Ok a => isFinite a | Throw _ => false end)
    candidates = true) by (vm_compute; reflexivity).
  apply List.Forall_forall. intros c Hc. rewrite forallb_forall in H. specialize (H c Hc). unfold angle_ok.
  destruct (canonicalAoa (aoaDeg (row c))) as [a|]; [|done]. by exists a.
Qed.
End Examples.

Lemma one_per_angle_witness :
  Permutation (List.map member (members Examples.resolution)) Examples.candidates.
Proof.
  apply (one_per_angle code_units Examples.candidates Examples.resolution).
  - exact code_unit_collation.
  - exact Examples.candidates_ok.
  - exact Examples.angles_ok.
  - vm_compute. reflexivity.
Defined.

Lemma resolution_order_free_witness :
  exists r r', resolvePolarCompatibilityMembers code_units Examples.candidates = Ok r /\
    resolvePolarCompatibilityMembers code_units (rev Examples.candidates) = Ok r' /\
    selected r = selected r' /\ conflictAoas r = conflictAoas r'.
Proof.
  apply (resolution_order_free code_units Examples.candidates (rev Examples.candidates)).
  - exact code_unit_collation.
  - exact Examples.candidates_ok.
  - exact Examples.angles_ok.
  - intros x y Hx Hy H1 H2. rewrite code_units_ltb in H1, H2. pose proof (str_ltb_anti _ _ H1 H2) as E.
    vm_compute in Hx, Hy. destruct_or! Hx; subst x; destruct_or! Hy; subst y; (reflexivity || discriminate E).
  - apply Permutation_rev.
Defined.

Lemma refresh_publishable_witness :
  match Examples.refreshed with
  | Some f => length (selected (resolved f)) = (acceptedPointCount f + provisionalPointCount f)%nat
  | None => False
  end.
Proof.
  apply (refresh_publishable code_units Examples.verdicts Examples.geometry true Examples.raws).
  vm_compute. reflexivity.
Defined.
