(* ===== verification/PrecalcSettlement.v ===== *)
(** * Preliminary solves: submission, settlement and continuation

    From [packages/db/src/precalc-obligations.ts]: the life of one preliminary
    obligation. A composition leases it to a job ([composePhysicalPrecalcJob] of
    [apps/sweeper/src/precalc-composition.ts]), the engine accepts the submission or
    answers with a failure, and the terminal settlement judges the evidence of the job,
    measures the progress of a same-case continuation and asks [RecoveryPolicy] for the
    next action.

    One obligation and its ledger of attempts are a state; every transaction is a
    function on it. What the transaction reads elsewhere (evidence rows, ownership, the
    prior segment, the clock) is its argument. Counters are integers of the database.
    Incidents, campaigns and request projections other than
    [precalcRequestStateFromObligations] are not modelled. *)

From Stdlib Require Import ZArith Lia Bool Ascii String.
From Stdlib Require Import Floats.
From stdpp Require Import base list strings option numbers.
From S2P Require Import Prelude JsNumber JsString JsValue JsArray UransQuality RecoveryPolicy Lifecycle EvidenceGate.

Local Open Scope string_scope.
Local Open Scope list_scope.

(** [FRAME_TRACK_MIN_PERIODS_PRECALC], as the number it is. *)
Definition MIN_PERIODS : jsnum := 3%float.

(** ** Physical progress *)

Record PrecalcContinuationProgress := {
  periodsRetained : option jsnum;
  simulatedTimeS : option jsnum;
  periodS : option jsnum;
  driftFrac : option jsnum;
  stationary : option bool;
  terminalCleanCycles : option jsnum;
  requiredCleanCycles : option jsnum;
  cleanCycleCount : option jsnum;
}.

Definition finiteMetric (v : jsval) : option jsnum :=
  match v with JNum x => if isFinite x && (x >= 0)%js then Some x else None | _ => None end.

Definition positiveMetric (v : jsval) : option jsnum :=
  match finiteMetric v with Some x => if (x > 0)%js then Some x else None | None => None end.

(** [o ?? p] *)
Definition coalesce_option {A} (o p : option A) : option A := match o with Some _ => o | None => p end.

Definition integer_metric (o : option jsnum) : option jsnum :=
  match o with Some x => if isInteger x then Some x else None | None => None end.

(** A clean cycle: an object whose reasons are an empty array. *)
Definition clean_cycle (v : jsval) : bool :=
  match v with
  | JObj o => match get "reasons" o with JArr [] => true | _ => false end
  | _ => false
  end.

(** A property of [v] if it is an object and no array; [prop] is undefined otherwise. *)
Definition precalcContinuationProgressFromEvidence (evidencePayload : jsval) : PrecalcContinuationProgress :=
  let frameTrack := prop "frame_track" evidencePayload in
  let window := prop "window" frameTrack in
  let forceHistory := prop "force_history" evidencePayload in
  let cycleCertificate := prop "urans_cycle_certificate" evidencePayload in
  let terminalClean := integer_metric (finiteMetric (prop "terminal_clean_cycles" cycleCertificate)) in
  let requiredClean := integer_metric (positiveMetric (prop "required_clean_cycles" cycleCertificate)) in
  {| periodsRetained := coalesce_option (finiteMetric (prop "periods_retained" frameTrack))
                                        (finiteMetric (prop "retained_cycles" forceHistory));
     simulatedTimeS := coalesce_option (finiteMetric (prop "t_end" window))
                                       (finiteMetric (prop "window_end" forceHistory));
     periodS := coalesce_option (positiveMetric (prop "period_s" frameTrack))
                                (positiveMetric (prop "period_s" forceHistory));
     driftFrac := finiteMetric (prop "drift_frac" frameTrack);
     stationary := match prop "stationary" frameTrack with JBool b => Some b | _ => None end;
     terminalCleanCycles := terminalClean;
     requiredCleanCycles := requiredClean;
     cleanCycleCount :=
       match prop "cycles" cycleCertificate, terminalClean, requiredClean with
       | JArr cycles, Some _, Some _ => Some (of_nat (length (List.filter clean_cycle cycles)))
       | _, _, _ => None
       end |}.

(** [current.x != null && current.x > (previous.x ?? 0)] *)
Definition grew (f : PrecalcContinuationProgress -> option jsnum)
    (previous current : PrecalcContinuationProgress) : bool :=
  match f current with Some x => (x > default 0%float (f previous))%js | None => false end.

Definition driftImproved (previous current : PrecalcContinuationProgress) : bool :=
  match driftFrac current, driftFrac previous with
  | Some c, Some p => (p > 0)%js && (c <= p * 0.9)%js
  | _, _ => false
  end.

Definition qualityImproved (previous current : PrecalcContinuationProgress) : bool :=
  grew terminalCleanCycles previous current || grew cleanCycleCount previous current
  || (flag (stationary current) && negb (flag (stationary previous)))
  || driftImproved previous current.

(** The period estimates differ by at most 5 % of the larger one. *)
Definition periodCompatible (previous current : PrecalcContinuationProgress) : bool :=
  match periodS current, periodS previous with
  | Some c, Some p => (PrimFloat.abs (c - p) / Math_max c p <= 0.05)%js
  | _, _ => false
  end.

Definition at_horizon (current : PrecalcContinuationProgress) : bool :=
  match periodsRetained current with
  | Some n => (n >= MIN_PERIODS)%js
  | None => false
  end.

Definition requiredDelta (previous current : PrecalcContinuationProgress) (previousTime : jsnum) : jsnum :=
  let measuredPeriod :=
    match periodS current, periodS previous with
    | Some c, Some p => Some (Math_max c p)
    | Some c, None => Some c
    | None, p => p
    end in
  match measuredPeriod with
  | Some period => Math_max 1e-6 (period * 0.25)
  | None => Math_max 1e-4 (PrimFloat.abs previousTime * 0.01)
  end.

Definition timeTolerance (previousTime : jsnum) : jsnum :=
  Math_max 1e-9 (PrimFloat.abs previousTime * 1e-9).

(** The segment reached a later time. *)
Definition timedProgress (previous current : PrecalcContinuationProgress) (previousTime currentTime : jsnum) :
    bool :=
  let delta := (currentTime - previousTime)%float in
  if (delta <= timeTolerance previousTime)%js then false
  else if at_horizon current then periodCompatible previous current && qualityImproved previous current
  else if periodCompatible previous current then true
  else if (delta >= requiredDelta previous current previousTime)%js then true
  else qualityImproved previous current.

(** Evidence without a window end: retained cycles of one period estimate. *)
Definition legacyProgress (previous current : PrecalcContinuationProgress) : bool :=
  match periodsRetained current, periodsRetained previous, periodS current, periodS previous with
  | Some c, Some p, Some _, Some _ =>
      if negb (periodCompatible previous current) || negb (c - p >= 0.25)%js then false
      else if (c < MIN_PERIODS)%js then true
      else qualityImproved previous current
  | _, _, _, _ => false
  end.

Definition precalcContinuationMadeProgress (previous : option PrecalcContinuationProgress)
    (current : PrecalcContinuationProgress) : bool :=
  match previous with
  | None => false
  | Some previous =>
      match simulatedTimeS previous, simulatedTimeS current with
      | Some p, Some c => timedProgress previous current p c
      | None, None => legacyProgress previous current
      | _, _ => false
      end
  end.

(** ** The obligation and its ledger *)

Inductive ObligationState := pending | running | satisfied | blocked | cancelled.

#[export] Instance obligation_state_eq_dec : EqDecision ObligationState.
Proof. solve_decision. Defined.

Inductive AttemptState := submitted_ | accepted_ | rejected_ | failed_ | cancelled_.

Record Obligation := {
  state : ObligationState;
  attemptCount : Z;
  maxAttempts : Z;
  submitFailureCount : Z;
  continuationSegmentCount : Z;
  continuationNoProgressCount : Z;
  nextSubmitAt : option jsnum;
  latestSimJobId : option string;
  lastOutcome : option string;
  lastError : option string;
  sourceResultAttemptId : option string;
}.

Record Attempt := {
  simJobId : string;
  attemptNumber : Z;
  solverAttemptNumber : option Z;
  consumesAttempt : bool;
  attemptState : AttemptState;
  attemptOutcome : option string;
  meshRecoveryVersion : Z;
  continuationSegmentNumber : option Z;
  attemptProgress : option PrecalcContinuationProgress;
  continuationProgressed_ : option bool;
  resultAttemptId : option string;
  attemptError : option string;
}.

Definition MAX_PRECALC_NO_PROGRESS_SEGMENTS : Z := 2.
Definition ANSWERED_SUBMIT_RETRY_BACKOFF_MS : jsnum := 30000%float.
Definition INFRASTRUCTURE_RETRY_BACKOFF_MS : jsnum := 30000%float.

Definition requiresConservativePrecalcRetry (obligations : list Obligation) : bool :=
  existsb (fun o => (Z.abs (attemptCount o) <=? 2 ^ 53 - 1)%Z && (0 <? attemptCount o)%Z) obligations.

Definition attempt_of (job : string) (ledger : list Attempt) : option Attempt :=
  List.find (fun a => String.eqb (simJobId a) job) ledger.

(** [COALESCE(MAX(attempt_number), 0) + 1] *)
Definition nextPrecalcSubmissionSequence (ledger : list Attempt) : Z :=
  (fold_right Z.max 0 (List.map attemptNumber ledger) + 1)%Z.

Definition is_terminal (s : ObligationState) : bool :=
  match s with satisfied | blocked | cancelled => true | _ => false end.

Definition new_attempt (job : string) (number : Z) (ordinal : option Z) : Attempt := {|
  simJobId := job; attemptNumber := number; solverAttemptNumber := ordinal;
  consumesAttempt := match ordinal with Some _ => true | None => false end;
  attemptState := submitted_; attemptOutcome := None; meshRecoveryVersion := 0;
  continuationSegmentNumber := None; attemptProgress := None; continuationProgressed_ := None;
  resultAttemptId := None; attemptError := None |}.

(** ** Composition: the lease of a job *)

Definition LIVE_JOB : list string := ["pending"; "submitted"; "running"; "ingesting"].

(** [restartable]: the exact checkpoint of a same-case continuation, if it is one;
    [owned]: some live owner; [latest]: the status of the job that holds the lease. *)
Definition leasable (o : Obligation) (sameCase restartable owned : bool) (latest : option string)
    (now : jsnum) : bool :=
  negb (negb (bool_decide (state o = pending))
     || (if sameCase then negb restartable else (maxAttempts o <=? attemptCount o)%Z)
     || match nextSubmitAt o with Some t => (t > now)%js | None => false end
     || negb owned
     || match latest with Some s => mem s LIVE_JOB | None => false end).

Definition leased (o : Obligation) (job : string) : Obligation := {|
  state := state o; attemptCount := attemptCount o; maxAttempts := maxAttempts o;
  submitFailureCount := submitFailureCount o;
  continuationSegmentCount := continuationSegmentCount o;
  continuationNoProgressCount := continuationNoProgressCount o; nextSubmitAt := nextSubmitAt o;
  latestSimJobId := Some job; lastOutcome := Some "composed"; lastError := lastError o;
  sourceResultAttemptId := sourceResultAttemptId o |}.

(** One obligation of [composePhysicalPrecalcJob]: no job is inserted for a cell that may
    not be leased. *)
Definition composeLease (o : Obligation) (job : string) (sameCase restartable owned : bool)
    (latest : option string) (now : jsnum) : option Obligation :=
  if leasable o sameCase restartable owned latest now then Some (leased o job) else None.

(** ** The engine accepts the submission *)

Definition recordPrecalcObligationSubmission (o : Obligation) (ledger : list Attempt) (job : string)
    (sameCase : bool) : result (Obligation * list Attempt) :=
  match attempt_of job ledger with
  | Some _ => Ok (o, ledger)
  | None =>
      if (negb sameCase && (maxAttempts o <=? attemptCount o)%Z) || is_terminal (state o)
      then Throw "precalc obligation has no remaining submission attempt"
      else if negb (bool_decide (latestSimJobId o = Some job))
      then Throw "precalc obligation is leased to another job"
      else
        let number := nextPrecalcSubmissionSequence ledger in
        let ordinal := if sameCase then None else Some (attemptCount o + 1)%Z in
        Ok ({| state := running; attemptCount := default (attemptCount o) ordinal;
               maxAttempts := maxAttempts o; submitFailureCount := 0;
               continuationSegmentCount := continuationSegmentCount o;
               continuationNoProgressCount := continuationNoProgressCount o; nextSubmitAt := None;
               latestSimJobId := Some job; lastOutcome := Some "submitted"; lastError := None;
               sourceResultAttemptId := sourceResultAttemptId o |},
            ledger ++ [new_attempt job number ordinal])
  end.

(** ** The engine answers with a failure *)

Inductive SubmitFailure := SkipFailure | RetryWait | BlockedSubmit.

Definition retryable5xx (httpStatus : option jsnum) : bool :=
  match httpStatus with Some s => (s >= 500)%js && (s < 600)%js | None => false end.

Definition recordPrecalcObligationSubmitFailure (o : Obligation) (job error_ : string)
    (httpStatus : option jsnum) (now : jsnum) : Obligation * SubmitFailure :=
  if is_terminal (state o) then (o, SkipFailure)
  else if negb (bool_decide (latestSimJobId o = Some job)) then (o, SkipFailure)
  else if bool_decide (lastOutcome o = Some "submit_retry_wait") && bool_decide (lastError o = Some error_)
  then (o, RetryWait)
  else
    let retry := retryable5xx httpStatus && (submitFailureCount o <? 1)%Z in
    ({| state := if retry then pending else blocked; attemptCount := attemptCount o;
        maxAttempts := maxAttempts o; submitFailureCount := Z.min 2 (submitFailureCount o + 1);
        continuationSegmentCount := continuationSegmentCount o;
        continuationNoProgressCount := continuationNoProgressCount o;
        nextSubmitAt := if retry then Some (now + ANSWERED_SUBMIT_RETRY_BACKOFF_MS)%float else None;
        latestSimJobId := Some job;
        lastOutcome := Some (if retry then "submit_retry_wait" else "submit_blocked");
        lastError := Some error_; sourceResultAttemptId := sourceResultAttemptId o |},
     if retry then RetryWait else BlockedSubmit).

(** ** Terminal settlement *)

Record EvidenceRow := {
  id : string;
  status : string;
  regime : option string;
  error : option string;
  engineJobId : option string;
  engineCaseSlug : option string;
  qualityWarnings : option (list string);
  evidencePayload : jsval;
  forceSampleCount : option jsnum;
  fieldFrameCount : option jsnum;
  solverImplementationId : option string;
  fidelity : option string;
  failureDisposition : option string;
  queuedRestartable : bool;
  classification : option string;
  reasons : option (list string);
  acceptedTargetCellCompatible : bool;
}.

(** The measurements that the ledger keeps of the prior segment, and its evidence. *)
Record PriorRow := {
  progress_periods_retained : option jsnum;
  progress_simulated_time_s : option jsnum;
  progress_drift_frac : option jsnum;
  progress_stationary : option bool;
  evidence_payload : jsval;
}.

Record SettlementInput := {
  job : string;
  crossedEngineBoundary : bool;
  sameCaseContinuation : bool;
  exactPrecalcJob : bool;
  acknowledgedMeshRecoveryVersion : Z;
  evidence : list EvidenceRow;
  ownerLive : bool;
  priorRow : option PriorRow;
  revisionImplementation : option string;
  terminalError : option string;
  terminalFailureDisposition : option string;
  terminalContinuationFailureKind : option string;
  cancellation : option string;
  now : jsnum;
}.

(** Crash recovery: a job that crossed the engine boundary gets its ledger row. *)
Definition recoverSubmission (o : Obligation) (ledger : list Attempt) (i : SettlementInput) :
    Obligation * list Attempt :=
  match attempt_of (job i) ledger with
  | Some _ => (o, ledger)
  | None =>
      if (bool_decide (latestSimJobId o = None) || bool_decide (latestSimJobId o = Some (job i)))
         && crossedEngineBoundary i
      then
        let ordinal := if sameCaseContinuation i then None
                       else Some (Z.min (maxAttempts o) (attemptCount o + 1))%Z in
        let count := match ordinal with Some n => Z.max (attemptCount o) n | None => attemptCount o end in
        ({| state := state o; attemptCount := count; maxAttempts := maxAttempts o;
            submitFailureCount := submitFailureCount o;
            continuationSegmentCount := continuationSegmentCount o;
            continuationNoProgressCount := continuationNoProgressCount o;
            nextSubmitAt := nextSubmitAt o; latestSimJobId := Some (job i);
            lastOutcome := lastOutcome o; lastError := lastError o;
            sourceResultAttemptId := sourceResultAttemptId o |},
         ledger ++ [new_attempt (job i) (nextPrecalcSubmissionSequence ledger) ordinal])
      else (o, ledger)
  end.

Definition hasPrecalcContinuationWarning (warnings : option (list string)) : bool :=
  existsb (fun warning =>
    JsString.includes warning URANS_BUDGET_STOP_MARKER ||
    JsString.includes warning URANS_CONTINUATION_REQUIRED_MARKER) (default [] warnings).

Definition is_precalc_evidence (row : EvidenceRow) : bool :=
  bool_decide (fidelity row = Some "urans_precalc") || bool_decide (regime row = Some "urans").

Definition failure_fallback (row : EvidenceRow) : bool :=
  String.eqb (status row) "failed" &&
  match failureDisposition row with
  | Some d => negb (String.eqb d "none")
  | None => isDeterministicMeshBlockerError (error row)
  end.

Definition is_accepted (row : EvidenceRow) : bool :=
  bool_decide (classification row = Some "accepted") && acceptedTargetCellCompatible row
  && negb (hasPrecalcContinuationWarning (qualityWarnings row)) && negb (queuedRestartable row).

Definition acceptedRow (i : SettlementInput) : option EvidenceRow :=
  List.find is_accepted (List.filter is_precalc_evidence (evidence i)).

Definition judgedRow (i : SettlementInput) : option EvidenceRow :=
  let precalcEvidence := List.filter is_precalc_evidence (evidence i) in
  let fallback := if exactPrecalcJob i then List.find failure_fallback (evidence i) else None in
  coalesce_option (acceptedRow i)
    (coalesce_option (List.find (fun row => negb (bool_decide (classification row = None))) precalcEvidence)
      (coalesce_option (head precalcEvidence) fallback)).

Definition of_judged {A} (f : EvidenceRow -> option A) (i : SettlementInput) : option A :=
  match judgedRow i with Some row => f row | None => None end.

Definition errorOf (i : SettlementInput) : option string :=
  coalesce_option (of_judged error i) (terminalError i).

Definition dispositionOf (i : SettlementInput) : option string :=
  coalesce_option (of_judged failureDisposition i) (terminalFailureDisposition i).

Definition continuationFailureKind (i : SettlementInput) : option string :=
  if sameCaseContinuation i then terminalContinuationFailureKind i else None.

Definition continuationPermanent (i : SettlementInput) : bool :=
  bool_decide (continuationFailureKind i = Some "permanent").
Definition continuationTransient (i : SettlementInput) : bool :=
  bool_decide (continuationFailureKind i = Some "transient").

Definition deterministic (i : SettlementInput) : bool :=
  bool_decide (continuationFailureKind i = None) &&
  match dispositionOf i with
  | Some d => String.eqb d "deterministic_mesh" || String.eqb d "material_domain"
  | None => isDeterministicMeshBlockerError (errorOf i)
  end.

Definition has_text (o : option string) : bool :=
  match truthy_string o with Some _ => true | None => false end.

Definition restartable (i : SettlementInput) : bool :=
  match judgedRow i with
  | Some row => has_text (engineJobId row) && has_text (engineCaseSlug row)
                && (hasPrecalcContinuationWarning (qualityWarnings row) || queuedRestartable row)
  | None => false
  end.

Definition transientFailure (i : SettlementInput) : bool :=
  has_text (errorOf i) && negb (deterministic i) &&
  match judgedRow i with Some row => String.eqb (status row) "failed" | None => true end.

Definition infrastructure (i : SettlementInput) : bool :=
  continuationTransient i || bool_decide (dispositionOf i = Some "infrastructure")
  || (bool_decide (cancellation i = Some "transient") && bool_decide (judgedRow i = None)).

Definition currentProgress (i : SettlementInput) : PrecalcContinuationProgress :=
  precalcContinuationProgressFromEvidence
    (match judgedRow i with Some row => evidencePayload row | None => JUndef end).

Definition physicalContinuationSegment (i : SettlementInput) : bool :=
  sameCaseContinuation i && negb (bool_decide (judgedRow i = None)) && negb (continuationPermanent i)
  && negb (continuationTransient i) && negb (infrastructure i) && negb (deterministic i).

(** The ledger's columns, else what its evidence says. *)
Definition previousProgress (i : SettlementInput) : option PrecalcContinuationProgress :=
  match priorRow i with
  | None => None
  | Some prior =>
      let fallbackPrior := precalcContinuationProgressFromEvidence (evidence_payload prior) in
      Some {|
        periodsRetained := coalesce_option (progress_periods_retained prior) (periodsRetained fallbackPrior);
        simulatedTimeS := coalesce_option (progress_simulated_time_s prior) (simulatedTimeS fallbackPrior);
        periodS := periodS fallbackPrior;
        driftFrac := coalesce_option (progress_drift_frac prior) (driftFrac fallbackPrior);
        stationary := coalesce_option (progress_stationary prior) (stationary fallbackPrior);
        terminalCleanCycles := terminalCleanCycles fallbackPrior;
        requiredCleanCycles := requiredCleanCycles fallbackPrior;
        cleanCycleCount := cleanCycleCount fallbackPrior |}
  end.

Definition continuationProgressed (i : SettlementInput) : option bool :=
  if physicalContinuationSegment i
  then Some (precalcContinuationMadeProgress (previousProgress i) (currentProgress i)) else None.

Definition segmentCount (o : Obligation) (i : SettlementInput) : Z :=
  if physicalContinuationSegment i then (continuationSegmentCount o + 1)%Z else continuationSegmentCount o.

Definition noProgressCount (o : Obligation) (i : SettlementInput) : Z :=
  match continuationProgressed i with
  | Some true => 0
  | Some false => (continuationNoProgressCount o + 1)%Z
  | None => continuationNoProgressCount o
  end.

Definition noProgressExhausted (o : Obligation) (i : SettlementInput) : bool :=
  physicalContinuationSegment i && bool_decide (acceptedRow i = None) && restartable i
  && (MAX_PRECALC_NO_PROGRESS_SEGMENTS <=? noProgressCount o i)%Z.

Definition recoveryPlan (i : SettlementInput) : PrecalcRecoveryPlan :=
  planPrecalcRecovery {|
    RecoveryPolicy.status :=
      match judgedRow i with
      | Some row => status row
      | None => if has_text (cancellation i) then "cancelled" else "failed"
      end;
    RecoveryPolicy.failureDisposition := dispositionOf i;
    RecoveryPolicy.classificationReasons := Some (default [] (of_judged reasons i));
    RecoveryPolicy.qualityWarnings := Some (default [] (of_judged qualityWarnings i));
    RecoveryPolicy.error := errorOf i;
    RecoveryPolicy.hasRestartableEvidence := restartable i;
    RecoveryPolicy.forceSampleCount := of_judged forceSampleCount i;
    RecoveryPolicy.fieldFrameCount := of_judged fieldFrameCount i;
    RecoveryPolicy.inputMeanScore := None; RecoveryPolicy.inputNoiseScore := None;
    RecoveryPolicy.observationProgress :=
      option_map (fun n => n / MIN_PERIODS)%float (periodsRetained (currentProgress i));
    RecoveryPolicy.continuationProgressed := continuationProgressed i |}.

(** The reserved solver ordinal returns to the budget: no CFD attempt took place. *)
Definition releasesSolverAttempt (submission : option Attempt) (i : SettlementInput) : bool :=
  match submission with Some a => consumesAttempt a | None => false end
  && bool_decide (acceptedRow i = None)
  && (continuationPermanent i || infrastructure i || deterministic i).

Definition judged_state (i : SettlementInput) : AttemptState :=
  match of_judged classification i with
  | Some c => if nonempty c then rejected_ else failed_
  | None => failed_
  end.

(** The next state of the obligation, of the attempt, and the outcome's label;
    [count] is the attempt count after a release. *)
Definition verdict (o : Obligation) (count : Z) (i : SettlementInput) :
    ObligationState * AttemptState * string :=
  let available := (count <? maxAttempts o)%Z in
  match acceptedRow i with
  | Some _ => (satisfied, accepted_, "accepted")
  | None =>
      if negb (ownerLive i) then (cancelled, cancelled_, "ownerless")
      else if continuationPermanent i then
        if available then (pending, failed_, "continuation_fresh_retry_pending")
        else (blocked, failed_, "continuation_permanent_failure")
      else if noProgressExhausted o i then
        (blocked, if infrastructure i then cancelled_ else judged_state i,
         "continuation_no_progress_exhausted")
      else if infrastructure i then (pending, cancelled_, "infrastructure_retry_wait")
      else if deterministic i then (blocked, failed_, "deterministic_failure")
      else if bool_decide (cancellation i = Some "explicit") then
        if available then (pending, cancelled_, "cancelled") else (blocked, cancelled_, "cancelled_exhausted")
      else if bool_decide (action (recoveryPlan i) = repair_media) then
        (blocked, judged_state i, precalcRecoveryOutcome (recoveryPlan i) false)
      else
        let exactContinuation :=
          bool_decide (action (recoveryPlan i) = continue_exact_case) && restartable i in
        let physicalRetryAvailable := consumesSolverAttempt (recoveryPlan i) && available in
        let next := if exactContinuation || physicalRetryAvailable then pending else blocked in
        (next, if transientFailure i then failed_ else judged_state i,
         precalcRecoveryOutcome (recoveryPlan i) (bool_decide (next = blocked)))
  end.

(** The audit of the attempt, written in any case. *)
Definition settledAttempt (o : Obligation) (i : SettlementInput) (next : AttemptState) (outcome : string)
    (release : bool) (a : Attempt) : Attempt := {|
  simJobId := simJobId a; attemptNumber := attemptNumber a;
  solverAttemptNumber := if release then None else solverAttemptNumber a;
  consumesAttempt := if release then false else consumesAttempt a;
  attemptState := next; attemptOutcome := Some outcome;
  meshRecoveryVersion := if (meshRecoveryVersion a =? 0)%Z then acknowledgedMeshRecoveryVersion i
                         else meshRecoveryVersion a;
  continuationSegmentNumber :=
    if physicalContinuationSegment i then Some (continuationSegmentCount o + 1)%Z else None;
  attemptProgress := Some (currentProgress i); continuationProgressed_ := continuationProgressed i;
  resultAttemptId := option_map id (judgedRow i); attemptError := errorOf i |}.

Definition settleLedger (ledger : list Attempt) (job : string) (f : Attempt -> Attempt) : list Attempt :=
  List.map (fun a => if String.eqb (simJobId a) job then f a else a) ledger.

(** Accepted evidence is ground truth, whoever holds the lease. *)
Definition acceptedObligation (o : Obligation) (i : SettlementInput) (row : EvidenceRow) : Obligation := {|
  state := satisfied; attemptCount := attemptCount o; maxAttempts := maxAttempts o;
  submitFailureCount := submitFailureCount o; continuationSegmentCount := segmentCount o i;
  continuationNoProgressCount := 0; nextSubmitAt := None; latestSimJobId := latestSimJobId o;
  lastOutcome := Some "accepted"; lastError := None; sourceResultAttemptId := Some (id row) |}.

Definition settledObligation (o : Obligation) (count : Z) (i : SettlementInput) (next : ObligationState)
    (outcome : string) : Obligation := {|
  state := next; attemptCount := count; maxAttempts := maxAttempts o;
  submitFailureCount := submitFailureCount o; continuationSegmentCount := segmentCount o i;
  continuationNoProgressCount := noProgressCount o i;
  nextSubmitAt :=
    if bool_decide (next = pending) && String.eqb outcome "infrastructure_retry_wait"
    then Some (now i + INFRASTRUCTURE_RETRY_BACKOFF_MS)%float else None;
  latestSimJobId := Some (job i); lastOutcome := Some outcome; lastError := errorOf i;
  sourceResultAttemptId := sourceResultAttemptId o |}.

(** An incident needs the implementation it is about. *)
Definition unattributed (i : SettlementInput) (next : ObligationState) : bool :=
  ownerLive i && negb (bool_decide (next = cancelled))
  && (negb (bool_decide (judgedRow i = None)) || continuationPermanent i)
  && negb (has_text (coalesce_option (of_judged solverImplementationId i) (revisionImplementation i))).

(** One obligation of [settlePrecalcObligationsForJobInTransaction]. The last component
    is the list of the outcome that the obligation is added to. *)
Definition settlePrecalcObligation (o0 : Obligation) (ledger0 : list Attempt) (i : SettlementInput) :
    result (Obligation * list Attempt * option ObligationState) :=
  let '(o, ledger1) := recoverSubmission o0 ledger0 i in
  let submission := attempt_of (job i) ledger1 in
  let release := releasesSolverAttempt submission i in
  let count := if release then Z.max 0 (attemptCount o - 1) else attemptCount o in
  let '(next, attempt, outcome) := verdict o count i in
  let ledger := settleLedger ledger1 (job i) (settledAttempt o i attempt outcome release) in
  match acceptedRow i with
  | Some row => Ok (acceptedObligation o i row, ledger, Some satisfied)
  | None =>
      if match latestSimJobId o with Some j => nonempty j && negb (String.eqb j (job i)) | None => false end
      then Ok (o, ledger, None)
      else if bool_decide (state o = blocked) || bool_decide (state o = cancelled) then Ok (o, ledger, None)
      else if bool_decide (state o = satisfied) then Ok (o, ledger, None)
      else if unattributed i next
      then Throw "precalc obligation has no solver implementation for incident attribution"
      else Ok (settledObligation o count i next outcome, ledger, Some next)
  end.

(** ** The state of a request *)

Definition precalcRequestStateFromObligations (obligations : list Obligation) : string :=
  let any (p : ObligationState -> bool) := existsb (fun o => p (state o)) obligations in
  if any (fun s => match s with pending | running => true | _ => false end) then "pending"
  else if any (fun s => bool_decide (s = blocked)) then "blocked"
  else if any (fun s => bool_decide (s = satisfied)) then "done"
  else "cancelled".

(** ** Progress is physical *)

Lemma metric_finite (v : jsval) (x : jsnum) : finiteMetric v = Some x -> isFinite x = true.
Proof.
  destruct v; cbn [finiteMetric]; try done. destruct (isFinite n && _) eqn:E; [|done].
  intros [= <-]. by apply andb_true_iff in E as [E _].
Qed.

Lemma sub_above (p c t : jsnum) :
  isFinite p = true -> isFinite c = true -> isFinite t = true -> (0 < ord t)%Z ->
  PrimFloat.leb (c - p)%float t = false -> (ord p < ord c)%Z.
Proof.
  intros Fp Fc Ft Pt H. destruct (sub_sgn c p Fc Fp) as [Hn Hs].
  apply leb_false_ord in H; [|done|by apply isFinite_not_nan]. lia.
Qed.

(** The two times are those of the evidence: finite. *)
Definition timed (p : PrecalcContinuationProgress) (t : jsnum) : Prop :=
  simulatedTimeS p = Some t /\ isFinite t = true.

Lemma abs_finite (t : jsnum) : isFinite t = true -> isFinite (PrimFloat.abs t) = true.
Proof. rewrite !isFinite_ord, isNaN_abs, ord_abs. intros [Hn Hb]. split; [done|lia]. Qed.

Lemma tolerance_positive (t : jsnum) :
  isFinite t = true -> isNaN (timeTolerance t) = false /\ (0 < ord (timeTolerance t))%Z.
Proof.
  intros Ft. assert (H9 : (0 < ord 1e-9%float)%Z) by (vm_compute; reflexivity).
  destruct (Math_max_ord 1e-9%float (PrimFloat.abs t * 1e-9)%float) as [Hn Ho];
    [done|apply mul_not_nan; [by apply abs_finite|done]|].
  unfold timeTolerance. split; [done|lia].
Qed.

Lemma timed_progress (previous current : PrecalcContinuationProgress) (p c : jsnum) :
  isFinite p = true -> isFinite c = true -> timedProgress previous current p c = true ->
  (ord p < ord c)%Z /\
  (at_horizon current = true -> periodCompatible previous current = true /\ qualityImproved previous current = true).
Proof.
  intros Fp Fc. unfold timedProgress.
  destruct (PrimFloat.leb (c - p)%float (timeTolerance p)) eqn:E; [done|]. intros H. split.
  - destruct (sub_sgn c p Fc Fp) as [Hn Hs], (tolerance_positive p Fp) as [Ht Hp].
    apply leb_false_ord in E; [|done..]. lia.
  - intros Hh. rewrite Hh in H. by apply andb_true_iff in H.
Qed.

Lemma simulated_finite (payload : jsval) (t : jsnum) :
  simulatedTimeS (precalcContinuationProgressFromEvidence payload) = Some t -> isFinite t = true.
Proof.
  cbn [simulatedTimeS precalcContinuationProgressFromEvidence]. unfold coalesce_option.
  destruct (finiteMetric (prop "t_end" _)) eqn:E; [intros [= <-]; by eapply metric_finite|apply metric_finite].
Qed.

(** What the measurements must show for a segment to count as progress. *)
Definition advances (previous current : PrecalcContinuationProgress) : Prop :=
  (exists p c, simulatedTimeS previous = Some p /\ simulatedTimeS current = Some c /\ (ord p < ord c)%Z /\
     (at_horizon current = true ->
      periodCompatible previous current = true /\ qualityImproved previous current = true)) \/
  (exists p c, simulatedTimeS previous = None /\ simulatedTimeS current = None /\
     periodsRetained previous = Some p /\ periodsRetained current = Some c /\
     PrimFloat.leb 0.25 (c - p)%float = true /\ periodCompatible previous current = true /\
     (PrimFloat.ltb c MIN_PERIODS = false -> qualityImproved previous current = true)).

Lemma legacy_advances (previous current : PrecalcContinuationProgress) :
  legacyProgress previous current = true ->
  exists p c, periodsRetained previous = Some p /\ periodsRetained current = Some c /\
    PrimFloat.leb 0.25 (c - p)%float = true /\ periodCompatible previous current = true /\
    (PrimFloat.ltb c MIN_PERIODS = false -> qualityImproved previous current = true).
Proof.
  unfold legacyProgress. destruct (periodsRetained current) as [c|], (periodsRetained previous) as [p|];
    try done; try (by destruct (periodS current)).
  destruct (periodS current), (periodS previous); try done.
  destruct (periodCompatible previous current); [|done].
  destruct (PrimFloat.leb 0.25 (c - p)%float) eqn:E; cbn; [|done].
  intros H. exists p, c. split_and!; try done. intros Hc. by rewrite Hc in H.
Qed.

(** A same-case continuation counts as progress only when the evidence shows it: either
    both window ends are known and the new one is strictly later, and, once the required
    periods are retained, the period is the same one and a quality measurement improved;
    or neither is known, at least a quarter of a compatible period was retained more, and
    beyond the required periods a quality measurement improved. *)
Theorem progress_advances (before after : jsval) :
  precalcContinuationMadeProgress (Some (precalcContinuationProgressFromEvidence before))
    (precalcContinuationProgressFromEvidence after) = true ->
  advances (precalcContinuationProgressFromEvidence before) (precalcContinuationProgressFromEvidence after).
Proof.
  unfold precalcContinuationMadeProgress. intros H.
  destruct (simulatedTimeS (_ before)) as [p|] eqn:Ep, (simulatedTimeS (_ after)) as [c|] eqn:Ec; try done.
  - left. exists p, c. apply simulated_finite in Ep as Fp. apply simulated_finite in Ec as Fc.
    by destruct (timed_progress _ _ p c Fp Fc H).
  - right. destruct (legacy_advances _ _ H) as (p & c & Hl). exists p, c. split_and!; by try apply Hl.
Qed.

(** Two segments of one wake: later, and with the same period. *)
Definition segment_payload (t_end period : jsnum) : jsval :=
  JObj [("frame_track", JObj [("window", JObj [("t_end", JNum t_end)]); ("period_s", JNum period)])].

Lemma progress_advances_witness :
  advances (precalcContinuationProgressFromEvidence (segment_payload 1 0.1))
    (precalcContinuationProgressFromEvidence (segment_payload 2 0.101)).
Proof. apply (progress_advances (segment_payload 1 0.1) (segment_payload 2 0.101)). vm_compute. reflexivity. Defined.

(** ** The life of an obligation *)

Definition World : Type := Obligation * list Attempt.

Inductive Event :=
  | Compose (job : string) (sameCase restartable owned : bool) (latest : option string) (now : jsnum)
  | Submit (job : string) (sameCase : bool)
  | Fail_ (job error_ : string) (httpStatus : option jsnum) (now : jsnum)
  | Settle (i : SettlementInput).

(** A transaction that throws is rolled back. *)
Definition step (w : World) (e : Event) : World :=
  match e with
  | Compose job sameCase restartable owned latest now =>
      match composeLease w.1 job sameCase restartable owned latest now with
      | Some o => (o, w.2)
      | None => w
      end
  | Submit job sameCase =>
      match recordPrecalcObligationSubmission w.1 w.2 job sameCase with Ok w' => w' | Throw _ => w end
  | Fail_ job error_ httpStatus now => ((recordPrecalcObligationSubmitFailure w.1 job error_ httpStatus now).1, w.2)
  | Settle i =>
      match settlePrecalcObligation w.1 w.2 i with Ok (o, ledger, _) => (o, ledger) | Throw _ => w end
  end.

Definition run (w : World) (events : list Event) : World := fold_left step events w.

(** Counters in range, one ledger row per job, one number per row. *)
Record sound_obligation (o : Obligation) : Prop := {
  so_attempts : (0 <= attemptCount o <= maxAttempts o)%Z;
  so_failures : (0 <= submitFailureCount o <= 2)%Z;
  so_segments : (0 <= continuationNoProgressCount o <= continuationSegmentCount o)%Z }.

Record sound_ledger (ledger : list Attempt) : Prop := {
  sl_jobs : NoDup (List.map simJobId ledger);
  sl_numbers : NoDup (List.map attemptNumber ledger) }.

Definition sound_world (w : World) : Prop := sound_obligation w.1 /\ sound_ledger w.2.

Lemma sequence_above (ledger : list Attempt) (a : Attempt) :
  In a ledger -> (attemptNumber a < nextPrecalcSubmissionSequence ledger)%Z.
Proof.
  unfold nextPrecalcSubmissionSequence. intros H.
  enough (attemptNumber a <= fold_right Z.max 0 (List.map attemptNumber ledger))%Z by lia.
  induction ledger as [|b l IH]; [done|]. destruct H as [->|H]; cbn; [lia|].
  apply IH in H. lia.
Qed.

Lemma attempt_of_none (job : string) (ledger : list Attempt) (a : Attempt) :
  attempt_of job ledger = None -> In a ledger -> simJobId a <> job.
Proof.
  intros H Ha E. eapply List.find_none in H; [|exact Ha]. cbn in H. by apply String.eqb_neq in H.
Qed.

Lemma nodup_snoc {A B} (f : A -> B) (l : list A) (a : A) :
  NoDup (List.map f l) -> (forall b, In b l -> f b <> f a) -> NoDup (List.map f (l ++ [a])).
Proof.
  intros Hn Hf. rewrite List.map_app. apply list_relations.list.NoDup_app. split_and!; [done| |apply NoDup_singleton].
  intros x Hx Ha. apply list_elem_of_In, in_map_iff in Hx as (b & <- & Hb).
  cbn in Ha. apply list_elem_of_singleton in Ha. by apply (Hf b Hb).
Qed.

Lemma snoc_sound (ledger : list Attempt) (job : string) (ordinal : option Z) :
  sound_ledger ledger -> attempt_of job ledger = None ->
  sound_ledger (ledger ++ [new_attempt job (nextPrecalcSubmissionSequence ledger) ordinal]).
Proof.
  intros [Hj Hn] Hnone. split; apply nodup_snoc; try done; intros b Hb; cbn.
  - by eapply attempt_of_none.
  - pose proof (sequence_above ledger b Hb). lia.
Qed.

Lemma settleLedger_sound (ledger : list Attempt) (job : string) (f : Attempt -> Attempt) :
  (forall a, simJobId (f a) = simJobId a /\ attemptNumber (f a) = attemptNumber a) ->
  sound_ledger ledger -> sound_ledger (settleLedger ledger job f).
Proof.
  intros Hf [Hj Hn]. unfold settleLedger.
  split; rewrite List.map_map; [erewrite List.map_ext; [exact Hj|]|erewrite List.map_ext; [exact Hn|]];
    intros a; cbn; destruct (String.eqb _ _); by try apply Hf.
Qed.

Lemma recover_sound (o : Obligation) (ledger : list Attempt) (i : SettlementInput) :
  sound_obligation o -> sound_ledger ledger ->
  sound_obligation (recoverSubmission o ledger i).1 /\ sound_ledger (recoverSubmission o ledger i).2.
Proof.
  intros [Ha Hf Hs] Hl. unfold recoverSubmission.
  destruct (attempt_of _ _) eqn:E; [done|]. destruct (_ && _); [|done]. split.
  - destruct (sameCaseContinuation i); split; cbn; lia.
  - by apply snoc_sound.
Qed.

Lemma progress_counts (o : Obligation) (i : SettlementInput) :
  (0 <= continuationNoProgressCount o <= continuationSegmentCount o)%Z ->
  (0 <= noProgressCount o i <= segmentCount o i)%Z.
Proof.
  unfold noProgressCount, segmentCount, continuationProgressed.
  destruct (physicalContinuationSegment i); [|done].
  destruct (precalcContinuationMadeProgress _ _); lia.
Qed.

(** The parts of a settlement: the recovered submission, what a release gives back, and
    the decision. *)
Definition recovered (o0 : Obligation) (ledger0 : list Attempt) (i : SettlementInput) : Obligation :=
  (recoverSubmission o0 ledger0 i).1.

Definition countAfter (o0 : Obligation) (ledger0 : list Attempt) (i : SettlementInput) : Z :=
  let '(o, ledger1) := recoverSubmission o0 ledger0 i in
  if releasesSolverAttempt (attempt_of (job i) ledger1) i then Z.max 0 (attemptCount o - 1)
  else attemptCount o.

(** A settlement accepts, decides, leaves the obligation, or throws. *)
Variant Settled (o0 : Obligation) (ledger0 : list Attempt) (i : SettlementInput) :
    Obligation -> option ObligationState -> Prop :=
  | SettledAccepted row :
      acceptedRow i = Some row ->
      Settled o0 ledger0 i (acceptedObligation (recovered o0 ledger0 i) i row) (Some satisfied)
  | SettledLeft :
      acceptedRow i = None -> Settled o0 ledger0 i (recovered o0 ledger0 i) None
  | SettledDecided next attempt outcome :
      acceptedRow i = None -> is_terminal (state o0) = false ->
      verdict (recovered o0 ledger0 i) (countAfter o0 ledger0 i) i = (next, attempt, outcome) ->
      Settled o0 ledger0 i
        (settledObligation (recovered o0 ledger0 i) (countAfter o0 ledger0 i) i next outcome) (Some next).

Lemma recovered_state (o : Obligation) (ledger : list Attempt) (i : SettlementInput) :
  state (recovered o ledger i) = state o /\
  maxAttempts (recovered o ledger i) = maxAttempts o /\
  continuationNoProgressCount (recovered o ledger i) = continuationNoProgressCount o /\
  sourceResultAttemptId (recovered o ledger i) = sourceResultAttemptId o.
Proof.
  unfold recovered, recoverSubmission. destruct (attempt_of _ _); [done|]. by destruct (_ && _).
Qed.

Lemma settle_cases (o0 : Obligation) (ledger0 : list Attempt) (i : SettlementInput) o ledger out :
  settlePrecalcObligation o0 ledger0 i = Ok (o, ledger, out) -> Settled o0 ledger0 i o out.
Proof.
  unfold settlePrecalcObligation.
  destruct (recovered_state o0 ledger0 i) as [Hst _]. pose proof (SettledDecided o0 ledger0 i) as Hd.
  pose proof (SettledAccepted o0 ledger0 i) as Ha. pose proof (SettledLeft o0 ledger0 i) as Hl.
  unfold recovered, countAfter in *. destruct (recoverSubmission o0 ledger0 i) as [o1 ledger1].
  cbv zeta. destruct (verdict _ _ i) as [[next attempt] outcome]. cbn [fst snd] in *.
  destruct (acceptedRow i) as [row|]; [intros [= <- _ <-]; by apply Ha|].
  destruct (match latestSimJobId o1 with Some _ => _ | None => _ end); [intros [= <- _ <-]; by apply Hl|].
  destruct (_ || _) eqn:Eb; [intros [= <- _ <-]; by apply Hl|].
  destruct (bool_decide (state o1 = satisfied)) eqn:Es; [intros [= <- _ <-]; by apply Hl|].
  destruct (unattributed i next); [done|]. intros [= <- _ <-]. apply (Hd next attempt outcome); [done| |done].
  rewrite <- Hst. apply orb_false_iff in Eb as [E1 E2]. rewrite !bool_decide_eq_false in *. by destruct (state o1).
Qed.

Lemma settle_ledger (o0 : Obligation) (ledger0 : list Attempt) (i : SettlementInput) o ledger out :
  settlePrecalcObligation o0 ledger0 i = Ok (o, ledger, out) ->
  exists f, ledger = settleLedger (recoverSubmission o0 ledger0 i).2 (job i) f /\
    forall a, simJobId (f a) = simJobId a /\ attemptNumber (f a) = attemptNumber a.
Proof.
  unfold settlePrecalcObligation. destruct (recoverSubmission o0 ledger0 i) as [o1 ledger1]. cbv zeta.
  destruct (verdict _ _ i) as [[next attempt] outcome]. cbn [snd]. intros H.
  eexists (settledAttempt o1 i attempt outcome _). split; [|done].
  destruct (acceptedRow i) as [row|]; [by injection H as <- <- <-|].
  repeat match type of H with (if ?b then _ else _) = _ => destruct b end; by simplify_eq.
Qed.

Lemma countAfter_range (o : Obligation) (ledger : list Attempt) (i : SettlementInput) :
  sound_obligation (recovered o ledger i) ->
  (0 <= countAfter o ledger i <= maxAttempts (recovered o ledger i))%Z.
Proof.
  unfold recovered, countAfter. destruct (recoverSubmission o ledger i) as [o1 l1]. cbn [fst].
  intros [Ha _ _]. destruct (releasesSolverAttempt _ i); lia.
Qed.

Lemma settle_sound (o : Obligation) (ledger : list Attempt) (i : SettlementInput) o' out :
  sound_obligation o -> sound_ledger ledger -> Settled o ledger i o' out -> sound_obligation o'.
Proof.
  intros Ho Hl H. destruct (recover_sound o ledger i Ho Hl) as [Hr _]. fold (recovered o ledger i) in Hr.
  pose proof (countAfter_range o ledger i Hr) as Hc. destruct Hr as [Ha Hf Hs].
  pose proof (progress_counts (recovered o ledger i) i Hs) as Hp.
  destruct H; [|done|]; split; cbn; lia.
Qed.

Lemma compose_cases (o : Obligation) (job : string) (sameCase restartable owned : bool)
    (latest : option string) (now : jsnum) (o' : Obligation) :
  composeLease o job sameCase restartable owned latest now = Some o' ->
  state o = pending /\ state o' = pending /\ attemptCount o' = attemptCount o /\
  maxAttempts o' = maxAttempts o /\ submitFailureCount o' = submitFailureCount o /\
  continuationSegmentCount o' = continuationSegmentCount o /\
  continuationNoProgressCount o' = continuationNoProgressCount o.
Proof.
  unfold composeLease, leasable. destruct (bool_decide (state o = pending)) eqn:E; [|done].
  apply bool_decide_eq_true in E. destruct (negb (_ || _)); [|done]. intros [= <-]. cbn. by rewrite E.
Qed.

(** What an accepted submission changes. *)
Lemma submission_cases (o : Obligation) (ledger : list Attempt) (job : string) (sameCase : bool) o' ledger' :
  recordPrecalcObligationSubmission o ledger job sameCase = Ok (o', ledger') ->
  (o' = o /\ ledger' = ledger /\ attempt_of job ledger <> None) \/
  (attempt_of job ledger = None /\ is_terminal (state o) = false /\ state o' = running /\
   attemptCount o' = (attemptCount o + if sameCase then 0 else 1)%Z /\
   (sameCase = false -> (attemptCount o < maxAttempts o)%Z) /\
   maxAttempts o' = maxAttempts o /\ submitFailureCount o' = 0%Z /\
   continuationSegmentCount o' = continuationSegmentCount o /\
   continuationNoProgressCount o' = continuationNoProgressCount o /\
   exists ordinal, ledger' = ledger ++ [new_attempt job (nextPrecalcSubmissionSequence ledger) ordinal]).
Proof.
  unfold recordPrecalcObligationSubmission. destruct (attempt_of job ledger) eqn:E.
  { intros [= <- <-]. left. done. }
  destruct (_ || is_terminal (state o)) eqn:Eg; [done|]. destruct (negb (bool_decide _)); [done|].
  intros [= <- <-]. right. apply orb_false_iff in Eg as [Eg ->].
  destruct sameCase; cbn in *; rewrite ?Z.leb_gt in Eg; split_and!; try done; try lia; by eexists.
Qed.

Lemma submit_failure_cases (o : Obligation) (job error_ : string) (http : option jsnum) (now : jsnum) :
  let o' := (recordPrecalcObligationSubmitFailure o job error_ http now).1 in
  o' = o \/
  (is_terminal (state o) = false /\ state o' <> satisfied /\ attemptCount o' = attemptCount o /\
   maxAttempts o' = maxAttempts o /\ submitFailureCount o' = Z.min 2 (submitFailureCount o + 1) /\
   continuationSegmentCount o' = continuationSegmentCount o /\
   continuationNoProgressCount o' = continuationNoProgressCount o).
Proof.
  unfold recordPrecalcObligationSubmitFailure. destruct (is_terminal (state o)); [by left|].
  destruct (negb _); [by left|]. destruct (_ && bool_decide (lastError o = _)); [by left|]. right. cbn.
  split_and!; try done. by destruct (_ && _).
Qed.

Lemma step_sound (w : World) (e : Event) : sound_world w -> sound_world (step w e).
Proof.
  destruct w as [o ledger]. intros [Ho Hl]. cbn [fst snd] in *.
  destruct e as [job sc r ow la nw|job sc|job er http nw|i]; cbn [step fst snd].
  - destruct (composeLease _ _ _ _ _ _ _) as [o'|] eqn:E; [|done].
    apply compose_cases in E as (_ & _ & Ea & Em & Ef & Es & En). split; [|done]. destruct Ho. split; cbn; lia.
  - destruct (recordPrecalcObligationSubmission _ _ _ _) as [[o' l']|?] eqn:E; [|done].
    apply submission_cases in E as [(-> & -> & _)|(Hn & _ & _ & Ea & Hb & Em & Ef & Es & En & [? ->])]; [done|].
    split; [|by apply snoc_sound]. destruct Ho. split; cbn; [destruct sc; [|specialize (Hb eq_refl)]|..]; lia.
  - destruct (submit_failure_cases o job er http nw) as [E|(_ & _ & Ea & Em & Ef & Es & En)]; cbv zeta in *.
    + by rewrite E.
    + split; [|done]. destruct Ho. split; cbn [fst]; lia.
  - destruct (settlePrecalcObligation _ _ _) as [[[o' l'] out]|?] eqn:E; [|done]. split; cbn.
    + eapply settle_sound; [exact Ho|exact Hl|]. by apply settle_cases in E.
    + apply settle_ledger in E as (f & -> & Hf). apply settleLedger_sound; [done|]. by apply recover_sound.
Qed.

Lemma run_sound (events : list Event) (w : World) : sound_world w -> sound_world (run w events).
Proof. revert w. induction events as [|e es IH]; intros w Hw; [done|]. by apply IH, step_sound. Qed.

Lemma step_max (w : World) (e : Event) : maxAttempts (step w e).1 = maxAttempts w.1.
Proof.
  destruct w as [o ledger]. destruct e as [job sc r ow la nw|job sc|job er http nw|i]; cbn [step fst snd].
  - destruct (composeLease _ _ _ _ _ _ _) eqn:E; [|done]. by apply compose_cases in E as (_ & _ & _ & ? & _).
  - destruct (recordPrecalcObligationSubmission _ _ _ _) as [[o' l']|?] eqn:E; [|done].
    by apply submission_cases in E as [(-> & _)|(_ & _ & _ & _ & _ & ? & _)].
  - destruct (submit_failure_cases o job er http nw) as [->|(_ & _ & _ & ? & _)]; done.
  - destruct (settlePrecalcObligation _ _ _) as [[[o' l'] out]|?] eqn:E; [|done].
    destruct (recovered_state o ledger i) as (_ & Hm & _). apply settle_cases in E. by destruct E.
Qed.

Lemma run_max (events : list Event) (w : World) : maxAttempts (run w events).1 = maxAttempts w.1.
Proof.
  revert w. induction events as [|e es IH]; intros w; [done|].
  change (run w (e :: es)) with (run (step w e) es). by rewrite IH, step_max.
Qed.

(** C23. Whatever sequence of compositions, accepted and failed submissions and terminal
    settlements an obligation goes through, its attempts stay within its budget (which
    never changes), its submit failures within two, its segments without progress within
    its segments, and its ledger keeps one row per job and one number per row. *)
Theorem counters_bounded (w : World) (events : list Event) :
  sound_world w -> sound_world (run w events) /\ maxAttempts (run w events).1 = maxAttempts w.1.
Proof. intros Hw. split; [by apply run_sound|apply run_max]. Qed.

(** ** Satisfaction *)

(** What a row must show to satisfy an obligation. *)
Record acceptable (row : EvidenceRow) : Prop := {
  acc_tier : fidelity row = Some "urans_precalc" \/ regime row = Some "urans";
  acc_class : classification row = Some "accepted";
  acc_target : acceptedTargetCellCompatible row = true;
  acc_complete : hasPrecalcContinuationWarning (qualityWarnings row) = false;
  acc_done : queuedRestartable row = false }.

Lemma accepted_is_evidence (i : SettlementInput) (row : EvidenceRow) :
  acceptedRow i = Some row -> In row (evidence i) /\ acceptable row.
Proof.
  intros [H Ha]%List.find_some. apply List.filter_In in H as [H Hp]. split; [done|].
  unfold is_accepted in Ha. unfold is_precalc_evidence in Hp.
  rewrite !andb_true_iff, !negb_true_iff, bool_decide_eq_true in Ha.
  rewrite orb_true_iff, !bool_decide_eq_true in Hp. destruct Ha as [[[? ?] ?] ?]. by split.
Qed.

Lemma verdict_not_satisfied (o : Obligation) (count : Z) (i : SettlementInput) next attempt outcome :
  acceptedRow i = None -> verdict o count i = (next, attempt, outcome) -> next <> satisfied.
Proof.
  unfold verdict. intros ->. cbv zeta.
  repeat match goal with |- (if ?b then _ else _) = _ -> _ => destruct b end; intros [= <- _ _]; by repeat case_match.
Qed.

Definition grounded (events : list Event) (o : Obligation) : Prop :=
  state o = satisfied ->
  exists i row, In (Settle i) events /\ In row (evidence i) /\ acceptable row /\
    sourceResultAttemptId o = Some (id row).

(** A step leaves a satisfied obligation's source, or is the settlement that gives it. *)
Lemma step_satisfied (w : World) (e : Event) :
  state (step w e).1 = satisfied ->
  (state w.1 = satisfied /\ sourceResultAttemptId (step w e).1 = sourceResultAttemptId w.1) \/
  (exists i row, e = Settle i /\ acceptedRow i = Some row /\ sourceResultAttemptId (step w e).1 = Some (id row)).
Proof.
  destruct w as [o ledger]. destruct e as [job sc r ow la nw|job sc|job er http nw|i]; cbn [step fst snd].
  - destruct (composeLease _ _ _ _ _ _ _) eqn:E; [|by left].
    apply compose_cases in E as (_ & Ep & _). cbn. congruence.
  - destruct (recordPrecalcObligationSubmission _ _ _ _) as [[o' l']|?] eqn:E; [|by left].
    apply submission_cases in E as [(-> & _)|(_ & _ & Ep & _)]; [by left|]. cbn. congruence.
  - destruct (submit_failure_cases o job er http nw) as [->|(_ & Hn & _)]; [by left|]. done.
  - destruct (settlePrecalcObligation _ _ _) as [[[o' l'] out]|?] eqn:E; [|by left].
    apply settle_cases in E. destruct (recovered_state o ledger i) as (Hs & _ & _ & Hi). cbn [fst].
    destruct E as [row Hr|_|next attempt outcome Hn _ Hv]; cbn.
    + intros _. right. by exists i, row.
    + intros H. left. by rewrite Hi, <- Hs.
    + intros ->. by apply verdict_not_satisfied in Hv.
Qed.

Lemma run_grounded (events : list Event) (w : World) (past : list Event) :
  grounded past w.1 -> grounded (past ++ events) (run w events).1.
Proof.
  revert w past. induction events as [|e es IH]; intros w past Hg; [by rewrite app_nil_r|].
  replace (past ++ e :: es) with ((past ++ [e]) ++ es) by by rewrite <- app_assoc.
  apply (IH (step w e)). intros Hs.
  destruct (step_satisfied w e Hs) as [[Hw ->]|(i & row & -> & Hr & ->)].
  - destruct (Hg Hw) as (i & row & Hin & H). exists i, row. split; [|done]. apply in_app_iff. by left.
  - exists i, row. apply accepted_is_evidence in Hr as [? ?]. split_and!; try done.
    apply in_app_iff. right. by left.
Qed.

(** C8. A preliminary obligation that was not satisfied becomes satisfied only through a
    settlement whose evidence holds a URANS-tier row of the cell with an accepted
    classification, a compatible target, no continuation warning and no queued restart;
    the obligation then names such a row as its source. *)
Theorem satisfied_needs_evidence (w : World) (events : list Event) :
  state w.1 <> satisfied -> state (run w events).1 = satisfied ->
  exists i row, In (Settle i) events /\ In row (evidence i) /\ acceptable row /\
    sourceResultAttemptId (run w events).1 = Some (id row).
Proof. intros Hn Hs. apply (run_grounded events w []); [|done]. intros H. by destruct (Hn H). Qed.

(** ** What a pending verdict leaves to do *)

Lemma verdict_pending (o : Obligation) (count : Z) (i : SettlementInput) attempt outcome :
  verdict o count i = (pending, attempt, outcome) ->
  ownerLive i = true /\
  ((count < maxAttempts o)%Z \/
   (infrastructure i = true /\ outcome = "infrastructure_retry_wait") \/
   (restartable i = true /\ action (recoveryPlan i) = continue_exact_case)).
Proof.
  unfold verdict. destruct (acceptedRow i); [done|]. destruct (ownerLive i); [|done].
  destruct (count <? maxAttempts o)%Z eqn:Ec; cbn [negb]; cbv zeta.
  { intros _. split; [done|]. left. lia. }
  destruct (continuationPermanent i); [done|]. destruct (noProgressExhausted o i); [done|].
  destruct (infrastructure i). { intros [= _ <-]. split; [done|]. right. by left. }
  destruct (deterministic i); [done|]. destruct (bool_decide (cancellation i = _)); [done|].
  destruct (bool_decide (action _ = repair_media)); [done|]. rewrite andb_false_r, orb_false_r.
  destruct (bool_decide (action (recoveryPlan i) = continue_exact_case)) eqn:Ea; [|done].
  apply bool_decide_eq_true in Ea. destruct (restartable i); [|done]. intros _. split; [done|]. right. right. done.
Qed.

Lemma continued_progress (input : PrecalcRecoveryPolicyInput) :
  action (planPrecalcRecovery input) = continue_exact_case ->
  RecoveryPolicy.continuationProgressed input <> Some false.
Proof.
  unfold planPrecalcRecovery. cbv zeta. destruct (scores _ _) as [[ev mean] noise].
  repeat match goal with |- context [if ?b then _ else _] => destruct b eqn:? end; try done.
  intros _. by repeat match goal with H : _ && _ = true |- _ => apply andb_true_iff in H as [? ?] end;
    rewrite negb_true_iff, bool_decide_eq_false in *.
Qed.

(** C22. A settlement leaves an obligation pending only when its owner lives and something
    can still be done: a physical attempt is left in the budget, or the solve was only
    interrupted and waits out the backoff, or the exact checkpoint can be continued and the
    last continuation was not one without progress. *)
Theorem pending_has_a_way_forward (o : Obligation) (ledger : list Attempt) (i : SettlementInput) o' ledger' :
  settlePrecalcObligation o ledger i = Ok (o', ledger', Some pending) ->
  ownerLive i = true /\
  ((attemptCount o' < maxAttempts o')%Z \/
   (infrastructure i = true /\ nextSubmitAt o' = Some (now i + INFRASTRUCTURE_RETRY_BACKOFF_MS)%float) \/
   (restartable i = true /\ action (recoveryPlan i) = continue_exact_case /\
    continuationProgressed i <> Some false)).
Proof.
  intros H%settle_cases. remember (Some pending) as out. destruct H as [| |next attempt outcome Hn _ Hv]; simplify_eq.
  destruct (verdict_pending _ _ _ _ _ Hv) as [Ho Hc]. split; [done|]. cbn.
  destruct Hc as [|[[Hi ->]|[Hr Ha]]]; [by left|by right; left|]. right. right.
  split_and!; [done..|]. by apply continued_progress in Ha.
Qed.

(** ** Stalled continuations and fresh solves end *)

(** A continuation segment that ended without acceptance and without progress. *)
Definition stalled (i : SettlementInput) : bool :=
  bool_decide (acceptedRow i = None) && physicalContinuationSegment i && restartable i
  && bool_decide (continuationProgressed i = Some false).

(** The settlement reaches the obligation. *)
Definition settles (w : World) (i : SettlementInput) : bool :=
  match settlePrecalcObligation w.1 w.2 i with Ok (_, _, Some _) => true | _ => false end.

(** A fresh solve is submitted. *)
Definition solves (w : World) (e : Event) : bool :=
  match e with
  | Submit job false =>
      match attempt_of job w.2, recordPrecalcObligationSubmission w.1 w.2 job false with
      | None, Ok _ => true
      | _, _ => false
      end
  | _ => false
  end.

(** A settlement gives the physical attempt of its job back to the budget: it accepts
    nothing, and the attempt ended in the infrastructure, in the set-up, or in a
    continuation that can never run. *)
Definition releases (w : World) (e : Event) : bool :=
  match e with
  | Settle i =>
      settles w i && releasesSolverAttempt (attempt_of (job i) (recoverSubmission w.1 w.2 i).2) i
  | _ => false
  end.

(** A stalled segment is settled. *)
Definition stalls (w : World) (e : Event) : bool :=
  match e with Settle i => settles w i && stalled i | _ => false end.

(** A segment with progress is settled. *)
Definition gains (w : World) (e : Event) : bool :=
  match e with
  | Settle i => settles w i && bool_decide (continuationProgressed i = Some true)
  | _ => false
  end.

Fixpoint count_steps (p : World -> Event -> bool) (w : World) (events : list Event) : Z :=
  match events with
  | [] => 0
  | e :: es => Z.b2z (p w e) + count_steps p (step w e) es
  end.

Lemma count_steps_nonneg (p : World -> Event -> bool) (events : list Event) (w : World) :
  (0 <= count_steps p w events)%Z.
Proof.
  revert w. induction events as [|e es IH]; intros w; cbn [count_steps]; [lia|].
  specialize (IH (step w e)). destruct (p w e); cbn; lia.
Qed.

(** How many stalled segments the obligation can still take. *)
Definition patience (w : World) : Z :=
  if is_terminal (state w.1) then 0%Z else Z.max 1 (2 - continuationNoProgressCount w.1).

Lemma stalled_verdict (o : Obligation) (count : Z) (i : SettlementInput) next attempt outcome :
  stalled i = true -> (1 <= continuationNoProgressCount o)%Z ->
  verdict o count i = (next, attempt, outcome) -> is_terminal next = true.
Proof.
  unfold stalled. rewrite !andb_true_iff, !bool_decide_eq_true. intros [[[Ha Hp] Hr] Hc] Hn.
  assert (Hm : continuationPermanent i = false).
  { unfold physicalContinuationSegment in Hp. rewrite !andb_true_iff, !negb_true_iff in Hp. tauto. }
  unfold verdict, noProgressExhausted, noProgressCount.
  rewrite Ha, Hp, Hr, Hc, Hm. destruct (ownerLive i); cbn; [|by intros [= <- _ _]].
  replace (MAX_PRECALC_NO_PROGRESS_SEGMENTS <=? continuationNoProgressCount o + 1)%Z with true.
  { by intros [= <- _ _]. }
  symmetry. unfold MAX_PRECALC_NO_PROGRESS_SEGMENTS. lia.
Qed.

(** What a settlement leaves of the budget and of the patience. *)
Lemma settle_budget (o : Obligation) (ledger : list Attempt) (i : SettlementInput) :
  (attemptCount o <= attemptCount (step (o, ledger) (Settle i)).1 + Z.b2z (releases (o, ledger) (Settle i)))%Z.
Proof.
  unfold releases, settles. cbn [step fst snd].
  assert (Hrec : (attemptCount o <= attemptCount (recovered o ledger i))%Z).
  { unfold recovered, recoverSubmission. destruct (attempt_of _ _); [cbn; lia|].
    destruct (_ && _); [|cbn; lia]. destruct (sameCaseContinuation i); cbn; lia. }
  destruct (settlePrecalcObligation o ledger i) as [[[o' l'] out]|?] eqn:E; cbn [fst snd]; [|cbn; lia].
  apply settle_cases in E. destruct E as [row Hrow|_|next attempt outcome _ _ _]; cbn;
    [destruct (releasesSolverAttempt _ i); cbn; lia|lia|].
  unfold recovered, countAfter in *. destruct (recoverSubmission o ledger i) as [o1 l1]. cbn [fst snd] in *.
  destruct (releasesSolverAttempt _ i); cbn; lia.
Qed.

Lemma step_budget (w : World) (e : Event) :
  (attemptCount w.1 + Z.b2z (solves w e) <= attemptCount (step w e).1 + Z.b2z (releases w e))%Z.
Proof.
  destruct w as [o ledger]. destruct e as [job sc r ow la nw|job sc|job er http nw|i].
  - cbn. destruct (composeLease _ _ _ _ _ _ _) eqn:E; cbn; [|lia].
    apply compose_cases in E as (_ & _ & -> & _). lia.
  - unfold solves. cbn [step fst snd releases].
    destruct (recordPrecalcObligationSubmission o ledger job sc) as [[o' l']|t] eqn:E; cbn [fst];
      [|destruct sc; [|rewrite E; destruct (attempt_of _ _)]; cbn; lia].
    apply submission_cases in E as Hc.
    destruct Hc as [(-> & _ & Hs)|(Hs & _ & _ & -> & _)], sc; rewrite ?E, ?Hs; cbn; try lia.
    destruct (attempt_of job ledger); [cbn; lia|done].
  - cbn [step fst snd solves releases].
    destruct (submit_failure_cases o job er http nw) as [->|(_ & _ & -> & _)]; cbn; lia.
  - pose proof (settle_budget o ledger i). cbn [solves fst Z.b2z]. lia.
Qed.

Lemma settle_patience (o : Obligation) (ledger : list Attempt) (i : SettlementInput) :
  (0 <= continuationNoProgressCount o)%Z ->
  (patience (step (o, ledger) (Settle i)) + Z.b2z (stalls (o, ledger) (Settle i)) <=
   patience (o, ledger) + Z.b2z (gains (o, ledger) (Settle i)))%Z.
Proof.
  intros H0. unfold stalls, gains, settles, patience. cbn [step fst snd].
  destruct (recovered_state o ledger i) as (Hs & _ & Hn & _).
  destruct (settlePrecalcObligation o ledger i) as [[[o' l'] out]|?] eqn:E; cbn [fst snd andb];
    [|destruct (is_terminal (state o)); cbn; lia].
  apply settle_cases in E. destruct E as [row Hrow|_|next attempt outcome _ Ht Hv].
  - unfold stalled. rewrite Hrow. destruct (is_terminal (state o)), (bool_decide (_ = Some true)); cbn; lia.
  - rewrite Hs, Hn. destruct (is_terminal (state o)); cbn; lia.
  - rewrite Ht. cbn [settledObligation state continuationNoProgressCount andb].
    pose proof (stalled_verdict (recovered o ledger i) (countAfter o ledger i) i next attempt outcome) as Hb.
    rewrite Hn in Hb.
    unfold noProgressCount. rewrite Hn. destruct (stalled i) eqn:Est; cbn [Z.b2z].
    + unfold stalled in Est. rewrite !andb_true_iff, !bool_decide_eq_true in Est. destruct Est as [_ ->].
      rewrite bool_decide_eq_false_2 by done. cbn [Z.b2z].
      destruct (decide (1 <= continuationNoProgressCount o)%Z) as [H1|H1];
        [rewrite (Hb eq_refl H1 Hv)|destruct (is_terminal next)]; lia.
    + destruct (continuationProgressed i) as [[]|];
        [rewrite bool_decide_eq_true_2 by done|rewrite bool_decide_eq_false_2 by done..];
        destruct (is_terminal next); cbn; lia.
Qed.

Lemma step_patience (w : World) (e : Event) :
  (0 <= continuationNoProgressCount w.1)%Z ->
  (patience (step w e) + Z.b2z (stalls w e) <= patience w + Z.b2z (gains w e))%Z.
Proof.
  destruct w as [o ledger]. intros H0. destruct e as [job sc r ow la nw|job sc|job er http nw|i];
    [..|by apply settle_patience]; cbn [stalls gains step fst snd Z.b2z]; unfold patience; cbn [fst snd].
  - destruct (composeLease _ _ _ _ _ _ _) eqn:E; cbn [fst]; [|lia].
    apply compose_cases in E as (-> & -> & _ & _ & _ & _ & ->). lia.
  - destruct (recordPrecalcObligationSubmission o ledger job sc) as [[o' l']|t] eqn:E; cbn [fst]; [|lia].
    apply submission_cases in E as [(-> & _)|(_ & -> & -> & _ & _ & _ & _ & _ & -> & _)]; cbn; lia.
  - destruct (submit_failure_cases o job er http nw) as [->|(-> & _ & _ & _ & _ & _ & ->)]; [lia|].
    destruct (is_terminal (state _)); lia.
Qed.

Lemma run_budget (events : list Event) (w : World) :
  (attemptCount w.1 + count_steps solves w events <=
   attemptCount (run w events).1 + count_steps releases w events)%Z.
Proof.
  revert w. induction events as [|e es IH]; intros w; cbn [count_steps]; [cbn; lia|].
  pose proof (step_budget w e). specialize (IH (step w e)).
  change (run w (e :: es)) with (run (step w e) es). lia.
Qed.

Lemma run_patience (events : list Event) (w : World) :
  sound_world w ->
  (patience (run w events) + count_steps stalls w events <= patience w + count_steps gains w events)%Z.
Proof.
  revert w. induction events as [|e es IH]; intros w Hw; cbn [count_steps]; [cbn; lia|].
  pose proof (so_segments _ (proj1 Hw)) as [Hn _]. pose proof (step_patience w e Hn).
  specialize (IH (step w e) (step_sound w e Hw)).
  change (run w (e :: es)) with (run (step w e) es). lia.
Qed.

(** C9. Retrying is paid for.  In every run of compositions, accepted and failed
    submissions and settlements, however long and whatever is settled: the fresh solves
    submitted are at most the attempts left in the budget plus those that settlements gave
    back (for infrastructure, set-up and permanent continuation failures, which do not
    count as attempts); the stalled continuation segments settled are at most two (one if a
    segment had already stalled) plus the segments with progress; and when the stalled ones
    reach that number the obligation has left the queue: it is satisfied, blocked or
    cancelled.  The administrative recoveries that reopen a blocked obligation are not
    among these events. *)
Theorem no_endless_retries (w : World) (events : list Event) :
  sound_world w ->
  let limit := (Z.max 1 (2 - continuationNoProgressCount w.1) + count_steps gains w events)%Z in
  (count_steps solves w events <= maxAttempts w.1 - attemptCount w.1 + count_steps releases w events)%Z /\
  (count_steps stalls w events <= limit)%Z /\
  (count_steps stalls w events = limit -> is_terminal (state (run w events).1) = true).
Proof.
  intros Hw limit. pose proof (run_budget events w). pose proof (run_patience events w Hw) as Hp.
  pose proof (so_attempts _ (proj1 (run_sound events w Hw))) as [_ Hb]. rewrite run_max in Hb.
  unfold patience in Hp. unfold limit. split; [lia|].
  destruct (is_terminal (state (run w events).1)), (is_terminal (state w.1)); split; lia || done.
Qed.

(** ** A life on concrete inputs *)

Definition start : World := ({|
  state := pending; attemptCount := 0; maxAttempts := 2; submitFailureCount := 0;
  continuationSegmentCount := 0; continuationNoProgressCount := 0; nextSubmitAt := None;
  latestSimJobId := None; lastOutcome := None; lastError := None; sourceResultAttemptId := None |}, []).

Definition sample_row (label status : string) (class err warning : option string)
    (t_end : jsnum) : EvidenceRow := {|
  id := label; status := status; regime := Some "urans"; error := err; engineJobId := Some "engine";
  engineCaseSlug := Some "case"; qualityWarnings := option_map (fun w => [w]) warning;
  evidencePayload := segment_payload t_end 0.1; forceSampleCount := None; fieldFrameCount := None;
  solverImplementationId := Some "implementation"; fidelity := Some "urans_precalc";
  failureDisposition := None; queuedRestartable := false; classification := class; reasons := None;
  acceptedTargetCellCompatible := true |}.

Definition sample_settlement (job : string) (same : bool) (row : EvidenceRow) : SettlementInput := {|
  job := job; crossedEngineBoundary := true; sameCaseContinuation := same; exactPrecalcJob := true;
  acknowledgedMeshRecoveryVersion := 0; evidence := [row]; ownerLive := true; priorRow := None;
  revisionImplementation := None; terminalError := None; terminalFailureDisposition := None;
  terminalContinuationFailureKind := None; cancellation := None; now := 0%float |}.

(** A segment that stopped at [t_end] and may be continued. *)
Definition unfinished (label : string) (t_end : jsnum) : EvidenceRow :=
  sample_row label "done" (Some "rejected") None (Some URANS_CONTINUATION_REQUIRED_MARKER) t_end.
Definition interrupted : EvidenceRow := {|
  id := "r0"; status := "failed"; regime := Some "urans"; error := Some "worker lost";
  engineJobId := Some "engine"; engineCaseSlug := None; qualityWarnings := None;
  evidencePayload := JUndef; forceSampleCount := None; fieldFrameCount := None;
  solverImplementationId := Some "implementation"; fidelity := Some "urans_precalc";
  failureDisposition := Some "infrastructure"; queuedRestartable := false; classification := None;
  reasons := None; acceptedTargetCellCompatible := true |}.
Definition finished : EvidenceRow := sample_row "r6" "done" (Some "accepted") None None 1.

(** The settlement of a continuation whose prior segment stopped at [t_prior]. *)
Definition continuation (job : string) (t_prior : jsnum) (row : EvidenceRow) : SettlementInput := {|
  job := job; crossedEngineBoundary := true; sameCaseContinuation := true; exactPrecalcJob := true;
  acknowledgedMeshRecoveryVersion := 0; evidence := [row]; ownerLive := true;
  priorRow := Some {| progress_periods_retained := None; progress_simulated_time_s := None;
                      progress_drift_frac := None; progress_stationary := None;
                      evidence_payload := segment_payload t_prior 0.1 |};
  revisionImplementation := None; terminalError := None; terminalFailureDisposition := None;
  terminalContinuationFailureKind := None; cancellation := None; now := 0%float |}.

(** A fresh solve whose attempt is lost to the infrastructure and given back, one that stops
    at time 0.5, a continuation that does not get further, one that reaches time 1, two more
    that do not get further, and a composition that is refused. *)
Definition stalled_life : list Event :=
  [Compose "j0" false false true None 0; Submit "j0" false;
   Settle (sample_settlement "j0" false interrupted);
   Compose "j1" false false true (Some "failed") 40000; Submit "j1" false;
   Settle (sample_settlement "j1" false (unfinished "r1" 0.5));
   Compose "j2" true true true (Some "done") 40000; Submit "j2" true;
   Settle (continuation "j2" 0.5 (unfinished "r2" 0.5));
   Compose "j3" true true true (Some "done") 40000; Submit "j3" true;
   Settle (continuation "j3" 0.5 (unfinished "r3" 1));
   Compose "j4" true true true (Some "done") 40000; Submit "j4" true;
   Settle (continuation "j4" 1 (unfinished "r4" 1));
   Compose "j5" true true true (Some "done") 40000; Submit "j5" true;
   Settle (continuation "j5" 1 (unfinished "r5" 1));
   Compose "j6" false false true (Some "done") 40000; Submit "j6" false].

Definition good_life : list Event :=
  [Compose "j1" false false true None 0; Submit "j1" false; Settle (sample_settlement "j1" false finished)].

Lemma start_sound : sound_world start.
Proof. split; split; cbn; try lia; apply NoDup_nil_2. Qed.

Lemma counters_bounded_witness :
  sound_world (run start stalled_life) /\ maxAttempts (run start stalled_life).1 = 2%Z.
Proof. apply (counters_bounded start stalled_life). apply start_sound. Defined.

Lemma satisfied_needs_evidence_witness :
  exists i row, In (Settle i) good_life /\ In row (evidence i) /\ acceptable row /\
    sourceResultAttemptId (run start good_life).1 = Some (id row).
Proof. apply (satisfied_needs_evidence start good_life); [done|vm_compute; reflexivity]. Defined.

Definition settled_world : World := run start (firstn 6 stalled_life).

Lemma pending_has_a_way_forward_witness :
  ownerLive (sample_settlement "j1" false (unfinished "r1" 0.5)) = true /\
  ((attemptCount settled_world.1 < maxAttempts settled_world.1)%Z \/
   (infrastructure (sample_settlement "j1" false (unfinished "r1" 0.5)) = true /\
    nextSubmitAt settled_world.1 =
      Some (now (sample_settlement "j1" false (unfinished "r1" 0.5)) + INFRASTRUCTURE_RETRY_BACKOFF_MS)%float) \/
   (restartable (sample_settlement "j1" false (unfinished "r1" 0.5)) = true /\
    action (recoveryPlan (sample_settlement "j1" false (unfinished "r1" 0.5))) = continue_exact_case /\
    continuationProgressed (sample_settlement "j1" false (unfinished "r1" 0.5)) <> Some false)).
Proof.
  apply (pending_has_a_way_forward (run start (firstn 5 stalled_life)).1 (run start (firstn 5 stalled_life)).2
           (sample_settlement "j1" false (unfinished "r1" 0.5)) settled_world.1 settled_world.2).
  vm_compute. reflexivity.
Defined.

Lemma no_endless_retries_witness :
  count_steps solves start stalled_life = 2%Z /\ count_steps releases start stalled_life = 1%Z /\
  count_steps stalls start stalled_life = 3%Z /\ count_steps gains start stalled_life = 1%Z /\
  (count_steps solves start stalled_life <=
   maxAttempts start.1 - attemptCount start.1 + count_steps releases start stalled_life)%Z /\
  (count_steps stalls start stalled_life <=
   Z.max 1 (2 - continuationNoProgressCount start.1) + count_steps gains start stalled_life)%Z /\
  is_terminal (state (run start stalled_life).1) = true.
Proof.
  do 4 (split; [vm_compute; reflexivity|]).
  destruct (no_endless_retries start stalled_life start_sound) as (H1 & H2 & H3).
  split; [exact H1|]. split; [exact H2|]. apply H3. vm_compute. reflexivity.
Defined.

(** An engine job lost by its worker, without a typed disposition: the recovery policy says
    that the infrastructure is retried, no attempt is consumed, and yet the obligation is
    blocked with an attempt left. *)
Definition lost : SettlementInput :=
  sample_settlement "j0" false (sample_row "r7" "failed" None (Some "lost engine job after worker restart") None 1).

Example lost_job_blocks :
  action (recoveryPlan lost) = retry_infrastructure /\
  let w := step (run start (firstn 2 stalled_life)) (Settle lost) in
  state w.1 = blocked /\ lastOutcome w.1 = Some "infrastructure_retry_exhausted" /\
  (attemptCount w.1 < maxAttempts w.1)%Z.
Proof. by vm_compute. Qed.
