(* ===== verification/BlobLocks.v ===== *)
(** * Locks on stored content

    From [apps/api/src/sync-routes.ts] (the lock lanes of an import),
    [packages/db/src/result-evidence-lock.ts] (the lane of a content identity) and the
    blob cleanup of [apps/sweeper/src/retention.ts].

    An importer and a cleanup pass each take several advisory locks one after the other.
    The sessions of the database are a state machine; whoever runs next is an event.
    Proved: whatever the interleaving, sessions that keep running never deadlock, and two
    sessions never hold the lane of one content at the same time, however the content
    was spelled in their requests.

    SHA-256 and the base64 decoder are parameters. *)

From Stdlib Require Import ZArith Lia Bool Ascii String.
From stdpp Require Import base list sorting strings option numbers.
From S2P Require Import Prelude JsNumber JsString JsValue JsArray.

Local Open Scope string_scope.
Local Open Scope list_scope.

Definition SYNC_BLOB_LOCK_STRIPES : Z := 256.

(** [typeof value === "string" && value.trim() ? value.trim() : null] *)
Definition nullableText (v : jsval) : option string :=
  match v with JStr s => if String.eqb (trim s) "" then None else Some (trim s) | _ => None end.

(** An uploaded part, and the entries of the parsed request. *)
Record UploadedFileRef := { sha256_of : string }.
Record PushPoint := { evidenceArtifacts : list jsval; media : list jsval }.
Record PolarPushPayload := { results : list PushPoint }.

Section Stripes.
Context (sha256 : string -> list Z) (hex : list Z -> string) (fromBase64 : string -> string).

(** The digest's first two bytes, as a big-endian number. *)
Definition readUInt16BE0 (digest : list Z) : Z := (nth 0 digest 0 * 256 + nth 1 digest 0)%Z.

Definition syncBlobLockStripe (contentSha256 : string) : Z :=
  (readUInt16BE0 (sha256 (toLowerCase contentSha256)) mod SYNC_BLOB_LOCK_STRIPES)%Z.

(** The identity of inline content: that of the decoded bytes. *)
Definition inlineIdentity (item : jsval) : option string :=
  match nullableText (prop "contentBase64" item) with
  | Some text => Some (hex (sha256 (fromBase64 text)))
  | None => None
  end.

Definition identities (payload : PolarPushPayload) (files : list UploadedFileRef) : list string :=
  dedup_strings (List.map sha256_of files ++
    omap inlineIdentity (List.flat_map (fun p => evidenceArtifacts p ++ media p) (results payload))).

(** [[...new Set(identities.map(syncBlobLockStripe))].sort((a, b) => a - b)] *)
Definition stripesOf (content : list string) : list Z :=
  merge_sort Z.le (remove_dups (List.map syncBlobLockStripe content)).

Definition syncBlobLockStripes (payload : PolarPushPayload) (files : list UploadedFileRef) : list Z :=
  stripesOf (identities payload files).

(** One representative identity for each stripe of a cleanup batch, by stripe. *)
Definition stripeRepresentatives (batch : list string) : list (Z * string) :=
  fold_left (fun m sha =>
    let stripe := syncBlobLockStripe sha in
    if existsb (fun e => (fst e =? stripe)%Z) m then m else m ++ [(stripe, sha)]) batch [].

Definition cleanupStripes (batch : list string) : list Z :=
  merge_sort Z.le (List.map (fun e => syncBlobLockStripe (snd e)) (stripeRepresentatives batch)).

(** ** Sessions *)

(** A session takes the locks of its content in order; with none left to take it does
    its work; an import then unlocks in reverse, a transaction of the cleanup all at once. *)
Inductive Phase :=
  | Locking (held todo : list Z)
  | Releasing (held : list Z)
  | Closed.

#[local] Instance lane_phase_eq_dec : EqDecision Phase.
Proof. solve_decision. Defined.

Record Session := { content : list string; phase : Phase }.

Definition held_of (p : Phase) : list Z :=
  match p with Locking held _ => held | Releasing held => held | Closed => [] end.

Abbreviation World := (list Session).

(** Another session holds the lock. *)
Definition taken (w : World) (i : nat) (lock : Z) : bool :=
  existsb (fun j => negb (Nat.eqb j i) &&
                    match w !! j with
                    | Some s => existsb (Z.eqb lock) (held_of (phase s))
                    | None => false
                    end) (List.seq 0 (length w)).

Inductive Event :=
  | Import (payload : PolarPushPayload) (files : list UploadedFileRef)
  | Cleanup (batch : list string)
  | Grant (i : nat)
  | Finish (i : nat)
  | Commit (i : nat)
  | Unlock (i : nat)
  | Abandon (i : nat).

Definition set_phase (w : World) (i : nat) (s : Session) (p : Phase) : option World :=
  Some (<[i := {| content := content s; phase := p |}]> w).

(** [None]: the event cannot happen now. [Abandon] is an error, after which
    [pg_advisory_unlock_all] runs. *)
Definition step (w : World) (e : Event) : option World :=
  match e with
  | Import payload files =>
      Some (w ++ [{| content := identities payload files;
                     phase := match syncBlobLockStripes payload files with
                              | [] => Closed
                              | stripes => Locking [] stripes
                              end |}])
  | Cleanup batch => Some (w ++ [{| content := batch; phase := Locking [] (cleanupStripes batch) |}])
  | Grant i =>
      match w !! i with
      | Some s =>
          match phase s with
          | Locking held (lock :: todo) =>
              if taken w i lock then None else set_phase w i s (Locking (held ++ [lock]) todo)
          | _ => None
          end
      | None => None
      end
  | Finish i =>
      match w !! i with
      | Some s => match phase s with Locking held [] => set_phase w i s (Releasing (rev held)) | _ => None end
      | None => None
      end
  | Commit i =>
      match w !! i with
      | Some s => match phase s with Locking held [] => set_phase w i s Closed | _ => None end
      | None => None
      end
  | Unlock i =>
      match w !! i with
      | Some s =>
          match phase s with
          | Releasing (_ :: held) => set_phase w i s (Releasing held)
          | Releasing [] => set_phase w i s Closed
          | _ => None
          end
      | None => None
      end
  | Abandon i => match w !! i with Some s => set_phase w i s Closed | None => None end
  end.

Fixpoint run (w : World) (events : list Event) : option World :=
  match events with
  | [] => Some w
  | e :: es => match step w e with Some w' => run w' es | None => None end
  end.

Definition reachable (w : World) : Prop := exists events, run [] events = Some w.

(** Inside its critical section. *)
Definition critical (s : Session) : Prop := exists held, phase s = Locking held [].

(** ** Plans *)

Lemma NoDup_sorted (l : list Z) : NoDup l -> StronglySorted Z.lt (merge_sort Z.le l).
Proof.
  intros Hn. assert (Hs : StronglySorted Z.le (merge_sort Z.le l)) by (apply StronglySorted_merge_sort; apply _).
  assert (Hm : NoDup (merge_sort Z.le l)) by by rewrite merge_sort_Permutation.
  induction Hs as [|x m Hs IH Hx]; [constructor|]. apply list_relations.list.NoDup_cons in Hm as [Hnin Hm].
  constructor; [by apply IH|]. rewrite List.Forall_forall in *. intros y Hy. specialize (Hx y Hy).
  assert (x <> y) by (intros ->; by apply Hnin, list_elem_of_In). lia.
Qed.

(** An increasing list of locks that has the lane of every content. *)
Definition plan_for (content : list string) (plan : list Z) : Prop :=
  StronglySorted Z.lt plan /\ forall c, In c content -> In (syncBlobLockStripe c) plan.

Lemma stripes_plan (content : list string) : plan_for content (stripesOf content).
Proof.
  split; [apply NoDup_sorted, NoDup_remove_dups|]. intros c Hc. unfold stripesOf.
  rewrite merge_sort_Permutation. apply list_elem_of_In, elem_of_remove_dups, list_elem_of_In. by apply in_map.
Qed.

Lemma representatives_spec (batch : list string) : forall m,
  let m' := fold_left (fun m sha =>
    let stripe := syncBlobLockStripe sha in
    if existsb (fun e => (fst e =? stripe)%Z) m then m else m ++ [(stripe, sha)]) batch m in
  Forall (fun e => fst e = syncBlobLockStripe (snd e)) m -> NoDup (List.map fst m) ->
  Forall (fun e => fst e = syncBlobLockStripe (snd e)) m' /\ NoDup (List.map fst m') /\
  forall c, In c batch \/ In (syncBlobLockStripe c) (List.map fst m) -> In (syncBlobLockStripe c) (List.map fst m').
Proof.
  induction batch as [|sha batch IH]; intros m; cbv zeta; cbn [fold_left].
  { intros Hk Hn. split; [done|]. split; [done|]. by intros c [[]|]. }
  intros Hk Hn. destruct (existsb _ m) eqn:E.
  - destruct (IH m Hk Hn) as (H1 & H2 & H3). split; [done|]. split; [done|].
    apply existsb_exists in E as (e & He & Heq%Z.eqb_eq).
    intros c [[<-|Hc]|Hc]; apply H3; [right; rewrite <- Heq; by apply in_map|by left|by right].
  - set (m1 := m ++ [(syncBlobLockStripe sha, sha)]).
    assert (Hm1 : List.map fst m1 = List.map fst m ++ [syncBlobLockStripe sha]) by (unfold m1; by rewrite List.map_app).
    destruct (IH m1) as (H1 & H2 & H3).
    + apply Forall_app_2; [done|]. by repeat constructor.
    + rewrite Hm1. apply list_relations.list.NoDup_app. split_and!; [done| |apply list_relations.list.NoDup_singleton].
      intros x Hx Hs. apply list_elem_of_singleton in Hs as ->. apply list_elem_of_In, in_map_iff in Hx as (e & Ee & He).
      apply not_true_iff_false in E. apply E, existsb_exists. exists e. split; [done|]. by apply Z.eqb_eq.
    + split; [done|]. split; [done|]. intros c Hc. apply H3. rewrite Hm1, in_app_iff.
      destruct Hc as [[<-|Hc]|Hc]; [right; right; by left|by left|right; by left].
Qed.

Lemma cleanup_plan (batch : list string) : plan_for batch (cleanupStripes batch).
Proof.
  destruct (representatives_spec batch []) as (Hk & Hn & Hc); [constructor|apply NoDup_nil_2|].
  fold (stripeRepresentatives batch) in *. unfold plan_for, cleanupStripes.
  assert (E : List.map (fun e => syncBlobLockStripe (snd e)) (stripeRepresentatives batch) =
              List.map fst (stripeRepresentatives batch)).
  { apply List.map_ext_in. intros e He. rewrite List.Forall_forall in Hk. by rewrite (Hk e He). }
  rewrite E. split; [by apply NoDup_sorted|]. intros c Hin. rewrite merge_sort_Permutation. apply Hc. by left.
Qed.

(** ** The invariant *)

Definition session_ok (s : Session) : Prop :=
  match phase s with
  | Locking held todo => plan_for (content s) (held ++ todo)
  | _ => True
  end.

Definition exclusive (w : World) : Prop :=
  forall i j s t lock, w !! i = Some s -> w !! j = Some t -> i <> j ->
    In lock (held_of (phase s)) -> ~ In lock (held_of (phase t)).

Record sound (w : World) : Prop := { sound_sessions : Forall session_ok w; sound_exclusive : exclusive w }.

Lemma taken_false (w : World) (i j : nat) (lock : Z) (t : Session) :
  taken w i lock = false -> w !! j = Some t -> j <> i -> ~ In lock (held_of (phase t)).
Proof.
  intros H Hj Hne Hin. apply not_true_iff_false in H. apply H. unfold taken. apply existsb_exists.
  exists j. split; [apply in_seq; apply lookup_lt_Some in Hj; lia|]. rewrite Hj, andb_true_iff, negb_true_iff.
  split; [by apply Nat.eqb_neq|]. apply existsb_exists. exists lock. split; [done|apply Z.eqb_refl].
Qed.

Lemma taken_true (w : World) (i : nat) (lock : Z) :
  taken w i lock = true -> exists j t, j <> i /\ w !! j = Some t /\ In lock (held_of (phase t)).
Proof.
  unfold taken. rewrite existsb_exists. intros (j & _ & [Hj Hh]%andb_true_iff).
  apply negb_true_iff, Nat.eqb_neq in Hj. destruct (w !! j) as [t|] eqn:E; [|done].
  apply existsb_exists in Hh as (x & Hx & ->%Z.eqb_eq). by exists j, t.
Qed.

(** Replacing a session by one that holds at most a free lock more. *)
Lemma replace_sound (w : World) (i : nat) (s s' : Session) :
  sound w -> w !! i = Some s -> session_ok s' ->
  (forall lock, In lock (held_of (phase s')) -> In lock (held_of (phase s)) \/ taken w i lock = false) ->
  sound (<[i := s']> w).
Proof.
  intros [Hs He] Hi Hok Hheld. split.
  - apply Forall_insert; [done|exact Hok].
  - assert (Hnew : forall k t lock, k <> i -> w !! k = Some t -> In lock (held_of (phase s')) ->
                   ~ In lock (held_of (phase t))).
    { intros k t lock Hk Ht Hin. destruct (Hheld lock Hin) as [H|H].
      - by apply (He i k s t).
      - by apply (taken_false w i k). }
    pose proof (lookup_lt_Some w i s Hi) as Hlt. intros a b x y lock Ha Hb Hab.
    destruct (decide (i = a)) as [<-|Na];
      [rewrite list_lookup_insert_eq in Ha by done; injection Ha as <-|rewrite list_lookup_insert_ne in Ha by done];
      (destruct (decide (i = b)) as [<-|Nb];
       [rewrite list_lookup_insert_eq in Hb by done; injection Hb as <-|rewrite list_lookup_insert_ne in Hb by done]).
    + done.
    + by apply (Hnew b).
    + intros Hin Hin'. by apply (Hnew a x lock).
    + by apply (He a b).
Qed.

Lemma append_sound (w : World) (c : list string) (p : Phase) :
  sound w -> session_ok {| content := c; phase := p |} -> held_of p = [] ->
  sound (w ++ [{| content := c; phase := p |}]).
Proof.
  intros [Hs He] Hok Hp. split; [apply Forall_app_2; [done|by repeat constructor]|].
  intros i j s t lock Hi Hj Hij Hin Hin'.
  apply lookup_app_Some in Hi as [Hi|[_ Hi]], Hj as [Hj|[_ Hj]]; [by apply (He i j s t lock)|..];
    (try (apply list_lookup_singleton_Some in Hj as [_ <-]; cbn in Hin'; by rewrite Hp in Hin'));
    apply list_lookup_singleton_Some in Hi as [_ <-]; cbn in Hin; by rewrite Hp in Hin.
Qed.

Lemma lanes_step_sound (w w' : World) (e : Event) : sound w -> step w e = Some w' -> sound w'.
Proof.
  intros Hw. destruct e as [payload files|batch|i|i|i|i|i]; cbn [step]; [| |destruct (w !! i) as [s|] eqn:Hi; [|done]..].
  - intros [= <-]. pose proof (stripes_plan (identities payload files)) as Hp.
    fold (syncBlobLockStripes payload files) in Hp.
    apply append_sound; destruct (syncBlobLockStripes payload files); done.
  - intros [= <-]. apply append_sound; [done|exact (cleanup_plan batch)|done].
  - destruct (phase s) as [held [|lock todo]|held|] eqn:Ep; try done. destruct (taken w i lock) eqn:Et; [done|].
    intros [= <-]. apply (replace_sound w i s); [done|done| |].
    + destruct Hw as [Hs _]. rewrite Forall_lookup in Hs. specialize (Hs i s Hi). unfold session_ok in *.
      rewrite Ep in Hs. cbn. by rewrite <- List.app_assoc.
    + intros l. cbn. rewrite Ep, in_app_iff. cbn. intros [H|[<-|[]]]; [by left|by right].
  - destruct (phase s) as [held [|lock todo]|held|] eqn:Ep; try done. intros [= <-].
    apply (replace_sound w i s); [done|done|done|]. intros l. cbn. rewrite Ep, <- List.in_rev. by left.
  - destruct (phase s) as [held [|lock todo]|held|] eqn:Ep; try done. intros [= <-].
    by apply (replace_sound w i s).
  - destruct (phase s) as [held [|lock todo]|[|l held]|] eqn:Ep; try done; intros [= <-];
      apply (replace_sound w i s); try done. intros x. cbn. rewrite Ep. by left; right.
  - intros [= <-]. by apply (replace_sound w i s).
Qed.

Lemma lanes_run_sound (events : list Event) : forall w w', sound w -> run w events = Some w' -> sound w'.
Proof.
  induction events as [|e es IH]; cbn; intros w w' Hw; [by intros [= <-]|].
  destruct (step w e) as [w1|] eqn:E; [|done]. intros H. by apply (IH w1); [apply (lanes_step_sound w w1 e)|].
Qed.

Lemma reachable_sound (w : World) : reachable w -> sound w.
Proof.
  intros [es H]. apply (lanes_run_sound es []); [|done]. split; [constructor|]. intros i j s t l Hi. by rewrite lookup_nil in Hi.
Qed.

(** ** Progress *)

Definition orderly (e : Event) : Prop :=
  match e with Grant _ | Finish _ | Commit _ | Unlock _ => True | _ => False end.

Definition work_of (s : Session) : nat :=
  match phase s with
  | Locking held todo => 2 * length todo + length held + 2
  | Releasing held => length held + 1
  | Closed => 0
  end.

Definition work (w : World) : nat := list_sum (List.map work_of w).

Definition all_closed (w : World) : Prop := Forall (fun s => phase s = Closed) w.

Lemma work_replace (w : World) (i : nat) (s s' : Session) :
  w !! i = Some s -> work_of s' < work_of s -> work (<[i := s']> w) < work w.
Proof.
  unfold work. revert i. induction w as [|t w IH]; intros [|i] Hi Hlt; try done; cbn in *.
  - injection Hi as ->. lia.
  - apply Nat.add_lt_mono_l. exact (IH i Hi Hlt).
Qed.

Lemma orderly_work (w w' : World) (e : Event) : orderly e -> step w e = Some w' -> work w' < work w.
Proof.
  destruct e as [payload files|batch|i|i|i|i|i]; cbn [step orderly]; try done; intros _;
    (destruct (w !! i) as [s|] eqn:Hi; [|done]);
    destruct (phase s) as [held [|lock todo]|[|l held]|] eqn:Ep; try done;
    [destruct (taken w i lock); [done|]| | | |];
    intros [= <-]; apply (work_replace w i s); try done; unfold work_of; cbn [phase];
    rewrite Ep, ?List.length_app, ?List.length_rev; cbn [length]; lia.
Qed.

Definition next_lock (s : Session) : option Z :=
  match phase s with Locking _ (lock :: _) => Some lock | _ => None end.

Lemma max_next (w : World) :
  (forall i s, w !! i = Some s -> next_lock s = None) \/
  exists i s lock, w !! i = Some s /\ next_lock s = Some lock /\
    forall j t lock', w !! j = Some t -> next_lock t = Some lock' -> (lock' <= lock)%Z.
Proof.
  induction w as [|s w IH]; [by left|]. destruct (next_lock s) as [l|] eqn:El, IH as [IH|(i & t & l' & Ht & Hl' & Hm)].
  - right. exists 0%nat, s, l. split_and!; [done..|]. intros [|j] u lu Hu Hlu; cbn in Hu; [injection Hu as <-; simplify_eq; lia|].
    rewrite (IH j u Hu) in Hlu. done.
  - right. destruct (decide (l <= l')%Z).
    + exists (S i), t, l'. split_and!; [done..|]. intros [|j] u lu Hu Hlu; cbn in Hu;
        [injection Hu as <-; simplify_eq; lia|by apply (Hm j u)].
    + exists 0%nat, s, l. split_and!; [done..|]. intros [|j] u lu Hu Hlu; cbn in Hu;
        [injection Hu as <-; simplify_eq; lia|]. specialize (Hm j u lu Hu Hlu). lia.
  - left. intros [|j] u Hu; cbn in Hu; [by injection Hu as <-|by apply (IH j)].
  - right. exists (S i), t, l'. split_and!; [done..|]. intros [|j] u lu Hu Hlu; cbn in Hu;
      [injection Hu as <-; congruence|by apply (Hm j u)].
Qed.

(** The locks a session holds come before the one it waits for. *)
Lemma held_before_next (s : Session) (lock l : Z) :
  session_ok s -> next_lock s = Some lock -> In l (held_of (phase s)) -> (l < lock)%Z.
Proof.
  unfold session_ok, next_lock. destruct (phase s) as [held [|x todo]|held|]; try done.
  intros [Hs _] [= ->] Hin. cbn in Hin. induction held as [|h held IH]; [done|].
  inversion Hs as [|? ? Hs' Ha]; subst. destruct Hin as [->|Hin]; [|by apply IH].
  rewrite List.Forall_forall in Ha. apply Ha, in_app_iff. right. by left.
Qed.

(** Some session can always go on: one that releases or works, else the one that waits
    for the largest lock. *)
Lemma progress (w : World) :
  sound w -> all_closed w \/ exists e w', orderly e /\ step w e = Some w'.
Proof.
  intros [Hs He]. destruct (decide (Exists (fun s => phase s <> Closed /\ next_lock s = None) w)) as [Hd|Hd].
  { right. apply Exists_exists in Hd as (s & (i & Hi)%list_elem_of_In%list_elem_of_lookup & Hc & Hn). unfold next_lock in Hn.
    destruct (phase s) as [held [|l todo]|[|l held]|] eqn:Ep; try done;
      [exists (Finish i)|exists (Unlock i)|exists (Unlock i)]; eexists; split; try done; cbn; by rewrite Hi, Ep. }
  destruct (max_next w) as [Hn|(i & s & lock & Hi & Hl & Hm)].
  { left. unfold all_closed. rewrite Forall_lookup. intros i s Hi.
    destruct (decide (phase s = Closed)) as [|Hc]; [done|]. destruct Hd. apply Exists_exists.
    exists s. split; [apply list_elem_of_In; by eapply list_elem_of_lookup_2|]. split; [done|by apply (Hn i)]. }
  right. exists (Grant i). cbn. rewrite Hi. unfold next_lock in Hl.
  destruct (phase s) as [held [|l todo]|held|] eqn:Ep; try done. injection Hl as ->.
  destruct (taken w i lock) eqn:Et; [|eexists; done]. exfalso.
  apply taken_true in Et as (j & t & Hne & Hj & Hin).
  destruct (next_lock t) as [l'|] eqn:Ent.
  - rewrite Forall_lookup in Hs. pose proof (held_before_next t l' lock (Hs j t Hj) Ent Hin).
    specialize (Hm j t l' Hj Ent). lia.
  - apply Hd. apply Exists_exists. exists t. split; [apply list_elem_of_In; by eapply list_elem_of_lookup_2|]. split; [|done].
    intros E. by rewrite E in Hin.
Qed.

Lemma run_reachable (w w' : World) (events : list Event) : reachable w -> run w events = Some w' -> reachable w'.
Proof.
  intros [es Hes] H. exists (es ++ events). revert Hes. generalize (@nil Session).
  induction es as [|e es IH]; cbn; intros v Hv; [by injection Hv as ->|].
  destruct (step v e); [|done]. by apply IH.
Qed.

Lemma run_work (events : list Event) : forall w w',
  Forall orderly events -> run w events = Some w' -> length events + work w' <= work w.
Proof.
  induction events as [|e es IH]; cbn; intros w w' Ho H; [injection H as ->; lia|].
  apply Forall_cons_iff in Ho as [He Ho]. destruct (step w e) as [w1|] eqn:E; [|done].
  pose proof (orderly_work w w1 e He E). specialize (IH w1 w' Ho H). lia.
Qed.

(** C10. The lock lanes never deadlock. Whatever imports and cleanups were opened and
    however they were interleaved, as long as the sessions go on in any order they are
    never stuck: either all are closed, or one of them can take its next lock, end its
    work or unlock; and after at most [work w] such steps all are closed. *)
Theorem locks_never_deadlock (w w' : World) (events : list Event) :
  reachable w -> Forall orderly events -> run w events = Some w' ->
  length events + work w' <= work w /\
  (all_closed w' \/ exists e w'', orderly e /\ step w' e = Some w'').
Proof.
  intros Hw Ho H. split; [by apply run_work|]. apply progress, reachable_sound. by eapply run_reachable.
Qed.

(** ** Exclusion *)

(** The request brings these bytes, as an uploaded part or inline. *)
Definition carries (payload : PolarPushPayload) (files : list UploadedFileRef) (bytes : string) : Prop :=
  (exists f, In f files /\ sha256_of f = hex (sha256 bytes)) \/
  exists p item text, In p (results payload) /\ In item (evidenceArtifacts p ++ media p) /\
    nullableText (prop "contentBase64" item) = Some text /\ fromBase64 text = bytes.

Lemma carries_identity (payload : PolarPushPayload) (files : list UploadedFileRef) (bytes : string) :
  carries payload files bytes -> In (hex (sha256 bytes)) (identities payload files).
Proof.
  intros Hc. unfold identities. rewrite in_dedup_strings, in_app_iff.
  destruct Hc as [(f & Hf & <-)|(p & item & text & Hp & Hi & Ht & <-)]; [left; by apply in_map|right].
  apply list_elem_of_In, list_elem_of_omap. exists item. unfold inlineIdentity. rewrite Ht. split; [|done].
  apply list_elem_of_In, in_flat_map. by exists p.
Qed.

Lemma critical_holds (s : Session) (a : string) :
  session_ok s -> critical s -> In a (content s) -> In (syncBlobLockStripe a) (held_of (phase s)).
Proof.
  intros Hok [held E] Ha. unfold session_ok in Hok. rewrite E in *. rewrite List.app_nil_r in Hok. by apply Hok.
Qed.

(** C11. One content, one session. Two sessions are never both in their critical sections
    with a common identity, whatever its case; in particular two imports that bring the
    same bytes, uploaded or inline in any spelling of base64, exclude each other. *)
Theorem same_content_excluded (w : World) (i j : nat) (s t : Session) :
  reachable w -> w !! i = Some s -> w !! j = Some t -> i <> j -> critical s -> critical t ->
  (forall a b, In a (content s) -> In b (content t) -> toLowerCase a <> toLowerCase b) /\
  forall p q f g bytes, content s = identities p f -> content t = identities q g ->
    carries p f bytes -> ~ carries q g bytes.
Proof.
  intros Hw Hi Hj Hij Cs Ct. destruct (reachable_sound w Hw) as [Hs He]. rewrite Forall_lookup in Hs.
  assert (Hab : forall a b, In a (content s) -> In b (content t) -> toLowerCase a <> toLowerCase b).
  { intros a b Ha Hb E. apply (He i j s t (syncBlobLockStripe a)); try done.
    - apply critical_holds; [by apply (Hs i)|done..].
    - replace (syncBlobLockStripe a) with (syncBlobLockStripe b) by (unfold syncBlobLockStripe; by rewrite E).
      apply critical_holds; [by apply (Hs j)|done..]. }
  split; [done|]. intros p q f g bytes Ep Eq Hp%carries_identity Hq%carries_identity.
  rewrite <- Ep in Hp. rewrite <- Eq in Hq. by apply (Hab _ _ Hp Hq).
Qed.
End Stripes.

(** ** Concrete sessions *)

(** Stand-ins for the digest and the decoder. *)
Definition code (s : string) : Z := match s with String c _ => Z.of_nat (nat_of_ascii c) | EmptyString => 0 end.
Definition digest_of (s : string) : list Z := [0; code s]%Z.
Definition hex_of (d : list Z) : string := String (ascii_of_nat (Z.to_nat (nth 1 d 0%Z))) EmptyString.
Definition decode (s : string) : string := s.

Definition inline (text : string) : PolarPushPayload :=
  {| results := [{| evidenceArtifacts := [JObj [("contentBase64", JStr text)]]; media := [] |}] |}.
Definition nothing : PolarPushPayload := {| results := [] |}.

(** Two imports that overlap in opposite orders, and a cleanup. *)
Definition opened : list Event :=
  [Import (inline "b") [{| sha256_of := "a" |}]; Import (inline "a") [{| sha256_of := "b" |}]; Cleanup ["c"; "C"; "b"]].

Definition crossing : list Event := [Grant 0; Grant 2; Grant 2; Commit 2; Grant 0; Finish 0; Unlock 0; Unlock 0; Unlock 0; Grant 1].

Definition world_of (o : option (list Session)) : list Session := match o with Some w => w | None => [] end.
Definition opened_world : list Session := Eval vm_compute in world_of (run digest_of hex_of decode [] opened).
Definition crossed_world : list Session := Eval vm_compute in world_of (run digest_of hex_of decode opened_world crossing).

Lemma opened_reachable : reachable digest_of hex_of decode opened_world.
Proof. exists opened. vm_compute. reflexivity. Qed.

Lemma locks_never_deadlock_witness :
  length crossing + work crossed_world <= work opened_world /\
  (all_closed crossed_world \/
   exists e w'', orderly e /\ step digest_of hex_of decode crossed_world e = Some w'').
Proof.
  apply (locks_never_deadlock digest_of hex_of decode opened_world crossed_world crossing).
  - apply opened_reachable.
  - unfold crossing. repeat (apply Forall_cons; [exact I|]). apply Forall_nil.
  - vm_compute. reflexivity.
Defined.

(** Two imports of different content work at the same time. *)
Definition apart : list Event :=
  [Import (inline "a") []; Import (inline "b") []; Grant 0; Grant 1].
Definition apart_world : list Session := Eval vm_compute in world_of (run digest_of hex_of decode [] apart).

Lemma same_content_excluded_witness :
  let s := nth 0 apart_world {| content := []; phase := Closed |} in
  let t := nth 1 apart_world {| content := []; phase := Closed |} in
  (forall a b, In a (content s) -> In b (content t) -> toLowerCase a <> toLowerCase b) /\
  forall p q f g bytes, content s = identities digest_of hex_of decode p f ->
    content t = identities digest_of hex_of decode q g ->
    carries digest_of hex_of decode p f bytes -> ~ carries digest_of hex_of decode q g bytes.
Proof.
  intros s t. apply (same_content_excluded digest_of hex_of decode apart_world 0 1 s t);
    [exists apart; vm_compute; reflexivity|reflexivity|reflexivity|done|by eexists|by eexists].
Defined.

(** An import may need several lanes, one for each distinct content. *)
Example importer_takes_two_lanes :
  syncBlobLockStripes digest_of hex_of decode (inline "b") [{| sha256_of := "a" |}] = [97; 98]%Z.
Proof. vm_compute. reflexivity. Qed.
