(* ===== verification/RemoteUpload.v ===== *)
(** * Transfers of a remote solver

    From [apps/sweeper/src/remote-solver.ts]: the resumable upload of an evidence bundle
    ([uploadBrokeredEvidenceFile]), the multipart body of a polar push with the length it
    announces, and the abort signal of a push ([createProgressAwareAbort]).

    What the network answers is an argument: one turn of the upload loop takes the outcome
    of its PUT request and, when that failed, of the query for the committed range. The
    URL parser and [decodeURIComponent] are parameters. Offsets are integers: a range
    whose last byte is no safe integer lies beyond every accepted size, before and after
    rounding. Strings are the bytes of their UTF-8 form.

    Proved: ranges lie in the file and are never empty, an upload ends well only with the
    generation that a success response named, the loop ends, and the announced length of a
    multipart body is its length. *)

From Stdlib Require Import ZArith Lia Bool Ascii String.
From stdpp Require Import base list strings option numbers.
From S2P Require Import Prelude JsNumber JsString JsValue.

Local Open Scope string_scope.
Local Open Scope list_scope.
Local Open Scope Z_scope.

(** ** Responses *)

Record Response := {
  httpStatus : Z;
  range_header : option string;
  x_goog_generation : option string;
  json_body : option jsval;
}.

Definition ok (r : Response) : bool := (200 <=? httpStatus r) && (httpStatus r <=? 299).

Definition is_digit (c : ascii) : bool := (48 <=? code c)%nat && (code c <=? 57)%nat.

(** The digits of a decimal text. *)
Definition digits_of (s : string) : list Z :=
  List.map (fun c => Z.of_nat (code c) - 48) (list_ascii_of_string s).

(** [/^[1-9][0-9]{0,19}$/.test(value) && BigInt(value) <= 18446744073709551615n] *)
Definition validGeneration (value : string) : bool :=
  match list_ascii_of_string value with
  | c :: cs => is_digit c && negb (Ascii.eqb c "0"%char) && forallb is_digit cs && (length cs <=? 19)%nat
               && (digits_value (digits_of value) <=? 18446744073709551615)
  | [] => false
  end.

(** A positive safe integer of a parsed answer, as its decimal text. *)
Definition numberGeneration (x : jsnum) : option string :=
  match to_integer x with
  | Some z => if (0 <? z) && (z <=? 2 ^ 53 - 1) then Some (Number_toString x) else None
  | None => None
  end.

Definition bodyGeneration (payload : option jsval) : option string :=
  match option_map (prop "generation") payload with
  | Some (JStr generation) => if validGeneration generation then Some generation else None
  | Some (JNum generation) => numberGeneration generation
  | _ => None
  end.

Definition completedUploadGeneration (response : Response) : option string :=
  match x_goog_generation response with
  | Some header => if nonempty header && validGeneration header then Some header
                   else bodyGeneration (json_body response)
  | None => bodyGeneration (json_body response)
  end.

(** [range?.match(/^bytes=0-([0-9]+)$/i)], the offset after the committed range. *)
Definition resumableOffset (response : Response) : Z :=
  match range_header response with
  | Some range =>
      if String.eqb (toLowerCase (substring 0 8 range)) "bytes=0-"
      then
        let last_byte := substring 8 (String.length range - 8) range in
        if nonempty last_byte && all_chars is_digit last_byte
        then digits_value (digits_of last_byte) + 1 else 0
      else 0
  | None => 0
  end.

(** The message of each error of a chain of causes; [None] for a cause that is an object
    but no error. *)
Definition rejectedRedirect (chain : list (option string)) : bool :=
  existsb (fun m => match m with Some message => JsString.includes (toLowerCase message) "redirect" | None => false end)
    (firstn 3 chain).

(** The status is a redirect that the protocol does not know. *)
Definition rejectUploadRedirect (response : Response) : bool :=
  (300 <=? httpStatus response) && (httpStatus response <? 400) && negb (httpStatus response =? 308).

(** ** The capability *)

Record URL := {
  protocol : string; username : string; password : string; url_hash : string; port : string;
  hostname : string; pathname : string; searchParams : list (string * string) }.

Definition GCS_RESUMABLE_HOSTS : list string := ["storage.googleapis.com"; "www.googleapis.com"].

Definition getAll (k : string) (params : list (string * string)) : list string :=
  List.map snd (List.filter (fun p => String.eqb (fst p) k) params).

(** [pathname.match(/^\/upload\/storage\/v1\/b\/([^/]+)\/o$/)], the bucket part. *)
Definition bucket_of_path (path : string) : option string :=
  match split_on "/"%char path with
  | ["" ; "upload"; "storage"; "v1"; "b"; bucket; "o"] => if nonempty bucket then Some bucket else None
  | _ => None
  end.

Definition is_single (l : list string) (p : string -> bool) : bool :=
  match l with [x] => p x | _ => false end.

Definition isGcsResumableUploadUrl (parse_url : string -> option URL) (decodeURIComponent : string -> option string)
    (value : string) (expected_bucket expected_object : string) : bool :=
  match parse_url value with
  | None => false
  | Some url =>
      if negb (String.eqb (protocol url) "https:") || nonempty (username url) || nonempty (password url)
         || nonempty (url_hash url) || (nonempty (port url) && negb (String.eqb (port url) "443"))
         || negb (mem (hostname url) GCS_RESUMABLE_HOSTS)
      then false
      else
        match bucket_of_path (pathname url) with
        | None => false
        | Some encoded =>
            match decodeURIComponent encoded with
            | None => false
            | Some bucket =>
                let params := searchParams url in
                if existsb (fun p => negb (mem (fst p) ["uploadType"; "name"; "upload_id"; "ifGenerationMatch"])) params
                then false
                else
                  String.eqb bucket expected_bucket
                  && is_single (getAll "uploadType" params) (String.eqb "resumable")
                  && ((length (getAll "name" params) =? 0)%nat
                      || is_single (getAll "name" params) (String.eqb expected_object))
                  && is_single (getAll "upload_id" params) nonempty
                  && is_single (getAll "ifGenerationMatch" params) (String.eqb "0")
            end
        end
  end.

(** ** The upload loop *)

Definition chunkBytes : Z := 8 * 1024 * 1024.

(** A request is answered or fails, with the chain of causes of its error. *)
Inductive Outcome := Answered (response : Response) | Broken (chain : list (option string)).

(** What the environment does in one turn: the PUT, whether the transfer was aborted by
    the time its failure is handled, and the query. *)
Record Turn := { put : Outcome; abortReason : option string; query : Outcome }.

Record UploadState := { offset : Z; transientFailures : Z }.

Inductive Progress :=
  | Finished (generation : string)
  | Failed (message : string)
  | Again (s : UploadState).

(** The range that a PUT sends, and its content length. *)
Definition sentRange (totalBytes : Z) (s : UploadState) : Z * Z :=
  (offset s, Z.min (totalBytes - 1) (offset s + chunkBytes - 1)).
Definition contentLength (range : Z * Z) : Z := snd range - fst range + 1.

Definition redirectMessage (response : Response) : string :=
  "GCS resumable evidence upload rejected a redirect (" +:+ string_of_Z (httpStatus response) +:+ ")".

(** The message of the error itself. *)
Definition chainMessage (chain : list (option string)) : string := default "" (default None (head chain)).

(** The query of the committed range, after a failure. *)
Definition queryCommitted (s : UploadState) (failures : Z) (q : Outcome) : Progress :=
  match q with
  | Broken chain =>
      if rejectedRedirect chain then Failed (chainMessage chain)
      else Again {| offset := offset s; transientFailures := failures |}
  | Answered response =>
      if rejectUploadRedirect response then Failed (redirectMessage response)
      else if httpStatus response =? 308
      then Again {| offset := resumableOffset response; transientFailures := failures |}
      else
        match (if ok response then completedUploadGeneration response else None) with
        | Some generation => Finished generation
        | None =>
            if (httpStatus response =? 404) || (httpStatus response =? 410)
            then Failed "GCS resumable evidence upload capability expired"
            else Again {| offset := offset s; transientFailures := failures |}
        end
  end.

(** The [catch] of the loop; [terminal] errors are thrown again. *)
Definition recover (s : UploadState) (t : Turn) (terminal : bool) (message : string) : Progress :=
  match abortReason t with
  | Some reason => Failed reason
  | None =>
      if terminal then Failed message
      else if 5 <? transientFailures s + 1 then Failed message
      else queryCommitted s (transientFailures s + 1) (query t)
  end.

Definition uploadTurn (totalBytes : Z) (s : UploadState) (t : Turn) : Progress :=
  match put t with
  | Broken chain => recover s t (rejectedRedirect chain) (chainMessage chain)
  | Answered response =>
      if rejectUploadRedirect response then recover s t true (redirectMessage response)
      else if httpStatus response =? 308
      then
        let next := resumableOffset response in
        if (next <=? offset s) || (totalBytes <? next)
        then recover s t false "GCS resumable upload returned an invalid committed range"
        else Again {| offset := next; transientFailures := 0 |}
      else if negb (ok response)
      then recover s t false
             ("GCS resumable evidence upload failed (" +:+ string_of_Z (httpStatus response) +:+ ")")
      else
        match completedUploadGeneration response with
        | Some generation => Finished generation
        | None => recover s t false "GCS resumable upload response omitted the exact generation"
        end
  end.

(** The loop, while turns last: [Again] when it is still running. *)
Fixpoint uploadLoop (totalBytes : Z) (s : UploadState) (turns : list Turn) : Progress :=
  if offset s <? totalBytes then
    match turns with
    | [] => Again s
    | t :: ts =>
        match uploadTurn totalBytes s t with
        | Again s' => uploadLoop totalBytes s' ts
        | other => other
        end
    end
  else Failed "GCS resumable upload ended without a generation".

(** [source]: the size of the bundle, if it is a file. *)
Definition uploadBrokeredEvidenceFile (validCapability : bool) (totalBytes : Z) (source : option Z)
    (turns : list Turn) : Progress :=
  if negb validCapability then Failed "remote evidence broker returned an invalid GCS upload capability"
  else if negb (Z.abs totalBytes <=? 2 ^ 53 - 1) || (totalBytes <=? 0)
  then Failed "remote evidence bundle size is invalid"
  else if negb (bool_decide (source = Some totalBytes))
  then Failed "remote evidence bundle bytes do not match the declared size"
  else uploadLoop totalBytes {| offset := 0; transientFailures := 0 |} turns.

(** ** The multipart body of a push *)

Record StreamUpload := { fieldName : string; storageKey : string; mimeType : string; byteSize : Z }.

Definition crlf : string := String "013" (String "010" "").

(** [path.basename] of POSIX: the text after the last separator, trailing separators aside. *)
Definition basename (path : string) : string :=
  default "" (List.find nonempty (rev (split_on "/"%char path))).

(** Double quotes and line ends become underscores. *)
Definition sanitized (s : string) : string :=
  string_of_list_ascii (List.map (fun c =>
    if Ascii.eqb c "034" || Ascii.eqb c "013" || Ascii.eqb c "010" then "_"%char else c) (list_ascii_of_string s)).

Definition multipartUploadHeader (boundary : string) (upload : StreamUpload) : string :=
  "--" +:+ boundary +:+ crlf +:+ "Content-Disposition: form-data; name=" +:+ quoted (fieldName upload)
  +:+ "; filename=" +:+ quoted (sanitized (basename (storageKey upload))) +:+ crlf
  +:+ "Content-Type: " +:+ mimeType upload +:+ crlf +:+ crlf.

Definition manifestPart (boundary manifestJson : string) : string :=
  "--" +:+ boundary +:+ crlf +:+ "Content-Disposition: form-data; name=" +:+ quoted "manifest" +:+ crlf
  +:+ "Content-Type: application/json" +:+ crlf +:+ crlf +:+ manifestJson +:+ crlf.

Definition closing (boundary : string) : string := "--" +:+ boundary +:+ "--" +:+ crlf.

Definition byteLength (s : string) : Z := Z.of_nat (String.length s).

Definition multipartPolarContentLength (boundary manifestJson : string) (uploads : list StreamUpload) : result Z :=
  let total := fold_left (fun total upload =>
                 total + byteLength (multipartUploadHeader boundary upload) + byteSize upload + 2)
                 uploads (byteLength (manifestPart boundary manifestJson)) + byteLength (closing boundary) in
  if negb (Z.abs total <=? 2 ^ 53 - 1) || (total <=? 0)
  then Throw "remote multipart body length is invalid" else Ok total.

(** The chunks of the body; [read] gives the chunks of a stored file. *)
Definition multipartPolarBody (read : string -> list string) (boundary manifestJson : string)
    (uploads : list StreamUpload) : list string :=
  manifestPart boundary manifestJson
  :: List.flat_map (fun upload => multipartUploadHeader boundary upload :: read (storageKey upload) ++ [crlf]) uploads
  ++ [closing boundary].

(** ** Ranges *)

(** The ranges that the loop sends. *)
Fixpoint sentRanges (totalBytes : Z) (s : UploadState) (turns : list Turn) : list (Z * Z) :=
  match turns with
  | t :: ts =>
      if offset s <? totalBytes
      then sentRange totalBytes s
           :: match uploadTurn totalBytes s t with
              | Again s' => sentRanges totalBytes s' ts
              | _ => []
              end
      else []
  | [] => []
  end.

Lemma digits_of_nonneg (s : string) :
  all_chars is_digit s = true -> Forall (fun d => 0 <= d) (digits_of s).
Proof.
  unfold digits_of. induction s as [|c s IH]; cbn; [constructor|].
  intros [[Hc _]%andb_true_iff Hs]%andb_true_iff. constructor; [|auto]. apply Nat.leb_le in Hc. lia.
Qed.

Lemma digits_value_nonneg (ds : list Z) : Forall (fun d => 0 <= d) ds -> 0 <= digits_value ds.
Proof.
  unfold digits_value. enough (H : forall acc, 0 <= acc -> Forall (fun d => 0 <= d) ds ->
    0 <= fold_left (fun acc d => acc * 10 + d) ds acc) by (intros; by apply H).
  induction ds as [|d ds IH]; intros acc Ha Hd; cbn; [done|].
  apply Forall_cons_iff in Hd as [Hd Hds]. apply IH; [lia|done].
Qed.

Lemma resumableOffset_nonneg (r : Response) : 0 <= resumableOffset r.
Proof.
  unfold resumableOffset. destruct (range_header r) as [range|]; [|done].
  destruct (String.eqb _ _); [|done]. cbv zeta. destruct (_ && _) eqn:E; [|done].
  apply andb_true_iff in E as [_ E]. pose proof (digits_value_nonneg _ (digits_of_nonneg _ E)). lia.
Qed.

(** A turn that continues either advances the offset, or counts a failure. *)
Lemma turn_cases (total : Z) (s s' : UploadState) (t : Turn) :
  uploadTurn total s t = Again s' ->
  (offset s < offset s' <= total /\ transientFailures s' = 0) \/
  (transientFailures s' = transientFailures s + 1 /\ transientFailures s' <= 5 /\
   (offset s' = offset s \/ exists q, query t = Answered q /\ httpStatus q = 308 /\ offset s' = resumableOffset q)).
Proof.
  assert (Hr : forall terminal message, recover s t terminal message = Again s' ->
    transientFailures s' = transientFailures s + 1 /\ transientFailures s' <= 5 /\
    (offset s' = offset s \/ exists q, query t = Answered q /\ httpStatus q = 308 /\ offset s' = resumableOffset q)).
  { intros terminal message. unfold recover. destruct (abortReason t); [done|]. destruct terminal; [done|].
    destruct (5 <? _) eqn:Ef; [done|]. apply Z.ltb_ge in Ef. unfold queryCommitted.
    destruct (query t) as [q|chain]; [|destruct (rejectedRedirect chain); [done|]; intros [= <-]; cbn; auto].
    destruct (rejectUploadRedirect q); [done|]. destruct (httpStatus q =? 308) eqn:Eq.
    { intros [= <-]. cbn. split_and!; [done..|]. right. exists q. split_and!; [done|lia|done]. }
    destruct (if ok q then _ else _); [done|]. destruct (_ || _); [done|]. intros [= <-]. cbn. auto. }
  unfold uploadTurn. destruct (put t) as [r|chain]; [|intros H; right; by eapply Hr].
  destruct (rejectUploadRedirect r); [intros H; right; by eapply Hr|].
  destruct (httpStatus r =? 308).
  - cbv zeta. destruct (_ || _) eqn:Eb; [intros H; right; by eapply Hr|]. intros [= <-]. left. cbn.
    apply orb_false_iff in Eb as [E1%Z.leb_gt E2%Z.ltb_ge]. lia.
  - destruct (negb (ok r)); [intros H; right; by eapply Hr|].
    destruct (completedUploadGeneration r); [done|]. intros H. right. by eapply Hr.
Qed.

Lemma turn_offset (total : Z) (s s' : UploadState) (t : Turn) :
  0 <= offset s -> uploadTurn total s t = Again s' -> 0 <= offset s'.
Proof.
  intros H0 [[H _]|(_ & _ & [->|(q & _ & _ & ->)])]%turn_cases; [lia|done|apply resumableOffset_nonneg].
Qed.

(** C17. Every request of an upload asks for a range inside the file: it starts where the
    server has no bytes yet, holds at least one and at most 8 MiB of the bundle's bytes,
    and ends before the bundle's end; this is the length it announces. *)
Theorem upload_ranges (total : Z) (turns : list Turn) (a b : Z) :
  In (a, b) (sentRanges total {| offset := 0; transientFailures := 0 |} turns) ->
  0 <= a <= b /\ b < total /\ 1 <= contentLength (a, b) <= chunkBytes.
Proof.
  enough (H : forall s, 0 <= offset s -> In (a, b) (sentRanges total s turns) ->
    0 <= a <= b /\ b < total /\ 1 <= contentLength (a, b) <= chunkBytes) by (by apply H).
  induction turns as [|t ts IH]; intros s Hs; cbn [sentRanges]; [done|].
  destruct (offset s <? total) eqn:El; [|done]. apply Z.ltb_lt in El. intros [H|H].
  - unfold sentRange in H. injection H as <- <-. unfold contentLength, chunkBytes. cbn [fst snd]. lia.
  - destruct (uploadTurn total s t) as [|?|s'] eqn:E; try done. eapply IH; [|exact H]. by eapply turn_offset.
Qed.

(** ** The generation *)

(** The response of a turn that names the generation. *)
Definition names_generation (r : Response) (g : string) : Prop :=
  ok r = true /\
  ((x_goog_generation r = Some g /\ validGeneration g = true) \/
   exists payload, json_body r = Some payload /\
     ((prop "generation" payload = JStr g /\ validGeneration g = true) \/
      exists x z, prop "generation" payload = JNum x /\ to_integer x = Some z /\ 0 < z <= 2 ^ 53 - 1 /\
        g = Number_toString x)).

Lemma completed_names (r : Response) (g : string) :
  ok r = true -> completedUploadGeneration r = Some g -> names_generation r g.
Proof.
  intros Hok H. split; [done|].
  assert (Hb : bodyGeneration (json_body r) = Some g -> exists payload, json_body r = Some payload /\
     ((prop "generation" payload = JStr g /\ validGeneration g = true) \/
      exists x z, prop "generation" payload = JNum x /\ to_integer x = Some z /\ 0 < z <= 2 ^ 53 - 1 /\
        g = Number_toString x)).
  { unfold bodyGeneration. destruct (json_body r) as [p|]; [|done]. cbn [option_map]. intros Hp. exists p. split; [done|].
    destruct (prop "generation" p) eqn:Eg; try done.
    - unfold numberGeneration in Hp. destruct (to_integer n) as [z|] eqn:Ez; [|done].
      destruct (_ && _) eqn:Er; [|done]. apply andb_true_iff in Er as [E1%Z.ltb_lt E2%Z.leb_le].
      injection Hp as <-. right. exists n, z. split_and!; done.
    - destruct (validGeneration s) eqn:Ev; [|done]. injection Hp as ->. by left. }
  unfold completedUploadGeneration in H. destruct (x_goog_generation r) as [h|]; [|right; by apply Hb].
  destruct (nonempty h && validGeneration h) eqn:Eh; [|right; by apply Hb].
  apply andb_true_iff in Eh as [_ Ev]. injection H as <-. by left.
Qed.

Lemma turn_finished (total : Z) (s : UploadState) (t : Turn) (g : string) :
  uploadTurn total s t = Finished g ->
  exists r, (put t = Answered r \/ query t = Answered r) /\ names_generation r g.
Proof.
  assert (Hr : forall terminal message, recover s t terminal message = Finished g ->
    exists r, query t = Answered r /\ names_generation r g).
  { intros terminal message. unfold recover. destruct (abortReason t); [done|]. destruct terminal; [done|].
    destruct (5 <? _); [done|]. unfold queryCommitted.
    destruct (query t) as [q|chain]; [|by destruct (rejectedRedirect chain)].
    destruct (rejectUploadRedirect q); [done|]. destruct (httpStatus q =? 308); [done|].
    destruct (ok q) eqn:Eo; [|by destruct (_ || _)].
    destruct (completedUploadGeneration q) eqn:Ec; [|by destruct (_ || _)].
    intros [= <-]. exists q. split; [done|]. by apply completed_names. }
  unfold uploadTurn. destruct (put t) as [r|chain]; [|intros (q & Hq & H)%Hr; exists q; auto].
  destruct (rejectUploadRedirect r); [intros (q & Hq & H)%Hr; exists q; auto|].
  destruct (httpStatus r =? 308); [cbv zeta; destruct (_ || _); [intros (q & Hq & H)%Hr; exists q; auto|done]|].
  destruct (ok r) eqn:Eo; cbn [negb]; [|intros (q & Hq & H)%Hr; exists q; auto].
  destruct (completedUploadGeneration r) eqn:Ec; [|intros (q & Hq & H)%Hr; exists q; auto].
  intros [= <-]. exists r. split; [by left|]. by apply completed_names.
Qed.

Lemma loop_finished (total : Z) (turns : list Turn) (g : string) : forall s,
  uploadLoop total s turns = Finished g ->
  exists t r, In t turns /\ (put t = Answered r \/ query t = Answered r) /\ names_generation r g.
Proof.
  induction turns as [|t ts IH]; intros s; cbn [uploadLoop]; (destruct (offset s <? total); [|done]); [done|].
  destruct (uploadTurn total s t) as [g'|?|s'] eqn:E; [|done|].
  - intros [= ->]. apply turn_finished in E as (r & Hr & Hg). exists t, r. split; [by left|done].
  - intros H. destruct (IH s' H) as (t' & r & Hin & Hr & Hg). exists t', r. split; [by right|done].
Qed.

(** C24. An upload is done only when the store said so: the capability was valid, the
    bundle has its declared positive size, and a response of success named the
    generation, in its header or as the text or safe integer of its body. *)
Theorem upload_done_named (valid : bool) (total : Z) (source : option Z) (turns : list Turn) (g : string) :
  uploadBrokeredEvidenceFile valid total source turns = Finished g ->
  valid = true /\ 0 < total <= 2 ^ 53 - 1 /\ source = Some total /\
  exists t r, In t turns /\ (put t = Answered r \/ query t = Answered r) /\ names_generation r g.
Proof.
  unfold uploadBrokeredEvidenceFile. destruct valid; [|done]. cbn [negb].
  destruct (_ || (total <=? 0)) eqn:Et; [done|]. apply orb_false_iff in Et as [E1 E2%Z.leb_gt].
  apply negb_false_iff, Z.leb_le in E1. destruct (bool_decide (source = Some total)) eqn:Es; [|done].
  apply bool_decide_eq_true in Es. intros H%loop_finished. split_and!; [done|lia|lia|done|done].
Qed.

(** ** The loop ends *)

(** The PUT of the turn was answered with a range beyond the offset, inside the file. *)
Definition advanced (total : Z) (s : UploadState) (t : Turn) : bool :=
  match put t with
  | Answered r => (httpStatus r =? 308) && (offset s <? resumableOffset r) && (resumableOffset r <=? total)
  | Broken _ => false
  end.

(** For each turn that is run, whether it advanced. *)
Fixpoint progress (total : Z) (s : UploadState) (turns : list Turn) : list bool :=
  match turns with
  | t :: ts =>
      if offset s <? total
      then advanced total s t :: match uploadTurn total s t with Again s' => progress total s' ts | _ => [] end
      else []
  | [] => []
  end.

(** The store never forgets a range that it has acknowledged. *)
Fixpoint never_loses (total : Z) (s : UploadState) (turns : list Turn) : Prop :=
  match turns with
  | t :: ts =>
      (forall q, query t = Answered q -> httpStatus q = 308 -> offset s <= resumableOffset q) /\
      (forall s', uploadTurn total s t = Again s' -> never_loses total s' ts)
  | [] => True
  end.

Lemma failures_range (total : Z) (s s' : UploadState) (t : Turn) :
  0 <= transientFailures s <= 5 -> uploadTurn total s t = Again s' -> 0 <= transientFailures s' <= 5.
Proof. intros Hf [(_ & ->)|(-> & H & _)]%turn_cases; [done|lia]. Qed.

(** A turn that continues advanced and cleared the failures, or counted one. *)
Lemma turn_progress (total : Z) (s s' : UploadState) (t : Turn) :
  0 <= transientFailures s -> uploadTurn total s t = Again s' ->
  if advanced total s t then offset s < offset s' /\ transientFailures s' = 0
  else transientFailures s' = transientFailures s + 1.
Proof.
  intros Hf H. destruct (advanced total s t) eqn:Ea; unfold advanced in Ea.
  - destruct (put t) as [r|] eqn:Ep; [|done]. rewrite !andb_true_iff in Ea. destruct Ea as [[E1 E2] E3].
    unfold uploadTurn in H. rewrite Ep in H. unfold rejectUploadRedirect in H. rewrite E1, andb_false_r in H.
    cbv zeta in H. replace (resumableOffset r <=? offset s) with false in H by lia.
    replace (total <? resumableOffset r) with false in H by lia. injection H as <-. cbn. lia.
  - destruct (turn_cases total s s' t H) as [(Ho & E0)|(E1 & _)]; [|done]. exfalso. revert H.
    assert (Hr : forall b m, recover s t b m <> Again s').
    { clear Ea. intros b m H. unfold recover in H. destruct (abortReason t); [done|]. destruct b; [done|].
      destruct (5 <? _); [done|]. unfold queryCommitted in H.
      repeat case_match; simplify_eq; cbn in E0; lia. }
    unfold uploadTurn. destruct (put t) as [r|]; [|apply Hr].
    destruct (rejectUploadRedirect r); [apply Hr|]. destruct (httpStatus r =? 308); cbn [andb] in Ea.
    + cbv zeta. destruct (_ || _) eqn:Eb; [apply Hr|]. apply orb_false_iff in Eb as [E1 E2].
      rewrite Z.leb_gt in E1. rewrite Z.ltb_ge in E2. rewrite andb_false_iff, Z.ltb_ge, Z.leb_gt in Ea. lia.
    + destruct (negb (ok r)); [apply Hr|]. destruct (completedUploadGeneration r); [done|apply Hr].
Qed.

(** One turn of a loop that is still running afterwards. *)
Lemma loop_step (total : Z) (s s' : UploadState) (t : Turn) (ts : list Turn) :
  0 <= transientFailures s <= 5 -> uploadLoop total s (t :: ts) = Again s' ->
  exists s1, uploadLoop total s1 ts = Again s' /\ 0 <= transientFailures s1 <= 5 /\
    uploadTurn total s t = Again s1 /\
    progress total s (t :: ts) = advanced total s t :: progress total s1 ts /\
    if advanced total s t then offset s < offset s1 /\ transientFailures s1 = 0
    else transientFailures s1 = transientFailures s + 1.
Proof.
  cbn [uploadLoop progress]. intros Hf. destruct (offset s <? total); [|done].
  destruct (uploadTurn total s t) as [|?|s1] eqn:E; try done. intros H. exists s1.
  split_and!; [done|by eapply failures_range|by eapply failures_range|done|done|].
  by apply turn_progress in E; [|lia].
Qed.

Definition trues (l : list bool) : Z := Z.of_nat (length (List.filter (fun b => b) l)).

Lemma turns_bounded (total : Z) (turns : list Turn) : forall s s',
  0 <= transientFailures s <= 5 -> uploadLoop total s turns = Again s' ->
  Z.of_nat (length turns) + transientFailures s <= 6 * trues (progress total s turns) + 5.
Proof.
  induction turns as [|t ts IH]; intros s s' Hf H; [unfold trues; cbn; lia|].
  apply loop_step in H as (s1 & H & Hf1 & _ & -> & Ha); [|done]. specialize (IH s1 s' Hf1 H).
  unfold trues in *. cbn [length List.filter]. destruct (advanced total s t); cbn [length]; lia.
Qed.

(** The turns in a row that do not advance, with those already counted. *)
Lemma idle_bounded (total : Z) (turns : list Turn) : forall s s' mid post,
  0 <= transientFailures s <= 5 -> uploadLoop total s turns = Again s' ->
  progress total s turns = mid ++ post -> Forall (fun b => b = false) mid ->
  Z.of_nat (length mid) + transientFailures s <= 5.
Proof.
  induction turns as [|t ts IH]; intros s s' mid post Hf H.
  - intros E _. symmetry in E. apply app_nil in E as [-> _]. cbn. lia.
  - apply loop_step in H as (s1 & H & Hf1 & _ & -> & Ha); [|done].
    destruct mid as [|b mid]; [cbn; lia|]. cbn [app length]. intros [= <- E] [Hb Hm]%Forall_cons_iff.
    rewrite Hb in Ha. specialize (IH s1 s' mid post Hf1 H E Hm). lia.
Qed.

Lemma idle_runs_bounded (total : Z) (pre : list bool) : forall turns s s' mid post,
  0 <= transientFailures s <= 5 -> uploadLoop total s turns = Again s' ->
  progress total s turns = pre ++ mid ++ post -> Forall (fun b => b = false) mid ->
  Z.of_nat (length mid) <= 5.
Proof.
  induction pre as [|b pre IH]; intros turns s s' mid post Hf H E Hm.
  - pose proof (idle_bounded total turns s s' mid post Hf H E Hm). lia.
  - destruct turns as [|t ts]; [done|]. apply loop_step in H as (s1 & H & Hf1 & _ & E' & _); [|done].
    rewrite E' in E. injection E as _ E. by apply (IH ts s1 s' mid post).
Qed.

Lemma advances_bounded (total : Z) (turns : list Turn) : forall s s',
  offset s <= total -> 0 <= transientFailures s <= 5 -> never_loses total s turns ->
  uploadLoop total s turns = Again s' -> offset s + trues (progress total s turns) <= total.
Proof.
  induction turns as [|t ts IH]; intros s s' Ho Hf Hn H; [unfold trues; cbn; lia|].
  apply loop_step in H as (s1 & H & Hf1 & E & -> & Ha); [|done]. destruct Hn as [Hq Hn]. specialize (Hn s1 E).
  assert (Ho1 : offset s1 <= total).
  { destruct ts as [|t' ts']; cbn [uploadLoop] in H; destruct (offset s1 <? total) eqn:E1; try done; lia. }
  specialize (IH s1 s' Ho1 Hf1 Hn H). unfold trues in *. cbn [List.filter].
  destruct (advanced total s t); cbn [length]; [lia|].
  apply turn_cases in E as [(? & ?)|(_ & _ & [Hoff|(q & Hqa & Hs & Hoff)])]; [lia..|].
  specialize (Hq q Hqa Hs). lia.
Qed.

(** C16. An upload ends. However the network behaves, in a loop that is still running at
    most five turns in a row have a PUT that does not advance the committed range, so that
    the turns are at most six for each advance and five more; and if the store never loses
    acknowledged bytes, they are at most six for each byte of the bundle and five more. *)
Theorem upload_ends (valid : bool) (total : Z) (source : option Z) (turns : list Turn) (s : UploadState) :
  let start := {| offset := 0; transientFailures := 0 |} in
  uploadBrokeredEvidenceFile valid total source turns = Again s ->
  (forall pre mid post, progress total start turns = pre ++ mid ++ post ->
     Forall (fun b => b = false) mid -> Z.of_nat (length mid) <= 5) /\
  Z.of_nat (length turns) <= 6 * trues (progress total start turns) + 5 /\
  (never_loses total start turns -> Z.of_nat (length turns) <= 6 * total + 5).
Proof.
  unfold uploadBrokeredEvidenceFile. destruct valid; [|done]. cbn [negb].
  destruct (_ || (total <=? 0)) eqn:Et; [done|]. apply orb_false_iff in Et as [_ E2%Z.leb_gt].
  destruct (negb (bool_decide _)); [done|]. intros H. set (start := {| offset := 0; transientFailures := 0 |}) in *.
  assert (Hf : 0 <= transientFailures start <= 5) by (cbn; lia).
  pose proof (turns_bounded total turns start s Hf H) as Hb. cbn [transientFailures start] in Hb.
  split_and!; [|lia|].
  - intros pre mid post. by apply (idle_runs_bounded total pre turns start s).
  - intros Hn. pose proof (advances_bounded total turns start s ltac:(cbn; lia) Hf Hn H) as Ha.
    cbn [offset start] in Ha. lia.
Qed.

(** ** The announced length *)

Lemma byteLength_app (a b : string) : byteLength (a +:+ b) = byteLength a + byteLength b.
Proof.
  unfold byteLength. induction a as [|c a IH]; [done|].
  change (String.length (String c a +:+ b)) with (S (String.length (a +:+ b))).
  change (String.length (String c a)) with (S (String.length a)). lia.
Qed.

Definition totalLength (chunks : list string) : Z := fold_right (fun c n => byteLength c + n) 0 chunks.

Lemma totalLength_app (a b : list string) : totalLength (a ++ b) = totalLength a + totalLength b.
Proof. induction a as [|c a IH]; [done|]. cbn. fold (totalLength (a ++ b)). fold (totalLength a). lia. Qed.

(** C18. The body of a push has exactly the length that its header announces, provided that
    each stored file has its declared size; and a length that is no safe integer is
    refused before anything is sent. *)
Theorem content_length_exact (read : string -> list string) (boundary manifestJson : string)
    (uploads : list StreamUpload) :
  Forall (fun u => totalLength (read (storageKey u)) = byteSize u) uploads ->
  multipartPolarContentLength boundary manifestJson uploads =
    let n := totalLength (multipartPolarBody read boundary manifestJson uploads) in
    if 2 ^ 53 - 1 <? n then Throw "remote multipart body length is invalid" else Ok n.
Proof.
  intros Hu. unfold multipartPolarContentLength, multipartPolarBody. cbv zeta.
  set (parts := List.flat_map _ uploads). cbn [totalLength fold_right]. fold (totalLength (parts ++ [closing boundary])).
  assert (E : forall acc, fold_left (fun total u => total + byteLength (multipartUploadHeader boundary u) + byteSize u + 2)
                uploads acc = acc + totalLength parts).
  { unfold parts. clear parts. induction Hu as [|u us Hu Hus IH]; intros acc; cbn [fold_left List.flat_map]; [cbn; lia|].
    rewrite IH, !totalLength_app. cbn [totalLength fold_right]. fold (totalLength (read (storageKey u) ++ [crlf])).
    rewrite totalLength_app, Hu. change (totalLength [crlf]) with 2. lia. }
  rewrite E, totalLength_app. change (totalLength [closing boundary]) with (byteLength (closing boundary) + 0).
  rewrite Z.add_0_r, Z.add_assoc.
  set (n := byteLength (manifestPart boundary manifestJson) + totalLength parts + byteLength (closing boundary)).
  assert (Hn : 0 < n).
  { assert (Hp : forall cs, 0 <= totalLength cs).
    { induction cs as [|c cs IHc]; cbn; [lia|]. fold (totalLength cs). unfold byteLength. lia. }
    pose proof (Hp parts). unfold n, closing. rewrite !byteLength_app. unfold byteLength at 2. cbn [String.length].
    unfold byteLength. lia. }
  destruct (2 ^ 53 - 1 <? n) eqn:El.
  - apply Z.ltb_lt in El. by replace (Z.abs n <=? 2 ^ 53 - 1) with false by lia.
  - apply Z.ltb_ge in El. replace (Z.abs n <=? 2 ^ 53 - 1) with true by lia. by replace (n <=? 0) with false by lia.
Qed.

(** No double quote and no line end comes into the header from a file's name. *)
Lemma sanitized_plain (s : string) :
  all_chars (fun c => negb (Ascii.eqb c "034" || Ascii.eqb c "013" || Ascii.eqb c "010")) (sanitized s) = true.
Proof.
  unfold sanitized. induction s as [|c s IH]; cbn; [done|]. rewrite IH, andb_true_r.
  destruct (Ascii.eqb c "034" || Ascii.eqb c "013" || Ascii.eqb c "010") eqn:E; [done|by rewrite E].
Qed.

(** ** Concrete transfers *)

Definition answer (status : Z) (range : option string) (generation : option string) : Outcome :=
  Answered {| httpStatus := status; range_header := range; x_goog_generation := generation; json_body := None |}.
Definition lost_connection : Outcome := Broken [Some "fetch failed"; Some "socket hang up"].
Definition turn (p q : Outcome) : Turn := {| put := p; abortReason := None; query := q |}.

(** Ten bytes: four are committed, then the connection breaks, then the rest is stored. *)
Definition ten_bytes : list Turn :=
  [turn (answer 308 (Some "bytes=0-3") None) lost_connection;
   turn lost_connection (answer 308 (Some "Bytes=0-3") None);
   turn (answer 200 None (Some "1723")) lost_connection].

Definition initial : UploadState := {| offset := 0; transientFailures := 0 |}.

Lemma upload_ranges_witness :
  sentRanges 10 initial ten_bytes = [(0, 9); (4, 9); (4, 9)] /\
  0 <= 4 <= 9 /\ 9 < 10 /\ 1 <= contentLength (4, 9) <= chunkBytes.
Proof. split; [vm_compute; reflexivity|]. apply (upload_ranges 10 ten_bytes 4 9). right. left. vm_compute. reflexivity. Defined.

Lemma upload_done_named_witness :
  true = true /\ 0 < 10 <= 2 ^ 53 - 1 /\ Some 10 = Some 10 /\
  exists t r, In t ten_bytes /\ (put t = Answered r \/ query t = Answered r) /\ names_generation r "1723".
Proof. apply (upload_done_named true 10 (Some 10) ten_bytes "1723"). vm_compute. reflexivity. Defined.

(** Four bytes are committed, then the network fails five times in a row. *)
Definition bad_network : list Turn :=
  turn (answer 308 (Some "bytes=0-3") None) lost_connection
  :: List.repeat (turn (answer 503 None None) (answer 308 (Some "bytes=0-3") None)) 5.

Lemma upload_ends_witness :
  progress 10 initial bad_network = [true; false; false; false; false; false] /\
  Z.of_nat 5 <= 5 /\ Z.of_nat (length bad_network) <= 6 * 1 + 5 /\ Z.of_nat (length bad_network) <= 6 * 10 + 5 /\
  uploadBrokeredEvidenceFile true 10 (Some 10) (bad_network ++ [turn lost_connection lost_connection]) =
    Failed "fetch failed".
Proof.
  destruct (upload_ends true 10 (Some 10) bad_network {| offset := 4; transientFailures := 5 |}) as (H1 & H2 & H3);
    [vm_compute; reflexivity|].
  split; [vm_compute; reflexivity|]. split.
  { apply (H1 [true] (List.repeat false 5) []); [vm_compute; reflexivity|].
    repeat (apply List.Forall_cons; [reflexivity|]). apply List.Forall_nil. }
  split; [exact H2|]. split; [|vm_compute; reflexivity].
  apply H3. unfold bad_network. cbn [List.repeat never_loses].
  repeat (split; [intros q Hq Hs; vm_compute in Hq; first [discriminate Hq|injection Hq as <-; vm_compute; discriminate]|
                  intros s' Hs'; vm_compute in Hs'; injection Hs' as <-]).
  exact I.
Defined.

Definition stored (key : string) : list string := if String.eqb key "case/a.png" then ["PNG"; "data"] else [].

Lemma content_length_exact_witness :
  multipartPolarContentLength "xyz" "{}"
    [{| fieldName := "f0"; storageKey := "case/a.png"; mimeType := "image/png"; byteSize := 7 |}] = Ok 207.
Proof.
  rewrite (content_length_exact stored "xyz" "{}"); [vm_compute; reflexivity|].
  apply List.Forall_cons; [vm_compute; reflexivity|apply List.Forall_nil].
Defined.

(** A store that forgets what it committed: a pair of turns brings the loop back to where
    it was, so that only the deadline of the requests ends it. *)
Definition forgetful : list Turn :=
  [turn (answer 308 (Some "bytes=0-3") None) lost_connection; turn lost_connection (answer 308 None None)].

Lemma forgetful_store_never_ends (n : nat) :
  let s := {| offset := 0; transientFailures := 1 |} in
  uploadLoop 10 s (List.concat (List.repeat forgetful n)) = Again s.
Proof.
  induction n as [|n IH]; [reflexivity|]. cbn [List.repeat List.concat].
  etransitivity; [|exact IH]. reflexivity.
Qed.
