(* ===== verification/AdminAuth.v ===== *)
(** * Administrator sessions

    From [apps/api/src/admin-auth.ts] and the login routes of
    [apps/api/src/admin-routes.ts]: credentials, the signed session cookie, the state of
    the Google login, and the guard of the administrator routes.

    The environment variables, the request and the answers of Google are arguments. The
    host's part of a token is an interface: [hmac] (HMAC-SHA-256 as base64url), [seal]
    (base64url of the JSON text of a value) and [unseal] (the parsed JSON of decoded
    base64url, [None] when it throws). Building the authorization URL and fetching are
    not modelled.

    Proved: a session that is accepted was signed with the secret and is not over, and one
    that was issued is accepted until then; Google sessions are of the allowed domain; a
    login goes where its signed state says, to a location that starts with one slash and
    is not under [/api/] (a backslash after the slash passes). Also: the state of a Google login, which anybody
    can get, is accepted as a session. *)

From Stdlib Require Import ZArith Lia Bool Ascii String.
From Stdlib Require Import Floats.
From stdpp Require Import base list strings option numbers.
From S2P Require Import Prelude JsNumber JsString JsValue JsArray.

Local Open Scope string_scope.
Local Open Scope list_scope.
Local Open Scope result_scope.

(** ** Configuration *)

Record Env := {
  ADMIN_SESSION_SECRET : option string;
  ADMIN_EMAIL : option string;
  ADMIN_PASSWORD : option string;
  ADMIN_GOOGLE_CLIENT_ID : option string;
  GOOGLE_CLIENT_ID : option string;
  ADMIN_GOOGLE_CLIENT_SECRET : option string;
  GOOGLE_CLIENT_SECRET : option string;
  ADMIN_GOOGLE_ALLOWED_DOMAIN : option string;
  ADMIN_AUTH_DISABLED : option string;
  ADMIN_AUTH_REQUIRED : option string;
  NODE_ENV : option string;
  ADMIN_PUBLIC_ORIGIN : option string;
  PUBLIC_ORIGIN : option string;
  NEXT_PUBLIC_API_URL : option string;
  ADMIN_GOOGLE_REDIRECT_URI : option string;
}.

(** [a || b] for a variable that may be unset. *)
Definition or_else (a : option string) (b : string) : string :=
  match a with Some s => if nonempty s then s else b | None => b end.

Definition sessionSecret (env : Env) : string :=
  or_else (ADMIN_SESSION_SECRET env) "aero-dev-insecure-secret-change-me".
Definition adminEmail (env : Env) : string := or_else (ADMIN_EMAIL env) "admin@airfoils.pro".
Definition adminPassword (env : Env) : string := or_else (ADMIN_PASSWORD env) "".
Definition googleClientId (env : Env) : string :=
  or_else (ADMIN_GOOGLE_CLIENT_ID env) (or_else (GOOGLE_CLIENT_ID env) "").
Definition googleClientSecret (env : Env) : string :=
  or_else (ADMIN_GOOGLE_CLIENT_SECRET env) (or_else (GOOGLE_CLIENT_SECRET env) "").
Definition googleAllowedDomain (env : Env) : string :=
  toLowerCase (trim (or_else (ADMIN_GOOGLE_ALLOWED_DOMAIN env) "vr.ae")).

Inductive AuthMode := dev | prod.

#[export] Instance auth_mode_eq_dec : EqDecision AuthMode.
Proof. solve_decision. Defined.

Definition authMode (env : Env) : AuthMode :=
  if bool_decide (ADMIN_AUTH_DISABLED env = Some "true") then dev
  else if bool_decide (ADMIN_AUTH_REQUIRED env = Some "true") then prod
  else if bool_decide (NODE_ENV env = Some "production") then prod else dev.

(** Equality of the UTF-8 bytes. *)
Definition safeEqual (a b : string) : bool :=
  Nat.eqb (String.length (utf8 a)) (String.length (utf8 b)) && String.eqb (utf8 a) (utf8 b).

Definition googleOAuthConfigured (env : Env) : bool :=
  nonempty (googleClientId env) && nonempty (googleClientSecret env).

Record AdminAuthProviders := { google : bool; password : bool }.

Definition adminAuthProviders (env : Env) : AdminAuthProviders :=
  {| google := googleOAuthConfigured env; password := nonempty (adminPassword env) |}.

Definition checkCredentials (env : Env) (email password : string) : bool :=
  if bool_decide (authMode env = dev) then true
  else if negb (nonempty (adminPassword env)) then false
  else safeEqual (toLowerCase (trim email)) (toLowerCase (trim (adminEmail env)))
       && safeEqual password (adminPassword env).

(** [.replace(/\/+$/g, '')] *)
Fixpoint strip_slashes (s : string) : string :=
  match s with
  | EmptyString => EmptyString
  | String c s' =>
      match strip_slashes s' with
      | EmptyString => if Ascii.eqb c "/" then EmptyString else String c EmptyString
      | t => String c t
      end
  end.

(** The first of the values of a header. *)
Definition first_value (header : option string) : string :=
  trim (default "" (head (split_on "," (or_else header "")))).

Record RequestHeaders := {
  x_forwarded_proto : option string; x_forwarded_host : option string; host : option string }.

Definition requestOrigin (env : Env) (headers : RequestHeaders) : string :=
  let configured := or_else (ADMIN_PUBLIC_ORIGIN env) (or_else (PUBLIC_ORIGIN env) (or_else (NEXT_PUBLIC_API_URL env) "")) in
  if nonempty configured then strip_slashes configured
  else
    let forwardedProto := first_value (x_forwarded_proto headers) in
    let forwardedHost := first_value (x_forwarded_host headers) in
    let host := if nonempty forwardedHost then forwardedHost else or_else (host headers) "" in
    let proto := if nonempty forwardedProto then forwardedProto
                 else if String.prefix "localhost" host || String.prefix "127.0.0.1" host then "http" else "https" in
    proto +:+ "://" +:+ host.

Definition googleRedirectUri (env : Env) (headers : RequestHeaders) : string :=
  or_else (ADMIN_GOOGLE_REDIRECT_URI env) (requestOrigin env headers +:+ "/api/admin/oauth/google/callback").

(** ** Tokens *)

Class TokenHost := {
  hmac : string -> string -> string;
  seal : jsval -> string;
  unseal : string -> option jsval;
}.

(** base64url texts have no dot, and neither a digest nor an object has an empty one. *)
Class TokenHostLaws `{TokenHost} : Prop := {
  hmac_plain : forall secret text, lacks "." (hmac secret text) = true /\ nonempty (hmac secret text) = true;
  seal_plain : forall v, lacks "." (seal v) = true /\ nonempty (seal v) = true;
}.

Record AdminSession := { email : jsval; provider : jsval; domain : jsval }.

(** The member of an object literal; an undefined one has no JSON. *)
Definition member (k : string) (v : option string) : record :=
  match v with Some s => [(k, JStr s)] | None => [] end.

Section Tokens.
Context {TH : TokenHost} (env : Env).

Definition token_of (payload : jsval) : string :=
  seal payload +:+ "." +:+ hmac (sessionSecret env) (seal payload).

Definition sessionPayload (email : string) (ttlMs : jsnum) (provider : string) (domain : option string)
    (now : jsnum) : jsval :=
  JObj ([("email", JStr email); ("provider", JStr provider)] ++ member "domain" domain
        ++ [("exp", JNum (now + ttlMs)%float)]).

Definition signSession (email : string) (ttlMs : jsnum) (provider : string) (domain : option string)
    (now : jsnum) : string := token_of (sessionPayload email ttlMs provider domain now).

(** The parsed payload of a token whose signature is right. *)
Definition openToken (token : string) : option jsval :=
  match split_on "."%char token with
  | payload :: sig :: _ =>
      if negb (nonempty payload) || negb (nonempty sig) then None
      else if negb (safeEqual sig (hmac (sessionSecret env) payload)) then None
      else unseal payload
  | _ => None
  end.

(** [!p.exp || p.exp < Date.now()]; reading a property of [null] throws, with the same result. *)
Definition expired (p : jsval) (now : jsnum) : bool :=
  negb (truthy (prop "exp" p)) || js_lt (prop "exp" p) (JNum now).

Definition verifySession (token : option string) (now : jsnum) : option AdminSession :=
  match token with
  | None => None
  | Some token =>
      if negb (nonempty token) then None
      else
        match openToken token with
        | Some p => if expired p now then None
                    else Some {| email := prop "email" p; provider := prop "provider" p; domain := prop "domain" p |}
        | None => None
        end
  end.

(** The guard of the administrator routes: [None] lets the request pass. *)
Definition requireAdmin (cookie : option string) (now : jsnum) : option (Z * string) :=
  if bool_decide (authMode env = dev) then None
  else match verifySession cookie now with
       | Some _ => None
       | None => Some (401%Z, "admin authentication required")
       end.

Definition sessionEmail (cookie : option string) (now : jsnum) : jsval :=
  match verifySession cookie now with
  | Some s => if nullish (email s) then JNull else email s
  | None => JNull
  end.

(** ** The state of the Google login *)

Definition sanitizeReturnTo (value : jsval) : string :=
  match value with
  | JStr s => if negb (String.prefix "/" s) || String.prefix "//" s || String.prefix "/api/" s then "/admin" else s
  | _ => "/admin"
  end.

Definition statePayload (nonce : string) (returnTo : jsval) (ttlMs now : jsnum) : jsval :=
  JObj [("nonce", JStr nonce); ("returnTo", JStr (sanitizeReturnTo returnTo)); ("exp", JNum (now + ttlMs)%float)].

Definition signOAuthState (nonce : string) (returnTo : jsval) (ttlMs now : jsnum) : string :=
  token_of (statePayload nonce returnTo ttlMs now).

(** The path to return to. *)
Definition verifyOAuthState (state cookieState : option string) (now : jsnum) : option string :=
  match state, cookieState with
  | Some state, Some cookieState =>
      if negb (nonempty state) || negb (nonempty cookieState) || negb (safeEqual state cookieState) then None
      else
        match openToken state with
        | Some p => if expired p now then None else Some (sanitizeReturnTo (prop "returnTo" p))
        | None => None
        end
  | _, _ => None
  end.

(** ** The account *)

(** [String(value || "")] *)
Definition text_of (v : jsval) : string := if truthy v then to_string v else "".

Definition emailDomain (email : string) : string :=
  if JsString.includes email "@" then List.last (split_on "@"%char email) "" else "".

Definition validateGoogleUser (user : jsval) : result AdminSession :=
  let email := toLowerCase (trim (text_of (prop "email" user))) in
  let domain := emailDomain email in
  let allowedDomain := googleAllowedDomain env in
  let hostedDomain := toLowerCase (trim (text_of (prop "hd" user))) in
  if negb (nonempty email) || negb (truthy (prop "email_verified" user))
  then Throw "Google account email is not verified"
  else if negb (String.eqb domain allowedDomain)
  then Throw ("Google account must belong to " +:+ allowedDomain)
  else if nonempty hostedDomain && negb (String.eqb hostedDomain allowedDomain)
  then Throw ("Google account hosted domain must be " +:+ allowedDomain)
  else Ok {| email := JStr email; provider := JStr "google"; domain := JStr domain |}.

(** ** Routes *)

(** The status, the session cookie that is set, and the redirect or the error. *)
Record Reply := { replyStatus : Z; sessionCookie : option string; location : option string; replyError : option string }.

Definition redirect (path : string) : Reply :=
  {| replyStatus := 303; sessionCookie := None; location := Some path; replyError := None |}.
Definition refuse (status : Z) (message : string) : Reply :=
  {| replyStatus := status; sessionCookie := None; location := None; replyError := Some message |}.

Definition loginRoute (email password : string) (now : jsnum) : Reply :=
  if negb (checkCredentials env email password) then refuse 401 "invalid email or password"
  else {| replyStatus := 200; sessionCookie := Some (signSession email 86400000%float "password" None now);
          location := None; replyError := None |}.

(** The start of the Google login: the state goes into a cookie and into the redirect. *)
Definition googleStartRoute (nonce : string) (returnTo : option string) (now : jsnum) : result string :=
  if bool_decide (authMode env = dev) then Throw "dev"
  else if negb (googleOAuthConfigured env) then Throw "Google OAuth is not configured"
  else Ok (signOAuthState nonce (JStr (default "/admin" returnTo)) 600000%float now).

(** [exchange]: the account that Google answers for the code, or the error. *)
Definition googleCallbackRoute (code state error cookieState : option string) (exchange : result jsval)
    (now : jsnum) : Reply :=
  if bool_decide (authMode env = dev) then redirect "/admin"
  else
    let verifiedState := verifyOAuthState state cookieState now in
    if match error with Some e => nonempty e | None => false end then redirect "/admin?auth=google-denied"
    else
      match (match code with Some c => nonempty c | None => false end), verifiedState with
      | true, Some returnTo =>
          match (let* user := exchange in validateGoogleUser user) with
          | Throw message => refuse 401 message
          | Ok s =>
              {| replyStatus := 303;
                 sessionCookie := Some (signSession (to_string (email s)) 86400000%float "google"
                                          (Some (to_string (domain s))) now);
                 location := Some returnTo; replyError := None |}
          end
      | _, _ => refuse 400 "invalid Google OAuth state"
      end.


(** ** Tokens open again *)

Lemma safeEqual_spec (a b : string) : safeEqual a b = true <-> a = b.
Proof.
  unfold safeEqual. rewrite andb_true_iff, Nat.eqb_eq, String.eqb_eq. split; [|by intros ->].
  intros [_ E]. by apply utf8_inj.
Qed.

Lemma split_lacks (c : ascii) (s : string) : lacks c s = true -> split_on c s = [s].
Proof.
  unfold lacks. induction s as [|x s IH]; cbn [all_chars split_on]; [done|].
  intros [Hx Hs]%andb_true_iff. apply negb_true_iff in Hx. by rewrite Hx, (IH Hs).
Qed.

Lemma split_app (c : ascii) (a b : string) :
  lacks c a = true -> split_on c (a +:+ String c b) = a :: split_on c b.
Proof.
  unfold lacks. induction a as [|x a IH].
  - intros _. change ("" +:+ String c b) with (String c b). cbn [split_on]. by rewrite Ascii.eqb_refl.
  - cbn [all_chars]. intros [Hx Ha]%andb_true_iff. apply negb_true_iff in Hx.
    change (String x a +:+ String c b) with (String x (a +:+ String c b)). cbn [split_on]. by rewrite Hx, (IH Ha).
Qed.

(** Joining the parts with the separator gives the text back. *)
Lemma split_first (c : ascii) (s p q : string) (rest : list string) :
  split_on c s = p :: q :: rest -> lacks c p = true /\ exists t, s = p +:+ String c t /\ split_on c t = q :: rest.
Proof.
  unfold lacks. revert p. induction s as [|x s IH]; intros p; cbn [split_on]; [done|].
  destruct (Ascii.eqb x c) eqn:Ex.
  - apply Ascii.eqb_eq in Ex as ->. intros [= <- E]. split; [done|]. by exists s.
  - destruct (split_on c s) as [|p' ps] eqn:Es; [done|]. intros [= <- ->].
    destruct (IH p' eq_refl) as [Hl (t & -> & Ht)]. split; [cbn; by rewrite Ex, Hl|]. by exists t.
Qed.

Context {HL : TokenHostLaws}.

Lemma open_token (payload : jsval) : openToken (token_of payload) = unseal (seal payload).
Proof.
  destruct (seal_plain payload) as [Ls Ns], (hmac_plain (sessionSecret env) (seal payload)) as [Lh Nh].
  unfold openToken, token_of. change ("." +:+ ?t) with (String "." t).
  rewrite split_app, split_lacks by done. rewrite Ns, Nh. cbn [negb orb].
  replace (safeEqual _ _) with true; [done|]. symmetry. by apply safeEqual_spec.
Qed.

Lemma token_nonempty (payload : jsval) : nonempty (token_of payload) = true.
Proof. destruct (seal_plain payload) as [_ N]. unfold token_of. by destruct (seal payload). Qed.

(** The token opens to a payload that is not over. *)
Definition live (payload : jsval) (now : jsnum) : Prop :=
  unseal (seal payload) = Some payload /\ expired payload now = false.

Lemma verify_token (payload : jsval) (now : jsnum) :
  live payload now ->
  verifySession (Some (token_of payload)) now =
    Some {| email := prop "email" payload; provider := prop "provider" payload; domain := prop "domain" payload |}.
Proof.
  intros [Hu He]. unfold verifySession. rewrite token_nonempty, open_token, Hu. cbn [negb]. by rewrite He.
Qed.

Lemma expired_at (fields : record) (exp now : jsnum) :
  get "exp" (fields ++ [("exp", JNum exp)]) = JNum exp ->
  isFinite exp = true -> isFinite now = true -> (0 < ord exp)%Z -> (ord now <= ord exp)%Z ->
  expired (JObj (fields ++ [("exp", JNum exp)])) now = false.
Proof.
  intros Hg Fe Fn Hp Hle. unfold expired. cbn [prop]. rewrite Hg. cbn [truthy js_lt prim_string to_number].
  rewrite (isFinite_not_nan exp Fe). replace (PrimFloat.eqb exp 0) with false.
  - cbn. by apply ltb_finite_false.
  - symmetry. apply not_true_iff_false. rewrite eqb_finite by done. rewrite ord_0. lia.
Qed.

(** ** Sessions *)

(** C14. A session that was issued opens the administrator routes until it is over, with
    the account it was issued for, provided that its payload survives its own encoding. *)
Theorem session_roundtrip (mail : string) (ttl now later : jsnum) (source : string) (site : option string) :
  let payload := sessionPayload mail ttl source site now in
  unseal (seal payload) = Some payload ->
  isFinite (now + ttl)%float = true -> (0 < ord (now + ttl)%float)%Z ->
  isFinite later = true -> (ord later <= ord (now + ttl)%float)%Z ->
  let cookie := Some (signSession mail ttl source site now) in
  verifySession cookie later =
    Some {| email := JStr mail; provider := JStr source;
            domain := match site with Some d => JStr d | None => JUndef end |} /\
  requireAdmin cookie later = None /\ sessionEmail cookie later = JStr mail.
Proof.
  cbv zeta. intros Hu Fe Pe Fl Hle. set (payload := sessionPayload mail ttl source site now) in *.
  assert (Hv : verifySession (Some (signSession mail ttl source site now)) later =
    Some {| email := JStr mail; provider := JStr source; domain := match site with Some d => JStr d | None => JUndef end |}).
  { unfold signSession. rewrite verify_token.
    - unfold sessionPayload. by destruct site.
    - split; [done|]. unfold sessionPayload.
      change (expired (JObj (([("email", JStr mail); ("provider", JStr source)] ++ member "domain" site)
                             ++ [("exp", JNum (now + ttl)%float)])) later = false).
      apply expired_at; try done. by destruct site. }
  split; [done|]. unfold requireAdmin, sessionEmail. rewrite Hv. split; [by destruct (bool_decide _)|done].
Qed.

(** The cookie is signed with the secret, and what it says is not over. *)
Definition signed (cookie : option string) (now : jsnum) (p : jsval) : Prop :=
  exists token payload rest, cookie = Some token /\
    split_on "."%char token = payload :: hmac (sessionSecret env) payload :: rest /\
    unseal payload = Some p /\ truthy (prop "exp" p) = true /\ js_lt (prop "exp" p) (JNum now) = false.

Lemma open_signed (token : string) (p : jsval) :
  openToken token = Some p ->
  exists payload rest, split_on "."%char token = payload :: hmac (sessionSecret env) payload :: rest /\
    unseal payload = Some p.
Proof.
  unfold openToken. destruct (split_on "." token) as [|payload [|sig rest]]; try done.
  destruct (_ || _); [done|]. destruct (safeEqual sig _) eqn:Es; [|done]. apply safeEqual_spec in Es as ->.
  intros Hu. by exists payload, rest.
Qed.

Lemma not_expired (p : jsval) (now : jsnum) :
  expired p now = false -> truthy (prop "exp" p) = true /\ js_lt (prop "exp" p) (JNum now) = false.
Proof. unfold expired. by intros [H%negb_false_iff ?]%orb_false_iff. Qed.

(** C12. Where authentication is required, a request passes the guard only with a cookie
    that was signed with the secret and whose payload is not over; the address of the
    session is the one of that payload. *)
Theorem guard_sound (cookie : option string) (now : jsnum) :
  authMode env = prod -> requireAdmin cookie now = None ->
  exists p, signed cookie now p /\
    sessionEmail cookie now = if nullish (prop "email" p) then JNull else prop "email" p.
Proof.
  intros Hm. unfold requireAdmin, sessionEmail. rewrite Hm, bool_decide_eq_false_2 by done.
  unfold verifySession. destruct cookie as [token|]; [|done]. destruct (nonempty token); [|done]. cbn [negb].
  destruct (openToken token) as [p|] eqn:Eo; [|done]. destruct (expired p now) eqn:Ee; [done|]. intros _.
  exists p. split; [|done]. apply open_signed in Eo as (payload & rest & Hs & Hu).
  apply not_expired in Ee as [Ht Hl]. by exists token, payload, rest.
Qed.

(** C13. The state of a Google login passes the guard as a session, one without an
    address: whoever starts a login, which needs no account, holds a token that opens the
    administrator routes until the state is over. *)
Theorem login_state_opens_admin (nonce : string) (returnTo : option string) (now later : jsnum) (state : string) :
  googleStartRoute nonce returnTo now = Ok state ->
  let payload := statePayload nonce (JStr (default "/admin" returnTo)) 600000%float now in
  unseal (seal payload) = Some payload ->
  isFinite (now + 600000)%float = true -> (0 < ord (now + 600000)%float)%Z ->
  isFinite later = true -> (ord later <= ord (now + 600000)%float)%Z ->
  requireAdmin (Some state) later = None /\ sessionEmail (Some state) later = JNull.
Proof.
  unfold googleStartRoute. destruct (bool_decide _); [done|]. destruct (negb _); [done|].
  intros [= <-]. cbv zeta. intros Hu Fe Pe Fl Hle. unfold signOAuthState, requireAdmin, sessionEmail.
  rewrite verify_token; [by destruct (bool_decide _)|]. split; [done|]. unfold statePayload.
  change (expired (JObj ([("nonce", JStr nonce); ("returnTo", JStr (sanitizeReturnTo (JStr (default "/admin" returnTo))))]
                         ++ [("exp", JNum (now + 600000)%float)])) later = false).
  by apply expired_at.
Qed.

(** ** The Google login *)

Lemma sanitize_local (v : jsval) :
  String.prefix "/" (sanitizeReturnTo v) = true /\ String.prefix "//" (sanitizeReturnTo v) = false /\
  String.prefix "/api/" (sanitizeReturnTo v) = false.
Proof.
  destruct v as [| | | |s| |]; try done. unfold sanitizeReturnTo.
  destruct (String.prefix "/" s) eqn:E1, (String.prefix "//" s) eqn:E2, (String.prefix "/api/" s) eqn:E3; done.
Qed.

Lemma sanitize_source (v : jsval) : sanitizeReturnTo v = "/admin" \/ v = JStr (sanitizeReturnTo v).
Proof.
  destruct v as [| | | |s| |]; try (by left). unfold sanitizeReturnTo.
  destruct (_ || _ || _); [by left|by right].
Qed.

(** The last part of a text, after its last separator. *)
Lemma split_last (c : ascii) (s : string) :
  (split_on c s = [s] /\ lacks c s = true) \/
  exists a p q ps, split_on c s = p :: q :: ps /\
    s = a +:+ String c (List.last (q :: ps) "") /\ lacks c (List.last (q :: ps) "") = true.
Proof.
  unfold lacks. induction s as [|x s IH]; [by left|]. cbn [split_on all_chars].
  destruct (Ascii.eqb x c) eqn:Ex.
  - apply Ascii.eqb_eq in Ex as ->. right. destruct IH as [[-> Hl]|(a & p & q & ps & -> & Ea & Hl)].
    + by exists "", "", s, [].
    + exists (String c a), "", p, (q :: ps). split_and!; [done| |done].
      change (List.last (p :: q :: ps) "") with (List.last (q :: ps) "").
      change (String c a +:+ ?t) with (String c (a +:+ t)). by rewrite <- Ea.
  - destruct IH as [[-> Hl]|(a & p & q & ps & -> & Ea & Hl)]; [left; by rewrite Hl|right].
    exists (String x a), (String x p), q, ps. split_and!; [done| |done].
    change (String x a +:+ ?t) with (String x (a +:+ t)). by rewrite <- Ea.
Qed.

Lemma lacks_includes (c : ascii) (s : string) : lacks c s = true -> JsString.includes s (String c "") = false.
Proof.
  unfold lacks. induction s as [|x s IH]; [done|]. cbn [JsString.includes all_chars].
  intros [Hx Hs]%andb_true_iff. apply negb_true_iff, Ascii.eqb_neq in Hx. rewrite (IH Hs), orb_false_r.
  cbn [String.prefix]. destruct (ascii_dec c x) as [->|]; done.
Qed.

Lemma emailDomain_spec (mail : string) :
  emailDomain mail <> "" -> exists a, mail = a +:+ "@" +:+ emailDomain mail /\ lacks "@" (emailDomain mail) = true.
Proof.
  unfold emailDomain. destruct (JsString.includes mail "@") eqn:Ei; [|done]. intros _.
  destruct (split_last "@" mail) as [[_ Hl]|(a & p & q & ps & -> & E & Hl)].
  - rewrite (lacks_includes _ _ Hl) in Ei. done.
  - exists a. by split.
Qed.

(** The account of a session: verified, and of the allowed domain. *)
Definition allowed_account (user : jsval) (s : AdminSession) : Prop :=
  exists mail, email s = JStr mail /\ provider s = JStr "google" /\
    domain s = JStr (googleAllowedDomain env) /\ nonempty mail = true /\
    truthy (prop "email_verified" user) = true /\
    (googleAllowedDomain env <> "" -> exists a, mail = a +:+ "@" +:+ googleAllowedDomain env).

Lemma validate_allowed (user : jsval) (s : AdminSession) :
  validateGoogleUser user = Ok s -> allowed_account user s.
Proof.
  unfold validateGoogleUser. cbv zeta. destruct (nonempty (toLowerCase _)) eqn:En; [|done].
  destruct (truthy (prop "email_verified" user)) eqn:Ev; [|done]. cbn [negb orb].
  destruct (String.eqb _ (googleAllowedDomain env)) eqn:Ed; [|done]. cbn [negb]. apply String.eqb_eq in Ed.
  destruct (_ && _); [done|]. intros [= <-]. eexists. cbn [email provider domain].
  split_and!; try done; [by rewrite Ed|]. intros Hne. rewrite <- Ed in *.
  destruct (emailDomain_spec _ Hne) as (a & Ha & _). by exists a.
Qed.

(** C15. The callback of the Google login sets a session only when the state of the request
    is the one of the cookie, signed with the secret and not over, and Google answered
    with a verified account of the allowed domain. The redirect goes to [/admin] or to the
    text that this state carries, which starts with a slash and with neither two slashes nor
    the prefix of the API; this does not keep it on the site, since browsers read the
    backslash of [backslash_host_passes] below as a slash. *)
Theorem callback_sound (code state error cookieState : option string) (exchange : result jsval) (now : jsnum) :
  authMode env = prod ->
  let reply := googleCallbackRoute code state error cookieState exchange now in
  sessionCookie reply <> None ->
  cookieState = state /\
  (exists user s, exchange = Ok user /\ allowed_account user s /\
     sessionCookie reply = Some (signSession (to_string (email s)) 86400000%float "google"
                                   (Some (to_string (domain s))) now)) /\
  exists p path, signed state now p /\ location reply = Some path /\
    (path = "/admin" \/ prop "returnTo" p = JStr path) /\ String.prefix "/" path = true /\
    String.prefix "//" path = false /\ String.prefix "/api/" path = false.
Proof.
  intros Hm. cbv zeta. unfold googleCallbackRoute. rewrite Hm, bool_decide_eq_false_2 by done.
  destruct (match error with Some e => nonempty e | None => false end); [done|].
  destruct (match code with Some c => nonempty c | None => false end); [|done].
  destruct (verifyOAuthState state cookieState now) as [path|] eqn:Ev; [|done].
  destruct exchange as [user|?]; [|done]. cbn [bind_result].
  destruct (validateGoogleUser user) as [s|?] eqn:Eu; [|done]. intros _. cbn [sessionCookie location].
  unfold verifyOAuthState in Ev. destruct state as [st|], cookieState as [ck|]; try done.
  destruct (_ || _ || _) eqn:Eg; [done|]. apply orb_false_iff in Eg as [_ Eg%negb_false_iff%safeEqual_spec]. subst ck.
  destruct (openToken st) as [p|] eqn:Eo; [|done]. destruct (expired p now) eqn:Ee; [done|]. injection Ev as <-.
  split; [done|]. split.
  - exists user, s. split; [done|]. split; [by apply validate_allowed|done].
  - exists p, (sanitizeReturnTo (prop "returnTo" p)). split.
    + apply open_signed in Eo as (payload & rest & Hs & Hu). apply not_expired in Ee as [Ht Hl].
      by exists st, payload, rest.
    + split; [done|]. split; [apply sanitize_source|apply sanitize_local].
Qed.
End Tokens.

(** ** A concrete host *)

Definition letter (n : nat) : ascii := ascii_of_nat (97 + n).

(** Two letters for each byte. *)
Fixpoint letters (s : string) : string :=
  match s with
  | EmptyString => EmptyString
  | String c s' => String (letter (nat_of_ascii c / 16)) (String (letter (Nat.modulo (nat_of_ascii c) 16)) (letters s'))
  end.

Definition plain_text (v : jsval) : string :=
  match v with
  | JObj o => join "," (List.map (fun f => fst f +:+ "=" +:+ to_string (snd f)) o)
  | _ => to_string v
  end.

Definition sample_now : jsnum := 1000000000000%float.
Definition sample_later : jsnum := 1000000001000%float.
Definition sample_session : jsval := sessionPayload "solver@vr.ae" 86400000 "google" (Some "vr.ae") sample_now.
Definition sample_state : jsval := statePayload "nonce" (JStr "/admin") 600000 sample_now.

#[local] Instance sample_host : TokenHost := {|
  hmac secret text := String "y" (letters (secret +:+ text));
  seal v := String "x" (letters (plain_text v));
  unseal s := List.find (fun v => String.eqb (String "x" (letters (plain_text v))) s) [sample_session; sample_state] |}.

Lemma letter_plain (n : nat) : (n < 16)%nat -> Ascii.eqb (letter n) "." = false.
Proof. intros H. do 16 (destruct n as [|n]; [reflexivity|]). lia. Qed.

Lemma letters_plain (s : string) : lacks "." (letters s) = true.
Proof.
  unfold lacks. induction s as [|c s IH]; [done|]. cbn [letters all_chars]. pose proof (nat_ascii_bounded c).
  rewrite !letter_plain, IH; [done| |]; [apply Nat.mod_upper_bound; lia|apply Nat.Div0.div_lt_upper_bound; lia].
Qed.

#[local] Instance sample_laws : TokenHostLaws.
Proof.
  split; [intros secret text|intros v]; (split; [|done]); unfold lacks; cbn; apply letters_plain.
Qed.

Definition sample_env : Env := {|
  ADMIN_SESSION_SECRET := Some "secret"; ADMIN_EMAIL := None; ADMIN_PASSWORD := None;
  ADMIN_GOOGLE_CLIENT_ID := Some "client"; GOOGLE_CLIENT_ID := None;
  ADMIN_GOOGLE_CLIENT_SECRET := Some "key"; GOOGLE_CLIENT_SECRET := None;
  ADMIN_GOOGLE_ALLOWED_DOMAIN := None; ADMIN_AUTH_DISABLED := None; ADMIN_AUTH_REQUIRED := None;
  NODE_ENV := Some "production"; ADMIN_PUBLIC_ORIGIN := None; PUBLIC_ORIGIN := None;
  NEXT_PUBLIC_API_URL := None; ADMIN_GOOGLE_REDIRECT_URI := None |}.

Definition sample_cookie : option string :=
  Some (signSession sample_env "solver@vr.ae" 86400000 "google" (Some "vr.ae") sample_now).
Definition state_cookie : string := signOAuthState sample_env "nonce" (JStr "/admin") 600000 sample_now.

Lemma session_roundtrip_witness :
  verifySession sample_env sample_cookie sample_later =
    Some {| email := JStr "solver@vr.ae"; provider := JStr "google"; domain := JStr "vr.ae" |} /\
  requireAdmin sample_env sample_cookie sample_later = None /\
  sessionEmail sample_env sample_cookie sample_later = JStr "solver@vr.ae".
Proof.
  apply (session_roundtrip sample_env "solver@vr.ae" 86400000 sample_now sample_later "google" (Some "vr.ae"));
    vm_compute; reflexivity || discriminate.
Defined.

Lemma guard_sound_witness :
  exists p, signed sample_env sample_cookie sample_later p /\
    sessionEmail sample_env sample_cookie sample_later = if nullish (prop "email" p) then JNull else prop "email" p.
Proof. apply (guard_sound sample_env sample_cookie sample_later); vm_compute; reflexivity. Defined.

Lemma login_state_opens_admin_witness :
  authMode sample_env = prod /\
  requireAdmin sample_env (Some state_cookie) sample_later = None /\
  sessionEmail sample_env (Some state_cookie) sample_later = JNull.
Proof.
  split; [reflexivity|].
  apply (login_state_opens_admin sample_env "nonce" None sample_now sample_later state_cookie);
    vm_compute; reflexivity || discriminate.
Defined.

Definition sample_user : jsval :=
  JObj [("email", JStr "Solver@VR.ae "); ("email_verified", JBool true); ("hd", JStr "vr.ae")].

Lemma callback_sound_witness :
  let reply := googleCallbackRoute sample_env (Some "code") (Some state_cookie) None (Some state_cookie)
                 (Ok sample_user) sample_later in
  Some state_cookie = Some state_cookie /\
  (exists user s, Ok sample_user = Ok user /\ allowed_account sample_env user s /\
     sessionCookie reply = Some (signSession sample_env (to_string (email s)) 86400000%float "google"
                                   (Some (to_string (domain s))) sample_later)) /\
  exists p path, signed sample_env (Some state_cookie) sample_later p /\ location reply = Some path /\
    (path = "/admin" \/ prop "returnTo" p = JStr path) /\ String.prefix "/" path = true /\
    String.prefix "//" path = false /\ String.prefix "/api/" path = false.
Proof.
  apply (callback_sound sample_env (Some "code") (Some state_cookie) None (Some state_cookie) (Ok sample_user) sample_later);
    [reflexivity|vm_compute; discriminate].
Defined.

(** A backslash passes the check of the path to return to; browsers read it as a slash, so
    that this path names another host. *)
Example backslash_host_passes : sanitizeReturnTo (JStr "/\evil.example") = "/\evil.example".
Proof. reflexivity. Qed.
